(* ===== verification/_CoqProject ===== *)
-Q . S2P
Prelude.v
Types.v
Settings.v
Text.v
Regex.v
Artifacts.v
Netip.v
HostConfig.v
Queue.v
Worker.v
WorkerConc.v
Database.v
Fleet.v
Probe.v
Effects.v
Ports.v
Instances.v
Images.v
Sha256.v
Seccomp.v
Docker.v
Launch.v
Lifecycle.v
Roster.v
Reconcile.v
Builds.v
Converge.v
Builder.v
Rebuild.v
Challenges.v
Schemas.v
Converged.v
Update.v
Detect.v
HandOver.v
Preload.v
Submatch.v
BasePins.v
Search.v
Files.v
Refresh.v
Sources.v
Bundles.v
Routing.v
Deploy.v
Deployed.v
Loader.v
Markdown.v
Metrics.v
System.v
Server.v
Served.v
Corkd.v
