(* ===== verification/Prelude.v ===== *)
(** * cork: a verification library for the challenge orchestrator

    cork runs capture-the-flag challenges: it builds docker images of a
    challenge, launches instances of them on a fleet of docker workers, gives
    each instance host ports, and keeps all of it in one SQLite database.  The
    package [cork] ([src/cork]) holds the logic; [corkd] serves it over HTTP and
    two command lines drive it.  This library models the package's own logic,
    the daemon's API and the deploying commands, and proves what the rest of the
    system relies on.

    ** The parts and where they are modelled

    - [Prelude]: record update, 64-bit and 32-bit integers, broadcast channels,
      Go errors as lists of sentinels, shared list and map lemmas.
    - [Types]: [types.go], [errors.go].  [Settings]: the environment
      ([env.go]) and every tunable read from it, with [strconv.Atoi].
      [Text], [Netip]: numerals in names, and which texts [netip.ParseAddr]
      accepts.
    - [HostConfig]: the configuration a container is created with (part of
      [startContainers], [docker.go]; [cpu.go]; [seccompSecurityOpt]).
    - [Queue]: the slots of one daemon ([daemonQueue], [acquireSlot]) as a step
      relation over any number of goroutines, its wait estimate, and the ring of
      recent launches ([launchmetrics.go]).
    - [Worker], [WorkerConc]: the state of one worker ([workerConn]); the
      compare-and-swap loop of [setReachable] taken apart into its atomic
      operations and interleaved.
    - [Fleet]: the Manager's registry of workers and all operations on it
      ([workers.go]); conns live on a heap, since goroutines keep pointers to
      replaced ones.  [Probe]: the poller ([pollWorker]).
    - [Database]: the tables of [database.go] with their constraints and
      cascades; each statement the code runs is a function on them.
    - [Effects]: the monad.  A function with effects passes a [World]: the
      Manager, the docker calls made so far, and an oracle for what the program
      does not control.
    - [Ports], [Instances]: host ports and instance records
      ([database_instances.go]).  [Images]: checksums and image names
      ([docker.go]).  [Docker]: the calls that start and remove an instance's
      containers and network ([docker.go], [launch.go]).
    - [Launch]: a launch, a stop and a restart end to end ([launch.go],
      [api.go]); [Lifecycle] has its theorems.
    - [Reconcile]: the pass over a worker that removes what no record owns
      ([worker_reconcile.go]), a worker's life up to its poller, and [Prune]
      ([api.go]).
    - [Builds]: the records of a build and the removal of its images
      ([database_builds.go], [docker.go]).
    - [Artifacts]: the archive a build publishes ([artifacts.go]), with
      [path.Clean].  [Builder]: making the images of a build ([executeBuild],
      [validateBuild], [publishImages]; [registry.go]'s question for a tag).
    - [Converge]: bringing a build to its number of instances and taking a
      schema down ([api.go]); [Roster] counts instances across the operations.
    - [Rebuild]: bringing a build to its challenge's current source, with the
      instances that run it ([rebuildBuilds], [reconcileBuild]).  [Challenges]:
      the rows of a challenge and what a scan of the tree leads to
      ([addChallenges], [updateChallenges], [DetectChanges],
      [UpdateWithOptions]), with its theorems in [Update] and [Detect].
    - [Schemas], [Converged]: a whole schema, from its document to its builds
      and instances ([createSchema], [UpdateSchema], [convergeSchema],
      [generateBuilds]), and what a converge comes to.
    - [Regex], [Sha256], [Seccomp]: regular expressions by derivatives, SHA-256,
      and seccomp profiles, read, checked, sent and put back ([seccomp.go]).
    - [HandOver]: taking over a build made elsewhere ([handover.go],
      [registry.go]), and the dump of the records ([database.go]).
    - [Preload]: keeping the images of chosen schemas on the workers
      ([preload.go]).
    - [Submatch], [BasePins], [Refresh]: patterns with groups by backtracking,
      the pinning of a Dockerfile's base images, the pin file and its refresh
      ([basepins.go]).
    - [Files]: directory trees with [filepath.Walk], and a disk that may crash
      between any two operations.  [Sources]: the scan for challenges, the
      checksum of a source and the build context ([filesystem.go]).
    - [Search], [Loader], [Markdown]: finding and replacing with expressions; a
      challenge's Dockerfile, texts, options and identifier ([loader.go]); the
      file it is written in, and the HTML within ([loader_markdown.go]).
    - [Bundles]: the directories artifact bundles are kept in and moved between
      ([filesystem.go]).  [Metrics]: the samples of launches and teardowns and
      the goroutine that reports them ([launchmetrics.go]).
    - [Routing], [Deploy], [Deployed]: the build plane's program
      ([cmd/cork-build]): where schemas go, the commands that build, add, update,
      remove and move them, and what those come to.
    - [Server], [Served]: the HTTP API of the daemon ([cmd/corkd]): the paths and
      queries of a request, the multiplexer, responses, every handler against an
      interface of the Manager's operations, and what an answer tells of them.
      [Corkd]: that interface met by the Manager of the other files, with the
      reads it serves (search by tag, the metadata of an instance).
    - [System]: all requests as one transition system.

    ** How the model corresponds to the code

    A Go function is a Rocq function of the same name.  A method of the Manager
    that only computes on it is a function [Manager -> ...]; one with effects is
    in the monad [M] of [Effects].  [(T, error)] is [error + T]; an error is the
    list of sentinels [errors.Is] finds in it.  Maps are [gmap], the database is
    a record of finite maps and lists of rows, a [chan struct{}] used as a
    broadcast is [bchan] (closing twice is [chan_panic]).  [int], [int64] and
    [time.Duration] wrap at 64 bits where the code computes with them.

    The outside is an [Oracle]: what each statement and docker call answers, the
    clock, the random source, what the daemon lists, and what other goroutines
    do to the fleet and the port table between two calls.  Every use takes a
    fresh tick, and the theorems hold for all oracles, so they cover every
    failure at every point.  A theorem about a success or an orderly end states
    what it asks of the outside ([db_quiet]: no statement fails; [spared]: no
    one removes the worker meanwhile; [young], a clock that moves on).

    ** What the theorems show

    - The fleet: the registry stays sound under any sequence of operations
      ([fleet_invariant]); an operator's down holds ([down_until_operator],
      [down_never_lifted]); placement is the first eligible worker in round
      robin order and is fair ([selectWorker_spec], [selectWorker_fair]); what
      ejects a worker and what brings it back ([transport_error_scope],
      [failing_probes_eject], [probe_recovers], [noteTimeout_stalls]).
    - Concurrency: a broadcast is closed at most once under any interleaving
      ([broadcast_closed_once]); slots are bounded, never leaked, and never
      deadlock ([slots_kept], [slots_progress]).
    - The records: no two assignments of a port on a worker, no dangling row, in
      every reachable state ([reachable_tables_ok]); reads give back what was
      written ([finalizeInstance_roundtrip], [finalizeBuild_roundtrip]);
      reservation is correct against rivals ([reservePort_correct]).
    - Instances: what a launch and a stop leave on the daemon and on record,
      whatever fails ([Lifecycle], [launch_before_slot_leaves_nothing]); a pass
      over a worker never touches a recorded instance and leaves nothing else
      ([reconcile_spares_recorded], [reconcile_done_is_clean]) and is not
      retried for ever ([reconcileWithRetries_ends]); [Prune] takes what is due
      and nothing else.
    - Images: distinct builds have distinct names ([contentChecksum_separates],
      [image_names_injective]) and removing one build's images never takes
      another's ([destroyImages_spares_builds]).
    - Builds: a build that succeeds serves every image it names and the registry
      is written once ([executeBuild_serves], [executeBuild_write_once]); what
      an archive can make the server write stays inside its limits and its
      directory ([cacheArtifacts_confined]).
    - Schemas: a converge reaches its target and a removal takes everything of
      the schema and nothing else ([converge_reaches_target],
      [DeleteSchema_clears]).
    - Updates: every challenge gets exactly one verdict ([scan_partitions]); an
      update that reports no error leaves nothing to update
      ([update_converges]); what is written is what is read
      ([rewriteChallenge_roundtrip]); a rebuild rotates the retention pair and
      prunes only what no build resolves to ([rebuild_rotates],
      [rebuild_prune_spares]).
    - Converging: a converge that reports no error has every build of its
      schema complete with its instances and nothing else of it left
      ([convergeSchema_correct]); a refusal changes nothing
      ([convergeSchema_refused_whole]); no two rows of builds share a key
      ([reachable_builds_unique]).
    - Hand-overs: a payload is accepted exactly when it is well formed
      ([checkHandOver_decides]), the requests made for its tags are exactly the
      ones meant ([registry_request_exact]), a success commits all of it
      ([handOver_commits]) and a refusal nothing ([handOver_refused_whole]).
    - Preloads: a pass removes nothing that is still wanted ([preload_spares])
      and, on a worker that answers, brings all that is ([preload_brings]).
    - Base pins: pinning changes the image of a [FROM] and nothing else
      ([pinDockerfile_rewrites]) and leaves no pinned base out
      ([pinDockerfile_complete]); the pin file is old or new after any crash
      ([writeBasePins_atomic]), and a refresh never loses a pin that is in use
      ([RefreshBasePins_keeps]).
    - Sources: what is built is what was checksummed ([context_covered]); the
      scan finds exactly what is there ([inventoryChallenges_exact]).
    - Loading: a Dockerfile's hosts and ports are read exactly
      ([processDockerfile_decides]); what loads has an identity a hand-over
      accepts ([loaded_identity]), texts a front end can fill in
      ([loaded_templates]) and options a container can be configured with, its
      seccomp profile in force ([loaded_options]); converting HTML touches the
      HTML and nothing else ([parseMarkdown_converts]), and sections are read
      each by itself ([loadMarkdown_sections]).
    - Bundles: moving the bundles of a schema never has a moment at which a
      crash loses one ([RelocateArtifactBundles_safe]) and moves all of them and
      nothing else ([RelocateArtifactBundles_moves]); a removal stays inside the
      directories cork made ([removeArtifactBundle_confined]); a promotion is
      old or new ([promoteBundle_atomic]).
    - Metrics: every sample is sent, lost to a failed write, waiting or counted
      as dropped, in order ([exporter_accounts]); a dead endpoint is neither
      dialled nor complained of more often than its intervals
      ([exporter_quiet]).
    - Deploying: whatever commands run and however they end, no two orchestrators
      configured serve one schema ([commands_keep_exclusive]); a build that ends
      well has its schemas served where they belong ([build_deploys]), a
      migration has moved its schema and left its images ([migrate_moves]), a
      removal leaves it nowhere ([remove_clears]).  Payloads carry exactly what
      was built ([assembleAll_delivers]) and only what an orchestrator's own check
      of identities accepts is sent ([build_hands_over_checked]).  The
      orchestrators are asked for what the class [Orchestrators] says, the
      Manager for [Recalls], which [managerPlane_recalls] shows of the model.
    - Serving: no request, however it ends, breaks the tables
      ([requests_keep_tables]); a stop that is answered well has the instance
      gone ([stopped_is_gone]); the answers to a launch and to a converge say
      what came of it ([launch_tells], [converge_tells]); a path names the one
      target its client wrote ([path_names_target]); what the multiplexer or a
      handler's first checks refuse leaves the state as it was
      ([refused_untouched]).

    ** Bounds and fuel

    [retryLoop] takes fuel; [reconcileWithRetries_ends] shows that the retry
    budget in nanoseconds plus one is enough under a clock that moves on.
    [readBack] is bounded by the ten tries of the code, [reserveLoop] by its
    fifty attempts, [scanPorts] by the size of the range.  All other recursion
    is structural.  The poller's loop runs over a finite list of ticks.

    ** Not modelled

    The docker client, SQLite, the HTTP client and the parsers of other packages
    are the oracle's or parameters.  Not modelled of the package itself:
    database migrations, and log lines other than the exporter's.  A build that
    is finished wakes the preload passes; that signal is left out of
    [finalizeBuild], as passes also run by themselves.
    Nor are the client ([cmd/cork]), which sends the daemon's requests, the
    flags, usage text and listening socket of [cmd/corkd], and of
    [cmd/cork-build] the commands that only print or edit a tree.  Mutexes are not modelled where the code holds one for a whole
    operation: the operation is then one step. *)

From Stdlib Require Export ZArith Lia Bool Ascii String.
From stdpp Require Export base tactics numbers list gmap fin_maps strings pretty sorting.

Declare Scope cork_scope.
Delimit Scope cork_scope with cork.
Open Scope cork_scope.
#[global] Set Default Goal Selector "1".

(** ** Record update

    Go mutates struct fields in place; [r <| f := v |>] is the record [r] with
    its field [f] replaced.  A record joins by giving its eta-expansion
    ([Eta]); the setter of a field is found by abstracting that field in it. *)
Class Eta (R : Type) := eta : R -> R.
Class Setter {R T : Type} (proj : R -> T) := setter : (T -> T) -> R -> R.
Arguments setter {R T} proj {_} f r /.

Ltac derive_setter :=
  lazymatch goal with
  | |- @Setter ?R ?T ?proj =>
    let e := constr:(fun (f : T -> T) (r : R) => ltac:(
      let whole := eval hnf in (eta r) in
      lazymatch eval pattern (proj r) in whole with
      | ?k (proj r) => let b := eval cbv beta in (k (f (proj r) : T)) in exact b
      end) : R) in exact e
  end.
#[global] Hint Extern 1 (Setter _) => derive_setter : typeclass_instances.

Notation "r <| f := v |>" := (setter f (fun _ => v) r)
  (at level 1, f at next level, left associativity) : cork_scope.
Notation "r <| f ::= g |>" := (setter f g r)
  (at level 1, f at next level, left associativity) : cork_scope.

(** ** Machine integers

    Go's [int], [int64] and [time.Duration] are signed 64-bit words: the
    arithmetic wraps, and division truncates towards zero. *)
Definition two63 : Z := 9223372036854775808.
Definition wrap64 (z : Z) : Z := ((z + two63) mod (2 * two63) - two63)%Z.
Definition in64 (z : Z) : Prop := (- two63 <= z < two63)%Z.
Definition add64 (a b : Z) : Z := wrap64 (a + b).
Definition sub64 (a b : Z) : Z := wrap64 (a - b).
Definition mul64 (a b : Z) : Z := wrap64 (a * b).
Definition div64 (a b : Z) : Z := Z.quot a b.
Definition maxInt32 : Z := 2147483647.
Definition wrap32 (z : Z) : Z := ((z + 2147483648) mod 4294967296 - 2147483648)%Z.

(** Durations, in nanoseconds, as package [time] defines them. *)
Definition Nanosecond : Z := 1.
Definition Millisecond : Z := 1000000.
Definition Second : Z := 1000000000.
Definition Minute : Z := 60000000000.

(** ** Channels used as broadcasts

    A [chan struct{}] that is only ever closed.  Closing a closed channel is a
    run-time panic in Go; the model keeps that outcome as a state of its own so
    that its absence is a theorem and not a convention. *)
Inductive bchan := chan_open | chan_closed | chan_panic.
Definition close_chan (c : bchan) : bchan :=
  match c with chan_open => chan_closed | _ => chan_panic end.
#[export] Instance bchan_eq_dec : EqDecision bchan.
Proof. solve_decision. Defined.

(** ** Go errors

    A Go error is the set of errors [errors.Is] finds along its wrap chain.
    The texts are not modelled.  [UnknownIdentifierError] is the one error the
    code matches by type and carries what it names. *)
Inductive sentinel :=
| DeadlineExceeded              (* context.DeadlineExceeded *)
| ConnectionFailed              (* client.IsErrConnectionFailed *)
| NetError                      (* a net.Error or *url.Error in the chain *)
| NotFound | Conflict           (* errdefs.IsNotFound, errdefs.IsConflict *)
| ErrWorkerBusy | ErrWorkerUnreachable | ErrPullTimeout
| ErrDatabaseBusy | SqliteBusy | SqliteConstraint | ErrTxDone
| ErrAllWorkersOverloaded | ErrAllWorkersUnresponsive | ErrAllWorkersDown
| ErrNoWorkers | ErrExternalBuildPlane | ErrLocalBuildPlane
| ErrHandOverInvalid | ErrNotInRegistry | ErrChallengeHasBuilds
| UnknownIdentifier (ty name : string)
| HttpStatus (code : Z)         (* a status the registry answered with *)
| OtherError (what : string).
#[export] Instance sentinel_eq_dec : EqDecision sentinel.
Proof. solve_decision. Defined.

Abbreviation error := (list sentinel).
Definition errors_Is (e : error) (s : sentinel) : bool := bool_decide (s ∈ e).

(** ** Automation *)
Create HintDb cork.

(** Splits the conditionals and matches of a goal or hypothesis and closes
    the contradictory branches; what unfolding a handler leaves. *)
Ltac cases :=
  repeat first
    [ progress simplify_eq/=
    | case_match
    | progress case_bool_decide
    | progress case_decide ].

(** Destructs every [if]/[match] scrutinee of hypothesis [H] in turn. *)
Ltac cases_in H :=
  repeat match type of H with
  | context [match ?x with _ => _ end] => destruct x eqn:?; simplify_eq/=
  end.

Section ints.
Local Open Scope Z_scope.

Lemma wrap64_id z : in64 z -> wrap64 z = z.
Proof. unfold in64, wrap64, two63. intros H. rewrite Z.mod_small; lia. Qed.

Lemma wrap64_in64 z : in64 (wrap64 z).
Proof.
  unfold in64, wrap64, two63.
  pose proof (Z.mod_pos_bound (z + 9223372036854775808) (2 * 9223372036854775808)).
  lia.
Qed.

End ints.

(** ** Generic lemmas *)

(** Removing one occurrence: [append(l[:i], l[i+1:]...)] for the first [i]
    holding [x]. *)
Fixpoint remove_first `{EqDecision A} (x : A) (l : list A) : list A :=
  match l with
  | [] => []
  | y :: l => if decide (y = x) then l else y :: remove_first x l
  end.

Section lists.
Context `{EqDecision A}.
Implicit Types (x y : A) (l : list A).

Lemma remove_first_elem x y l :
  NoDup l -> y ∈ remove_first x l <-> y ∈ l /\ y <> x.
Proof.
  induction 1 as [|z l Hz Hl IH]; simpl; [set_solver|].
  case_decide as E; subst; set_solver.
Qed.

Lemma remove_first_subset x y l : y ∈ remove_first x l -> y ∈ l.
Proof. induction l; simpl; [done|]. case_decide; set_solver. Qed.

Lemma remove_first_NoDup x l : NoDup l -> NoDup (remove_first x l).
Proof.
  induction 1 as [|z l Hz Hl IH]; simpl; [constructor|].
  case_decide; [done|]. constructor; [|done].
  intros Hin. by apply remove_first_subset in Hin.
Qed.

End lists.
#[export] Hint Resolve remove_first_NoDup : cork.

(** ** Counting the entries of a finite map

    How many goroutines are at a program point, how many rows satisfy a
    condition: the size of the filtered map. *)
Definition count_if {A} (f : A -> bool) (m : gmap nat A) : nat :=
  size (filter (fun kv => f kv.2 = true) m).

Section counting.
Context {A : Type}.
Implicit Types (m : gmap nat A) (f g : A -> bool).

Lemma count_if_empty f : count_if f ∅ = 0.
Proof. unfold count_if. by rewrite map_filter_empty, map_size_empty. Qed.

Lemma count_if_insert_None f m k a :
  m !! k = None -> count_if f (<[k:=a]> m) = (if f a then S (count_if f m) else count_if f m).
Proof.
  intros Hk. unfold count_if. destruct (f a) eqn:Ha.
  - rewrite map_filter_insert_True by done.
    rewrite map_size_insert_None; [done|].
    apply map_lookup_filter_None. by left.
  - rewrite map_filter_insert_not'; [done|simpl; congruence|intros y; simpl; congruence].
Qed.

Lemma count_if_insert f m k a b :
  m !! k = Some a ->
  count_if f (<[k:=b]> m) + (if f a then 1 else 0) = count_if f m + (if f b then 1 else 0).
Proof.
  intros Hk. rewrite <- (insert_delete_id m k a Hk) at 2.
  rewrite <- (insert_delete_eq m k b).
  rewrite !count_if_insert_None by (by rewrite lookup_delete_eq).
  destruct (f a), (f b); lia.
Qed.

Lemma count_if_pos f m k a : m !! k = Some a -> f a = true -> 0 < count_if f m.
Proof.
  intros Hk Ha. unfold count_if. apply Nat.neq_0_lt_0. intros H0.
  apply map_size_empty_inv in H0.
  assert (filter (fun kv : nat * A => f kv.2 = true) m !! k = Some a) as Hf
    by (by apply map_lookup_filter_Some).
  rewrite H0 in Hf. by rewrite lookup_empty in Hf.
Qed.

Lemma count_if_le f g m : (forall a, f a = true -> g a = true) -> count_if f m <= count_if g m.
Proof.
  intros Hfg. unfold count_if. apply map_subseteq_size.
  apply map_filter_subseteq_ext. intros i x _. apply Hfg.
Qed.

Lemma count_if_none f m : (forall k a, m !! k = Some a -> f a = false) -> count_if f m = 0.
Proof.
  intros H. unfold count_if. apply map_size_empty_iff, map_empty. intros k.
  apply map_lookup_filter_None. right. intros a Ha. simpl. by rewrite (H k a Ha).
Qed.

End counting.
