(* ===== verification/Types.v ===== *)
(** * Types: the data model of [cork/types.go] and [cork/errors.go]

    Identifiers, build and instance metadata, schemas and the delivery type
    derived from a challenge.  Go maps are [gmap]s; a nil and an empty map
    coincide.  [time.Time] values are nanoseconds since the epoch. *)
From S2P Require Import Prelude.

(** Instance counts that are not counts. *)
Definition DYNAMIC_INSTANCES : Z := -1.
Definition LOCKED : Z := -2.

Abbreviation ChallengeId := string.
Abbreviation BuildId := Z.
Abbreviation InstanceId := Z.
Abbreviation ImageId := Z.

Inductive DeliveryType :=
| DeliveryUnset | DeliveryService | DeliveryArtifactOnly | DeliveryFlagOnly.
#[export] Instance DeliveryType_eq_dec : EqDecision DeliveryType.
Proof. solve_decision. Defined.

Definition deriveDeliveryType (challengeType : string) (publishedPorts : nat) : DeliveryType :=
  if decide (challengeType = "flag-only") then DeliveryFlagOnly
  else if decide (publishedPorts = 0) then DeliveryArtifactOnly
  else DeliveryService.

Record PortInfo := mkPortInfo { pi_host : string; pi_port : Z }.
Record HostInfo := mkHostInfo { hi_name : string; hi_target : string }.

(** [Image]: one container image of a build. *)
Record Image := mkImage {
  img_id : ImageId;
  img_host : string;
  img_ports : list string;
  img_build : BuildId }.

Record InstanceMetadata := mkInstance {
  im_id : InstanceId;
  im_isFinalized : bool;
  im_ports : gmap string Z;
  im_containers : list string;
  im_lastSolved : Z;
  im_createdAt : option Z;
  im_build : BuildId;
  im_worker : string;
  im_workerPublic : string;
  im_hostname : string }.
#[export] Instance eta_InstanceMetadata : Eta InstanceMetadata := fun r =>
  mkInstance (im_id r) (im_isFinalized r) (im_ports r) (im_containers r) (im_lastSolved r)
    (im_createdAt r) (im_build r) (im_worker r) (im_workerPublic r) (im_hostname r).

Record BuildMetadata := mkBuild {
  bm_id : BuildId;
  bm_flag : string;
  bm_lookupData : gmap string string;
  bm_seed : Z;
  bm_format : string;
  bm_checksum : Z;
  bm_prevChecksum : Z;
  bm_sourceChecksum : Z;
  bm_images : list Image;
  bm_hasArtifacts : bool;
  bm_lastSolved : Z;
  bm_challenge : ChallengeId;
  bm_instances : list InstanceMetadata;
  bm_schema : string;
  bm_instanceCount : Z }.
#[export] Instance eta_BuildMetadata : Eta BuildMetadata := fun r =>
  mkBuild (bm_id r) (bm_flag r) (bm_lookupData r) (bm_seed r) (bm_format r) (bm_checksum r)
    (bm_prevChecksum r) (bm_sourceChecksum r) (bm_images r) (bm_hasArtifacts r) (bm_lastSolved r)
    (bm_challenge r) (bm_instances r) (bm_schema r) (bm_instanceCount r).

(** A build as [&BuildMetadata{Seed: ..., ...}] leaves the unnamed fields. *)
Definition newBuild (seed : Z) (format : string) (challenge : ChallengeId) (schema : string)
    (instanceCount : Z) : BuildMetadata :=
  mkBuild 0 "" ∅ seed format 0 0 0 [] false 0 challenge [] schema instanceCount.

(** [SeccompOptions]: the profile's file name, its hash, its resolved text. *)
Record SeccompOptions := mkSeccomp {
  sc_profile : string;
  sc_profileHash : string;
  sc_effectiveProfile : string }.
#[export] Instance SeccompOptions_eq_dec : EqDecision SeccompOptions.
Proof. solve_decision. Defined.
#[export] Instance eta_SeccompOptions : Eta SeccompOptions := fun r =>
  mkSeccomp (sc_profile r) (sc_profileHash r) (sc_effectiveProfile r).

Record ContainerOptions := mkContainerOptions {
  co_init : bool;
  co_cpus : string;
  co_memory : string;
  co_ulimits : list string;
  co_pidsLimit : Z;
  co_readonlyRootfs : bool;
  co_droppedCaps : list string;
  co_noNewPrivileges : bool;
  co_diskQuota : string;
  co_cgroupParent : string;
  co_capImmutable : bool;
  co_seccomp : option SeccompOptions }.
#[export] Instance ContainerOptions_eq_dec : EqDecision ContainerOptions.
Proof. solve_decision. Defined.
#[export] Instance eta_ContainerOptions : Eta ContainerOptions := fun r =>
  mkContainerOptions (co_init r) (co_cpus r) (co_memory r) (co_ulimits r) (co_pidsLimit r)
    (co_readonlyRootfs r) (co_droppedCaps r) (co_noNewPrivileges r) (co_diskQuota r) (co_cgroupParent r)
    (co_capImmutable r) (co_seccomp r).

(** [ChallengeOptions]: the challenge-wide options and the per-host ones.
    [NetworkOptions] is an empty struct. *)
Record ChallengeOptions := mkChallengeOptions {
  cho_container : ContainerOptions;
  cho_overrides : gmap string ContainerOptions }.
#[export] Instance ChallengeOptions_eq_dec : EqDecision ChallengeOptions.
Proof. solve_decision. Defined.
#[export] Instance eta_ChallengeOptions : Eta ChallengeOptions := fun r =>
  mkChallengeOptions (cho_container r) (cho_overrides r).

Record ChallengeMetadata := mkChallenge {
  cm_id : ChallengeId;
  cm_name : string;
  cm_namespace : string;
  cm_challengeType : string;
  cm_description : string;
  cm_details : string;
  cm_hints : list string;
  cm_sourceChecksum : Z;
  cm_metadataChecksum : Z;
  cm_path : string;
  cm_templatable : bool;
  cm_portMap : gmap string PortInfo;
  cm_hosts : list HostInfo;
  cm_maxUsers : Z;
  cm_category : string;
  cm_points : Z;
  cm_tags : list string;
  cm_attributes : gmap string string;
  cm_options : ChallengeOptions;
  cm_solveScript : bool;
  cm_deliveryType : DeliveryType;
  cm_builds : list BuildMetadata }.
#[export] Instance eta_ChallengeMetadata : Eta ChallengeMetadata := fun r =>
  mkChallenge (cm_id r) (cm_name r) (cm_namespace r) (cm_challengeType r) (cm_description r)
    (cm_details r) (cm_hints r) (cm_sourceChecksum r) (cm_metadataChecksum r) (cm_path r)
    (cm_templatable r) (cm_portMap r) (cm_hosts r) (cm_maxUsers r) (cm_category r) (cm_points r)
    (cm_tags r) (cm_attributes r) (cm_options r) (cm_solveScript r) (cm_deliveryType r) (cm_builds r).

Definition NeedsInstance (cm : ChallengeMetadata) : bool :=
  bool_decide (cm_deliveryType cm = DeliveryUnset)
  || bool_decide (cm_deliveryType cm = DeliveryService).

Record BuildSpecification := mkSpec { spec_seeds : list Z; spec_instanceCount : Z }.

(** [Schema]; ranging over [Challenges] visits the keys in no fixed order, and
    the model ranges in the order [map_to_list] enumerates them. *)
Record Schema := mkSchema {
  sch_name : string;
  sch_flagFormat : string;
  sch_challenges : gmap ChallengeId BuildSpecification;
  sch_destination : string }.

(** The typed errors of [errors.go]. *)
Definition unknownChallengeIdError (id : ChallengeId) : error := [UnknownIdentifier "challenge" id].
Definition unknownBuildIdError (id : BuildId) : error := [UnknownIdentifier "build" (pretty id)].
Definition unknownInstanceIdError (id : InstanceId) : error := [UnknownIdentifier "instance" (pretty id)].
Definition unknownWorkerError (ip : string) : error := [UnknownIdentifier "worker" ip].

(** [errors.As(err, &unknown)] for an [*UnknownIdentifierError]. *)
Definition isUnknownIdentifier (e : error) : bool :=
  existsb (fun s => match s with UnknownIdentifier _ _ => true | _ => false end) e.

(** Deriving a delivery type always settles it: the fallback of
    [NeedsInstance] for an unset one is never what decides. *)
Lemma deriveDeliveryType_set t n : deriveDeliveryType t n <> DeliveryUnset.
Proof. unfold deriveDeliveryType. by cases. Qed.

Lemma deriveDeliveryType_service t n :
  deriveDeliveryType t n = DeliveryService <-> t <> "flag-only" /\ n <> 0.
Proof. unfold deriveDeliveryType. cases; naive_solver. Qed.
