(* ===== verification/Settings.v ===== *)
(** * Settings: what the daemon reads from its environment

    [cork/env.go] (the CORK_ names and their CMGR_ fallback), the integer
    readers of [cork/launch.go], [cork/policy.go] and [cork/workers.go], the
    worker tunables ([workerTimingFromEnv]), the port range ([getPortRange])
    and the build plane ([initBuildPlane]).  The process environment is a
    finite map; log lines are not modelled. *)
From S2P Require Import Prelude.
Local Open Scope Z_scope.

Abbreviation environ := (gmap string string).

(** ** Strings: the pieces of [strings] and [strconv] the readers use *)

(** [strings.CutPrefix]. *)
Fixpoint CutPrefix (s pre : string) {struct pre} : option string :=
  match pre, s with
  | EmptyString, _ => Some s
  | String p pre, String c s => if decide (c = p) then CutPrefix s pre else None
  | String _ _, EmptyString => None
  end.
Definition TrimPrefix (s pre : string) : string :=
  match CutPrefix s pre with Some rest => rest | None => s end.
Definition HasPrefix (s pre : string) : bool := bool_decide (is_Some (CutPrefix s pre)).

(** [strings.Split] on a one-character separator. *)
Fixpoint SplitOn (sep : Ascii.ascii) (s : string) : list string :=
  match s with
  | EmptyString => [EmptyString]
  | String c s =>
    if decide (c = sep) then EmptyString :: SplitOn sep s
    else match SplitOn sep s with
         | [] => [String c EmptyString]
         | w :: ws => String c w :: ws
         end
  end.

Definition digitVal (c : Ascii.ascii) : option Z :=
  let n := Z.of_nat (Ascii.nat_of_ascii c) in
  if decide (48 <= n <= 57) then Some (n - 48) else None.

(** The value of a string of decimal digits, [None] on any other character. *)
Fixpoint digitsVal (acc : Z) (s : string) : option Z :=
  match s with
  | EmptyString => Some acc
  | String c s =>
    match digitVal c with
    | Some d => digitsVal (acc * 10 + d) s
    | None => None
    end
  end.

(** [strconv.ParseInt(s, 10, 64)], and so [strconv.Atoi]: an optional sign,
    at least one digit, in the range of an [int64]. *)
Definition ParseInt (s : string) : option Z :=
  let '(neg, digits) :=
    match s with
    | String "-"%char rest => (true, rest)
    | String "+"%char rest => (false, rest)
    | _ => (false, s)
    end in
  if decide (digits = EmptyString) then None
  else match digitsVal 0 digits with
       | Some v =>
         let v := if neg : bool then - v else v in
         if decide (- two63 <= v < two63) then Some v else None
       | None => None
       end.
Definition Atoi : string -> option Z := ParseInt.

(** ** Lookups *)
Definition envPrefix : string := "CORK_".
Definition legacyEnvPrefix : string := "CMGR_".
Definition legacyEnvName (name : string) : string :=
  (legacyEnvPrefix +:+ TrimPrefix name envPrefix)%string.

Definition LookupEnv (env : environ) (name : string) : option string :=
  match env !! name with
  | Some v => Some v
  | None => if HasPrefix name envPrefix then env !! legacyEnvName name else None
  end.
Definition Getenv (env : environ) (name : string) : string := default ""%string (LookupEnv env name).

(** [legacySettingsInUse]: the pre-rename names present, in byte order. *)
Definition legacySettingsInUse (settingNames : list string) (env : environ) : list string :=
  merge_sort String.le
    (filter (fun legacy => is_Some (env !! legacy)) (legacyEnvName <$> settingNames)).

Definition envCount (env : environ) (name : string) (n : Z) : Z :=
  match LookupEnv env name with
  | None => n
  | Some s => match Atoi s with
              | Some v => if decide (v < 1) then n else v
              | None => n
              end
  end.

(** [envSlots]: a per-daemon slot count, 1 to 16. *)
Definition envSlots (env : environ) (name : string) (def : Z) : Z :=
  match LookupEnv env name with
  | None => def
  | Some s => match Atoi s with
              | Some n => if decide (n < 1 \/ n > 16) then def else n
              | None => def
              end
  end.

(** [positiveEnvInt]: an error rather than a fallback for a bad value. *)
Definition positiveEnvInt (env : environ) (name : string) (fallback : Z) : error + Z :=
  match Atoi (default (pretty fallback) (LookupEnv env name)) with
  | Some v => if decide (v <= 0) then inl [OtherError name] else inr v
  | None => inl [OtherError name]
  end.

(** ** The worker tunables *)
Record workerTiming := mkTiming {
  pollInterval : Z; pollTimeout : Z; pingTimeout : Z; deepProbeInterval : Z;
  maxMisses : Z; loadMisses : Z; healthyThreshold : Z;
  recoverBackoff : Z; recoverBackoffMax : Z; ejectionDecay : Z;
  controlTimeout : Z; timeoutsToEject : Z; timeoutWindow : Z;
  pullTimeout : Z; launchWait : Z; teardownWait : Z }.
#[export] Instance eta_workerTiming : Eta workerTiming := fun t =>
  mkTiming (pollInterval t) (pollTimeout t) (pingTimeout t) (deepProbeInterval t)
    (maxMisses t) (loadMisses t) (healthyThreshold t) (recoverBackoff t) (recoverBackoffMax t)
    (ejectionDecay t) (controlTimeout t) (timeoutsToEject t) (timeoutWindow t)
    (pullTimeout t) (launchWait t) (teardownWait t).

Definition minPollInterval : Z := 10 * Millisecond.

Definition defaultWorkerTiming : workerTiming := {|
  pollInterval := 5 * Second;
  pollTimeout := 250 * Millisecond;
  pingTimeout := Second;
  deepProbeInterval := 30 * Second;
  maxMisses := 6;
  loadMisses := 3;
  healthyThreshold := 2;
  recoverBackoff := 10 * Second;
  recoverBackoffMax := 5 * Minute;
  ejectionDecay := 5 * Minute;
  controlTimeout := 30 * Second;
  timeoutsToEject := 3;
  timeoutWindow := 2 * Minute;
  pullTimeout := 30 * Second;
  launchWait := 10 * Second;
  teardownWait := 30 * Second |}.

Definition clampProbeTimeout (d interval : Z) : Z :=
  if decide (d < interval) then d else div64 interval 2.

Section timing.
(** [time.ParseDuration]: any parser does, the readers check what it returns. *)
Context (parseDuration : string -> option Z).

Definition envDuration (env : environ) (name : string) (d : Z) : Z :=
  match LookupEnv env name with
  | None => d
  | Some s => match parseDuration s with
              | Some v => if decide (v <= 0) then d else v
              | None => d
              end
  end.

(** The sixteen overrides, each variable read on its own. *)
Definition timingOverrides (env : environ) (t : workerTiming) : workerTiming := {|
  pollInterval := envDuration env "CORK_WORKER_POLL_INTERVAL" (pollInterval t);
  pollTimeout := envDuration env "CORK_WORKER_POLL_TIMEOUT" (pollTimeout t);
  pingTimeout := envDuration env "CORK_WORKER_PING_TIMEOUT" (pingTimeout t);
  deepProbeInterval := envDuration env "CORK_WORKER_DEEP_PROBE_INTERVAL" (deepProbeInterval t);
  recoverBackoff := envDuration env "CORK_WORKER_RECOVER_BACKOFF" (recoverBackoff t);
  recoverBackoffMax := envDuration env "CORK_WORKER_RECOVER_BACKOFF_MAX" (recoverBackoffMax t);
  ejectionDecay := envDuration env "CORK_WORKER_EJECTION_DECAY" (ejectionDecay t);
  controlTimeout := envDuration env "CORK_WORKER_CONTROL_TIMEOUT" (controlTimeout t);
  timeoutWindow := envDuration env "CORK_WORKER_TIMEOUT_WINDOW" (timeoutWindow t);
  pullTimeout := envDuration env "CORK_WORKER_PULL_TIMEOUT" (pullTimeout t);
  launchWait := envDuration env "CORK_WORKER_LAUNCH_WAIT" (launchWait t);
  teardownWait := envDuration env "CORK_WORKER_TEARDOWN_WAIT" (teardownWait t);
  maxMisses := envCount env "CORK_WORKER_MAX_MISSES" (maxMisses t);
  loadMisses := envCount env "CORK_WORKER_LOAD_MISSES" (loadMisses t);
  healthyThreshold := envCount env "CORK_WORKER_HEALTHY_THRESHOLD" (healthyThreshold t);
  timeoutsToEject := envCount env "CORK_WORKER_TIMEOUTS_TO_EJECT" (timeoutsToEject t) |}.

(** What keeps every probe bounded, applied to whatever was read. *)
Definition timingBounds (t : workerTiming) : workerTiming :=
  let t := if decide (pollInterval t < minPollInterval)
           then t <| pollInterval := minPollInterval |> else t in
  let t := t <| pollTimeout ::= fun d => clampProbeTimeout d (pollInterval t) |> in
  let t := t <| pingTimeout ::= fun d => clampProbeTimeout d (pollInterval t) |> in
  if decide (deepProbeInterval t < pollInterval t)
  then t <| deepProbeInterval := pollInterval t |> else t.

Definition workerTimingFromEnv (env : environ) : workerTiming :=
  timingBounds (timingOverrides env defaultWorkerTiming).
End timing.

(** [timing()]: the defaults for a manager that never read its environment. *)
Definition timing (stored : workerTiming) : workerTiming :=
  if decide (pollInterval stored = 0) then defaultWorkerTiming else stored.

(** ** The port range and the build plane *)
Definition getPortRange (env : environ) : error + (Z * Z) :=
  let portRange := Getenv env "CORK_PORTS" in
  if decide (portRange = ""%string) then inr (0, 0)
  else match SplitOn "-"%char portRange with
       | [lowStr; highStr] =>
         match Atoi lowStr, Atoi highStr with
         | Some low, Some high =>
           if decide (low < 1024 \/ high > Z.shiftl 1 16 \/ high < low)
           then inl [OtherError "bad port range"] else inr (low, high)
         | _, _ => inl [OtherError "strconv"]
         end
       | _ => inl [OtherError "malformed port range"]
       end.

(** [initBuildPlane]: whether the build plane is external. *)
Definition initBuildPlane (env : environ) : error + bool :=
  let value := Getenv env "CORK_BUILD_PLANE" in
  if decide (value = ""%string \/ value = "local"%string) then inr false
  else if decide (value = "external"%string) then inr true
  else inl [OtherError "CORK_BUILD_PLANE"].

(** ** Properties *)

Lemma CutPrefix_spec s pre rest : CutPrefix s pre = Some rest <-> s = (pre +:+ rest)%string.
Proof.
  revert s. induction pre as [|p pre IH]; intros s; simpl.
  - change ((EmptyString +:+ rest)%string) with rest. split; congruence.
  - change ((String p pre +:+ rest)%string) with (String p (pre +:+ rest)).
    destruct s as [|c s]; [split; discriminate|].
    destruct (decide (c = p)); [subst; rewrite IH; split; congruence|].
    split; congruence.
Qed.

Lemma HasPrefix_spec s pre : HasPrefix s pre = true <-> exists rest, s = (pre +:+ rest)%string.
Proof.
  unfold HasPrefix. rewrite bool_decide_eq_true. unfold is_Some.
  by setoid_rewrite CutPrefix_spec.
Qed.

(** A reader's result is positive whenever its default is. *)
Lemma envDuration_pos parse env name d : 0 < d -> 0 < envDuration parse env name d.
Proof. unfold envDuration. intros. cases; lia. Qed.

Lemma envCount_pos env name n : 1 <= n -> 1 <= envCount env name n.
Proof. unfold envCount. intros. cases; lia. Qed.

Lemma clampProbeTimeout_spec d interval :
  0 < d -> 2 <= interval -> 0 < clampProbeTimeout d interval < interval.
Proof.
  unfold clampProbeTimeout, div64. intros. case_decide; [lia|].
  Z.to_euclidean_division_equations. lia.
Qed.

#[export] Hint Resolve envDuration_pos envCount_pos : cork.

(** The bounds every poller relies on, whatever the environment holds. *)
Record timing_ok (t : workerTiming) : Prop := {
  tok_interval : minPollInterval <= pollInterval t;
  tok_poll : 0 < pollTimeout t < pollInterval t;
  tok_ping : 0 < pingTimeout t < pollInterval t;
  tok_deep : pollInterval t <= deepProbeInterval t;
  tok_misses : 1 <= maxMisses t /\ 1 <= loadMisses t;
  tok_healthy : 1 <= healthyThreshold t /\ 1 <= timeoutsToEject t;
  tok_backoff : 0 < recoverBackoff t /\ 0 < recoverBackoffMax t /\ 0 < ejectionDecay t;
  tok_calls : 0 < controlTimeout t /\ 0 < timeoutWindow t /\ 0 < pullTimeout t;
  tok_waits : 0 < launchWait t /\ 0 < teardownWait t }.

Lemma timingBounds_ok t :
  0 < pollInterval t -> 0 < pollTimeout t -> 0 < pingTimeout t -> 0 < deepProbeInterval t ->
  1 <= maxMisses t /\ 1 <= loadMisses t ->
  1 <= healthyThreshold t /\ 1 <= timeoutsToEject t ->
  0 < recoverBackoff t /\ 0 < recoverBackoffMax t /\ 0 < ejectionDecay t ->
  0 < controlTimeout t /\ 0 < timeoutWindow t /\ 0 < pullTimeout t ->
  0 < launchWait t /\ 0 < teardownWait t ->
  timing_ok (timingBounds t).
Proof.
  intros Hi Hp Hg Hd Hm Hh Hb Hc Hw. unfold timingBounds.
  assert (2 <= minPollInterval) by (unfold minPollInterval, Millisecond; lia).
  destruct (decide (pollInterval t < minPollInterval)); simpl;
    [pose proof (clampProbeTimeout_spec _ minPollInterval Hp);
     pose proof (clampProbeTimeout_spec _ minPollInterval Hg)
    |pose proof (clampProbeTimeout_spec _ (pollInterval t) Hp);
     pose proof (clampProbeTimeout_spec _ (pollInterval t) Hg)];
    case_decide; (split; simpl; [lia|lia|lia|lia|done..]).
Qed.

(** However the CORK_WORKER_* variables are set, the tunables the daemon
    runs with keep every probe bounded: the poll interval is at least 10ms,
    both probe timeouts are positive and strictly inside the interval, the
    deep probe is no more frequent than the tick, and every count is at least
    one and every duration positive. *)
Theorem workerTimingFromEnv_ok parse env : timing_ok (workerTimingFromEnv parse env).
Proof.
  apply timingBounds_ok; simpl; split_and?;
    first [apply envDuration_pos | apply envCount_pos]; done.
Qed.

(** The stored tunables are used as read, and the defaults stand in only for
    a manager whose environment was never read. *)
Lemma timing_ok_timing t : timing_ok t -> timing t = t.
Proof.
  intros [Hi _ _ _ _ _ _ _ _]. unfold timing. case_decide as E; [|done].
  exfalso. rewrite E in Hi. revert Hi. unfold minPollInterval, Millisecond. lia.
Qed.

(** An accepted port range is [0-0] (no range) or lies within
    1024..65536 and is not empty. *)
Lemma getPortRange_bounds env low high :
  getPortRange env = inr (low, high) ->
  (low = 0 /\ high = 0) \/ (1024 <= low <= high /\ high <= 65536).
Proof.
  unfold getPortRange. change (Z.shiftl 1 16) with 65536. intros. cases; [by left|]. right. lia.
Qed.

(** The upper bound is not 65535: a range ending at 65536 is accepted, a port
    number the [portAssignments] table refuses. *)
Lemma getPortRange_accepts_65536 :
  getPortRange {[ "CORK_PORTS"%string := "1024-65536"%string ]} = inr (1024, 65536).
Proof. reflexivity. Qed.

Lemma LookupEnv_current env name v : env !! name = Some v -> LookupEnv env name = Some v.
Proof. unfold LookupEnv. by intros ->. Qed.

(** A setting under its old name is read only when the new one is unset. *)
Lemma LookupEnv_legacy env rest v :
  env !! (envPrefix +:+ rest)%string = None ->
  LookupEnv env (envPrefix +:+ rest)%string = Some v <->
  env !! (legacyEnvPrefix +:+ rest)%string = Some v.
Proof.
  intros H. unfold LookupEnv. rewrite H.
  replace (HasPrefix (envPrefix +:+ rest) envPrefix) with true
    by (symmetry; apply HasPrefix_spec; eauto).
  unfold legacyEnvName, TrimPrefix.
  by rewrite (proj2 (CutPrefix_spec (envPrefix +:+ rest) envPrefix rest) eq_refl).
Qed.

Lemma envSlots_range env name def : 1 <= def <= 16 -> 1 <= envSlots env name def <= 16.
Proof. unfold envSlots. intros. cases; lia. Qed.
