(* ===== verification/Text.v ===== *)
(** * Text: decimal and hexadecimal numerals in names

    What [%d] and [%x] print and [strconv.ParseInt] reads: the numerals in the
    names cork gives networks and images, and that they can be read back. *)
From S2P Require Import Prelude Settings.
Local Open Scope Z_scope.

(** Every character of a text satisfies [P]. *)
Fixpoint all_chars (P : ascii -> bool) (s : string) : bool :=
  match s with EmptyString => true | String c s => P c && all_chars P s end.

Definition isDecimal (c : ascii) : bool := bool_decide (is_Some (digitVal c)).
Definition notDash (c : ascii) : bool := negb (bool_decide (c = "-"%char)).

Lemma all_chars_app P s t : all_chars P (s +:+ t) = all_chars P s && all_chars P t.
Proof. induction s as [|c s IH]; simpl; [done|]. by rewrite IH, andb_assoc. Qed.

Lemma all_chars_impl (P Q : ascii -> bool) s :
  (forall c, P c = true -> Q c = true) -> all_chars P s = true -> all_chars Q s = true.
Proof.
  intros H. induction s as [|c s IH]; simpl; [done|].
  intros [? ?]%andb_true_iff. apply andb_true_iff. auto.
Qed.

Lemma digitVal_char n : (n < 10)%N -> digitVal (pretty_N_char n) = Some (Z.of_N n).
Proof.
  intros H. destruct n as [|p]; [done|]. by do 4 (try destruct p as [p|p|]; try lia).
Qed.

(** Reading a printed numeral continues with its value. *)
Lemma digitsVal_pretty_go x s : digitsVal 0 (pretty_N_go x s) = digitsVal (Z.of_N x) s.
Proof.
  revert s. induction (N.lt_wf_0 x) as [x _ IH]; intros s.
  assert (x = 0 \/ 0 < x)%N as [->|Hx] by lia; [done|].
  rewrite pretty_N_go_step by done. rewrite IH by (by apply N.div_lt). simpl.
  rewrite digitVal_char by (by apply N.mod_lt). f_equal.
  rewrite (N.div_mod x 10) at 3 by done. lia.
Qed.

Lemma digitsVal_pretty (x : N) : digitsVal 0 (pretty x) = Some (Z.of_N x).
Proof.
  unfold pretty, pretty_N. case_decide; [by subst|]. apply (digitsVal_pretty_go x ""%string).
Qed.

Lemma digitsVal_decimal acc s : is_Some (digitsVal acc s) <-> all_chars isDecimal s = true.
Proof.
  revert acc. induction s as [|c s IH]; intros acc; simpl; [split; eauto|].
  unfold isDecimal at 1. destruct (digitVal c); simpl; [apply IH|].
  split; [by intros [? ?]|done].
Qed.

Lemma pretty_N_decimal (x : N) : all_chars isDecimal (pretty x) = true.
Proof. apply (digitsVal_decimal 0). rewrite digitsVal_pretty. eauto. Qed.

Lemma pretty_N_go_length x s : (String.length s <= String.length (pretty_N_go x s))%nat.
Proof.
  revert s. induction (N.lt_wf_0 x) as [x _ IH]; intros s.
  assert (x = 0 \/ 0 < x)%N as [->|Hx] by lia; [done|].
  rewrite pretty_N_go_step by done. etransitivity; [|apply IH; by apply N.div_lt]. simpl. lia.
Qed.

Lemma pretty_N_nonempty (x : N) : (pretty x : string) <> ""%string.
Proof.
  unfold pretty, pretty_N. case_decide as H; [done|]. rewrite pretty_N_go_step by lia.
  intros E. pose proof (pretty_N_go_length (x `div` 10) (String (pretty_N_char (x `mod` 10)) "")) as Hl.
  rewrite E in Hl. simpl in Hl. lia.
Qed.

Lemma decimal_notDash c : isDecimal c = true -> notDash c = true.
Proof.
  unfold isDecimal, notDash. intros [d H]%bool_decide_eq_true. rewrite bool_decide_eq_false_2; [done|].
  by intros ->.
Qed.

Lemma append_assoc s t u : (s +:+ (t +:+ u) = (s +:+ t) +:+ u)%string.
Proof. induction s as [|c s IH]; [done|]. exact (f_equal (String c) IH). Qed.
Lemma append_cancel s t t' : (s +:+ t = s +:+ t' -> t = t')%string.
Proof. induction s as [|c s IH]; simpl; [done|]. intros E. injection E as E. auto. Qed.

(** A text up to the first occurrence of a separator is determined. *)
Definition notChar (sep c : ascii) : bool := negb (bool_decide (c = sep)).
Lemma split_at_char sep s t s' t' :
  all_chars (notChar sep) s = true -> all_chars (notChar sep) s' = true ->
  s +:+ String sep t = s' +:+ String sep t' -> s = s' /\ t = t'.
Proof.
  revert s'. induction s as [|c s IH]; intros s' Hs Hs' E; destruct s' as [|c' s']; simpl in *.
  - split; [done|]. by injection E.
  - injection E as <- _. unfold notChar in Hs'. by rewrite bool_decide_eq_true_2 in Hs'.
  - injection E as -> _. unfold notChar in Hs. by rewrite bool_decide_eq_true_2 in Hs.
  - apply andb_true_iff in Hs as [_ Hs], Hs' as [_ Hs']. injection E as -> E.
    by destruct (IH s' Hs Hs' E) as [-> ->].
Qed.
Lemma split_at_dash s t s' t' :
  all_chars notDash s = true -> all_chars notDash s' = true ->
  s +:+ "-" +:+ t = s' +:+ "-" +:+ t' -> s = s' /\ t = t'.
Proof. apply (split_at_char "-"). Qed.

(** Splitting at a separator and joining with it. *)
Section split.
Context (sep : ascii).
Definition sepless (c : string) : Prop := all_chars (notChar sep) c = true.
Lemma SplitOn_sepless s : Forall sepless (SplitOn sep s).
Proof.
  induction s as [|c s IH]; simpl; [by repeat constructor|]. case_decide as Hc; [by constructor|].
  destruct (SplitOn sep s) as [|w ws]; apply Forall_cons; inversion IH; subst; (split || constructor); try done;
    unfold sepless, notChar in *; simpl; rewrite bool_decide_eq_false_2 by done; done.
Qed.
Lemma SplitOn_word c : sepless c -> SplitOn sep c = [c].
Proof.
  unfold sepless. induction c as [|a c IH]; simpl; [done|]. intros [Ha Hc]%andb_true_iff.
  unfold notChar in Ha. apply negb_true_iff, bool_decide_eq_false in Ha. rewrite decide_False by done. by rewrite IH.
Qed.
Lemma SplitOn_cons c s : sepless c -> SplitOn sep (c +:+ String sep s) = c :: SplitOn sep s.
Proof.
  unfold sepless. induction c as [|a c IH]; intros Hc; simpl in Hc.
  { change (SplitOn sep (String sep s) = ""%string :: SplitOn sep s). simpl. by rewrite decide_True. }
  apply andb_true_iff in Hc as [Ha Hc].
  unfold notChar in Ha. apply negb_true_iff, bool_decide_eq_false in Ha.
  change (SplitOn sep (String a (c +:+ String sep s)) = String a c :: SplitOn sep s). simpl.
  rewrite decide_False by done. by rewrite IH.
Qed.
Lemma SplitOn_concat cs : cs <> [] -> Forall sepless cs -> SplitOn sep (String.concat (String sep "") cs) = cs.
Proof.
  intros Hne H. induction H as [|c cs Hc Hcs IH]; [done|]. destruct cs as [|c' cs]; [by apply SplitOn_word|].
  change (SplitOn sep (c +:+ String sep (String.concat (String sep "") (c' :: cs))) = c :: c' :: cs).
  rewrite SplitOn_cons by done. by rewrite IH.
Qed.
Lemma SplitOn_nonempty s : SplitOn sep s <> [].
Proof. destruct s as [|c s]; simpl; [done|]. case_decide; [done|]. by destruct (SplitOn sep s). Qed.
Lemma concat_cons_char c w ws :
  String.concat (String sep "") (String c w :: ws) = String c (String.concat (String sep "") (w :: ws)).
Proof. by destruct ws. Qed.
Lemma concat_SplitOn s : String.concat (String sep "") (SplitOn sep s) = s.
Proof.
  induction s as [|c s IH]; [done|]. simpl. case_decide as Hc.
  - subst c. pose proof (SplitOn_nonempty s). destruct (SplitOn sep s) as [|w ws]; [done|].
    change (String sep (String.concat (String sep "") (w :: ws)) = String sep s). by rewrite IH.
  - pose proof (SplitOn_nonempty s). destruct (SplitOn sep s) as [|w ws]; [done|]. by rewrite concat_cons_char, IH.
Qed.
End split.

(** [ParseInt] reads back what [%d] prints of a non-negative [int64]. *)
Lemma ParseInt_pretty (z : Z) : 0 <= z < two63 -> ParseInt (pretty z) = Some z.
Proof.
  intros Hz. assert (pretty z = pretty (Z.to_N z)) as ->.
  { destruct z; [done|done|lia]. }
  pose proof (pretty_N_decimal (Z.to_N z)) as Hd. pose proof (pretty_N_nonempty (Z.to_N z)) as Hn.
  pose proof (digitsVal_pretty (Z.to_N z)) as Hv. unfold ParseInt.
  rewrite Z2N.id in Hv by lia. set (s := pretty (Z.to_N z)) in *. clearbody s.
  destruct s as [|c s]; [done|]. simpl in Hd. apply andb_true_iff in Hd as [Hc _].
  assert (c <> "-"%char /\ c <> "+"%char) as [H1 H2] by (by split; intros ->).
  destruct c as [[] [] [] [] [] [] [] []]; try done;
    rewrite decide_False, Hv by done; by rewrite decide_True by lia.
Qed.
