(* ===== verification/Regex.v ===== *)
(** * Regex: the regular expressions the code matches names with

    The fragment of Go's [regexp] that is used on whole strings ([^...$]):
    character classes, concatenation, alternation, repetition.  [re_match] is
    executable, by derivatives; [lang] says what an expression means, and the
    two agree. *)
From S2P Require Import Prelude Settings Text.

Inductive regex :=
| RNone
| REmpty
| RClass (P : ascii -> bool)
| RSeq (r s : regex)
| RAlt (r s : regex)
| RStar (r : regex).
Definition RPlus (r : regex) : regex := RSeq r (RStar r).
Definition ROpt (r : regex) : regex := RAlt REmpty r.
Definition RChar (c : ascii) : regex := RClass (fun d => bool_decide (d = c)).

Fixpoint nullable (r : regex) : bool :=
  match r with
  | RNone | RClass _ => false
  | REmpty | RStar _ => true
  | RSeq r s => nullable r && nullable s
  | RAlt r s => nullable r || nullable s
  end.
Fixpoint deriv (c : ascii) (r : regex) : regex :=
  match r with
  | RNone | REmpty => RNone
  | RClass P => if P c then REmpty else RNone
  | RSeq r s => if nullable r then RAlt (RSeq (deriv c r) s) (deriv c s) else RSeq (deriv c r) s
  | RAlt r s => RAlt (deriv c r) (deriv c s)
  | RStar r => RSeq (deriv c r) (RStar r)
  end.
Fixpoint re_match (r : regex) (s : string) : bool :=
  match s with
  | EmptyString => nullable r
  | String c s => re_match (deriv c r) s
  end.

Inductive lang : regex -> string -> Prop :=
| lang_empty : lang REmpty ""
| lang_class P c : P c = true -> lang (RClass P) (String c "")
| lang_seq r s x y : lang r x -> lang s y -> lang (RSeq r s) (x +:+ y)
| lang_alt_l r s x : lang r x -> lang (RAlt r s) x
| lang_alt_r r s x : lang s x -> lang (RAlt r s) x
| lang_star_nil r : lang (RStar r) ""
| lang_star_cons r x y : lang r x -> lang (RStar r) y -> lang (RStar r) (x +:+ y).
#[export] Hint Constructors lang : cork.

Lemma nullable_lang r : nullable r = true <-> lang r "".
Proof.
  split.
  - induction r; simpl; try done; auto with cork.
    + intros [? ?]%andb_true_iff. change ""%string with ("" +:+ "")%string. auto with cork.
    + intros [?|?]%orb_true_iff; auto with cork.
  - remember ""%string as e eqn:E. intros H. induction H; simpl; try done.
    + destruct x; [|done]. simpl in E. by rewrite IHlang1, IHlang2.
    + by rewrite IHlang.
    + rewrite IHlang by done. apply orb_true_r.
Qed.

Lemma seq_inv r s w : lang (RSeq r s) w -> exists x y, w = x +:+ y /\ lang r x /\ lang s y.
Proof. inversion 1; subst. eauto. Qed.
(** A nonempty word of a star begins with a nonempty word of its body. *)
Lemma star_head r c s : lang (RStar r) (String c s) -> exists x y, s = x +:+ y /\ lang r (String c x) /\ lang (RStar r) y.
Proof.
  remember (RStar r) as q eqn:Eq. remember (String c s) as w eqn:Ew. intros H. revert c s Ew.
  induction H as [| | | | | |r' x y Hx _ Hy IH]; intros c0 s0 Ew; simplify_eq. destruct x as [|d x].
  - by apply IH.
  - change (String d (x +:+ y) = String c0 s0) in Ew. injection Ew as -> <-. eauto.
Qed.
Lemma deriv_lang c r s : lang (deriv c r) s <-> lang r (String c s).
Proof.
  revert s. induction r as [| |P|r1 IH1 r2 IH2|r1 IH1 r2 IH2|r IH]; intros s; simpl.
  - split; inversion 1.
  - split; inversion 1.
  - split.
    + destruct (P c) eqn:E; inversion 1; subst. by constructor.
    + inversion 1; subst. match goal with H : P c = true |- _ => rewrite H end. constructor.
  - assert (lang (RSeq (deriv c r1) r2) s <-> exists x y, s = x +:+ y /\ lang r1 (String c x) /\ lang r2 y) as Hseq.
    { split.
      - inversion 1; subst. eexists _, _. split; [done|]. split; [by apply IH1|done].
      - intros (x & y & -> & Hx & Hy). constructor; [by apply IH1|done]. }
    split.
    + intros H. assert (lang (RSeq (deriv c r1) r2) s \/ nullable r1 = true /\ lang (deriv c r2) s) as [Hl|[Hn Hr]].
      { destruct (nullable r1); [inversion H; subst; auto|auto]. }
      * apply Hseq in Hl as (x & y & -> & Hx & Hy). change (String c (x +:+ y)) with (String c x +:+ y). by constructor.
      * change (String c s) with ("" +:+ String c s)%string. constructor; [by apply nullable_lang|by apply IH2].
    + intros (x & y & E2 & Hx & Hy)%seq_inv. destruct x as [|d x].
      * change (String c s = y) in E2. subst y. assert (nullable r1 = true) as -> by (by apply nullable_lang). apply lang_alt_r. by apply IH2.
      * change (String c s = String d (x +:+ y)) in E2. injection E2 as <- ->. assert (lang (RSeq (deriv c r1) r2) (x +:+ y)) as Hs by (apply Hseq; eauto).
        destruct (nullable r1); auto with cork.
  - split.
    + inversion 1; subst; [apply lang_alt_l; by apply IH1|apply lang_alt_r; by apply IH2].
    + inversion 1; subst; [apply lang_alt_l; by apply IH1|apply lang_alt_r; by apply IH2].
  - split.
    + inversion 1; subst. match goal with |- lang _ (String c (?x +:+ ?y)) => change (String c (x +:+ y)) with (String c x +:+ y) end.
      constructor; [by apply IH|done].
    + intros (x & y & -> & Hx & Hy)%star_head. constructor; [by apply IH|done].
Qed.
(** Matching decides membership. *)
Theorem re_match_lang r s : re_match r s = true <-> lang r s.
Proof.
  revert r. induction s as [|c s IH]; intros r; simpl; [apply nullable_lang|]. by rewrite IH, deriv_lang.
Qed.

(** A word is spelled with the letters of its expression. *)
Fixpoint letters (Q : ascii -> bool) (r : regex) : Prop :=
  match r with
  | RNone | REmpty => True
  | RClass P => forall c, P c = true -> Q c = true
  | RSeq r s | RAlt r s => letters Q r /\ letters Q s
  | RStar r => letters Q r
  end.
Lemma lang_letters Q r s : letters Q r -> lang r s -> all_chars Q s = true.
Proof.
  intros HQ H. induction H; simpl in HQ; destruct_and?; try done.
  - simpl. by rewrite HQ.
  - rewrite all_chars_app, IHlang1, IHlang2 by done. done.
  - auto.
  - auto.
  - rewrite all_chars_app, IHlang1, IHlang2 by done. done.
Qed.
