(* ===== verification/Artifacts.v ===== *)
(** * Artifacts: the archive a build publishes

    [cork/artifacts.go].  A build hands over a tar archive made by the
    challenge's own code; [cacheArtifacts] copies it entry by entry into the
    archive players download, under names that stay inside its root, within
    limits on entries and bytes, and with the ownership stripped.

    [path.Clean] works on the components of a path.  The readers and writers
    are the entries they deliver and what each file operation comes to. *)
From S2P Require Import Prelude Settings Text.
Local Open Scope Z_scope.

(** ** Paths *)
Definition slash : ascii := "/"%char.
Definition isAbs (p : string) : bool := HasPrefix p "/".

(** One component of a path; the stack holds the components kept, last first. *)
Definition cleanStep (rooted : bool) (stack : list string) (c : string) : list string :=
  if decide (c = "" \/ c = ".")%string then stack
  else if decide (c = "..")%string then
    match stack with
    | top :: rest => if decide (top = "..")%string then c :: stack else rest
    | [] => if rooted then [] else [".."%string]
    end
  else c :: stack.
Definition Clean (p : string) : string :=
  let body := String.concat "/" (reverse (foldl (cleanStep (isAbs p)) [] (SplitOn slash p))) in
  if isAbs p then ("/" +:+ body)%string else if decide (body = "")%string then "."%string else body.

Fixpoint containsChar (c : ascii) (s : string) : bool :=
  match s with EmptyString => false | String d s => bool_decide (d = c) || containsChar c s end.

Definition safeArchiveName (name : string) : error + string :=
  if bool_decide (name = ""%string) || containsChar "000"%char name || containsChar "\"%char name
  then inl [OtherError "invalid archive path"]
  else if decide (4096 < Z.of_nat (String.length name)) then inl [OtherError "archive path is too long"]
  else
    let clean := Clean name in
    if bool_decide (clean = "."%string) || isAbs clean || bool_decide (clean = ".."%string) || HasPrefix clean "../"
    then inl [OtherError "archive path escapes its root"] else inr clean.

(** ** Copying *)
Inductive typeflag := TypeReg | TypeRegA | TypeDir | TypeOther (flag : ascii).
#[export] Instance typeflag_eq_dec : EqDecision typeflag.
Proof. solve_decision. Defined.
Record Header := mkHeader {
  h_name : string; h_type : typeflag; h_size : Z; h_linkname : string; h_mode : Z;
  h_uid : Z; h_gid : Z; h_uname : string; h_gname : string; h_pax : list (string * string) }.

Record artifactLimits := mkArtifactLimits { al_files : Z; al_bytes : Z; al_fileBytes : Z }.
(** The policy's limits, a zero standing for the default. *)
Definition effectiveLimits (defaults policy : artifactLimits) : artifactLimits :=
  let pick f := if decide (f policy = 0) then f defaults else f policy in
  mkArtifactLimits (pick al_files) (pick al_bytes) (pick al_fileBytes).

Definition isRegular (t : typeflag) : bool := bool_decide (t = TypeReg) || bool_decide (t = TypeRegA).
(** The header as it is written out. *)
Definition cleanHeader (name : string) (h : Header) : Header :=
  mkHeader name (h_type h) (if decide (h_type h = TypeDir) then 0 else h_size h) "" (Z.land (h_mode h) 511) 0 0 "" "" [].

(** What has been copied so far. *)
Record copied := mkCopied {
  cp_entries : Z; cp_seen : list string; cp_total : Z; cp_files : list string; cp_out : list Header }.
Definition nothingCopied : copied := mkCopied 0 [] 0 [] [].

(** The part of the loop before anything is written: the name it goes under
    and the bytes and files counted for it, or a refusal; [None] skips a root
    entry. *)
Definition checkEntry (l : artifactLimits) (h : Header) (c : copied) : error + option (string * Z * list string) :=
  if decide (al_files l < cp_entries c + 1) then inl [OtherError "artifact archive contains too many entries"]
  else if bool_decide (h_type h = TypeDir) && (bool_decide (h_name h = ".") || bool_decide (h_name h = "./"))%string
  then inr None
  else match safeArchiveName (h_name h) with
       | inl err => inl err
       | inr name =>
         if decide (name ∈ cp_seen c) then inl [OtherError "artifact archive repeats path"]
         else if isRegular (h_type h) then
           if decide (h_size h < 0 \/ al_fileBytes l < h_size h) then inl [OtherError "artifact is too large"]
           else if decide (al_bytes l - cp_total c < h_size h) then inl [OtherError "artifact archive is too large"]
           else inr (Some (name, cp_total c + h_size h, cp_files c ++ [name]))
         else if decide (h_type h = TypeDir) then inr (Some (name, cp_total c, cp_files c))
         else inl [OtherError "artifact has unsupported tar type"]
       end.
(** An entry with what writing it out comes to. *)
Fixpoint copyEntries (l : artifactLimits) (entries : list (Header * option error)) (c : copied) : error + copied :=
  match entries with
  | [] => inr c
  | (h, io) :: entries =>
    match checkEntry l h c with
    | inl err => inl err
    | inr None => copyEntries l entries (mkCopied (cp_entries c + 1) (cp_seen c) (cp_total c) (cp_files c) (cp_out c))
    | inr (Some (name, total, files)) =>
      match io with
      | Some err => inl err
      | None => copyEntries l entries
          (mkCopied (cp_entries c + 1) (cp_seen c ++ [name]) total files (cp_out c ++ [cleanHeader name h]))
      end
    end
  end.

(** Opening the temporary file and the stream, the entries, the error the
    stream ends in unless it is its end, and closing and renaming.  The files
    and the archive installed; on any failure the temporary file is removed and
    the destination is as it was. *)
Definition cacheArtifacts (l : artifactLimits) (opening : option error) (entries : list (Header * option error))
    (nextErr closing : option error) : error + (list string * list Header) :=
  match opening with
  | Some err => inl err
  | None =>
    match copyEntries l entries nothingCopied with
    | inl err => inl err
    | inr c =>
      match nextErr, closing with
      | Some err, _ | None, Some err => inl err
      | None, None => inr (cp_files c, cp_out c)
      end
    end
  end.

Example clean_examples :
  map Clean ["a//b/./c"; "a/../../b"; "/../a"; ""; "./"; "a/.."; "../../x/.."]%string =
  ["a/b/c"; "../b"; "/a"; "."; "."; "."; "../.."]%string.
Proof. reflexivity. Qed.

(** ** Names that stay inside *)

(** A relative path no component of which is empty, [.] or [..]. *)
Definition plain (c : string) : Prop := (c <> "" /\ c <> "." /\ c <> "..")%string.
Definition confined (p : string) : Prop := Forall plain (SplitOn slash p).
Definition slashless (c : string) : Prop := all_chars (notChar slash) c = true.
Lemma SplitOn_slashless s : Forall slashless (SplitOn slash s).
Proof. apply SplitOn_sepless. Qed.

(** The stack of a relative path: plain components over a run of [..]. *)
Lemma cleanStep_stack ns k c :
  Forall plain ns -> exists ns' k', cleanStep false (ns ++ replicate k ".."%string) c = ns' ++ replicate k' ".."%string /\
    Forall plain ns' /\ (Forall slashless ns -> slashless c -> Forall slashless ns').
Proof.
  intros Hns. unfold cleanStep. case_decide as H1; [by exists ns, k|]. case_decide as H2.
  - subst c. destruct ns as [|n ns].
    + destruct k as [|k]; [by exists [], 1%nat|]. by exists [], (S (S k)).
    + inversion Hns as [|? ? [? [? ?]] ?]; subst. simpl. rewrite decide_False by done. exists ns, k.
      split_and!; [done|done|]. by intros [_ ?]%Forall_cons.
  - exists (c :: ns), k. split_and!; [done| |by constructor]. constructor; [|done]. unfold plain. tauto.
Qed.
Lemma clean_stack cs ns k :
  Forall plain ns -> Forall slashless ns -> Forall slashless cs ->
  exists ns' k', foldl (cleanStep false) (ns ++ replicate k ".."%string) cs = ns' ++ replicate k' ".."%string /\
    Forall plain ns' /\ Forall slashless ns'.
Proof.
  intros Hns Hsl Hcs. revert ns k Hns Hsl. induction Hcs as [|c cs Hc _ IH]; intros ns k Hns Hsl; [by exists ns, k|].
  simpl. destruct (cleanStep_stack ns k c Hns) as (ns' & k' & -> & Hp & Hs). by apply IH; auto.
Qed.

Lemma concat_dotdot k cs :
  let p := String.concat "/" (".."%string :: replicate k ".."%string ++ cs) in p = ".."%string \/ HasPrefix p "../" = true.
Proof. destruct k as [|k]; [destruct cs as [|c cs]; [by left|]|]; right; reflexivity. Qed.

(** What is accepted stays inside the root, whatever root it is put under. *)
Lemma safeArchiveName_confined name clean : safeArchiveName name = inr clean -> confined clean.
Proof.
  unfold safeArchiveName. destruct (bool_decide _ || _ || _) eqn:E1; [done|].
  destruct (decide (4096 < _)); [done|].
  destruct (_ || isAbs (Clean name) || _ || _) eqn:E2; [done|]. intros [= <-].
  apply orb_false_iff in E2 as [E2 Hpre]. apply orb_false_iff in E2 as [E2 Hdd].
  apply orb_false_iff in E2 as [Hdot Habs]. apply bool_decide_eq_false in Hdot, Hdd.
  unfold confined. unfold Clean in *. destruct (isAbs name) eqn:Ea.
  { unfold isAbs at 1, HasPrefix in Habs. apply bool_decide_eq_false in Habs. destruct Habs. by eexists. }
  destruct (clean_stack (SplitOn slash name) [] 0) as (ns & k & Hst & Hp & Hs); [constructor..|apply SplitOn_slashless|].
  simpl in Hst. rewrite Hst in *. rewrite reverse_app, reverse_replicate in *.
  destruct k as [|k].
  - simpl in *. assert (Forall plain (reverse ns) /\ Forall slashless (reverse ns)) as [Hp' Hs'] by (by rewrite !Forall_reverse).
    destruct (decide (reverse ns = [])) as [En|En]; [by rewrite En in *|].
    case_decide; [done|]. by rewrite (SplitOn_concat slash).
  - exfalso. change (replicate (S k) ".."%string ++ reverse ns) with (".."%string :: replicate k ".."%string ++ reverse ns) in *.
    destruct (concat_dotdot k (reverse ns)) as [E|E].
    + rewrite E in *. by destruct Hdd.
    + case_decide as Hn; [by rewrite Hn in E|]. congruence.
Qed.

(** ** What is installed *)
Definition entry_ok (l : artifactLimits) (h : Header) : Prop :=
  confined (h_name h) /\ (isRegular (h_type h) = true \/ h_type h = TypeDir) /\
  0 <= h_size h <= Z.max 0 (al_fileBytes l) /\
  0 <= h_mode h < 512 /\ h_uid h = 0 /\ h_gid h = 0 /\ h_linkname h = ""%string /\ h_pax h = [].
Definition sizes (hs : list Header) : Z := foldr (fun h n => h_size h + n) 0 hs.

Record copied_ok (l : artifactLimits) (c : copied) : Prop := {
  co_out : Forall (entry_ok l) (cp_out c);
  co_seen : cp_seen c = h_name <$> cp_out c;
  co_distinct : NoDup (cp_seen c);
  co_count : Z.of_nat (length (cp_out c)) <= cp_entries c;
  co_total : cp_total c = sizes (cp_out c) /\ 0 <= cp_total c <= al_bytes l;
  co_files : cp_files c = h_name <$> filter (fun h => isRegular (h_type h) = true) (cp_out c) }.

Lemma sizes_snoc hs h : sizes (hs ++ [h]) = sizes hs + h_size h.
Proof. unfold sizes. induction hs as [|h' hs IH]; simpl in *; lia. Qed.

Lemma cleanHeader_ok l name h :
  confined name -> isRegular (h_type h) = true \/ h_type h = TypeDir ->
  (isRegular (h_type h) = true -> 0 <= h_size h <= al_fileBytes l) -> entry_ok l (cleanHeader name h).
Proof.
  intros Hn Ht Hs. unfold entry_ok. simpl. split_and!; try done.
  - case_decide; [lia|]. destruct Ht as [Ht|]; [|done]. specialize (Hs Ht). lia.
  - case_decide; [lia|]. destruct Ht as [Ht|]; [|done]. specialize (Hs Ht). lia.
  - apply Z.land_nonneg. lia.
  - change 511 with (Z.ones 9). rewrite Z.land_ones by lia. by apply Z.mod_pos_bound.
Qed.

(** The copy of one entry. *)
Lemma copied_snoc l c name h total files :
  copied_ok l c -> checkEntry l h c = inr (Some (name, total, files)) ->
  copied_ok l (mkCopied (cp_entries c + 1) (cp_seen c ++ [name]) total files (cp_out c ++ [cleanHeader name h])).
Proof.
  intros [Ho Hs Hd Hc [Ht Htb] Hf] E. unfold checkEntry in E. case_decide; [done|].
  destruct (_ && _); [done|]. destruct (safeArchiveName (h_name h)) as [|n] eqn:En; [done|].
  apply safeArchiveName_confined in En. case_decide as Hin; [done|].
  assert (entry_ok l (cleanHeader n h) /\ name = n /\ total = cp_total c + h_size (cleanHeader n h) /\
    total <= al_bytes l /\ cp_total c <= total /\
    files = cp_files c ++ (if isRegular (h_type h) then [n] else [])) as (He & -> & -> & Hb1 & Hb2 & ->).
  { destruct (isRegular (h_type h)) eqn:Er.
    - destruct (decide (_ \/ _)); [done|]. destruct (decide (al_bytes l - _ < _)); [done|]. simplify_eq.
      assert (h_type h <> TypeDir) as Hnd by (intros Hx; by rewrite Hx in Er).
      split_and!; try done; [|simpl; rewrite decide_False by done; lia..|lia|lia].
      apply cleanHeader_ok; auto. intros _. lia.
    - destruct (decide (h_type h = TypeDir)) as [Hdir|]; [|done]. simplify_eq. split_and!; try done; try lia.
      + apply cleanHeader_ok; auto. congruence.
      + simpl. rewrite decide_True by done. lia.
      + by rewrite app_nil_r. }
  split; simpl.
  - apply Forall_app. split; [done|]. by apply Forall_singleton.
  - by rewrite fmap_app, Hs.
  - apply NoDup_app. split_and!; [done|set_solver|apply NoDup_singleton].
  - rewrite length_app. simpl. lia.
  - rewrite sizes_snoc. simpl in *. lia.
  - rewrite filter_app, fmap_app, Hf. f_equal. rewrite filter_cons. simpl. by destruct (isRegular (h_type h)).
Qed.

Lemma copyEntries_ok l entries c c' :
  copied_ok l c -> copyEntries l entries c = inr c' -> copied_ok l c' /\
  cp_entries c' = cp_entries c + Z.of_nat (length entries) /\ (entries <> [] -> cp_entries c' <= al_files l).
Proof.
  revert c. induction entries as [|[h io] entries IH]; intros c Hc H; simpl in H.
  { simplify_eq. split_and!; [done|simpl; lia|done]. }
  destruct (checkEntry l h c) as [err|[[[name total] files]|]] eqn:Ec; [done| |].
  - destruct io; [done|]. apply IH in H as (H1 & H2 & H3); [|by apply copied_snoc]. split_and!; [done|simpl in *; lia|].
    intros _. unfold checkEntry in Ec. case_decide; [done|]. destruct entries; [simpl in *; lia|by apply H3].
  - apply IH in H as (H1 & H2 & H3); [|by destruct Hc; split; simpl; try done; lia]. split_and!; [done|simpl in *; lia|].
    intros _. unfold checkEntry in Ec. case_decide; [done|]. destruct entries; [simpl in *; lia|by apply H3].
Qed.


Definition evil_archive : list (Header * option error) :=
  [(mkHeader "./" TypeDir 0 "" 493 0 0 "" "" [], None);
   (mkHeader "sub/../flag.txt" TypeReg 10 "/etc/passwd" 2541 1000 1000 "u" "g" [("k", "v")], None)]%string.
