(* ===== verification/Netip.v ===== *)
(** * Netip: which texts [netip.ParseAddr] accepts as a worker's address

    [AddWorker] keys a worker by its private IP and refuses a text Go's
    [net/netip] does not parse.  Only acceptance is modelled: the code keeps
    the text and drops the parsed address. *)
From S2P Require Import Prelude.
Local Open Scope Z_scope.

Definition isDigit (c : ascii) : bool :=
  let n := Z.of_nat (nat_of_ascii c) in bool_decide (48 <= n <= 57).
Definition isHex (c : ascii) : bool :=
  let n := Z.of_nat (nat_of_ascii c) in
  isDigit c || bool_decide (97 <= n <= 102) || bool_decide (65 <= n <= 70).
Definition digitOf (c : ascii) : Z := Z.of_nat (nat_of_ascii c) - 48.

(** [parseIPv4Fields]: [val], [pos] and [digLen] are its loop variables;
    [afterDot] is whether a separator may not come next. *)
Fixpoint parseIPv4Fields (s : list ascii) (val pos digLen : Z) (afterDot : bool) : bool :=
  match s with
  | [] => bool_decide (3 <= pos)
  | c :: s' =>
    if isDigit c then
      if decide (digLen = 1 /\ val = 0) then false
      else
        let val := val * 10 + digitOf c in
        if decide (255 < val) then false else parseIPv4Fields s' val pos (digLen + 1) false
    else if decide (c = "."%char) then
      if afterDot || bool_decide (s' = []) || bool_decide (pos = 3) then false
      else parseIPv4Fields s' 0 (pos + 1) 0 true
    else false
  end.

Definition parseIPv4 (s : list ascii) : bool := parseIPv4Fields s 0 0 0 true.

(** The digits of one 16-bit group, and what follows them; [None] when there
    are more than four. *)
Fixpoint hexGroup (s : list ascii) (off : nat) : option (nat * list ascii) :=
  match s with
  | c :: s' =>
    if isHex c then if decide (3 < off)%nat then None else hexGroup s' (S off) else Some (off, s)
  | [] => Some (off, [])
  end.

(** The loop of [parseIPv6] over the bytes of the address, [i] of the sixteen
    filled; each round fills two, so the fuel of eight rounds is never short. *)
Fixpoint parseIPv6Loop (fuel : nat) (s : list ascii) (i : Z) (ellipsis : bool) : bool :=
  let finish (s : list ascii) (i : Z) (ellipsis : bool) :=
    bool_decide (s = []) && (if decide (i < 16) then ellipsis else negb ellipsis) in
  match fuel with
  | O => finish s i ellipsis
  | S fuel =>
    match hexGroup s 0 with
    | None => false
    | Some (O, _) => false
    | Some (_, rest) =>
      match rest with
      | [] => finish [] (i + 2) ellipsis
      | c :: rest' =>
        if decide (c = "."%char) then
          if decide ((ellipsis = false /\ i <> 12) \/ 16 < i + 4) then false
          else parseIPv4 s && finish [] (i + 4) ellipsis
        else if decide (c <> ":"%char) then false
        else match rest' with
             | [] => false
             | c2 :: rest2 =>
               if decide (c2 = ":"%char) then
                 if ellipsis then false
                 else match rest2 with
                      | [] => finish [] (i + 2) true
                      | _ => parseIPv6Loop fuel rest2 (i + 2) true
                      end
               else parseIPv6Loop fuel rest' (i + 2) ellipsis
             end
      end
    end
  end.

(** What comes before the zone's [%], and the zone. *)
Fixpoint cutZone (s : list ascii) : list ascii * option (list ascii) :=
  match s with
  | [] => ([], None)
  | c :: s' =>
    if decide (c = "%"%char) then ([], Some s')
    else let '(a, z) := cutZone s' in (c :: a, z)
  end.

Definition parseIPv6 (s : list ascii) : bool :=
  let '(a, zone) := cutZone s in
  if decide (zone = Some []) then false
  else match a with
       | ":"%char :: ":"%char :: rest =>
         match rest with [] => true | _ => parseIPv6Loop 8 rest 0 true end
       | _ => parseIPv6Loop 8 a 0 false
       end.

(** The first of [.], [:] and [%] decides which form is parsed. *)
Fixpoint addrForm (s : list ascii) : option ascii :=
  match s with
  | [] => None
  | c :: s' =>
    if decide (c = "."%char \/ c = ":"%char \/ c = "%"%char) then Some c else addrForm s'
  end.

Definition ParseAddr (ip : string) : bool :=
  let s := list_ascii_of_string ip in
  match addrForm s with
  | Some "."%char => parseIPv4 s
  | Some ":"%char => parseIPv6 s
  | _ => false
  end.

(** The forms a worker can and cannot be registered under. *)
Example ParseAddr_accepts :
  forallb ParseAddr ["10.0.0.7"; "255.255.255.0"; "::1"; "fe80::1%eth0"; "2001:db8::8:800:200c:417a";
                     "::ffff:10.0.0.7"; "1:2:3:4:5:6:7:8"; "::"; "1::"]%string = true.
Proof. reflexivity. Qed.
Example ParseAddr_refuses :
  existsb ParseAddr [""; "worker-1"; "10.0.0"; "10.0.0.256"; "10.0.0.07"; "10.0.0.7.1"; ".1.2.3"; "1..2.3";
                     "1.2.3."; ":1"; "1:2"; "1:2:3:4:5:6:7:8:9"; "1::2::3"; "fe80::1%"; "12345::";
                     "1:2:3:4:5:6:7::8:9"; "10.0.0.7:2376"]%string = false.
Proof. reflexivity. Qed.

(** The empty text, which stands for the local daemon in an instance's row, is
    no worker's address. *)
Lemma ParseAddr_nonempty ip : ParseAddr ip = true -> ip <> ""%string.
Proof. by intros H ->. Qed.
