(* ===== verification/HostConfig.v ===== *)
(** * HostConfig: what a container is created with

    The part of [startContainers] ([cork/docker.go]) that turns an image and
    the challenge's container options into the request [ContainerCreate] is
    given, and [parseNanoCPUs] of [cork/cpu.go].

    The parsers of other packages are a record of functions: [network.ParsePort],
    [units.RAMInBytes], [units.ParseUlimit] (moby, docker) and
    [big.Rat.SetString], which gives a numerator and a positive denominator. *)
From S2P Require Import Prelude Types Settings Netip.
Local Open Scope Z_scope.

Record Parsers := mkParsers {
  ParsePort : string -> bool;
  RatSetString : string -> option (Z * Z);
  RAMInBytes : string -> option Z;
  ParseUlimit : string -> bool }.

(** [parseNanoCPUs]: a whole number of billionths of a CPU, in an [int64]. *)
Definition nanoCPUsPerCPU : Z := 1000000000.
Definition parseNanoCPUs (p : Parsers) (value : string) : error + Z :=
  match RatSetString p value with
  | None => inl [OtherError "not a rational number"]
  | Some (num, den) =>
    let n := num * nanoCPUsPerCPU in
    if decide (n `mod` den = 0) then
      let nano := n `div` den in
      if decide (- two63 <= nano < two63) then inr nano
      else inl [OtherError "exceeds the supported range"]
    else inl [OtherError "more precise than one NanoCPU"]
  end.

Record HostConfig := mkHostConfig {
  hc_bindings : list (string * string);    (* container port, host port *)
  hc_init : option bool;
  hc_nanoCPUs : Z;
  hc_memory : Z;
  hc_ulimits : list string;
  hc_pidsLimit : option Z;
  hc_readonlyRootfs : bool;
  hc_capDrop : list string;
  hc_capAdd : list string;
  hc_securityOpt : list string;
  hc_storageSize : option string;
  hc_cgroupParent : string }.
#[export] Instance eta_HostConfig : Eta HostConfig := fun h =>
  mkHostConfig (hc_bindings h) (hc_init h) (hc_nanoCPUs h) (hc_memory h) (hc_ulimits h)
    (hc_pidsLimit h) (hc_readonlyRootfs h) (hc_capDrop h) (hc_capAdd h) (hc_securityOpt h)
    (hc_storageSize h) (hc_cgroupParent h).

Definition bareHostConfig (bindings : list (string * string)) : HostConfig :=
  mkHostConfig bindings None 0 0 [] None false [] [] [] None "".

(** [strings.ToLower] on ASCII. *)
Definition lowerChar (c : ascii) : ascii :=
  let n := nat_of_ascii c in
  if decide (65 <= n <= 90)%nat then ascii_of_nat (n + 32) else c.
Fixpoint ToLower (s : string) : string :=
  match s with EmptyString => EmptyString | String c s => String (lowerChar c) (ToLower s) end.

(** The options that apply to a host: its own if it has any, else the
    challenge-wide ones, else none at all. *)
Definition optionsFor (opts : gmap string ContainerOptions) (host : string) : option ContainerOptions :=
  match opts !! ToLower host with
  | Some o => Some o
  | None => opts !! ""%string
  end.

(** The parsed limits, each given up at the first value that does not parse. *)
Definition applyOptions (p : Parsers) (quotas : bool) (o : ContainerOptions) (h : HostConfig)
    : error + HostConfig :=
  let h := h <| hc_init := Some (co_init o) |> in
  match (if decide (co_cpus o = ""%string) then inr 0 else parseNanoCPUs p (co_cpus o)) : error + Z with
  | inl err => inl err
  | inr nano =>
    match (if decide (co_memory o = ""%string) then Some 0 else RAMInBytes p (co_memory o)) with
    | None => inl [OtherError "memory"]
    | Some mem =>
      if forallb (ParseUlimit p) (co_ulimits o) then
        inr (h <| hc_nanoCPUs := nano |> <| hc_memory := mem |> <| hc_ulimits := co_ulimits o |>
               <| hc_pidsLimit := if decide (co_pidsLimit o = 0) then None else Some (co_pidsLimit o) |>
               <| hc_readonlyRootfs := co_readonlyRootfs o |>
               <| hc_capDrop := co_droppedCaps o |>
               <| hc_securityOpt := if co_noNewPrivileges o then ["no-new-privileges=true"%string] else [] |>
               <| hc_storageSize := if decide (co_diskQuota o = ""%string) then None
                                    else if quotas then Some (co_diskQuota o) else None |>
               <| hc_cgroupParent := co_cgroupParent o |>)
      else inl [OtherError "ulimit"]
    end
  end.

Definition seccompSecurityOpt (profile : string) : string := String.append "seccomp=" profile.

(** The seccomp profile: the challenge's own when it resolved to one, else
    cork's policy. *)
Definition profileFor (policy : string) (o : option ContainerOptions) : string :=
  match o with
  | Some o =>
    match co_seccomp o with
    | Some s => if decide (sc_effectiveProfile s = ""%string) then policy else sc_effectiveProfile s
    | None => policy
    end
  | None => policy
  end.

Definition linuxOptions (policy : string) (o : option ContainerOptions) (h : HostConfig) : HostConfig :=
  let h := match o with
           | Some o => if co_capImmutable o then h <| hc_capAdd ::= (fun l => l ++ ["LINUX_IMMUTABLE"%string]) |> else h
           | None => h
           end in
  h <| hc_securityOpt ::= (fun l => l ++ [seccompSecurityOpt (profileFor policy o)]) |>.

(** The port bindings of an image: the reserved host port, or none when docker
    is to choose.  A port that does not parse, or a bad interface, fails. *)
Fixpoint portBindings (p : Parsers) (portLow : Z) (interface : string) (ports : gmap string Z)
    (rev : gmap string string) (imagePorts : list string) : error + list (string * string) :=
  match imagePorts with
  | [] => inr []
  | portStr :: rest =>
    if ParsePort p portStr then
      if negb (bool_decide (interface = ""%string)) && negb (ParseAddr interface)
      then inl [OtherError "invalid challenge interface"]
      else
        let hostPort := if decide (portLow = 0) then ""%string
                        else pretty (default 0 (ports !! default ""%string (rev !! portStr))) in
        match portBindings p portLow interface ports rev rest with
        | inl err => inl err
        | inr l => inr ((portStr, hostPort) :: l)
        end
    else inl [OtherError "invalid port"]
  end.

Definition hostConfig (p : Parsers) (quotas linux : bool) (policy : string)
    (opts : gmap string ContainerOptions) (host : string) (bindings : list (string * string))
    : error + HostConfig :=
  let o := optionsFor opts host in
  let h := bareHostConfig bindings in
  match (match o with Some o => applyOptions p quotas o h | None => inr h end) : error + HostConfig with
  | inl err => inl err
  | inr h => inr (if linux then linuxOptions policy o h else h)
  end.

(** ** What every container gets *)

(** On a Linux daemon no container is created without exactly one seccomp
    profile, whatever options the challenge sets: the challenge's own profile
    when it resolved to one, cork's policy otherwise; and privilege escalation
    is off when the challenge asks for it.  The published ports are the ones
    asked for. *)
Theorem hostConfig_seccomp p quotas policy opts host bindings h :
  hostConfig p quotas true policy opts host bindings = inr h ->
  exists pre, hc_securityOpt h = pre ++ [seccompSecurityOpt (profileFor policy (optionsFor opts host))] /\
    Forall (fun s => CutPrefix s "seccomp=" = None) pre /\
    (forall o, optionsFor opts host = Some o -> co_noNewPrivileges o = true ->
       "no-new-privileges=true"%string ∈ hc_securityOpt h) /\
    hc_bindings h = bindings.
Proof.
  unfold hostConfig.
  assert (forall h0 o0, applyOptions p quotas o0 (bareHostConfig bindings) = inr h0 ->
    hc_securityOpt h0 = (if co_noNewPrivileges o0 then ["no-new-privileges=true"%string] else []) /\
    hc_bindings h0 = bindings) as Happ.
  { intros h0 o0. unfold applyOptions. repeat case_match; intros; simplify_eq; done. }
  destruct (optionsFor opts host) as [o|]; simpl.
  - destruct (applyOptions p quotas o (bareHostConfig bindings)) as [err|h0] eqn:E; [done|].
    intros [= <-]. destruct (Happ h0 o E) as [Hs Hb]. unfold linuxOptions.
    exists (hc_securityOpt h0). destruct (co_capImmutable o); simpl; rewrite Hs;
      destruct (co_noNewPrivileges o) eqn:Hn; (split_and!; [done|by repeat constructor| |done]);
      intros o' [= <-] Hn'; try congruence; set_solver.
  - intros [= <-]. exists []. split_and!; done.
Qed.

Lemma hostConfig_seccomp_witness :
  let p := mkParsers (fun _ => true) (fun _ => Some (3, 2)) (fun _ => Some 1024) (fun _ => true) in
  let o := mkContainerOptions true "1.5" "1k" [] 10 true ["ALL"]%string true "" "" true None in
  let h := mkHostConfig [("80/tcp", "30001")]%string (Some true) 1500000000 1024 [] (Some 10) true
             ["ALL"]%string ["LINUX_IMMUTABLE"]%string ["no-new-privileges=true"; "seccomp=policy"]%string None "" in
  hostConfig p false true "policy" {["web" := o]} "Web" [("80/tcp", "30001")]%string = inr h /\
  exists pre, hc_securityOpt h = pre ++ ["seccomp=policy"%string].
Proof.
  intros p o h.
  assert (hostConfig p false true "policy" {["web" := o]} "Web" [("80/tcp", "30001")]%string = inr h) as E
    by (vm_compute; reflexivity).
  split; [exact E|].
  destruct (hostConfig_seccomp p false "policy" {["web" := o]} "Web" _ h E) as (pre & Hp & _).
  exists pre. rewrite Hp. vm_compute. reflexivity.
Defined.

(** The CPUs a challenge asks for are granted exactly, or refused. *)
Lemma parseNanoCPUs_exact p value nano :
  (forall s num den, RatSetString p s = Some (num, den) -> 0 < den) ->
  parseNanoCPUs p value = inr nano ->
  exists num den, RatSetString p value = Some (num, den) /\ nano * den = num * nanoCPUsPerCPU /\ in64 nano.
Proof.
  intros Hden. unfold parseNanoCPUs. destruct (RatSetString p value) as [[num den]|] eqn:E; [|done].
  repeat case_decide; intros; simplify_eq. exists num, den. split_and!; [done| |done].
  specialize (Hden _ _ _ E). rewrite (Z.div_mod (num * nanoCPUsPerCPU) den) at 2 by lia. lia.
Qed.
