(* ===== verification/Queue.v ===== *)
(** * Queue: the slots of one docker daemon

    [daemonQueue] of [cork/workers.go] (its hold-time estimate and the wait it
    predicts), [launchRing] of [cork/launchmetrics.go] (the recent launch
    durations [worker-list] summarizes), and the slot protocol of
    [cork/launch.go] ([acquireSlot], [acquireLaunchSlot]) as a step relation
    over any number of goroutines. *)
From S2P Require Import Prelude.
Local Open Scope Z_scope.

(** ** The ring of recent launch durations *)
Definition launchRingSize : nat := 256.

Record launchRing := mkRing {
  r_buf : list Z;
  r_next : nat;
  r_filled : nat;
  r_total : Z;
  r_failed : Z }.
#[export] Instance eta_launchRing : Eta launchRing := fun r =>
  mkRing (r_buf r) (r_next r) (r_filled r) (r_total r) (r_failed r).

Definition emptyRing : launchRing := mkRing (replicate launchRingSize 0) 0 0 0 0.

Definition ringAdd (r : launchRing) (d : Z) (ok : bool) : launchRing :=
  let r := r <| r_total ::= fun n => add64 n 1 |> in
  if ok then
    let r := r <| r_buf := <[r_next r := d]> (r_buf r) |> in
    let r := r <| r_next ::= fun n => ((n + 1) mod launchRingSize)%nat |> in
    if decide (r_filled r < launchRingSize)%nat then r <| r_filled ::= S |> else r
  else r <| r_failed ::= fun n => add64 n 1 |>.

Record LaunchStats := mkStats {
  ls_count : Z; ls_failed : Z; ls_samples : Z; ls_p50 : Z; ls_p90 : Z; ls_max : Z }.

(** [Duration.Milliseconds]. *)
Definition Milliseconds (d : Z) : Z := div64 d Millisecond.

Definition quantileIndex (n pct : Z) : Z :=
  let i := div64 (n * pct + 99) 100 in
  let i := if decide (i < 1) then 1 else i in
  let i := if decide (i > n) then n else i in
  i - 1.

Definition ringStats (r : launchRing) : LaunchStats :=
  let n := r_filled r in
  let sorted := merge_sort Z.le (take n (r_buf r)) in
  let at_ (i : Z) := Milliseconds (default 0 (sorted !! Z.to_nat i)) in
  if decide (n = 0%nat) then mkStats (r_total r) (r_failed r) 0 0 0 0
  else mkStats (r_total r) (r_failed r) (Z.of_nat n)
         (at_ (quantileIndex (Z.of_nat n) 50)) (at_ (quantileIndex (Z.of_nat n) 90))
         (at_ (Z.of_nat n - 1)).

(** ** One daemon's queue

    A buffered channel used as a semaphore is its capacity and how many
    tokens it holds. *)
Record daemonQueue := mkQueue {
  q_slots : Z;             (* cap(launchSem) = cap(teardownSem) *)
  q_launchSem : Z;         (* len(launchSem) *)
  q_teardownSem : Z;       (* len(teardownSem) *)
  q_waiting : Z;
  q_teardownWaiting : Z;
  q_holdNanos : Z;
  q_launches : launchRing }.
#[export] Instance eta_daemonQueue : Eta daemonQueue := fun q =>
  mkQueue (q_slots q) (q_launchSem q) (q_teardownSem q) (q_waiting q)
    (q_teardownWaiting q) (q_holdNanos q) (q_launches q).

(** [slots]: a semaphore of at least one slot. *)
Definition slots (n : Z) : Z := if decide (n < 1) then 1 else n.

Definition newDaemonQueue (slots : Z) : daemonQueue := mkQueue slots 0 0 0 0 0 emptyRing.

Definition recordHold (q : daemonQueue) (d : Z) : daemonQueue :=
  let old := q_holdNanos q in
  if decide (old = 0) then q <| q_holdNanos := d |>
  else q <| q_holdNanos := add64 (div64 (mul64 old 3) 4) (div64 d 4) |>.

(** The expected wait and the number already waiting; [None] is the nil queue. *)
Definition expectedWait (q : option daemonQueue) : Z * Z :=
  match q with
  | None => (0, 0)
  | Some q =>
    let hold := q_holdNanos q in
    let waiting := q_waiting q in
    let slots := q_slots q in
    let ahead := waiting + q_launchSem q in
    if decide (hold = 0 \/ ahead < slots) then (0, waiting)
    else (div64 (mul64 hold (ahead - slots + 1)) slots, waiting)
  end.

(** ** The slot protocol

    Each goroutine that wants a slot walks through [acquireLaunchSlot] and
    [acquireSlot]; the program points below are the places between two
    operations another goroutine can see. *)
Inductive slot_pc :=
| at_entry        (* before q.waiting.Add(1) *)
| at_check        (* counted among the waiting; before the first unreachable test *)
| at_select       (* blocked in the select *)
| at_recheck      (* token taken; before the second unreachable test *)
| at_granted      (* acquireSlot returned a release; before q.waiting.Add(-1) *)
| at_refused      (* acquireSlot returned an error; before q.waiting.Add(-1) *)
| at_hold         (* the stage runs, slot held *)
| at_released     (* slot given back *)
| at_failed.      (* the error went back to the caller, no slot *)
#[export] Instance slot_pc_eq_dec : EqDecision slot_pc.
Proof. solve_decision. Defined.

(** Whether a goroutine at this point owns a token, is counted as waiting. *)
Definition owns (p : slot_pc) : bool :=
  match p with at_recheck | at_granted | at_hold => true | _ => false end.
Definition counted (p : slot_pc) : bool :=
  match p with
  | at_check | at_select | at_recheck | at_granted | at_refused => true
  | _ => false
  end.

Record slot_state := mkSlots {
  ss_cap : nat;                  (* capacity of the semaphore *)
  ss_len : nat;                  (* tokens in it *)
  ss_waiting : Z;                (* the waiting counter *)
  ss_unreachable : bool;         (* the worker has been given up on *)
  ss_pcs : gmap nat slot_pc }.   (* the goroutines *)
#[export] Instance eta_slot_state : Eta slot_state := fun s =>
  mkSlots (ss_cap s) (ss_len s) (ss_waiting s) (ss_unreachable s) (ss_pcs s).

Definition goto (g : nat) (p : slot_pc) (s : slot_state) : slot_state :=
  s <| ss_pcs ::= fun m => <[g := p]> m |>.

Section slot_protocol.
(** Which goroutines wait a bounded time: one whose [wait] is zero, a restart,
    never sees its timer expire. *)
Context (bounded : nat -> bool).

(** One operation of one goroutine, or the worker being given up on. *)
Inductive slot_step (s : slot_state) : slot_state -> Prop :=
| step_spawn g :
    ss_pcs s !! g = None -> slot_step s (goto g at_entry s)
| step_enter g :
    ss_pcs s !! g = Some at_entry ->
    slot_step s (goto g at_check (s <| ss_waiting ::= Z.succ |>))
| step_check_refused g :
    ss_pcs s !! g = Some at_check -> ss_unreachable s = true ->
    slot_step s (goto g at_refused s)
| step_check_ok g :
    ss_pcs s !! g = Some at_check -> ss_unreachable s = false ->
    slot_step s (goto g at_select s)
| step_take g :
    ss_pcs s !! g = Some at_select -> (ss_len s < ss_cap s)%nat ->
    slot_step s (goto g at_recheck (s <| ss_len ::= S |>))
| step_woken g :
    ss_pcs s !! g = Some at_select -> ss_unreachable s = true ->
    slot_step s (goto g at_refused s)
| step_expired g :
    ss_pcs s !! g = Some at_select -> bounded g = true ->
    slot_step s (goto g at_refused s)
| step_recheck_refused g :
    ss_pcs s !! g = Some at_recheck -> ss_unreachable s = true ->
    slot_step s (goto g at_refused (s <| ss_len ::= Nat.pred |>))
| step_recheck_ok g :
    ss_pcs s !! g = Some at_recheck -> ss_unreachable s = false ->
    slot_step s (goto g at_granted s)
| step_granted g :
    ss_pcs s !! g = Some at_granted ->
    slot_step s (goto g at_hold (s <| ss_waiting ::= Z.pred |>))
| step_refused g :
    ss_pcs s !! g = Some at_refused ->
    slot_step s (goto g at_failed (s <| ss_waiting ::= Z.pred |>))
| step_release g :
    ss_pcs s !! g = Some at_hold ->
    slot_step s (goto g at_released (s <| ss_len ::= Nat.pred |>))
| step_unreachable :
    slot_step s (s <| ss_unreachable := true |>).

Definition slot_init (cap : nat) : slot_state := mkSlots cap 0 0 false ∅.

Definition slot_reachable (cap : nat) : slot_state -> Prop := rtc slot_step (slot_init cap).

(** The tokens in the semaphore are exactly those of the goroutines that own
    one, and the counter counts exactly those that wait. *)
Record slot_inv (cap : nat) (s : slot_state) : Prop := {
  si_cap : ss_cap s = cap;
  si_len : ss_len s = count_if owns (ss_pcs s);
  si_bound : (ss_len s <= cap)%nat;
  si_waiting : ss_waiting s = Z.of_nat (count_if counted (ss_pcs s)) }.

Lemma slot_inv_init cap : slot_inv cap (slot_init cap).
Proof. split; simpl; rewrite ?count_if_empty; done || lia. Qed.

Lemma slot_inv_step cap s s' : slot_inv cap s -> slot_step s s' -> slot_inv cap s'.
Proof.
  intros [Hc Hl Hb Hw] Hstep.
  inversion Hstep; subst s'; try (split; simpl; done);
    match goal with
    | H : ss_pcs s !! ?g = None |- _ =>
      split; simpl; rewrite ?(count_if_insert_None _ _ _ _ H); simpl; done
    | H : ss_pcs s !! ?g = Some ?p |- context [goto ?g ?p' _] =>
      pose proof (count_if_insert owns _ _ _ p' H);
      pose proof (count_if_insert counted _ _ _ p' H);
      assert (owns p = true -> (0 < count_if owns (ss_pcs s))%nat)
        by (intros; by eapply count_if_pos);
      split; simpl in *; lia || naive_solver lia
    end.
Qed.

Lemma slot_inv_reachable cap s : slot_reachable cap s -> slot_inv cap s.
Proof.
  intros Hr. unfold slot_reachable in Hr.
  enough (forall s0, slot_inv cap s0 -> rtc slot_step s0 s -> slot_inv cap s)
    by eauto using slot_inv_init.
  clear Hr. induction 2; eauto using slot_inv_step.
Qed.

(** The slots are kept: however the goroutines interleave, no more launches
    hold a slot than the queue has slots and the waiting count is the number of
    goroutines that have announced themselves and not left; and no path leaks a
    slot: once every goroutine has finished, whether served, refused, timed out
    or cut off by its worker, the semaphore is empty and nothing is counted as
    waiting. *)
Theorem slots_kept cap s :
  slot_reachable cap s ->
  (count_if (fun p => bool_decide (p = at_hold)) (ss_pcs s) <= cap)%nat /\
  ss_waiting s = Z.of_nat (count_if counted (ss_pcs s)) /\
  ((forall g p, ss_pcs s !! g = Some p -> p = at_released \/ p = at_failed) ->
     ss_len s = 0%nat /\ ss_waiting s = 0).
Proof.
  intros [_ Hl Hb Hw]%slot_inv_reachable. split_and!; [|done|].
  - etrans; [|exact Hb]. rewrite Hl. apply count_if_le. intros p. case_bool_decide; subst; done.
  - intros Hdone. rewrite Hl, Hw, !count_if_none; [done|..]; intros k a [-> | ->]%Hdone; done.
Qed.

(** The point a goroutine at [p] goes to next when it is neither refused nor
    timed out; finished ones stay. *)
Definition finished (p : slot_pc) : bool :=
  match p with at_released | at_failed => true | _ => false end.

(** How many operations a goroutine has left at most. *)
Definition slot_rank (p : slot_pc) : nat :=
  match p with
  | at_entry => 6 | at_check => 5 | at_select => 4 | at_recheck => 3 | at_granted => 2
  | at_refused => 1 | at_hold => 1 | at_released => 0 | at_failed => 0
  end.


End slot_protocol.

(** One launch that took the only slot, one still waiting for it. *)
Definition slot_example : slot_state :=
  mkSlots 1 1 1 false (<[1%nat := at_select]> (<[0%nat := at_hold]> ∅)).

Lemma slot_example_reachable : slot_reachable (fun _ => false) 1 slot_example.
Proof.
  unfold slot_reachable.
  eapply rtc_l; [by apply (step_spawn _ _ 0%nat)|].
  eapply rtc_l; [by apply (step_enter _ _ 0%nat)|].
  eapply rtc_l; [by apply (step_check_ok _ _ 0%nat)|].
  eapply rtc_l; [apply (step_take _ _ 0%nat); [done|simpl; lia]|].
  eapply rtc_l; [by apply (step_recheck_ok _ _ 0%nat)|].
  eapply rtc_l; [by apply (step_granted _ _ 0%nat)|].
  eapply rtc_l; [by apply (step_spawn _ _ 1%nat)|].
  eapply rtc_l; [by apply (step_enter _ _ 1%nat)|].
  eapply rtc_l; [by apply (step_check_ok _ _ 1%nat)|].
  apply rtc_refl.
Qed.

Lemma slots_kept_witness : ss_waiting slot_example = 1 /\ ss_len (slot_init 3) = 0%nat.
Proof.
  split.
  - exact (proj1 (proj2 (slots_kept (fun _ => false) 1 slot_example slot_example_reachable))).
  - apply (slots_kept (fun _ => false) 3 (slot_init 3)); [apply rtc_refl|].
    intros g p H. simpl in H. by rewrite lookup_empty in H.
Defined.


(** ** The ring *)
#[local] Arguments Nat.modulo : simpl never.

(** The ring holding the durations [hist], oldest first: the newest lie before
    the cursor and, once full, the oldest retained ones from it on. *)
Definition ring_holds (r : launchRing) (hist : list Z) : Prop :=
  exists new old,
    r_buf r = new ++ old /\ length (r_buf r) = launchRingSize /\
    length new = r_next r /\ (r_next r < launchRingSize)%nat /\
    (((r_filled r < launchRingSize)%nat /\ new = hist /\ r_filled r = length hist) \/
     (r_filled r = launchRingSize /\ exists older, hist = older ++ old ++ new)).

Lemma ring_holds_add r hist d :
  ring_holds r hist -> ring_holds (ringAdd r d true) (hist ++ [d]).
Proof.
  intros (new & old & Hbuf & Hlen & Hnew & Hnext & Hcase).
  destruct old as [|o old].
  { rewrite Hbuf, app_nil_r in Hlen. lia. }
  assert (length new + S (length old) = launchRingSize)%nat as Hsplit
    by (rewrite Hbuf, length_app in Hlen; done).
  assert (<[r_next r := d]> (r_buf r) = new ++ d :: old) as Hins.
  { rewrite Hbuf, <- Hnew, <- (Nat.add_0_r (length new)), insert_app_r. done. }
  assert (length (new ++ d :: old) = launchRingSize) as Hlen'
    by (rewrite length_app; simpl; lia).
  assert (r_filled r < launchRingSize -> old <> [] -> r_filled r + 1 < launchRingSize)%nat
    as Hroom by (intros; destruct Hcase as [(?&->&->)|[? _]]; destruct old; simpl in *; done || lia).
  unfold ringAdd; simpl. rewrite Hins.
  destruct old as [|o' old].
  - (* the cursor wraps *)
    exists [], (new ++ [d]).
    assert (r_next r + 1 = launchRingSize)%nat as Hn by (simpl in Hsplit; lia).
    assert ((r_next r + 1) mod launchRingSize = 0)%nat as Hwrap
      by (rewrite Hn; apply Nat.Div0.mod_same).
    case_decide; simpl; rewrite ?Hwrap; (split_and!; [done|done|done|unfold launchRingSize; lia|right]).
    + destruct Hcase as [(?&->&?)|[? _]]; [|lia].
      split; [simpl in *; lia|]. exists []. by rewrite app_nil_r.
    + destruct Hcase as [(?&?&?)|[-> (older&->)]]; [lia|].
      split; [done|]. exists (older ++ [o]). by rewrite app_nil_r, <- !app_assoc.
  - exists (new ++ [d]), (o' :: old).
    rewrite Nat.mod_small by (simpl in *; lia).
    case_decide; simpl;
      (split_and!; [by rewrite <- app_assoc|done|rewrite length_app; simpl; lia|simpl in *; lia|]).
    + left. destruct Hcase as [(?&->&Hf)|[? _]]; [|lia].
      rewrite length_app. simpl. split_and!; [|done|lia].
      assert (r_filled r + 1 < launchRingSize)%nat by (by apply Hroom). lia.
    + right. destruct Hcase as [(?&?&?)|[-> (older&->)]]; [lia|].
      split; [done|]. exists (older ++ [o]). by rewrite <- !app_assoc.
Qed.

Lemma ring_holds_fail r hist d : ring_holds r hist -> ring_holds (ringAdd r d false) hist.
Proof. done. Qed.

Definition ringRun (r : launchRing) (l : list (Z * bool)) : launchRing :=
  foldl (fun r '(d, ok) => ringAdd r d ok) r l.
Fixpoint successes (l : list (Z * bool)) : list Z :=
  match l with
  | [] => []
  | (d, true) :: l => d :: successes l
  | (_, false) :: l => successes l
  end.

Lemma ringRun_holds l r hist :
  ring_holds r hist -> ring_holds (ringRun r l) (hist ++ successes l).
Proof.
  unfold ringRun. revert r hist.
  induction l as [|[d [|]] l IH]; intros r hist H; simpl.
  - by rewrite app_nil_r.
  - rewrite (cons_middle d), app_assoc. by apply IH, ring_holds_add.
  - apply IH. by apply ring_holds_fail with (d := d).
Qed.

Lemma emptyRing_holds : ring_holds emptyRing [].
Proof.
  exists [], (replicate launchRingSize 0). simpl. unfold launchRingSize.
  split_and!; try done; [lia|]. left. split_and!; done || lia.
Qed.


(** [quantileIndex] is the nearest rank: it lies inside the sample, at
    least [pct] percent of the samples are at or below it, and fewer are
    strictly below it. *)
Theorem quantileIndex_rank n pct :
  0 < n -> 0 < pct <= 100 -> n * pct + 99 < two63 ->
  let i := quantileIndex n pct in
  0 <= i < n /\ n * pct <= (i + 1) * 100 /\ i * 100 < n * pct.
Proof.
  unfold quantileIndex, div64. intros Hn Hp _.
  rewrite Z.quot_div_nonneg by lia.
  pose proof (Z.div_mod (n * pct + 99) 100 ltac:(lia)).
  pose proof (Z.mod_pos_bound (n * pct + 99) 100 ltac:(lia)).
  repeat case_decide; nia.
Qed.

Lemma quantileIndex_rank_witness : quantileIndex 7 90 = 6 /\ 0 <= quantileIndex 7 90 < 7.
Proof. split; [reflexivity|]. apply (quantileIndex_rank 7 90); unfold two63; lia. Defined.

(** ** The hold-time estimate *)

(** Folding a sample in keeps the estimate between zero and the larger of
    the old estimate and the sample, and it moves by at most a quarter of the
    way plus rounding, as long as the old estimate is under a third of the
    range (about 97 years), where the product would wrap. *)
Theorem recordHold_bounds q d :
  0 < q_holdNanos q -> 3 * q_holdNanos q < two63 -> 0 <= d < two63 ->
  0 <= q_holdNanos (recordHold q d) <= Z.max (q_holdNanos q) d /\
  4 * q_holdNanos (recordHold q d) <= 3 * q_holdNanos q + d /\
  3 * q_holdNanos q + d - 6 <= 4 * q_holdNanos (recordHold q d).
Proof.
  unfold recordHold, add64, mul64, div64. intros Ho H3 Hd.
  case_decide; [lia|]. simpl.
  rewrite (wrap64_id (q_holdNanos q * 3)) by (unfold in64; lia).
  assert (0 <= Z.quot (q_holdNanos q * 3) 4 /\ 4 * Z.quot (q_holdNanos q * 3) 4 <= q_holdNanos q * 3
    /\ q_holdNanos q * 3 - 3 <= 4 * Z.quot (q_holdNanos q * 3) 4)
    by (Z.to_euclidean_division_equations; lia).
  assert (0 <= Z.quot d 4 /\ 4 * Z.quot d 4 <= d /\ d - 3 <= 4 * Z.quot d 4)
    by (Z.to_euclidean_division_equations; lia).
  rewrite wrap64_id by (unfold in64, two63 in *; lia). lia.
Qed.

Lemma recordHold_bounds_witness :
  0 <= q_holdNanos (recordHold (mkQueue 2 0 0 0 0 4000 emptyRing) 8000) <= 8000.
Proof. apply (recordHold_bounds (mkQueue 2 0 0 0 0 4000 emptyRing) 8000); simpl; unfold two63; lia. Defined.

(** A daemon with a free slot, or with no measured hold time, predicts no
    wait whatever its estimate says. *)
Lemma expectedWait_room q :
  q_holdNanos q = 0 \/ q_waiting q + q_launchSem q < q_slots q ->
  expectedWait (Some q) = (0, q_waiting q).
Proof. intros H. unfold expectedWait. by rewrite decide_True. Qed.

(** Otherwise the wait is the hold time of the launches beyond the slots,
    shared by the slots; exact as long as the product does not wrap. *)
Lemma expectedWait_full q :
  0 < q_slots q -> 0 < q_holdNanos q -> q_slots q <= q_waiting q + q_launchSem q ->
  q_holdNanos q * (q_waiting q + q_launchSem q - q_slots q + 1) < two63 ->
  (expectedWait (Some q)).1 =
  q_holdNanos q * (q_waiting q + q_launchSem q - q_slots q + 1) / q_slots q.
Proof.
  intros Hs Hh Ha Hw. unfold expectedWait, mul64, div64. rewrite decide_False by lia. simpl.
  rewrite wrap64_id by (unfold in64, two63 in *; nia).
  rewrite Z.quot_div_nonneg by nia. done.
Qed.
