(* ===== verification/Worker.v ===== *)
(** * Worker: the runtime state of one docker worker

    [workerConn] of [cork/workers.go]: its two health axes, the one-shot
    broadcast [unreachCh], the ejection count and the recent stalls, with the
    operations that write them ([setReachable], [setLoad], [eject],
    [markWorkerDown], [noteTimeout]) and those that read them ([placeable],
    [readyToRecover], [recoverBackoffFor], [derivedHealth]).

    An operation here is the whole of the Go function run without
    interference; [WorkerConc] takes [setReachable] apart and runs it against
    other goroutines, and [Fleet] composes the operations. *)
From S2P Require Import Prelude Settings Queue.
Local Open Scope Z_scope.

Inductive workerReachable := workerUnresponsive | workerDown | workerReachableOk.
Inductive workerLoad := workerLoadUnknown | workerOverloaded | workerLoadOk.
#[export] Instance workerReachable_eq_dec : EqDecision workerReachable.
Proof. solve_decision. Defined.
#[export] Instance workerLoad_eq_dec : EqDecision workerLoad.
Proof. solve_decision. Defined.

Definition reachableString (r : workerReachable) : string :=
  match r with
  | workerReachableOk => "ok"
  | workerDown => "down"
  | workerUnresponsive => "unresponsive"
  end.
Definition loadString (l : workerLoad) : string :=
  match l with
  | workerLoadOk => "ok"
  | workerOverloaded => "overloaded"
  | workerLoadUnknown => "unknown"
  end.

(** [derivedHealth]: the two axes on the old single-axis vocabulary. *)
Definition derivedHealth (r : workerReachable) (l : workerLoad) : string :=
  if decide (r = workerReachableOk) then
    if decide (l = workerOverloaded) then "overloaded" else "ok"
  else reachableString r.

(** [cli], the docker client, is an identity: the code compares the pointers. *)
Record workerConn := mkConn {
  w_ip : string;
  w_public : string;
  w_cli : nat;
  w_cliClosed : bool;
  w_reachable : workerReachable;
  w_load : workerLoad;
  w_since : Z;
  w_reason : option string;
  w_ejections : Z;
  w_unreachCh : bchan;
  w_retired : bool;
  w_reconciled : bool;
  w_fromRecovery : bool;
  w_daemonFailed : bool;
  w_timeouts : list Z;
  w_queue : daemonQueue;
  w_done : bchan;
  w_probeNow : bool;        (* a nudge is buffered *)
  w_preloadNow : bool }.
#[export] Instance eta_workerConn : Eta workerConn := fun w =>
  mkConn (w_ip w) (w_public w) (w_cli w) (w_cliClosed w) (w_reachable w) (w_load w) (w_since w)
    (w_reason w) (w_ejections w) (w_unreachCh w) (w_retired w) (w_reconciled w)
    (w_fromRecovery w) (w_daemonFailed w) (w_timeouts w) (w_queue w) (w_done w)
    (w_probeNow w) (w_preloadNow w).

(** The conn [newWorkerConn] builds once its TLS material and client are
    there: out of placement, its load unknown, nothing failed yet. *)
Definition newWorkerConn (now : Z) (cli : nat) (ip public : string) (fromRecovery : bool)
    (launchConcurrency : Z) : workerConn := {|
  w_ip := ip; w_public := public; w_cli := cli; w_cliClosed := false;
  w_reachable := workerUnresponsive; w_load := workerLoadUnknown;
  w_since := now; w_reason := None; w_ejections := 0;
  w_unreachCh := chan_open; w_retired := false; w_reconciled := false;
  w_fromRecovery := fromRecovery; w_daemonFailed := false; w_timeouts := [];
  w_queue := newDaemonQueue (slots launchConcurrency); w_done := chan_open;
  w_probeNow := false; w_preloadNow := false |}.

(** [setReachable]: the conn after it and whether it made the transition. *)
Definition setReachable (now : Z) (w : workerConn) (to : workerReachable) (reason : string)
    : workerConn * bool :=
  let prev := w_reachable w in
  if decide (prev = to) then
    ((if decide (reason = ""%string) then w else w <| w_reason := Some reason |>), false)
  else if decide (prev = workerDown /\ to <> workerDown) then (w, false)
  else if decide (to = workerReachableOk /\ w_retired w = true) then (w, false)
  else
    let w := w <| w_reachable := to |> <| w_since := now |>
               <| w_reason := if decide (reason = ""%string) then None else Some reason |> in
    if decide (prev = workerReachableOk) then
      (w <| w_retired := true |> <| w_unreachCh ::= close_chan |>, true)
    else (w, true).

Definition setLoad (w : workerConn) (to : workerLoad) : workerConn := w <| w_load := to |>.

Definition eject (now : Z) (w : workerConn) (reason : string) : workerConn :=
  let first := negb (w_daemonFailed w) in
  let w := w <| w_daemonFailed := true |> in
  let '(w, moved) := setReachable now w workerUnresponsive reason in
  if moved || (first && w_fromRecovery w)
  then w <| w_ejections ::= fun n => wrap32 (n + 1) |> else w.

Definition markWorkerDown (now : Z) (w : workerConn) : workerConn :=
  (setReachable now w workerDown "taken down by an operator").1.

(** [noteTimeout]: the stalls kept, how many there are, whether to eject. *)
Definition noteTimeout (now callTimeout window limit : Z) (w : workerConn)
    : workerConn * (Z * bool) :=
  let recent := filter (fun at_ => now - at_ < window) (w_timeouts w) in
  let w := w <| w_timeouts := recent |> in
  let k := Z.of_nat (length recent) in
  match last recent with
  | Some at_ =>
    if decide (now - at_ < callTimeout) then (w, (k, false))
    else
      let n := k + 1 in
      if decide (n < limit) then (w <| w_timeouts := recent ++ [now] |>, (n, false))
      else (w <| w_timeouts := [] |>, (n, true))
  | None =>
    let n := k + 1 in
    if decide (n < limit) then (w <| w_timeouts := recent ++ [now] |>, (n, false))
    else (w <| w_timeouts := [] |>, (n, true))
  end.

Definition recoverBackoffFor (t : workerTiming) (w : workerConn) : Z :=
  let n := if decide (w_ejections w < 1) then 1 else w_ejections w in
  Z.min (mul64 n (recoverBackoff t)) (recoverBackoffMax t).

Definition readyToRecover (t : workerTiming) (now : Z) (w : workerConn) (goodProbes : Z) : bool :=
  if decide (goodProbes < healthyThreshold t) then false
  else bool_decide (recoverBackoffFor t w <= now - w_since w).

Definition placeable (w : workerConn) : bool :=
  bool_decide (w_reachable w = workerReachableOk) && bool_decide (w_load w <> workerOverloaded).

(** Whether a docker call to this conn's daemon is pointless (the part of
    [workerUnreachable] that looks at the conn). *)
Definition connUnreachable (w : workerConn) : bool :=
  match w_reachable w with
  | workerReachableOk => false
  | workerDown => true
  | workerUnresponsive => w_daemonFailed w
  end.

(** [gone]: whether the conn has been removed or replaced. *)
Definition gone (w : workerConn) : bool := bool_decide (w_done w <> chan_open).

(** ** The conn invariant

    The broadcast is closed exactly when the conn has left placement, a
    retired conn is never back in placement, and no channel is closed twice.
    [entered] is whether the conn's own goroutine has put it in placement. *)
Record conn_ok (w : workerConn) : Prop := {
  co_broadcast : w_unreachCh w = (if w_retired w then chan_closed else chan_open);
  co_retired : w_reachable w = workerReachableOk -> w_retired w = false;
  co_failed : w_retired w = true -> w_reachable w = workerDown \/ w_daemonFailed w = true;
  co_done : w_done w <> chan_panic }.

(** Writing a field the invariant does not mention keeps it. *)
Lemma conn_ok_frame w w' :
  w_unreachCh w' = w_unreachCh w -> w_retired w' = w_retired w ->
  w_reachable w' = w_reachable w -> (w_daemonFailed w = true -> w_daemonFailed w' = true) ->
  w_done w' = w_done w -> conn_ok w -> conn_ok w'.
Proof.
  intros H1 H2 H3 H4 H5 [A B C D].
  split; rewrite ?H1, ?H2, ?H3, ?H5; [done|done| |done]. naive_solver.
Qed.

(** Runs the operations of a conn on each state they can start from: the
    tests they make are all decided by the constructors. *)
Ltac run_conn w :=
  destruct w as [? ? ? ? r ? ? ? ? ch ret ? fr df ? ? dn ? ?]; simpl in *;
  unfold markWorkerDown, eject, setReachable, connUnreachable; simpl;
  destruct r, ret; simpl; subst; simpl in *;
  repeat match goal with |- context [decide (?x = ""%string)] => destruct (decide (x = ""%string)) end;
  simpl; try done.

Lemma newWorkerConn_ok now cli ip public fr lc : conn_ok (newWorkerConn now cli ip public fr lc).
Proof. by split. Qed.

(** What a transition of [setReachable] leaves alone. *)
Lemma setReachable_frame now w to reason :
  let w' := (setReachable now w to reason).1 in
  w_ip w' = w_ip w /\ w_cli w' = w_cli w /\ w_done w' = w_done w /\
  w_daemonFailed w' = w_daemonFailed w /\ w_fromRecovery w' = w_fromRecovery w /\
  w_ejections w' = w_ejections w /\ w_load w' = w_load w.
Proof. unfold setReachable. repeat case_decide; simpl; done. Qed.

(** Its verdict, on every branch. *)
Lemma setReachable_verdict now w to reason :
  (setReachable now w to reason).2 = true <->
  w_reachable w <> to /\ w_reachable w <> workerDown /\
  ~ (to = workerReachableOk /\ w_retired w = true).
Proof. destruct to; run_conn w; naive_solver. Qed.

Lemma setReachable_moved now w to reason :
  (setReachable now w to reason).2 = true -> w_reachable (setReachable now w to reason).1 = to.
Proof. destruct to; run_conn w. Qed.

Lemma setReachable_stayed now w to reason :
  (setReachable now w to reason).2 = false ->
  w_reachable (setReachable now w to reason).1 = w_reachable w /\
  w_since (setReachable now w to reason).1 = w_since w /\
  w_retired (setReachable now w to reason).1 = w_retired w /\
  w_unreachCh (setReachable now w to reason).1 = w_unreachCh w.
Proof. destruct to; run_conn w. Qed.

(** An asserted down survives every observation. *)
Lemma setReachable_down now w to reason :
  w_reachable w = workerDown -> w_reachable (setReachable now w to reason).1 = workerDown.
Proof. destruct to; run_conn w. Qed.

Lemma eject_down now w reason :
  w_reachable w = workerDown -> w_reachable (eject now w reason) = workerDown.
Proof. run_conn w; by destruct fr, df. Qed.

(** Ejecting never leaves a worker in placement, and records the failure. *)
Lemma eject_out now w reason :
  w_reachable (eject now w reason) <> workerReachableOk /\
  w_daemonFailed (eject now w reason) = true /\
  connUnreachable (eject now w reason) = true.
Proof. run_conn w; by destruct fr, df. Qed.

Lemma markWorkerDown_down now w : w_reachable (markWorkerDown now w) = workerDown.
Proof. run_conn w. Qed.

Lemma setReachable_ok_conn_ok now w reason :
  conn_ok w -> conn_ok (setReachable now w workerReachableOk reason).1.
Proof. intros [A B C D]. run_conn w; split; naive_solver. Qed.

Lemma markWorkerDown_conn_ok now w : conn_ok w -> conn_ok (markWorkerDown now w).
Proof. intros [A B C D]. run_conn w; split; naive_solver. Qed.

Lemma eject_conn_ok now w reason : conn_ok w -> conn_ok (eject now w reason).
Proof. intros [A B C D]. run_conn w; destruct fr, df; split; naive_solver. Qed.

(** An ejection is counted when it takes the worker out of placement, and once
    more for a recovery that never got there; never for a box that has simply
    not come up yet, nor twice for the same failure. *)
Lemma eject_counts now w reason :
  w_ejections (eject now w reason) =
  if bool_decide (w_reachable w = workerReachableOk) ||
     (negb (w_daemonFailed w) && w_fromRecovery w)
  then wrap32 (w_ejections w + 1) else w_ejections w.
Proof. run_conn w; by destruct fr, df. Qed.

Lemma setLoad_conn_ok w l : conn_ok w -> conn_ok (setLoad w l).
Proof. apply conn_ok_frame; done. Qed.

#[export] Hint Resolve newWorkerConn_ok setReachable_ok_conn_ok markWorkerDown_conn_ok
  eject_conn_ok setLoad_conn_ok : cork.

(** A conn that has left placement answers "unreachable" for good: the stop
    path never waits on a daemon it was ejected for, and a recovery has to
    build a new conn. *)
Lemma retired_unreachable w : conn_ok w -> w_retired w = true -> connUnreachable w = true.
Proof.
  intros [A B C D] Hr. unfold connUnreachable.
  destruct (w_reachable w) eqn:E; naive_solver.
Qed.

(** ** Stalls *)

(** Times at least [gap] apart, oldest first. *)
Fixpoint spaced (gap : Z) (l : list Z) : Prop :=
  match l with
  | [] => True
  | a :: l => match l with [] => True | b :: _ => gap <= b - a end /\ spaced gap l
  end.

Lemma spaced_snoc gap l x :
  spaced gap l -> (forall y, last l = Some y -> gap <= x - y) -> spaced gap (l ++ [x]).
Proof.
  induction l as [|a [|b l] IH]; simpl; [done|naive_solver|].
  intros [? ?] Hlast. split; [done|]. apply IH; [done|]. apply Hlast.
Qed.

Lemma spaced_le gap a l x :
  0 <= gap -> spaced gap (a :: l) -> x ∈ l -> a <= x - gap.
Proof.
  intros Hg. revert a. induction l as [|b l IH]; simpl; [set_solver|].
  intros a [? ?] [->|Hx]%elem_of_cons; [lia|]. assert (b <= x - gap) by (apply IH; simpl; auto). lia.
Qed.

Lemma spaced_filter gap (P : Z -> Prop) `{!forall x, Decision (P x)} l :
  0 <= gap -> spaced gap l -> spaced gap (filter P l).
Proof.
  intros Hg. induction l as [|a l IH]; [done|]. intros Hs.
  assert (spaced gap l) as Hl by (by destruct Hs).
  rewrite filter_cons. case_decide; [|auto].
  destruct (filter P l) as [|b fl] eqn:E; [done|].
  split; [|by apply IH].
  assert (b ∈ filter P l) as [_ Hb]%list_elem_of_filter by (rewrite E; set_solver).
  pose proof (spaced_le gap a l b Hg Hs Hb). lia.
Qed.

Lemma spaced_first_last gap a l :
  0 <= gap -> spaced gap (a :: l) ->
  forall z, last (a :: l) = Some z -> Z.of_nat (length l) * gap <= z - a.
Proof.
  intros Hg. revert a. induction l as [|b l IH]; intros a Hs z Hz.
  - simpl in *. naive_solver lia.
  - destruct Hs as [Hab Hs]. specialize (IH b Hs z).
    rewrite last_cons_cons in Hz. specialize (IH Hz).
    rewrite length_cons. lia.
Qed.

(** The stalls a conn remembers: fewer than the limit, at least a control
    timeout apart, none of them in the future. *)
Record stalls_ok (callTimeout limit now : Z) (w : workerConn) : Prop := {
  so_len : Z.of_nat (length (w_timeouts w)) < limit;
  so_spaced : spaced callTimeout (w_timeouts w);
  so_past : Forall (fun at_ => at_ <= now) (w_timeouts w) }.

Section stalls.
Context (callTimeout window limit : Z).
Context (Hcall : 0 <= callTimeout) (Hlimit : 1 <= limit).

Let note now w := noteTimeout now callTimeout window limit w.

Lemma noteTimeout_cases now w :
  let recent := filter (fun at_ => now - at_ < window) (w_timeouts w) in
  (note now w = (w <| w_timeouts := recent |>, (Z.of_nat (length recent), false)) /\
   exists at_, last recent = Some at_ /\ now - at_ < callTimeout) \/
  ((forall at_, last recent = Some at_ -> callTimeout <= now - at_) /\
   ((Z.of_nat (length recent) + 1 < limit /\
     note now w = (w <| w_timeouts := recent ++ [now] |>, (Z.of_nat (length recent) + 1, false))) \/
    (limit <= Z.of_nat (length recent) + 1 /\
     note now w = (w <| w_timeouts := [] |>, (Z.of_nat (length recent) + 1, true))))).
Proof.
  intros recent. subst note. unfold noteTimeout. fold recent. simpl.
  destruct (last recent) as [at_|]; repeat case_decide; naive_solver lia.
Qed.

Lemma stalls_ok_filter now now' w :
  now <= now' -> stalls_ok callTimeout limit now w ->
  let recent := filter (fun at_ => now' - at_ < window) (w_timeouts w) in
  Z.of_nat (length recent) < limit /\ spaced callTimeout recent /\
  Forall (fun at_ => at_ <= now' /\ now' - at_ < window) recent.
Proof.
  intros Hn [Hl Hs Hp]. simpl. split_and!.
  - pose proof (length_filter (fun at_ => now' - at_ < window) (w_timeouts w)). lia.
  - by apply spaced_filter.
  - apply Forall_forall. intros x [Hx Hin]%list_elem_of_filter.
    rewrite Forall_forall in Hp. specialize (Hp x Hin). lia.
Qed.

(** [noteTimeout] keeps the remembered stalls well-formed, and ejects
    exactly when this call is the [limit]-th of that many separate stalls: all
    within the window of now and pairwise at least a control timeout apart. *)
Theorem noteTimeout_stalls now now' w :
  now <= now' -> stalls_ok callTimeout limit now w -> 0 < window ->
  let '(w', (n, ejected)) := noteTimeout now' callTimeout window limit w in
  stalls_ok callTimeout limit now' w' /\
  (ejected = true ->
   n = limit /\ exists stalls, Z.of_nat (length stalls) = limit /\
     spaced callTimeout stalls /\ Forall (fun at_ => at_ <= now' /\ now' - at_ < window) stalls) /\
  (ejected = false -> n = Z.of_nat (length (w_timeouts w')) /\ n < limit).
Proof.
  intros Hn Hok Hwin.
  destruct (stalls_ok_filter now now' w Hn Hok) as (Hl & Hs & Hp).
  destruct (noteTimeout_cases now' w) as [[E _]|[Hgap [[Hlt E]|[Hge E]]]];
    subst note; simpl in E; rewrite E; simpl; split_and!; try done.
  - split; simpl; [done..|]. eapply Forall_impl; [exact Hp|]. naive_solver.
  - split; simpl; [rewrite length_app; simpl; lia|by apply spaced_snoc|].
    apply Forall_app. split; [|by constructor].
    eapply Forall_impl; [exact Hp|]. naive_solver.
  - intros _. rewrite length_app. simpl. lia.
  - split; simpl; [lia|done|constructor].
  - intros _. split; [lia|].
    exists (filter (fun at_ => now' - at_ < window) (w_timeouts w) ++ [now']).
    split_and!; [rewrite length_app; simpl; lia|by apply spaced_snoc|].
    apply Forall_app. split; [done|]. constructor; [lia|constructor].
Qed.

(** The warning [workerTimingFromEnv] logs is right: when the window cannot
    hold [limit] stalls a control timeout apart, a daemon that answers pings is
    never ejected for timing calls out, whatever calls time out. *)
Theorem noteTimeout_unreachable_limit now now' w :
  1 < limit -> window <= (limit - 1) * callTimeout ->
  now <= now' -> stalls_ok callTimeout limit now w ->
  (noteTimeout now' callTimeout window limit w).2.2 = false.
Proof.
  intros Hl1 Hw Hn Hok.
  destruct (stalls_ok_filter now now' w Hn Hok) as (Hl & Hs & Hp).
  destruct (noteTimeout_cases now' w) as [[E _]|[Hgap [[_ E]|[Hge E]]]];
    subst note; simpl in E; rewrite E; simpl; [done..|exfalso].
  set (recent := filter _ (w_timeouts w)) in *.
  destruct recent as [|a l]; [simpl in *; lia|].
  destruct (last (a :: l)) as [z|] eqn:Hz; [|by apply last_None in Hz].
  pose proof (spaced_first_last callTimeout a l Hcall Hs z Hz).
  specialize (Hgap z eq_refl). inversion Hp as [|? ? [? ?]]; subst.
  rewrite length_cons in *. nia.
Qed.

End stalls.

(** A second stall in a minute, the limit being three: kept, not ejected. *)
Definition stalled_conn : workerConn :=
  mkConn "10.0.0.7" "" 1 false workerReachableOk workerLoadOk 0 None 0 chan_open false true false
    false [40 * Second] (newDaemonQueue 2) chan_open false false.

Lemma stalled_conn_ok : stalls_ok (30 * Second) 3 (60 * Second) stalled_conn.
Proof.
  split; simpl; [lia|done|]. repeat constructor; unfold Second; lia.
Qed.

Lemma noteTimeout_stalls_witness :
  (noteTimeout (80 * Second) (30 * Second) (2 * Minute) 3 stalled_conn).2 = (2, false) /\
  stalls_ok (30 * Second) 3 (80 * Second)
    (noteTimeout (80 * Second) (30 * Second) (2 * Minute) 3 stalled_conn).1.
Proof.
  split; [reflexivity|].
  refine (proj1 (noteTimeout_stalls (30 * Second) (2 * Minute) 3 _ _ (60 * Second) (80 * Second)
    stalled_conn _ stalled_conn_ok _)); vm_compute; congruence.
Defined.

Lemma noteTimeout_unreachable_limit_witness :
  (noteTimeout (80 * Second) (30 * Second) Minute 3 stalled_conn).2.2 = false.
Proof.
  apply (noteTimeout_unreachable_limit (30 * Second) Minute 3) with (now := 60 * Second);
    try (vm_compute; congruence). exact stalled_conn_ok.
Defined.

(** ** Recovery *)

(** The wait before a recovery is the base one times the ejections, capped;
    as long as the product fits, it is positive and never above the cap. *)
Lemma recoverBackoffFor_spec t w :
  0 < recoverBackoff t -> 0 < recoverBackoffMax t ->
  Z.max 1 (w_ejections w) * recoverBackoff t < two63 ->
  recoverBackoffFor t w =
    Z.min (Z.max 1 (w_ejections w) * recoverBackoff t) (recoverBackoffMax t) /\
  0 < recoverBackoffFor t w <= recoverBackoffMax t.
Proof.
  intros Hb Hm Hp. unfold recoverBackoffFor, mul64.
  assert ((if decide (w_ejections w < 1) then 1 else w_ejections w) = Z.max 1 (w_ejections w))
    as -> by (case_decide; lia).
  rewrite wrap64_id by (unfold in64, two63 in *; nia). nia.
Qed.

(** A worker is recovered only after it has answered [healthyThreshold]
    probes in a row and waited out the backoff its ejections bought, and the
    wait grows with every further ejection up to the cap. *)
Theorem readyToRecover_backoff t now w w' good :
  0 < recoverBackoff t -> 0 < recoverBackoffMax t ->
  Z.max 1 (w_ejections w') * recoverBackoff t < two63 ->
  0 <= w_ejections w <= w_ejections w' ->
  recoverBackoffFor t w <= recoverBackoffFor t w' /\
  (readyToRecover t now w' good = true <->
   healthyThreshold t <= good /\
   Z.min (Z.max 1 (w_ejections w') * recoverBackoff t) (recoverBackoffMax t) <= now - w_since w').
Proof.
  intros Hb Hm Hp Hle.
  destruct (recoverBackoffFor_spec t w' Hb Hm Hp) as [E' _].
  destruct (recoverBackoffFor_spec t w Hb Hm) as [E _]; [nia|].
  split; [rewrite E, E'; nia|].
  unfold readyToRecover. rewrite E'. case_decide; [split; [done|lia]|].
  rewrite bool_decide_eq_true. lia.
Qed.

Lemma readyToRecover_backoff_witness :
  let w := eject 5 stalled_conn "ping refused" in
  readyToRecover defaultWorkerTiming (5 + 10 * Second) w 2 = true /\
  readyToRecover defaultWorkerTiming (4 + 10 * Second) w 2 = false.
Proof.
  split; [|reflexivity].
  apply (readyToRecover_backoff defaultWorkerTiming (5 + 10 * Second)
    stalled_conn (eject 5 stalled_conn "ping refused") 2); vm_compute; split; congruence.
Defined.
