(* ===== verification/WorkerConc.v ===== *)
(** * WorkerConc: [setReachable] under interference

    The compare-and-swap loop of [setReachable] ([cork/workers.go]) taken
    apart into the atomic operations it makes, run by any number of goroutines
    on one conn: its own reconcile admitting it, probes and failed control
    calls ejecting it, an operator taking it down.  The results are that an
    asserted down is never lifted and that the broadcast channel is closed at
    most once, which the code relies on (a second close panics). *)
From S2P Require Import Prelude Worker.
Local Open Scope Z_scope.

(** The shared cells of the conn. *)
Record cells := mkCells {
  c_reachable : workerReachable;
  c_since : Z;
  c_reason : option string;
  c_retired : bool;
  c_ch : bchan }.
#[export] Instance eta_cells : Eta cells := fun c =>
  mkCells (c_reachable c) (c_since c) (c_reason c) (c_retired c) (c_ch c).

(** Where a call of [setReachable] is; [prev] is what it loaded. *)
Inductive sr_pc :=
| sr_load
| sr_same                              (* prev == to: refresh the reason *)
| sr_retired (prev : workerReachable)  (* to is ok: test retired *)
| sr_cas (prev : workerReachable)
| sr_since (prev : workerReachable)
| sr_reason (prev : workerReachable)
| sr_retire
| sr_close
| sr_done (moved : bool).

(** One call: its arguments and where it is. *)
Record call := mkCall {
  k_to : workerReachable; k_reason : string; k_now : Z; k_pc : sr_pc }.
#[export] Instance eta_call : Eta call := fun k =>
  mkCall (k_to k) (k_reason k) (k_now k) (k_pc k).

(** One atomic operation of a call; [None] once it has returned. *)
Definition sr_next (k : call) (c : cells) : option (call * cells) :=
  let to := k_to k in
  match k_pc k with
  | sr_load =>
    let prev := c_reachable c in
    if decide (prev = to) then Some (k <| k_pc := sr_same |>, c)
    else if decide (prev = workerDown /\ to <> workerDown) then Some (k <| k_pc := sr_done false |>, c)
    else if decide (to = workerReachableOk) then Some (k <| k_pc := sr_retired prev |>, c)
    else Some (k <| k_pc := sr_cas prev |>, c)
  | sr_same =>
    Some (k <| k_pc := sr_done false |>,
          if decide (k_reason k = ""%string) then c else c <| c_reason := Some (k_reason k) |>)
  | sr_retired prev =>
    if c_retired c then Some (k <| k_pc := sr_done false |>, c)
    else Some (k <| k_pc := sr_cas prev |>, c)
  | sr_cas prev =>
    if decide (c_reachable c = prev)
    then Some (k <| k_pc := sr_since prev |>, c <| c_reachable := to |>)
    else Some (k <| k_pc := sr_load |>, c)
  | sr_since prev => Some (k <| k_pc := sr_reason prev |>, c <| c_since := k_now k |>)
  | sr_reason prev =>
    Some (k <| k_pc := if decide (prev = workerReachableOk) then sr_retire else sr_done true |>,
          c <| c_reason := if decide (k_reason k = ""%string) then None else Some (k_reason k) |>)
  | sr_retire => Some (k <| k_pc := sr_close |>, c <| c_retired := true |>)
  | sr_close => Some (k <| k_pc := sr_done true |>, c <| c_ch ::= close_chan |>)
  | sr_done _ => None
  end.

(** A call that asks for ok, and one that may still get there. *)
Definition asks_ok (k : call) : bool := bool_decide (k_to k = workerReachableOk).
Definition may_admit (k : call) : bool :=
  asks_ok k && match k_pc k with sr_load | sr_retired _ | sr_cas _ => true | _ => false end.

(** A call that has taken the conn out of placement and has not closed the
    channel yet. *)
Definition leaving (k : call) : bool :=
  match k_pc k with
  | sr_since prev | sr_reason prev => bool_decide (prev = workerReachableOk)
  | sr_retire | sr_close => true
  | _ => false
  end.

Record sys := mkSys { s_cells : cells; s_calls : gmap nat call }.

(** Steps of the system: a new call, or one operation of a running one.  Only
    the conn's own goroutine admits it, once ([runWorker]), so a call for ok
    is made only when none has been made before. *)
Inductive sys_step (s : sys) : sys -> Prop :=
| sys_call g to reason now :
    s_calls s !! g = None ->
    (to = workerReachableOk -> count_if asks_ok (s_calls s) = 0%nat) ->
    sys_step s (mkSys (s_cells s) (<[g := mkCall to reason now sr_load]> (s_calls s)))
| sys_run g k k' c' :
    s_calls s !! g = Some k -> sr_next k (s_cells s) = Some (k', c') ->
    sys_step s (mkSys c' (<[g := k']> (s_calls s))).

(** A conn as [newWorkerConn] leaves it, nothing running. *)
Definition sys_init : sys :=
  mkSys (mkCells workerUnresponsive 0 None false chan_open) ∅.

(** What holds of a call at each point: a compare-and-swap is never attempted
    from down, nor towards the value it loaded. *)
Definition call_ok (k : call) : Prop :=
  match k_pc k with
  | sr_retired prev => k_to k = workerReachableOk /\ prev <> workerDown /\ prev <> k_to k
  | sr_cas prev => prev <> workerDown /\ prev <> k_to k
  | sr_since prev | sr_reason prev => prev <> workerDown /\ prev <> k_to k
  | sr_retire | sr_close => k_to k <> workerReachableOk
  | _ => True
  end.

Lemma sr_next_call_ok k c k' c' :
  sr_next k c = Some (k', c') -> call_ok k -> call_ok k' /\ k_to k' = k_to k.
Proof.
  destruct k as [to reason now pc], c as [r since why ret ch].
  unfold sr_next, call_ok; simpl. intros H Hk.
  destruct pc as [| |prev|prev|prev|prev| | |]; cases_in H; simplify_eq; try done;
    split; try done; simpl; try tauto; repeat case_decide; simplify_eq; naive_solver.
Qed.

(** The reachable state only ever changes by a successful compare-and-swap. *)
Lemma sr_next_reachable k c k' c' :
  sr_next k c = Some (k', c') ->
  c_reachable c' = c_reachable c \/
  (k_pc k = sr_cas (c_reachable c) /\ c_reachable c' = k_to k).
Proof.
  destruct k as [to reason now pc], c as [r since why ret ch]. unfold sr_next; simpl.
  intros H. destruct pc; cases_in H; simplify_eq; auto; repeat case_decide; auto.
Qed.

Definition calls_ok (s : sys) : Prop := forall g k, s_calls s !! g = Some k -> call_ok k.

Lemma calls_ok_step s s' : calls_ok s -> sys_step s s' -> calls_ok s'.
Proof.
  intros Hok Hstep g0 k0. inversion Hstep as [g to reason now|g k k' c' Hg Hn]; subst; simpl;
    rewrite lookup_insert; case_decide; subst; intros; simplify_eq/=; try done; eauto.
  eapply sr_next_call_ok; eauto.
Qed.

(** Under any interleaving of probes, failed control calls, reconciles and
    operators on a conn, an asserted down is never lifted: once the reachable
    state is down, it is down in every later state. *)
Theorem down_never_lifted s s' :
  rtc sys_step s s' -> calls_ok s ->
  c_reachable (s_cells s) = workerDown -> c_reachable (s_cells s') = workerDown.
Proof.
  induction 1 as [|s1 s2 s3 Hstep _ IH]; [done|]. intros Hok Hd.
  apply IH; [by eapply calls_ok_step|].
  inversion Hstep as [|g k k' c' Hg Hn]; subst; simpl; [done|].
  apply sr_next_reachable in Hn as [->|[Hpc _]]; [done|].
  specialize (Hok g k Hg). unfold call_ok in Hok. rewrite Hpc, Hd in Hok. naive_solver.
Qed.

(** The life of the broadcast: not yet admitted (or never), in placement, one
    call leaving, left. *)
Inductive phase (s : sys) : Prop :=
| ph_out :
    c_reachable (s_cells s) <> workerReachableOk -> count_if leaving (s_calls s) = 0%nat ->
    c_ch (s_cells s) = chan_open -> c_retired (s_cells s) = false -> phase s
| ph_in :
    c_reachable (s_cells s) = workerReachableOk -> count_if leaving (s_calls s) = 0%nat ->
    c_ch (s_cells s) = chan_open -> c_retired (s_cells s) = false ->
    count_if may_admit (s_calls s) = 0%nat -> phase s
| ph_leaving :
    c_reachable (s_cells s) <> workerReachableOk -> count_if leaving (s_calls s) = 1%nat ->
    c_ch (s_cells s) = chan_open -> count_if may_admit (s_calls s) = 0%nat -> phase s
| ph_left :
    c_reachable (s_cells s) <> workerReachableOk -> count_if leaving (s_calls s) = 0%nat ->
    c_ch (s_cells s) = chan_closed -> c_retired (s_cells s) = true ->
    count_if may_admit (s_calls s) = 0%nat -> phase s.

Record sys_inv (s : sys) : Prop := {
  sv_calls : calls_ok s;
  sv_one : (count_if asks_ok (s_calls s) <= 1)%nat;
  sv_phase : phase s;
  sv_close : forall g k, s_calls s !! g = Some k -> k_pc k = sr_close -> c_retired (s_cells s) = true;
  sv_fresh : count_if asks_ok (s_calls s) = 0%nat ->
    c_reachable (s_cells s) <> workerReachableOk /\ count_if leaving (s_calls s) = 0%nat /\
    c_ch (s_cells s) = chan_open }.

Lemma sys_inv_init : sys_inv sys_init.
Proof.
  split; simpl; rewrite ?count_if_empty; [|lia| | |done].
  - intros g k Hk. simpl in Hk. by rewrite lookup_empty in Hk.
  - apply ph_out; simpl; rewrite ?count_if_empty; done.
  - intros g k Hk. by rewrite lookup_empty in Hk.
Qed.

(** A call that is about to swap towards ok, or that is leaving, is one of
    those the counts see. *)
Lemma count_facts (s : sys) g k k' :
  s_calls s !! g = Some k -> k_to k' = k_to k ->
  let m := s_calls s in let m' := <[g := k']> m in
  count_if asks_ok m' = count_if asks_ok m /\
  (count_if may_admit m' + (if may_admit k then 1 else 0) =
   count_if may_admit m + (if may_admit k' then 1 else 0))%nat /\
  (count_if leaving m' + (if leaving k then 1 else 0) =
   count_if leaving m + (if leaving k' then 1 else 0))%nat /\
  (asks_ok k = true -> (0 < count_if asks_ok m)%nat) /\
  (may_admit k = true -> (0 < count_if may_admit m)%nat) /\
  (leaving k = true -> (0 < count_if leaving m)%nat).
Proof.
  intros Hg Hto m m'.
  pose proof (count_if_insert asks_ok m g k k' Hg) as H1.
  pose proof (count_if_insert may_admit m g k k' Hg) as H2.
  pose proof (count_if_insert leaving m g k k' Hg) as H3.
  assert (asks_ok k' = asks_ok k) as E by (unfold asks_ok; by rewrite Hto).
  rewrite E in H1. subst m m'.
  split_and!; [destruct (asks_ok k); lia|done|done|..]; intros; by eapply count_if_pos.
Qed.

(** The operations that matter to the broadcast, one lemma per operation: a
    step that changes none of the three counts or cells keeps the phase. *)
Lemma phase_same s g k k' c' :
  s_calls s !! g = Some k -> k_to k' = k_to k ->
  (may_admit k' = true -> may_admit k = true) -> leaving k' = leaving k ->
  c_reachable c' = c_reachable (s_cells s) -> c_ch c' = c_ch (s_cells s) ->
  c_retired c' = c_retired (s_cells s) ->
  phase s -> phase (mkSys c' (<[g := k']> (s_calls s))).
Proof.
  intros Hg Hto Ha Hl Hr Hc Hre Hp.
  destruct (count_facts s g k k' Hg Hto) as (_ & H2 & H3 & _ & H5 & _).
  rewrite Hl in H3.
  assert (count_if may_admit (<[g:=k']> (s_calls s)) <= count_if may_admit (s_calls s))%nat
    by (destruct (may_admit k'), (may_admit k); naive_solver lia).
  destruct Hp; [apply ph_out|apply ph_in|apply ph_leaving|apply ph_left]; simpl;
    rewrite ?Hr, ?Hc, ?Hre; done || lia.
Qed.

(** Closes the step of an operation the broadcast does not see. *)
Ltac unseen Hg Hp :=
  eapply phase_same;
    [exact Hg|done|unfold may_admit, asks_ok; simpl; rewrite ?andb_false_r; done
    |done|repeat case_decide; done..|exact Hp].

(** Past the swap a call admits nobody any more. *)
Lemma not_admitting to reason now pc :
  match pc with sr_load | sr_retired _ | sr_cas _ => False | _ => True end ->
  may_admit (mkCall to reason now pc) = false.
Proof. unfold may_admit; simpl. destruct pc; rewrite ?andb_false_r; done. Qed.

Lemma phase_run s g k k' c' :
  s_calls s !! g = Some k -> call_ok k -> sr_next k (s_cells s) = Some (k', c') ->
  (count_if may_admit (s_calls s) <= 1)%nat -> (k_pc k = sr_close -> c_retired (s_cells s) = true) ->
  phase s -> phase (mkSys c' (<[g := k']> (s_calls s))).
Proof.
  intros Hg Hk Hn Hm Hcl Hp.
  destruct (sr_next_call_ok _ _ _ _ Hn Hk) as [Hk' Hto].
  destruct (count_facts s g k k' Hg Hto) as (C1 & C2 & C3 & C4 & C5 & C6).
  clear Hto Hk'. destruct k as [to reason now pc].
  unfold sr_next in Hn. unfold call_ok in Hk. simpl in Hn, Hk, Hcl.
  destruct pc as [| |prev|prev|prev|prev| | |m]; simpl in Hn, Hk; [| | | | | | | |done].
  - repeat case_decide; simplify_eq; unseen Hg Hp.
  - simplify_eq. unseen Hg Hp.
  - destruct (c_retired (s_cells s)) eqn:Er; simplify_eq; unseen Hg Hp.
  - (* the swap *)
    destruct (decide (c_reachable (s_cells s) = prev)) as [E|E]; simplify_eq.
    2:{ unseen Hg Hp. }
    destruct (decide (to = workerReachableOk)) as [->|Hne].
    + (* admitted *)
      change (may_admit (mkCall workerReachableOk reason now (sr_cas (c_reachable (s_cells s)))))
        with true in *.
      change (may_admit (mkCall workerReachableOk reason now (sr_since (c_reachable (s_cells s)))))
        with false in *.
      specialize (C5 eq_refl). simpl in C2.
      destruct Hp as [Hr Hl Hc Hre|Hr Hl Hc Hre Ha|Hr Hl Hc Ha|Hr Hl Hc Hre Ha]; try lia.
      apply ph_in; simpl; try done; [|lia].
      change (leaving (mkCall workerReachableOk reason now (sr_cas (c_reachable (s_cells s)))))
        with false in C3.
      unfold leaving at 3 in C3. simpl in C3. rewrite bool_decide_eq_false_2 in C3 by done. lia.
    + (* taken out *)
      assert (may_admit (mkCall to reason now (sr_cas (c_reachable (s_cells s)))) = false /\
              may_admit (mkCall to reason now (sr_since (c_reachable (s_cells s)))) = false) as [A1 A2]
        by (unfold may_admit, asks_ok; simpl; by rewrite bool_decide_eq_false_2).
      rewrite A1, A2 in C2. unfold leaving at 2 4 in C3. simpl in C3.
      destruct Hp as [Hr Hl Hc Hre|Hr Hl Hc Hre Ha|Hr Hl Hc Ha|Hr Hl Hc Hre Ha].
      * rewrite bool_decide_eq_false_2 in C3 by done.
        apply ph_out; simpl; try done. lia.
      * rewrite bool_decide_eq_true_2 in C3 by done.
        apply ph_leaving; simpl; try done; lia.
      * rewrite bool_decide_eq_false_2 in C3 by done. apply ph_leaving; simpl; try done; lia.
      * rewrite bool_decide_eq_false_2 in C3 by done. apply ph_left; simpl; try done; lia.
  - simplify_eq. unseen Hg Hp.
  - simplify_eq. case_decide; eapply phase_same; try exact Hg; try exact Hp; try done;
      unfold may_admit, leaving; simpl; by case_bool_decide.
  - (* retired is set *)
    simplify_eq. simpl in *.
    rewrite (not_admitting to reason now sr_retire), (not_admitting to reason now sr_close) in C2 by done.
    specialize (C6 eq_refl).
    destruct Hp as [|?|Hr Hl Hc Ha|]; simpl in *; try lia.
    apply ph_leaving; simpl; done || lia.
  - (* the channel is closed *)
    simplify_eq. simpl in *.
    rewrite (not_admitting to reason now sr_close), (not_admitting to reason now (sr_done true)) in C2 by done.
    specialize (C6 eq_refl).
    destruct Hp as [|?|Hr Hl Hc Ha|]; simpl in *; try lia.
    apply ph_left; simpl; [done|lia|by rewrite Hc|by apply Hcl|lia].
Qed.


(** What one operation does to the cells and to its own call. *)
Lemma sr_next_effects k c k' c' :
  sr_next k c = Some (k', c') ->
  (k_pc k <> sr_close -> c_ch c' = c_ch c) /\
  (c_retired c = true -> c_retired c' = true) /\
  (k_pc k' = sr_close -> c_retired c' = true) /\
  (leaving k' = true -> leaving k = true \/ c_reachable c = workerReachableOk).
Proof.
  destruct k as [to reason now pc], c as [r since why ret ch]. unfold sr_next, leaving; simpl.
  intros H. destruct pc; cases_in H; simplify_eq/=; repeat case_decide; simplify_eq/=;
    split_and!; try done; try (by left); rewrite ?bool_decide_eq_true; auto.
Qed.

Lemma sys_inv_call s g to reason now :
  sys_inv s -> s_calls s !! g = None ->
  (to = workerReachableOk -> count_if asks_ok (s_calls s) = 0%nat) ->
  sys_inv (mkSys (s_cells s) (<[g := mkCall to reason now sr_load]> (s_calls s))).
Proof.
  intros [Hc Ho Hp Hcl Hf] Hg Hto.
  pose proof (count_if_insert_None asks_ok _ _ (mkCall to reason now sr_load) Hg) as Ca.
  pose proof (count_if_insert_None may_admit _ _ (mkCall to reason now sr_load) Hg) as Cm.
  pose proof (count_if_insert_None leaving _ _ (mkCall to reason now sr_load) Hg) as Cl.
  change (asks_ok (mkCall to reason now sr_load)) with (bool_decide (to = workerReachableOk)) in Ca.
  change (may_admit (mkCall to reason now sr_load))
    with (bool_decide (to = workerReachableOk) && true) in Cm.
  rewrite andb_true_r in Cm. change (leaving (mkCall to reason now sr_load)) with false in Cl.
  simpl in Cl.
  split; simpl.
  - intros g0 k0. simpl. rewrite lookup_insert. destruct (decide (g = g0)); [intros [= <-]; exact I|apply Hc].
  - destruct (decide (to = workerReachableOk)) as [->|Hne].
    + specialize (Hto eq_refl). rewrite bool_decide_eq_true_2 in Ca by done. lia.
    + rewrite bool_decide_eq_false_2 in Ca by done. lia.
  - destruct (decide (to = workerReachableOk)) as [->|Hne].
    + destruct (Hf (Hto eq_refl)) as (? & ? & ?).
      apply ph_out; simpl; try done; [lia|]. destruct Hp; simpl in *; congruence.
    + rewrite bool_decide_eq_false_2 in Cm by done.
      destruct Hp; [apply ph_out|apply ph_in|apply ph_leaving|apply ph_left]; simpl; done || lia.
  - intros g0 k0. rewrite lookup_insert. destruct (decide (g = g0)); [intros [= <-] ?; done|apply Hcl].
  - intros H0. assert (count_if asks_ok (s_calls s) = 0%nat) as H1.
    { case_bool_decide; lia. }
    destruct (Hf H1) as (?&?&?). split_and!; [done|lia|done].
Qed.

Lemma sys_inv_step s s' : sys_inv s -> sys_step s s' -> sys_inv s'.
Proof.
  intros Hinv Hstep. pose proof Hinv as [Hc Ho Hp Hcl Hf].
  inversion Hstep as [g to reason now Hg Hto|g k k' c' Hg Hn]; subst.
  { by apply sys_inv_call. }
  pose proof (sr_next_call_ok _ _ _ _ Hn (Hc g k Hg)) as [Hk' Hkt].
  pose proof (sr_next_effects _ _ _ _ Hn) as (E1 & E2 & E3 & E4).
  destruct (count_facts s g k k' Hg Hkt) as (C1 & C2 & C3 & C4 & C5 & C6).
  assert (count_if may_admit (s_calls s) <= count_if asks_ok (s_calls s))%nat.
  { apply count_if_le. unfold may_admit. intros a. by destruct (asks_ok a). }
  split; simpl.
  - by eapply calls_ok_step.
  - lia.
  - eapply phase_run; eauto. lia.
  - intros g0 k0. rewrite lookup_insert. case_decide; intros; simplify_eq; [auto|].
    eapply E2, Hcl; eauto.
  - rewrite C1. intros H0. destruct (Hf H0) as (Hr & Hl & Hch).
    assert (asks_ok k = false) as Hka by (destruct (asks_ok k); [specialize (C4 eq_refl); lia|done]).
    assert (leaving k = false) as Hkl by (destruct (leaving k); [specialize (C6 eq_refl); lia|done]).
    split_and!.
    + destruct (sr_next_reachable _ _ _ _ Hn) as [->|[_ ->]]; [done|].
      unfold asks_ok in Hka. by apply bool_decide_eq_false in Hka.
    + rewrite Hkl in C3. destruct (leaving k') eqn:El; [|lia].
      destruct (E4 eq_refl); congruence.
    + rewrite E1; [done|]. intros Hpc. unfold leaving in Hkl. by rewrite Hpc in Hkl.
Qed.


(** ** The loop without interference is [Worker.setReachable] *)
Fixpoint sr_solo (fuel : nat) (k : call) (c : cells) : call * cells :=
  match fuel with
  | O => (k, c)
  | S fuel => match sr_next k c with
              | Some (k', c') => sr_solo fuel k' c'
              | None => (k, c)
              end
  end.

Definition cells_of (w : workerConn) : cells :=
  mkCells (w_reachable w) (w_since w) (w_reason w) (w_retired w) (w_unreachCh w).

(** Run alone, the loop returns within eight operations, with the verdict and
    the cells of the whole-function model the rest of the library uses. *)
Lemma setReachable_refined now w to reason :
  let '(w', moved) := setReachable now w to reason in
  sr_solo 8 (mkCall to reason now sr_load) (cells_of w) =
  (mkCall to reason now (sr_done moved), cells_of w').
Proof.
  destruct w as [? ? ? ? r ? ? why ? ch ret ? ? ? ? ? ? ? ?].
  unfold setReachable, cells_of; simpl.
  destruct r, to, ret, (decide (reason = ""%string)) as [E|E]; simpl;
    repeat (first [rewrite (decide_True _ _ E)|rewrite (decide_False _ _ E)]; simpl); done.
Qed.

(** A conn taken down while a probe ejects it: the probe's call changes nothing. *)
Definition down_sys : sys :=
  mkSys (mkCells workerDown 7 None false chan_open)
    {[ 0%nat := mkCall workerUnresponsive "ping refused" 9 (sr_cas workerReachableOk) ]}.
Definition down_sys' : sys :=
  mkSys (mkCells workerDown 7 None false chan_open)
    (<[0%nat := mkCall workerUnresponsive "ping refused" 9 sr_load]> (s_calls down_sys)).

Lemma down_never_lifted_witness : c_reachable (s_cells down_sys') = workerDown.
Proof.
  apply (down_never_lifted down_sys); [|intros g k Hk|reflexivity].
  - apply rtc_once. by eapply (sys_run down_sys 0%nat).
  - unfold down_sys in Hk; simpl in Hk. apply lookup_singleton_Some in Hk as [_ <-].
    simpl. split; discriminate.
Defined.

