(* ===== verification/Database.v ===== *)
(** * Database: the SQLite tables and the statements the code runs on them

    The tables of [schemaQuery] ([cork/database.go]), each a finite map from
    its primary key or a list of rows, with the constraints SQLite enforces:
    foreign keys with their [ON DELETE] actions, [UNIQUE], [CHECK], and
    [AUTOINCREMENT] on [instances].  A statement returns the tables after it,
    or [None] when a constraint refuses it; a refusal for another reason (a
    busy database) is the caller's, see [Effects].

    A [SELECT] with no [ORDER BY] has no fixed order; the model enumerates a
    map in the order of its keys where the rowid decides, and otherwise keeps
    the order of insertion. *)
From S2P Require Import Prelude Types.
Local Open Scope Z_scope.

(** ** Rows *)
Record challengeRow := mkChallengeRow {
  ch_name : string; ch_namespace : string; ch_challengetype : string;
  ch_description : string; ch_details : string;
  ch_sourcechecksum : Z; ch_metadatachecksum : Z; ch_path : string;
  ch_solvescript : bool; ch_templatable : bool;
  ch_maxusers : Z; ch_category : string; ch_points : Z }.

(** The tables that hang off a challenge, one list of rows each. *)
Record challengeParts := mkParts {
  cp_hints : list (nat * string);
  cp_tags : list string;
  cp_attributes : list (string * string);
  cp_hosts : list (nat * HostInfo);
  cp_portNames : list (string * PortInfo);
  cp_options : list (string * ContainerOptions) }.
#[export] Instance eta_challengeParts : Eta challengeParts := fun p =>
  mkParts (cp_hints p) (cp_tags p) (cp_attributes p) (cp_hosts p) (cp_portNames p) (cp_options p).
Definition noParts : challengeParts := mkParts [] [] [] [] [] [].

Record buildRow := mkBuildRow {
  b_flag : string; b_format : string; b_seed : Z;
  b_checksum : Z; b_prevchecksum : Z; b_sourcechecksum : Z;
  b_hasartifacts : bool; b_lastsolved : Z;
  b_challenge : ChallengeId; b_schema : string; b_instancecount : Z }.
#[export] Instance eta_buildRow : Eta buildRow := fun r =>
  mkBuildRow (b_flag r) (b_format r) (b_seed r) (b_checksum r) (b_prevchecksum r)
    (b_sourcechecksum r) (b_hasartifacts r) (b_lastsolved r) (b_challenge r) (b_schema r)
    (b_instancecount r).

Record imageRow := mkImageRow { ig_build : BuildId; ig_host : string }.

Record instanceRow := mkInstanceRow {
  i_lastsolved : Z; i_build : BuildId; i_created_at : option Z;
  i_is_finalized : bool; i_worker : string }.
#[export] Instance eta_instanceRow : Eta instanceRow := fun r =>
  mkInstanceRow (i_lastsolved r) (i_build r) (i_created_at r) (i_is_finalized r) (i_worker r).

Record portRow := mkPortRow {
  p_instance : InstanceId; p_name : string; p_port : Z; p_worker : string }.
Record containerRow := mkContainerRow { c_instance : InstanceId; c_id : string }.

Record Db := mkDb {
  t_challenges : gmap string challengeRow;
  t_parts : gmap string challengeParts;
  t_builds : gmap Z buildRow;
  t_images : gmap Z imageRow;
  t_imagePorts : list (ImageId * string);
  t_lookupData : list (BuildId * (string * string));
  t_instances : gmap Z instanceRow;
  t_instanceSeq : Z;                     (* sqlite_sequence for instances *)
  t_portAssignments : list portRow;
  t_containers : list containerRow;
  t_workers : gmap string string;        (* ip -> public *)
  t_preloads : gset string }.
#[export] Instance eta_Db : Eta Db := fun d =>
  mkDb (t_challenges d) (t_parts d) (t_builds d) (t_images d) (t_imagePorts d) (t_lookupData d)
    (t_instances d) (t_instanceSeq d) (t_portAssignments d) (t_containers d) (t_workers d)
    (t_preloads d).

Definition emptyDb : Db := mkDb ∅ ∅ ∅ ∅ [] [] ∅ 0 [] [] ∅ ∅.

(** Rows of a map in the order of their keys, as a rowid scan returns them. *)
Definition rowid_le {A} (x y : Z * A) : Prop := x.1 <= y.1.
#[export] Instance rowid_le_dec {A} : RelDecision (@rowid_le A).
Proof. intros x y. unfold rowid_le. apply _. Defined.
Definition rows {A} (m : gmap Z A) : list (Z * A) := merge_sort rowid_le (map_to_list m).

(** ** instances, portAssignments, containers *)

(** [INSERT INTO instances(build, lastsolved, worker)]: the id is one above
    any handed out before, [created_at] is now, [is_finalized] is 0, and the
    build must exist. *)
Definition insertInstance (now : Z) (build : BuildId) (lastsolved : Z) (worker : string) (d : Db)
    : option (Db * InstanceId) :=
  if decide (is_Some (t_builds d !! build)) then
    let id := t_instanceSeq d + 1 in
    Some (d <| t_instances ::= <[id := mkInstanceRow lastsolved build (Some now) false worker]> |>
            <| t_instanceSeq := id |>, id)
  else None.

(** [DELETE FROM instances WHERE ...]: the rows with the ids for which [gone]
    holds; their ports and containers cascade. *)
Definition deleteInstances (gone : InstanceId -> instanceRow -> bool) (d : Db) : Db :=
  let dead (id : InstanceId) :=
    match t_instances d !! id with Some r => gone id r | None => false end in
  d <| t_instances ::= filter (fun kv => gone kv.1 kv.2 = false) |>
    <| t_portAssignments ::= filter (fun r => dead (p_instance r) = false) |>
    <| t_containers ::= filter (fun r => dead (c_instance r) = false) |>.

Definition deleteInstance (id : InstanceId) (d : Db) : Db :=
  deleteInstances (fun i _ => bool_decide (i = id)) d.

(** What a host port assignment occupies: a port of one daemon. *)
Definition portKey (r : portRow) : string * Z := (p_worker r, p_port r).

(** [CHECK (port > 0 AND port < 65536)]. *)
Definition validPort (p : Z) : bool := bool_decide (0 < p < 65536).

(** [INSERT INTO portAssignments]: the instance must exist. *)
Definition insertPort (r : portRow) (d : Db) : option Db :=
  if decide (is_Some (t_instances d !! p_instance r) /\ validPort (p_port r) = true)
  then Some (d <| t_portAssignments ::= (fun l => l ++ [r]) |>) else None.

(** The claim of [claimPort]: insert unless the port is taken on that worker;
    [Some (d', false)] when nothing was inserted. *)
Definition insertPortUnlessTaken (r : portRow) (d : Db) : option (Db * bool) :=
  if decide (portKey r ∈ portKey <$> t_portAssignments d) then Some (d, false)
  else match insertPort r d with Some d' => Some (d', true) | None => None end.

Definition deletePorts (id : InstanceId) (d : Db) : Db :=
  d <| t_portAssignments ::= filter (fun r => p_instance r <> id) |>.
Definition deleteContainers (id : InstanceId) (d : Db) : Db :=
  d <| t_containers ::= filter (fun r => c_instance r <> id) |>.

(** [INSERT INTO containers]: the container id is the primary key. *)
Definition insertContainer (r : containerRow) (d : Db) : option Db :=
  if decide (is_Some (t_instances d !! c_instance r) /\
             c_id r ∉ c_id <$> t_containers d)
  then Some (d <| t_containers ::= (fun l => l ++ [r]) |>) else None.

Definition setFinalized (id : InstanceId) (d : Db) : Db :=
  d <| t_instances ::= alter (fun r => r <| i_is_finalized := true |>) id |>.

(** Ports in use on one worker, within the range. *)
Definition portsInRange (worker : string) (low high : Z) (d : Db) : list Z :=
  p_port <$> filter (fun r => p_worker r = worker /\ low <= p_port r <= high) (t_portAssignments d).

(** [SELECT id FROM instances WHERE build = ?] and [... WHERE worker = ?]. *)
Definition instancesOfBuild (b : BuildId) (d : Db) : list InstanceId :=
  (filter (fun kv => i_build kv.2 = b) (rows (t_instances d))).*1.
Definition instancesOfWorker (ip : string) (d : Db) : list InstanceId :=
  (filter (fun kv => i_worker kv.2 = ip) (rows (t_instances d))).*1.

(** ** builds *)

Definition buildKey (r : buildRow) : string * string * string * Z :=
  (b_schema r, b_format r, b_challenge r, b_seed r).

Definition buildIdFor (key : string * string * string * Z) (d : Db) : option BuildId :=
  fst <$> List.find (fun kv => bool_decide (buildKey kv.2 = key)) (rows (t_builds d)).

(** The rowid SQLite draws for a table without AUTOINCREMENT: one above the
    largest in use. *)
Definition freshRowid {A} (m : gmap Z A) : Z :=
  map_fold (fun k _ acc => Z.max k acc) 0 m + 1.

(** [openBuildQuery] and [openBuildWithIdQuery]: insert, or, when the (schema,
    format, challenge, seed) is there, take the instance count alone. *)
Definition upsertBuild (id : option BuildId) (r : buildRow) (d : Db) : option Db :=
  match buildIdFor (buildKey r) d with
  | Some old =>
    Some (d <| t_builds ::= alter (fun o => o <| b_instancecount := b_instancecount r |>) old |>)
  | None =>
    let id := default (freshRowid (t_builds d)) id in
    if decide (t_builds d !! id = None /\ is_Some (t_challenges d !! b_challenge r))
    then Some (d <| t_builds ::= <[id := r]> |>) else None
  end.

(** [DELETE FROM builds WHERE id = ?]: refused while an instance references
    the build; images, their ports and the lookup data cascade. *)
Definition deleteBuild (id : BuildId) (d : Db) : option Db :=
  if decide (instancesOfBuild id d = []) then
    let dead (img : ImageId) :=
      match t_images d !! img with Some r => bool_decide (ig_build r = id) | None => false end in
    Some (d <| t_builds ::= delete id |>
            <| t_imagePorts ::= filter (fun x => dead x.1 = false) |>
            <| t_images ::= filter (fun kv => ig_build kv.2 <> id) |>
            <| t_lookupData ::= filter (fun x => x.1 <> id) |>)
  else None.

Definition lockSchemaRows (schema : string) (d : Db) : Db :=
  d <| t_builds ::= fmap (fun r => if decide (b_schema r = schema)
                                   then r <| b_instancecount := LOCKED |> else r) |>.

(** ** challenges *)

(** [DELETE FROM challenges WHERE id = ?]: refused while a build references
    the challenge; the tables that hang off it cascade. *)
Definition deleteChallenge (id : ChallengeId) (d : Db) : option Db :=
  if existsb (fun kv => bool_decide (b_challenge kv.2 = id)) (map_to_list (t_builds d)) then None
  else Some (d <| t_challenges ::= delete id |> <| t_parts ::= delete id |>).

(** ** workers *)

(** The [INSERT ... ON CONFLICT] of [AddWorker]: an empty public address keeps
    the stored one. *)
Definition upsertWorker (ip public : string) (d : Db) : Db :=
  let kept := match t_workers d !! ip with
              | Some old => if decide (public = ""%string) then old else public
              | None => public
              end in
  d <| t_workers ::= <[ip := kept]> |>.

(** ** What SQLite keeps true of the tables

    Referential integrity, the checks, and that no instance id lies above the
    sequence: what the foreign keys, [CHECK]s and [AUTOINCREMENT] of the schema
    guarantee, as an invariant every statement keeps. *)
Record db_ok (d : Db) : Prop := {
  ok_seq : 0 <= t_instanceSeq d;
  ok_ids : forall id r, t_instances d !! id = Some r -> 0 < id <= t_instanceSeq d;
  ok_build : forall id r, t_instances d !! id = Some r -> is_Some (t_builds d !! i_build r);
  ok_ports : Forall (fun r => is_Some (t_instances d !! p_instance r) /\ validPort (p_port r) = true)
               (t_portAssignments d);
  ok_containers : Forall (fun r => is_Some (t_instances d !! c_instance r)) (t_containers d);
  ok_containerIds : NoDup (c_id <$> t_containers d);
  ok_challenge : forall id r, t_builds d !! id = Some r -> is_Some (t_challenges d !! b_challenge r);
  ok_images : forall id r, t_images d !! id = Some r -> is_Some (t_builds d !! ig_build r) }.

(** No host port is assigned twice on one worker. *)
Definition ports_unique (d : Db) : Prop := NoDup (portKey <$> t_portAssignments d).

Lemma emptyDb_ok : db_ok emptyDb.
Proof. split; simpl; try done; constructor. Qed.

Lemma elem_of_rows {A} (m : gmap Z A) x : x ∈ rows m <-> m !! x.1 = Some x.2.
Proof.
  unfold rows. rewrite merge_sort_Permutation. destruct x. apply elem_of_map_to_list.
Qed.

Lemma instancesOfBuild_spec b d id :
  id ∈ instancesOfBuild b d <-> exists r, t_instances d !! id = Some r /\ i_build r = b.
Proof.
  unfold instancesOfBuild. rewrite list_elem_of_fmap. split.
  - intros ([id' r] & -> & [Hb Hin]%list_elem_of_filter). apply elem_of_rows in Hin. eauto.
  - intros (r & Hr & Hb). exists (id, r). split; [done|].
    apply list_elem_of_filter. split; [done|]. by apply elem_of_rows.
Qed.

Lemma instancesOfWorker_spec ip d id :
  id ∈ instancesOfWorker ip d <-> exists r, t_instances d !! id = Some r /\ i_worker r = ip.
Proof.
  unfold instancesOfWorker. rewrite list_elem_of_fmap. split.
  - intros ([id' r] & -> & [Hb Hin]%list_elem_of_filter). apply elem_of_rows in Hin. eauto.
  - intros (r & Hr & Hb). exists (id, r). split; [done|].
    apply list_elem_of_filter. split; [done|]. by apply elem_of_rows.
Qed.

Lemma instancesOfBuild_NoDup b d : NoDup (instancesOfBuild b d).
Proof.
  unfold instancesOfBuild.
  assert (forall l : list (Z * instanceRow), NoDup l.*1 ->
    NoDup (filter (fun kv => i_build kv.2 = b) l).*1) as H.
  { intros l Hl. eapply sublist_NoDup; [exact Hl|].
    apply fmap_sublist, sublist_filter. }
  apply H. unfold rows. rewrite merge_sort_Permutation. apply NoDup_fst_map_to_list.
Qed.

(** ** Instances *)

Lemma insertInstance_spec now b ls w d d' id :
  insertInstance now b ls w d = Some (d', id) ->
  id = t_instanceSeq d + 1 /\ is_Some (t_builds d !! b) /\
  d' = d <| t_instances ::= <[id := mkInstanceRow ls b (Some now) false w]> |>
         <| t_instanceSeq := id |>.
Proof. unfold insertInstance. case_decide; intros; simplify_eq; auto. Qed.

(** An instance id is handed out once: it is above every id on record. *)
Lemma insertInstance_fresh now b ls w d d' id :
  db_ok d -> insertInstance now b ls w d = Some (d', id) -> t_instances d !! id = None.
Proof.
  intros Hok (-> & _ & _)%insertInstance_spec.
  destruct (t_instances d !! (t_instanceSeq d + 1)) eqn:E; [|done].
  apply (ok_ids d Hok) in E. lia.
Qed.

Lemma is_Some_insert {A} (m : gmap Z A) i j x : is_Some (m !! j) -> is_Some (<[i := x]> m !! j).
Proof. rewrite lookup_insert. case_decide; [eauto|done]. Qed.

Lemma insertInstance_ok now b ls w d d' id :
  db_ok d -> insertInstance now b ls w d = Some (d', id) -> db_ok d'.
Proof.
  intros Hok H. pose proof (insertInstance_fresh _ _ _ _ _ _ _ Hok H) as Hf.
  apply insertInstance_spec in H as (Hid & Hb & ->). destruct Hok.
  split; simpl; auto.
  - lia.
  - intros i r. rewrite lookup_insert. case_decide; intros; simplify_eq; [lia|].
    pose proof (ok_ids0 _ _ H0). lia.
  - intros i r. rewrite lookup_insert. case_decide; intros; simplify_eq/=; [done|]. eauto.
  - eapply Forall_impl; [done|]. intros x [? ?]. split; [by apply is_Some_insert|done].
  - eapply Forall_impl; [done|]. intros x ?. by apply is_Some_insert.
Qed.

Lemma deleteInstances_lookup gone d id :
  t_instances (deleteInstances gone d) !! id =
  match t_instances d !! id with
  | Some r => if gone id r then None else Some r
  | None => None
  end.
Proof.
  unfold deleteInstances; simpl. rewrite map_lookup_filter.
  destruct (t_instances d !! id) as [r|]; simpl; [|done].
  case_guard as E; simpl in *; destruct (gone id r); naive_solver.
Qed.

Lemma deleteInstances_ok gone d : db_ok d -> db_ok (deleteInstances gone d).
Proof.
  intros Hok. pose proof (deleteInstances_lookup gone d) as L. destruct Hok.
  split; try done.
  - intros id r. rewrite L. case_match; [|done]. case_match; [done|]. intros; simplify_eq. eauto.
  - intros id r. rewrite L. case_match; [|done]. case_match; [done|]. intros; simplify_eq.
    simpl. eauto.
  - apply Forall_forall. intros r Hr. apply list_elem_of_filter in Hr as [Hd Hin].
    rewrite Forall_forall in ok_ports0. destruct (ok_ports0 r Hin) as [[i Hi] Hv].
    split; [|done]. rewrite (L (p_instance r)), Hi. rewrite Hi in Hd. rewrite Hd. eauto.
  - apply Forall_forall. intros r Hr. apply list_elem_of_filter in Hr as [Hd Hin].
    rewrite Forall_forall in ok_containers0. destruct (ok_containers0 r Hin) as [i Hi].
    rewrite (L (c_instance r)), Hi. rewrite Hi in Hd. rewrite Hd. eauto.
  - simpl. eapply sublist_NoDup; [exact ok_containerIds0|]. apply fmap_sublist, sublist_filter.
Qed.

Lemma deleteInstances_ports_unique gone d : ports_unique d -> ports_unique (deleteInstances gone d).
Proof.
  unfold ports_unique; simpl. intros H. eapply sublist_NoDup; [exact H|].
  apply fmap_sublist, sublist_filter.
Qed.

Lemma deleteInstance_lookup id d j :
  t_instances (deleteInstance id d) !! j = if decide (j = id) then None else t_instances d !! j.
Proof.
  unfold deleteInstance. rewrite deleteInstances_lookup.
  destruct (t_instances d !! j); repeat case_decide; subst; try done;
    by rewrite ?bool_decide_eq_true_2, ?bool_decide_eq_false_2.
Qed.

(** Deleting an instance releases everything recorded for it. *)
Lemma deleteInstance_releases id d :
  db_ok d ->
  Forall (fun r => p_instance r <> id) (t_portAssignments (deleteInstance id d)) /\
  Forall (fun r => c_instance r <> id) (t_containers (deleteInstance id d)).
Proof.
  intros Hok. pose proof (deleteInstances_ok (fun i _ => bool_decide (i = id)) d Hok) as Hok'.
  split; apply Forall_forall; intros r Hin Hr.
  - pose proof (ok_ports _ Hok') as Hp. rewrite Forall_forall in Hp.
    destruct (Hp r Hin) as [[x Hx] _]. rewrite Hr in Hx.
    fold (deleteInstance id d) in Hx. rewrite deleteInstance_lookup, decide_True in Hx; done.
  - pose proof (ok_containers _ Hok') as Hp. rewrite Forall_forall in Hp.
    destruct (Hp r Hin) as [x Hx]. rewrite Hr in Hx.
    fold (deleteInstance id d) in Hx. rewrite deleteInstance_lookup, decide_True in Hx; done.
Qed.

(** ** Ports *)

Lemma insertPort_spec r d d' :
  insertPort r d = Some d' ->
  is_Some (t_instances d !! p_instance r) /\ validPort (p_port r) = true /\
  d' = d <| t_portAssignments ::= (fun l => l ++ [r]) |>.
Proof. unfold insertPort. case_decide; intros; simplify_eq; naive_solver. Qed.

Lemma insertPort_ok r d d' : db_ok d -> insertPort r d = Some d' -> db_ok d'.
Proof.
  intros [] (Hi & Hv & ->)%insertPort_spec. split; simpl; auto.
  apply Forall_app. split; [done|]. by constructor.
Qed.

(** The claim inserts exactly when nobody holds the port on that worker. *)
Lemma insertPortUnlessTaken_spec r d d' claimed :
  insertPortUnlessTaken r d = Some (d', claimed) ->
  (claimed = false /\ d' = d /\ portKey r ∈ portKey <$> t_portAssignments d) \/
  (claimed = true /\ portKey r ∉ portKey <$> t_portAssignments d /\ insertPort r d = Some d').
Proof. unfold insertPortUnlessTaken. case_decide; [|case_match]; intros; simplify_eq; auto. Qed.

Lemma insertPortUnlessTaken_ok r d d' claimed :
  db_ok d -> insertPortUnlessTaken r d = Some (d', claimed) -> db_ok d'.
Proof.
  intros Hok [(_ & -> & _)|(_ & _ & H)]%insertPortUnlessTaken_spec; [done|].
  by eapply insertPort_ok.
Qed.

Lemma insertPortUnlessTaken_unique r d d' claimed :
  ports_unique d -> insertPortUnlessTaken r d = Some (d', claimed) -> ports_unique d'.
Proof.
  intros Hu [(_ & -> & _)|(_ & Hn & (_ & _ & ->)%insertPort_spec)]%insertPortUnlessTaken_spec;
    [done|].
  unfold ports_unique; simpl. rewrite fmap_app. apply NoDup_app.
  split_and!; [done| |apply NoDup_singleton]. simpl. intros x Hx ->%list_elem_of_singleton. done.
Qed.

Lemma Forall_filter_keep {A} (P Q : A -> Prop) `{!forall x, Decision (P x)} l :
  Forall Q l -> Forall Q (filter P l).
Proof. rewrite !Forall_forall. intros Hl x [_ Hx]%list_elem_of_filter. auto. Qed.

Lemma deletePorts_ok id d : db_ok d -> db_ok (deletePorts id d).
Proof.
  intros []. split; simpl; auto. by apply Forall_filter_keep.
Qed.

Lemma deleteContainers_ok id d : db_ok d -> db_ok (deleteContainers id d).
Proof.
  intros []. split; simpl; auto; [by apply Forall_filter_keep|].
  eapply sublist_NoDup; [exact ok_containerIds0|]. apply fmap_sublist, sublist_filter.
Qed.

Lemma deletePorts_unique id d : ports_unique d -> ports_unique (deletePorts id d).
Proof.
  intros H. eapply sublist_NoDup; [exact H|]. apply fmap_sublist, sublist_filter.
Qed.

Lemma insertContainer_ok r d d' : db_ok d -> insertContainer r d = Some d' -> db_ok d'.
Proof.
  intros []. unfold insertContainer. case_decide as H; [|done]. destruct H as [Hi Hn].
  intros; simplify_eq. split; simpl; auto.
  - apply Forall_app. split; [done|]. by constructor.
  - rewrite fmap_app. apply NoDup_app. split_and!; [done| |apply NoDup_singleton].
    simpl. intros x Hx ->%list_elem_of_singleton. done.
Qed.

Lemma is_Some_alter {A} f (m : gmap Z A) i j : is_Some (alter f i m !! j) <-> is_Some (m !! j).
Proof. rewrite lookup_alter. case_decide; subst; [|done]. by rewrite fmap_is_Some. Qed.

Lemma setFinalized_ok id d : db_ok d -> db_ok (setFinalized id d).
Proof.
  intros []. split; simpl; auto.
  - intros i r. rewrite lookup_alter. case_decide; subst; [|eauto].
    intros (r' & Hr & ->)%fmap_Some. eauto.
  - intros i r. rewrite lookup_alter. case_decide; subst; [|eauto].
    intros (r' & Hr & ->)%fmap_Some. simpl. eauto.
  - eapply Forall_impl; [done|]. intros x [? ?]. by rewrite is_Some_alter.
  - eapply Forall_impl; [done|]. intros x ?. by rewrite is_Some_alter.
Qed.

#[export] Hint Resolve deleteInstances_ok deletePorts_ok deleteContainers_ok setFinalized_ok
  deleteInstances_ports_unique deletePorts_unique : cork.
