(* ===== verification/Fleet.v ===== *)
(** * Fleet: the Manager's workers

    The part of [cork/workers.go] that works on the whole fleet: the registry
    ([initWorkers], [AddWorker], [RemoveWorker], [SetWorkerDown],
    [recoverWorker], [ListWorkers]), placement ([selectWorker]), and the
    lookups the launch and stop paths make ([workerUnreachable],
    [workerUnreachableCh], [instanceClient], [workerPublicAddr]).

    Conns live on a heap of their own, because goroutines keep pointers to
    conns that the registry has replaced: a conn is its address, the map
    [m.workers] maps an IP to an address, and the docker client of a conn has
    the conn's address as its identity.  Everything here runs under
    [m.workersMu] in the code, so each operation is one atomic step. *)
From S2P Require Import Prelude Types Settings Queue Worker Netip Database.
Local Open Scope Z_scope.

Record Manager := mkManager {
  m_db : Db;
  m_conns : gmap nat workerConn;          (* the heap of conns *)
  m_nextConn : nat;
  m_workers : gmap string nat;
  m_workerOrder : list string;
  m_rrCursor : nat;
  m_placementEnabled : bool;
  m_launchConcurrency : Z;
  m_workerTiming : workerTiming;
  m_localQueue : daemonQueue;
  m_externalBuildPlane : bool;
  m_portLow : Z;
  m_portHigh : Z;
  m_challengeRegistry : string;
  m_pruneAge : Z;
  m_pruneInterval : Z;
  m_lastPruneUnix : Z;
  m_challengeInterface : string;
  m_hostOSType : string;
  m_seccompPolicy : string;
  m_diskQuotas : bool }.
#[export] Instance eta_Manager : Eta Manager := fun m =>
  mkManager (m_db m) (m_conns m) (m_nextConn m) (m_workers m) (m_workerOrder m) (m_rrCursor m)
    (m_placementEnabled m) (m_launchConcurrency m) (m_workerTiming m) (m_localQueue m)
    (m_externalBuildPlane m) (m_portLow m) (m_portHigh m) (m_challengeRegistry m) (m_pruneAge m)
    (m_pruneInterval m) (m_lastPruneUnix m) (m_challengeInterface m) (m_hostOSType m)
    (m_seccompPolicy m) (m_diskQuotas m).

(** The conn registered for an IP. *)
Definition lookupWorker (m : Manager) (ip : string) : option (nat * workerConn) :=
  c ← m_workers m !! ip; w ← m_conns m !! c; Some (c, w).

(** An operation on one conn, by address. *)
Definition onConn (c : nat) (f : workerConn -> workerConn) (m : Manager) : Manager :=
  m <| m_conns ::= alter f c |>.

Definition EnableWorkerPlacement (m : Manager) : Manager := m <| m_placementEnabled := true |>.
Definition WorkersConfigured (m : Manager) : bool := bool_decide (m_workers m <> ∅).

(** [newWorkerConn]: [dialErr] is what building its TLS configuration or its
    client came to. *)
Definition dialWorker (now : Z) (dialErr : option error) (ip public : string) (fromRecovery : bool)
    (m : Manager) : error + (Manager * nat) :=
  match dialErr with
  | Some err => inl err
  | None =>
    let c := m_nextConn m in
    inr (m <| m_conns ::= <[c := newWorkerConn now c ip public fromRecovery (m_launchConcurrency m)]> |>
           <| m_nextConn := S c |>, c)
  end.

(** [close(old.done); old.cli.Close()]. *)
Definition discard (w : workerConn) : workerConn :=
  w <| w_done ::= close_chan |> <| w_cliClosed := true |>.

(** The loop of [initWorkers] over the rows, stopping at the first conn that
    cannot be built. *)
Fixpoint loadWorkers (now : Z) (dialErr : string -> option error) (rows : list (string * string))
    (m : Manager) : option error * Manager :=
  match rows with
  | [] => (None, m)
  | (ip, public) :: rows =>
    match dialWorker now (dialErr ip) ip public false m with
    | inl err => (Some err, m)
    | inr (m, c) =>
      loadWorkers now dialErr rows
        (m <| m_workers ::= <[ip := c]> |> <| m_workerOrder ::= (fun l => l ++ [ip]) |>)
    end
  end.

Definition initWorkers (now : Z) (selectErr : option error) (dialErr : string -> option error)
    (m : Manager) : option error * Manager :=
  let m := m <| m_workers := ∅ |> in
  match selectErr with
  | Some err => (Some err, m)
  | None => loadWorkers now dialErr (map_to_list (t_workers (m_db m))) m
  end.

(** [AddWorker]: [execErr] is the upsert failing, [getErr] the read-back. *)
Definition AddWorker (now : Z) (execErr getErr dialErr : option error) (ip public : string)
    (m : Manager) : option error * Manager :=
  if ParseAddr ip then
    match execErr with
    | Some err => (Some err, m)
    | None =>
      let m := m <| m_db ::= upsertWorker ip public |> in
      match (if decide (public = ""%string) then
               match getErr with
               | Some err => inl err
               | None => inr (default ""%string (t_workers (m_db m) !! ip))
               end
             else inr public) : error + string with
      | inl err => (Some err, m)
      | inr public =>
        match dialWorker now dialErr ip public false m with
        | inl err => (Some err, m)
        | inr (m, c) =>
          match m_workers m !! ip with
          | Some old => (None, (onConn old discard m) <| m_workers ::= <[ip := c]> |>)
          | None =>
            (None, m <| m_workers ::= <[ip := c]> |> <| m_workerOrder ::= (fun l => l ++ [ip]) |>)
          end
        end
      end
    end
  else (Some [OtherError "invalid worker IP"], m).

(** [RemoveWorker]: [txErr] is the transaction failing anywhere, and then
    nothing of it is kept. *)
Definition RemoveWorker (txErr : option error) (ip : string) (m : Manager)
    : option error * Manager :=
  match m_workers m !! ip with
  | None => (Some (unknownWorkerError ip), m)
  | Some c =>
    match txErr with
    | Some err => (Some err, m)
    | None =>
      (None,
       (onConn c discard
         (m <| m_db ::= (fun d => (deleteInstances (fun _ r => bool_decide (i_worker r = ip)) d)
                                  <| t_workers ::= delete ip |>) |>))
         <| m_workers ::= delete ip |> <| m_workerOrder ::= remove_first ip |>)
    end
  end.

Definition SetWorkerDown (now : Z) (ip : string) (m : Manager) : option error * Manager :=
  match m_workers m !! ip with
  | None => (Some (unknownWorkerError ip), m)
  | Some c => (None, onConn c (markWorkerDown now) m)
  end.

(** [recoverWorker] on the conn at address [c]. *)
Definition recoverWorker (now : Z) (dialErr : option error) (c : nat) (m : Manager) : Manager :=
  match m_conns m !! c with
  | None => m
  | Some w =>
    if decide (m_workers m !! w_ip w = Some c) then
      if decide (w_reachable w = workerDown) then m
      else match dialWorker now dialErr (w_ip w) (w_public w) true m with
           | inl _ => m
           | inr (m, fresh) =>
             onConn c discard
               ((onConn fresh (fun f => f <| w_ejections := w_ejections w |>) m)
                <| m_workers ::= <[w_ip w := fresh]> |>)
           end
    else m
  end.

(** What the conn's goroutine does when its reconcile pass is over and the
    worker may take placements ([runWorker]). *)
Definition admitConn (now : Z) (w : workerConn) : workerConn :=
  (setReachable now (w <| w_reconciled := true |>) workerReachableOk "").1.

(** ** Errors against a worker's daemon *)

Definition isTransportError (err : option error) : bool :=
  match err with
  | None => false
  | Some e => errors_Is e DeadlineExceeded || errors_Is e ConnectionFailed || errors_Is e NetError
  end.

(** What [noteWorkerTransportError] does to the conn it finds; [pingErr] is the
    ping that settles a timeout. *)
Definition noteOnConn (now : Z) (t : workerTiming) (pingErr : option error) (err : error)
    (w : workerConn) : workerConn :=
  let w :=
    if errors_Is err DeadlineExceeded then
      match pingErr with
      | Some _ => eject now w "a control call timed out and the daemon did not answer a ping"
      | None =>
        let '(w, (_, ejected)) :=
          noteTimeout now (controlTimeout t) (timeoutWindow t) (timeoutsToEject t) w in
        if ejected then eject now w "control calls timed out in separate stalls" else w
      end
    else eject now w "a control call failed" in
  w <| w_probeNow := true |>.

Definition noteWorkerTransportError (now : Z) (pingErr : option error) (worker : string)
    (cli : option nat) (err : option error) (m : Manager) : Manager :=
  if decide (worker = ""%string) then m
  else match err with
       | None => m
       | Some e =>
         if isTransportError err then
           match lookupWorker m worker with
           | None => m
           | Some (c, w) =>
             if decide (is_Some cli /\ cli <> Some (w_cli w)) then m
             else if w_reconciled w
                  then onConn c (noteOnConn now (timing (m_workerTiming m)) pingErr e) m
                  else m
           end
         else m
       end.

(** ** Placement *)

(** The loop of [selectWorker] over [i], the rounds left being [k]; the outer
    [None] is the nil dereference of a registry that lost a conn. *)
Fixpoint selectLoop (m : Manager) (k i : nat) (over unresp : bool)
    : option (error + (nat * string)) :=
  match k with
  | O => Some (inl (if over then [ErrAllWorkersOverloaded]
                    else if unresp then [ErrAllWorkersUnresponsive] else [ErrAllWorkersDown]))
  | S k =>
    let n := length (m_workerOrder m) in
    let idx := ((m_rrCursor m + i) mod n)%nat in
    ip ← m_workerOrder m !! idx;
    '(_, w) ← lookupWorker m ip;
    if placeable w then Some (inr (((idx + 1) mod n)%nat, w_ip w))
    else
      selectLoop m k (S i)
        (over || bool_decide (w_reachable w = workerReachableOk))
        (unresp || bool_decide (w_reachable w = workerUnresponsive))
  end.

(** [selectWorker]: the empty name is the local daemon. *)
Definition selectWorker (m : Manager) : option (Manager * (error + string)) :=
  if decide (length (m_workerOrder m) = 0%nat) then Some (m, inr ""%string)
  else
    r ← selectLoop m (length (m_workerOrder m)) 0 false false;
    match r with
    | inl err => Some (m, inl err)
    | inr (cursor, ip) => Some (m <| m_rrCursor := cursor |>, inr ip)
    end.

(** ** Lookups *)

Definition workerPublicAddr (m : Manager) (ip : string) : string :=
  match lookupWorker m ip with
  | None => ""%string
  | Some (_, w) => if decide (w_public w = ""%string) then ip else w_public w
  end.

Definition workerUnreachable (m : Manager) (ip : string) : bool :=
  match lookupWorker m ip with
  | None => true
  | Some (_, w) => connUnreachable w
  end.

(** The channel is the conn's; [None] is the nil channel, never ready. *)
Definition workerUnreachableCh (m : Manager) (worker : string) : option bchan :=
  if decide (worker = ""%string) then None
  else match lookupWorker m worker with
       | Some (_, w) => Some (w_unreachCh w)
       | None => None
       end.

(** The client of the daemon hosting an instance: [None] is the local one. *)
Definition instanceClient (m : Manager) (worker : string) : error + option nat :=
  if decide (worker = ""%string) then
    if m_externalBuildPlane m then inl [OtherError "placed on the local daemon"] else inr None
  else match lookupWorker m worker with
       | None => inl [OtherError "references unknown worker"]
       | Some (_, w) => inr (Some (w_cli w))
       end.

(** [workerDaemon]: the queue of the hosting daemon and the worker's name. *)
Definition workerDaemon (m : Manager) (worker : string) : daemonQueue * string :=
  if decide (worker = ""%string) then (m_localQueue m, ""%string)
  else match lookupWorker m worker with
       | Some (_, w) => (w_queue w, w_public w)
       | None => (m_localQueue m, ""%string)
       end.
Definition hostQueue (m : Manager) (worker : string) : daemonQueue := (workerDaemon m worker).1.

Record WorkerInfo := mkInfo {
  wi_ip : string; wi_public : string; wi_health : string; wi_reachable : string; wi_load : string;
  wi_since : Z; wi_reason : string; wi_instances : Z; wi_launch : LaunchStats }.

(** [ListWorkers]: [selectErr] is the count query failing; [None] is the nil
    dereference. *)
Definition ListWorkers (selectErr : option error) (m : Manager)
    : option (error + list WorkerInfo) :=
  match selectErr with
  | Some err => Some (inl err)
  | None =>
    infos ← mapM (fun ip =>
      '(_, w) ← lookupWorker m ip;
      Some (mkInfo ip (w_public w) (derivedHealth (w_reachable w) (w_load w))
              (reachableString (w_reachable w)) (loadString (w_load w)) (w_since w)
              (default ""%string (w_reason w))
              (if decide (ip = ""%string) then 0
               else Z.of_nat (length (instancesOfWorker ip (m_db m))))
              (ringStats (q_launches (w_queue w))))) (m_workerOrder m);
    Some (inr infos)
  end.

(** ** Histories

    What other goroutines and operators do to the fleet, one operation at a
    time; each names every way its outside calls can come out.  The operations
    on a conn take any address, also of one the registry has replaced: a
    goroutine may still hold it. *)
Inductive fleet_op :=
| OpAdd (now : Z) (execErr getErr dialErr : option error) (ip public : string)
| OpRemove (txErr : option error) (ip : string)
| OpDown (now : Z) (ip : string)
| OpRecover (now : Z) (dialErr : option error) (c : nat)
| OpAdmit (now : Z) (c : nat)
| OpEject (now : Z) (reason : string) (c : nat)
| OpLoad (l : workerLoad) (c : nat)
| OpForgive (c : nat)
| OpNote (now : Z) (pingErr : option error) (worker : string) (cli : option nat) (err : option error)
| OpSelect.

(** One decay period of clean running ([w.ejections.Add(-1)]). *)
Definition forgive (w : workerConn) : workerConn := w <| w_ejections ::= (fun n => wrap32 (n - 1)) |>.

Definition run_op (op : fleet_op) (m : Manager) : Manager :=
  match op with
  | OpAdd now e1 e2 e3 ip public => (AddWorker now e1 e2 e3 ip public m).2
  | OpRemove e ip => (RemoveWorker e ip m).2
  | OpDown now ip => (SetWorkerDown now ip m).2
  | OpRecover now e c => recoverWorker now e c m
  | OpAdmit now c => onConn c (admitConn now) m
  | OpEject now reason c => onConn c (fun w => eject now w reason) m
  | OpLoad l c => onConn c (fun w => setLoad w l) m
  | OpForgive c => onConn c forgive m
  | OpNote now p worker cli err => noteWorkerTransportError now p worker cli err m
  | OpSelect => match selectWorker m with Some (m', _) => m' | None => m end
  end.
Definition run_ops (ops : list fleet_op) (m : Manager) : Manager := foldl (fun m op => run_op op m) m ops.

(** A Manager before [initWorkers]: nothing registered, whatever the database
    holds. *)
Definition bareManager (d : Db) (launchConcurrency : Z) (t : workerTiming) (low high : Z) : Manager :=
  mkManager d ∅ 0 ∅ [] 0 false launchConcurrency t (newDaemonQueue (slots launchConcurrency)) false low high
    "" 0 Minute 0 "" "linux" "" false.

(** ** What a conn promises the fleet

    An operation on a conn keeps the conn invariant and its identity, neither
    opens nor closes the channel that stops its poller, and never lifts an
    asserted down. *)
Class ConnOp (f : workerConn -> workerConn) : Prop := {
  conn_op_ok w : conn_ok w -> conn_ok (f w);
  conn_op_id w : w_ip (f w) = w_ip w /\ w_cli (f w) = w_cli w /\ w_public (f w) = w_public w;
  conn_op_done w : w_done (f w) = w_done w /\ w_cliClosed (f w) = w_cliClosed w;
  conn_op_down w : w_reachable w = workerDown -> w_reachable (f w) = workerDown }.

#[export] Instance setLoad_conn_op l : ConnOp (fun w => setLoad w l).
Proof. split; auto with cork. Qed.
#[export] Instance forgive_conn_op : ConnOp forgive.
Proof. split; auto. intros w. by apply conn_ok_frame. Qed.
#[export] Instance eject_conn_op now reason : ConnOp (fun w => eject now w reason).
Proof.
  split; auto using eject_down with cork; intros w; run_conn w; by destruct fr, df.
Qed.
#[export] Instance markWorkerDown_conn_op now : ConnOp (markWorkerDown now).
Proof. split; auto using markWorkerDown_down with cork; intros w; run_conn w. Qed.
#[export] Instance admitConn_conn_op now : ConnOp (admitConn now).
Proof.
  unfold admitConn. split.
  - intros w Hw. apply setReachable_ok_conn_ok. by apply (conn_ok_frame w).
  - intros w. run_conn w.
  - intros w. run_conn w.
  - intros w Hw. by apply setReachable_down.
Qed.
#[export] Instance noteTimeout_conn_op now a b c : ConnOp (fun w => (noteTimeout now a b c w).1).
Proof.
  split; intros w; unfold noteTimeout; repeat case_match; simpl; try done; by apply conn_ok_frame.
Qed.
#[export] Instance nudge_conn_op : ConnOp (fun w => w <| w_probeNow := true |>).
Proof. split; auto. intros w. by apply conn_ok_frame. Qed.
Lemma conn_op_compose f g : ConnOp f -> ConnOp g -> ConnOp (fun w => g (f w)).
Proof.
  intros Hf Hg. split; intros w.
  - intros. by apply Hg, Hf.
  - destruct (@conn_op_id f Hf w) as (<- & <- & <-). apply conn_op_id.
  - destruct (@conn_op_done f Hf w) as (<- & <-). apply conn_op_done.
  - intros. by apply Hg, Hf.
Qed.
#[export] Instance noteOnConn_conn_op now t pingErr err : ConnOp (noteOnConn now t pingErr err).
Proof.
  unfold noteOnConn. apply (conn_op_compose _ (fun w => w <| w_probeNow := true |>)); [|apply _].
  destruct (errors_Is err DeadlineExceeded); [|apply _].
  destruct pingErr; [apply _|].
  pose proof (noteTimeout_conn_op now (controlTimeout t) (timeoutWindow t) (timeoutsToEject t)) as Hn.
  split; intros w; pose proof (@conn_op_ok _ Hn w); pose proof (@conn_op_id _ Hn w);
    pose proof (@conn_op_done _ Hn w); pose proof (@conn_op_down _ Hn w); cbv beta in *;
    destruct (noteTimeout _ _ _ _ w) as [w' [n ej]]; simpl in *; destruct ej; try done.
  - intros. apply eject_conn_ok. auto.
  - destruct (@conn_op_id _ (eject_conn_op now "control calls timed out in separate stalls") w')
      as (-> & -> & ->). done.
  - destruct (@conn_op_done _ (eject_conn_op now "control calls timed out in separate stalls") w')
      as (-> & ->). done.
  - eauto using eject_down.
Qed.

(** ** The fleet invariant *)
Record fleet_ok (m : Manager) : Prop := {
  fo_order : NoDup (m_workerOrder m);
  fo_keys ip : ip ∈ m_workerOrder m <-> is_Some (m_workers m !! ip);
  fo_live ip c : m_workers m !! ip = Some c ->
    exists w, m_conns m !! c = Some w /\ w_ip w = ip /\ w_cli w = c /\ w_done w = chan_open;
  fo_conns c w : m_conns m !! c = Some w -> conn_ok w /\ (c < m_nextConn m)%nat;
  fo_stale c w : m_conns m !! c = Some w -> m_workers m !! w_ip w <> Some c ->
    w_done w = chan_closed /\ w_cliClosed w = true;
  fo_rows ip : is_Some (m_workers m !! ip) -> is_Some (t_workers (m_db m) !! ip) }.

Lemma lookupWorker_spec m ip c w :
  lookupWorker m ip = Some (c, w) <-> m_workers m !! ip = Some c /\ m_conns m !! c = Some w.
Proof.
  unfold lookupWorker. destruct (m_workers m !! ip) as [c'|]; simpl; [|naive_solver].
  destruct (m_conns m !! c') eqn:?; simpl; naive_solver.
Qed.

Lemma lookupWorker_live m ip :
  fleet_ok m -> ip ∈ m_workerOrder m -> exists c w, lookupWorker m ip = Some (c, w) /\ w_ip w = ip.
Proof.
  intros Hm [c Hc]%(fo_keys m Hm). destruct (fo_live m Hm ip c Hc) as (w & Hw & Hip & _).
  exists c, w. rewrite lookupWorker_spec. auto.
Qed.

Lemma lookup_onConn c f m c' :
  m_conns (onConn c f m) !! c' = if decide (c' = c) then f <$> m_conns m !! c else m_conns m !! c'.
Proof.
  unfold onConn; simpl. rewrite lookup_alter.
  case_decide; case_decide; subst; done.
Qed.

Lemma lookup_onConn_Some c f m c' w :
  m_conns (onConn c f m) !! c' = Some w <->
  (c' = c /\ exists w0, m_conns m !! c = Some w0 /\ w = f w0) \/ (c' <> c /\ m_conns m !! c' = Some w).
Proof. rewrite lookup_onConn. case_decide; [rewrite fmap_Some|]; naive_solver. Qed.

(** An operation on a conn is invisible to the registry. *)
Lemma onConn_fleet_ok c f m : ConnOp f -> fleet_ok m -> fleet_ok (onConn c f m).
Proof.
  intros Hf [Ho Hk Hl Hc Hs Hr]. split; [exact Ho|exact Hk| | | |exact Hr].
  - intros ip c' Hc'. destruct (Hl ip c' Hc') as (w & Hw & Hip & Hcli & Hd).
    destruct (decide (c' = c)) as [->|Hne].
    + exists (f w). rewrite lookup_onConn_Some.
      destruct (conn_op_id w) as (-> & -> & _). destruct (conn_op_done w) as [-> _]. naive_solver.
    + exists w. rewrite lookup_onConn_Some. naive_solver.
  - intros c' w [(-> & w0 & Hw0 & ->)|[_ Hw]]%lookup_onConn_Some; [|by apply Hc].
    split; [|by apply (Hc c w0)]. by apply conn_op_ok, (Hc c w0).
  - intros c' w [(-> & w0 & Hw0 & ->)|[_ Hw]]%lookup_onConn_Some; [|by apply Hs].
    destruct (conn_op_id w0) as (-> & _ & _). destruct (conn_op_done w0) as [-> ->]. by apply Hs.
Qed.

Lemma fleet_ok_fresh m w : fleet_ok m -> m_conns m !! m_nextConn m = Some w -> False.
Proof. intros Hm Hw. apply (fo_conns m Hm) in Hw as [_ ?]. lia. Qed.

(** Registering a new conn for an IP, the one it replaces (if any) told to
    stop: what [AddWorker] and [recoverWorker] have in common. *)
Definition register (w : workerConn) (m : Manager) : Manager :=
  let c := m_nextConn m in
  let m' := m <| m_conns ::= <[c := w]> |> <| m_nextConn := S c |> in
  match m_workers m !! w_ip w with
  | Some old => (onConn old discard m') <| m_workers ::= <[w_ip w := c]> |>
  | None => m' <| m_workers ::= <[w_ip w := c]> |> <| m_workerOrder ::= (fun l => l ++ [w_ip w]) |>
  end.

Lemma discard_ok w : conn_ok w -> w_done w = chan_open -> conn_ok (discard w).
Proof. intros [] Hd. split; auto. simpl. by rewrite Hd. Qed.

Lemma register_fleet_ok w m :
  fleet_ok m -> conn_ok w -> w_cli w = m_nextConn m -> w_done w = chan_open ->
  is_Some (t_workers (m_db m) !! w_ip w) -> fleet_ok (register w m).
Proof.
  intros Hm Hw Hcli Hdone Hrow. pose proof (fleet_ok_fresh m) as Hfresh.
  destruct Hm as [Ho Hk Hl Hc Hs Hr] eqn:E. clear E. unfold register.
  destruct (m_workers m !! w_ip w) as [old|] eqn:Hold.
  - destruct (Hl _ _ Hold) as (ow & How & Hoip & Hocli & Hod).
    assert (old <> m_nextConn m) as Hne by (intros ->; eauto).
    split; simpl; auto.
    + intros ip. rewrite lookup_insert. case_decide; subst; [|done].
      rewrite Hk, Hold. split; eauto.
    + intros ip c. rewrite lookup_insert. case_decide; subst; intros; simplify_eq.
      * exists w. rewrite lookup_alter_ne, lookup_insert_eq; done.
      * destruct (Hl ip c) as (w0 & Hw0 & Hip0 & ?); [done|]. exists w0. split; [|done].
        rewrite lookup_alter_ne, lookup_insert_ne; [done|intros <-; eauto|intros <-; congruence].
    + intros c w0. rewrite lookup_alter. case_decide; subst.
      * rewrite lookup_insert_ne, How by done. intros; simplify_eq/=.
        split; [apply discard_ok; [by apply (Hc _ _ How)|done]|].
        pose proof (Hc _ _ How). lia.
      * rewrite lookup_insert. case_decide; subst; intros; simplify_eq; [split; [done|lia]|].
        destruct (Hc c w0); [done|]. split; [done|lia].
    + intros c w0. rewrite lookup_alter. case_decide; subst.
      * rewrite lookup_insert_ne, How by done. intros; simplify_eq/=. by rewrite Hod.
      * rewrite lookup_insert. case_decide; subst; intros; simplify_eq;
          [by rewrite lookup_insert_eq in *|].
        apply (Hs c); [done|]. intros Hreg. destruct (decide (w_ip w0 = w_ip w)) as [Heq|Hneq].
        -- rewrite Heq in Hreg. congruence.
        -- rewrite lookup_insert_ne in * by done. done.
    + intros ip. rewrite lookup_insert. case_decide; subst; eauto.
  - split; simpl; auto.
    + apply NoDup_app. split_and!; [done| |apply NoDup_singleton].
      intros x Hx ->%list_elem_of_singleton. apply Hk in Hx as [? ?]. congruence.
    + intros ip. rewrite elem_of_app, list_elem_of_singleton, lookup_insert, Hk.
      case_decide; subst; naive_solver.
    + intros ip c. rewrite lookup_insert. case_decide; subst; intros; simplify_eq.
      * exists w. by rewrite lookup_insert_eq.
      * destruct (Hl ip c) as (w0 & Hw0 & ?); [done|]. exists w0. split; [|done].
        rewrite lookup_insert_ne; [done|intros <-; eauto].
    + intros c w0. rewrite lookup_insert. case_decide; subst; intros; simplify_eq; [split; [done|lia]|].
      destruct (Hc c w0); [done|]. split; [done|lia].
    + intros c w0. rewrite lookup_insert. case_decide; subst; intros; simplify_eq;
        [by rewrite lookup_insert_eq in *|].
      apply (Hs c); [done|]. intros Hreg. destruct (decide (w_ip w0 = w_ip w)) as [Heq|Hneq].
      * rewrite Heq in Hreg. congruence.
      * rewrite lookup_insert_ne in * by done. done.
    + intros ip. rewrite lookup_insert. case_decide; subst; eauto.
Qed.

Lemma AddWorker_register now e1 e2 e3 ip public m :
  (exists err, (AddWorker now e1 e2 e3 ip public m) = (Some err, m) \/
               (AddWorker now e1 e2 e3 ip public m) = (Some err, m <| m_db ::= upsertWorker ip public |>)) \/
  let m' := m <| m_db ::= upsertWorker ip public |> in
  let public' := if decide (public = ""%string) then default ""%string (t_workers (m_db m') !! ip)
                 else public in
  ParseAddr ip = true /\
  AddWorker now e1 e2 e3 ip public m =
    (None, register (newWorkerConn now (m_nextConn m) ip public' false (m_launchConcurrency m)) m').
Proof.
  unfold AddWorker. destruct (ParseAddr ip); [|by eauto].
  destruct e1; [by eauto|]. case_decide; [destruct e2; [by eauto|]|];
    (destruct e3; [by eauto|]); simpl; right; (split; [done|]); unfold register; simpl;
    destruct (m_workers m !! ip); done.
Qed.

Lemma recoverWorker_register now e c m :
  recoverWorker now e c m = m \/
  exists w, m_conns m !! c = Some w /\ m_workers m !! w_ip w = Some c /\ w_reachable w <> workerDown /\
    recoverWorker now e c m =
      register ((newWorkerConn now (m_nextConn m) (w_ip w) (w_public w) true (m_launchConcurrency m))
                <| w_ejections := w_ejections w |>) m.
Proof.
  unfold recoverWorker. destruct (m_conns m !! c) as [w|] eqn:Hw; [|by left].
  case_decide as Hcur; [|by left]. case_decide; [by left|]. destruct e; [by left|].
  right. exists w. split_and!; try done. unfold register; simpl. rewrite Hcur.
  unfold onConn; simpl. by rewrite alter_insert_eq.
Qed.

Lemma fleet_ok_db m d :
  fleet_ok m -> (forall ip, is_Some (t_workers (m_db m) !! ip) -> is_Some (t_workers d !! ip)) ->
  fleet_ok (m <| m_db := d |>).
Proof. intros [] Hd. split; auto. Qed.

Lemma upsertWorker_rows ip public d ip' :
  is_Some (t_workers d !! ip') \/ ip' = ip -> is_Some (t_workers (upsertWorker ip public d) !! ip').
Proof.
  unfold upsertWorker; simpl. rewrite lookup_insert. case_decide; [eauto|]. naive_solver.
Qed.

Lemma upsertWorker_fleet_ok ip public m :
  fleet_ok m -> fleet_ok (m <| m_db ::= upsertWorker ip public |>).
Proof.
  intros Hm. apply (fleet_ok_db m (upsertWorker ip public (m_db m))); [done|].
  intros. apply upsertWorker_rows. by left.
Qed.

Lemma AddWorker_fleet_ok now e1 e2 e3 ip public m :
  fleet_ok m -> fleet_ok (AddWorker now e1 e2 e3 ip public m).2.
Proof.
  intros Hm. pose proof (upsertWorker_fleet_ok ip public m Hm) as Hm'.
  destruct (AddWorker_register now e1 e2 e3 ip public m) as [(err & [->| ->])|[_ ->]]; [done..|].
  apply register_fleet_ok; [done|apply newWorkerConn_ok|done..|].
  apply upsertWorker_rows. by right.
Qed.

Lemma recoverWorker_fleet_ok now e c m : fleet_ok m -> fleet_ok (recoverWorker now e c m).
Proof.
  intros Hm. destruct (recoverWorker_register now e c m) as [->|(w & Hw & Hcur & _ & ->)]; [done|].
  apply register_fleet_ok; [done| |done..|].
  - by apply (conn_ok_frame (newWorkerConn now (m_nextConn m) (w_ip w) (w_public w) true
      (m_launchConcurrency m))), newWorkerConn_ok.
  - apply (fo_rows m Hm). simpl. eauto.
Qed.

Lemma RemoveWorker_fleet_ok e ip m : fleet_ok m -> fleet_ok (RemoveWorker e ip m).2.
Proof.
  intros Hm. unfold RemoveWorker. destruct (m_workers m !! ip) as [c|] eqn:Hc; [|done].
  destruct e; [done|]. destruct Hm as [Ho Hk Hl Hcn Hs Hr].
  destruct (Hl _ _ Hc) as (w & Hw & Hip & Hcli & Hd). split; simpl.
  - auto with cork.
  - intros ip'. rewrite remove_first_elem by done. rewrite Hk, lookup_delete.
    case_decide; subst; [|naive_solver]. split; [naive_solver|by intros [? ?]].
  - intros ip' c'. rewrite lookup_delete. case_decide; [done|]. intros Hc'.
    destruct (Hl _ _ Hc') as (w' & Hw' & Hip' & ?). exists w'. split; [|done].
    rewrite lookup_alter_ne; [done|]. intros <-. congruence.
  - intros c' w'. rewrite lookup_alter. case_decide; subst.
    + rewrite Hw. intros; simplify_eq/=. split; [|by eapply Hcn].
      apply discard_ok; [by apply (Hcn _ _ Hw)|done].
    + apply Hcn.
  - intros c' w'. rewrite lookup_alter. case_decide; subst.
    + rewrite Hw. intros; simplify_eq/=. by rewrite Hd.
    + intros Hw' Hn. apply (Hs c' w' Hw'). intros Hreg. apply Hn.
      rewrite lookup_delete_ne; [done|]. intros Heq. rewrite <- Heq in Hreg. congruence.
  - intros ip'. rewrite !lookup_delete. case_decide; subst; [by intros [? ?]|]. auto.
Qed.

Lemma select_frame m m' r :
  selectWorker m = Some (m', r) -> exists k, m' = m <| m_rrCursor := k |>.
Proof.
  unfold selectWorker. case_decide; intros; simplify_eq; [by exists (m_rrCursor m'); destruct m'|].
  destruct (selectLoop _ _ _ _ _) as [[|[k ip]]|]; simplify_eq/=; [|by eauto].
  by exists (m_rrCursor m'); destruct m'.
Qed.

Lemma run_op_fleet_ok op m : fleet_ok m -> fleet_ok (run_op op m).
Proof.
  intros Hm. destruct op; simpl.
  - by apply AddWorker_fleet_ok.
  - by apply RemoveWorker_fleet_ok.
  - unfold SetWorkerDown. case_match; [|done]. by apply onConn_fleet_ok; [apply _|].
  - by apply recoverWorker_fleet_ok.
  - by apply onConn_fleet_ok; [apply _|].
  - by apply onConn_fleet_ok; [apply _|].
  - by apply onConn_fleet_ok; [apply _|].
  - by apply onConn_fleet_ok; [apply _|].
  - unfold noteWorkerTransportError. repeat case_match; try done; by apply onConn_fleet_ok; [apply _|].
  - destruct (selectWorker m) as [[m' r]|] eqn:E; [|done].
    apply select_frame in E as [k ->]. destruct Hm. by split.
Qed.

Lemma loadWorkers_fleet_ok now dialErr rows m :
  NoDup rows.*1 -> Forall (fun r => m_workers m !! r.1 = None) rows ->
  Forall (fun r => is_Some (t_workers (m_db m) !! r.1)) rows ->
  fleet_ok m -> fleet_ok (loadWorkers now dialErr rows m).2.
Proof.
  revert m. induction rows as [|[ip public] rows IH]; intros m Hnd Hnew Hrow Hm; [done|].
  simpl. unfold dialWorker. destruct (dialErr ip); [done|].
  inversion Hnd as [|? ? Hni Hnd']. inversion Hnew as [|? ? Hn Hnew']. inversion Hrow as [|? ? Hr Hrow'].
  subst. simpl in *. apply IH; [done| |done|].
  - apply Forall_forall. intros [ip' p'] Hin. simpl. rewrite lookup_insert_ne.
    + rewrite Forall_forall in Hnew'. by apply Hnew' in Hin.
    + intros <-. apply Hni, list_elem_of_fmap. by exists (ip, p').
  - pose proof (register_fleet_ok
      (newWorkerConn now (m_nextConn m) ip public false (m_launchConcurrency m)) m Hm) as Hreg.
    unfold register in Hreg. simpl in Hreg. rewrite Hn in Hreg.
    apply Hreg; auto with cork.
Qed.

Lemma initWorkers_fleet_ok now e dialErr d lc t lo hi :
  fleet_ok (initWorkers now e dialErr (bareManager d lc t lo hi)).2.
Proof.
  assert (fleet_ok (bareManager d lc t lo hi)) as Hbare.
  { split; simpl; try done; [apply NoDup_nil_2| |by intros ip [? ?]].
    intros ip. split; [by intros ?%elem_of_nil|by intros [? ?]]. }
  unfold initWorkers. destruct e; [done|]. apply loadWorkers_fleet_ok; [| | |exact Hbare].
  - apply NoDup_fst_map_to_list.
  - apply Forall_forall. done.
  - apply Forall_forall. intros [ip p] Hin%elem_of_map_to_list. simpl. eauto.
Qed.

Lemma run_ops_fleet_ok ops m : fleet_ok m -> fleet_ok (run_ops ops m).
Proof.
  unfold run_ops. revert m. induction ops as [|op ops IH]; intros m Hm; [done|].
  simpl. by apply IH, run_op_fleet_ok.
Qed.

(** C1. Whatever the database held at start and whatever operators, probes,
    launches and recoveries do in whatever order and with whatever failures,
    the registry stays sound: the placement order lists each registered worker
    once, every registered worker has a row and a live conn of its own, no
    conn's broadcast or stop channel is ever closed twice, and every conn that
    is no longer registered has had its poller stopped and its client closed. *)
Theorem fleet_invariant now selectErr dialErr d lc t lo hi ops :
  fleet_ok (run_ops ops (initWorkers now selectErr dialErr (bareManager d lc t lo hi)).2).
Proof. apply run_ops_fleet_ok, initWorkers_fleet_ok. Qed.

(** ** An asserted down *)

(** Operations that register or drop the worker at [ip]. *)
Definition re_registers (ip : string) (op : fleet_op) : bool :=
  match op with
  | OpAdd _ _ _ _ ip' _ | OpRemove _ ip' => bool_decide (ip' = ip)
  | _ => false
  end.

Definition asserted_down (ip : string) (c : nat) (m : Manager) : Prop :=
  exists w, lookupWorker m ip = Some (c, w) /\ w_reachable w = workerDown.

Lemma onConn_asserted_down c0 f ip c m :
  ConnOp f -> asserted_down ip c m -> asserted_down ip c (onConn c0 f m).
Proof.
  intros Hf (w & [Hc Hw]%lookupWorker_spec & Hd). destruct (decide (c = c0)) as [->|Hne].
  - exists (f w). split; [|by apply conn_op_down]. apply lookupWorker_spec. split; [done|].
    apply lookup_onConn_Some. naive_solver.
  - exists w. split; [|done]. apply lookupWorker_spec. split; [done|].
    apply lookup_onConn_Some. naive_solver.
Qed.

(** Registering a conn leaves every other worker's alone. *)
Lemma register_other w0 ip m :
  fleet_ok m -> ip <> w_ip w0 -> lookupWorker (register w0 m) ip = lookupWorker m ip.
Proof.
  intros Hm Hne. unfold lookupWorker, register.
  destruct (m_workers m !! w_ip w0) as [old|] eqn:Hold; simpl; rewrite lookup_insert_ne by done;
    destruct (m_workers m !! ip) as [c|] eqn:Hc; simpl; try done;
    destruct (fo_live m Hm _ _ Hc) as (w & Hw & Hip & _);
    assert (m_nextConn m <> c) by (intros <-; by eapply fleet_ok_fresh).
  - destruct (fo_live m Hm _ _ Hold) as (w1 & Hw1 & Hip1 & _).
    by rewrite lookup_alter_ne, lookup_insert_ne by congruence.
  - by rewrite lookup_insert_ne.
Qed.

Lemma register_asserted_down w0 ip c m :
  fleet_ok m -> w_ip w0 <> ip -> asserted_down ip c m -> asserted_down ip c (register w0 m).
Proof. intros Hm Hne (w & Hl & Hd). exists w. by rewrite register_other. Qed.

Lemma run_op_asserted_down op ip c m :
  fleet_ok m -> re_registers ip op = false -> asserted_down ip c m ->
  asserted_down ip c (run_op op m).
Proof.
  intros Hm Hop Hd. destruct op; simpl in *;
    try (apply onConn_asserted_down; [apply _|done]).
  - apply bool_decide_eq_false in Hop.
    destruct (AddWorker_register now execErr getErr dialErr ip0 public m) as [(err & [->| ->])|[_ ->]];
      [done..|].
    apply register_asserted_down; [by apply upsertWorker_fleet_ok|done|done].
  - apply bool_decide_eq_false in Hop. unfold RemoveWorker.
    destruct (m_workers m !! ip0) as [c0|] eqn:Hc0; [|done]. destruct txErr; [done|].
    destruct Hd as (w & [Hc Hw]%lookupWorker_spec & Hd). exists w. split; [|done].
    apply lookupWorker_spec; simpl. rewrite lookup_delete_ne by done. split; [done|].
    rewrite lookup_alter_ne; [done|]. intros ->.
    destruct (fo_live m Hm _ _ Hc0) as (? & ? & ? & _).
    destruct (fo_live m Hm _ _ Hc) as (? & ? & ? & _). congruence.
  - unfold SetWorkerDown. case_match; [|done]. by apply onConn_asserted_down; [apply _|].
  - destruct (recoverWorker_register now dialErr c0 m) as [->|(w & Hw & Hcur & Hnd & ->)]; [done|].
    apply register_asserted_down; [done| |done]. simpl. intros Heq.
    destruct Hd as (w' & [Hc Hw']%lookupWorker_spec & Hd). congruence.
  - unfold noteWorkerTransportError.
    repeat case_match; try done; by apply onConn_asserted_down; [apply _|].
  - destruct (selectWorker m) as [[m' r]|] eqn:E; [|done]. by apply select_frame in E as [k ->].
Qed.

(** ** Placement *)

Definition isPlaceable (m : Manager) (ip : string) : bool :=
  match lookupWorker m ip with Some (_, w) => placeable w | None => false end.
Definition workerIs (m : Manager) (r : workerReachable) (ip : string) : bool :=
  match lookupWorker m ip with Some (_, w) => bool_decide (w_reachable w = r) | None => false end.

(** The workers in the order the next placement looks at them. *)
Definition nextOrder (m : Manager) : list string := rotate (m_rrCursor m) (m_workerOrder m).

Lemma lookup_rotate {A} (l : list A) n i :
  (i < length l)%nat -> rotate n l !! i = l !! ((n + i) mod length l)%nat.
Proof.
  intros Hi. rewrite lookup_rotate_r by done. f_equal. unfold rotate_nat_add.
  rewrite <- Nat2Z.inj_add, <- Nat2Z.inj_mod. apply Nat2Z.id.
Qed.

Lemma rotate_nil {A} n : rotate n (@nil A) = [].
Proof. unfold rotate. by rewrite drop_nil, take_nil. Qed.

Lemma rotate_rotate {A} (l : list A) a b : rotate b (rotate a l) = rotate (a + b) l.
Proof.
  destruct (decide (l = [])) as [->|Hl]; [by rewrite !rotate_nil|].
  assert (length l <> 0%nat) by (by destruct l).
  apply list_eq_same_length with (n := length l); [by rewrite !length_rotate..|].
  intros i x y Hi. rewrite !lookup_rotate by (rewrite ?length_rotate; done).
  rewrite length_rotate, lookup_rotate by (apply Nat.mod_upper_bound; done).
  rewrite Nat.Div0.add_mod_idemp_r, Nat.add_assoc, (lookup_rotate l (a + b)) by done. congruence.
Qed.

Lemma rotate_mod {A} (l : list A) a : rotate (a mod length l) l = rotate a l.
Proof.
  destruct (decide (l = [])) as [->|Hl]; [by rewrite !rotate_nil|].
  unfold rotate. by rewrite Nat.Div0.mod_mod.
Qed.

Lemma rotate_past {A} (pre : list A) x post :
  rotate (length pre + 1) (pre ++ x :: post) = post ++ pre ++ [x].
Proof.
  unfold rotate. rewrite length_app, length_cons.
  destruct post as [|y post].
  - replace (length pre + 1)%nat with (length pre + S (length (@nil A)))%nat by (simpl; lia).
    rewrite Nat.Div0.mod_same. simpl. by rewrite app_nil_r.
  - rewrite Nat.mod_small by (simpl; lia).
    rewrite (cons_middle x pre), app_assoc.
    rewrite drop_app_length', take_app_length' by (rewrite length_app; simpl; lia). done.
Qed.

(** The errors of an exhausted fleet, by what its workers are. *)
Definition exhausted (over unresp : bool) : error :=
  if over then [ErrAllWorkersOverloaded]
  else if unresp then [ErrAllWorkersUnresponsive] else [ErrAllWorkersDown].

Lemma selectLoop_spec m k i over unresp :
  fleet_ok m -> (i + k = length (m_workerOrder m))%nat ->
  selectLoop m k i over unresp = Some
    match list_find (fun ip => isPlaceable m ip = true) (drop i (nextOrder m)) with
    | Some (j, ip) =>
      let n := length (m_workerOrder m) in
      inr ((((m_rrCursor m + (i + j)) mod n + 1) mod n)%nat, ip)
    | None =>
      inl (exhausted (over || existsb (workerIs m workerReachableOk) (drop i (nextOrder m)))
                     (unresp || existsb (workerIs m workerUnresponsive) (drop i (nextOrder m))))
    end.
Proof.
  intros Hm. revert i over unresp. induction k as [|k IH]; intros i over unresp Hik.
  - rewrite drop_ge by (unfold nextOrder; rewrite length_rotate; lia). simpl.
    by rewrite !orb_false_r.
  - assert (i < length (m_workerOrder m))%nat as Hi by lia.
    destruct (nextOrder m !! i) as [ip|] eqn:Hip;
      [|apply lookup_ge_None in Hip; unfold nextOrder in Hip; rewrite length_rotate in Hip; lia].
    rewrite (drop_S _ _ _ Hip). unfold nextOrder in Hip. rewrite lookup_rotate in Hip by done.
    assert (ip ∈ m_workerOrder m) as Hin by (by eapply list_elem_of_lookup_2).
    destruct (lookupWorker_live m ip Hm Hin) as (c & w & Hl & Hwip).
    assert (isPlaceable m ip = placeable w) as Hpl by (unfold isPlaceable; by rewrite Hl).
    assert (forall r, workerIs m r ip = bool_decide (w_reachable w = r)) as Hwi
      by (intros r; unfold workerIs; by rewrite Hl).
    cbn [selectLoop]. rewrite Hip. simpl. rewrite Hl. simpl. rewrite !Hwi.
    destruct (placeable w) eqn:Hp; case_decide; try congruence.
    + by rewrite Nat.add_0_r, Hwip.
    + rewrite IH by lia. f_equal.
      destruct (list_find _ (drop (S i) (nextOrder m))) as [[j ip']|]; simpl.
      * replace (i + S j)%nat with (S i + j)%nat by lia. done.
      * by rewrite !orb_assoc.
Qed.

Lemma list_find_split {A} (P : A -> Prop) `{!forall x, Decision (P x)} l j x :
  list_find P l = Some (j, x) ->
  exists pre post, l = pre ++ x :: post /\ length pre = j /\ P x /\ Forall (fun y => ~ P y) pre.
Proof.
  intros (Hj & Hx & Hpre)%list_find_Some. exists (take j l), (drop (S j) l).
  split_and!; [by rewrite take_drop_middle| |done|].
  - apply lookup_lt_Some in Hj. rewrite length_take. lia.
  - apply Forall_forall. intros y [i Hi]%list_elem_of_lookup.
    apply lookup_take_Some in Hi as [Hi ?]. by apply (Hpre i).
Qed.

(** What one placement does, for a fleet with workers in it. *)
Inductive select_result (m : Manager) : Manager * (error + string) -> Prop :=
| select_placed m' ip pre post :
    nextOrder m = pre ++ ip :: post -> isPlaceable m ip = true ->
    Forall (fun x => isPlaceable m x = false) pre ->
    (exists k, m' = m <| m_rrCursor := k |>) -> nextOrder m' = post ++ pre ++ [ip] ->
    select_result m (m', inr ip)
| select_exhausted :
    Forall (fun x => isPlaceable m x = false) (m_workerOrder m) ->
    select_result m (m, inl (exhausted (existsb (workerIs m workerReachableOk) (m_workerOrder m))
                                       (existsb (workerIs m workerUnresponsive) (m_workerOrder m)))).

Lemma existsb_rotate {A} (f : A -> bool) n l : existsb f (rotate n l) = existsb f l.
Proof.
  apply eq_bool_prop_intro. rewrite !Is_true_true, !existsb_exists.
  setoid_rewrite <- list_elem_of_In. by setoid_rewrite elem_of_rotate.
Qed.

Lemma existsb_false_Forall {A} (f : A -> bool) l :
  existsb f l = false <-> Forall (fun x => f x = false) l.
Proof.
  induction l as [|x l IH]; simpl; [split; [constructor|done]|].
  rewrite orb_false_iff, Forall_cons, IH. done.
Qed.

Lemma selectWorker_result m :
  fleet_ok m -> m_workerOrder m <> [] -> exists r, selectWorker m = Some r /\ select_result m r.
Proof.
  intros Hm Hne. unfold selectWorker. rewrite decide_False by (by destruct (m_workerOrder m)).
  rewrite selectLoop_spec by done. rewrite drop_0. simpl.
  destruct (list_find _ (nextOrder m)) as [[j ip]|] eqn:E; simpl; eexists; (split; [done|]).
  - apply list_find_split in E as (pre & post & Hl & <- & Hp & Hpre).
    apply (select_placed m _ ip pre post); [done|done| |by eauto|].
    + eapply Forall_impl; [exact Hpre|]. intros x Hx. by apply not_true_is_false.
    + unfold nextOrder at 1; simpl. rewrite rotate_mod.
      rewrite <- rotate_rotate, rotate_mod, <- rotate_rotate.
      fold (nextOrder m). rewrite rotate_rotate, Hl. apply rotate_past.
  - unfold nextOrder. rewrite !existsb_rotate. apply select_exhausted.
    apply list_find_None in E. apply Forall_forall. intros x Hx.
    rewrite Forall_forall in E. apply not_true_is_false, E. by apply elem_of_rotate.
Qed.

(** C4. An operator's word holds: a worker that was taken down stays
    registered under the same conn, down, and is never chosen for a placement,
    through any sequence of probes, ejections, recoveries, transport errors,
    admissions and changes to other workers; only a worker-add or
    worker-remove of that very worker ends it. *)
Theorem down_until_operator ops m ip c :
  fleet_ok m -> asserted_down ip c m ->
  Forall (fun op => re_registers ip op = false) ops ->
  asserted_down ip c (run_ops ops m) /\
  (forall m' ip', selectWorker (run_ops ops m) = Some (m', inr ip') -> ip' <> ip) /\
  workerUnreachable (run_ops ops m) ip = true.
Proof.
  intros Hm Hd Hops.
  assert (asserted_down ip c (run_ops ops m)) as Hd'.
  { revert m Hm Hd. unfold run_ops.
    induction Hops as [|op ops Hop Hops IH]; intros m Hm Hd; [done|]. simpl.
    apply IH; [by apply run_op_fleet_ok|by apply run_op_asserted_down]. }
  pose proof (run_ops_fleet_ok ops m Hm) as Hm'.
  destruct Hd' as (w & Hl & Hw). split_and!.
  - by exists w.
  - intros m' ip' Hsel ->. destruct (decide (m_workerOrder (run_ops ops m) = [])) as [Hn|Hn].
    + apply lookupWorker_spec in Hl as [Hc _].
      assert (ip ∈ m_workerOrder (run_ops ops m)) as Hin by (apply (fo_keys _ Hm'); eauto).
      rewrite Hn in Hin. by apply elem_of_nil in Hin.
    + destruct (selectWorker_result _ Hm' Hn) as (r & Hr & Hres). rewrite Hsel in Hr.
      simplify_eq. inversion Hres as [? ? pre post ? Hp|]. unfold isPlaceable in Hp.
      rewrite Hl in Hp. unfold placeable in Hp. rewrite Hw in Hp. done.
  - unfold workerUnreachable. rewrite Hl. unfold connUnreachable. by rewrite Hw.
Qed.

(** [selectWorker] never crashes on the registry and decides by the state
    of the fleet alone: with no workers it places locally; otherwise it picks
    the first worker in round-robin order that is reachable and not overloaded
    and leaves the cursor right after it; and it fails exactly when no worker
    qualifies, saying overloaded if any worker is reachable, else unresponsive
    if any is merely unresponsive, else down. *)
Theorem selectWorker_spec m :
  fleet_ok m ->
  exists m' r, selectWorker m = Some (m', r) /\
  match r with
  | inr ip =>
    (m_workerOrder m = [] /\ ip = ""%string /\ m' = m) \/
    exists pre post, nextOrder m = pre ++ ip :: post /\ isPlaceable m ip = true /\
      Forall (fun x => isPlaceable m x = false) pre /\ nextOrder m' = post ++ pre ++ [ip]
  | inl err =>
    m' = m /\ m_workerOrder m <> [] /\ Forall (fun x => isPlaceable m x = false) (m_workerOrder m) /\
    ((err = [ErrAllWorkersOverloaded] /\ exists x, x ∈ m_workerOrder m /\ workerIs m workerReachableOk x = true) \/
     (err = [ErrAllWorkersUnresponsive] /\
      (exists x, x ∈ m_workerOrder m /\ workerIs m workerUnresponsive x = true) /\
      Forall (fun x => workerIs m workerReachableOk x = false) (m_workerOrder m)) \/
     (err = [ErrAllWorkersDown] /\ Forall (fun x => workerIs m workerDown x = true) (m_workerOrder m)))
  end.
Proof.
  intros Hm. destruct (decide (m_workerOrder m = [])) as [Hn|Hn].
  { exists m, (inr ""%string). split; [|by left]. unfold selectWorker. by rewrite Hn. }
  destruct (selectWorker_result m Hm Hn) as ([m' r] & Hr & Hres). exists m', r. split; [done|].
  inversion Hres as [? ip pre post Hl Hp Hpre Hk Hnext|Hall]; subst.
  - right. by exists pre, post.
  - split_and!; try done. unfold exhausted.
    destruct (existsb (workerIs m' workerReachableOk) _) eqn:E1;
      [|destruct (existsb (workerIs m' workerUnresponsive) _) eqn:E2].
    + left. split; [done|]. apply existsb_exists in E1 as (x & Hx & ?).
      apply list_elem_of_In in Hx. eauto.
    + right; left. split_and!; [done| |].
      * apply existsb_exists in E2 as (x & Hx & ?). apply list_elem_of_In in Hx. eauto.
      * by apply existsb_false_Forall.
    + right; right. split; [done|]. apply existsb_false_Forall in E1, E2.
      apply Forall_forall. intros x Hx. rewrite Forall_forall in E1, E2.
      specialize (E1 x Hx). specialize (E2 x Hx).
      destruct (lookupWorker_live m' x Hm Hx) as (c & w & Hl & _).
      unfold workerIs in *. rewrite Hl in *. by destruct (w_reachable w).
Qed.

(** ** Fairness of the round robin *)

(** [k] placements in a row with nothing else happening. *)
Fixpoint selectMany (k : nat) (m : Manager) : list (error + string) :=
  match k with
  | O => []
  | S k => match selectWorker m with
           | Some (m', r) => r :: selectMany k m'
           | None => []
           end
  end.

Lemma filter_all_false {A} (f : A -> bool) l :
  Forall (fun x => f x = false) l -> filter (fun x => f x = true) l = [].
Proof.
  induction 1 as [|x l Hx _ IH]; [done|]. rewrite filter_cons_False; [done|congruence].
Qed.

Lemma selectMany_order m todo done_ m' :
  fleet_ok m -> (exists k, m' = m <| m_rrCursor := k |>) ->
  filter (fun ip => isPlaceable m ip = true) (nextOrder m') = todo ++ done_ ->
  selectMany (length todo) m' = inr <$> todo.
Proof.
  intros Hm. revert done_ m'.
  induction todo as [|ip todo IH]; intros done_ m' [k Hk] Hf; [done|].
  assert (fleet_ok m') as Hm' by (subst; by destruct Hm).
  assert (forall x, isPlaceable m' x = isPlaceable m x) as Hpl by (by subst).
  destruct (decide (m_workerOrder m' = [])) as [Hn|Hn].
  { unfold nextOrder in Hf. by rewrite Hn, rotate_nil in Hf. }
  destruct (selectWorker_result _ Hm' Hn) as (r & Hsel & Hres). cbn [selectMany length].
  rewrite Hsel. inversion Hres as [m2 ip2 pre post Hl Hp Hpre [k2 Hk2] Hnext|Hall Heq].
  - assert (filter (fun ip => isPlaceable m ip = true) pre = []) as Hpre0.
    { apply filter_all_false. eapply Forall_impl; [exact Hpre|]. intros x Hx. by rewrite <- Hpl. }
    rewrite Hpl in Hp.
    rewrite Hl, filter_app, filter_cons_True, Hpre0 in Hf by done.
    injection Hf as -> Hf. simpl. f_equal.
    apply (IH (done_ ++ [ip])); [exists k2; subst; done|].
    rewrite Hnext, !filter_app, filter_cons_True, Hpre0 by done.
    simpl. by rewrite Hf, app_assoc.
  - exfalso. assert (ip ∈ filter (fun ip => isPlaceable m ip = true) (nextOrder m'))
      as [Hp Hin]%list_elem_of_filter by (rewrite Hf; set_solver).
    apply elem_of_rotate in Hin. rewrite Forall_forall in Hall.
    specialize (Hall ip Hin). rewrite Hpl in Hall. congruence.
Qed.

(** The round robin is fair: as long as no worker changes state, as many
    consecutive placements as there are placeable workers go to each of them
    exactly once, whatever the cursor held before (also one left out of range
    by a worker-remove). *)
Theorem selectWorker_fair m :
  fleet_ok m ->
  exists ips, ips ≡ₚ filter (fun ip => isPlaceable m ip = true) (m_workerOrder m) /\ NoDup ips /\
    selectMany (length ips) m = inr <$> ips.
Proof.
  intros Hm. set (ips := filter (fun ip => isPlaceable m ip = true) (nextOrder m)).
  assert (ips ≡ₚ filter (fun ip => isPlaceable m ip = true) (m_workerOrder m)) as Hperm.
  { subst ips. unfold nextOrder, rotate. rewrite filter_app, Permutation_app_comm, <- filter_app.
    by rewrite take_drop. }
  exists ips. split_and!; [done| |].
  - rewrite Hperm. apply NoDup_filter, (fo_order m Hm).
  - apply (selectMany_order m ips [] m Hm).
    + exists (m_rrCursor m). by destruct m.
    + by rewrite app_nil_r.
Qed.

(** ** The registry operations, on every branch *)

(** A successful worker-add leaves the worker registered under a new conn
    that is out of placement until its reconcile, whose public address is the
    stored one (an empty argument keeps what was stored), with every other
    worker's conn untouched, and stops the conn it replaces. *)
Theorem AddWorker_registers now e1 e2 e3 ip public m m' :
  fleet_ok m -> AddWorker now e1 e2 e3 ip public m = (None, m') ->
  exists w, lookupWorker m' ip = Some (m_nextConn m, w) /\
    w_reachable w = workerUnresponsive /\ w_unreachCh w = chan_open /\ w_daemonFailed w = false /\
    t_workers (m_db m') !! ip = Some (w_public w) /\
    (public <> ""%string -> w_public w = public) /\
    (forall old, public = ""%string -> t_workers (m_db m) !! ip = Some old -> w_public w = old) /\
    (forall ip', ip' <> ip -> lookupWorker m' ip' = lookupWorker m ip') /\
    (forall c w0, lookupWorker m ip = Some (c, w0) ->
       exists w1, m_conns m' !! c = Some w1 /\ gone w1 = true /\ w_cliClosed w1 = true).
Proof.
  intros Hm Hadd.
  destruct (AddWorker_register now e1 e2 e3 ip public m) as [(err & [E|E])|[_ E]];
    rewrite E in Hadd; simplify_eq.
  set (m1 := m <| m_db ::= upsertWorker ip public |>) in *.
  set (w := newWorkerConn _ _ _ _ _ _) in *. exists w.
  assert (fleet_ok m1) as Hm1 by (by apply upsertWorker_fleet_ok).
  assert (t_workers (m_db m1) !! ip = Some (w_public w)) as Hrow.
  { subst m1 w. unfold upsertWorker; simpl. rewrite lookup_insert_eq. simpl.
    destruct (t_workers (m_db m) !! ip); case_decide; done. }
  assert (m_db (register w m1) = m_db m1) as Hdb by (unfold register; by destruct (m_workers m1 !! w_ip w)).
  split_and!; try done.
  - apply lookupWorker_spec. unfold register.
    destruct (m_workers m1 !! w_ip w) as [old|] eqn:Ho; simpl; rewrite lookup_insert_eq; (split; [done|]).
    + rewrite lookup_alter_ne; [by rewrite lookup_insert_eq|]. intros ->.
      destruct (fo_live _ Hm1 _ _ Ho) as (w0 & Hw0 & _). by eapply (fleet_ok_fresh m1).
    + by rewrite lookup_insert_eq.
  - by rewrite Hdb.
  - intros Hp. subst w; simpl. by rewrite decide_False.
  - intros old -> Hold. subst w; simpl. by rewrite Hold, lookup_insert_eq.
  - intros ip' Hne. by rewrite (register_other w ip' m1 Hm1 Hne).
  - intros c w0 [Hc Hw0]%lookupWorker_spec. exists (discard w0).
    destruct (fo_live _ Hm _ _ Hc) as (w1 & Hw1 & _ & _ & Hopen). simplify_eq.
    unfold register. assert (m_workers m1 !! w_ip w = Some c) as -> by done. simpl.
    rewrite lookup_alter_eq, lookup_insert_ne by (intros <-; by eapply (fleet_ok_fresh m)).
    rewrite Hw0. split_and!; [done| |done]. unfold gone; simpl. by rewrite Hopen.
Qed.

(** A worker-remove drops exactly the worker: its row, its registration
    and the records of its instances, with their ports and containers, and
    nothing of any other worker; an unknown worker is refused and a failing
    transaction changes nothing. *)
Theorem RemoveWorker_purges txErr ip m err m' :
  fleet_ok m -> db_ok (m_db m) -> RemoveWorker txErr ip m = (err, m') ->
  db_ok (m_db m') /\
  match m_workers m !! ip, txErr with
  | None, _ => err = Some (unknownWorkerError ip) /\ m' = m
  | Some _, Some e => err = Some e /\ m' = m
  | Some _, None =>
    err = None /\ ip ∉ m_workerOrder m' /\ lookupWorker m' ip = None /\
    t_workers (m_db m') !! ip = None /\ instancesOfWorker ip (m_db m') = [] /\
    (forall id r, t_instances (m_db m) !! id = Some r -> i_worker r <> ip ->
       t_instances (m_db m') !! id = Some r) /\
    (forall ip', ip' <> ip -> lookupWorker m' ip' = lookupWorker m ip' /\
                              t_workers (m_db m') !! ip' = t_workers (m_db m) !! ip')
  end.
Proof.
  intros Hm Hdb. unfold RemoveWorker.
  destruct (m_workers m !! ip) as [c|] eqn:Hc; [|by intros; simplify_eq].
  destruct txErr; intros Hrm; simplify_eq; [done|]. pose proof (deleteInstances_lookup
    (fun _ r => bool_decide (i_worker r = ip)) (m_db m)) as Hdel.
  assert (db_ok (deleteInstances (fun _ r => bool_decide (i_worker r = ip)) (m_db m))) as Hdb'
    by auto with cork.
  split_and!; try done.
  - by destruct Hdb'.
  - simpl. rewrite remove_first_elem by apply (fo_order m Hm). naive_solver.
  - unfold lookupWorker; simpl. by rewrite lookup_delete_eq.
  - simpl. apply lookup_delete_eq.
  - destruct (instancesOfWorker ip _) as [|id l] eqn:E; [done|exfalso].
    assert (id ∈ id :: l) as Hin by set_solver. rewrite <- E in Hin.
    apply instancesOfWorker_spec in Hin as (r & Hr & Hw).
    change (t_instances (deleteInstances (fun _ r => bool_decide (i_worker r = ip)) (m_db m)) !! id = Some r) in Hr.
    rewrite Hdel in Hr. case_match; [|done]. case_bool_decide; [done|]. congruence.
  - intros id r Hr Hw.
    change (t_instances (deleteInstances (fun _ r => bool_decide (i_worker r = ip)) (m_db m)) !! id = Some r).
    by rewrite Hdel, Hr, bool_decide_eq_false_2.
  - intros ip' Hne. split; [|simpl; by rewrite lookup_delete_ne].
    unfold lookupWorker; simpl. rewrite lookup_delete_ne by done.
    destruct (m_workers m !! ip') as [c'|] eqn:Hc'; simpl; [|done].
    rewrite lookup_alter_ne; [done|]. intros ->.
    destruct (fo_live m Hm _ _ Hc) as (? & ? & ? & _).
    destruct (fo_live m Hm _ _ Hc') as (? & ? & ? & _). congruence.
Qed.

(** ** A late error *)

(** An error says something about a worker only if it is a transport error
    of a call made on the worker's present connection, after its first
    reconcile: an API error, an error of a replaced connection, and one seen
    while the box still boots leave the whole fleet as it is.  Such an error
    ejects at once unless it is a timeout, and a timeout on a daemon that does
    not answer a ping ejects too. *)
Theorem transport_error_scope now pingErr worker cli err m c w :
  lookupWorker m worker = Some (c, w) ->
  let m' := noteWorkerTransportError now pingErr worker (Some cli) (Some err) m in
  (m' <> m -> worker <> ""%string /\ isTransportError (Some err) = true /\ cli = w_cli w /\ w_reconciled w = true) /\
  (worker <> ""%string -> isTransportError (Some err) = true -> cli = w_cli w -> w_reconciled w = true ->
   (errors_Is err DeadlineExceeded = false \/ is_Some pingErr) ->
   exists w', lookupWorker m' worker = Some (c, w') /\ w_probeNow w' = true /\
     w_reachable w' <> workerReachableOk /\ workerUnreachable m' worker = true).
Proof.
  intros Hl. cbv zeta. unfold noteWorkerTransportError. rewrite Hl.
  split.
  - repeat case_match; try done. intros _. split_and!; try done.
    destruct (decide (cli = w_cli w)); [done|]. exfalso.
    match goal with H : ~ (_ /\ _) |- _ => apply H end. split; [by eexists|congruence].
  - intros Hne -> -> -> Hwhy. rewrite decide_False by done.
    rewrite decide_False by (intros [_ ?]; done).
    assert (exists why, forall w0, noteOnConn now (timing (m_workerTiming m)) pingErr err w0 =
              (eject now w0 why) <| w_probeNow := true |>) as [why Hnote].
    { unfold noteOnConn. destruct (errors_Is err DeadlineExceeded); [|by eexists].
      destruct Hwhy as [?|[e ->]]; [done|by eexists]. }
    apply lookupWorker_spec in Hl as [Hc Hw].
    assert (lookupWorker (onConn c (noteOnConn now (timing (m_workerTiming m)) pingErr err) m) worker =
            Some (c, (eject now w why) <| w_probeNow := true |>)) as Hl'.
    { apply lookupWorker_spec. split; [done|]. apply lookup_onConn_Some. left.
      split; [done|]. exists w. by rewrite Hnote. }
    destruct (eject_out now w why) as (Hout & _ & Hun).
    eexists. split_and!; [exact Hl'|done|exact Hout|].
    unfold workerUnreachable. by rewrite Hl'.
Qed.

(** ** A fleet of two *)
Definition two_workers : Manager :=
  run_ops [OpAdd 5 None None None "10.0.0.1" "one.example"; OpAdd 6 None None None "10.0.0.2" "";
           OpAdmit 7 0; OpAdmit 8 1]
    (initWorkers 0 None (fun _ => None) (bareManager emptyDb 4 defaultWorkerTiming 30000 30100)).2.

Lemma two_workers_ok : fleet_ok two_workers.
Proof. apply run_ops_fleet_ok, initWorkers_fleet_ok. Qed.

Definition first_down : Manager := run_op (OpDown 9 "10.0.0.1") two_workers.

Lemma first_down_ok : fleet_ok first_down.
Proof. apply run_op_fleet_ok, two_workers_ok. Qed.

Lemma down_until_operator_witness :
  let ops := [OpEject 10 "ping" 0; OpRecover 11 None 0; OpAdmit 12 0; OpLoad workerLoadOk 0; OpSelect] in
  asserted_down "10.0.0.1" 0 (run_ops ops first_down).
Proof.
  refine (proj1 (down_until_operator _ first_down "10.0.0.1" 0 first_down_ok _ _)).
  - eexists. split; vm_compute; reflexivity.
  - repeat constructor.
Defined.

Lemma selectWorker_spec_witness :
  selectMany 3 two_workers = [inr "10.0.0.1"; inr "10.0.0.2"; inr "10.0.0.1"]%string /\
  exists m' r, selectWorker first_down = Some (m', r).
Proof.
  split; [vm_compute; reflexivity|].
  destruct (selectWorker_spec first_down first_down_ok) as (m' & r & H & _). eauto.
Defined.

Lemma selectWorker_fair_witness :
  exists ips, NoDup ips /\ selectMany (length ips) two_workers = inr <$> ips /\
    ips ≡ₚ ["10.0.0.1"; "10.0.0.2"]%string.
Proof.
  destruct (selectWorker_fair two_workers two_workers_ok) as (ips & Hp & Hn & Hs).
  exists ips. split_and!; [exact Hn|exact Hs|exact Hp].
Defined.

Lemma AddWorker_registers_witness :
  exists w, lookupWorker (AddWorker 9 None None None "10.0.0.1" "" two_workers).2 "10.0.0.1" = Some (2%nat, w) /\
    w_public w = "one.example"%string.
Proof.
  destruct (AddWorker_registers 9 None None None "10.0.0.1" "" two_workers _ two_workers_ok
    (surjective_pairing _)) as (w & Hl & _ & _ & _ & _ & _ & Hkeep & _).
  exists w. split; [exact Hl|]. apply Hkeep; vm_compute; reflexivity.
Defined.

Lemma two_workers_db_ok : db_ok (m_db two_workers).
Proof.
  split; try done; try (by vm_compute); try apply Forall_nil_2; try apply NoDup_nil_2.
Qed.

Lemma RemoveWorker_purges_witness :
  let m' := (RemoveWorker None "10.0.0.2" two_workers).2 in
  db_ok (m_db m') /\ m_workerOrder m' = ["10.0.0.1"]%string.
Proof.
  split; [|vm_compute; reflexivity].
  exact (proj1 (RemoveWorker_purges None "10.0.0.2" two_workers _ _ two_workers_ok two_workers_db_ok
    (surjective_pairing _))).
Defined.

Lemma transport_error_scope_witness :
  let m' := noteWorkerTransportError 20 None "10.0.0.1" (Some 0%nat) (Some [NetError]) two_workers in
  workerUnreachable m' "10.0.0.1" = true /\ workerUnreachable two_workers "10.0.0.1" = false.
Proof.
  split; [|vm_compute; reflexivity].
  destruct (lookupWorker two_workers "10.0.0.1") as [[c w]|] eqn:E; [|vm_compute in E; discriminate].
  assert (w_cli w = 0%nat /\ w_reconciled w = true) as [Hc Hr].
  { vm_compute in E. injection E as <- <-. split; reflexivity. }
  destruct (proj2 (transport_error_scope 20 None "10.0.0.1" 0 [NetError] two_workers c w E)) as (w' & _ & _ & _ & H);
    [discriminate|reflexivity|symmetry; exact Hc|exact Hr|left; reflexivity|exact H].
Defined.
