(* ===== verification/Probe.v ===== *)
(** * Probe: the poller of one worker

    [pollWorker] of [cork/workers.go]: the state its loop keeps between ticks
    and the [probe] closure it runs on every tick and on every nudge.  A probe
    is given what its outside calls return (telemetry, ping, container list)
    and the clock; the fleet it works on is the shared [Manager], which other
    goroutines change between two probes ([fleet_op]). *)
From S2P Require Import Prelude Types Settings Queue Worker Database Fleet.
Local Open Scope Z_scope.

Record pollState := mkPoll {
  ps_loadMisses : Z;
  ps_misses : Z;
  ps_goodProbes : Z;
  ps_lastDeep : option Z;           (* None is the zero time *)
  ps_lastDecay : Z;
  ps_deepWedged : bool;
  ps_missReason : string;
  ps_lastSeen : workerReachable }.
#[export] Instance eta_pollState : Eta pollState := fun s =>
  mkPoll (ps_loadMisses s) (ps_misses s) (ps_goodProbes s) (ps_lastDeep s) (ps_lastDecay s)
    (ps_deepWedged s) (ps_missReason s) (ps_lastSeen s).

Definition pollStart (now : Z) (seen : workerReachable) : pollState :=
  mkPoll 0 0 0 None now false ""%string seen.

(** What one probe meets: the clock before and after its calls, telemetry's
    answer, the ping, the container list, and whether a recovery can dial. *)
Record probeIn := mkProbe {
  in_now : Z;
  in_after : Z;
  in_telemetry : error + bool;
  in_ping : option error;
  in_deep : option error;
  in_dial : option error }.

Definition probeReason (deep : bool) : string :=
  if deep then "dockerd answered /_ping but could not list containers"
  else "dockerd did not answer".

(** [pollTelemetry]: the answer's status and decoded body. *)
Definition pollTelemetry (get : error + (Z * option bool)) : error + bool :=
  match get with
  | inl err => inl err
  | inr (status, body) =>
    if decide (status <> 200) then inl [OtherError "telemetry returned status"]
    else match body with
         | None => inl [OtherError "decode"]
         | Some overloaded => inr overloaded
         end
  end.

(** Whether the container list runs on this probe, and the verdict. *)
Definition deepDue (t : workerTiming) (i : probeIn) (s : pollState) : bool :=
  bool_decide (in_ping i = None) &&
  (ps_deepWedged s ||
   match ps_lastDeep s with
   | None => true
   | Some at_ => bool_decide (deepProbeInterval t <= in_now i - at_)
   end).
Definition probeErr (t : workerTiming) (i : probeIn) (s : pollState) : option error :=
  if deepDue t i s then in_deep i else in_ping i.

(** Noticing an ejection made under the loop. *)
Definition noticeEjection (w : workerConn) (s : pollState) : pollState :=
  let cur := w_reachable w in
  if decide (cur = ps_lastSeen s) then s
  else (if decide (cur = workerReachableOk) then s else s <| ps_goodProbes := 0 |>)
       <| ps_lastSeen := cur |>.

(** The load axis of a probe. *)
Definition probeLoad (t : workerTiming) (i : probeIn) (s : pollState) : pollState * option workerLoad :=
  match in_telemetry i with
  | inl _ =>
    let s := s <| ps_loadMisses ::= (fun n => n + 1) |> in
    (s, if decide (loadMisses t <= ps_loadMisses s) then Some workerLoadUnknown else None)
  | inr overloaded =>
    (s <| ps_loadMisses := 0 |>, Some (if overloaded : bool then workerOverloaded else workerLoadOk))
  end.

(** The reachability axis: the counters after the ping and the list. *)
Definition probeDaemon (t : workerTiming) (i : probeIn) (s : pollState) : pollState :=
  let deep := deepDue t i s in
  let err := probeErr t i s in
  let s := if deep then s <| ps_lastDeep := Some (in_after i) |>
                          <| ps_deepWedged := bool_decide (is_Some (in_deep i)) |> else s in
  match err with
  | Some _ => s <| ps_goodProbes := 0 |> <| ps_misses ::= (fun n => n + 1) |>
                <| ps_missReason := probeReason deep |>
  | None => s <| ps_misses := 0 |> <| ps_goodProbes ::= (fun n => n + 1) |>
  end.

Definition probe (i : probeIn) (c : nat) (s : pollState) (m : Manager) : pollState * Manager :=
  let t := timing (m_workerTiming m) in
  match m_conns m !! c with
  | None => (s, m)
  | Some w =>
    if decide (w_reachable w = workerDown) then (s, m)
    else
      let s := noticeEjection w s in
      let '(s, load) := probeLoad t i s in
      let m := match load with Some l => onConn c (fun w => setLoad w l) m | None => m end in
      let s := probeDaemon t i s in
      if decide (0 < ps_misses s) then
        if decide (maxMisses t <= ps_misses s) then
          let m := onConn c (fun w => eject (in_after i) w (ps_missReason s)) m in
          (match m_conns m !! c with
           | Some w => s <| ps_lastSeen := w_reachable w |>
           | None => s
           end, m)
        else (s, m)
      else if decide (w_reachable w = workerReachableOk) then
        if decide (0 < w_ejections w /\ ejectionDecay t <= in_after i - ps_lastDecay s)
        then (s <| ps_lastDecay := in_after i |>, onConn c forgive m)
        else (s, m)
      else if readyToRecover t (in_after i) w (ps_goodProbes s)
           then (s, recoverWorker (in_after i) (in_dial i) c m)
           else (s, m)
  end.

(** A tick of [pollWorker]'s loop: what the rest of the system does before it,
    whether the nudge channel fired rather than the ticker, and its probe. *)
Record tick := mkTick { tk_others : list fleet_op; tk_nudged : bool; tk_probe : probeIn }.

Definition takeNudge (w : workerConn) : workerConn := w <| w_probeNow := false |>.

(** The loop; a conn that is gone is polled no more. *)
Fixpoint pollLoop (c : nat) (ticks : list tick) (s : pollState) (m : Manager) : pollState * Manager :=
  match ticks with
  | [] => (s, m)
  | k :: ticks =>
    let m := run_ops (tk_others k) m in
    match m_conns m !! c with
    | None => (s, m)
    | Some w =>
      if gone w then (s, m)
      else
        let m := if tk_nudged k then onConn c takeNudge m else m in
        let '(s, m) := probe (tk_probe k) c s m in
        pollLoop c ticks s m
    end
  end.
Definition pollWorker (now : Z) (c : nat) (first : probeIn) (ticks : list tick) (m : Manager)
    : pollState * Manager :=
  match m_conns m !! c with
  | None => (pollStart now workerUnresponsive, m)
  | Some w => let '(s, m) := probe first c (pollStart now (w_reachable w)) m in pollLoop c ticks s m
  end.

(** ** Verdicts *)

Lemma noticeEjection_frame w s :
  let s' := noticeEjection w s in
  ps_misses s' = ps_misses s /\ ps_deepWedged s' = ps_deepWedged s /\
  ps_lastDeep s' = ps_lastDeep s /\ ps_lastDecay s' = ps_lastDecay s /\
  ps_loadMisses s' = ps_loadMisses s /\
  (w_reachable w = ps_lastSeen s -> s' = s).
Proof. unfold noticeEjection. repeat case_decide; done. Qed.

Lemma probeLoad_frame t i s :
  exists n, (probeLoad t i s).1 = s <| ps_loadMisses := n |>.
Proof. unfold probeLoad. destruct (in_telemetry i); eexists; done. Qed.

Lemma probeErr_frame t i s s' :
  ps_deepWedged s' = ps_deepWedged s -> ps_lastDeep s' = ps_lastDeep s ->
  probeErr t i s' = probeErr t i s.
Proof. unfold probeErr, deepDue. by intros -> ->. Qed.

Lemma probeDaemon_counts t i s :
  ps_misses (probeDaemon t i s) = (match probeErr t i s with Some _ => ps_misses s + 1 | None => 0 end) /\
  ps_goodProbes (probeDaemon t i s) = (match probeErr t i s with Some _ => 0 | None => ps_goodProbes s + 1 end) /\
  ps_lastSeen (probeDaemon t i s) = ps_lastSeen s /\ ps_lastDecay (probeDaemon t i s) = ps_lastDecay s.
Proof. unfold probeDaemon. destruct (deepDue t i s), (probeErr t i s); done. Qed.

(** The counters a probe of a conn ends with, in one place. *)
Definition afterProbe (t : workerTiming) (i : probeIn) (w : workerConn) (s : pollState) : pollState :=
  probeDaemon t i (probeLoad t i (noticeEjection w s)).1.

Lemma afterProbe_counts t i w s :
  ps_misses (afterProbe t i w s) = (match probeErr t i s with Some _ => ps_misses s + 1 | None => 0 end) /\
  ps_goodProbes (afterProbe t i w s) =
    (match probeErr t i s with Some _ => 0 | None => ps_goodProbes (noticeEjection w s) + 1 end).
Proof.
  unfold afterProbe. destruct (noticeEjection_frame w s) as (Hm & Hd & Hl & _).
  destruct (probeLoad_frame t i (noticeEjection w s)) as [n ->].
  destruct (probeDaemon_counts t i ((noticeEjection w s) <| ps_loadMisses := n |>)) as (-> & -> & _).
  rewrite (probeErr_frame t i s) by (simpl; done). simpl. by rewrite Hm.
Qed.

(** The load a probe settles, if it does. *)
Definition loadVerdict (t : workerTiming) (i : probeIn) (s : pollState) : option workerLoad :=
  (probeLoad t i s).2.
Definition applyLoad (c : nat) (l : option workerLoad) (m : Manager) : Manager :=
  match l with Some l => onConn c (fun w => setLoad w l) m | None => m end.

(** A probe is the load verdict followed by one of four outcomes. *)
Inductive outcome := Ejected | Forgiven | Recovered | Nothing.
Definition probeOutcome (t : workerTiming) (i : probeIn) (w : workerConn) (s : pollState) : outcome :=
  let s' := afterProbe t i w s in
  if decide (0 < ps_misses s') then
    if decide (maxMisses t <= ps_misses s') then Ejected else Nothing
  else if decide (w_reachable w = workerReachableOk) then
    if decide (0 < w_ejections w /\ ejectionDecay t <= in_after i - ps_lastDecay s')
    then Forgiven else Nothing
  else if readyToRecover t (in_after i) w (ps_goodProbes s') then Recovered else Nothing.

Definition applyOutcome (i : probeIn) (c : nat) (reason : string) (o : outcome) (m : Manager) : Manager :=
  match o with
  | Ejected => onConn c (fun w => eject (in_after i) w reason) m
  | Forgiven => onConn c forgive m
  | Recovered => recoverWorker (in_after i) (in_dial i) c m
  | Nothing => m
  end.

Lemma probe_outcome i c s m w :
  m_conns m !! c = Some w -> w_reachable w <> workerDown ->
  let t := timing (m_workerTiming m) in
  let s' := afterProbe t i w s in
  (probe i c s m).2 =
    applyOutcome i c (ps_missReason s') (probeOutcome t i w s)
      (applyLoad c (loadVerdict t i (noticeEjection w s)) m) /\
  ps_misses (probe i c s m).1 = ps_misses s' /\
  ps_goodProbes (probe i c s m).1 = ps_goodProbes s' /\
  ps_loadMisses (probe i c s m).1 = ps_loadMisses s'.
Proof.
  intros Hw Hd. unfold probe, probeOutcome, afterProbe, loadVerdict, applyLoad. rewrite Hw.
  rewrite decide_False by done. simpl.
  destruct (probeLoad _ i (noticeEjection w s)) as [s1 l]; simpl.
  repeat case_decide; try done.
  - by case_match.
  - by case_match.
Qed.

Definition failing (t : workerTiming) (i : probeIn) (s : pollState) : bool :=
  bool_decide (is_Some (probeErr t i s)).

Lemma applyLoad_lookup c l m w :
  m_conns m !! c = Some w ->
  exists w', m_conns (applyLoad c l m) !! c = Some w' /\
    w_reachable w' = w_reachable w /\ w_ejections w' = w_ejections w /\ w_since w' = w_since w /\
    w_ip w' = w_ip w /\ w_public w' = w_public w /\ w_retired w' = w_retired w.
Proof.
  intros Hw. destruct l as [l|]; [|by exists w]. exists (setLoad w l). split; [|done].
  simpl. apply lookup_onConn_Some. left. split; [done|]. eauto.
Qed.

Lemma eject_from_ok now w reason :
  w_reachable w = workerReachableOk -> w_reachable (eject now w reason) = workerUnresponsive.
Proof. run_conn w; by destruct fr, df. Qed.

(** What a probe does to a worker in placement. *)
Lemma probe_ejects i c s m w :
  m_conns m !! c = Some w -> w_reachable w = workerReachableOk -> 0 <= ps_misses s ->
  let t := timing (m_workerTiming m) in
  exists w', m_conns (probe i c s m).2 !! c = Some w' /\
    w_reachable w' = (if failing t i s && bool_decide (maxMisses t <= ps_misses s + 1)
                      then workerUnresponsive else workerReachableOk) /\
    ps_misses (probe i c s m).1 = (if failing t i s then ps_misses s + 1 else 0).
Proof.
  intros Hw Hok Hm t.
  destruct (probe_outcome i c s m w Hw) as (-> & -> & _); [congruence|].
  destruct (afterProbe_counts t i w s) as [Hmiss _].
  set (m1 := applyLoad _ _ m). destruct (applyLoad_lookup c
    (loadVerdict (timing (m_workerTiming m)) i (noticeEjection w s)) m w Hw) as (w1 & Hw1 & Hr1 & _).
  fold m1 in Hw1. fold t. unfold probeOutcome, failing. rewrite Hmiss.
  destruct (probeErr t i s) as [e|] eqn:He; simpl.
  - rewrite decide_True by lia. case_decide as Hmax; simpl.
    + exists (eject (in_after i) w1 (ps_missReason (afterProbe t i w s))). split_and!; [| |done];
        [|rewrite bool_decide_eq_true_2 by done; apply eject_from_ok; congruence].
      apply lookup_onConn_Some. left. split; [done|]. eauto.
    + exists w1. rewrite bool_decide_eq_false_2 by done. by rewrite Hr1.
  - rewrite decide_True by done.
    case_decide; simpl.
    + exists (forgive w1). split_and!; [|simpl; congruence|done].
      apply lookup_onConn_Some. left. split; [done|]. eauto.
    + exists w1. by rewrite Hr1.
Qed.

(** What a probe does to a worker in placement: it is ejected exactly when
    this probe failed and is the [maxMisses]-th failure in a row; otherwise it
    stays in placement.  A probe fails when the ping does, or when the
    container list it was due to make does, and any success starts the count
    again.  What telemetry said plays no part. *)
Theorem probe_ejects_on_misses i c s m w :
  m_conns m !! c = Some w -> w_reachable w = workerReachableOk -> 0 <= ps_misses s ->
  let t := timing (m_workerTiming m) in
  exists w', m_conns (probe i c s m).2 !! c = Some w' /\
    w_reachable w' = (if failing t i s && bool_decide (maxMisses t <= ps_misses s + 1)
                      then workerUnresponsive else workerReachableOk) /\
    ps_misses (probe i c s m).1 = (if failing t i s then ps_misses s + 1 else 0).
Proof. apply probe_ejects. Qed.

(** [k] probes in a row of a worker nobody else touches. *)
Fixpoint probes (is_ : list probeIn) (c : nat) (s : pollState) (m : Manager) : pollState * Manager :=
  match is_ with
  | [] => (s, m)
  | i :: is_ => let '(s, m) := probe i c s m in probes is_ c s m
  end.

(** Every probe of the run fails, judged at its turn. *)
Fixpoint all_failing (is_ : list probeIn) (c : nat) (s : pollState) (m : Manager) : bool :=
  match is_ with
  | [] => true
  | i :: is_ =>
    failing (timing (m_workerTiming m)) i s &&
    let '(s, m) := probe i c s m in all_failing is_ c s m
  end.

Lemma probe_timing i c s m : m_workerTiming (probe i c s m).2 = m_workerTiming m.
Proof.
  unfold probe. destruct (m_conns m !! c); [|done]. case_decide; [done|].
  destruct (probeLoad _ _ _) as [s1 l]. assert (forall m1, m_workerTiming m1 = m_workerTiming m ->
    m_workerTiming (recoverWorker (in_after i) (in_dial i) c m1) = m_workerTiming m) as Hrec.
  { intros m1 H1. destruct (recoverWorker_register (in_after i) (in_dial i) c m1) as [->|(? & _ & _ & _ & ->)];
      [done|]. unfold register. by case_match. }
  repeat case_match; simpl; try done; auto.
Qed.

(** A worker that is already out stays out while probes go on failing. *)
Lemma probe_stays_out i c s m w :
  m_conns m !! c = Some w -> w_reachable w = workerUnresponsive -> 0 <= ps_misses s ->
  failing (timing (m_workerTiming m)) i s = true ->
  exists w', m_conns (probe i c s m).2 !! c = Some w' /\ w_reachable w' = workerUnresponsive /\
    ps_misses (probe i c s m).1 = ps_misses s + 1.
Proof.
  intros Hw Hun Hm Hf. set (t := timing (m_workerTiming m)) in *.
  destruct (probe_outcome i c s m w Hw) as (-> & -> & _); [congruence|].
  destruct (afterProbe_counts t i w s) as [Hmiss _]. fold t. unfold failing in Hf.
  apply bool_decide_eq_true in Hf as [e He]. rewrite He in Hmiss.
  destruct (applyLoad_lookup c (loadVerdict t i (noticeEjection w s)) m w Hw) as (w1 & Hw1 & Hr1 & _).
  unfold probeOutcome. rewrite Hmiss, decide_True by lia. case_decide; simpl; [|exists w1; by rewrite Hr1].
  eexists. split_and!; [apply lookup_onConn_Some; left; eauto| |done].
  rewrite Hun in Hr1. clear -Hr1. run_conn w1; by destruct fr, df.
Qed.

(** A daemon that stops answering costs the worker its placement after
    exactly [maxMisses] probes: a run of failing probes on a worker in
    placement leaves it there while it is shorter, and out once it is as long,
    whether the pings fail or the container lists. *)
Theorem failing_probes_eject is_ c s m w :
  m_conns m !! c = Some w -> w_reachable w = workerReachableOk -> ps_misses s = 0 ->
  1 <= maxMisses (timing (m_workerTiming m)) ->
  all_failing is_ c s m = true ->
  exists w', m_conns (probes is_ c s m).2 !! c = Some w' /\
    w_reachable w' = if decide (Z.of_nat (length is_) < maxMisses (timing (m_workerTiming m)))
                     then workerReachableOk else workerUnresponsive.
Proof.
  intros Hw Hok Hs Ht Hall.
  assert (w_reachable w = if decide (ps_misses s < maxMisses (timing (m_workerTiming m)))
                          then workerReachableOk else workerUnresponsive) as Hr
    by (rewrite decide_True by lia; done).
  replace (Z.of_nat (length is_)) with (ps_misses s + Z.of_nat (length is_)) by lia.
  assert (0 <= ps_misses s) as Hpos by lia. clear Hok Hs.
  revert s m w Hw Hr Hpos Ht Hall. induction is_ as [|i is_ IH]; intros s m w Hw Hr Hpos Ht Hall.
  { exists w. simpl. by rewrite Z.add_0_r. }
  cbn [all_failing] in Hall. apply andb_true_iff in Hall as [Hf Hall].
  cbn [probes]. pose proof (probe_timing i c s m) as Htm.
  assert (exists w', m_conns (probe i c s m).2 !! c = Some w' /\
    ps_misses (probe i c s m).1 = ps_misses s + 1 /\
    w_reachable w' = if decide (ps_misses s + 1 < maxMisses (timing (m_workerTiming m)))
                     then workerReachableOk else workerUnresponsive) as (w' & Hw' & Hm' & Hr').
  { case_decide as Hlt.
    - destruct (probe_ejects i c s m w Hw Hr Hpos) as (w' & ? & ? & ?).
      rewrite Hf in *. exists w'. split_and!; [done|done|].
      destruct (decide (ps_misses s + 1 < maxMisses (timing (m_workerTiming m)))).
      + by rewrite bool_decide_eq_false_2 in * by lia.
      + by rewrite bool_decide_eq_true_2 in * by lia.
    - destruct (probe_stays_out i c s m w Hw Hr Hpos Hf) as (w' & ? & ? & ?).
      exists w'. rewrite decide_False by lia. done. }
  destruct (probe i c s m) as [s' m']; simpl in *.
  destruct (IH s' m' w' Hw') as (w2 & Hw2 & Hr2); [by rewrite Htm, Hm'|lia|by rewrite Htm|done|].
  exists w2. split; [done|]. rewrite Hr2, Htm, Hm'. simpl.
  replace (ps_misses s + 1 + Z.of_nat (length is_)) with (ps_misses s + Z.of_nat (S (length is_))) by lia.
  done.
Qed.

(** ** Telemetry drives the load and nothing else

    Two fleets that differ in their workers' loads only. *)
Definition forgetLoad (m : Manager) : Manager :=
  m <| m_conns ::= fmap (fun w => setLoad w workerLoadUnknown) |>.
Definition but_load (m1 m2 : Manager) : Prop := forgetLoad m1 = forgetLoad m2.
#[export] Instance but_load_equiv : Equivalence but_load.
Proof. unfold but_load. split; [done| |]; intros ? **; congruence. Qed.

(** Operations of a conn that neither read nor write its load. *)
Class LoadBlind (f : workerConn -> workerConn) : Prop :=
  load_blind w l : f (setLoad w l) = setLoad (f w) l.
#[export] Instance eject_load_blind now reason : LoadBlind (fun w => eject now w reason).
Proof. intros w l. unfold setLoad. run_conn w; by destruct fr, df. Qed.
#[export] Instance forgive_load_blind : LoadBlind forgive.
Proof. done. Qed.
#[export] Instance discard_load_blind : LoadBlind discard.
Proof. done. Qed.

Lemma forgetLoad_onConn c f m : LoadBlind f -> forgetLoad (onConn c f m) = onConn c f (forgetLoad m).
Proof.
  intros Hf. unfold forgetLoad, onConn; simpl. f_equal.
  apply map_eq. intros c'. rewrite lookup_alter, !lookup_fmap, lookup_alter.
  case_decide; subst; [|done]. destruct (m_conns m !! c') as [w|]; simpl; [|done].
  f_equal. symmetry. apply load_blind.
Qed.

#[export] Instance onConn_but_load c f : LoadBlind f -> Proper (but_load ==> but_load) (onConn c f).
Proof. intros Hf m1 m2 H. unfold but_load. rewrite !forgetLoad_onConn by done. by rewrite H. Qed.

Lemma setLoad_but_load c l m : but_load (onConn c (fun w => setLoad w l) m) m.
Proof.
  unfold but_load, forgetLoad, onConn; simpl. f_equal. apply map_eq. intros c'.
  rewrite !lookup_fmap, lookup_alter. case_decide; subst; [|done].
  by destruct (m_conns m !! c').
Qed.

(** A registration commutes with forgetting loads. *)
Lemma forgetLoad_register w m :
  w_load w = workerLoadUnknown -> forgetLoad (register w m) = register w (forgetLoad m).
Proof.
  intros Hl. unfold register. simpl.
  destruct (m_workers m !! w_ip w) as [old|]; simpl.
  - unfold forgetLoad, onConn; simpl. f_equal.
    apply map_eq. intros c. rewrite lookup_fmap, !lookup_alter, !lookup_insert, !lookup_fmap.
    assert (setLoad w workerLoadUnknown = w) by (unfold setLoad; destruct w; simpl in *; by subst).
    repeat case_decide; subst; simpl; try congruence; try (destruct (m_conns m !! _); done).
    rewrite <- (discard_load_blind w). congruence.
  - unfold forgetLoad; simpl. f_equal. rewrite fmap_insert. f_equal.
    unfold setLoad. destruct w; simpl in *; by subst.
Qed.

Lemma lookup_forgetLoad m c :
  m_conns (forgetLoad m) !! c = (fun w => setLoad w workerLoadUnknown) <$> m_conns m !! c.
Proof. apply lookup_fmap. Qed.

#[export] Instance recoverWorker_but_load now e c : Proper (but_load ==> but_load) (recoverWorker now e c).
Proof.
  assert (forall m, forgetLoad (recoverWorker now e c m) = recoverWorker now e c (forgetLoad m)) as H.
  { intros m. unfold recoverWorker at 2. rewrite lookup_forgetLoad. unfold recoverWorker.
    destruct (m_conns m !! c) as [w|] eqn:Hw; simpl; [|done].
    repeat case_decide; try done. destruct e; [done|].
    pose proof (forgetLoad_register ((newWorkerConn now (m_nextConn m) (w_ip w) (w_public w) true
      (m_launchConcurrency m)) <| w_ejections := w_ejections w |>) m eq_refl) as Hreg.
    unfold register in Hreg. simpl in Hreg. rewrite H in Hreg. simpl.
    unfold onConn in *; simpl in *. rewrite !alter_insert_eq. exact Hreg. }
  intros m1 m2 Hm. unfold but_load. rewrite !H. by rewrite Hm.
Qed.

Lemma applyLoad_but_load c l m : but_load (applyLoad c l m) m.
Proof. destruct l; [apply setLoad_but_load|done]. Qed.

#[export] Instance applyOutcome_but_load i c reason o :
  Proper (but_load ==> but_load) (applyOutcome i c reason o).
Proof.
  destruct o; intros m1 m2 Hm; simpl; [| | |done].
  - by apply (onConn_but_load c (fun w => eject (in_after i) w reason) _).
  - by apply (onConn_but_load c forgive _).
  - by apply recoverWorker_but_load.
Qed.

(** Telemetry says nothing about a worker's place in the fleet: two probes
    that differ in telemetry's answer only (silence, a failure, overloaded or
    not) leave fleets that differ in the workers' loads only: the same workers
    ejected, forgiven and recovered, the same registry. *)
Theorem telemetry_only_load i telemetry c s m :
  but_load (probe i c s m).2
           (probe (mkProbe (in_now i) (in_after i) telemetry (in_ping i) (in_deep i) (in_dial i)) c s m).2.
Proof.
  set (i' := mkProbe _ _ _ _ _ _).
  destruct (m_conns m !! c) as [w|] eqn:Hw; [|unfold probe; by rewrite Hw].
  destruct (decide (w_reachable w = workerDown)) as [Hd|Hd].
  { unfold probe. rewrite Hw. by rewrite !decide_True. }
  destruct (probe_outcome i c s m w Hw Hd) as (-> & _).
  destruct (probe_outcome i' c s m w Hw Hd) as (-> & _).
  set (t := timing (m_workerTiming m)).
  assert (exists n, afterProbe t i' w s = (afterProbe t i w s) <| ps_loadMisses := n |>) as [n Hn].
  { unfold afterProbe. destruct (probeLoad_frame t i (noticeEjection w s)) as [n ->].
    destruct (probeLoad_frame t i' (noticeEjection w s)) as [n' ->]. exists n'.
    unfold probeDaemon. change (deepDue t i' ?x) with (deepDue t i x).
    change (probeErr t i' ?x) with (probeErr t i x).
    set (s1 := (noticeEjection w s) <| ps_loadMisses := n |>).
    set (s2 := (noticeEjection w s) <| ps_loadMisses := n' |>).
    assert (deepDue t i s2 = deepDue t i s1) as -> by done.
    assert (probeErr t i s2 = probeErr t i s1) as -> by done.
    by destruct (deepDue t i s1), (probeErr t i s1). }
  assert (probeOutcome t i' w s = probeOutcome t i w s) as -> by (unfold probeOutcome; by rewrite Hn).
  assert (ps_missReason (afterProbe t i' w s) = ps_missReason (afterProbe t i w s)) as ->
    by (by rewrite Hn).
  change (applyOutcome i' c) with (applyOutcome i c).
  by rewrite !applyLoad_but_load.
Qed.

(** A worker comes back exactly when it has earned it: a probe replaces
    the conn of an unresponsive, registered worker if and only if the probe
    succeeded, it completes [healthyThreshold] good probes in a row, the
    backoff has run out since the ejection, and the new client can be built.
    The replacement starts out of placement, keeps the public address and the
    count of ejections, and the old conn's poller is told to stop. *)
Theorem probe_recovers i c s m w :
  fleet_ok m -> m_conns m !! c = Some w -> w_reachable w = workerUnresponsive ->
  m_workers m !! w_ip w = Some c -> ps_lastSeen s = workerUnresponsive -> 0 <= ps_misses s ->
  let t := timing (m_workerTiming m) in
  let m' := (probe i c s m).2 in
  (m_workers m' !! w_ip w <> Some c <->
   probeErr t i s = None /\ readyToRecover t (in_after i) w (ps_goodProbes s + 1) = true /\
   in_dial i = None) /\
  (m_workers m' !! w_ip w <> Some c ->
   exists w', lookupWorker m' (w_ip w) = Some (m_nextConn m, w') /\
     w_reachable w' = workerUnresponsive /\ w_unreachCh w' = chan_open /\ w_daemonFailed w' = false /\
     w_public w' = w_public w /\ w_ejections w' = w_ejections w /\ w_fromRecovery w' = true /\
     exists old, m_conns m' !! c = Some old /\ gone old = true).
Proof.
  intros Hm Hw Hun Hreg Hseen Hpos t m'.
  destruct (probe_outcome i c s m w Hw) as (Heq & _); [congruence|].
  fold m' t in Heq. set (m1 := applyLoad c _ m) in Heq.
  destruct (afterProbe_counts t i w s) as [Hmiss Hgood].
  destruct (noticeEjection_frame w s) as (_ & _ & _ & _ & _ & Hsame).
  rewrite Hsame in Hgood by congruence.
  destruct (applyLoad_lookup c (loadVerdict t i (noticeEjection w s)) m w Hw)
    as (w1 & Hw1 & Hr1 & He1 & _ & Hip1 & Hpub1 & _). fold m1 in Hw1.
  assert (m_workers m1 = m_workers m /\ m_nextConn m1 = m_nextConn m) as [Hws Hnx]
    by (subst m1; by destruct (loadVerdict _ _ _)).
  unfold probeOutcome in Heq. rewrite Hmiss, Hgood in Heq.
  assert (forall f, m' = onConn c f m1 -> m_workers m' !! w_ip w = Some c) as Hstay
    by (intros f ->; simpl; by rewrite Hws).
  destruct (probeErr t i s) as [e|] eqn:He.
  { rewrite decide_True in Heq by lia.
    assert (m_workers m' !! w_ip w = Some c) as Hc.
    { case_decide; [by eapply Hstay|]. simpl in Heq. rewrite Heq. congruence. }
    split; [|congruence]. split; [naive_solver|]. by intros (? & _). }
  rewrite (decide_False (P := 0 < 0)), decide_False in Heq by (lia || congruence).
  destruct (readyToRecover t (in_after i) w (ps_goodProbes s + 1)) eqn:Hrdy; simpl in Heq.
  2:{ assert (m_workers m' !! w_ip w = Some c) by (rewrite Heq; congruence).
      split; [naive_solver|congruence]. }
  unfold recoverWorker in Heq. rewrite Hw1, Hip1, Hws, decide_True, decide_False in Heq by congruence.
  destruct (in_dial i) as [e|] eqn:Hdial; simpl in Heq.
  { assert (m_workers m' !! w_ip w = Some c) by (rewrite Heq; congruence).
    split; [naive_solver|congruence]. }
  assert (c <> m_nextConn m) as Hfresh by (intros ->; by eapply fleet_ok_fresh).
  assert (m_workers m' !! w_ip w = Some (m_nextConn m)) as Hnew.
  { rewrite Heq. simpl. by rewrite Hws, Hnx, lookup_insert_eq. }
  split; [split; [done|]|].
  - intros _. congruence.
  - intros _. eexists. split_and!.
    + apply lookupWorker_spec. split; [done|]. rewrite Heq. simpl. rewrite Hnx.
      rewrite lookup_alter_ne, lookup_alter_eq, lookup_insert_eq by done. reflexivity.
    + done.
    + done.
    + done.
    + done.
    + done.
    + done.
    + exists (discard w1). split.
      * rewrite Heq. simpl. rewrite Hnx, lookup_alter_eq, lookup_alter_ne, lookup_insert_ne by done.
        by rewrite Hw1.
      * destruct (fo_live m Hm _ _ Hreg) as (w2 & Hw2 & _ & _ & Hopen). simplify_eq.
        unfold gone. simpl. destruct (loadVerdict t i _) as [l|]; subst m1; simpl in Hw1;
          [apply lookup_onConn_Some in Hw1 as [(_ & w0 & Hw0 & ->)|[? _]]; [|done]|];
          simplify_eq; simpl; by rewrite Hopen.
Qed.

(** ** Concrete probes *)

Definition good_probe (now : Z) : probeIn := mkProbe now now (inr false) None None None.
Definition bad_ping (now : Z) : probeIn := mkProbe now now (inl [NetError]) (Some [NetError]) None None.
(** A daemon that answers pings over a wedged store. *)
Definition bad_list (now : Z) : probeIn := mkProbe now now (inr false) None (Some [DeadlineExceeded]) None.

Definition conn_of (m : Manager) (c : nat) : workerConn :=
  default (newWorkerConn 0 0 "" "" false 1) (m_conns m !! c).

Lemma probe_ejects_on_misses_witness :
  let s := (pollStart 9 workerReachableOk) <| ps_misses := 5 |> in
  exists w', m_conns (probe (bad_ping 20) 0 s two_workers).2 !! 0%nat = Some w' /\
    w_reachable w' = workerUnresponsive.
Proof.
  destruct (probe_ejects_on_misses (bad_ping 20) 0 ((pollStart 9 workerReachableOk) <| ps_misses := 5 |>)
    two_workers (conn_of two_workers 0)) as (w' & H & Hr & _);
    [vm_compute; reflexivity|vm_compute; reflexivity|vm_compute; congruence|].
  exists w'. split; [exact H|]. rewrite Hr. vm_compute. reflexivity.
Defined.

(** Six wedged lists eject, five do not. *)
Lemma failing_probes_eject_witness :
  (exists w', m_conns (probes (bad_list <$> [1; 2; 3; 4; 5]) 0 (pollStart 0 workerReachableOk) two_workers).2 !! 0%nat
     = Some w' /\ w_reachable w' = workerReachableOk) /\
  (exists w', m_conns (probes (bad_list <$> [1; 2; 3; 4; 5; 6]) 0 (pollStart 0 workerReachableOk) two_workers).2 !! 0%nat
     = Some w' /\ w_reachable w' = workerUnresponsive).
Proof.
  split.
  - destruct (failing_probes_eject (bad_list <$> [1; 2; 3; 4; 5]) 0 (pollStart 0 workerReachableOk)
      two_workers (conn_of two_workers 0)) as (w' & H & Hr);
      [vm_compute; reflexivity..|vm_compute; congruence|vm_compute; reflexivity|].
    exists w'. split; [exact H|]. rewrite Hr. vm_compute. reflexivity.
  - destruct (failing_probes_eject (bad_list <$> [1; 2; 3; 4; 5; 6]) 0 (pollStart 0 workerReachableOk)
      two_workers (conn_of two_workers 0)) as (w' & H & Hr);
      [vm_compute; reflexivity..|vm_compute; congruence|vm_compute; reflexivity|].
    exists w'. split; [exact H|]. rewrite Hr. vm_compute. reflexivity.
Defined.

Definition ejected_first : Manager := run_op (OpEject 10 "ping" 0) two_workers.
Lemma ejected_first_ok : fleet_ok ejected_first.
Proof. apply run_op_fleet_ok, two_workers_ok. Qed.

(** One good probe seen since the ejection, and the base backoff over. *)
Lemma probe_recovers_witness :
  let s := (pollStart 9 workerUnresponsive) <| ps_goodProbes := 1 |> in
  exists w', lookupWorker (probe (good_probe (10 + 10 * Second)) 0 s ejected_first).2 "10.0.0.1" = Some (2%nat, w') /\
    w_ejections w' = 1.
Proof.
  destruct (probe_recovers (good_probe (10 + 10 * Second)) 0
    ((pollStart 9 workerUnresponsive) <| ps_goodProbes := 1 |>) ejected_first (conn_of ejected_first 0)
    ejected_first_ok) as [Hiff Hnew];
    [vm_compute; reflexivity..|vm_compute; congruence|].
  destruct Hnew as (w' & Hl & _ & _ & _ & _ & He & _).
  { apply Hiff. vm_compute. repeat split. }
  exists w'. split; [exact Hl|]. rewrite He. vm_compute. reflexivity.
Defined.
