(* ===== verification/Effects.v ===== *)
(** * Effects: how the model runs code that talks to docker, SQLite and a clock

    A function of the Manager with effects is a state passer over a [World]:
    the Manager, the calls made to docker so far, and an [Oracle] that settles
    everything the program does not control.  Every use of the outside takes a
    fresh tick and asks the oracle what happens at that tick, so a theorem for
    all oracles covers every failure at every call, every clock and every
    choice of the random source; [o_others] lets other goroutines work on the
    fleet during each docker call. *)
From S2P Require Import Prelude Types Settings Text Artifacts Queue Worker Netip Database Fleet HostConfig.
Local Open Scope Z_scope.

(** What [ContainerCreate] is asked for. *)
Record containerSpec := mkSpecC {
  cs_image : string;
  cs_host : string;
  cs_network : string;
  cs_dynamic : bool;                        (* the cmgr.dynamic label; cmgr.managed is always set *)
  cs_env : gmap string string;
  cs_config : HostConfig }.

Inductive call :=
| NetworkCreate (name : string)
| NetworkRemove (name : string)
| ContainerCreate (spec : containerSpec)
| ContainerStart (cid : string)
| ContainerInspect (cid : string)
| ContainerRemove (cid : string)
| ImageInspect (name : string)
| ImagePull (name : string)
| ImageTag (from to : string)
| ImageRemove (name : string)
| RegistryDelete (name : string)
| RegistryHead (name : string)
| ContainerList
| NetworkList
| DistributionInspect (name : string)
| ImageBuild (tag target : string)
| ImagePush (name : string)
| ContainerExtract (image : string) (securityOpt : list string)   (* created only to copy from *)
| CopyFromContainer (cid : string)
| ImageList.

(** A listed container: its id and the names of the networks it is attached
    to, [None] without network settings. *)
Record containerSummary := mkSummary { sm_id : string; sm_networks : option (list string) }.

(** An entry of the /challenge tree copied out of a built image: metadata.json
    as it decodes, artifacts.tar.gz as it reads, anything else. *)
Inductive tarEntry :=
| TarMetadata (lookups : error + gmap string string)
| TarArtifacts (opening : option error) (entries : list (Header * option error)) (nextErr closing : option error)
| TarOther.

(** The outcome of waiting for a slot: a token, the unreachable channel, the
    timer. *)
Inductive slotOutcome := SlotTaken | SlotUnreachable | SlotExpired.

Record Oracle := mkOracle {
  o_now : nat -> Z;
  o_rand : nat -> Z -> Z;                      (* rand.Intn *)
  o_db : nat -> option error;                  (* a statement fails *)
  o_docker : nat -> call -> option error;      (* a docker call fails *)
  o_ping : nat -> option error;
  o_cid : nat -> string;                       (* the id of a created container *)
  o_ports : nat -> option (list (string * list string));   (* inspected ports; None: no settings *)
  o_parsers : Parsers;                         (* the other packages' parsers *)
  o_slot : nat -> slotOutcome;
  o_rivals : nat -> list portRow;              (* ports other launches claim meanwhile *)
  o_others : nat -> list fleet_op;
  o_containers : nat -> list containerSummary;  (* what ContainerList finds, label cmgr.managed=true *)
  o_networks : nat -> list string;              (* what NetworkList finds, names with the prefix *)
  o_settle : nat -> list bool;                  (* which calls in flight have come back *)
  o_fs : nat -> option error;                   (* a file operation fails *)
  o_tar : nat -> list tarEntry * option error;  (* what is copied out of an image, and how it ends unless at its end *)
  o_images : nat -> list (list string);         (* the tags of each image ImageList finds *)
  o_abs : nat -> string -> error + string;      (* filepath.Abs of a directory that must exist *)
  o_inventory : nat -> string -> gmap ChallengeId ChallengeMetadata * list error }.   (* what a directory holds *)

#[export] Instance eta_Oracle : Eta Oracle := fun o =>
  mkOracle (o_now o) (o_rand o) (o_db o) (o_docker o) (o_ping o) (o_cid o) (o_ports o) (o_parsers o)
    (o_slot o) (o_rivals o) (o_others o) (o_containers o) (o_networks o) (o_settle o) (o_fs o) (o_tar o)
    (o_images o) (o_abs o) (o_inventory o).

(** One docker call: the client it went out on ([None] is the local one), the
    call, and how it came out. *)
Record event := mkEvent { ev_cli : option nat; ev_call : call; ev_err : option error }.

Record World := mkWorld {
  W_m : Manager;
  W_tick : nat;
  W_trace : list event;
  W_o : Oracle }.
#[export] Instance eta_World : Eta World := fun w =>
  mkWorld (W_m w) (W_tick w) (W_trace w) (W_o w).

Definition M (A : Type) : Type := World -> A * World.
#[export] Instance M_ret : MRet M := fun _ a w => (a, w).
#[export] Instance M_bind : MBind M := fun _ _ k e w => let '(a, w) := e w in k a w.

(** A Go function that returns a value and an error: [inl] is the error. *)
Definition try {A B} (e : M (error + A)) (k : A -> M (error + B)) : M (error + B) :=
  r ← e; match r with inl err => mret (inl err) | inr a => k a end.
Notation "'let?' x := e 'in' k" := (try e (fun x => k))
  (at level 10, x pattern, e at level 200, k at level 200) : cork_scope.
Definition ok {A} (a : A) : M (error + A) := mret (inr a).
Definition fail {A} (err : error) : M (error + A) := mret (inl err).

(** ** Reading and writing the Manager *)
Definition getM : M Manager := fun w => (W_m w, w).
Definition getDb : M Db := fun w => (m_db (W_m w), w).
Definition modifyM (f : Manager -> Manager) : M unit := fun w => (tt, w <| W_m ::= f |>).
Definition setDb (d : Db) : M unit := modifyM (fun m => m <| m_db := d |>).
Definition reader {A} (f : Manager -> A) : M A := fun w => (f (W_m w), w).

(** ** The outside *)
Definition ask {A} (f : Oracle -> nat -> A) : M A := fun w =>
  (f (W_o w) (W_tick w), w <| W_tick ::= S |>).

Definition now : M Z := ask o_now.

(** [rand.Intn(n)]: at least 0, below [n]. *)
Definition Intn (n : Z) : M Z := z ← ask o_rand; mret (z n `mod` n).

(** One SQL statement: it fails for a reason of its own, or a constraint
    refuses it, or it runs. *)
Definition sql {A} (f : Db -> option (Db * A)) : M (error + A) :=
  e ← ask o_db;
  match e with
  | Some err => fail err
  | None =>
    d ← getDb;
    match f d with
    | None => fail [SqliteConstraint]
    | Some (d', a) => setDb d';; ok a
    end
  end.
Definition sqlExec (f : Db -> Db) : M (error + unit) := sql (fun d => Some (f d, tt)).
Definition sqlRead {A} (f : Db -> A) : M (error + A) := sql (fun d => Some (d, f d)).

(** A transaction: [Begin], the statements, [Commit], or [Rollback] at the
    first that fails.  [Begin] only panics on a closed pool ([MustBegin]) and a
    rollback is taken to succeed. *)
Definition transaction {A} (body : M (error + A)) : M (error + A) :=
  d0 ← getDb;
  r ← body;
  match r with
  | inl err => setDb d0;; fail err
  | inr a =>
    c ← ask o_db;
    match c with
    | Some err => setDb d0;; fail err
    | None => ok a
    end
  end.

(** A docker call: others run, the oracle answers, the call is recorded. *)
Definition docker (cli : option nat) (c : call) : M (error + unit) :=
  others ← ask o_others;
  modifyM (run_ops others);;
  e ← ask (fun o n => o_docker o n c);
  (fun w => (tt, w <| W_trace ::= (fun tr => tr ++ [mkEvent cli c e]) |>));;
  match e with Some err => fail err | None => ok tt end.

(** [noteWorkerTransportError], with its ping. *)
Definition noteTransport (worker : string) (cli : option nat) (err : error) : M unit :=
  p ← ask o_ping;
  t ← now;
  modifyM (noteWorkerTransportError t p worker cli (Some err)).

(** Runs the monad's plumbing: what is left are the outside's answers. *)
Ltac run :=
  unfold try, sqlExec, sqlRead, sql, now, Intn, reader, getM, getDb, setDb, modifyM, ask, ok, fail,
    mbind, M_bind, mret, M_ret in *; cbn beta iota zeta in *.

(** ** Reasoning

    [Keeps I e]: the code [e] keeps the invariant [I], from every world. *)
Class Keeps {A} (I : World -> Prop) (e : M A) : Prop := keeps w : I w -> I (e w).2.

(** Invariants of the Manager alone, that other goroutines keep as well. *)
Class Stable (I : Manager -> Prop) : Prop := stable op m : I m -> I (run_op op m).
Definition onM (I : Manager -> Prop) (w : World) : Prop := I (W_m w).

Section keeps.
Context {I : World -> Prop}.

#[export] Instance keeps_ret {A} (a : A) : Keeps I (mret a).
Proof. by intros w. Qed.
#[export] Instance keeps_bind {A B} (e : M A) (k : A -> M B) :
  Keeps I e -> (forall a, Keeps I (k a)) -> Keeps I (e ≫= k).
Proof.
  intros He Hk w Hw. unfold mbind, M_bind. specialize (He w Hw).
  destruct (e w) as [a w']. by apply Hk.
Qed.
#[export] Instance keeps_try {A B} (e : M (error + A)) (k : A -> M (error + B)) :
  Keeps I e -> (forall a, Keeps I (k a)) -> Keeps I (try e k).
Proof. intros He Hk. apply keeps_bind; [done|]. intros [err|a]; [apply keeps_ret|apply Hk]. Qed.
#[export] Instance keeps_ok {A} (a : A) : Keeps I (ok a).
Proof. apply keeps_ret. Qed.
#[export] Instance keeps_fail {A} err : Keeps I (@fail A err).
Proof. apply keeps_ret. Qed.
#[export] Instance keeps_getM : Keeps I getM.
Proof. by intros w. Qed.
#[export] Instance keeps_getDb : Keeps I getDb.
Proof. by intros w. Qed.
#[export] Instance keeps_reader {A} (f : Manager -> A) : Keeps I (reader f).
Proof. by intros w. Qed.
End keeps.

Section keepsM.
Context {I : Manager -> Prop}.

#[export] Instance keeps_ask {A} (f : Oracle -> nat -> A) : Keeps (onM I) (ask f).
Proof. by intros w. Qed.
#[export] Instance keeps_now : Keeps (onM I) now.
Proof. apply keeps_ask. Qed.
#[export] Instance keeps_Intn n : Keeps (onM I) (Intn n).
Proof. unfold Intn. apply _. Qed.
#[export] Instance keeps_modify f : (forall m, I m -> I (f m)) -> Keeps (onM I) (modifyM f).
Proof. intros Hf w Hw. by apply Hf. Qed.

Lemma keeps_sql {A} (f : Db -> option (Db * A)) :
  (forall m d' a, I m -> f (m_db m) = Some (d', a) -> I (m <| m_db := d' |>)) -> Keeps (onM I) (sql f).
Proof.
  intros Hf w Hw. unfold sql, mbind, M_bind, ask. simpl. destruct (o_db _ _); [done|].
  simpl. destruct (f (m_db (W_m w))) as [[d' a]|] eqn:E; [|done]. simpl. by eapply Hf.
Qed.
#[export] Instance keeps_sqlRead {A} (f : Db -> A) : Keeps (onM I) (sqlRead f).
Proof. apply keeps_sql. intros m d' a Hm ?. simplify_eq. by destruct m. Qed.

Context (Hstable : Stable I).
Lemma stable_ops ops m : I m -> I (run_ops ops m).
Proof.
  unfold run_ops. revert m. induction ops as [|op ops IH]; intros m Hm; [done|].
  simpl. by apply IH, Hstable.
Qed.
#[export] Instance keeps_docker cli c : Keeps (onM I) (docker cli c).
Proof.
  intros w Hw. unfold docker, mbind, M_bind, ask. simpl.
  destruct (o_docker _ _ _); simpl; by apply stable_ops.
Qed.
#[export] Instance keeps_noteTransport worker cli err : Keeps (onM I) (noteTransport worker cli err).
Proof.
  unfold noteTransport. apply keeps_bind; [apply _|]. intros p. apply keeps_bind; [apply _|]. intros t.
  apply keeps_modify. intros m Hm. exact (Hstable (OpNote t p worker cli (Some err)) m Hm).
Qed.
End keepsM.

(** A chain of calls that succeeds has succeeded at every call. *)
Lemma try_inr {A B} (e : M (error + A)) (k : A -> M (error + B)) w b w' :
  try e k w = (inr b, w') -> exists a w1, e w = (inr a, w1) /\ k a w1 = (inr b, w').
Proof. unfold try, mbind, M_bind. destruct (e w) as [[err|a] w1]; [done|eauto]. Qed.

(** ** Code that only works on the tables *)
Class DbOnly {A} (e : M A) : Prop :=
  db_only w : (exists d, W_m (e w).2 = (W_m w) <| m_db := d |>) /\ W_o (e w).2 = W_o w /\
              W_trace (e w).2 = W_trace w.

Lemma same_db m : m <| m_db := m_db m |> = m.
Proof. by destruct m. Qed.

Section db_only.
#[export] Instance db_only_ret {A} (a : A) : DbOnly (mret a : M A).
Proof. intros w. split; [|done]. exists (m_db (W_m w)). exact (eq_sym (same_db (W_m w))). Qed.
#[export] Instance db_only_bind {A B} (e : M A) (k : A -> M B) :
  DbOnly e -> (forall a, DbOnly (k a)) -> DbOnly (e ≫= k).
Proof.
  intros He Hk w. unfold mbind, M_bind. destruct (He w) as ([d Hd] & Ho & Ht).
  destruct (e w) as [a w']; simpl in *. destruct (Hk a w') as ([d' Hd'] & Ho' & Ht').
  split_and!; [|congruence|congruence]. exists d'. by rewrite Hd', Hd.
Qed.
#[export] Instance db_only_try {A B} (e : M (error + A)) (k : A -> M (error + B)) :
  DbOnly e -> (forall a, DbOnly (k a)) -> DbOnly (try e k).
Proof. intros He Hk. apply db_only_bind; [done|]. intros [err|a]; [apply db_only_ret|apply Hk]. Qed.
#[export] Instance db_only_ok {A} (a : A) : DbOnly (ok a).
Proof. apply db_only_ret. Qed.
#[export] Instance db_only_fail {A} err : DbOnly (@fail A err).
Proof. apply (db_only_ret (inl err : error + A)). Qed.
#[export] Instance db_only_sql {A} (f : Db -> option (Db * A)) : DbOnly (sql f).
Proof.
  intros w. run. destruct (o_db _ _); simpl.
  - split; [|done]. exists (m_db (W_m w)). exact (eq_sym (same_db (W_m w))).
  - destruct (f (m_db (W_m w))) as [[d' a]|]; simpl; (split; [|done]); [by exists d'|].
    exists (m_db (W_m w)). exact (eq_sym (same_db (W_m w))).
Qed.
#[export] Instance db_only_sqlExec f : DbOnly (sqlExec f).
Proof. apply db_only_sql. Qed.
#[export] Instance db_only_sqlRead {A} (f : Db -> A) : DbOnly (sqlRead f).
Proof. apply db_only_sql. Qed.
End db_only.

(** A transaction is atomic: it fails and nothing has changed, or it returns
    what its statements returned over the tables they left. *)
Lemma transaction_spec {A} (body : M (error + A)) w r w' :
  DbOnly body -> transaction body w = (r, w') ->
  W_o w' = W_o w /\ W_trace w' = W_trace w /\
  match r with
  | inl _ => W_m w' = W_m w
  | inr a => exists w1, body w = (inr a, w1) /\ W_m w' = W_m w1
  end.
Proof.
  intros Hb. unfold transaction. run. destruct (Hb w) as ([d Hd] & Ho & Ht).
  destruct (body w) as [[err|a] w1]; simpl in *.
  - intros; simplify_eq/=. split_and!; [done..|]. rewrite Hd. exact (same_db (W_m w)).
  - destruct (o_db (W_o w1) (W_tick w1)); intros; simplify_eq/=; (split_and!; [done..|]).
    + rewrite Hd. exact (same_db (W_m w)).
    + by exists w1.
Qed.

#[export] Instance keeps_transaction {A} I (body : M (error + A)) :
  DbOnly body -> Keeps (onM I) body -> Keeps (onM I) (transaction body).
Proof.
  intros Hd Hk w Hw. destruct (transaction body w) as [r w'] eqn:E.
  apply transaction_spec in E as (_ & _ & Hr); [|done]. unfold onM. simpl. destruct r as [err|a].
  - by rewrite Hr.
  - destruct Hr as (w1 & Hb & ->). specialize (Hk w Hw). by rewrite Hb in Hk.
Qed.

#[global] Typeclasses Opaque M getM getDb modifyM setDb reader ask now Intn sql sqlExec sqlRead transaction
  docker noteTransport try ok fail.

(** Walks a function and keeps the invariant at every call it makes; what is
    left are the calls no instance covers. *)
Ltac keep :=
  repeat (cbn beta; first
    [ solve [apply _]
    | lazymatch goal with |- Keeps _ (try _ _) => apply keeps_try end
    | lazymatch goal with |- Keeps _ (mbind _ _) => apply keeps_bind end
    | lazymatch goal with |- forall _, _ => intros ? end
    | match goal with |- Keeps _ (match ?x with _ => _ end) => destruct x end ]).

(** ** The calls code makes

    [Emits P e]: every docker call [e] makes satisfies [P]. *)
Class Emits {A} (P : event -> Prop) (e : M A) : Prop :=
  emits w : exists tr, W_trace (e w).2 = W_trace w ++ tr /\ Forall P tr.

Section emits.
Context {P : event -> Prop}.

Lemma emits_none {A} (e : M A) : (forall w, W_trace (e w).2 = W_trace w) -> Emits P e.
Proof. intros H w. exists []. by rewrite app_nil_r. Qed.
#[export] Instance emits_ret {A} (a : A) : Emits P (mret a : M A).
Proof. by apply emits_none. Qed.
#[export] Instance emits_bind {A B} (e : M A) (k : A -> M B) :
  Emits P e -> (forall a, Emits P (k a)) -> Emits P (e ≫= k).
Proof.
  intros He Hk w. unfold mbind, M_bind. destruct (He w) as (tr & Ht & Hp).
  destruct (e w) as [a w']; simpl in *. destruct (Hk a w') as (tr' & Ht' & Hp').
  exists (tr ++ tr'). rewrite Ht', Ht, app_assoc. split; [done|]. by apply Forall_app.
Qed.
#[export] Instance emits_try {A B} (e : M (error + A)) (k : A -> M (error + B)) :
  Emits P e -> (forall a, Emits P (k a)) -> Emits P (try e k).
Proof. intros He Hk. apply emits_bind; [done|]. intros [err|a]; [apply emits_ret|apply Hk]. Qed.
#[export] Instance emits_ok {A} (a : A) : Emits P (ok a).
Proof. by apply emits_none. Qed.
#[export] Instance emits_fail {A} err : Emits P (@fail A err).
Proof. by apply emits_none. Qed.
#[export] Instance emits_getM : Emits P getM.
Proof. by apply emits_none. Qed.
#[export] Instance emits_reader {A} (f : Manager -> A) : Emits P (reader f).
Proof. by apply emits_none. Qed.
#[export] Instance emits_modify f : Emits P (modifyM f).
Proof. by apply emits_none. Qed.
#[export] Instance emits_ask {A} (f : Oracle -> nat -> A) : Emits P (ask f).
Proof. by apply emits_none. Qed.
#[export] Instance emits_now : Emits P now.
Proof. by apply emits_none. Qed.
#[export] Instance emits_noteTransport worker cli err : Emits P (noteTransport worker cli err).
Proof. by apply emits_none. Qed.
#[export] Instance emits_dbonly {A} (e : M A) : DbOnly e -> Emits P e.
Proof. intros He. apply emits_none. intros w. by destruct (He w) as (_ & _ & ?). Qed.
Lemma emits_docker cli c : (forall err, P (mkEvent cli c err)) -> Emits P (docker cli c).
Proof.
  intros H w. unfold docker. run.
  destruct (o_docker _ _ _); simpl; eexists [_]; (split; [reflexivity|]); by repeat constructor.
Qed.
End emits.

Ltac emit :=
  repeat (cbn beta; first
    [ solve [apply _]
    | lazymatch goal with |- Emits _ (try _ _) => apply emits_try end
    | lazymatch goal with |- Emits _ (mbind _ _) => apply emits_bind end
    | lazymatch goal with |- Emits _ (docker _ _) => apply emits_docker; done end
    | lazymatch goal with |- forall _, _ => intros ? end
    | match goal with |- Emits _ (match ?x with _ => _ end) => destruct x end ]).

(** An outside in which everything works and nobody interferes. *)
Definition calm : Oracle := {|
  o_now := fun n => Z.of_nat n; o_rand := fun _ _ => 0; o_db := fun _ => None;
  o_docker := fun _ _ => None; o_ping := fun _ => None;
  o_cid := fun n => String.append "container-" (pretty n);
  o_ports := fun _ => None;
  o_parsers := mkParsers (fun _ => true) (fun _ => None) (fun _ => None) (fun _ => true); o_slot := fun _ => SlotTaken;
  o_rivals := fun _ => []; o_others := fun _ => [];
  o_containers := fun _ => []; o_networks := fun _ => []; o_settle := fun _ => []; o_fs := fun _ => None;
  o_tar := fun _ => ([TarMetadata (inr {["flag"%string := "flag{x}"%string]})], None); o_images := fun _ => [];
  o_abs := fun _ dir => inr dir; o_inventory := fun _ _ => (∅, []) |}.

(** A small system: one challenge, one dynamic build of it with one image that
    publishes a port, and the two workers of [Fleet]. *)
Definition demo_db : Db := Eval vm_compute in
  (m_db two_workers)
    <| t_challenges := {["web" := mkChallengeRow "Web" "" "custom" "" "" 7 9 "/c/web" false false 1 "" 1]} |>
    <| t_parts := {["web" := mkParts [] [] [] [] [("http", mkPortInfo "web" 80)] []]} |>
    <| t_builds := {[1 := mkBuildRow "flag{x}" "flag{%s}" 42 5 0 7 false 0 "web" "event" DYNAMIC_INSTANCES]} |>
    <| t_images := {[1 := mkImageRow 1 "web"]} |>
    <| t_imagePorts := [(1, "80/tcp"%string)] |>.
Definition demo_world (o : Oracle) : World :=
  mkWorld (two_workers <| m_db := demo_db |> <| m_placementEnabled := true |>
             <| m_challengeRegistry := "registry.example:5000" |>) 0 [] o.
