(* ===== verification/Ports.v ===== *)
(** * Ports: host port reservation

    [usedPortBitset] of [cork/database.go] and [reservePort], [claimPort],
    [reassignPorts] and [releasePorts] of [cork/database_instances.go].  Ports
    are reserved per worker out of the configured range: a bitset snapshot of
    the ports in use picks a candidate, and an [INSERT ... WHERE NOT EXISTS]
    claims it, retried when another launch got there first.

    The bitset is the [[]uint64] of the code; its operations refine insertion
    and membership of a set of ports.  Rival launches claim ports before every
    claim ([o_rivals]), through the same statement. *)
From S2P Require Import Prelude Types Settings Queue Worker Database Fleet Effects.
Local Open Scope Z_scope.

(** ** The bitset *)

(** [bitset[p/64] |= 1 << (uint(p) % 64)]. *)
Definition bitSet (p : Z) (bs : list Z) : list Z :=
  alter (fun w => Z.lor w (Z.shiftl 1 (p `mod` 64))) (Z.to_nat (p `div` 64)) bs.
(** [bitset[p/64] & (1 << (uint(p) % 64)) != 0]; out of range would panic. *)
Definition bitTest (p : Z) (bs : list Z) : bool :=
  match bs !! Z.to_nat (p `div` 64) with
  | Some w => negb (bool_decide (Z.land w (Z.shiftl 1 (p `mod` 64)) = 0))
  | None => true
  end.

Definition emptyBitset (numPorts : Z) : list Z :=
  replicate (Z.to_nat ((numPorts + 63) `div` 64)) 0.

(** The bits of the ports in use, marked one row after the other. *)
Definition portBitset (low numPorts : Z) (ports : list Z) : list Z :=
  foldl (fun bs port => bitSet (port - low) bs) (emptyBitset numPorts) ports.

Definition usedPortBitset (worker : string) : M (error + list Z) :=
  m ← getM;
  if decide (m_portLow m = 0) then ok []
  else
    let numPorts := m_portHigh m - m_portLow m + 1 in
    let? ports := sqlRead (portsInRange worker (m_portLow m) (m_portHigh m)) in
    ok (portBitset (m_portLow m) numPorts ports).

(** ** Claiming *)

(** [retryableDB]: a busy or locked database is retryable. *)
Definition retryableDB (err : error) : error :=
  if errors_Is err SqliteBusy then ErrDatabaseBusy :: err else err.
Definition retryable {A} (e : M (error + A)) : M (error + A) :=
  r ← e; match r with inl err => fail (retryableDB err) | inr a => ok a end.

(** Rival launches claim what they can. *)
Definition rivalClaims (rs : list portRow) (d : Db) : Db :=
  foldl (fun d r => match insertPortUnlessTaken r d with Some (d', _) => d' | None => d end) d rs.
Definition rivals : M unit :=
  rs ← ask o_rivals; modifyM (fun m => m <| m_db ::= rivalClaims rs |>).

Definition claimPort (instance : InstanceId) (worker name : string) (port : Z) : M (error + bool) :=
  rivals;; retryable (sql (insertPortUnlessTaken (mkPortRow instance name port worker))).

(** The inner loop of [reservePort]: the first free port from [port] on,
    wrapping at the top of the range; 0 when all [k] tried are in use. *)
Fixpoint scanPorts (k : nat) (low high : Z) (bs : list Z) (port : Z) : Z :=
  match k with
  | O => 0
  | S k =>
    if bitTest (port - low) bs
    then scanPorts k low high bs (if decide (high < port + 1) then low else port + 1)
    else port
  end.

(** The attempts of [reservePort], [k] of them left. *)
Fixpoint reserveLoop (k : nat) (instance : InstanceId) (worker name : string) (low high : Z)
    (bs : list Z) : M (error + Z) :=
  match k with
  | O => fail [OtherError "high contention"]
  | S k =>
    let numPorts := high - low + 1 in
    r ← Intn numPorts;
    let candidate := scanPorts (Z.to_nat numPorts) low high bs (r + low) in
    if decide (candidate = 0) then fail [OtherError "all ports in use"]
    else
      let? claimed := claimPort instance worker name candidate in
      if claimed : bool then ok candidate
      else reserveLoop k instance worker name low high (bitSet (candidate - low) bs)
  end.

Definition reservePort (instance : InstanceId) (worker name : string) : M (error + Z) :=
  m ← getM;
  if decide (m_portLow m = 0) then fail [OtherError "port reservation disabled"]
  else
    let? bs := usedPortBitset worker in
    reserveLoop 50 instance worker name (m_portLow m) (m_portHigh m) bs.

(** [releasePorts]: the metadata loses its ports whatever the database does. *)
Definition releasePorts (instance : InstanceMetadata) : M InstanceMetadata :=
  _ ← sqlExec (deletePorts (im_id instance));
  mret (instance <| im_ports := ∅ |>).

(** One published port of a restarting instance: the number it had if that is
    in range and still free, else a new one. *)
Definition reassignPort (instance : InstanceMetadata) (name : string) (previous : gmap string Z)
    : M (error + InstanceMetadata) :=
  m ← getM;
  let fresh := let? port := reservePort (im_id instance) (im_worker instance) name in
               ok (instance <| im_ports ::= <[name := port]> |>) in
  match previous !! name with
  | Some prev =>
    if decide (m_portLow m <= prev <= m_portHigh m) then
      let? claimed := claimPort (im_id instance) (im_worker instance) name prev in
      if claimed : bool then ok (instance <| im_ports ::= <[name := prev]> |>) else fresh
    else fresh
  | None => fresh
  end.

(** The published ports of a build's images, the builder's left out. *)
Definition publishedPorts (build : BuildMetadata) : list string :=
  concat (img_ports <$> filter (fun i => img_host i <> "builder"%string) (bm_images build)).

(** Carries the instance with the ports assigned so far, also on an error:
    the code mutates it in place. *)
Fixpoint reassignLoop (ports : list string) (revPortMap : gmap string string)
    (previous : gmap string Z) (instance : InstanceMetadata) : M (option error * InstanceMetadata) :=
  match ports with
  | [] => mret (None, instance)
  | portStr :: ports =>
    match revPortMap !! portStr with
    | Some name =>
      if decide (name = ""%string) then mret (Some [OtherError "no published port name"], instance)
      else
        r ← reassignPort instance name previous;
        match r with
        | inl err => mret (Some err, instance)
        | inr instance => reassignLoop ports revPortMap previous instance
        end
    | None => mret (Some [OtherError "no published port name"], instance)
    end
  end.

Definition reassignPorts (build : BuildMetadata) (instance : InstanceMetadata)
    (revPortMap : gmap string string) (previous : gmap string Z)
    : M (option error * InstanceMetadata) :=
  m ← getM;
  if decide (m_portLow m = 0) then mret (None, instance)
  else
    r ← reassignLoop (publishedPorts build) revPortMap previous (instance <| im_ports := ∅ |>);
    match r with
    | (Some err, instance) => i ← releasePorts instance; mret (Some err, i)
    | (None, instance) => mret (None, instance)
    end.

#[global] Typeclasses Opaque retryable rivals claimPort reserveLoop reservePort releasePorts reassignPort
  reassignLoop reassignPorts.

(** ** The bitset refines a set of ports *)

Lemma land_bit w k : 0 <= k -> bool_decide (Z.land w (Z.shiftl 1 k) = 0) = negb (Z.testbit w k).
Proof.
  intros Hk. destruct (Z.testbit w k) eqn:E; simpl.
  - apply bool_decide_eq_false. intros H0.
    assert (Z.testbit (Z.land w (Z.shiftl 1 k)) k = true) as Hb.
    { rewrite Z.land_spec, Z.shiftl_spec, Z.sub_diag by done. by rewrite E. }
    by rewrite H0, Z.bits_0 in Hb.
  - apply bool_decide_eq_true. apply Z.bits_inj'. intros j Hj.
    rewrite Z.land_spec, Z.shiftl_spec, Z.bits_0 by done.
    destruct (decide (j = k)) as [->|Hne]; [by rewrite E|].
    destruct (decide (j < k)); [rewrite (Z.testbit_neg_r 1) by lia; apply andb_false_r|].
    rewrite (Z.bits_above_log2 1 (j - k)) by (simpl; lia). apply andb_false_r.
Qed.

(** [bs] has a bit for each of [n] ports from [low], set for those of [used]. *)
Record represents (low n : Z) (bs : list Z) (used : gset Z) : Prop := {
  rp_length : length bs = Z.to_nat ((n + 63) `div` 64);
  rp_bits port : low <= port < low + n -> bitTest (port - low) bs = bool_decide (port ∈ used) }.

Lemma bitTest_bitSet p q bs :
  0 <= p -> 0 <= q -> (Z.to_nat (p `div` 64) < length bs)%nat ->
  bitTest q (bitSet p bs) = bool_decide (q = p) || bitTest q bs.
Proof.
  intros Hp Hq Hlen. unfold bitTest, bitSet.
  destruct (decide (q `div` 64 = p `div` 64)) as [Hd|Hd].
  - rewrite Hd, list_lookup_alter, decide_True by done.
    destruct (lookup_lt_is_Some_2 bs _ Hlen) as [w ->]. simpl.
    rewrite !land_bit, !negb_involutive by (apply Z.mod_pos_bound; lia).
    rewrite Z.lor_spec, Z.shiftl_spec by (apply Z.mod_pos_bound; lia).
    rewrite orb_comm. f_equal.
    destruct (decide (q = p)) as [->|Hne]; [by rewrite Z.sub_diag, bool_decide_eq_true_2|].
    rewrite bool_decide_eq_false_2 by done.
    assert (q `mod` 64 <> p `mod` 64) by
      (intros Hm; apply Hne; rewrite (Z.div_mod q 64), (Z.div_mod p 64) by lia; congruence).
    pose proof (Z.mod_pos_bound q 64). pose proof (Z.mod_pos_bound p 64).
    destruct (decide (q `mod` 64 < p `mod` 64)).
    + by rewrite Z.testbit_neg_r by lia.
    + by rewrite (Z.bits_above_log2 1) by (simpl; lia).
  - rewrite list_lookup_alter_ne.
    + rewrite bool_decide_eq_false_2; [done|]. by intros ->.
    + intros Hn. apply Hd. pose proof (Z.div_pos q 64). pose proof (Z.div_pos p 64). lia.
Qed.

Lemma represents_empty low n : 0 <= n -> represents low n (emptyBitset n) ∅.
Proof.
  intros Hn. split; [apply length_replicate|]. intros port Hport. unfold bitTest, emptyBitset.
  rewrite bool_decide_eq_false_2 by set_solver.
  rewrite lookup_replicate_2; [by rewrite Z.land_0_l|].
  apply Z2Nat.inj_lt; [apply Z.div_pos; lia|apply Z.div_pos; lia|].
  apply Z.div_lt_upper_bound; [lia|]. pose proof (Z.div_mod (n + 63) 64). pose proof (Z.mod_pos_bound (n + 63) 64). lia.
Qed.

Lemma represents_set low n bs used port :
  low <= port < low + n -> represents low n bs used ->
  represents low n (bitSet (port - low) bs) ({[port]} ∪ used).
Proof.
  intros Hp [Hlen Hb]. split.
  - unfold bitSet. by rewrite length_alter.
  - intros q Hq. rewrite bitTest_bitSet; [|lia..|].
    + rewrite Hb by done. apply eq_bool_prop_intro. rewrite orb_True, !bool_decide_spec.
      split; [intros [?|?]; [|set_solver]|]; [replace q with port by lia; set_solver|].
      intros [->%elem_of_singleton|?]%elem_of_union; [left; lia|by right].
    + rewrite Hlen. apply Z2Nat.inj_lt; [apply Z.div_pos; lia|apply Z.div_pos; lia|].
      apply Z.div_lt_upper_bound; [lia|]. pose proof (Z.div_mod (n + 63) 64). pose proof (Z.mod_pos_bound (n + 63) 64). lia.
Qed.

Lemma portBitset_represents low n ports :
  0 <= n -> Forall (fun p => low <= p < low + n) ports ->
  represents low n (portBitset low n ports) (list_to_set ports).
Proof.
  intros Hn Hports. unfold portBitset.
  assert (forall bs used, represents low n bs used ->
    represents low n (foldl (fun bs port => bitSet (port - low) bs) bs ports) (list_to_set ports ∪ used)) as H.
  { induction Hports as [|p ports Hp _ IH]; intros bs used Hr; simpl.
    - by rewrite union_empty_l_L.
    - assert ({[p]} ∪ list_to_set ports ∪ used = list_to_set ports ∪ ({[p]} ∪ used)) as -> by set_solver.
      by apply IH, represents_set. }
  specialize (H _ _ (represents_empty low n Hn)). by rewrite union_empty_r_L in H.
Qed.

(** ** The scan *)

(** The [j]-th port after [port], wrapping within the range. *)
Definition nthPort (low n port j : Z) : Z := low + (port - low + j) `mod` n.

Lemma scanPorts_zero k low n bs used port :
  0 < low -> 0 < n -> low <= port < low + n -> represents low n bs used ->
  scanPorts k low (low + n - 1) bs port = 0 ->
  forall j, 0 <= j < Z.of_nat k -> nthPort low n port j ∈ used.
Proof.
  intros Hlow Hn. revert port. induction k as [|k IH]; intros port Hp Hr Hs j Hj; [lia|].
  simpl in Hs. rewrite (rp_bits _ _ _ _ Hr port Hp) in Hs. case_bool_decide as Hin; [|lia].
  destruct (decide (j = 0)) as [->|Hj0].
  - unfold nthPort. rewrite Z.add_0_r, Z.mod_small by lia. by replace (low + (port - low)) with port by lia.
  - case_decide as Hw.
    + replace (nthPort low n port j) with (nthPort low n low (j - 1)).
      { apply IH; [lia|done|done|lia]. }
      unfold nthPort. f_equal. replace (port - low + j) with (low - low + (j - 1) + 1 * n) by lia.
      by rewrite Z.mod_add by lia.
    + replace (nthPort low n port j) with (nthPort low n (port + 1) (j - 1)).
      { apply IH; [lia|done|done|lia]. }
      unfold nthPort. do 2 f_equal. lia.
Qed.

Lemma scanPorts_found k low n bs used port :
  0 < low -> 0 < n -> low <= port < low + n -> represents low n bs used ->
  let c := scanPorts k low (low + n - 1) bs port in
  c <> 0 -> low <= c < low + n /\ c ∉ used.
Proof.
  intros Hlow Hn. revert port. induction k as [|k IH]; intros port Hp Hr; simpl; [done|].
  rewrite (rp_bits _ _ _ _ Hr port Hp). case_bool_decide as Hin; [|done].
  apply IH; [|done]. case_decide; lia.
Qed.

(** The scan settles the question: it returns a free port of the range, or the
    range is full. *)
Lemma scanPorts_spec low n bs used port :
  0 < low -> 0 < n -> low <= port < low + n -> represents low n bs used ->
  let c := scanPorts (Z.to_nat n) low (low + n - 1) bs port in
  (c = 0 /\ forall p, low <= p < low + n -> p ∈ used) \/
  (c <> 0 /\ low <= c < low + n /\ c ∉ used).
Proof.
  intros Hlow Hn Hp Hr c. destruct (decide (c = 0)) as [Hc|Hc].
  - left. split; [done|]. intros p Hpr.
    pose proof (scanPorts_zero _ _ _ _ _ _ Hlow Hn Hp Hr Hc ((p - port) `mod` n)) as H.
    unfold nthPort in H. rewrite Z.add_mod_idemp_r in H by lia.
    replace (port - low + (p - port)) with (p - low) in H by lia.
    rewrite (Z.mod_small (p - low)) in H by lia. replace (low + (p - low)) with p in H by lia.
    apply H. rewrite Z2Nat.id by lia. apply Z.mod_pos_bound. lia.
  - right. split; [done|]. by apply (scanPorts_found (Z.to_nat n) low n bs used port).
Qed.

(** ** Claims *)

(** The ports taken on a worker. *)
Definition taken (worker : string) (d : Db) : gset Z :=
  list_to_set (p_port <$> filter (fun r => p_worker r = worker) (t_portAssignments d)).

Lemma elem_of_taken worker d p :
  p ∈ taken worker d <-> (worker, p) ∈ portKey <$> t_portAssignments d.
Proof.
  unfold taken. rewrite elem_of_list_to_set, !list_elem_of_fmap. split.
  - intros (r & -> & [Hw Hr]%list_elem_of_filter). exists r. split; [|done]. unfold portKey. by rewrite Hw.
  - intros (r & Hk & Hr). unfold portKey in Hk. simplify_eq. exists r. split; [done|].
    by apply list_elem_of_filter.
Qed.

(** What claims do to the tables: ports are only added. *)
Record grows (d d' : Db) : Prop := {
  gr_instances : t_instances d' = t_instances d;
  gr_ports r : r ∈ t_portAssignments d -> r ∈ t_portAssignments d' }.
#[export] Instance grows_preorder : PreOrder grows.
Proof.
  split; [by split|]. intros d1 d2 d3 [H1 H2] [H3 H4]. split; [congruence|auto].
Qed.

Lemma grows_taken d d' worker : grows d d' -> taken worker d ⊆ taken worker d'.
Proof.
  intros [_ H] p. rewrite !elem_of_taken, !list_elem_of_fmap. intros (r & ? & Hr). eauto.
Qed.

Lemma insertPort_grows r d d' : insertPort r d = Some d' -> grows d d' /\ r ∈ t_portAssignments d'.
Proof.
  intros (_ & _ & ->)%insertPort_spec. split; [split; [done|]|]; simpl; set_solver.
Qed.

Lemma insertPortUnlessTaken_grows r d d' b : insertPortUnlessTaken r d = Some (d', b) -> grows d d'.
Proof.
  intros [(_ & -> & _)|(_ & _ & H)]%insertPortUnlessTaken_spec; [done|]. by apply insertPort_grows in H as [? _].
Qed.

Lemma rivalClaims_grows rs d : grows d (rivalClaims rs d).
Proof.
  unfold rivalClaims. revert d. induction rs as [|r rs IH]; intros d; simpl; [done|].
  etransitivity; [|apply IH]. destruct (insertPortUnlessTaken r d) as [[d' b]|] eqn:E; [|done].
  by eapply insertPortUnlessTaken_grows.
Qed.

(** A database that never fails a statement for reasons of its own. *)
Definition db_quiet (w : World) : Prop := forall n, o_db (W_o w) n = None.

(** The outcome of a claim, and what it leaves alone. *)
Lemma claimPort_spec instance worker name port w r w' :
  claimPort instance worker name port w = (r, w') ->
  W_o w' = W_o w /\ grows (m_db (W_m w)) (m_db (W_m w')) /\
  m_portLow (W_m w') = m_portLow (W_m w) /\ m_portHigh (W_m w') = m_portHigh (W_m w) /\
  match r with
  | inr true => port ∉ taken worker (m_db (W_m w)) /\
                mkPortRow instance name port worker ∈ t_portAssignments (m_db (W_m w'))
  | inr false => port ∈ taken worker (m_db (W_m w'))
  | inl _ => db_quiet w -> ~ (is_Some (t_instances (m_db (W_m w)) !! instance) /\ validPort port = true)
  end.
Proof.
  unfold claimPort, rivals, retryable. run. simpl.
  set (d1 := rivalClaims _ (m_db (W_m w))). pose proof (rivalClaims_grows (o_rivals (W_o w) (W_tick w)) (m_db (W_m w))) as Hg.
  fold d1 in Hg. destruct (o_db (W_o w) (S (W_tick w))) eqn:Hdb; simpl.
  { intros. simplify_eq/=. split_and!; [done|exact Hg|done|done|]. intros Hq. by rewrite Hq in Hdb. }
  destruct (insertPortUnlessTaken _ d1) as [[d2 b]|] eqn:Hins; simpl; intros; simplify_eq/=.
  - split_and!; [done| |done|done|].
    { etransitivity; [exact Hg|]. by eapply insertPortUnlessTaken_grows. }
    apply insertPortUnlessTaken_spec in Hins as [(-> & -> & Hk)|(-> & Hk & Hi)]; [by apply elem_of_taken|].
    split; [|by apply insertPort_grows in Hi as [_ ?]].
    intros Hp. apply Hk, elem_of_taken. by eapply grows_taken.
  - split_and!; [done|exact Hg|done|done|]. intros _ [Hi Hv]. unfold insertPortUnlessTaken in Hins.
    case_decide; [done|]. unfold insertPort in Hins. rewrite decide_True in Hins; [done|].
    split; [|done]. simpl. rewrite (gr_instances _ _ Hg). done.
Qed.

(** What an attempt to reserve can come to. *)
Definition reserve_outcome (instance : InstanceId) (worker name : string) (low high : Z) (k : nat)
    (used : gset Z) (w w' : World) (r : error + Z) : Prop :=
  match r with
  | inr p => low <= p <= high /\ p ∉ used /\
             mkPortRow instance name p worker ∈ t_portAssignments (m_db (W_m w'))
  | inl err =>
    (err = [OtherError "all ports in use"] /\
     forall p, low <= p <= high -> p ∈ taken worker (m_db (W_m w'))) \/
    (err = [OtherError "high contention"] /\ exists lost, NoDup lost /\ length lost = k /\
     Forall (fun p => low <= p <= high /\ p ∉ used /\ p ∈ taken worker (m_db (W_m w'))) lost) \/
    ~ (db_quiet w /\ is_Some (t_instances (m_db (W_m w)) !! instance) /\ high < 65536)
  end.

Lemma reserveLoop_spec k instance worker name low n bs used w r w' :
  0 < low -> 0 < n -> represents low n bs used -> used ⊆ taken worker (m_db (W_m w)) ->
  reserveLoop k instance worker name low (low + n - 1) bs w = (r, w') ->
  grows (m_db (W_m w)) (m_db (W_m w')) /\ W_o w' = W_o w /\
  reserve_outcome instance worker name low (low + n - 1) k used w w' r.
Proof.
  intros Hlow Hn. revert bs used w. induction k as [|k IH]; intros bs used w Hr Hu Hrun.
  { cbn in Hrun. run. simplify_eq. split_and!; [done..|]. right; left. split; [done|].
    exists []. split_and!; [apply NoDup_nil_2|done|constructor]. }
  cbn [reserveLoop] in Hrun. unfold Intn in Hrun. run.
  set (w1 := w <| W_tick ::= S |>) in *. replace (low + n - 1 - low + 1) with n in Hrun by lia.
  set (port := _ `mod` n + low) in *.
  assert (low <= port < low + n) as Hport.
  { subst port. pose proof (Z.mod_pos_bound (o_rand (W_o w) (W_tick w) n) n Hn). lia. }
  set (c := scanPorts _ _ _ _ port) in *.
  destruct (scanPorts_spec low n bs used port Hlow Hn Hport Hr) as [[Hc Hfull]|(Hc & Hcr & Hcu)];
    fold c in Hc; [rewrite decide_True in Hrun by done|rewrite decide_False in Hrun by done].
  { simplify_eq. split_and!; [done..|]. left. split; [done|]. intros p Hp. apply Hu, Hfull. lia. }
  fold c in Hcr, Hcu.
  destruct (claimPort instance worker name c w1) as [b w2] eqn:Hclaim.
  apply claimPort_spec in Hclaim as (Ho & Hg & Hlo & Hhi & Hb).
  change (m_db (W_m w1)) with (m_db (W_m w)) in *. change (W_o w1) with (W_o w) in *.
  destruct b as [err|[|]]; simplify_eq.
  - split_and!; [done..|]. right; right. intros (Hq & Hi & Hh). apply Hb; [done|]. split; [done|].
    unfold validPort. apply bool_decide_eq_true. lia.
  - destruct Hb as [Hnt Hrow]. split_and!; [done..|]. unfold reserve_outcome. split_and!; [lia|lia|done|done].
  - apply (IH _ ({[c]} ∪ used)) in Hrun as (Hg' & Ho' & Hout);
      [|by apply represents_set|pose proof (grows_taken _ _ worker Hg); set_solver].
    split_and!; [by etransitivity|congruence|].
    destruct r as [err|p]; simpl in *.
    + destruct Hout as [[-> Hall]|[(-> & lost & Hnd & Hlen & Hlost)|Hno]]; [by left| |].
      * right; left. split; [done|]. exists (c :: lost). split_and!.
        -- apply NoDup_cons. split; [|done]. intros Hin. rewrite Forall_forall in Hlost.
           destruct (Hlost c Hin) as (_ & Hx & _). set_solver.
        -- simpl. lia.
        -- constructor; [split_and!; [lia..|done|]|].
           ++ by eapply grows_taken.
           ++ eapply Forall_impl; [exact Hlost|]. set_solver.
      * right; right. intros (Hq & Hi & Hh). apply Hno. split_and!; [|by rewrite (gr_instances _ _ Hg)|done].
        intros j. rewrite Ho. apply Hq.
    + destruct Hout as (? & ? & ?). split_and!; [lia..|set_solver|done].
Qed.

Arguments reserveLoop : simpl never.

Lemma usedPortBitset_spec worker w :
  let m := W_m w in
  m_portLow m <> 0 ->
  exists w1, W_m w1 = m /\ W_o w1 = W_o w /\
    usedPortBitset worker w =
      (match o_db (W_o w) (W_tick w) with
       | Some err => inl err
       | None => inr (portBitset (m_portLow m) (m_portHigh m - m_portLow m + 1)
                        (portsInRange worker (m_portLow m) (m_portHigh m) (m_db m)))
       end, w1).
Proof.
  intros m Hlow. unfold usedPortBitset. run. rewrite decide_False by done.
  exists (w <| W_tick ::= S |>). split_and!; [done..|].
  destruct (o_db (W_o w) (W_tick w)); [done|]. simpl. f_equal. subst m.
  destruct w as [m ? ? ?]. simpl. by destruct m.
Qed.

Lemma reservePort_spec instance worker name w r w' :
  let m := W_m w in
  0 < m_portLow m <= m_portHigh m ->
  reservePort instance worker name w = (r, w') ->
  grows (m_db m) (m_db (W_m w')) /\ W_o w' = W_o w /\
  match r with
  | inr p => m_portLow m <= p <= m_portHigh m /\ p ∉ taken worker (m_db m) /\
             mkPortRow instance name p worker ∈ t_portAssignments (m_db (W_m w'))
  | inl err =>
    (err = [OtherError "all ports in use"] /\
     forall p, m_portLow m <= p <= m_portHigh m -> p ∈ taken worker (m_db (W_m w'))) \/
    (err = [OtherError "high contention"] /\ exists lost, NoDup lost /\ length lost = 50%nat /\
     Forall (fun p => m_portLow m <= p <= m_portHigh m /\ p ∉ taken worker (m_db m) /\
                      p ∈ taken worker (m_db (W_m w'))) lost) \/
    ~ (db_quiet w /\ is_Some (t_instances (m_db m) !! instance) /\ m_portHigh m < 65536)
  end.
Proof.
  intros m Hrange. unfold reservePort. run. fold m. rewrite decide_False by lia.
  destruct (usedPortBitset_spec worker w) as (w1 & Hm1 & Ho1 & ->); [fold m; lia|]. fold m in Hm1 |- *.
  destruct (o_db (W_o w) (W_tick w)) eqn:Hdb.
  { intros Hrun. simplify_eq/=. rewrite Hm1. split_and!; [done..|]. right; right. intros [Hq _]. by rewrite Hq in Hdb. }
  set (n := m_portHigh m - m_portLow m + 1).
  set (ports := portsInRange worker (m_portLow m) (m_portHigh m) (m_db m)).
  assert (forall p, p ∈ ports <-> m_portLow m <= p <= m_portHigh m /\ p ∈ taken worker (m_db m)) as Hports.
  { intros p. subst ports. unfold portsInRange, taken.
    rewrite elem_of_list_to_set, !list_elem_of_fmap. split.
    - intros (x & -> & [[? ?] ?]%list_elem_of_filter). split; [lia|]. exists x.
      split; [done|]. by apply list_elem_of_filter.
    - intros [? (x & -> & [? ?]%list_elem_of_filter)]. exists x. split; [done|].
      apply list_elem_of_filter. split; [split; [done|lia]|done]. }
  assert (represents (m_portLow m) n (portBitset (m_portLow m) n ports) (list_to_set ports)) as Hrep.
  { apply portBitset_represents; [lia|]. apply Forall_forall. intros p Hp%Hports. lia. }
  replace (m_portHigh m) with (m_portLow m + n - 1) by (subst n; lia). intros Hrun.
  apply (reserveLoop_spec 50 _ _ _ _ _ _ (list_to_set ports)) in Hrun as (Hg & Ho & Hout);
    [|lia|lia|done|intros p Hp%elem_of_list_to_set%Hports; rewrite Hm1; by destruct Hp].
  assert (forall p, m_portLow m <= p <= m_portLow m + n - 1 ->
    p ∉ (list_to_set ports : gset Z) -> p ∉ taken worker (m_db m)) as Hfree.
  { intros p Hp Hn Ht. apply Hn, elem_of_list_to_set, Hports. split; [subst n; lia|done]. }
  rewrite Hm1 in Hg. split_and!; [done|congruence|].
  destruct r as [err|p]; simpl in Hout.
  - destruct Hout as [?|[(-> & lost & Hnd & Hlen & Hl)|Hno]]; [by left| |].
    2:{ right; right. intros (Hq & Hi & Hh). apply Hno. rewrite Hm1. split_and!; [|done..].
        intros j. rewrite Ho1. apply Hq. }
    right; left. split; [done|]. exists lost. split_and!; [done..|].
    eapply Forall_impl; [exact Hl|]. intros p (? & ? & ?). split_and!; [lia..|by apply Hfree|done].
  - destruct Hout as (? & ? & ?). split_and!; [lia..|by apply Hfree|done].
Qed.

(** C35. Reserving a host port gives a port of the configured range that no
    instance held on that worker when the reservation began, recorded for the
    instance, whatever other launches claim meanwhile; "all ports in use" is
    reported only when every port of the range is taken on that worker, and
    "high contention" only when 50 different ports were free at the start and
    were all lost to rivals; nothing else fails it but the database. *)
Theorem reservePort_correct instance worker name w r w' :
  let m := W_m w in
  0 < m_portLow m <= m_portHigh m ->
  reservePort instance worker name w = (r, w') ->
  match r with
  | inr p => m_portLow m <= p <= m_portHigh m /\ p ∉ taken worker (m_db m) /\
             mkPortRow instance name p worker ∈ t_portAssignments (m_db (W_m w'))
  | inl err =>
    (err = [OtherError "all ports in use"] /\
     forall p, m_portLow m <= p <= m_portHigh m -> p ∈ taken worker (m_db (W_m w'))) \/
    (err = [OtherError "high contention"] /\ exists lost, NoDup lost /\ length lost = 50%nat /\
     Forall (fun p => m_portLow m <= p <= m_portHigh m /\ p ∉ taken worker (m_db m) /\
                      p ∈ taken worker (m_db (W_m w'))) lost) \/
    ~ (db_quiet w /\ is_Some (t_instances (m_db m) !! instance) /\ m_portHigh m < 65536)
  end.
Proof. intros m Hr Hrun. by apply (reservePort_spec instance worker name w r w' Hr) in Hrun as (_ & _ & ?). Qed.

(** ** The invariant of the tables *)

(** Referential integrity, and, when ports are reserved out of a range, that
    none is assigned twice on a worker. *)
Record tables_ok (m : Manager) : Prop := {
  to_db : db_ok (m_db m);
  to_ports : m_portLow m <> 0 -> ports_unique (m_db m) }.

Lemma tables_ok_db m d :
  tables_ok m -> db_ok d -> (ports_unique (m_db m) -> ports_unique d) -> tables_ok (m <| m_db := d |>).
Proof. intros [H1 H2] Hd Hp. split; simpl; auto. Qed.

Lemma same_db_tables_ok m m' :
  m_db m' = m_db m -> m_portLow m' = m_portLow m -> tables_ok m -> tables_ok m'.
Proof. intros E1 E2 [H1 H2]. split; rewrite E1; [done|]. by rewrite E2. Qed.

Lemma register_tables_ok w m : tables_ok m -> tables_ok (register w m).
Proof.
  apply same_db_tables_ok; unfold register; by destruct (m_workers m !! w_ip w).
Qed.

Lemma run_op_portLow op m : m_portLow (run_op op m) = m_portLow m.
Proof.
  destruct op; simpl; try done.
  - destruct (AddWorker_register now execErr getErr dialErr ip public m) as [(err & [->| ->])|[_ ->]];
      try done. unfold register. by case_match.
  - unfold RemoveWorker. by repeat case_match.
  - unfold SetWorkerDown. by case_match.
  - destruct (recoverWorker_register now dialErr c m) as [->|(w & _ & _ & _ & ->)]; [done|].
    unfold register. by case_match.
  - unfold noteWorkerTransportError. by repeat case_match.
  - destruct (selectWorker m) as [[m' r]|] eqn:E; [|done]. by apply select_frame in E as [k ->].
Qed.

#[export] Instance tables_ok_stable : Stable tables_ok.
Proof.
  intros op m Hm. pose proof (run_op_portLow op m) as Hlow.
  destruct op; try (by apply (same_db_tables_ok m)).
  - simpl in *. destruct (AddWorker_register now execErr getErr dialErr ip public m)
      as [(err & [E|E])|[_ E]]; rewrite E; simpl; [done| |].
    + apply (tables_ok_db m (upsertWorker ip public (m_db m))); [done| |done]. by destruct Hm as [[] _].
    + assert (tables_ok (m <| m_db ::= upsertWorker ip public |>)) as Hm'.
      { apply (tables_ok_db m (upsertWorker ip public (m_db m))); [done| |done]. by destruct Hm as [[] _]. }
      by apply register_tables_ok.
  - simpl. unfold RemoveWorker. repeat case_match; simplify_eq; try done.
    simpl. destruct Hm as [Hdb Hp]. split; simpl.
    + pose proof (deleteInstances_ok (fun _ r => bool_decide (i_worker r = ip)) _ Hdb) as []. by split.
    + intros Hl. exact (deleteInstances_ports_unique (fun _ r => bool_decide (i_worker r = ip)) _ (Hp Hl)).
  - simpl in *. unfold SetWorkerDown. case_match; by apply (same_db_tables_ok m).
  - simpl in *. destruct (recoverWorker_register now dialErr c m) as [->|(w & _ & _ & _ & ->)]; [done|].
    by apply register_tables_ok.
  - simpl in *. unfold noteWorkerTransportError. repeat case_match; by apply (same_db_tables_ok m).
  - simpl in *. destruct (selectWorker m) as [[m' r]|] eqn:E; [|done].
    apply select_frame in E as [k ->]. by apply (same_db_tables_ok m).
Qed.

Lemma rivalClaims_ok rs d : db_ok d -> db_ok (rivalClaims rs d).
Proof.
  unfold rivalClaims. revert d. induction rs as [|r rs IH]; intros d Hd; simpl; [done|].
  apply IH. destruct (insertPortUnlessTaken r d) as [[d' b]|] eqn:E; [|done].
  by eapply insertPortUnlessTaken_ok.
Qed.
Lemma rivalClaims_unique rs d : ports_unique d -> ports_unique (rivalClaims rs d).
Proof.
  unfold rivalClaims. revert d. induction rs as [|r rs IH]; intros d Hd; simpl; [done|].
  apply IH. destruct (insertPortUnlessTaken r d) as [[d' b]|] eqn:E; [|done].
  by eapply insertPortUnlessTaken_unique.
Qed.

Section keep_tables.
Local Abbreviation Ok := (onM tables_ok).

Lemma keeps_tables_exec f :
  (forall d, db_ok d -> db_ok (f d)) -> (forall d, ports_unique d -> ports_unique (f d)) ->
  Keeps Ok (sqlExec f).
Proof.
  intros H1 H2. apply keeps_sql. intros m d' a Hm ?. simplify_eq.
  apply tables_ok_db; [done|apply H1, Hm|apply H2].
Qed.
#[export] Instance keeps_retryable {A} I (e : M (error + A)) : Keeps I e -> Keeps I (retryable e).
Proof. intros He. unfold retryable. keep. Qed.
#[export] Instance keeps_rivals : Keeps Ok rivals.
Proof.
  unfold rivals. apply keeps_bind; [apply _|]. intros rs. apply keeps_modify. intros m Hm.
  apply (tables_ok_db m (rivalClaims rs (m_db m))); [done|apply rivalClaims_ok, Hm|apply rivalClaims_unique].
Qed.
#[export] Instance keeps_claimSql r : Keeps Ok (sql (insertPortUnlessTaken r)).
Proof.
  apply keeps_sql. intros m d' b Hm E. apply tables_ok_db; [done| |].
  - eapply insertPortUnlessTaken_ok, E. apply Hm.
  - intros Hp. by eapply insertPortUnlessTaken_unique.
Qed.
#[export] Instance keeps_claimPort instance worker name port : Keeps Ok (claimPort instance worker name port).
Proof. unfold claimPort. keep. Qed.
#[export] Instance keeps_reserveLoop k instance worker name low high bs :
  Keeps Ok (reserveLoop k instance worker name low high bs).
Proof. revert bs. induction k as [|k IH]; intros bs; unfold reserveLoop; fold reserveLoop; keep. Qed.
#[export] Instance keeps_usedPortBitset worker : Keeps Ok (usedPortBitset worker).
Proof. unfold usedPortBitset. keep. Qed.
#[export] Instance keeps_reservePort instance worker name : Keeps Ok (reservePort instance worker name).
Proof. unfold reservePort. keep. Qed.
#[export] Instance keeps_deletePorts id : Keeps Ok (sqlExec (deletePorts id)).
Proof. apply keeps_tables_exec; auto with cork. Qed.
#[export] Instance keeps_releasePorts instance : Keeps Ok (releasePorts instance).
Proof. unfold releasePorts. keep. Qed.
#[export] Instance keeps_reassignPort instance name previous : Keeps Ok (reassignPort instance name previous).
Proof. unfold reassignPort. keep. Qed.
#[export] Instance keeps_reassignLoop ports rev previous instance :
  Keeps Ok (reassignLoop ports rev previous instance).
Proof. revert instance. induction ports; intros instance; simpl; keep. Qed.
#[export] Instance keeps_reassignPorts build instance rev previous :
  Keeps Ok (reassignPorts build instance rev previous).
Proof. unfold reassignPorts. keep. Qed.
End keep_tables.

(** ** Restarting in place *)

(** Every port the instance lists is recorded for it, in range. *)
Definition backed (m : Manager) (i : InstanceMetadata) : Prop :=
  forall name port, im_ports i !! name = Some port ->
    m_portLow m <= port <= m_portHigh m /\
    mkPortRow (im_id i) name port (im_worker i) ∈ t_portAssignments (m_db m).

(** The part of the Manager reservations do not touch. *)
Definition same_range (m m' : Manager) : Prop :=
  m_portLow m' = m_portLow m /\ m_portHigh m' = m_portHigh m.

Lemma reserveLoop_range k instance worker name low high bs w r w' :
  reserveLoop k instance worker name low high bs w = (r, w') -> same_range (W_m w) (W_m w').
Proof.
  revert bs w. induction k as [|k IH]; intros bs w Hrun; unfold reserveLoop in Hrun; fold reserveLoop in Hrun; run.
  { by simplify_eq. }
  case_decide; [by simplify_eq|].
  destruct (claimPort _ _ _ _ _) as [b w2] eqn:Hc.
  apply claimPort_spec in Hc as (_ & _ & Hlo & Hhi & _).
  destruct b as [err|[|]]; simplify_eq; try done.
  apply IH in Hrun as [H1 H2]. split; [by rewrite H1|by rewrite H2].
Qed.

Lemma reservePort_range instance worker name w r w' :
  reservePort instance worker name w = (r, w') -> same_range (W_m w) (W_m w').
Proof.
  unfold reservePort. run. destruct (decide (m_portLow (W_m w) = 0)); [by intros; simplify_eq|].
  destruct (usedPortBitset_spec worker w) as (w1 & Hm1 & _ & ->); [done|].
  destruct (o_db (W_o w) (W_tick w)); [intros; simplify_eq; by rewrite Hm1|].
  intros Hrun. apply reserveLoop_range in Hrun. by rewrite Hm1 in Hrun.
Qed.

Lemma backed_grows m m' i :
  same_range m m' -> grows (m_db m) (m_db m') -> backed m i -> backed m' i.
Proof.
  intros [Hl Hh] Hg Hb name port Hp. destruct (Hb name port Hp) as [? ?].
  rewrite Hl, Hh. split; [done|]. by apply (gr_ports _ _ Hg).
Qed.

Lemma backed_insert m i name port :
  backed m i -> m_portLow m <= port <= m_portHigh m ->
  mkPortRow (im_id i) name port (im_worker i) ∈ t_portAssignments (m_db m) ->
  backed m (i <| im_ports ::= <[name := port]> |>).
Proof.
  intros Hb Hr Hrow n p. simpl. rewrite lookup_insert. case_decide; intros; simplify_eq; [done|by apply Hb].
Qed.

(** One port: kept if it can be, else drawn anew; recorded either way. *)
Lemma reassignPort_spec i name previous w r w' :
  0 < m_portLow (W_m w) <= m_portHigh (W_m w) ->
  reassignPort i name previous w = (r, w') ->
  same_range (W_m w) (W_m w') /\ grows (m_db (W_m w)) (m_db (W_m w')) /\ W_o w' = W_o w /\
  match r with
  | inr i' => exists port, i' = i <| im_ports ::= <[name := port]> |> /\
      m_portLow (W_m w) <= port <= m_portHigh (W_m w) /\
      mkPortRow (im_id i) name port (im_worker i) ∈ t_portAssignments (m_db (W_m w'))
  | inl _ => True
  end.
Proof.
  intros Hr.
  assert (forall w1 r, m_portLow (W_m w1) = m_portLow (W_m w) -> m_portHigh (W_m w1) = m_portHigh (W_m w) ->
    (let? port := reservePort (im_id i) (im_worker i) name in ok (i <| im_ports ::= <[name := port]> |>)) w1 = (r, w') ->
    same_range (W_m w1) (W_m w') /\ grows (m_db (W_m w1)) (m_db (W_m w')) /\ W_o w' = W_o w1 /\
    match r with
    | inr i' => exists port, i' = i <| im_ports ::= <[name := port]> |> /\
        m_portLow (W_m w) <= port <= m_portHigh (W_m w) /\
        mkPortRow (im_id i) name port (im_worker i) ∈ t_portAssignments (m_db (W_m w'))
    | inl _ => True
    end) as Hfresh.
  { intros w1 r1 Hl Hh. run. destruct (reservePort (im_id i) (im_worker i) name w1) as [p w2] eqn:Hres.
    pose proof (reservePort_range _ _ _ _ _ _ Hres). 
    apply reservePort_spec in Hres as (? & ? & Hout); [|lia].
    destruct p as [err|p]; intros; simplify_eq; split_and!; try done. exists p.
    rewrite Hl, Hh in Hout. naive_solver. }
  unfold reassignPort. unfold mbind at 1, M_bind at 1, getM. cbn beta iota zeta.
  destruct (previous !! name) as [prev|]; [|intros Hrun; by apply Hfresh in Hrun].
  case_decide as Hrange; [|intros Hrun; by apply Hfresh in Hrun].
  unfold try at 1, mbind at 1, M_bind at 1.
  destruct (claimPort _ _ _ _ _) as [b w2] eqn:Hc.
  apply claimPort_spec in Hc as (Ho & Hg & Hlo & Hhi & Hb).
  destruct b as [err|[|]].
  - run. intros; simplify_eq. done.
  - run. intros; simplify_eq. split_and!; try done. destruct Hb. by exists prev.
  - intros Hrun. apply Hfresh in Hrun as ([? ?] & ? & ? & ?); [|done..].
    split_and!; [split; congruence|by etransitivity|congruence|done].
Qed.

Lemma reassignLoop_spec ports rev previous i w err i' w' :
  0 < m_portLow (W_m w) <= m_portHigh (W_m w) -> backed (W_m w) i ->
  reassignLoop ports rev previous i w = ((err, i'), w') ->
  im_id i' = im_id i /\ im_worker i' = im_worker i /\ W_o w' = W_o w /\
  backed (W_m w') i' /\ (forall name, is_Some (im_ports i !! name) -> is_Some (im_ports i' !! name)) /\
  (err = None -> Forall (fun p => exists name, rev !! p = Some name /\ is_Some (im_ports i' !! name)) ports).
Proof.
  revert i w. induction ports as [|p ports IH]; intros i w Hr Hb Hrun; simpl in Hrun.
  { run. simplify_eq. by split_and!. }
  destruct (rev !! p) as [name|] eqn:Hrev; [|run; simplify_eq; by split_and!].
  case_decide; [run; simplify_eq; by split_and!|].
  unfold mbind, M_bind in Hrun.
  destruct (reassignPort i name previous w) as [r w1] eqn:Hp.
  apply reassignPort_spec in Hp as ([Hl Hh] & Hg & Ho & Hout); [|done].
  assert (backed (W_m w1) i) as Hb1 by (eapply backed_grows; [split|..]; done).
  destruct r as [e|i1]; [run; simplify_eq; by split_and!|].
  destruct Hout as (port & -> & Hpr & Hrow).
  apply IH in Hrun as (E1 & E2 & E3 & Hb2 & Hmono & Hall);
    [|rewrite Hl, Hh; done|apply backed_insert; [done|rewrite Hl, Hh; done|done]].
  split_and!; [done..|congruence|done| |].
  - intros n Hn. apply Hmono. simpl. rewrite lookup_insert. case_decide; [eauto|done].
  - intros He. constructor; [|by apply Hall]. exists name. split; [done|]. apply Hmono. simpl.
    rewrite lookup_insert_eq. eauto.
Qed.

(** Restarting an instance in place is all or nothing as far as its ports
    go.  On success every published port of its images has a host port of the
    range, listed on the instance and recorded for it on its worker; on any
    failure the instance lists none and, unless the database refuses the
    release too, none is recorded for it. *)
Theorem reassignPorts_all_or_nothing build i rev previous w err i' w' :
  0 < m_portLow (W_m w) <= m_portHigh (W_m w) ->
  reassignPorts build i rev previous w = ((err, i'), w') ->
  im_id i' = im_id i /\ backed (W_m w') i' /\
  match err with
  | None => Forall (fun p => exists name, rev !! p = Some name /\ is_Some (im_ports i' !! name))
              (publishedPorts build)
  | Some _ => im_ports i' = ∅ /\
      (db_quiet w -> Forall (fun r => p_instance r <> im_id i) (t_portAssignments (m_db (W_m w'))))
  end.
Proof.
  intros Hr Hrun. unfold reassignPorts in Hrun. unfold mbind at 1, M_bind at 1, getM in Hrun.
  rewrite decide_False in Hrun by lia. unfold mbind at 1, M_bind at 1 in Hrun.
  destruct (reassignLoop _ _ _ _ w) as [[e i1] w1] eqn:Hloop.
  apply reassignLoop_spec in Hloop as (E1 & E2 & Ho & Hb & _ & Hall); [|done|done].
  destruct e as [e|]; [|run; simplify_eq; split_and!; auto].
  unfold releasePorts in Hrun. run. destruct (o_db (W_o w1) (W_tick w1)) eqn:Hdb; simplify_eq.
  - split_and!; [done|done|done|]. intros Hq. rewrite Ho, Hq in Hdb. done.
  - simpl in *. split_and!; [done|done|done|]. intros _. rewrite E1. apply Forall_forall.
    intros r [Hne _]%list_elem_of_filter. done.
Qed.

(** ** A launch that needs a port *)

(** The demo system with an instance of the build on record, on a range of
    101 ports of which the first is held by it. *)
Definition port_rows (d : Db) : Db :=
  match insertInstance 5 1 0 "10.0.0.1" d with
  | Some (d, id) => default d (insertPort (mkPortRow id "old" 30000 "10.0.0.1") d)
  | None => d
  end.
Definition port_world (o : Oracle) : World :=
  (demo_world o) <| W_m ::= (fun m => m <| m_db ::= port_rows |>) |>.

Lemma reservePort_correct_witness :
  let '(r, w') := reservePort 1 "10.0.0.1" "http" (port_world calm) in
  r = inr 30001 /\ mkPortRow 1 "http" 30001 "10.0.0.1" ∈ t_portAssignments (m_db (W_m w')).
Proof.
  destruct (reservePort 1 "10.0.0.1" "http" (port_world calm)) as [r w'] eqn:E.
  assert (r = inr 30001) as -> by (vm_compute in E; congruence).
  split; [reflexivity|].
  apply (reservePort_correct 1 "10.0.0.1" "http" (port_world calm) (inr 30001) w'); [|exact E].
  vm_compute; split; congruence.
Defined.

Definition port_build : BuildMetadata :=
  (newBuild 42 "flag{%s}" "web" "event" DYNAMIC_INSTANCES) <| bm_id := 1 |>
    <| bm_images := [mkImage 1 "web" ["80/tcp"%string] 1] |>.
Definition port_instance : InstanceMetadata :=
  mkInstance 1 true ∅ [] 0 None 1 "10.0.0.1" "" "".

Lemma reassignPorts_all_or_nothing_witness :
  let '((err, i'), w') :=
    reassignPorts port_build port_instance {["80/tcp" := "http"]} {["http" := 30007]} (port_world calm) in
  err = None /\ im_ports i' = {["http" := 30007]} /\ backed (W_m w') i'.
Proof.
  destruct (reassignPorts _ _ _ _ _) as [[err i'] w'] eqn:E.
  assert (err = None /\ im_ports i' = {["http" := 30007]}) as [-> Hp].
  { vm_compute in E. injection E as <- <- _. split; [reflexivity|vm_compute; reflexivity]. }
  split; [reflexivity|]. split; [exact Hp|].
  apply (reassignPorts_all_or_nothing port_build port_instance {["80/tcp" := "http"]}
    {["http" := 30007]} (port_world calm) None i' w'); [|exact E].
  vm_compute; split; congruence.
Defined.
