(* ===== verification/Instances.v ===== *)
(** * Instances: the records of an instance

    [openInstance], [finalizeInstance], [lookupInstanceMetadata],
    [lookupBuildInstances], [removeContainersMetadata], [removeInstanceMetadata]
    and the solve records of [cork/database_instances.go], with the reads of
    builds and challenges the launch path makes ([lookupBuildMetadata],
    [lookupChallengeMetadata], [getReversePortMap]).

    A read-only transaction of several [SELECT]s is one read that may fail. *)
From S2P Require Import Prelude Types Settings Queue Worker Database Fleet Effects Ports.
Local Open Scope Z_scope.

(** ** Writing *)

Definition openInstance (meta : InstanceMetadata) : M (error + InstanceMetadata) :=
  t ← now;
  let? id := retryable (sql (insertInstance (t `div` Second) (im_build meta) (im_lastSolved meta) (im_worker meta))) in
  ok (meta <| im_id := id |>).

(** Statements in a row, stopping at the first that fails. *)
Fixpoint sqlAll {A} (f : A -> Db -> option (Db * unit)) (l : list A) : M (error + unit) :=
  match l with
  | [] => ok tt
  | a :: l => let? _ := sql (f a) in sqlAll f l
  end.

(** A statement that returns nothing but may be refused. *)
Definition stmt (f : Db -> option Db) (d : Db) : option (Db * unit) :=
  match f d with Some d' => Some (d', tt) | None => None end.

(** The statements of [finalizeInstance]: the ports docker assigned, when no
    range is configured, the containers, and the flag. *)
Definition finalizeBody (noRange : bool) (meta : InstanceMetadata) : M (error + unit) :=
  let? _ := (if noRange then
               sqlAll (fun np => stmt (insertPort (mkPortRow (im_id meta) np.1 np.2 (im_worker meta))))
                 (map_to_list (im_ports meta))
             else ok tt) in
  let? _ := sqlAll (fun cid => stmt (insertContainer (mkContainerRow (im_id meta) cid))) (im_containers meta) in
  sqlExec (setFinalized (im_id meta)).
Definition finalizeInstance (meta : InstanceMetadata) : M (error + unit) :=
  m ← getM; transaction (finalizeBody (bool_decide (m_portLow m = 0)) meta).

Definition removeContainersMetadata (instance : InstanceMetadata) : M (error + unit) :=
  transaction (
    let? _ := sqlExec (deletePorts (im_id instance)) in
    sqlExec (deleteContainers (im_id instance))).

Definition removeInstanceMetadata (id : InstanceId) : M (error + unit) :=
  retryable (sqlExec (deleteInstance id)).

(** ** Reading *)

Definition instancePorts (id : InstanceId) (d : Db) : gmap string Z :=
  list_to_map (rev ((fun r => (p_name r, p_port r)) <$>
    filter (fun r => p_instance r = id) (t_portAssignments d))).
Definition instanceContainers (id : InstanceId) (d : Db) : list string :=
  c_id <$> filter (fun r => c_instance r = id) (t_containers d).
Definition instanceMeta (id : InstanceId) (r : instanceRow) (d : Db) : InstanceMetadata :=
  mkInstance id (i_is_finalized r) (instancePorts id d) (instanceContainers id d) (i_lastsolved r)
    (i_created_at r) (i_build r) (i_worker r) "" "".

Definition lookupInstanceMetadata (id : InstanceId) : M (error + InstanceMetadata) :=
  let? d := sqlRead (fun d => d) in
  match t_instances d !! id with
  | None => fail (unknownInstanceIdError id)
  | Some r => ok (instanceMeta id r d)
  end.

Definition lookupBuildInstances (build : BuildId) : M (error + list InstanceMetadata) :=
  let? d := sqlRead (fun d => d) in
  ok ((fun kv => instanceMeta kv.1 kv.2 d) <$>
      filter (fun kv => i_build kv.2 = build) (rows (t_instances d))).

Definition getBuildInstances (build : BuildId) : M (error + list InstanceId) :=
  sqlRead (instancesOfBuild build).

(** The images of a build with their ports, by id. *)
Definition buildImages (build : BuildId) (d : Db) : list Image :=
  (fun kv => mkImage kv.1 (ig_host kv.2) (snd <$> filter (fun ip => ip.1 = kv.1) (t_imagePorts d)) 0) <$>
  filter (fun kv => ig_build kv.2 = build) (rows (t_images d)).
Definition buildMeta (id : BuildId) (r : buildRow) (d : Db) : BuildMetadata :=
  mkBuild id (b_flag r)
    (list_to_map (rev (snd <$> filter (fun x => x.1 = id) (t_lookupData d))))
    (b_seed r) (b_format r) (b_checksum r) (b_prevchecksum r) (b_sourcechecksum r)
    (buildImages id d) (b_hasartifacts r) (b_lastsolved r) (b_challenge r) [] (b_schema r)
    (b_instancecount r).

Definition lookupBuildMetadata (id : BuildId) : M (error + BuildMetadata) :=
  let? d := sqlRead (fun d => d) in
  match t_builds d !! id with
  | None => fail (unknownBuildIdError id)
  | Some r => ok (buildMeta id r d)
  end.

Definition challengeParts_of (id : ChallengeId) (d : Db) : challengeParts :=
  default noParts (t_parts d !! id).

(** [lookupChallengeMetadata]: the row, the tables that hang off it, and the
    delivery type derived from them. *)
Definition noContainerOptions : ContainerOptions :=
  mkContainerOptions false "" "" [] 0 false [] false "" "" false None.
Definition challengeMeta (id : ChallengeId) (r : challengeRow) (p : challengeParts) : ChallengeMetadata :=
  let portMap : gmap string PortInfo := list_to_map (rev (cp_portNames p)) in
  let overrides : gmap string ContainerOptions := list_to_map (rev (cp_options p)) in
  mkChallenge id (ch_name r) (ch_namespace r) (ch_challengetype r) (ch_description r) (ch_details r)
    (snd <$> cp_hints p) (ch_sourcechecksum r) (ch_metadatachecksum r) (ch_path r) (ch_templatable r)
    portMap (snd <$> cp_hosts p) (ch_maxusers r) (ch_category r) (ch_points r) (cp_tags p)
    (list_to_map (rev (cp_attributes p)))
    (mkChallengeOptions (default noContainerOptions (overrides !! ""%string)) overrides)
    (ch_solvescript r)
    (deriveDeliveryType (ch_challengetype r) (size portMap)) [].

Definition lookupChallengeMetadata (id : ChallengeId) : M (error + ChallengeMetadata) :=
  let? d := sqlRead (fun d => d) in
  match t_challenges d !! id with
  | None => fail (unknownChallengeIdError id)
  | Some r => ok (challengeMeta id r (challengeParts_of id d))
  end.

(** [getReversePortMap]: ["<port>/tcp"] to the port's name. *)
Definition getReversePortMap (id : ChallengeId) : M (error + gmap string string) :=
  sqlRead (fun d => list_to_map (rev ((fun np => (String.append (pretty (pi_port np.2)) "/tcp", np.1)) <$>
    cp_portNames (challengeParts_of id d)))).

(** ** Solves *)

(** [recordInstanceSolveQuery] and [recordBuildSolveQuery]: a solve is only
    ever moved forward. *)
Definition solveInstance (id : InstanceId) (lastSolved : Z) (d : Db) : Db :=
  d <| t_instances ::= alter (fun r => if decide (i_lastsolved r < lastSolved)
                                       then r <| i_lastsolved := lastSolved |> else r) id |>.
Definition solveBuild (id : BuildId) (lastSolved : Z) (d : Db) : Db :=
  d <| t_builds ::= alter (fun r => if decide (b_lastsolved r < lastSolved)
                                    then r <| b_lastsolved := lastSolved |> else r) id |>.
Definition recordBuildSolve (build : BuildMetadata) : M (error + unit) :=
  sqlExec (solveBuild (bm_id build) (bm_lastSolved build)).
Definition recordSolve (instance : InstanceMetadata) : M (error + unit) :=
  transaction (
    let? _ := sqlExec (solveInstance (im_id instance) (im_lastSolved instance)) in
    sqlExec (solveBuild (im_build instance) (im_lastSolved instance))).

#[export] Instance db_only_sqlAll {A} (f : A -> Db -> option (Db * unit)) l : DbOnly (sqlAll f l).
Proof. induction l; simpl; apply _. Qed.

(** ** The tables stay sound *)
Section keep_records.
Local Abbreviation Ok := (onM tables_ok).

#[export] Instance keeps_openInstance meta : Keeps Ok (openInstance meta).
Proof.
  unfold openInstance. apply keeps_bind; [apply _|]. intros t. apply keeps_try; [|apply _].
  apply keeps_retryable, keeps_sql. intros m d' id Hm E. apply tables_ok_db; [done| |].
  - eapply insertInstance_ok, E. apply Hm.
  - apply insertInstance_spec in E as (_ & _ & ->). done.
Qed.
#[export] Instance keeps_removeInstanceMetadata id : Keeps Ok (removeInstanceMetadata id).
Proof.
  unfold removeInstanceMetadata. apply keeps_retryable, keeps_tables_exec; intros d Hd.
  - by apply deleteInstances_ok.
  - by apply (deleteInstances_ports_unique (fun i _ => bool_decide (i = id))).
Qed.
#[export] Instance keeps_deleteContainers id : Keeps Ok (sqlExec (deleteContainers id)).
Proof. apply keeps_tables_exec; auto with cork. Qed.
#[export] Instance keeps_setFinalized id : Keeps Ok (sqlExec (setFinalized id)).
Proof. apply keeps_tables_exec; auto with cork. Qed.
#[export] Instance keeps_removeContainersMetadata i : Keeps Ok (removeContainersMetadata i).
Proof. unfold removeContainersMetadata. apply keeps_transaction; [apply _|keep]. Qed.

Lemma keeps_sqlAll {A} (f : A -> Db -> option (Db * unit)) l :
  (forall a, Keeps Ok (sql (f a))) -> Keeps Ok (sqlAll f l).
Proof. intros Hf. induction l; simpl; keep. Qed.

#[export] Instance db_only_finalizeBody b meta : DbOnly (finalizeBody b meta).
Proof. unfold finalizeBody. destruct b; apply _. Qed.

(** Recording keeps referential integrity; without a range docker's own ports
    go in as they are. *)
Lemma keeps_finalizeBody b (I : Manager -> Prop) meta :
  (forall m d, I m -> db_ok d -> (b = false -> t_portAssignments d = t_portAssignments (m_db m)) ->
     I (m <| m_db := d |>)) -> (forall m, I m -> db_ok (m_db m)) ->
  Keeps (onM I) (finalizeBody b meta).
Proof.
  intros Hset Hdb. unfold finalizeBody. apply keeps_try; [|intros _; apply keeps_try; [|intros _]].
  - destruct b; [|apply _]. induction (map_to_list (im_ports meta)) as [|[n p] l IH]; simpl; keep.
    apply keeps_sql. intros m d' [] Hm E. unfold stmt in E. destruct (insertPort _ _) eqn:Ei; simplify_eq.
    apply Hset; [done| |done]. eapply insertPort_ok, Ei. auto.
  - induction (im_containers meta) as [|cid l IH]; simpl; keep.
    apply keeps_sql. intros m d' [] Hm E. unfold stmt in E. destruct (insertContainer _ _) eqn:Ei; simplify_eq.
    apply Hset; [done|eapply insertContainer_ok, Ei; auto|]. intros _.
    unfold insertContainer in Ei. by case_decide; simplify_eq.
  - unfold sqlExec. apply keeps_sql. intros m d' [] Hm E. simplify_eq.
    apply Hset; [done|apply setFinalized_ok; auto|done].
Qed.

#[export] Instance keeps_finalizeInstance meta : Keeps Ok (finalizeInstance meta).
Proof.
  intros w Hw. unfold finalizeInstance, mbind, M_bind, getM. case_bool_decide as Hz.
  - assert (Keeps (onM (fun m => tables_ok m /\ m_portLow m = 0)) (finalizeBody true meta)) as Hk.
    { apply keeps_finalizeBody; [|intros m [Hm _]; apply Hm].
      intros m d [Hm Hl] Hd _. split; [split; [done|simpl; by rewrite Hl]|done]. }
    pose proof (keeps_transaction _ _ _ Hk w (conj Hw Hz)) as [? _]. done.
  - apply (keeps_transaction tables_ok); [apply _| |done]. apply keeps_finalizeBody.
    + intros m d Hm Hd Hp. apply tables_ok_db; [done..|]. unfold ports_unique. by rewrite Hp.
    + apply to_db.
Qed.
End keep_records.

(** ** What is recorded is what is read back *)

Lemma sql_inr {A} (f : Db -> option (Db * A)) w a w' :
  sql f w = (inr a, w') ->
  f (m_db (W_m w)) = Some (m_db (W_m w'), a) /\ W_m w' = (W_m w) <| m_db := m_db (W_m w') |> /\ W_o w' = W_o w.
Proof.
  run. destruct (o_db _ _); [done|]. simpl. destruct (f _) as [[d' b]|]; [|done].
  intros; by simplify_eq/=.
Qed.

(** Appending statements: what [insertPort] and [insertContainer] have in
    common. *)
Lemma sqlAll_inserts {A B} (f : A -> Db -> option Db) (g : A -> B) (view : Db -> list B)
    (keep : Db -> Prop) l w w' :
  (forall a d d', f a d = Some d' -> view d' = view d ++ [g a] /\ (keep d -> keep d')) ->
  sqlAll (fun a => stmt (f a)) l w = (inr tt, w') ->
  view (m_db (W_m w')) = view (m_db (W_m w)) ++ (g <$> l) /\
  (keep (m_db (W_m w)) -> keep (m_db (W_m w'))) /\
  W_m w' = (W_m w) <| m_db := m_db (W_m w') |> /\ W_o w' = W_o w.
Proof.
  intros Hf. revert w. induction l as [|a l IH]; intros w Hrun; simpl in Hrun.
  { run. simplify_eq. rewrite app_nil_r. split_and!; auto using eq_sym, same_db. }
  unfold try, mbind, M_bind in Hrun. destruct (sql _ w) as [[err|[]] w1] eqn:E; [run; done|].
  apply sql_inr in E as (E & Em & Eo). unfold stmt in E.
  destruct (f a (m_db (W_m w))) as [d1|] eqn:Ef; simplify_eq. destruct (Hf _ _ _ Ef) as [Hv Hk].
  apply IH in Hrun as (Hv' & Hk' & Hm' & Ho'). split_and!.
  - rewrite Hv', Hv, <- app_assoc. done.
  - auto.
  - rewrite Hm', Em. done.
  - congruence.
Qed.

Lemma list_to_map_rev {A} (m : gmap string A) : list_to_map (rev (map_to_list m)) = m.
Proof.
  rewrite <- (list_to_map_to_list m) at 2. apply list_to_map_proper.
  - rewrite <- (Permutation_rev (map_to_list m)). apply NoDup_fst_map_to_list.
  - symmetry. apply Permutation_rev.
Qed.

Lemma filter_all {A} (P : A -> Prop) `{!forall x, Decision (P x)} l : Forall P l -> filter P l = l.
Proof. induction 1; [done|]. rewrite filter_cons_True by done. congruence. Qed.

Lemma fmap_pairs_id {A B} (l : list (A * B)) : (fun x => (x.1, x.2)) <$> l = l.
Proof. induction l as [|[a b] l IH]; [done|]. rewrite fmap_cons. by f_equal. Qed.

(** Recording a launched instance is atomic and lossless.  On any failure
    the tables are as they were; on success, for an instance with nothing on
    record yet, reading it back gives exactly the containers that were started
    and, when docker assigned the ports, exactly those ports, and the instance
    is finalized. *)
Theorem finalizeInstance_roundtrip meta r w res w' :
  t_instances (m_db (W_m w)) !! im_id meta = Some r ->
  instanceContainers (im_id meta) (m_db (W_m w)) = [] ->
  instancePorts (im_id meta) (m_db (W_m w)) = ∅ ->
  finalizeInstance meta w = (res, w') ->
  match res with
  | inl _ => W_m w' = W_m w
  | inr _ =>
    o_db (W_o w') (W_tick w') = None ->
    exists got, (lookupInstanceMetadata (im_id meta) w').1 = inr got /\
      im_containers got = im_containers meta /\ im_isFinalized got = true /\
      im_build got = i_build r /\ im_worker got = i_worker r /\
      (m_portLow (W_m w) = 0 -> im_ports got = im_ports meta)
  end.
Proof.
  intros Hrow Hc Hp. unfold finalizeInstance, mbind, M_bind, getM.
  set (b := bool_decide _). intros Hrun. apply transaction_spec in Hrun as (_ & _ & Hres); [|apply _].
  destruct res as [err|[]]; [done|]. destruct Hres as (w1 & Hbody & Hm). intros Hdb.
  unfold finalizeBody in Hbody.
  apply try_inr in Hbody as ([] & w2 & H1 & H2). apply try_inr in H2 as ([] & w3 & H3 & H2).
  apply sql_inr in H2 as (H2 & _ & _). injection H2 as H2.
  apply (sqlAll_inserts (fun cid => insertContainer (mkContainerRow (im_id meta) cid))
    (fun cid => mkContainerRow (im_id meta) cid) t_containers
    (fun d => t_instances d = t_instances (m_db (W_m w2)) /\ t_portAssignments d = t_portAssignments (m_db (W_m w2))))
    in H3 as (Hcont & Hkeep & _); [|intros a d d'; unfold insertContainer; by case_decide; intros; simplify_eq].
  destruct (Hkeep (conj eq_refl eq_refl)) as [Hi3 Hp3]. clear Hkeep.
  assert (t_instances (m_db (W_m w2)) = t_instances (m_db (W_m w)) /\
    t_containers (m_db (W_m w2)) = t_containers (m_db (W_m w)) /\
    t_portAssignments (m_db (W_m w2)) = t_portAssignments (m_db (W_m w)) ++
      (if b then (fun np => mkPortRow (im_id meta) np.1 np.2 (im_worker meta)) <$> map_to_list (im_ports meta) else []))
    as (Hi2 & Hc2 & Hp2).
  { destruct b; [|run; simplify_eq; by rewrite app_nil_r].
    apply (sqlAll_inserts (fun np => insertPort (mkPortRow (im_id meta) np.1 np.2 (im_worker meta)))
      (fun np => mkPortRow (im_id meta) np.1 np.2 (im_worker meta)) t_portAssignments
      (fun d => t_instances d = t_instances (m_db (W_m w)) /\ t_containers d = t_containers (m_db (W_m w))))
      in H1 as (? & Hk & _); [by destruct (Hk (conj eq_refl eq_refl))|].
    intros a d d' (_ & _ & ->)%insertPort_spec. done. }
  unfold lookupInstanceMetadata. run. rewrite Hdb. simpl. rewrite Hm, <- H2. simpl.
  rewrite Hi3, Hi2, lookup_alter_eq, Hrow. simpl. eexists. split; [done|].
  unfold instanceMeta; simpl. split_and!; try done.
  - unfold instanceContainers in *. simpl. rewrite Hcont, Hc2, filter_app, fmap_app, Hc. simpl.
    rewrite filter_all by (by apply Forall_fmap, Forall_true).
    rewrite <- list_fmap_compose. apply list_fmap_id.
  - intros Hz. subst b. rewrite bool_decide_eq_true_2 in Hp2 by done.
    unfold instancePorts in *. simpl. rewrite Hp3, Hp2, filter_app, fmap_app, rev_app_distr.
    rewrite <- (list_to_map_rev (im_ports meta)) at 2. rewrite list_to_map_app, Hp, map_union_empty.
    rewrite filter_all by (by apply Forall_fmap, Forall_true).
    rewrite <- list_fmap_compose. do 2 f_equal. apply fmap_pairs_id.
Qed.

(** The instance of [port_world], with docker's own ports. *)
Definition ephemeral_world : World := (port_world calm) <| W_m ::= (fun m => m <| m_portLow := 0 |>
  <| m_db ::= deletePorts 1 |>) |>.
Definition launched : InstanceMetadata :=
  port_instance <| im_ports := {["http" := 32768]} |> <| im_containers := ["c0"; "c1"]%string |>.

Lemma finalizeInstance_roundtrip_witness :
  exists got, (lookupInstanceMetadata 1 (finalizeInstance launched ephemeral_world).2).1 = inr got /\
    im_ports got = {["http" := 32768]} /\ im_containers got = ["c0"; "c1"]%string.
Proof.
  destruct (finalizeInstance launched ephemeral_world) as [[err|[]] w'] eqn:E;
    [vm_compute in E; discriminate|].
  destruct (t_instances (m_db (W_m ephemeral_world)) !! 1) as [r|] eqn:Hr; [|vm_compute in Hr; discriminate].
  destruct (finalizeInstance_roundtrip launched r ephemeral_world (inr ()) w' Hr) as (got & Hg & Hc & _ & _ & _ & Hp);
    [vm_compute; reflexivity..|exact E|vm_compute in E; injection E as <-; reflexivity|].
  exists got. split; [exact Hg|]. split; [|exact Hc]. apply Hp. reflexivity.
Defined.
