(* ===== verification/Images.v ===== *)
(** * Images: the identity of a build's images

    [contentChecksum] and [dockerId] of [cork/docker.go]: the CRC-32 of the
    source generation, flag format, base image pins and Dockerfile template a
    build was made from, and the docker tags derived from it.  The CRC is the
    IEEE one of Go's [hash/crc32], bit by bit. *)
From S2P Require Import Prelude Types Settings Text.
Local Open Scope Z_scope.

(** ** CRC-32 *)
Definition crcPoly : Z := 0xEDB88320.

Definition crcBit (c : Z) : Z :=
  if Z.testbit c 0 then Z.lxor (Z.shiftr c 1) crcPoly else Z.shiftr c 1.
Definition crcByte (c b : Z) : Z := Nat.iter 8 crcBit (Z.lxor c b).
Definition crcWrite (c : Z) (bytes : list Z) : Z := foldl crcByte c bytes.
Definition crcInit : Z := 0xFFFFFFFF.
Definition crcSum (c : Z) : Z := Z.lxor c 0xFFFFFFFF.

Definition bytesOf (s : string) : list Z := (fun c => Z.of_nat (nat_of_ascii c)) <$> list_ascii_of_string s.
Definition ChecksumIEEE (bytes : list Z) : Z := crcSum (crcWrite crcInit bytes).

Example crc_check_value : ChecksumIEEE (bytesOf "123456789") = 0xCBF43926.
Proof. reflexivity. Qed.

(** [binary.BigEndian.PutUint32]. *)
Definition bigEndian (x : Z) : list Z :=
  [Z.land (Z.shiftr x 24) 255; Z.land (Z.shiftr x 16) 255; Z.land (Z.shiftr x 8) 255; Z.land x 255].

Definition contentChecksum (sourceChecksum : Z) (format : string) (basePins template : Z) : Z :=
  let h := crcWrite crcInit (bigEndian sourceChecksum) in
  let h := crcWrite h (bytesOf format) in
  let h := if decide (basePins <> 0) then crcWrite h (bigEndian basePins) else h in
  let h := if decide (template <> 0) then crcWrite h (bigEndian template) else h in
  let sum := crcSum h in
  if decide (sum = 0) then 1 else sum.

(** The value the code's comment gives as an example of a sum that is zero. *)
Example contentChecksum_zero_sum :
  crcSum (crcWrite (crcWrite crcInit (bigEndian 0x05f16712)) (bytesOf "flag{%s}")) = 0 /\
  contentChecksum 0x05f16712 "flag{%s}" 0 0 = 1.
Proof. split; reflexivity. Qed.

(** ** Tags *)

Definition hexDigit (d : Z) : ascii :=
  ascii_of_nat (Z.to_nat (if decide (d < 10) then 48 + d else 87 + d)).
(** [%x] of a 32-bit word: its hexadecimal digits, at least one. *)
Fixpoint hexDigits (fuel : nat) (n : Z) (acc : string) : string :=
  match fuel with
  | O => acc
  | S fuel =>
    let acc := String (hexDigit (n `mod` 16)) acc in
    if decide (n < 16) then acc else hexDigits fuel (n `div` 16) acc
  end.
Definition hex (n : Z) : string := hexDigits 8 n "".

Definition dockerId (seed checksum : Z) (host : string) : string :=
  ("s" +:+ pretty seed +:+ "-" +:+ hex checksum +:+ "-" +:+ host)%string.

Definition imageRepository (registry : string) (challenge : ChallengeId) : string :=
  if decide (registry = ""%string) then challenge else (registry +:+ "/" +:+ challenge)%string.
Definition instanceImageName (registry : string) (challenge : ChallengeId) (b : BuildMetadata)
    (image : Image) : string :=
  (imageRepository registry challenge +:+ ":" +:+ dockerId (bm_seed b) (bm_checksum b) (img_host image))%string.

Example tag_example :
  dockerId (-3) 0xCBF43926 "web" = "s-3-cbf43926-web"%string.
Proof. reflexivity. Qed.

(** ** The CRC is injective in each 32-bit input *)

Definition word32 (c : Z) : Prop := 0 <= c < 2 ^ 32.

Lemma word32_bits c : word32 c <-> 0 <= c /\ forall i, 32 <= i -> Z.testbit c i = false.
Proof.
  unfold word32. split.
  - intros [H1 H2]. split; [done|]. by apply Z.bounded_iff_bits_nonneg.
  - intros [H1 H2]. split; [done|]. by apply Z.bounded_iff_bits_nonneg.
Qed.

Lemma word32_lxor a b : word32 a -> word32 b -> word32 (Z.lxor a b).
Proof.
  rewrite !word32_bits. intros [Ha Ha'] [Hb Hb']. split.
  - by apply Z.lxor_nonneg.
  - intros i Hi. rewrite Z.lxor_spec, Ha', Hb' by done. done.
Qed.

Lemma word32_shiftr a : word32 a -> word32 (Z.shiftr a 1).
Proof.
  rewrite !word32_bits. intros [Ha Ha']. split; [by apply Z.shiftr_nonneg|].
  intros i Hi. rewrite Z.shiftr_spec by lia. apply Ha'. lia.
Qed.

Lemma crcBit_word32 c : word32 c -> word32 (crcBit c).
Proof.
  intros Hc. unfold crcBit. destruct (Z.testbit c 0); [|by apply word32_shiftr].
  apply word32_lxor; [by apply word32_shiftr|]. unfold word32, crcPoly. lia.
Qed.

(** The top bit of the result tells the bit that was shifted out. *)
Lemma crcBit_top c : word32 c -> Z.testbit (crcBit c) 31 = Z.testbit c 0.
Proof.
  intros [_ Hc]%word32_bits. unfold crcBit. destruct (Z.testbit c 0).
  - rewrite Z.lxor_spec, Z.shiftr_spec by lia. rewrite Hc by lia. done.
  - rewrite Z.shiftr_spec by lia. apply Hc. lia.
Qed.

Lemma lxor_cancel_r a b c : Z.lxor a c = Z.lxor b c -> a = b.
Proof.
  intros H. rewrite <- (Z.lxor_0_r a), <- (Z.lxor_0_r b), <- (Z.lxor_nilpotent c).
  rewrite <- !Z.lxor_assoc. by rewrite H.
Qed.

Lemma crcBit_inj a b : word32 a -> word32 b -> crcBit a = crcBit b -> a = b.
Proof.
  intros Ha Hb E. pose proof (crcBit_top a Ha) as Ta. pose proof (crcBit_top b Hb) as Tb.
  rewrite E, Tb in Ta. unfold crcBit in E. rewrite Ta in E.
  assert (Z.shiftr a 1 = Z.shiftr b 1) as Hs.
  { destruct (Z.testbit a 0); [by eapply lxor_cancel_r|done]. }
  apply Z.bits_inj'. intros i Hi. destruct (decide (i = 0)) as [->|Hi0]; [done|].
  replace i with (i - 1 + 1) by lia. rewrite <- !Z.shiftr_spec by lia. by rewrite Hs.
Qed.

(** Feeding a bit above the lowest commutes with a step. *)
Lemma crcBit_shift x y : crcBit (Z.lxor x (Z.shiftl y 1)) = Z.lxor (crcBit x) y.
Proof.
  unfold crcBit. rewrite Z.lxor_spec, (Z.shiftl_spec_low y 1 0) by lia. rewrite xorb_false_r.
  assert (Z.shiftr (Z.lxor x (Z.shiftl y 1)) 1 = Z.lxor (Z.shiftr x 1) y) as ->.
  { rewrite Z.shiftr_lxor, Z.shiftr_shiftl_l by lia. by rewrite Z.shiftl_0_r. }
  destruct (Z.testbit x 0); [|done]. rewrite !Z.lxor_assoc. f_equal. apply Z.lxor_comm.
Qed.

Lemma crc_iter_word32 n c : word32 c -> word32 (Nat.iter n crcBit c).
Proof. intros Hc. induction n; simpl; [done|]. by apply crcBit_word32. Qed.

Lemma crc_iter_inj n a b :
  word32 a -> word32 b -> Nat.iter n crcBit a = Nat.iter n crcBit b -> a = b.
Proof.
  intros Ha Hb. induction n as [|n IH]; simpl; [done|]. intros E. apply IH.
  apply crcBit_inj; [by apply crc_iter_word32..|done].
Qed.

Lemma crc_iter_shift n x y :
  Nat.iter n crcBit (Z.lxor x (Z.shiftl y (Z.of_nat n))) = Z.lxor (Nat.iter n crcBit x) y.
Proof.
  revert y. induction n as [|n IH]; intros y; [by rewrite Z.shiftl_0_r|].
  rewrite Nat2Z.inj_succ, <- Z.add_1_l, <- Z.shiftl_shiftl by lia.
  simpl. rewrite (IH (Z.shiftl y 1)). apply crcBit_shift.
Qed.

Definition byte8 (b : Z) : Prop := 0 <= b < 256.

Lemma byte_word32 b : byte8 b -> word32 b.
Proof. unfold byte8, word32. lia. Qed.

Lemma crcByte_word32 c b : word32 c -> byte8 b -> word32 (crcByte c b).
Proof. intros Hc Hb. apply crc_iter_word32, word32_lxor; [done|by apply byte_word32]. Qed.

Lemma crcWrite_word32 l c : word32 c -> Forall byte8 l -> word32 (crcWrite c l).
Proof.
  intros Hc Hl. revert c Hc. induction Hl as [|b l Hb Hl IH]; intros c Hc; simpl; [done|].
  apply IH. by apply crcByte_word32.
Qed.

(** The state is never lost: what follows a write separates what came before. *)
Lemma crcWrite_inj_state l a b :
  Forall byte8 l -> word32 a -> word32 b -> crcWrite a l = crcWrite b l -> a = b.
Proof.
  intros Hl. revert a b. induction Hl as [|x l Hx Hl IH]; intros a b Ha Hb E; simpl in E; [done|].
  apply IH in E; [|by apply crcByte_word32..]. unfold crcByte in E.
  apply crc_iter_inj in E; [by eapply lxor_cancel_r|by apply word32_lxor, byte_word32..].
Qed.

(** Four bytes as the little-endian word the CRC consumes. *)
Definition packed (b0 b1 b2 b3 : Z) : Z :=
  Z.lxor b0 (Z.shiftl (Z.lxor b1 (Z.shiftl (Z.lxor b2 (Z.shiftl b3 8)) 8)) 8).

Lemma crcWrite_packed c b0 b1 b2 b3 :
  crcWrite c [b0; b1; b2; b3] = Nat.iter 32 crcBit (Z.lxor c (packed b0 b1 b2 b3)).
Proof.
  change 32%nat with (8 + (8 + (8 + 8)))%nat. rewrite !Nat.iter_add. unfold packed.
  rewrite <- Z.lxor_assoc. rewrite (crc_iter_shift 8).
  rewrite <- Z.lxor_assoc. rewrite (crc_iter_shift 8).
  rewrite <- Z.lxor_assoc. rewrite (crc_iter_shift 8). done.
Qed.

Lemma split_low b y b' y' :
  byte8 b -> byte8 b' -> Z.lxor b (Z.shiftl y 8) = Z.lxor b' (Z.shiftl y' 8) -> b = b' /\ y = y'.
Proof.
  intros Hb Hb' E.
  assert (forall b y, byte8 b -> Z.shiftr (Z.lxor b (Z.shiftl y 8)) 8 = y) as Hs.
  { intros b1 y1 H1. rewrite Z.shiftr_lxor, Z.shiftr_shiftl_l, Z.shiftl_0_r by lia.
    rewrite Z.shiftr_div_pow2 by lia. unfold byte8 in H1. rewrite Z.div_small by lia. apply Z.lxor_0_l. }
  assert (y = y') as -> by (rewrite <- (Hs b y Hb), <- (Hs b' y' Hb'); by rewrite E).
  split; [by eapply lxor_cancel_r|done].
Qed.

Lemma land_byte x : byte8 (Z.land x 255).
Proof. unfold byte8. change 255 with (Z.ones 8). rewrite Z.land_ones by lia. by apply Z.mod_pos_bound. Qed.

Lemma bigEndian_bytes x : Forall byte8 (bigEndian x).
Proof. repeat constructor; apply land_byte. Qed.

Lemma bigEndian_inj x y : word32 x -> word32 y -> bigEndian x = bigEndian y -> x = y.
Proof.
  intros [_ Hx]%word32_bits [_ Hy]%word32_bits E. injection E as E3 E2 E1 E0.
  assert (forall s, 0 <= s -> Z.land (Z.shiftr x s) 255 = Z.land (Z.shiftr y s) 255 ->
    forall i, s <= i < s + 8 -> Z.testbit x i = Z.testbit y i) as H.
  { intros s Hs Es i Hi. apply (f_equal (fun z => Z.testbit z (i - s))) in Es.
    rewrite !Z.land_spec, !Z.shiftr_spec in Es by lia.
    change 255 with (Z.ones 8) in Es. rewrite !Z.ones_spec_low, !andb_true_r in Es by lia.
    by replace (i - s + s) with i in Es by lia. }
  assert (Z.land (Z.shiftr x 0) 255 = Z.land (Z.shiftr y 0) 255) as E0' by (by rewrite !Z.shiftr_0_r).
  apply Z.bits_inj'. intros i Hi.
  destruct (decide (32 <= i)); [by rewrite Hx, Hy|].
  destruct (decide (i < 8)); [by apply (H 0)|]. destruct (decide (i < 16)); [apply (H 8); [lia|done|lia]|].
  destruct (decide (i < 24)); [apply (H 16); [lia|done|lia]|]. apply (H 24); [lia|done|lia].
Qed.

Lemma packed_word32 b0 b1 b2 b3 :
  byte8 b0 -> byte8 b1 -> byte8 b2 -> byte8 b3 -> word32 (packed b0 b1 b2 b3).
Proof.
  assert (forall k y, 0 <= k -> 0 <= y < 2 ^ k -> forall b, byte8 b ->
    0 <= Z.lxor b (Z.shiftl y 8) < 2 ^ (k + 8)) as H.
  { intros k y Hk Hy b Hb.
    assert (0 <= Z.lxor b (Z.shiftl y 8)) as H0
      by (apply Z.lxor_nonneg; rewrite Z.shiftl_nonneg; unfold byte8 in Hb; lia).
    split; [done|]. apply Z.bounded_iff_bits_nonneg; [lia|done|]. intros i Hi.
    rewrite Z.lxor_spec, Z.shiftl_spec by lia.
    rewrite (proj1 (Z.bounded_iff_bits_nonneg k y Hk (proj1 Hy)) (proj2 Hy)) by lia.
    rewrite (proj1 (Z.bounded_iff_bits_nonneg 8 b ltac:(lia) (proj1 Hb)) (proj2 Hb)) by lia. done. }
  intros H0 H1 H2 H3. unfold packed, word32. apply (H 24); [lia| |done].
  apply (H 16); [lia| |done]. apply (H 8); [lia|done|done].
Qed.

Lemma crcWrite_inj_word c x y :
  word32 c -> word32 x -> word32 y -> crcWrite c (bigEndian x) = crcWrite c (bigEndian y) -> x = y.
Proof.
  intros Hc Hx Hy E. unfold bigEndian in E. rewrite !crcWrite_packed in E.
  apply crc_iter_inj in E; [|apply word32_lxor; [done|apply packed_word32; apply land_byte]..].
  rewrite !(Z.lxor_comm c) in E. apply lxor_cancel_r in E. unfold packed in E.
  apply split_low in E as [E0 E]; [|apply land_byte..].
  apply split_low in E as [E1 E]; [|apply land_byte..].
  apply split_low in E as [E2 E3]; [|apply land_byte..].
  apply bigEndian_inj; [done..|]. unfold bigEndian. congruence.
Qed.

Lemma bytesOf_bytes s : Forall byte8 (bytesOf s).
Proof.
  unfold bytesOf. apply Forall_fmap, Forall_true. intros c. unfold byte8, compose.
  pose proof (nat_ascii_bounded c). lia.
Qed.

Lemma contentChecksum_one s f p t s' f' p' t' h h' :
  (contentChecksum s f p t = if decide (crcSum h = 0) then 1 else crcSum h) ->
  (contentChecksum s' f' p' t' = if decide (crcSum h' = 0) then 1 else crcSum h') ->
  contentChecksum s f p t = contentChecksum s' f' p' t' -> h = h' \/ contentChecksum s f p t = 1.
Proof.
  intros -> ->. repeat case_decide; auto; try (intros ->; by auto).
  intros E. left. unfold crcSum in E. by eapply lxor_cancel_r.
Qed.

Lemma crcInit_word32 : word32 crcInit.
Proof. unfold word32, crcInit. lia. Qed.

(** Writing, or not, a word that is absent when zero. *)
Definition writeWord (c x : Z) : Z := if decide (x <> 0) then crcWrite c (bigEndian x) else c.
Lemma writeWord_word32 c x : word32 c -> word32 (writeWord c x).
Proof. intros. unfold writeWord. case_decide; [apply crcWrite_word32; [done|apply bigEndian_bytes]|done]. Qed.
Lemma writeWord_inj_state a b x : word32 a -> word32 b -> writeWord a x = writeWord b x -> a = b.
Proof.
  intros Ha Hb. unfold writeWord. case_decide; [|done]. apply crcWrite_inj_state; [apply bigEndian_bytes|done..].
Qed.

(** A build's identity follows its source and its base pins: with
    everything else fixed, two different source generations, or two different
    non-zero pin sets, never share a content checksum, except through the one
    value that stands in for a zero sum.  No image of one generation is ever
    tagged as another's. *)
Theorem contentChecksum_separates s s' f p p' t :
  word32 s -> word32 s' -> word32 p -> word32 p' ->
  (contentChecksum s f p t = contentChecksum s' f p t -> s = s' \/ contentChecksum s f p t = 1) /\
  (p <> 0 -> p' <> 0 -> contentChecksum s f p t = contentChecksum s f p' t ->
   p = p' \/ contentChecksum s f p t = 1).
Proof.
  intros Hs Hs' Hp Hp'.
  assert (forall x, word32 (crcWrite (crcWrite crcInit (bigEndian x)) (bytesOf f))) as Hw.
  { intros x. apply crcWrite_word32; [|apply bytesOf_bytes].
    apply crcWrite_word32; [apply crcInit_word32|apply bigEndian_bytes]. }
  assert (forall x p, contentChecksum x f p t =
    let h := writeWord (writeWord (crcWrite (crcWrite crcInit (bigEndian x)) (bytesOf f)) p) t in
    if decide (crcSum h = 0) then 1 else crcSum h) as Hc by done.
  split.
  - intros E. destruct (contentChecksum_one _ _ _ _ _ _ _ _ _ _ (Hc s p) (Hc s' p) E) as [H|H]; [|by right].
    left. apply writeWord_inj_state in H; [|by apply writeWord_word32..].
    apply writeWord_inj_state in H; [|done..].
    apply crcWrite_inj_state in H; [|apply bytesOf_bytes|apply crcWrite_word32; [apply crcInit_word32|apply bigEndian_bytes]..].
    by apply (crcWrite_inj_word crcInit); [apply crcInit_word32|..].
  - intros Hp0 Hp0' E. destruct (contentChecksum_one _ _ _ _ _ _ _ _ _ _ (Hc s p) (Hc s p') E) as [H|H]; [|by right].
    left. apply writeWord_inj_state in H; [|by apply writeWord_word32..].
    unfold writeWord in H. rewrite !decide_True in H by done.
    by eapply crcWrite_inj_word, H.
Qed.

Lemma contentChecksum_separates_witness :
  contentChecksum 7 "flag{%s}" 3 0 <> contentChecksum 8 "flag{%s}" 3 0.
Proof.
  assert (forall x, 0 <= x <= 8 -> word32 x) as Hw by (intros x Hx; unfold word32; lia).
  assert (contentChecksum 7 "flag{%s}" 3 0 <> 1) as H1 by (vm_compute; discriminate).
  intros E. destruct (contentChecksum_separates 7 8 "flag{%s}" 3 4 0) as [Hs _];
    [apply Hw; lia..|]. apply Hs in E. destruct E as [H|H]; [discriminate H|exact (H1 H)].
Defined.

(** The pins and the template are folded in as bare suffixes: a pin set with no
    template and a template with the same checksum and no pins are one
    identity. *)
Lemma contentChecksum_suffix_ambiguous s f x :
  contentChecksum s f x 0 = contentChecksum s f 0 x.
Proof. unfold contentChecksum. simpl. done. Qed.

(** ** A tag names its build *)

Definition hexVal (c : ascii) : Z :=
  let n := Z.of_nat (nat_of_ascii c) in if decide (n < 58) then n - 48 else n - 87.
(** The value of a hexadecimal numeral, continuing from [acc]. *)
Fixpoint hexRead (acc : Z) (s : string) : Z :=
  match s with EmptyString => acc | String c s => hexRead (acc * 16 + hexVal c) s end.

Lemma hexDigit_ok d : 0 <= d < 16 -> hexVal (hexDigit d) = d /\ notDash (hexDigit d) = true.
Proof.
  intros Hd. assert (d = 0 \/ d = 1 \/ d = 2 \/ d = 3 \/ d = 4 \/ d = 5 \/ d = 6 \/ d = 7 \/ d = 8 \/
    d = 9 \/ d = 10 \/ d = 11 \/ d = 12 \/ d = 13 \/ d = 14 \/ d = 15) as H by lia.
  repeat destruct H as [->|H]; [..|rewrite H]; done.
Qed.

Lemma hexDigits_read fuel n acc :
  0 <= n < 16 ^ Z.of_nat fuel -> hexRead 0 (hexDigits fuel n acc) = hexRead n acc.
Proof.
  revert n acc. induction fuel as [|fuel IH]; intros n acc Hn; [simpl in *; by replace n with 0 by lia|].
  rewrite Nat2Z.inj_succ, Z.pow_succ_r in Hn by lia. simpl.
  assert (0 <= n `mod` 16 < 16) as Hm by (apply Z.mod_pos_bound; lia).
  destruct (hexDigit_ok (n `mod` 16) Hm) as [Hv _].
  case_decide as Hlt.
  - rewrite Z.mod_small in * by lia. simpl. by rewrite Hv.
  - rewrite IH by (split; [apply Z.div_pos; lia|apply Z.div_lt_upper_bound; lia]).
    simpl. rewrite Hv. f_equal. rewrite (Z.div_mod n 16) at 3 by lia. lia.
Qed.

Lemma hexDigits_notDash fuel n acc :
  0 <= n -> all_chars notDash acc = true -> all_chars notDash (hexDigits fuel n acc) = true.
Proof.
  revert n acc. induction fuel as [|fuel IH]; intros n acc Hn Ha; simpl; [done|].
  assert (0 <= n `mod` 16 < 16) as Hm by (apply Z.mod_pos_bound; lia).
  destruct (hexDigit_ok _ Hm) as [_ Hd].
  case_decide; [simpl; by rewrite Hd|]. apply IH; [apply Z.div_pos; lia|simpl; by rewrite Hd].
Qed.

Lemma hex_read n : word32 n -> hexRead 0 (hex n) = n.
Proof. intros Hn. apply (hexDigits_read 8). exact Hn. Qed.

(** What [%d] prints, as a sign and digits. *)
Lemma pretty_Z_sign (z : Z) :
  pretty z = (if decide (z < 0) then "-" +:+ pretty (Z.to_N (- z)) else pretty (Z.to_N z))%string.
Proof. destruct z; done. Qed.

Lemma numeral_notDash (n : N) : all_chars notDash (pretty n) = true.
Proof. eapply all_chars_impl; [apply decimal_notDash|apply pretty_N_decimal]. Qed.

Lemma numeral_split (n n' : N) t t' :
  pretty n +:+ "-" +:+ t = pretty n' +:+ "-" +:+ t' -> n = n' /\ t = t'.
Proof.
  intros H. apply split_at_dash in H as [H ->]; [|apply numeral_notDash..].
  split; [by apply (inj pretty)|done].
Qed.

Lemma numeral_first (n : N) s t : pretty n +:+ s <> String "-" t.
Proof.
  intros H. pose proof (pretty_N_nonempty n) as Hn. pose proof (numeral_notDash n) as Hd.
  destruct (pretty n); [done|]. simpl in *. by injection H as -> _.
Qed.

Lemma seed_split (z z' : Z) t t' :
  pretty z +:+ "-" +:+ t = pretty z' +:+ "-" +:+ t' -> z = z' /\ t = t'.
Proof.
  rewrite !pretty_Z_sign. repeat case_decide; simpl; intros E.
  - injection E as E. apply numeral_split in E as [E ->]. split; [lia|done].
  - symmetry in E. by apply numeral_first in E.
  - by apply numeral_first in E.
  - apply numeral_split in E as [E ->]. split; [lia|done].
Qed.

Lemma dockerId_inj seed seed' sum sum' host host' :
  word32 sum -> word32 sum' -> dockerId seed sum host = dockerId seed' sum' host' ->
  seed = seed' /\ sum = sum' /\ host = host'.
Proof.
  intros Hs Hs' E. unfold dockerId in E. injection E as E.
  apply seed_split in E as [-> E].
  apply split_at_dash in E as [E ->]; [|apply hexDigits_notDash; [apply Hs || apply Hs'|done]..].
  split_and!; [done| |done]. rewrite <- (hex_read sum Hs), <- (hex_read sum' Hs'). by rewrite E.
Qed.

(** The full name of an image: its repository and its tag. *)
Definition image_tag (registry : string) (c : ChallengeId) (seed sum : Z) (host : string) : string :=
  (imageRepository registry c +:+ ":" +:+ dockerId seed sum host)%string.
Lemma instanceImageName_tag registry c b image :
  instanceImageName registry c b image = image_tag registry c (bm_seed b) (bm_checksum b) (img_host image).
Proof. done. Qed.

Lemma image_tag_inj registry c c' seed seed' sum sum' host host' :
  all_chars (notChar ":") c = true -> all_chars (notChar ":") c' = true -> word32 sum -> word32 sum' ->
  image_tag registry c seed sum host = image_tag registry c' seed' sum' host' ->
  c = c' /\ seed = seed' /\ sum = sum' /\ host = host'.
Proof.
  intros Hc Hc' Hs Hs' E. unfold image_tag, imageRepository in E.
  assert (c +:+ String ":" (dockerId seed sum host) = c' +:+ String ":" (dockerId seed' sum' host'))%string as E'.
  { case_decide; [exact E|]. rewrite <- !append_assoc in E. by repeat apply append_cancel in E. }
  apply split_at_char in E' as [-> E']; [|done..]. by apply dockerId_inj in E' as (-> & -> & ->).
Qed.

(** An image name is exactly (challenge, seed, checksum, host): in one
    registry two images have the same name only if they agree on all four --
    challenge ids being free of the colon that ends the repository -- so
    untagging one generation never touches another's images, and a negative
    seed is as good as any. *)
Theorem image_names_injective registry c c' seed seed' sum sum' host host' :
  all_chars (notChar ":") c = true -> all_chars (notChar ":") c' = true -> word32 sum -> word32 sum' ->
  image_tag registry c seed sum host = image_tag registry c' seed' sum' host' ->
  c = c' /\ seed = seed' /\ sum = sum' /\ host = host'.
Proof. apply image_tag_inj. Qed.

Lemma image_names_injective_witness :
  image_tag "r:5000" "web" 1 0x2a "db" <> image_tag "r:5000" "web" 1 0x2b "db".
Proof.
  intros E. destruct (image_names_injective "r:5000" "web" "web" 1 1 0x2a 0x2b "db" "db") as (_ & _ & H & _);
    [reflexivity..|split; vm_compute; congruence|split; vm_compute; congruence|exact E|discriminate H].
Defined.
