(* ===== verification/Sha256.v ===== *)
(** * Sha256: the digest of [crypto/sha256], byte for byte

    SHA-256 (FIPS 180-4) over 32-bit words held in [Z], as [sha256.Sum256]
    computes it, and its hexadecimal text as [%x] prints it.  The challenge's
    seccomp profiles are identified by it ([cork/seccomp.go]). *)
From S2P Require Import Prelude Settings Text Images.
Local Open Scope Z_scope.

Definition wrap32 (x : Z) : Z := Z.land x 4294967295.
Definition rotr (n x : Z) : Z := Z.lor (Z.shiftr x n) (wrap32 (Z.shiftl x (32 - n))).
Definition sha_ch (x y z : Z) : Z := Z.lxor (Z.land x y) (Z.land (wrap32 (Z.lnot x)) z).
Definition sha_maj (x y z : Z) : Z := Z.lxor (Z.lxor (Z.land x y) (Z.land x z)) (Z.land y z).
Definition bigSigma0 (x : Z) : Z := Z.lxor (Z.lxor (rotr 2 x) (rotr 13 x)) (rotr 22 x).
Definition bigSigma1 (x : Z) : Z := Z.lxor (Z.lxor (rotr 6 x) (rotr 11 x)) (rotr 25 x).
Definition smallSigma0 (x : Z) : Z := Z.lxor (Z.lxor (rotr 7 x) (rotr 18 x)) (Z.shiftr x 3).
Definition smallSigma1 (x : Z) : Z := Z.lxor (Z.lxor (rotr 17 x) (rotr 19 x)) (Z.shiftr x 10).

(** The constants are the first 32 bits of the fractional parts of roots of the
    first primes: cube roots for the rounds, square roots for the start. *)
Fixpoint rootBits (k : nat) (p n acc : Z) : Z :=
  match k with
  | O => acc
  | S k =>
    let acc' := acc + 2 ^ Z.of_nat k in
    rootBits k p n (if decide (acc' ^ p <= n) then acc' else acc)
  end.
(** [floor (2^32 * root)], below the point only: the roots are below 16. *)
Definition rootFraction (p n : Z) : Z := wrap32 (rootBits 37 p (Z.shiftl n (32 * p)) 0).
Definition isPrime (n : nat) : bool := forallb (fun d => negb (n mod d =? 0)%nat) (seq 2 (n - 2)).
Definition primes : list Z := Eval vm_compute in Z.of_nat <$> filter (fun n => isPrime n = true) (seq 2 310).
Definition sha_k : list Z := Eval vm_compute in rootFraction 3 <$> take 64 primes.
Definition sha_init : list Z := Eval vm_compute in rootFraction 2 <$> take 8 primes.

(** The message schedule, latest word first. *)
Fixpoint extend (n : nat) (ws : list Z) : list Z :=
  match n with
  | O => ws
  | S n => extend n (wrap32 (smallSigma1 (nth 1 ws 0) + nth 6 ws 0 + smallSigma0 (nth 14 ws 0) + nth 15 ws 0) :: ws)
  end.
Definition sha_round (h : list Z) (kw : Z * Z) : list Z :=
  match h with
  | [a; b; c; d; e; f; g; i] =>
    let t1 := i + bigSigma1 e + sha_ch e f g + kw.1 + kw.2 in
    let t2 := bigSigma0 a + sha_maj a b c in
    [wrap32 (t1 + t2); a; b; c; wrap32 (d + t1); e; f; g]
  | _ => h
  end.
Definition compress (h block : list Z) : list Z :=
  let ws := rev (extend 48 (rev block)) in
  zip_with (fun x y => wrap32 (x + y)) h (foldl sha_round h (zip sha_k ws)).

(** Words of four bytes, blocks of sixteen words. *)
Fixpoint sha_words (bytes : list Z) : list Z :=
  match bytes with
  | a :: b :: c :: d :: bytes => (((a * 256 + b) * 256 + c) * 256 + d) :: sha_words bytes
  | _ => []
  end.
Fixpoint sha_blocks (fuel : nat) (ws : list Z) (h : list Z) : list Z :=
  match fuel, ws with
  | S fuel, _ :: _ => sha_blocks fuel (drop 16 ws) (compress h (take 16 ws))
  | _, _ => h
  end.
(** A one bit, zeros, and the length in bits, up to a whole number of blocks. *)
Definition sha_pad (bytes : list Z) : list Z :=
  let n := length bytes in
  let zeros := ((64 - (n + 9) mod 64) mod 64)%nat in
  let bits := Z.of_nat n * 8 in
  bytes ++ [128] ++ replicate zeros 0 ++ ((fun k => Z.land (Z.shiftr bits (8 * k)) 255) <$> [7; 6; 5; 4; 3; 2; 1; 0]).
Definition Sum256 (s : string) : list Z :=
  let ws := sha_words (sha_pad (bytesOf s)) in sha_blocks (length ws) ws sha_init.

Definition hexWord (x : Z) : string :=
  string_of_list_ascii ((fun k => hexDigit (Z.land (Z.shiftr x (4 * k)) 15)) <$> [7; 6; 5; 4; 3; 2; 1; 0]).
(** [fmt.Sprintf("%x", sha256.Sum256([]byte(s)))]. *)
Definition sha256Hex (s : string) : string := String.concat "" (hexWord <$> Sum256 s).

(** The vectors of the standard. *)
Example sha256_empty : sha256Hex "" = "e3b0c44298fc1c149afbf4c8996fb92427ae41e4649b934ca495991b7852b855"%string.
Proof. vm_compute. reflexivity. Qed.
Example sha256_abc : sha256Hex "abc" = "ba7816bf8f01cfea414140de5dae2223b00361a396177a9cb410ff61f20015ad"%string.
Proof. vm_compute. reflexivity. Qed.
Example sha256_two_blocks :
  sha256Hex "abcdbcdecdefdefgefghfghighijhijkijkljklmklmnlmnomnopnopq" =
  "248d6a61d20638b8e5c026930c3e6039a33ce45964ff2167f6ecedd419db06c1"%string.
Proof. vm_compute. reflexivity. Qed.
