(* ===== verification/Seccomp.v ===== *)
(** * Seccomp: the profiles a challenge declares

    [cork/seccomp.go].  A challenge names a profile beside its metadata; the
    loader reads, validates and hashes it ([resolve]).  The resolved text does
    not travel in the challenge's JSON, so a hand-over carries it beside
    ([SeccompProfiles]) and the daemon puts it back ([applySeccompProfiles]).

    What a file operation answers is an argument, and so is the JSON decoder;
    what is done with the answers is modelled. *)
From S2P Require Import Prelude Types Settings Text Artifacts Images Sha256.
Local Open Scope Z_scope.

(** ** Validating a profile *)
Record seccompArgument := mkArgument { sa_op : string }.
Record seccompSyscall := mkSyscall {
  sy_name : string; sy_names : list string; sy_action : string; sy_args : list seccompArgument }.
Record seccompProfile := mkProfile { sp_defaultAction : string; sp_syscalls : list seccompSyscall }.

Definition validSeccompActions : list string :=
  ["SCMP_ACT_KILL"; "SCMP_ACT_KILL_PROCESS"; "SCMP_ACT_KILL_THREAD"; "SCMP_ACT_TRAP"; "SCMP_ACT_ERRNO";
   "SCMP_ACT_TRACE"; "SCMP_ACT_ALLOW"; "SCMP_ACT_LOG"; "SCMP_ACT_NOTIFY"]%string.
Definition validSeccompOperators : list string :=
  ["SCMP_CMP_NE"; "SCMP_CMP_LT"; "SCMP_CMP_LE"; "SCMP_CMP_EQ"; "SCMP_CMP_GE"; "SCMP_CMP_GT"; "SCMP_CMP_MASKED_EQ"]%string.

Definition profileError (what : string) : error := [OtherError what].
Fixpoint validateArguments (args : list seccompArgument) : option error :=
  match args with
  | [] => None
  | a :: args =>
    if decide (sa_op a = ""%string) then Some (profileError "does not specify an operator")
    else if decide (sa_op a ∉ validSeccompOperators) then Some (profileError "unknown operator")
    else validateArguments args
  end.
Fixpoint validateSyscalls (rules : list seccompSyscall) : option error :=
  match rules with
  | [] => None
  | s :: rules =>
    if decide (sy_name s <> ""%string /\ sy_names s <> []) then Some (profileError "specifies both name and names")
    else if decide (sy_name s = ""%string /\ sy_names s = []) then Some (profileError "does not specify any names")
    else if decide (sy_action s = ""%string) then Some (profileError "does not specify an action")
    else if decide (sy_action s ∉ validSeccompActions) then Some (profileError "unknown action")
    else match validateArguments (sy_args s) with Some err => Some err | None => validateSyscalls rules end
  end.

Section profiles.
Context (decode : string -> option seccompProfile).     (* json.Unmarshal into a seccompProfile *)

Definition validateSeccompProfile (profile : string) : option error :=
  match decode profile with
  | None => Some (profileError "invalid seccomp profile JSON")
  | Some document =>
    if decide (sp_defaultAction document = ""%string) then Some (profileError "defaultAction must be a non-empty string")
    else if decide (sp_defaultAction document ∉ validSeccompActions) then Some (profileError "unknown defaultAction")
    else validateSyscalls (sp_syscalls document)
  end.

(** ** Reading it *)

(** [filepath.Base] and [filepath.Ext]. *)
Fixpoint lastComponent (parts : list string) : string :=
  match parts with
  | [] => ""%string
  | p :: parts => let rest := lastComponent parts in if decide (rest = ""%string) then p else rest
  end.
Definition Base (p : string) : string :=
  if decide (p = ""%string) then "."%string
  else let base := lastComponent (SplitOn slash p) in if decide (base = ""%string) then "/"%string else base.
Fixpoint extFrom (s : string) : option string :=
  match s with
  | EmptyString => None
  | String c rest =>
    match extFrom rest with
    | Some e => Some e
    | None => if decide (c = "."%char) then Some s else None
    end
  end.
Definition Ext (p : string) : string := default ""%string (extFrom (default ""%string (last (SplitOn slash p)))).

Definition profileChar (c : ascii) : bool :=
  let n := nat_of_ascii c in
  (bool_decide (97 <= n <= 122)%nat || bool_decide (65 <= n <= 90)%nat) || bool_decide (48 <= n <= 57)%nat ||
  bool_decide (c = "_"%char) || bool_decide (c = "-"%char) || bool_decide (c = "."%char).
Definition validateSeccompProfileFilename (path : string) : option error :=
  if decide (path = ""%string) then Some (profileError "filename cannot be empty")
  else if isAbs path || negb (bool_decide (Base path = path)) then Some (profileError "must be a JSON file in the challenge directory")
  else if HasPrefix path "." then Some (profileError "must not start with '.'")
  else if decide (Ext path <> ".json"%string) then Some (profileError "must end with '.json'")
  else if decide (path ∈ ["problem.json"; "problem.md"; "metadata.json"]%string) then Some (profileError "cannot also be used as a seccomp profile")
  else if negb (all_chars profileChar path) then Some (profileError "contains unsupported characters")
  else None.

Definition maxSeccompProfileSize : Z := 1024 * 1024.
(** What the file system says of the candidate, before and after opening it. *)
Record fileInfo := mkInfo { fi_symlink : bool; fi_regular : bool; fi_size : Z; fi_file : nat }.
Record fileAnswers := mkAnswers {
  fa_abs : error + string; fa_lstat : error + fileInfo; fa_open : option error;
  fa_stat : error + fileInfo; fa_read : error + string }.
(** The reader is limited to one byte over the maximum. *)
Definition limited (data : string) : string := substring 0 (Z.to_nat (maxSeccompProfileSize + 1)) data.

Definition readSeccompProfile (fs : fileAnswers) (path : string) : error + string :=
  match validateSeccompProfileFilename path with
  | Some err => inl err
  | None =>
    match fa_abs fs, fa_lstat fs with
    | inl err, _ => inl err
    | inr _, inl err => inl err
    | inr _, inr info =>
      if fi_symlink info then inl (profileError "must not be a symbolic link")
      else if negb (fi_regular info) then inl (profileError "is not a regular file")
      else if decide (maxSeccompProfileSize < fi_size info) then inl (profileError "exceeds the size limit")
      else
        match fa_open fs, fa_stat fs with
        | Some err, _ => inl err
        | None, inl err => inl err
        | None, inr opened =>
          if negb (fi_regular opened) || negb (bool_decide (fi_file info = fi_file opened))
          then inl (profileError "changed while it was being opened")
          else
            match fa_read fs with
            | inl err => inl err
            | inr data =>
              let data := limited data in
              if decide (maxSeccompProfileSize < Z.of_nat (String.length data)) then inl (profileError "exceeds the size limit")
              else inr data
            end
        end
    end
  end.

(** [resolve]: the options, cleared first, filled in when all went well. *)
Definition resolve (fs : fileAnswers) (opts : SeccompOptions) : SeccompOptions * option error :=
  let opts := opts <| sc_profileHash := ""%string |> <| sc_effectiveProfile := ""%string |> in
  if decide (sc_profile opts = ""%string) then (opts, None)
  else
    match readSeccompProfile fs (sc_profile opts) with
    | inl err => (opts, Some err)
    | inr profile =>
      match validateSeccompProfile profile with
      | Some err => (opts, Some err)
      | None => (opts <| sc_profileHash := sha256Hex profile |> <| sc_effectiveProfile := profile |>, None)
      end
    end.

(** ** Handing it over *)
Definition declared (opts : option SeccompOptions) : list (string * string) :=
  match opts with
  | Some o => if decide (sc_profile o = ""%string \/ sc_effectiveProfile o = ""%string) then []
              else [(sc_profile o, sc_effectiveProfile o)]
  | None => []
  end.
(** Every declaration, the challenge's own first. *)
Definition declarations (c : ChallengeMetadata) : list (option SeccompOptions) :=
  co_seccomp (cho_container (cm_options c)) :: (co_seccomp ∘ snd <$> map_to_list (cho_overrides (cm_options c))).
(** A later one under the same name replaces an earlier. *)
Definition SeccompProfiles (c : ChallengeMetadata) : gmap string string :=
  list_to_map (rev (mjoin (declared <$> declarations c))).

Definition applyProfile (profiles : gmap string string) (opts : SeccompOptions) : error + SeccompOptions :=
  if decide (sc_profile opts = ""%string) then inr opts
  else
    match profiles !! sc_profile opts with
    | None => inl (profileError "its text was not handed over")
    | Some profile =>
      match validateSeccompProfile profile with
      | Some err => inl err
      | None =>
        let sum := sha256Hex profile in
        if decide (sc_profileHash opts <> ""%string /\ sum <> sc_profileHash opts) then inl (profileError "hashes to another sum")
        else inr (opts <| sc_profileHash := sum |> <| sc_effectiveProfile := profile |>)
      end
    end.
Definition applyOptional (profiles : gmap string string) (opts : option SeccompOptions) : error + option SeccompOptions :=
  match opts with
  | None => inr None
  | Some o => match applyProfile profiles o with inl err => inl err | inr o => inr (Some o) end
  end.
(** The overrides in turn, each put back. *)
Fixpoint applyOverrides (profiles : gmap string string) (overrides : list (string * ContainerOptions)) : error + list (string * ContainerOptions) :=
  match overrides with
  | [] => inr []
  | (host, o) :: overrides =>
    match applyOptional profiles (co_seccomp o) with
    | inl err => inl err
    | inr s =>
      match applyOverrides profiles overrides with
      | inl err => inl err
      | inr rest => inr ((host, o <| co_seccomp := s |>) :: rest)
      end
    end
  end.
Definition applySeccompProfiles (c : ChallengeMetadata) (profiles : gmap string string) : error + ChallengeMetadata :=
  let opts := cm_options c in
  match applyOptional profiles (co_seccomp (cho_container opts)) with
  | inl err => inl err
  | inr s =>
    match applyOverrides profiles (map_to_list (cho_overrides opts)) with
    | inl err => inl err
    | inr overrides =>
      inr (c <| cm_options := mkChallengeOptions ((cho_container opts) <| co_seccomp := s |>) (list_to_map overrides) |>)
    end
  end.
End profiles.

(** ** What is put back is what was read *)
Section handed.
Context (decode : string -> option seccompProfile).

(** Options as [resolve] leaves them: no profile and no text, or a valid text
    and its hash. *)
Definition resolved (o : SeccompOptions) : Prop :=
  if decide (sc_profile o = ""%string) then sc_profileHash o = ""%string /\ sc_effectiveProfile o = ""%string
  else validateSeccompProfile decode (sc_effectiveProfile o) = None /\ sc_profileHash o = sha256Hex (sc_effectiveProfile o) /\
       sc_effectiveProfile o <> ""%string.
Lemma resolve_resolved fs o o' : decode ""%string = None -> resolve decode fs o = (o', None) -> resolved o'.
Proof.
  intros Hd. unfold resolve, resolved. simpl. case_decide as Hp; [intros [= <-]; simpl; by rewrite decide_True|].
  destruct (readSeccompProfile fs (sc_profile o)) as [err|text]; [done|].
  destruct (validateSeccompProfile decode text) eqn:Ev; [done|]. intros [= <-]. simpl. rewrite decide_False by done.
  split_and!; [done|done|]. intros ->. unfold validateSeccompProfile in Ev. by rewrite Hd in Ev.
Qed.

(** What the JSON of a challenge leaves out. *)
Definition withoutText (o : SeccompOptions) : SeccompOptions := o <| sc_effectiveProfile := ""%string |>.
Definition strip (o : ContainerOptions) : ContainerOptions := o <| co_seccomp ::= fmap withoutText |>.
Definition withoutTexts (c : ChallengeMetadata) : ChallengeMetadata :=
  c <| cm_options := mkChallengeOptions (strip (cho_container (cm_options c))) (strip <$> cho_overrides (cm_options c)) |>.

Lemma apply_stripped profiles o :
  resolved o -> (sc_profile o <> ""%string -> profiles !! sc_profile o = Some (sc_effectiveProfile o)) ->
  applyProfile decode profiles (withoutText o) = inr o.
Proof.
  unfold resolved, applyProfile. intros Hr Hp. destruct o as [profile hash text]. simpl in *. case_decide as Hn.
  - by destruct Hr as [-> ->].
  - destruct Hr as (Hv & -> & Ht). rewrite Hp, Hv by done. rewrite decide_False; [done|]. by intros [_ ?].
Qed.
Lemma apply_stripped_optional profiles (o : option SeccompOptions) :
  (forall x, o = Some x -> resolved x /\ (sc_profile x <> ""%string -> profiles !! sc_profile x = Some (sc_effectiveProfile x))) ->
  applyOptional decode profiles (withoutText <$> o) = inr o.
Proof.
  destruct o as [x|]; [|done]. intros H. destruct (H x eq_refl) as [Hr Hp]. simpl. by rewrite (apply_stripped profiles x Hr Hp).
Qed.

Lemma elem_of_declared o kv : kv ∈ declared o <->
  exists x, o = Some x /\ sc_profile x <> ""%string /\ sc_effectiveProfile x <> ""%string /\ kv = (sc_profile x, sc_effectiveProfile x).
Proof.
  unfold declared. destruct o as [x|]; [|split; [by intros ?%elem_of_nil|by intros (? & ? & _)]]. case_decide as H.
  - split; [by intros ?%elem_of_nil|]. intros (y & [= <-] & H1 & H2 & _). by destruct H.
  - rewrite list_elem_of_singleton. split; [intros ->; exists x; tauto|]. by intros (y & [= <-] & _ & _ & ->).
Qed.
(** With one text per name, the profiles collected are those declared. *)
Lemma SeccompProfiles_lookup c x :
  (forall o1 o2, Some o1 ∈ declarations c -> Some o2 ∈ declarations c -> sc_profile o1 = sc_profile o2 ->
     sc_effectiveProfile o1 = sc_effectiveProfile o2) ->
  Some x ∈ declarations c -> sc_profile x <> ""%string -> sc_effectiveProfile x <> ""%string ->
  SeccompProfiles c !! sc_profile x = Some (sc_effectiveProfile x).
Proof.
  intros Huniq Hx H1 H2. unfold SeccompProfiles. set (l := mjoin (declared <$> declarations c)).
  assert (forall k t, (k, t) ∈ rev l <-> exists o, Some o ∈ declarations c /\ sc_profile o <> ""%string /\
    sc_effectiveProfile o <> ""%string /\ k = sc_profile o /\ t = sc_effectiveProfile o) as Hl.
  { intros k t. rewrite <- Permutation_rev. subst l. rewrite list_elem_of_join. split.
    - intros (d & Hd & (o & -> & Ho)%list_elem_of_fmap). apply elem_of_declared in Hd as (y & -> & Hy1 & Hy2 & [= -> ->]). eauto 10.
    - intros (o & Ho & Hy1 & Hy2 & -> & ->). exists (declared (Some o)). split; [apply elem_of_declared; eauto 10|].
      by apply list_elem_of_fmap_2. }
  destruct (list_to_map (rev l) !! sc_profile x) as [t|] eqn:E.
  - apply elem_of_list_to_map_2, Hl in E as (o & Ho & _ & _ & Hk & ->). f_equal. by apply Huniq.
  - exfalso. apply not_elem_of_list_to_map in E. apply E. apply list_elem_of_fmap. exists (sc_profile x, sc_effectiveProfile x).
    split; [done|]. apply Hl. eauto 10.
Qed.

Lemma applyOverrides_stripped profiles l :
  (forall k o x, (k, o) ∈ l -> co_seccomp o = Some x ->
     resolved x /\ (sc_profile x <> ""%string -> profiles !! sc_profile x = Some (sc_effectiveProfile x))) ->
  applyOverrides decode profiles (prod_map (fun k => k) strip <$> l) = inr l.
Proof.
  induction l as [|[k o] l IH]; intros H; [done|]. rewrite fmap_cons. cbn [prod_map applyOverrides fst snd].
  change (co_seccomp (strip o)) with (withoutText <$> co_seccomp o). rewrite apply_stripped_optional by (intros x Hx; eapply (H k o); [left|done]).
  rewrite IH by (intros k' o' x ? ?; eapply (H k' o'); [by right|done]). by destruct o.
Qed.

(** A seccomp profile survives the hand-over: the challenge's JSON drops the
    resolved texts, the hand-over carries them beside it, and putting them back
    gives the challenge as it was scanned -- every declaration with its text and
    its hash -- as long as every declaration was resolved from a valid profile
    and one file name stands for one text. *)
Theorem seccomp_roundtrip c :
  (forall o, Some o ∈ declarations c -> resolved o) ->
  (forall o1 o2, Some o1 ∈ declarations c -> Some o2 ∈ declarations c -> sc_profile o1 = sc_profile o2 ->
     sc_effectiveProfile o1 = sc_effectiveProfile o2) ->
  applySeccompProfiles decode (withoutTexts c) (SeccompProfiles c) = inr c.
Proof.
  intros Hres Huniq.
  assert (forall x, Some x ∈ declarations c -> resolved x /\
    (sc_profile x <> ""%string -> SeccompProfiles c !! sc_profile x = Some (sc_effectiveProfile x))) as Hall.
  { intros x Hx. split; [by apply Hres|]. intros Hp. apply SeccompProfiles_lookup; try done. specialize (Hres x Hx). unfold resolved in Hres.
    rewrite decide_False in Hres by done. by destruct Hres as (_ & _ & ?). }
  unfold applySeccompProfiles, withoutTexts. simpl. rewrite apply_stripped_optional.
  2: { intros x Hx. apply Hall. rewrite <- Hx. left. }
  rewrite map_to_list_fmap, applyOverrides_stripped.
  2: { intros k o x Hk Hx. apply Hall. right. apply list_elem_of_fmap. by exists (k, o). }
  rewrite list_to_map_to_list. by destruct c as [? ? ? ? ? ? ? ? ? ? ? ? ? ? ? ? ? ? [[] ?] ? ? ?].
Qed.

(** What a profile put back is. *)
Definition stands (profiles : gmap string string) (o o' : SeccompOptions) : Prop :=
  sc_profile o' = sc_profile o /\
  (sc_profile o <> ""%string ->
     profiles !! sc_profile o = Some (sc_effectiveProfile o') /\ validateSeccompProfile decode (sc_effectiveProfile o') = None /\
     sc_profileHash o' = sha256Hex (sc_effectiveProfile o') /\ (sc_profileHash o <> ""%string -> sc_profileHash o' = sc_profileHash o)).
Lemma applyOptional_stands profiles o o' :
  applyOptional decode profiles o = inr o' ->
  match o, o' with Some x, Some x' => stands profiles x x' | None, None => True | _, _ => False end.
Proof.
  unfold applyOptional, applyProfile. destruct o as [x|]; [|by intros [= <-]]. case_decide as Hp; [intros [= <-]; by split|].
  destruct (profiles !! sc_profile x) as [text|] eqn:El; [|done]. destruct (validateSeccompProfile decode text) eqn:Ev; [done|].
  case_decide as Hh; [done|]. intros [= <-]. split; [done|]. intros _. simpl. split_and!; [done|done|done|].
  intros Hne. destruct (decide (sha256Hex text = sc_profileHash x)); [done|]. by destruct Hh.
Qed.
Lemma applyOverrides_stands profiles l l' :
  applyOverrides decode profiles l = inr l' ->
  Forall2 (fun kv kv' => kv'.1 = kv.1 /\ applyOptional decode profiles (co_seccomp kv.2) = inr (co_seccomp kv'.2)) l l'.
Proof.
  revert l'. induction l as [|[k o] l IH]; intros l' H; simpl in H; [injection H as <-; constructor|].
  destruct (applyOptional decode profiles (co_seccomp o)) as [e|s] eqn:E; [done|].
  destruct (applyOverrides decode profiles l) as [e|rest]; [done|]. injection H as <-. constructor; [done|by apply IH].
Qed.

(** A hand-over cannot widen a policy: once the profiles have been put back,
    every profile any host of the challenge declares has a text that was handed
    over under its name, that is a valid profile, that hashes to what is
    recorded, and, where the challenge declared a hash, to that one; a
    declaration whose text is missing or different refuses the whole. *)
Theorem applySeccompProfiles_stands c profiles c' :
  applySeccompProfiles decode c profiles = inr c' ->
  (match co_seccomp (cho_container (cm_options c)), co_seccomp (cho_container (cm_options c')) with
   | Some o, Some o' => stands profiles o o' | None, None => True | _, _ => False end) /\
  forall host, match cho_overrides (cm_options c) !! host, cho_overrides (cm_options c') !! host with
    | Some opts, Some opts' =>
      match co_seccomp opts, co_seccomp opts' with Some o, Some o' => stands profiles o o' | None, None => True | _, _ => False end
    | None, None => True
    | _, _ => False
    end.
Proof.
  unfold applySeccompProfiles. destruct (applyOptional _ _ _) as [e|s] eqn:Es; [done|].
  destruct (applyOverrides _ _ _) as [e|l] eqn:El; [done|]. intros [= <-]. simpl. split; [by apply applyOptional_stands|].
  apply applyOverrides_stands in El. set (ov := cho_overrides (cm_options c)) in *.
  assert (l.*1 = (map_to_list ov).*1) as Hkeys.
  { clear Es. revert El. generalize (map_to_list ov) as l1. clear. intros l1 H. induction H as [|kv kv' l1 l2 [Hk _] _ IH]; [done|].
    rewrite !fmap_cons. by rewrite Hk, IH. }
  assert (NoDup l.*1) as Hnd by (rewrite Hkeys; apply NoDup_fst_map_to_list).
  intros host. destruct (ov !! host) as [opts|] eqn:Eo.
  - assert ((host, opts) ∈ map_to_list ov) as [i Hi]%list_elem_of_lookup by (by apply elem_of_map_to_list).
    destruct (Forall2_lookup_l _ _ _ _ _ El Hi) as ([k opts'] & Hi' & Hk & Ho). simpl in Hk, Ho. subst k.
    rewrite (elem_of_list_to_map_1 l host opts') by (by eauto using list_elem_of_lookup_2). by apply applyOptional_stands.
  - assert (list_to_map l !! host = None) as ->; [|done]. apply not_elem_of_list_to_map. rewrite Hkeys.
    intros ([k o] & -> & Hin%elem_of_map_to_list)%list_elem_of_fmap. simpl in *. congruence.
Qed.
End handed.

(** A challenge with one profile, declared for all of its hosts and narrowed
    for none. *)
Definition strict_text : string := "{'defaultAction': 'SCMP_ACT_ERRNO', 'syscalls': [...]}".
Definition strict_decode (s : string) : option seccompProfile :=
  if decide (s = strict_text) then Some (mkProfile "SCMP_ACT_ERRNO" [mkSyscall "" ["read"; "write"]%string "SCMP_ACT_ALLOW" []]) else None.
Definition strict_options : SeccompOptions := Eval vm_compute in mkSeccomp "strict.json" (sha256Hex strict_text) strict_text.
Definition strict_container : ContainerOptions := mkContainerOptions false "" "" [] 0 false [] false "" "" false (Some strict_options).
Definition strict_challenge : ChallengeMetadata :=
  mkChallenge "web" "Web" "" "custom" "" "" [] 7 9 "/c/web" false ∅ [] 1 "" 1 [] ∅
    (mkChallengeOptions strict_container {["db"%string := strict_container]}) false DeliveryService [].
Lemma strict_declarations o : Some o ∈ declarations strict_challenge -> o = strict_options.
Proof.
  change (declarations strict_challenge) with [Some strict_options; Some strict_options].
  intros [[= ->]|[[= ->]|H]%elem_of_cons]%elem_of_cons; [done|done|]. by apply elem_of_nil in H.
Qed.
Lemma seccomp_roundtrip_witness :
  applySeccompProfiles strict_decode (withoutTexts strict_challenge) (SeccompProfiles strict_challenge) = inr strict_challenge.
Proof.
  apply (seccomp_roundtrip strict_decode strict_challenge).
  - intros o ->%strict_declarations. vm_compute. split; [reflexivity|]. split; [reflexivity|discriminate].
  - intros o1 o2 ->%strict_declarations ->%strict_declarations _. reflexivity.
Defined.
Lemma applySeccompProfiles_stands_witness :
  exists c', applySeccompProfiles strict_decode (withoutTexts strict_challenge) {["strict.json"%string := strict_text]} = inr c' /\
    forall o', co_seccomp (cho_container (cm_options c')) = Some o' -> sc_effectiveProfile o' = strict_text.
Proof.
  destruct (applySeccompProfiles strict_decode (withoutTexts strict_challenge) {["strict.json"%string := strict_text]}) as [e|c'] eqn:E;
    [vm_compute in E; discriminate|]. exists c'. split; [reflexivity|]. intros o' Ho'.
  destruct (applySeccompProfiles_stands strict_decode _ _ c' E) as [Hc _]. rewrite Ho' in Hc.
  destruct Hc as [_ Hc]. destruct Hc as (Hl & _); [discriminate|].
  assert (Some (sc_effectiveProfile o') = Some strict_text) as [= ->] by (rewrite <- Hl; reflexivity). reflexivity.
Defined.
(** The same challenge with a wider profile under the strict one's name. *)
Example widened_profile_refused :
  applySeccompProfiles (fun _ => Some (mkProfile "SCMP_ACT_ALLOW" [])) (withoutTexts strict_challenge)
    {["strict.json"%string := "{'defaultAction': 'SCMP_ACT_ALLOW'}"%string]} = inl (profileError "hashes to another sum").
Proof. vm_compute. reflexivity. Qed.
