(* ===== verification/Docker.v ===== *)
(** * Docker: an instance's network and containers on its daemon

    The calls of [cork/docker.go] and [cork/launch.go] that bring one
    instance's network and containers up and down: [imagePresent],
    [pullImage], [ensureImages], [startNetwork], [stopNetwork],
    [startContainers], [stopContainers].  Every call goes through [docker], so
    it may fail in any way and the fleet may change while it runs; failures are
    reported to the fleet ([noteTransport]) where the code does. *)
From S2P Require Import Prelude Types Settings Queue Worker Database Fleet HostConfig Effects Ports Instances Images.
Local Open Scope Z_scope.

Definition networkPrefix : string := "cmgr-".
Definition getNetworkName (id : InstanceId) : string := (networkPrefix +:+ pretty id)%string.

(** [errdefs.IsNotFound], [errdefs.IsConflict]. *)
Definition IsNotFound (err : error) : bool := errors_Is err NotFound.
Definition IsConflict (err : error) : bool := errors_Is err Conflict.

(** A call made for an instance: a failure is noted against its worker. *)
Definition control (i : InstanceMetadata) (cli : option nat) (c : call) : M (error + unit) :=
  r ← docker cli c;
  match r with
  | inl err => noteTransport (im_worker i) cli err;; fail err
  | inr _ => ok tt
  end.

(** ** Images *)

(** [timedOut] of [pullImage]: either deadline, ours or the daemon's own on
    its registry client; only the sentinel stays in the chain. *)
Definition registryTimeout : sentinel := OtherError "i/o timeout".
Definition pullImage (cli : option nat) (name : string) : M (error + unit) :=
  r ← docker cli (ImagePull name);
  match r with
  | inl err =>
    if errors_Is err DeadlineExceeded || errors_Is err registryTimeout
    then fail [ErrPullTimeout] else fail err
  | inr _ => ok tt
  end.

Definition imagePresent (cli : option nat) (worker name : string) : M (error + bool) :=
  r ← docker cli (ImageInspect name);
  match r with
  | inr _ => ok true
  | inl err =>
    if IsNotFound err then ok false
    else noteTransport worker cli err;; fail err
  end.

(** The images of a build that run: the builder's is only built from. *)
Definition runImages (build : BuildMetadata) : list Image :=
  filter (fun i => img_host i <> "builder"%string) (bm_images build).

(** Carries whether anything was pulled, also on an error. *)
Fixpoint ensureLoop (cli : option nat) (build : BuildMetadata) (worker : string) (registry : string)
    (pulled : bool) (images : list Image) : M (option error * bool) :=
  match images with
  | [] => mret (None, pulled)
  | image :: images =>
    let name := instanceImageName registry (bm_challenge build) build image in
    present ← imagePresent cli worker name;
    match present with
    | inl err => mret (Some err, pulled)
    | inr true => ensureLoop cli build worker registry pulled images
    | inr false =>
      r ← pullImage cli name;
      match r with
      | inl err =>
        (if errors_Is err ErrPullTimeout then mret tt else noteTransport worker cli err);;
        mret (Some err, pulled)
      | inr _ => ensureLoop cli build worker registry true images
      end
    end
  end.
Definition ensureImages (cli : option nat) (build : BuildMetadata) (i : InstanceMetadata)
    (imagesEnsured : bool) : M (option error * bool) :=
  m ← getM;
  if imagesEnsured || bool_decide (m_challengeRegistry m = ""%string) then mret (None, false)
  else ensureLoop cli build (im_worker i) (m_challengeRegistry m) false (runImages build).

(** ** The network *)

Definition startNetwork (i : InstanceMetadata) : M (error + unit) :=
  cli ← reader (fun m => instanceClient m (im_worker i));
  match cli with
  | inl err => fail err
  | inr cli =>
    let name := getNetworkName (im_id i) in
    r ← docker cli (NetworkCreate name);
    r ← (match r with
         | inl err =>
           if IsConflict err then
             rm ← docker cli (NetworkRemove name);
             match rm with
             | inl rmErr => fail (err ++ rmErr)
             | inr _ => docker cli (NetworkCreate name)
             end
           else fail err
         | inr _ => ok tt
         end);
    match r with
    | inl err => noteTransport (im_worker i) cli err;; fail err
    | inr _ => ok tt
    end
  end.

Definition stopNetwork (i : InstanceMetadata) : M (error + unit) :=
  cli ← reader (fun m => instanceClient m (im_worker i));
  match cli with
  | inl err => fail err
  | inr cli =>
    r ← docker cli (NetworkRemove (getNetworkName (im_id i)));
    match r with
    | inl err =>
      if IsNotFound err then ok tt
      else noteTransport (im_worker i) cli err;; fail err
    | inr _ => ok tt
    end
  end.

(** ** Starting containers *)

Definition portsAlreadyKnown (portLow : Z) (imagePorts : list string) (ports : gmap string Z)
    (rev : gmap string string) : bool :=
  if decide (portLow = 0) then false
  else forallb (fun p => match rev !! p with
                         | Some name => negb (bool_decide (name = ""%string)) &&
                                        negb (bool_decide (default 0 (ports !! name) = 0))
                         | None => false
                         end) imagePorts.

(** One inspected mapping after the other: [None] ends the pass early, at a
    port docker has not bound yet; an unparsable host port is an error. *)
Fixpoint readPorts (rev : gmap string string) (found : list (string * list string))
    (i : InstanceMetadata) : error + (bool * InstanceMetadata) :=
  match found with
  | [] => inr (true, i)
  | (cPort, hosts) :: found =>
    match hosts with
    | [] => inr (false, i)
    | hostPort :: _ =>
      match Atoi hostPort with
      | None => inl [OtherError "Atoi"]
      | Some p =>
        readPorts rev found
          (match rev !! cPort with
           | Some name => i <| im_ports ::= <[name := p]> |>
           | None => i
           end)
      end
    end
  end.

(** The read-back loop: inspected until every port is bound, the waits between
    two tries doubling from a millisecond up to a second, so ten tries. *)
Fixpoint readBack (tries : nat) (cli : option nat) (cid : string) (rev : gmap string string)
    (i : InstanceMetadata) : M (option error * InstanceMetadata) :=
  match tries with
  | O => mret (None, i)
  | S tries =>
    r ← control i cli (ContainerInspect cid);
    match r with
    | inl err => mret (Some err, i)
    | inr _ =>
      settings ← ask o_ports;
      match settings with
      | None => readBack tries cli cid rev i
      | Some found =>
        match readPorts rev found i with
        | inl err => mret (Some err, i)
        | inr (true, i) => mret (None, i)
        | inr (false, i) => readBack tries cli cid rev i
        end
      end
    end
  end.
Definition readBackTries : nat := 10.

(** [ContainerCreate], retried once after a pull when the image has vanished. *)
Definition createContainer (i : InstanceMetadata) (cli : option nat) (spec : containerSpec)
    : M (error + string) :=
  m ← getM;
  r ← docker cli (ContainerCreate spec);
  r ← (match r with
       | inl err =>
         if IsNotFound err && negb (bool_decide (m_challengeRegistry m = ""%string)) then
           p ← pullImage cli (cs_image spec);
           match p with
           | inl perr => fail perr
           | inr _ => docker cli (ContainerCreate spec)
           end
         else fail err
       | inr _ => ok tt
       end);
  match r with
  | inl err => noteTransport (im_worker i) cli err;; fail err
  | inr _ => cid ← ask o_cid; ok cid
  end.

(** One image of the build; the instance keeps a container that was created
    whatever happens next. *)
Definition startContainer (build : BuildMetadata) (opts : gmap string ContainerOptions)
    (env rev : gmap string string) (cli : option nat) (image : Image) (i : InstanceMetadata)
    : M (option error * InstanceMetadata) :=
  m ← getM;
  p ← (fun w => (o_parsers (W_o w), w));
  match portBindings p (m_portLow m) (m_challengeInterface m) (im_ports i) rev (img_ports image) with
  | inl err => mret (Some err, i)
  | inr bindings =>
    match hostConfig p (m_diskQuotas m) (bool_decide (m_hostOSType m = "linux"%string))
            (m_seccompPolicy m) opts (img_host image) bindings with
    | inl err => mret (Some err, i)
    | inr h =>
      let spec := mkSpecC (instanceImageName (m_challengeRegistry m) (bm_challenge build) build image)
        (img_host image) (getNetworkName (im_id i))
        (bool_decide (bm_instanceCount build = DYNAMIC_INSTANCES)) env h in
      r ← createContainer i cli spec;
      match r with
      | inl err => mret (Some err, i)
      | inr cid =>
        let i := i <| im_containers ::= (fun l => l ++ [cid]) |> in
        s ← control i cli (ContainerStart cid);
        match s with
        | inl err => mret (Some err, i)
        | inr _ =>
          if portsAlreadyKnown (m_portLow m) (img_ports image) (im_ports i) rev
          then mret (None, i)
          else readBack readBackTries cli cid rev i
        end
      end
    end
  end.

Fixpoint startLoop (build : BuildMetadata) (opts : gmap string ContainerOptions)
    (env rev : gmap string string) (cli : option nat) (images : list Image) (i : InstanceMetadata)
    : M (option error * InstanceMetadata) :=
  match images with
  | [] => mret (None, i)
  | image :: images =>
    r ← startContainer build opts env rev cli image i;
    match r with
    | (Some err, i) => mret (Some err, i)
    | (None, i) => startLoop build opts env rev cli images i
    end
  end.

Definition startContainers (build : BuildMetadata) (i : InstanceMetadata)
    (opts : gmap string ContainerOptions) (env rev : gmap string string)
    : M (option error * InstanceMetadata) :=
  cli ← reader (fun m => instanceClient m (im_worker i));
  match cli with
  | inl err => mret (Some err, i)
  | inr cli =>
    r ← startLoop build opts env rev cli (runImages build) i;
    match r with
    | (Some err, i) => mret (Some err, i)
    | (None, i) =>
      f ← retryable (finalizeInstance i);
      match f with
      | inl err => mret (Some err, i)
      | inr _ => mret (None, i)
      end
    end
  end.

(** ** Stopping containers *)

(** The removals: whether one was already in flight, and every failure kept;
    an unreachable daemon ends them. *)
Fixpoint removeLoop (i : InstanceMetadata) (cli : option nat) (cids : list string)
    (inFlight : bool) (errs : list error) : M (bool * list error) :=
  match cids with
  | [] => mret (inFlight, errs)
  | cid :: cids =>
    r ← docker cli (ContainerRemove cid);
    match r with
    | inr _ => removeLoop i cli cids inFlight errs
    | inl err =>
      if IsNotFound err then removeLoop i cli cids inFlight errs
      else if IsConflict err then removeLoop i cli cids true errs
      else
        noteTransport (im_worker i) cli err;;
        m ← getM;
        if isTransportError (Some err) && workerUnreachable m (im_worker i)
        then mret (inFlight, errs ++ [err])
        else removeLoop i cli cids inFlight (errs ++ [err])
    end
  end.

(** [errors.Join]: no error when there is none to join. *)
Definition joined (errs : list error) : option error :=
  match errs with [] => None | _ => Some (concat errs) end.

(** The instance comes back without its containers and ports: the records are
    cleared whatever the removals came to. *)
Definition stopContainers (i : InstanceMetadata) : M (bool * option error * InstanceMetadata) :=
  cli ← reader (fun m => instanceClient m (im_worker i));
  match cli with
  | inl err => mret (false, Some err, i)
  | inr cli =>
    '(inFlight, errs) ← removeLoop i cli (im_containers i) false [];
    r ← removeContainersMetadata i;
    let errs := match r with inl err => errs ++ [retryableDB err] | inr _ => errs end in
    mret (inFlight, joined errs, i <| im_containers := [] |> <| im_ports := ∅ |>)
  end.

#[global] Typeclasses Opaque control pullImage imagePresent ensureLoop ensureImages startNetwork stopNetwork
  readBack createContainer startContainer startLoop startContainers removeLoop stopContainers
  finalizeInstance removeContainersMetadata removeInstanceMetadata openInstance.

(** ** The tables stay sound *)
Section keep_docker.
Local Abbreviation Ok := (onM tables_ok).

#[export] Instance keeps_control i cli c : Keeps Ok (control i cli c).
Proof. unfold control. keep. Qed.
#[export] Instance keeps_pullImage cli name : Keeps Ok (pullImage cli name).
Proof. unfold pullImage. keep. Qed.
#[export] Instance keeps_imagePresent cli worker name : Keeps Ok (imagePresent cli worker name).
Proof. unfold imagePresent. keep. Qed.
#[export] Instance keeps_ensureLoop cli build worker reg pulled images :
  Keeps Ok (ensureLoop cli build worker reg pulled images).
Proof. revert pulled. induction images; intros; simpl; keep. Qed.
#[export] Instance keeps_ensureImages cli build i b : Keeps Ok (ensureImages cli build i b).
Proof. unfold ensureImages. keep. Qed.
#[export] Instance keeps_startNetwork i : Keeps Ok (startNetwork i).
Proof. unfold startNetwork. keep. Qed.
#[export] Instance keeps_stopNetwork i : Keeps Ok (stopNetwork i).
Proof. unfold stopNetwork. keep. Qed.
#[export] Instance keeps_readBack k cli cid rev i : Keeps Ok (readBack k cli cid rev i).
Proof. revert i. induction k; intros; simpl; keep. Qed.
#[export] Instance keeps_createContainer i cli spec : Keeps Ok (createContainer i cli spec).
Proof. unfold createContainer. keep. Qed.
#[export] Instance keeps_startContainer build opts env rev cli image i :
  Keeps Ok (startContainer build opts env rev cli image i).
Proof. unfold startContainer. keep. by intros w. Qed.
#[export] Instance keeps_startLoop build opts env rev cli images i :
  Keeps Ok (startLoop build opts env rev cli images i).
Proof. revert i. induction images; intros; simpl; keep. Qed.
#[export] Instance keeps_startContainers build i opts env rev :
  Keeps Ok (startContainers build i opts env rev).
Proof. unfold startContainers. keep. Qed.
#[export] Instance keeps_removeLoop i cli cids fl errs : Keeps Ok (removeLoop i cli cids fl errs).
Proof. revert fl errs. induction cids; intros; simpl; keep. Qed.
#[export] Instance keeps_stopContainers i : Keeps Ok (stopContainers i).
Proof. unfold stopContainers. keep. Qed.
End keep_docker.

(** ** Which calls are made *)

(** Looking at and fetching images leaves nothing of an instance on a daemon. *)
Definition image_call (e : event) : Prop :=
  match ev_call e with ImageInspect _ | ImagePull _ => True | _ => False end.

#[export] Instance emits_pullImage cli name : Emits image_call (pullImage cli name).
Proof. unfold pullImage. emit. Qed.
#[export] Instance emits_imagePresent cli worker name : Emits image_call (imagePresent cli worker name).
Proof. unfold imagePresent. emit. Qed.
#[export] Instance emits_ensureLoop cli build worker reg pulled images :
  Emits image_call (ensureLoop cli build worker reg pulled images).
Proof. revert pulled. induction images; intros; simpl; emit. Qed.
#[export] Instance emits_ensureImages cli build i b : Emits image_call (ensureImages cli build i b).
Proof. unfold ensureImages. emit. Qed.

Lemma docker_result cli c w r w' :
  docker cli c w = (r, w') ->
  exists err, W_trace w' = W_trace w ++ [mkEvent cli c err] /\
    r = match err with None => inr tt | Some e => inl e end /\ W_o w' = W_o w /\
    W_m w' = run_ops (o_others (W_o w) (W_tick w)) (W_m w).
Proof.
  unfold docker. run. set (err := o_docker _ _ _).
  intros H. exists err. by destruct err; simplify_eq/=.
Qed.

Lemma docker_tick cli c w r w' : docker cli c w = (r, w') -> W_tick w' = S (S (W_tick w)).
Proof. unfold docker. run. destruct (o_docker _ _ _); intros; by simplify_eq/=. Qed.
