(* ===== verification/Launch.v ===== *)
(** * Launch: starting and stopping an instance

    [cork/launch.go] (limits, [admit], [acquireSlot], [launch],
    [launchFailure]), [teardown] of [cork/docker.go], and [Start],
    [newInstance], [Stop] and [stopInstance] of [cork/api.go]: what a request
    to launch or stop an instance does to the fleet, the daemon and the
    records.

    The tokens of a slot are [Queue]'s; here a slot is granted, refused by the
    timer or by the worker becoming unreachable, as the outside decides. *)
From S2P Require Import Prelude Types Settings Queue Worker Database Fleet HostConfig Effects Ports Instances Images Docker.
Local Open Scope Z_scope.

Record launchLimits := mkLimits {
  ll_slotWait : Z;              (* zero waits as long as it takes *)
  ll_pullTimeout : Z;
  ll_imagesEnsured : bool;
  ll_restart : bool }.

Definition restartPullTimeout : Z := 5 * Minute.
Definition requestLimits (m : Manager) : launchLimits :=
  let t := timing (m_workerTiming m) in mkLimits (launchWait t) (pullTimeout t) false false.
Definition restartLimits (m : Manager) : launchLimits :=
  mkLimits 0 (Z.max restartPullTimeout (pullTimeout (timing (m_workerTiming m)))) false true.
Definition transportTimeout (m : Manager) : Z :=
  Z.max (ll_pullTimeout (restartLimits m)) (controlTimeout (timing (m_workerTiming m))).

(** [admit]: refuse at once what would only be refused after the wait. *)
Definition admitLaunch (m : Manager) (worker : string) (limits : launchLimits) : option error :=
  if decide (ll_slotWait limits <= 0) then None
  else
    let '(expected, _) := expectedWait (Some (hostQueue m worker)) in
    if decide (expected <= ll_slotWait limits) then None else Some [ErrWorkerBusy].

(** Whether the worker of an instance is out of reach, as the launch and slot
    code asks it. *)
Definition unreachableWorker (m : Manager) (worker : string) : bool :=
  negb (bool_decide (worker = ""%string)) && workerUnreachable m worker.

(** [acquireSlot].  The channel waited on is that of the conn registered when
    the wait began; the timer only fires when the wait is bounded. *)
Definition acquireSlot (worker : string) (wait : Z) : M (error + unit) :=
  m ← getM;
  if unreachableWorker m worker then fail [ErrWorkerUnreachable]
  else
    let conn := if decide (worker = ""%string) then None else fst <$> lookupWorker m worker in
    others ← ask o_others;
    modifyM (run_ops others);;
    outcome ← ask o_slot;
    m ← getM;
    let closed := match conn with
                  | Some c => match m_conns m !! c with
                              | Some w => bool_decide (w_unreachCh w = chan_closed)
                              | None => false
                              end
                  | None => false
                  end in
    match outcome with
    | SlotUnreachable =>
      if closed then fail [ErrWorkerUnreachable]
      else if unreachableWorker m worker then fail [ErrWorkerUnreachable] else ok tt
    | SlotExpired =>
      if decide (0 < wait) then fail [ErrWorkerBusy]
      else if unreachableWorker m worker then fail [ErrWorkerUnreachable] else ok tt
    | SlotTaken => if unreachableWorker m worker then fail [ErrWorkerUnreachable] else ok tt
    end.

(** The queue of the hosting daemon, as a cell that can be written: a conn's,
    or the local one. *)
Definition queueRef (m : Manager) (worker : string) : option nat :=
  if decide (worker = ""%string) then None else fst <$> lookupWorker m worker.
Definition onQueue (q : option nat) (f : daemonQueue -> daemonQueue) (m : Manager) : Manager :=
  match q with
  | None => m <| m_localQueue ::= f |>
  | Some c => onConn c (fun w => w <| w_queue ::= f |>) m
  end.

(** [teardown]: the wait, the containers, the network. *)
Definition teardown (i : InstanceMetadata) (wait : Z) : M (option error * InstanceMetadata) :=
  s ← acquireSlot (im_worker i) wait;
  match s with
  | inl err => mret (Some err, i)
  | inr _ =>
    '(inFlight, cErr, i') ← stopContainers i;
    m ← getM;
    match cErr with
    | Some err =>
      if isTransportError cErr && workerUnreachable m (im_worker i) then mret (Some err, i')
      else
        n ← stopNetwork i';
        let nErr := match n with inl e => if inFlight && IsConflict e then None else Some e | inr _ => None end in
        mret (Some (err ++ default [] nErr), i')
    | None =>
      n ← stopNetwork i';
      mret (match n with inl e => if inFlight && IsConflict e then None else Some e | inr _ => None end, i')
    end
  end.

(** [launchFailure]. *)
Definition launchFailure (m : Manager) (worker : string) (err : option error) : option error :=
  match err with
  | None => None
  | Some e =>
    if bool_decide (worker = ""%string) || errors_Is e ErrWorkerUnreachable then Some e
    else if workerUnreachable m worker then Some [ErrWorkerUnreachable]
    else if errors_Is e DeadlineExceeded && negb (errors_Is e ErrWorkerBusy) then Some [ErrWorkerBusy]
    else Some e
  end.

(** [launchStages]: whether the slot was taken, the error, the instance with
    what was created. *)
Definition launchStages (build : BuildMetadata) (i : InstanceMetadata)
    (opts : gmap string ContainerOptions) (env rev : gmap string string) (limits : launchLimits)
    : M (bool * option error * InstanceMetadata) :=
  m ← getM;
  match instanceClient m (im_worker i) with
  | inl err => mret (false, Some err, i)
  | inr cli =>
    if unreachableWorker m (im_worker i) then mret (false, Some [ErrWorkerUnreachable], i)
    else
      '(iErr, _) ← ensureImages cli build i (ll_imagesEnsured limits);
      match iErr with
      | Some err => mret (false, Some err, i)
      | None =>
        q ← reader (fun m => queueRef m (im_worker i));
        s ← acquireSlot (im_worker i) (ll_slotWait limits);
        match s with
        | inl err => mret (false, Some err, i)
        | inr _ =>
          acquired ← now;
          n ← startNetwork i;
          r ← (match n with
               | inl err => mret (Some err, i)
               | inr _ => startContainers build i opts env rev
               end);
          released ← now;
          modifyM (onQueue q (fun q => recordHold q (released - acquired)));;
          mret (true, r.1, r.2)
        end
      end
  end.

(** [launchOutcomeOf]. *)
Definition launchOutcomeOf (err : option error) : string :=
  match err with
  | None => "ok"
  | Some e =>
    if errors_Is e ErrAllWorkersOverloaded || errors_Is e ErrAllWorkersUnresponsive ||
       errors_Is e ErrAllWorkersDown || errors_Is e ErrNoWorkers then "no-worker"
    else if errors_Is e ErrWorkerBusy then "busy"
    else if errors_Is e ErrWorkerUnreachable then "unreachable"
    else if errors_Is e ErrPullTimeout then "pull-timeout"
    else "error"
  end.

(** [launchTimer.finish] with its [ring]: the launch is counted on the queue its
    daemon has now, on none when the worker is unknown by then; restarts are
    not counted. *)
Definition onRing (worker : string) (f : launchRing -> launchRing) (m : Manager) : Manager :=
  if decide (worker = ""%string \/ is_Some (lookupWorker m worker))
  then onQueue (queueRef m worker) (fun q => q <| q_launches ::= f |>) m else m.
Definition finish (worker : string) (limits : launchLimits) (begun : Z) (err : option error) : M unit :=
  finished ← now;
  if ll_restart limits then mret tt
  else modifyM (onRing worker (fun r => ringAdd r (finished - begun) (bool_decide (launchOutcomeOf err = "ok"%string)))).

Definition launch (build : BuildMetadata) (i : InstanceMetadata) (opts : gmap string ContainerOptions)
    (env rev : gmap string string) (limits : launchLimits) : M (bool * option error * InstanceMetadata) :=
  begun ← now;
  '(started, err, i') ← launchStages build i opts env rev limits;
  m ← getM;
  let err := launchFailure m (im_worker i) err in
  finish (im_worker i) limits begun err;;
  mret (started, err, i').

(** ** Stopping *)

Definition unreachable (m : Manager) (worker : string) : bool :=
  if decide (worker = ""%string) then m_externalBuildPlane m else workerUnreachable m worker.

Definition stopInstance (i : InstanceMetadata) : M (error + unit) :=
  m ← getM;
  if unreachable m (im_worker i) then removeInstanceMetadata (im_id i)
  else
    '(err, _) ← teardown i (teardownWait (timing (m_workerTiming m)));
    match err with
    | None => removeInstanceMetadata (im_id i)
    | Some e =>
      m ← getM;
      if unreachable m (im_worker i) then removeInstanceMetadata (im_id i)
      else if errors_Is e DeadlineExceeded then removeInstanceMetadata (im_id i)
      else fail e
    end.

Definition Stop (id : InstanceId) : M (error + unit) :=
  let? i := lookupInstanceMetadata id in
  let? b := lookupBuildMetadata (im_build i) in
  if decide (bm_instanceCount b <> DYNAMIC_INSTANCES) then fail [OtherError "locked build"]
  else stopInstance i.

(** ** Starting *)

Definition clearInstanceRecords (id : InstanceId) : M unit :=
  _ ← removeInstanceMetadata id; mret tt.

(** [checkPrune]: whether this call starts a [Prune]; the timestamp is the
    gate only one caller per interval passes. *)
Definition checkPrune : M bool :=
  m ← getM;
  if decide (m_pruneAge m <= 0) then mret false
  else
    t ← now;
    if decide (sub64 t (m_lastPruneUnix m) < m_pruneInterval m) then mret false
    else modifyM (fun m => m <| m_lastPruneUnix := t |>);; mret true.

(** The host ports of a new instance, one after the other. *)
Fixpoint reservePorts (ports : list string) (rev : gmap string string) (i : InstanceMetadata)
    : M (error + InstanceMetadata) :=
  match ports with
  | [] => ok i
  | portStr :: ports =>
    let name := default ""%string (rev !! portStr) in
    let? p := reservePort (im_id i) (im_worker i) name in
    reservePorts ports rev (i <| im_ports ::= <[name := p]> |>)
  end.

(** Where a new instance goes: the worker placement picks, or the local daemon. *)
Definition placeInstance : M (error + string) :=
  m ← getM;
  r ← (if m_placementEnabled m then
         match selectWorker m with
         | Some (m', r) => modifyM (fun _ => m');; mret r
         | None => fail [OtherError "nil dereference"]
         end
       else ok ""%string);
  match r with
  | inl err => fail err
  | inr worker =>
    if bool_decide (worker = ""%string) && m_externalBuildPlane m then fail [ErrNoWorkers] else ok worker
  end.

Definition newInstance (build : BuildMetadata) (env : gmap string string) (limits : launchLimits)
    : M (error + InstanceId) :=
  let? c := lookupChallengeMetadata (bm_challenge build) in
  if NeedsInstance c then
    let? worker := placeInstance in
    m ← getM;
    match admitLaunch m worker limits with
    | Some err => begun ← now; finish worker limits begun (Some err);; fail err
    | None =>
      let? i := openInstance (mkInstance 0 false ∅ [] 0 None (bm_id build) worker "" "") in
      _ ← checkPrune;
      rev ← getReversePortMap (bm_challenge build);
      match rev with
      | inl err => clearInstanceRecords (im_id i);; fail err
      | inr rev =>
        m ← getM;
        r ← (if decide (m_portLow m = 0) then ok i else reservePorts (publishedPorts build) rev i);
        match r with
        | inl err => clearInstanceRecords (im_id i);; fail err
        | inr i =>
          '(started, err, i') ← launch build i (cho_overrides (cm_options c)) env rev limits;
          match err with
          | None => ok (im_id i)
          | Some err =>
            (if started : bool then _ ← stopInstance i'; mret tt else clearInstanceRecords (im_id i));;
            fail err
          end
        end
      end
    end
  else fail [OtherError "delivered without instances"].

Definition Start (build : BuildId) (env : gmap string string) : M (error + InstanceId) :=
  let? b := lookupBuildMetadata build in
  if decide (bm_instanceCount b <> DYNAMIC_INSTANCES) then fail [OtherError "locked build"]
  else limits ← reader requestLimits; newInstance b env limits.

(** [restartInstance]: pull while the old containers serve, tear down, the same
    ports, launch. *)
Definition restartInstance (build : BuildMetadata) (c : ChallengeMetadata) (i : InstanceMetadata)
    (rev : gmap string string) : M (option error * InstanceMetadata) :=
  m ← getM;
  match instanceClient m (im_worker i) with
  | inl err => mret (Some err, i)
  | inr cli =>
    let limits := restartLimits m in
    '(err, _) ← ensureImages cli build i false;
    match err with
    | Some err => mret (Some err, i)
    | None =>
      let previous := im_ports i in
      '(err, i) ← teardown i 0;
      match err with
      | Some err => mret (Some err, i)
      | None =>
        '(err, i) ← reassignPorts build i rev previous;
        match err with
        | Some err => mret (Some err, i)
        | None =>
          '(_, err, i) ← launch build i (cho_overrides (cm_options c)) ∅ rev
              (mkLimits (ll_slotWait limits) (ll_pullTimeout limits) true true);
          mret (err, i)
        end
      end
    end
  end.

#[global] Typeclasses Opaque acquireSlot teardown launchStages finish launch stopInstance Stop clearInstanceRecords
  checkPrune reservePorts placeInstance newInstance Start restartInstance lookupInstanceMetadata
  lookupBuildMetadata lookupChallengeMetadata getReversePortMap.

(** ** The tables stay sound *)
Section keep_launch.
Local Abbreviation Ok := (onM tables_ok).

#[export] Instance keeps_lookupInstanceMetadata id : Keeps Ok (lookupInstanceMetadata id).
Proof. unfold lookupInstanceMetadata. keep. Qed.
#[export] Instance keeps_lookupBuildMetadata id : Keeps Ok (lookupBuildMetadata id).
Proof. unfold lookupBuildMetadata. keep. Qed.
#[export] Instance keeps_lookupChallengeMetadata id : Keeps Ok (lookupChallengeMetadata id).
Proof. unfold lookupChallengeMetadata. keep. Qed.
#[export] Instance keeps_getReversePortMap id : Keeps Ok (getReversePortMap id).
Proof. unfold getReversePortMap. keep. Qed.

Lemma keeps_others ops : Keeps Ok (modifyM (run_ops ops)).
Proof. apply keeps_modify. intros m. apply stable_ops, _. Qed.
Lemma keeps_onQueue f : (forall m, m_db (f m) = m_db m /\ m_portLow (f m) = m_portLow m) -> Keeps Ok (modifyM f).
Proof.
  intros Hf. apply keeps_modify. intros m Hm. destruct (Hf m) as [H1 H2]. by apply (same_db_tables_ok m).
Qed.
#[export] Instance keeps_acquireSlot worker wait : Keeps Ok (acquireSlot worker wait).
Proof. unfold acquireSlot. keep. apply keeps_others. Qed.
#[export] Instance keeps_teardown i wait : Keeps Ok (teardown i wait).
Proof. unfold teardown. keep. Qed.
#[export] Instance keeps_launchStages build i opts env rev limits :
  Keeps Ok (launchStages build i opts env rev limits).
Proof. unfold launchStages. keep. apply keeps_onQueue. intros m. unfold onQueue. by case_match. Qed.
#[export] Instance keeps_finish worker limits begun err : Keeps Ok (finish worker limits begun err).
Proof.
  unfold finish. keep. apply keeps_onQueue. intros m. unfold onRing. case_decide; [|done]. unfold onQueue. by case_match.
Qed.
#[export] Instance keeps_launch build i opts env rev limits : Keeps Ok (launch build i opts env rev limits).
Proof. unfold launch. keep. Qed.
#[export] Instance keeps_stopInstance i : Keeps Ok (stopInstance i).
Proof. unfold stopInstance. keep. Qed.
#[export] Instance keeps_Stop id : Keeps Ok (Stop id).
Proof. unfold Stop. keep. Qed.
#[export] Instance keeps_clearInstanceRecords id : Keeps Ok (clearInstanceRecords id).
Proof. unfold clearInstanceRecords. keep. Qed.
#[export] Instance keeps_checkPrune : Keeps Ok checkPrune.
Proof. unfold checkPrune. keep. by apply keeps_onQueue. Qed.
#[export] Instance keeps_reservePorts ports rev i : Keeps Ok (reservePorts ports rev i).
Proof. revert i. induction ports; intros; simpl; keep. Qed.
#[export] Instance keeps_placeInstance : Keeps Ok placeInstance.
Proof.
  intros w Hw. unfold placeInstance. run. destruct (m_placementEnabled (W_m w)); simpl.
  - destruct (selectWorker (W_m w)) as [[m' r]|] eqn:E; simpl; [|done].
    assert (tables_ok m') as Hm' by (apply select_frame in E as [k ->]; by apply (same_db_tables_ok (W_m w))).
    by destruct r as [err|worker]; simpl; [|destruct (_ && _)].
  - by destruct (m_externalBuildPlane (W_m w)).
Qed.
#[export] Instance keeps_newInstance build env limits : Keeps Ok (newInstance build env limits).
Proof. unfold newInstance. keep. Qed.
#[export] Instance keeps_Start build env : Keeps Ok (Start build env).
Proof. unfold Start. keep. Qed.
#[export] Instance keeps_restartInstance build c i rev : Keeps Ok (restartInstance build c i rev).
Proof. unfold restartInstance. keep. Qed.
End keep_launch.

#[export] Instance emits_acquireSlot P worker wait : Emits P (acquireSlot worker wait).
Proof. unfold acquireSlot. emit. Qed.

#[export] Instance emits_finish P worker limits begun err : Emits P (finish worker limits begun err).
Proof. unfold finish. emit. Qed.

(** What the bind of a pair of results leaves. *)
Lemma bind_inv {A B} (e : M A) (k : A -> M B) w r w' :
  (e ≫= k) w = (r, w') -> exists a w1, e w = (a, w1) /\ k a w1 = (r, w').
Proof. unfold mbind, M_bind. destruct (e w) as [a w1]. eauto. Qed.

Lemma emits_inv {A} P (e : M A) w a w' :
  Emits P e -> e w = (a, w') -> exists tr, W_trace w' = W_trace w ++ tr /\ Forall P tr.
Proof. intros He E. destruct (He w) as (tr & Ht & Hp). rewrite E in Ht. eauto. Qed.

Lemma launchStages_before_slot build i opts env rev limits w err i' w' :
  launchStages build i opts env rev limits w = ((false, err, i'), w') ->
  i' = i /\ is_Some err /\ exists tr, W_trace w' = W_trace w ++ tr /\ Forall image_call tr.
Proof.
  unfold launchStages. intros (m & w0 & Em & H)%bind_inv. unfold getM in Em. simplify_eq.
  assert (forall w1, exists tr, W_trace w1 = W_trace w1 ++ tr /\ Forall image_call tr) as Hnil
    by (intros; exists []; by rewrite app_nil_r).
  destruct (instanceClient _ _) as [e|cli]; [run; simplify_eq; eauto|].
  destruct (unreachableWorker _ _); [run; simplify_eq; eauto|].
  apply bind_inv in H as ([iErr pulled] & w1 & E1 & H).
  destruct (emits_inv image_call _ _ _ _ _ E1) as (tr1 & Ht1 & Hp1).
  destruct iErr as [e|]; [run; simplify_eq; eauto|].
  apply bind_inv in H as (q & w2 & Eq & H). unfold reader in Eq. simplify_eq.
  apply bind_inv in H as (s & w3 & E3 & H).
  destruct (emits_inv image_call _ _ _ _ _ E3) as (tr3 & Ht3 & Hp3).
  destruct s as [e|[]].
  - run. simplify_eq. split_and!; [done|by eexists|]. exists (tr1 ++ tr3). rewrite Ht3, Ht1, app_assoc.
    split; [done|]. by apply Forall_app.
  - exfalso. do 3 apply bind_inv in H as (? & ? & _ & H). apply bind_inv in H as (? & ? & _ & H).
    apply bind_inv in H as (? & ? & _ & H). run. simplify_eq.
Qed.

Lemma finish_trace worker limits begun err w u w' :
  finish worker limits begun err w = (u, w') -> W_trace w' = W_trace w.
Proof.
  intros E. destruct (emits_inv (fun _ => False) _ _ _ _ _ E) as ([|e tr] & Ht & Hf); [by rewrite app_nil_r in Ht|].
  by inversion_clear Hf.
Qed.

(** A launch that failed before its slot left nothing on the daemon: if
    [launch] reports that it did not start, it failed, the only calls it made
    looked at images or fetched them, and the instance lists no container it
    did not have before.  (So its records can be cleared without a call.) *)
Theorem launch_before_slot_leaves_nothing build i opts env rev limits w err i' w' :
  launch build i opts env rev limits w = ((false, err, i'), w') ->
  i' = i /\ is_Some err /\ exists tr, W_trace w' = W_trace w ++ tr /\ Forall image_call tr.
Proof.
  unfold launch. intros (b & w0 & E0 & H)%bind_inv. unfold now, ask in E0. simplify_eq.
  apply bind_inv in H as ([[started e] i1] & w1 & E1 & H). cbn beta iota in H.
  apply bind_inv in H as (m & w2 & E2 & H). unfold getM in E2. simplify_eq.
  apply bind_inv in H as (u & w4 & E4 & H). unfold mret, M_ret in H. simplify_eq.
  apply launchStages_before_slot in E1 as (-> & [e0 ->] & tr & Ht & Hp).
  rewrite (finish_trace _ _ _ _ _ _ _ E4).
  split_and!; [done| |by exists tr]. unfold launchFailure. repeat case_match; eauto.
Qed.

(** The build of [demo_world], and an outside whose registry is down. *)
Definition demo_build : BuildMetadata :=
  mkBuild 1 "flag{x}" ∅ 42 "flag{%s}" 5 0 7 [mkImage 1 "web" ["80/tcp"%string] 0] false 0 "web" [] "event"
    DYNAMIC_INSTANCES.
Definition noRegistry : Oracle :=
  calm <| o_docker := fun _ c => match c with
                                 | ImageInspect _ => Some [NotFound]
                                 | ImagePull _ => Some [OtherError "registry"]
                                 | _ => None
                                 end |>.

Lemma launch_before_slot_leaves_nothing_witness :
  let '((started, err, i'), w') :=
    launch demo_build port_instance ∅ ∅ ∅ (mkLimits 0 0 false false) (port_world noRegistry) in
  started = false /\ is_Some err /\ exists tr, W_trace w' = tr /\ length tr = 2%nat /\ Forall image_call tr.
Proof.
  destruct (launch _ _ _ _ _ _ _) as [[[started err] i'] w'] eqn:E.
  assert (started = false) as -> by (vm_compute in E; congruence).
  destruct (launch_before_slot_leaves_nothing _ _ _ _ _ _ _ _ _ _ E) as (_ & He & tr & Ht & Hp).
  split; [done|]. split; [exact He|]. exists tr. split; [exact Ht|]. split; [|exact Hp].
  simpl in Ht. rewrite <- Ht. vm_compute in E. injection E as _ _ <-. reflexivity.
Defined.
