(* ===== verification/Lifecycle.v ===== *)
(** * Lifecycle: what starting and stopping an instance guarantee

    Theorems about [stopInstance], [teardown], [startContainers] and
    [newInstance]: what a stop removed from the daemon and from the records,
    what a failed stop keeps, that no container a launch created is lost, and
    what a launch that succeeded has recorded.  All of them for every outside:
    any call may fail in any way, and the fleet may change during any call. *)
From S2P Require Import Prelude Types Settings Queue Worker Database Fleet HostConfig Effects Ports Instances Images Docker Launch.
Local Open Scope Z_scope.

(** Inverts the head of a run. *)
Ltac step H x w1 E := apply bind_inv in H as (x & w1 & E & H).

Lemma emits_nothing {A} (e : M A) w a w' :
  Emits (fun _ => False) e -> e w = (a, w') -> W_trace w' = W_trace w.
Proof.
  intros He E. destruct (emits_inv _ _ _ _ _ He E) as ([|] & -> & H); [apply app_nil_r|].
  by inversion_clear H.
Qed.
Lemma reader_inv {A} (f : Manager -> A) w a w' : reader f w = (a, w') -> a = f (W_m w) /\ w' = w.
Proof. unfold reader. by intros; simplify_eq. Qed.
Lemma ret_inv {A} (a : A) w b w' : (mret a : M A) w = (b, w') -> b = a /\ w' = w.
Proof. unfold mret, M_ret. by intros; simplify_eq. Qed.
Lemma getM_inv w m w' : getM w = (m, w') -> m = W_m w /\ w' = w.
Proof. unfold getM. by intros; simplify_eq. Qed.

Lemma sqlRead_inv {A} (f : Db -> A) w r w' :
  sqlRead f w = (r, w') ->
  W_m w' = W_m w /\ W_o w' = W_o w /\ W_trace w' = W_trace w /\
  match r with inl _ => True | inr a => a = f (m_db (W_m w)) end.
Proof.
  run. destruct (o_db _ _); intros; simplify_eq/=; [done|]. split_and!; [apply same_db|done..].
Qed.

Lemma keeps_gives {A} I (e : M A) `{!Keeps (onM I) e} w a w' : e w = (a, w') -> I (W_m w) -> I (W_m w').
Proof. intros E Hw. specialize (keeps w Hw). by rewrite E. Qed.

(** A statement leaves the trace alone. *)
Lemma transaction_trace {A} (body : M (error + A)) w r w' :
  DbOnly body -> transaction body w = (r, w') -> W_trace w' = W_trace w.
Proof. intros Hb E. by apply transaction_spec in E as (_ & ? & _). Qed.

(** Every function extends the trace. *)
Section extends.
Local Abbreviation T := (fun _ : event => True).
#[export] Instance extends_docker cli c : Emits T (docker cli c).
Proof. by apply emits_docker. Qed.
#[export] Instance extends_transaction {A} (body : M (error + A)) : DbOnly body -> Emits T (transaction body).
Proof.
  intros Hb. apply emits_none. intros w. destruct (transaction body w) eqn:E. by eapply transaction_trace in E.
Qed.
#[export] Instance extends_removeLoop i cli cids fl errs : Emits T (removeLoop i cli cids fl errs).
Proof. revert fl errs. induction cids; intros; simpl; emit. Qed.
#[export] Instance extends_removeContainersMetadata i : Emits T (removeContainersMetadata i).
Proof. unfold removeContainersMetadata. apply _. Qed.
#[export] Instance extends_stopContainers i : Emits T (stopContainers i).
Proof. unfold stopContainers. emit. Qed.
#[export] Instance extends_stopNetwork i : Emits T (stopNetwork i).
Proof. unfold stopNetwork. emit. Qed.
#[export] Instance extends_teardown i wait : Emits T (teardown i wait).
Proof. unfold teardown. emit. Qed.
End extends.

(** ** Stopping removes everything *)

(** [ContainerRemove] of [cid] was sent, and the daemon removed it, did not
    have it, or was removing it already. *)
Definition removed (cid : string) (e : event) : Prop :=
  ev_call e = ContainerRemove cid /\
  match ev_err e with None => True | Some err => IsNotFound err = true \/ IsConflict err = true end.

Lemma removeLoop_spec i cli cids fl errs w fl' errs' w' :
  removeLoop i cli cids fl errs w = ((fl', errs'), w') ->
  (exists more, errs' = errs ++ more) /\
  (errs' = errs -> exists tr, W_trace w' = W_trace w ++ tr /\ Forall2 removed cids tr).
Proof.
  revert fl errs w. induction cids as [|cid cids IH]; intros fl errs w H.
  { apply ret_inv in H as [? ->]. simplify_eq.
    split; [exists []; by rewrite app_nil_r|intros _; exists []; by rewrite app_nil_r]. }
  cbn [removeLoop] in H. step H r w1 E. apply docker_result in E as (err & Ht & Hr & _ & _).
  assert (forall fl1, removed cid (mkEvent cli (ContainerRemove cid) err) ->
    removeLoop i cli cids fl1 errs w1 = ((fl', errs'), w') ->
    (exists more, errs' = errs ++ more) /\
    (errs' = errs -> exists tr, W_trace w' = W_trace w ++ tr /\ Forall2 removed (cid :: cids) tr)) as Hgo.
  { intros fl1 Hrem Hl. apply IH in Hl as (Hm & Htr). split; [done|]. intros He.
    destruct (Htr He) as (tr & Hw & Hf). eexists. rewrite Hw, Ht, <- app_assoc.
    split; [reflexivity|]. by constructor. }
  destruct err as [e|]; subst r; [|by apply (Hgo fl)].
  destruct (IsNotFound e) eqn:En; [apply (Hgo fl); [split; simpl; auto|done]|].
  destruct (IsConflict e) eqn:Ec; [apply (Hgo true); [split; simpl; auto|done]|].
  step H u w2 E2. step H m w3 E3. apply getM_inv in E3 as [-> ->].
  assert (forall more, errs' = (errs ++ [e]) ++ more ->
    (exists more, errs' = errs ++ more) /\
    (errs' = errs -> exists tr, W_trace w' = W_trace w ++ tr /\ Forall2 removed (cid :: cids) tr)) as Hbad.
  { intros more ->. split; [exists (e :: more); by rewrite <- app_assoc|].
    rewrite <- app_assoc. intros Hx%(f_equal length). rewrite !length_app in Hx. simpl in Hx. lia. }
  destruct (_ && _).
  - apply ret_inv in H as [? _]. simplify_eq. apply (Hbad []). by rewrite app_nil_r.
  - apply IH in H as [[more Hm] _]. by apply (Hbad more).
Qed.

(** What a teardown that reports no error has sent, after the calls before it:
    the removal of every container of the instance, in order, then of its
    network; each of which the daemon did, or had no trace of, or was doing
    already. *)
Definition torn_down (i : InstanceMetadata) (tr : list event) : Prop :=
  exists containers network, tr = containers ++ [network] /\
    Forall2 removed (im_containers i) containers /\
    ev_call network = NetworkRemove (getNetworkName (im_id i)) /\
    match ev_err network with
    | None => True
    | Some err => IsNotFound err = true \/ IsConflict err = true
    end.

Lemma stopNetwork_spec i w r w' :
  stopNetwork i w = (r, w') ->
  match r with
  | inr _ => exists ev, W_trace w' = W_trace w ++ [ev] /\
      ev_call ev = NetworkRemove (getNetworkName (im_id i)) /\
      match ev_err ev with None => True | Some err => IsNotFound err = true end
  | inl err => IsConflict err = true -> exists ev, W_trace w' = W_trace w ++ [ev] /\
      ev_call ev = NetworkRemove (getNetworkName (im_id i)) /\ ev_err ev = Some err
  end.
Proof.
  unfold stopNetwork. intros H. step H cli w1 E. apply reader_inv in E as [-> ->].
  destruct (instanceClient _ _) as [err|cli] eqn:Ei.
  { apply ret_inv in H as [-> ->]. unfold instanceClient in Ei. repeat case_match; simplify_eq; done. }
  step H r1 w1 E. apply docker_result in E as (e & Ht & -> & _ & _). destruct e as [e|].
  - destruct (IsNotFound e) eqn:En.
    + apply ret_inv in H as [-> ->]. rewrite Ht. eauto.
    + step H u w2 E2. apply ret_inv in H as [-> ->]. intros Hc.
      rewrite (emits_nothing _ _ _ _ _ E2), Ht. eauto.
  - apply ret_inv in H as [-> ->]. rewrite Ht. eexists. split_and!; [done..|]. done.
Qed.

(** A teardown without an error. *)
Lemma teardown_clean i wait w i' w' :
  teardown i wait w = ((None, i'), w') ->
  (exists tr, W_trace w' = W_trace w ++ tr /\ torn_down i tr) /\ im_containers i' = [] /\ im_ports i' = ∅.
Proof.
  unfold teardown. intros H. step H s w1 E1. apply emits_nothing in E1; [|apply _].
  destruct s as [e|[]]; [by apply ret_inv in H as [? _]; simplify_eq|].
  step H r w2 E2. destruct r as [[fl cErr] i2]. step H m w3 E3. apply getM_inv in E3 as [-> ->].
  destruct cErr as [e|].
  { destruct (_ && _); [by apply ret_inv in H as [? _]|]. step H n w3 E3. by apply ret_inv in H as [? _]. }
  step H n w3 E3. apply ret_inv in H as [H ->].
  assert (i2 = i' /\ match n with inl e => if fl && IsConflict e then None else Some e | inr _ => None end = None)
    as [-> Hn] by (by simplify_eq). clear H.
  unfold stopContainers in E2. step E2 cli w4 E4. apply reader_inv in E4 as [-> ->].
  destruct (instanceClient _ _) as [e|cli]; [by apply ret_inv in E2 as [? _]|].
  step E2 res w4 E4. destruct res as [fl1 errs]. step E2 r w5 E5. apply ret_inv in E2 as [E2 ->].
  injection E2 as Hfl Hj ->. apply removeLoop_spec in E4 as [_ Hrem]. apply transaction_trace in E5; [|apply _].
  assert (errs = [] /\ exists u, r = inr u) as [-> [u ->]].
  { unfold joined in Hj. destruct r; [by destruct errs|]. destruct errs; [eauto|done]. }
  destruct (Hrem eq_refl) as (tr & Ht & Hf).
  assert (exists ev, W_trace w3 = W_trace w5 ++ [ev] /\
    ev_call ev = NetworkRemove (getNetworkName (im_id i)) /\
    match ev_err ev with None => True | Some err => IsNotFound err = true \/ IsConflict err = true end)
    as (ev & Hw & Hc & Hev).
  { apply stopNetwork_spec in E3. simpl in E3. destruct n as [e|v].
    - destruct (fl && IsConflict e) eqn:Eb; [|done]. apply andb_prop in Eb as [_ Eb].
      destruct (E3 Eb) as (ev & ? & ? & He). exists ev. split_and!; [done..|]. rewrite He. auto.
    - destruct E3 as (ev & ? & ? & He). exists ev. split_and!; [done..|]. destruct (ev_err ev); auto. }
  split; [|done]. exists (tr ++ [ev]). rewrite Hw, E5, Ht, E1, app_assoc. split; [done|].
  exists tr, ev. done.
Qed.

(** ** Stopping clears the records *)

(** Nothing is on record for the instance any more. *)
Definition cleared (id : InstanceId) (d : Db) : Prop :=
  t_instances d !! id = None /\
  Forall (fun r => p_instance r <> id) (t_portAssignments d) /\
  Forall (fun r => c_instance r <> id) (t_containers d).

Lemma removeInstanceMetadata_spec id w r w' :
  removeInstanceMetadata id w = (r, w') ->
  W_trace w' = W_trace w /\
  match r with
  | inl _ => W_m w' = W_m w
  | inr _ => W_m w' = (W_m w) <| m_db := deleteInstance id (m_db (W_m w)) |>
  end /\ (o_db (W_o w) (W_tick w) = None -> r = inr tt).
Proof.
  unfold removeInstanceMetadata, retryable. run. destruct (o_db _ _); intros; simplify_eq/=; done.
Qed.

Lemma deleteInstance_cleared id m : tables_ok m -> cleared id (deleteInstance id (m_db m)).
Proof.
  intros [Hdb _]. destruct (deleteInstance_releases id _ Hdb). split_and!; [|done..].
  by rewrite deleteInstance_lookup, decide_True.
Qed.

Lemma unreachable_db m d worker : unreachable (m <| m_db := d |>) worker = unreachable m worker.
Proof. done. Qed.


(** [port_world]'s instance, running two containers. *)
Definition running : InstanceMetadata := port_instance <| im_containers := ["c0"; "c1"]%string |>.
Definition running_world (o : Oracle) : World :=
  (finalizeInstance running (port_world calm)).2 <| W_o := o |>.

Lemma demo_ok : db_ok demo_db.
Proof.
  split; try (by constructor); try (intros id r Hr; done).
  - done.
  - intros id r Hr. change (t_builds demo_db) with ({[1 := mkBuildRow "flag{x}" "flag{%s}" 42 5 0 7 false 0 "web" "event" DYNAMIC_INSTANCES]} : gmap Z buildRow) in Hr.
    apply lookup_singleton_Some in Hr as [<- <-]. by eexists.
  - intros id r Hr. change (t_images demo_db) with ({[1 := mkImageRow 1 "web"]} : gmap Z imageRow) in Hr.
    apply lookup_singleton_Some in Hr as [<- <-]. by eexists.
Qed.
Lemma port_rows_ok d : db_ok d -> t_portAssignments d = [] -> db_ok (port_rows d) /\ ports_unique (port_rows d).
Proof.
  intros Hd Hp. unfold port_rows, ports_unique.
  destruct (insertInstance _ _ _ _ d) as [[d1 id]|] eqn:E; [|rewrite Hp; split; [done|constructor]].
  pose proof (insertInstance_ok _ _ _ _ _ _ _ Hd E) as Hd1.
  apply insertInstance_spec in E as (_ & _ & E).
  destruct (insertPort _ d1) as [d'|] eqn:Ep; simpl; (split; [done || by eapply insertPort_ok|]).
  - apply insertPort_spec in Ep as (_ & _ & ->). rewrite E. simpl. rewrite Hp. apply NoDup_singleton.
  - rewrite E. simpl. rewrite Hp. constructor.
Qed.
Lemma port_world_ok o : tables_ok (W_m (port_world o)).
Proof.
  destruct (port_rows_ok demo_db demo_ok eq_refl) as [H1 H2]. unfold port_world, demo_world.
  split; cbn -[port_rows demo_db two_workers]; [exact H1|intros _; exact H2].
Qed.
Lemma running_ok o : tables_ok (W_m (running_world o)).
Proof.
  unfold running_world. destruct (finalizeInstance running (port_world calm)) as [r w] eqn:E.
  exact (keeps_gives _ _ _ _ _ E (port_world_ok calm)).
Qed.


(** ** A stop that fails can be tried again *)

(** No interfering [worker-remove] of this worker. *)
Definition spares (worker : string) (op : fleet_op) : Prop :=
  match op with OpRemove _ ip => ip <> worker | _ => True end.
Definition spared (worker : string) (o : Oracle) : Prop := forall n, Forall (spares worker) (o_others o n).

Definition recorded (id : InstanceId) (worker : string) (m : Manager) : Prop :=
  exists r, t_instances (m_db m) !! id = Some r /\ i_worker r = worker.

Lemma recorded_same id worker m m' :
  t_instances (m_db m') = t_instances (m_db m) -> recorded id worker m -> recorded id worker m'.
Proof. unfold recorded. by intros ->. Qed.
Lemma register_db w m : m_db (register w m) = m_db m.
Proof. unfold register. by destruct (m_workers m !! w_ip w). Qed.

Lemma run_op_recorded op id worker m : spares worker op -> recorded id worker m -> recorded id worker (run_op op m).
Proof.
  intros Hs Hrec. destruct op; simpl; try (by apply (recorded_same id worker m)).
  - destruct (AddWorker_register now execErr getErr dialErr ip public m) as [(err & [E|E])|[_ E]]; rewrite E;
      apply (recorded_same id worker m); try done. simpl. by rewrite register_db.
  - unfold RemoveWorker. repeat case_match; try done. destruct Hrec as (r & Hr & Hw). exists r. split; [|done].
    change (t_instances (deleteInstances (fun _ r => bool_decide (i_worker r = ip)) (m_db m)) !! id = Some r).
    rewrite deleteInstances_lookup, Hr. simpl in *. rewrite bool_decide_eq_false_2 by congruence. done.
  - unfold SetWorkerDown. case_match; by apply (recorded_same id worker m).
  - destruct (recoverWorker_register now dialErr c m) as [E|(w & _ & _ & _ & E)]; rewrite E; [done|].
    apply (recorded_same id worker m); [by rewrite register_db|done].
  - unfold noteWorkerTransportError. repeat case_match; by apply (recorded_same id worker m).
  - destruct (selectWorker m) as [[m' r']|] eqn:E; [|done]. apply select_frame in E as [k ->].
    by apply (recorded_same id worker m).
Qed.

Section keep_recorded.
Context (id : InstanceId) (worker : string).
Definition on_record (w : World) : Prop := spared worker (W_o w) /\ recorded id worker (W_m w).

Lemma run_ops_recorded ops m :
  Forall (spares worker) ops -> recorded id worker m -> recorded id worker (run_ops ops m).
Proof.
  intros H. revert m. induction H as [|op ops Hop _ IH]; intros m Hm; [done|]. apply IH. by apply run_op_recorded.
Qed.
#[export] Instance record_ask {A} (f : Oracle -> nat -> A) : Keeps on_record (ask f).
Proof. by intros w. Qed.
#[export] Instance record_now : Keeps on_record now.
Proof. by intros w. Qed.
#[export] Instance record_docker cli c : Keeps on_record (docker cli c).
Proof.
  intros w [Hs Hr]. destruct (docker cli c w) as [r w'] eqn:E.
  apply docker_result in E as (err & _ & _ & Ho & Hm). unfold on_record. simpl. rewrite Ho, Hm.
  split; [done|]. by apply run_ops_recorded.
Qed.
Lemma record_modify f : (forall m, recorded id worker m -> recorded id worker (f m)) -> Keeps on_record (modifyM f).
Proof. intros Hf w [Hs Hr]. split; [done|]. by apply Hf. Qed.
#[export] Instance record_note wk cli err : Keeps on_record (noteTransport wk cli err).
Proof.
  unfold noteTransport. keep. apply record_modify. intros m. by apply (run_op_recorded (OpNote _ _ _ _ _)).
Qed.
#[export] Instance record_removeLoop i cli cids fl errs : Keeps on_record (removeLoop i cli cids fl errs).
Proof. revert fl errs. induction cids; intros; simpl; keep. Qed.
Lemma record_exec f : (forall d, t_instances (f d) = t_instances d) -> Keeps on_record (sqlExec f).
Proof.
  intros Hf w [Hs (r & Hr & Hw)]. run. destruct (o_db _ _); simpl; (split; [done|]); exists r; [done|].
  simpl. by rewrite Hf.
Qed.
#[export] Instance record_transaction {A} (body : M (error + A)) :
  DbOnly body -> Keeps on_record body -> Keeps on_record (transaction body).
Proof.
  intros Hd Hk w Hw. destruct (transaction body w) as [r w'] eqn:E.
  apply transaction_spec in E as (Ho & _ & Hr); [|done]. unfold on_record. simpl. rewrite Ho. destruct Hw as [Hs Hrec].
  split; [done|]. destruct r as [err|a]; [by rewrite Hr|]. destruct Hr as (w1 & Hb & ->).
  specialize (Hk w (conj Hs Hrec)). rewrite Hb in Hk. apply Hk.
Qed.
#[export] Instance record_stopContainers i : Keeps on_record (stopContainers i).
Proof.
  unfold stopContainers, removeContainersMetadata. keep. apply record_transaction; [apply _|]. keep; by apply record_exec.
Qed.
#[export] Instance record_stopNetwork i : Keeps on_record (stopNetwork i).
Proof. unfold stopNetwork. keep. Qed.
Lemma record_interfere {A} (k : M A) :
  Keeps on_record k -> Keeps on_record (others ← ask o_others; modifyM (run_ops others);; k).
Proof.
  intros Hk w [Hs Hr]. unfold mbind, M_bind, ask, modifyM. cbn beta iota zeta. apply Hk. split; [done|].
  by apply run_ops_recorded.
Qed.
#[export] Instance record_acquireSlot wk wait : Keeps on_record (acquireSlot wk wait).
Proof.
  unfold acquireSlot. apply keeps_bind; [apply _|]. intros m. destruct (unreachableWorker m wk); [apply _|].
  apply record_interfere. keep.
Qed.
#[export] Instance record_teardown i wait : Keeps on_record (teardown i wait).
Proof. unfold teardown. keep. Qed.
End keep_recorded.

(** A stop that fails forgets nothing: as long as the worker is not
    removed meanwhile, the instance's row is still there, so the stop can be
    tried again and nothing runs unrecorded. *)
Theorem stopInstance_failure_keeps_row i w err w' :
  spared (im_worker i) (W_o w) -> recorded (im_id i) (im_worker i) (W_m w) ->
  stopInstance i w = (inl err, w') -> recorded (im_id i) (im_worker i) (W_m w').
Proof.
  intros Hs Hr H. unfold stopInstance in H.
  assert (forall w1, recorded (im_id i) (im_worker i) (W_m w1) ->
    removeInstanceMetadata (im_id i) w1 = (inl err, w') -> recorded (im_id i) (im_worker i) (W_m w')) as Hrm
    by (intros w1 H1 (_ & -> & _)%removeInstanceMetadata_spec; done).
  step H m w1 E1. apply getM_inv in E1 as [-> ->]. destruct (unreachable _ _); [by apply (Hrm w)|].
  step H r w1 E1. destruct r as [e i1].
  assert (recorded (im_id i) (im_worker i) (W_m w1)) as H1.
  { pose proof (record_teardown (im_id i) (im_worker i) i
      (teardownWait (timing (m_workerTiming (W_m w)))) w (conj Hs Hr)) as Hk. rewrite E1 in Hk. apply Hk. }
  destruct e as [e|]; [|by apply (Hrm w1)]. step H m w2 E2. apply getM_inv in E2 as [-> ->].
  destruct (unreachable _ _); [by apply (Hrm w1)|]. destruct (errors_Is _ _); [by apply (Hrm w1)|].
  by apply ret_inv in H as [_ ->].
Qed.

(** A daemon that refuses to remove a container. *)
Definition refusing : Oracle :=
  calm <| o_docker := fun _ c => match c with ContainerRemove _ => Some [OtherError "refused"] | _ => None end |>.

Lemma stopInstance_failure_keeps_row_witness :
  exists err w', stopInstance running (running_world refusing) = (inl err, w') /\
    recorded 1 "10.0.0.1" (W_m w').
Proof.
  destruct (stopInstance running (running_world refusing)) as [[err|u] w'] eqn:E; [|vm_compute in E; discriminate].
  exists err, w'. split; [reflexivity|].
  apply (stopInstance_failure_keeps_row running (running_world refusing) err w'); [intros n; constructor| |exact E].
  eexists. split; [vm_compute; reflexivity|reflexivity].
Defined.

(** What such a stop does release: the ports and containers of the instance
    are off the records although a container still runs, so a later launch may
    be given a port that container still holds. *)
Example refused_stop_releases_ports :
  let '(r, w') := stopInstance running (running_world refusing) in
  (exists err, r = inl err) /\
  t_portAssignments (m_db (W_m (running_world refusing))) = [mkPortRow 1 "old" 30000 "10.0.0.1"] /\
  t_portAssignments (m_db (W_m w')) = [] /\ t_containers (m_db (W_m w')) = [].
Proof. vm_compute. split_and!; [eauto|reflexivity..]. Qed.

(** ** No container a launch created is lost *)

(** The containers the daemon created, and those it started. *)
Definition created (e : event) : Prop :=
  match ev_call e, ev_err e with ContainerCreate _, None => True | _, _ => False end.
#[export] Instance created_dec e : Decision (created e).
Proof. unfold created. destruct (ev_call e), (ev_err e); apply _. Defined.
Definition started (tr : list event) (cid : string) : Prop :=
  exists e, e ∈ tr /\ ev_call e = ContainerStart cid /\ ev_err e = None.

Local Abbreviation NotCreated := (fun e => ~ created e).
Lemma filter_not_created tr : Forall NotCreated tr -> filter created tr = [].
Proof. induction 1; [done|]. by rewrite filter_cons_False. Qed.

#[export] Instance no_create_control i cli c :
  (forall spec, c <> ContainerCreate spec) -> Emits NotCreated (control i cli c).
Proof. intros Hc. unfold control. emit. apply emits_docker. intros err. destruct c; simpl; auto. by edestruct Hc. Qed.
#[export] Instance no_create_readBack k cli cid rev i : Emits NotCreated (readBack k cli cid rev i).
Proof. revert i. induction k; intros; simpl; emit; by apply no_create_control. Qed.
#[export] Instance no_create_pull cli name : Emits NotCreated (pullImage cli name).
Proof. unfold pullImage. emit. apply emits_docker. by intros [] []. Qed.

(** [ContainerCreate] adds one container when it succeeds and none when it
    does not. *)
Lemma createContainer_spec i cli spec w r w' :
  createContainer i cli spec w = (r, w') ->
  exists tr, W_trace w' = W_trace w ++ tr /\
    length (filter created tr) = match r with inl _ => 0%nat | inr _ => 1%nat end.
Proof.
  unfold createContainer. intros H. step H m w1 E. apply getM_inv in E as [-> ->].
  step H r1 w1 E1. apply docker_result in E1 as (e1 & Ht1 & -> & _ & _). step H r2 w2 E2.
  assert (exists tr, W_trace w2 = W_trace w ++ tr /\
    length (filter created tr) = match r2 with inl _ => 0%nat | inr _ => 1%nat end) as (tr & Ht & Hn).
  { destruct e1 as [e|]; [|apply ret_inv in E2 as [-> ->]; by eexists].
    destruct (_ && _); [|apply ret_inv in E2 as [-> ->]; by eexists].
    step E2 p w3 E3. destruct (emits_inv NotCreated _ _ _ _ _ E3) as (tr3 & Ht3 & Hp3).
    destruct p as [pe|u]; [apply ret_inv in E2 as [-> ->]|apply docker_result in E2 as (e2 & Ht2 & -> & _ & _)].
    - eexists ([_] ++ tr3). rewrite Ht3, Ht1, <- app_assoc. split; [done|]. rewrite filter_app.
      by rewrite (filter_not_created tr3).
    - eexists ([_] ++ tr3 ++ [_]). rewrite Ht2, Ht3, Ht1, <- !app_assoc. split; [done|].
      rewrite !filter_app, (filter_not_created tr3) by done. by destruct e2. }
  destruct r2 as [err|u].
  - step H u w3 E3. apply emits_nothing in E3; [|apply _]. apply ret_inv in H as [-> ->]. rewrite E3. eauto.
  - step H cid w3 E3. apply emits_nothing in E3; [|apply _]. apply ret_inv in H as [-> ->]. rewrite E3. eauto.
Qed.

Lemma readBack_frame k cli cid rev i w err i' w' :
  readBack k cli cid rev i w = ((err, i'), w') ->
  im_containers i' = im_containers i /\ im_id i' = im_id i /\ im_worker i' = im_worker i.
Proof.
  assert (forall found i b i', readPorts rev found i = inr (b, i') ->
    im_containers i' = im_containers i /\ im_id i' = im_id i /\ im_worker i' = im_worker i) as Hread.
  { induction found as [|[cPort hosts] found IH]; intros j b j' H; simpl in H; [by simplify_eq|].
    destruct hosts as [|h hosts]; [by simplify_eq|]. destruct (Atoi h); [|done].
    apply IH in H. by destruct (rev !! cPort). }
  revert i w. induction k as [|k IH]; intros i w H; cbn [readBack] in H; [by apply ret_inv in H as [? _]; simplify_eq|].
  step H r w1 E. destruct r as [e|u]; [by apply ret_inv in H as [? _]; simplify_eq|].
  step H found w2 E2. destruct found as [found|]; [|by apply IH in H].
  destruct (readPorts rev found i) as [e|[b i1]] eqn:Er; [by apply ret_inv in H as [? _]; simplify_eq|].
  apply Hread in Er as (H1 & H2 & H3). destruct b; [apply ret_inv in H as [? _]; by simplify_eq|].
  apply IH in H as (? & ? & ?). split_and!; congruence.
Qed.

(** What one image of the build adds to the instance. *)
Definition accounts (n : nat) (err : option error) (i i' : InstanceMetadata) (tr : list event) : Prop :=
  im_id i' = im_id i /\ im_worker i' = im_worker i /\
  exists ids, im_containers i' = im_containers i ++ ids /\ length ids = length (filter created tr) /\
    (err = None -> length ids = n /\ Forall (started tr) ids).

Lemma accounts_nothing n e i tr : Forall NotCreated tr -> accounts n (Some e) i i tr.
Proof. intros H. split_and!; [done..|]. exists []. by rewrite app_nil_r, filter_not_created. Qed.

Lemma startContainer_accounts build opts env rev cli image i w err i' w' :
  startContainer build opts env rev cli image i w = ((err, i'), w') ->
  exists tr, W_trace w' = W_trace w ++ tr /\ accounts 1 err i i' tr.
Proof.
  unfold startContainer. intros H. step H m w1 E. apply getM_inv in E as [-> ->].
  step H p w1 E. assert (w1 = w) as -> by congruence. clear E.
  assert (forall e, accounts 1 (Some e) i i []) as Hnil by (intros; by apply accounts_nothing).
  destruct (portBindings _ _ _ _ _ _) as [e|bindings];
    [apply ret_inv in H as [? ->]; simplify_eq; exists []; by rewrite app_nil_r|].
  destruct (hostConfig _ _ _ _ _ _ _) as [e|h];
    [apply ret_inv in H as [? ->]; simplify_eq; exists []; by rewrite app_nil_r|].
  step H r w1 E1. apply createContainer_spec in E1 as (tr & Ht & Hn). destruct r as [e|cid].
  { apply ret_inv in H as [? ->]. simplify_eq. exists tr. split; [done|].
    split_and!; [done..|]. exists []. by rewrite app_nil_r, Hn. }
  cbv zeta in H. set (i1 := i <| im_containers ::= _ |>) in H. step H s w2 E2.
  unfold control in E2. step E2 s1 w3 E3. apply docker_result in E3 as (e3 & Ht3 & -> & _ & _).
  assert (W_trace w2 = W_trace w3 /\ s = match e3 with None => inr tt | Some e => inl e end) as [Ht2 ->].
  { destruct e3 as [e|]; [step E2 u w4 E4; apply emits_nothing in E4; [|apply _]|]; apply ret_inv in E2 as [-> ->];
      by rewrite ?E4. }
  assert (forall i2 tr2 err2, im_containers i2 = im_containers i1 -> im_id i2 = im_id i1 -> im_worker i2 = im_worker i1 ->
    Forall NotCreated tr2 -> (err2 = None -> e3 = None) ->
    accounts 1 err2 i i2 (tr ++ [mkEvent cli (ContainerStart cid) e3] ++ tr2)) as Hdone.
  { intros i2 tr2 err2 Hc Hi Hw Htr Hst. split_and!; [done..|]. exists [cid]. rewrite Hc.
    split; [done|]. rewrite !filter_app, (filter_not_created tr2), app_nil_r by done.
    split; [rewrite length_app, Hn; by destruct e3|]. intros He. split; [done|]. constructor; [|done].
    exists (mkEvent cli (ContainerStart cid) e3). split; [|by rewrite (Hst He)]. apply elem_of_app; right; apply elem_of_app; left; by apply list_elem_of_singleton. }
  destruct e3 as [e|].
  { apply ret_inv in H as [? ->]. simplify_eq. eexists. split; [|by apply (Hdone i1 [])].
    by rewrite Ht2, Ht3, Ht, app_nil_r, app_assoc. }
  destruct (portsAlreadyKnown _ _ _ _).
  - apply ret_inv in H as [? ->]. simplify_eq. eexists. split; [|by apply (Hdone i1 [])].
    by rewrite Ht2, Ht3, Ht, app_nil_r, app_assoc.
  - destruct (emits_inv NotCreated _ _ _ _ _ H) as (tr4 & Ht4 & Hp4). apply readBack_frame in H as (? & ? & ?).
    exists (tr ++ [mkEvent cli (ContainerStart cid) None] ++ tr4). split; [|by apply Hdone].
    by rewrite Ht4, Ht2, Ht3, Ht, !app_assoc.
Qed.

Lemma startLoop_accounts build opts env rev cli images i w err i' w' :
  startLoop build opts env rev cli images i w = ((err, i'), w') ->
  exists tr, W_trace w' = W_trace w ++ tr /\ accounts (length images) err i i' tr.
Proof.
  revert i w. induction images as [|image images IH]; intros i w H; cbn [startLoop] in H.
  { apply ret_inv in H as [? ->]. simplify_eq. exists []. rewrite app_nil_r. split; [done|].
    split_and!; [done..|]. exists []. by rewrite app_nil_r. }
  step H r w1 E1. destruct r as [e1 i1].
  apply startContainer_accounts in E1 as (tr1 & Ht1 & Hi1 & Hw1 & ids1 & Hc1 & Hn1 & Hs1).
  destruct e1 as [e|].
  { apply ret_inv in H as [? ->]. simplify_eq. exists tr1. split; [done|]. split_and!; [done..|]. by exists ids1. }
  destruct (Hs1 eq_refl) as [Hl1 Hst1].
  apply IH in H as (tr2 & Ht2 & Hi2 & Hw2 & ids2 & Hc2 & Hn2 & Hs2).
  exists (tr1 ++ tr2). rewrite Ht2, Ht1, app_assoc. split; [done|]. split_and!; [congruence..|].
  exists (ids1 ++ ids2). rewrite Hc2, Hc1, app_assoc. split; [done|]. rewrite filter_app, !length_app, Hn1, Hn2.
  split; [done|]. intros He. destruct (Hs2 He) as [Hl2 Hst2]. split; [simpl; lia|].
  apply Forall_app. split; (eapply Forall_impl; [eassumption|]); intros cid (e & He1 & ?); exists e;
    (split; [apply elem_of_app; auto|done]).
Qed.

(** ** What a launch has recorded *)

(** The instance is finalized and every container of it is on record. *)
Definition on_books (i : InstanceMetadata) (d : Db) : Prop :=
  Forall (fun cid => mkContainerRow (im_id i) cid ∈ t_containers d) (im_containers i) /\
  (forall r, t_instances d !! im_id i = Some r -> i_is_finalized r = true).

Lemma finalizeInstance_books meta w u w' :
  finalizeInstance meta w = (inr u, w') -> on_books meta (m_db (W_m w')).
Proof.
  unfold finalizeInstance. intros H. step H m w1 E. apply getM_inv in E as [-> ->].
  apply transaction_spec in H as (_ & _ & w1 & Hb & ->); [|apply _]. destruct u.
  unfold finalizeBody in Hb. apply try_inr in Hb as ([] & w2 & _ & Hb). apply try_inr in Hb as ([] & w3 & H3 & Hb).
  apply sql_inr in Hb as (Hf & _ & _). injection Hf as <-.
  apply (sqlAll_inserts (fun cid => insertContainer (mkContainerRow (im_id meta) cid))
    (fun cid => mkContainerRow (im_id meta) cid) t_containers (fun _ => True)) in H3 as (Hc & _);
    [|intros a d d'; unfold insertContainer; by case_decide; intros; simplify_eq].
  split; simpl.
  - rewrite Hc. apply Forall_forall. intros cid Hin. apply elem_of_app. right. by apply list_elem_of_fmap_2.
  - intros r. rewrite lookup_alter_eq. destruct (t_instances _ !! _); simpl; by intros; simplify_eq.
Qed.

Lemma startContainers_accounts build i opts env rev w err i' w' :
  startContainers build i opts env rev w = ((err, i'), w') ->
  (exists tr, W_trace w' = W_trace w ++ tr /\ accounts (length (runImages build)) err i i' tr) /\
  (err = None -> on_books i' (m_db (W_m w'))).
Proof.
  unfold startContainers. intros H. step H cli w1 E. apply reader_inv in E as [-> ->].
  destruct (instanceClient _ _) as [e|cli].
  { apply ret_inv in H as [? ->]. simplify_eq. split; [|done]. exists []. rewrite app_nil_r. split; [done|].
    by apply accounts_nothing. }
  step H r w1 E1. destruct r as [e1 i1]. apply startLoop_accounts in E1 as (tr & Ht & Hacc).
  destruct e1 as [e|]; [apply ret_inv in H as [? ->]; simplify_eq; split; [eauto|done]|].
  cbn beta iota in H. step H f w2 E2. unfold retryable in E2. step E2 r w3 E3.
  assert (W_trace w3 = W_trace w1) as Ht3.
  { unfold finalizeInstance in E3. step E3 m w4 E4. apply getM_inv in E4 as [-> ->].
    by apply transaction_trace in E3; [|apply _]. }
  destruct Hacc as (Hi & Hw & ids & Hc & Hn & Hs).
  destruct r as [e|u]; apply ret_inv in E2 as [-> ->]; apply ret_inv in H as [? ->]; simplify_eq.
  - split; [|done]. exists tr. rewrite Ht3. split; [done|]. split_and!; [done..|]. by exists ids.
  - split; [exists tr; rewrite Ht3; split; [done|]; split_and!; [done..|]; by exists ids|]. intros _.
    by apply finalizeInstance_books in E3.
Qed.

#[export] Instance no_create_startNetwork i : Emits NotCreated (startNetwork i).
Proof. unfold startNetwork. emit; apply emits_docker; by intros [] []. Qed.

Lemma image_call_not_created tr : Forall image_call tr -> Forall NotCreated tr.
Proof. intros H. eapply Forall_impl; [exact H|]. intros [? c ?]. unfold image_call, created. by destruct c; simpl; auto. Qed.

Lemma accounts_pre n err i i' tr0 tr :
  Forall NotCreated tr0 -> accounts n err i i' tr -> accounts n err i i' (tr0 ++ tr).
Proof.
  intros H0 (Hi & Hw & ids & Hc & Hn & Hs). split_and!; [done..|]. exists ids.
  rewrite filter_app, (filter_not_created tr0) by done. split_and!; [done..|]. intros He.
  destruct (Hs He) as [Hl Hst]. split; [done|]. eapply Forall_impl; [exact Hst|].
  intros cid (e & Hin & ?). exists e. split; [|done]. apply elem_of_app. auto.
Qed.

Lemma onQueue_db q f m : m_db (onQueue q f m) = m_db m.
Proof. by destruct q. Qed.

Lemma finish_db worker limits begun err w u w' :
  finish worker limits begun err w = (u, w') -> m_db (W_m w') = m_db (W_m w).
Proof.
  unfold finish. intros H. step H t w1 E. unfold now, ask in E. simplify_eq.
  destruct (ll_restart limits); [by apply ret_inv in H as [_ ->]|]. unfold modifyM in H. simplify_eq/=.
  unfold onRing. case_decide; [apply onQueue_db|done].
Qed.

Lemma launchStages_accounts build i opts env rev limits w b err i' w' :
  launchStages build i opts env rev limits w = ((b, err, i'), w') ->
  (exists tr, W_trace w' = W_trace w ++ tr /\ accounts (length (runImages build)) err i i' tr) /\
  (err = None -> b = true /\ on_books i' (m_db (W_m w'))).
Proof.
  intros H. destruct b; [|apply launchStages_before_slot in H as (-> & [e ->] & tr & Ht & Hp);
    split; [|done]; exists tr; split; [done|]; by apply accounts_nothing, image_call_not_created].
  unfold launchStages in H. step H m w0 E. apply getM_inv in E as [-> ->].
  destruct (instanceClient _ _) as [e|cli]; [by apply ret_inv in H as [? _]|].
  destruct (unreachableWorker _ _); [by apply ret_inv in H as [? _]|].
  step H r w1 E1. destruct r as [iErr pulled].
  destruct (emits_inv image_call _ _ _ _ _ E1) as (tr1 & Ht1 & Hp1%image_call_not_created).
  destruct iErr as [e|]; [by apply ret_inv in H as [? _]|].
  step H q w2 E2. apply reader_inv in E2 as [-> ->]. step H s w2 E2. apply emits_nothing in E2; [|apply _].
  destruct s as [e|u]; [by apply ret_inv in H as [? _]|].
  step H t w3 E3. apply emits_nothing in E3; [|apply _]. step H n w4 E4.
  destruct (emits_inv NotCreated _ _ _ _ _ E4) as (tr4 & Ht4 & Hp4).
  step H r w5 E5. step H t' w6 E6. unfold now, ask in E6. step H u' w7 E7. apply ret_inv in H as [H ->].
  unfold modifyM in E7. simplify_eq/=. destruct r as [err i']; simpl.
  assert ((exists tr, W_trace w5 = W_trace w4 ++ tr /\ accounts (length (runImages build)) err i i' tr) /\
    (err = None -> on_books i' (m_db (W_m w5)))) as [(tr5 & Ht5 & Hacc) Hb].
  { destruct n as [e|v]; [|by apply startContainers_accounts in E5].
    apply ret_inv in E5 as [? ->]. simplify_eq. split; [|done]. exists []. rewrite app_nil_r. split; [done|].
    by apply accounts_nothing. }
  split; [|intros ->; split; [done|]; rewrite onQueue_db; by apply Hb].
  exists ((tr1 ++ tr4) ++ tr5). split; [by rewrite Ht5, Ht4, E3, E2, Ht1, !app_assoc|].
  apply accounts_pre; [|done]. by apply Forall_app.
Qed.


