(* ===== verification/Roster.v ===== *)
(** * Roster: who runs what, and what leaves it alone

    The roster of a database is which instance is of which build.  Launching,
    stopping and everything they call change it only by the one row they open
    or delete: ports, containers and the finalized flag are not part of it.
    As long as nobody removes a worker meanwhile, everything else keeps it and
    the builds on record ([steady]), so that code which brings a build to a
    number of instances can be counted out. *)
From S2P Require Import Prelude Types Settings Queue Worker Database Fleet HostConfig Effects Ports Instances Images Docker Launch Lifecycle.
Local Open Scope Z_scope.

Definition roster (d : Db) : gmap Z BuildId := i_build <$> t_instances d.
Definition view (m : Manager) : gmap Z BuildId * gmap Z buildRow := (roster (m_db m), t_builds (m_db m)).

(** What none of this code writes: the registry's name and the challenges. *)
Definition frame (m : Manager) : string * gmap string challengeRow * gmap string challengeParts :=
  (m_challengeRegistry m, t_challenges (m_db m), t_parts (m_db m)).

(** Nobody removes a worker. *)
Definition no_removal (op : fleet_op) : Prop := match op with OpRemove _ _ => False | _ => True end.
Definition unmolested (o : Oracle) : Prop := forall n, Forall no_removal (o_others o n).

Definition steady (v : gmap Z BuildId * gmap Z buildRow) (w : World) : Prop :=
  unmolested (W_o w) /\ view (W_m w) = v.

Lemma run_op_db op m :
  no_removal op -> t_instances (m_db (run_op op m)) = t_instances (m_db m) /\
                   t_builds (m_db (run_op op m)) = t_builds (m_db m).
Proof.
  intros Hop. destruct op; simpl; try done.
  - destruct (AddWorker_register now execErr getErr dialErr ip public m) as [(err & [E|E])|[_ E]]; rewrite E;
      [done..|]. simpl. by rewrite register_db.
  - unfold SetWorkerDown. by case_match.
  - destruct (recoverWorker_register now dialErr c m) as [E|(w & _ & _ & _ & E)]; rewrite E; [done|].
    by rewrite register_db.
  - unfold noteWorkerTransportError. by repeat case_match.
  - destruct (selectWorker m) as [[m' r]|] eqn:E; [|done]. by apply select_frame in E as [k ->].
Qed.
Lemma run_op_view op m : no_removal op -> view (run_op op m) = view m.
Proof. intros Hop. unfold view, roster. by destruct (run_op_db op m Hop) as [-> ->]. Qed.
Lemma run_ops_view ops m : Forall no_removal ops -> view (run_ops ops m) = view m.
Proof.
  intros H. revert m. induction H as [|op ops Hop _ IH]; intros m; [done|].
  change (view (run_ops ops (run_op op m)) = view m). rewrite IH. by apply run_op_view.
Qed.

(** A statement the roster and the builds do not see. *)
Definition invisible (d d' : Db) : Prop :=
  roster d' = roster d /\ t_builds d' = t_builds d /\ t_challenges d' = t_challenges d /\ t_parts d' = t_parts d.

(** What other code does to the fleet never touches a build. *)
Lemma run_op_builds op m : t_builds (m_db (run_op op m)) = t_builds (m_db m).
Proof.
  destruct op; try (by apply run_op_db). simpl. unfold RemoveWorker. by repeat case_match.
Qed.
Lemma run_ops_builds ops m : t_builds (m_db (run_ops ops m)) = t_builds (m_db m).
Proof.
  revert m. induction ops as [|op ops IH]; intros m; [done|].
  change (t_builds (m_db (run_ops ops (run_op op m))) = t_builds (m_db m)). by rewrite IH, run_op_builds.
Qed.

Lemma register_frame w m : frame (register w m) = frame m.
Proof. unfold register. by repeat case_match. Qed.
Lemma run_op_frame op m : frame (run_op op m) = frame m.
Proof.
  destruct op; simpl; try done.
  - destruct (AddWorker_register now execErr getErr dialErr ip public m) as [(err & [E|E])|[_ E]]; rewrite E; [done..|].
    simpl. by rewrite register_frame.
  - unfold RemoveWorker. by repeat case_match.
  - unfold SetWorkerDown. by case_match.
  - destruct (recoverWorker_register now dialErr c m) as [E|(w & _ & _ & _ & E)]; rewrite E; [done|].
    by rewrite register_frame.
  - unfold noteWorkerTransportError. by repeat case_match.
  - destruct (selectWorker m) as [[m' r]|] eqn:E; [|done]. by apply select_frame in E as [k ->].
Qed.
Lemma run_ops_frame ops m : frame (run_ops ops m) = frame m.
Proof.
  revert m. induction ops as [|op ops IH]; intros m; [done|].
  change (frame (run_ops ops (run_op op m)) = frame m). by rewrite IH, run_op_frame.
Qed.

(** An invariant of the records of builds and of who runs what: the world may
    change in every other respect, and other goroutines keep it. *)
Class Aloof (I : World -> Prop) : Prop := {
  aloof w w' : W_o w' = W_o w -> view (W_m w') = view (W_m w) ->
    frame (W_m w') = frame (W_m w) -> I w -> I w';
  aloof_others w n : I w -> I (w <| W_m ::= run_ops (o_others (W_o w) n) |>) }.

#[export] Instance aloof_steady v : Aloof (steady v).
Proof.
  split.
  - intros w w' Ho Hv _ [Hs <-]. split; [by rewrite Ho|done].
  - intros w n [Hs <-]. split; [done|]. apply run_ops_view, Hs.
Qed.

(** The builds on record stay as they are, and so does the frame. *)
Definition fixed (B : gmap Z buildRow) F (w : World) : Prop := t_builds (m_db (W_m w)) = B /\ frame (W_m w) = F.
#[export] Instance aloof_fixed B F : Aloof (fixed B F).
Proof.
  split; unfold fixed.
  - intros w w' _ [= _ ->] ->. done.
  - intros w n [<- <-]. split; [apply run_ops_builds|apply run_ops_frame].
Qed.

Section keep_aloof.
Context (I : World -> Prop) {HI : Aloof I}.
Local Abbreviation Ok := I.

#[export] Instance aloof_ask {A} (f : Oracle -> nat -> A) : Keeps Ok (ask f).
Proof. intros w. by apply aloof. Qed.
#[export] Instance aloof_now : Keeps Ok now.
Proof. apply aloof_ask. Qed.
#[export] Instance aloof_Intn n : Keeps Ok (Intn n).
Proof. unfold Intn. keep. Qed.
Lemma aloof_modify f :
  (forall m, view (f m) = view m /\ frame (f m) = frame m) -> Keeps Ok (modifyM f).
Proof. intros Hf w. destruct (Hf (W_m w)). by apply aloof. Qed.
Lemma aloof_interfere {A} (k : M A) :
  Keeps Ok k -> Keeps Ok (others ← ask o_others; modifyM (run_ops others);; k).
Proof.
  intros Hk w Hw. unfold mbind, M_bind, ask, modifyM. cbn beta iota zeta. apply Hk.
  apply (aloof (w <| W_m ::= run_ops (o_others (W_o w) (W_tick w)) |>)); [done..|]. by apply aloof_others.
Qed.
#[export] Instance aloof_docker cli c : Keeps Ok (docker cli c).
Proof. unfold docker. apply aloof_interfere. keep. intros w. by apply aloof. Qed.
#[export] Instance aloof_note wk cli err : Keeps Ok (noteTransport wk cli err).
Proof. unfold noteTransport. keep. apply aloof_modify. intros m.
  split; [by apply (run_op_view (OpNote _ _ _ _ _))|apply (run_op_frame (OpNote _ _ _ _ _))]. Qed.
Lemma aloof_sql {A} (f : Db -> option (Db * A)) :
  (forall d d' a, f d = Some (d', a) -> invisible d d') -> Keeps Ok (sql f).
Proof.
  intros Hf w. run. destruct (o_db _ _); simpl; [by apply aloof|].
  destruct (f (m_db (W_m w))) as [[d' a]|] eqn:E; simpl; [|by apply aloof].
  destruct (Hf _ _ _ E) as (H1 & H2 & H3 & H4). apply aloof; unfold view, frame; simpl; congruence.
Qed.
#[export] Instance aloof_sqlRead {A} (f : Db -> A) : Keeps Ok (sqlRead f).
Proof. apply aloof_sql. intros d d' a E. by simplify_eq. Qed.
Lemma aloof_exec f : (forall d, invisible d (f d)) -> Keeps Ok (sqlExec f).
Proof. intros Hf. apply aloof_sql. intros d d' [] E. injection E as <-. apply Hf. Qed.
Lemma aloof_stmt f : (forall d d', f d = Some d' -> invisible d d') -> Keeps Ok (sql (stmt f)).
Proof.
  intros Hf. apply aloof_sql. intros d d' [] E. unfold stmt in E. destruct (f d) eqn:Ef; simplify_eq. by apply Hf.
Qed.
#[export] Instance aloof_transaction {A} (body : M (error + A)) :
  DbOnly body -> Keeps Ok body -> Keeps Ok (transaction body).
Proof.
  intros Hd Hk w Hw. destruct (transaction body w) as [r w'] eqn:E.
  apply transaction_spec in E as (Ho & _ & Hr); [|done]. simpl. destruct r as [err|a].
  - apply (aloof w); by rewrite ?Hr.
  - destruct Hr as (w1 & Hb & Hm). specialize (Hk w Hw). rewrite Hb in Hk. apply (aloof w1); [|by rewrite Hm..|done].
    rewrite Ho. destruct (Hd w) as (_ & Ho1 & _). by rewrite Hb in Ho1.
Qed.
Lemma aloof_sqlAll {A} (f : A -> Db -> option (Db * unit)) l :
  (forall a, Keeps Ok (sql (f a))) -> Keeps Ok (sqlAll f l).
Proof. intros Hf. induction l; simpl; keep. Qed.

(** *** Reads *)
#[export] Instance aloof_lookupInstance id : Keeps Ok (lookupInstanceMetadata id).
Proof. unfold lookupInstanceMetadata. keep. Qed.
#[export] Instance aloof_lookupBuild id : Keeps Ok (lookupBuildMetadata id).
Proof. unfold lookupBuildMetadata. keep. Qed.
#[export] Instance aloof_lookupChallenge id : Keeps Ok (lookupChallengeMetadata id).
Proof. unfold lookupChallengeMetadata. keep. Qed.
#[export] Instance aloof_getReversePortMap id : Keeps Ok (getReversePortMap id).
Proof. unfold getReversePortMap. keep. Qed.
#[export] Instance aloof_getBuildInstances id : Keeps Ok (getBuildInstances id).
Proof. unfold getBuildInstances. keep. Qed.

(** *** Ports *)
Lemma insertPort_invisible r d d' : insertPort r d = Some d' -> invisible d d'.
Proof. intros (_ & _ & ->)%insertPort_spec. done. Qed.
Lemma insertPortUnlessTaken_invisible r d d' b : insertPortUnlessTaken r d = Some (d', b) -> invisible d d'.
Proof.
  unfold insertPortUnlessTaken. case_decide; [by intros; simplify_eq|].
  destruct (insertPort r d) eqn:E; intros; simplify_eq. by eapply insertPort_invisible.
Qed.
Lemma rivalClaims_invisible rs d : invisible d (rivalClaims rs d).
Proof.
  unfold rivalClaims. revert d. induction rs as [|r rs IH]; intros d; [done|]. simpl.
  destruct (insertPortUnlessTaken r d) as [[d' b]|] eqn:E; [|apply IH].
  apply insertPortUnlessTaken_invisible in E as (H1 & H2 & H3 & H4). destruct (IH d') as (? & ? & ? & ?).
  split_and!; congruence.
Qed.
#[export] Instance aloof_rivals : Keeps Ok rivals.
Proof. unfold rivals. keep. apply aloof_modify. intros m.
  destruct (rivalClaims_invisible a (m_db m)) as (H1 & H2 & H3 & H4). unfold view, frame. simpl. by rewrite H1, H2, H3, H4. Qed.
#[export] Instance aloof_claimSql r : Keeps Ok (sql (insertPortUnlessTaken r)).
Proof. apply aloof_sql. intros d d' b. apply insertPortUnlessTaken_invisible. Qed.
#[export] Instance aloof_claimPort instance worker name port : Keeps Ok (claimPort instance worker name port).
Proof. unfold claimPort. keep. Qed.
#[export] Instance aloof_reserveLoop k instance worker name low high bs :
  Keeps Ok (reserveLoop k instance worker name low high bs).
Proof. revert bs. induction k as [|k IH]; intros bs; unfold reserveLoop; fold reserveLoop; keep. Qed.
#[export] Instance aloof_usedPortBitset worker : Keeps Ok (usedPortBitset worker).
Proof. unfold usedPortBitset. keep. Qed.
#[export] Instance aloof_reservePort instance worker name : Keeps Ok (reservePort instance worker name).
Proof. unfold reservePort. keep. Qed.
#[export] Instance aloof_reservePorts ports rev i : Keeps Ok (reservePorts ports rev i).
Proof. revert i. induction ports; intros; simpl; keep. Qed.
#[export] Instance aloof_releasePorts instance : Keeps Ok (releasePorts instance).
Proof. unfold releasePorts. keep. by apply aloof_exec. Qed.
#[export] Instance aloof_reassignPort instance name previous : Keeps Ok (reassignPort instance name previous).
Proof. unfold reassignPort. keep. Qed.
#[export] Instance aloof_reassignLoop ports rev previous instance :
  Keeps Ok (reassignLoop ports rev previous instance).
Proof. revert instance. induction ports; intros instance; simpl; keep. Qed.
#[export] Instance aloof_reassignPorts build instance rev previous :
  Keeps Ok (reassignPorts build instance rev previous).
Proof. unfold reassignPorts. keep. Qed.

(** *** The daemon *)
#[export] Instance aloof_control i cli c : Keeps Ok (control i cli c).
Proof. unfold control. keep. Qed.
#[export] Instance aloof_pullImage cli name : Keeps Ok (pullImage cli name).
Proof. unfold pullImage. keep. Qed.
#[export] Instance aloof_imagePresent cli worker name : Keeps Ok (imagePresent cli worker name).
Proof. unfold imagePresent. keep. Qed.
#[export] Instance aloof_ensureLoop cli build worker reg pulled images :
  Keeps Ok (ensureLoop cli build worker reg pulled images).
Proof. revert pulled. induction images; intros; simpl; keep. Qed.
#[export] Instance aloof_ensureImages cli build i b : Keeps Ok (ensureImages cli build i b).
Proof. unfold ensureImages. keep. Qed.
#[export] Instance aloof_startNetwork i : Keeps Ok (startNetwork i).
Proof. unfold startNetwork. keep. Qed.
#[export] Instance aloof_stopNetwork i : Keeps Ok (stopNetwork i).
Proof. unfold stopNetwork. keep. Qed.
#[export] Instance aloof_readBack k cli cid rev i : Keeps Ok (readBack k cli cid rev i).
Proof. revert i. induction k; intros; simpl; keep. Qed.
#[export] Instance aloof_createContainer i cli spec : Keeps Ok (createContainer i cli spec).
Proof. unfold createContainer. keep. Qed.
#[export] Instance aloof_startContainer build opts env rev cli image i :
  Keeps Ok (startContainer build opts env rev cli image i).
Proof. unfold startContainer. keep. by intros w. Qed.
#[export] Instance aloof_startLoop build opts env rev cli images i :
  Keeps Ok (startLoop build opts env rev cli images i).
Proof. revert i. induction images; intros; simpl; keep. Qed.
Lemma setFinalized_invisible id d : invisible d (setFinalized id d).
Proof.
  split; [|done]. unfold roster, setFinalized. simpl. apply map_eq. intros k.
  rewrite !lookup_fmap, lookup_alter. case_decide; [|done]. subst. by destruct (t_instances d !! k).
Qed.
#[export] Instance aloof_finalizeInstance meta : Keeps Ok (finalizeInstance meta).
Proof.
  unfold finalizeInstance. keep. apply aloof_transaction; [apply _|]. unfold finalizeBody. keep.
  - apply aloof_sqlAll. intros np. apply aloof_stmt. apply insertPort_invisible.
  - apply aloof_sqlAll. intros cid. apply aloof_stmt. intros d d'. unfold insertContainer.
    case_decide; intros; by simplify_eq.
  - apply aloof_exec, setFinalized_invisible.
Qed.
#[export] Instance aloof_startContainers build i opts env rev : Keeps Ok (startContainers build i opts env rev).
Proof. unfold startContainers. keep. Qed.
#[export] Instance aloof_removeLoop i cli cids fl errs : Keeps Ok (removeLoop i cli cids fl errs).
Proof. revert fl errs. induction cids; intros; simpl; keep. Qed.
#[export] Instance aloof_stopContainers i : Keeps Ok (stopContainers i).
Proof.
  unfold stopContainers, removeContainersMetadata. keep. apply aloof_transaction; [apply _|]. keep; by apply aloof_exec.
Qed.

(** *** Slots, launches, stops *)
#[export] Instance aloof_acquireSlot wk wait : Keeps Ok (acquireSlot wk wait).
Proof.
  unfold acquireSlot. apply keeps_bind; [apply _|]. intros m. destruct (unreachableWorker m wk); [apply _|].
  apply aloof_interfere. keep.
Qed.
#[export] Instance aloof_teardown i wait : Keeps Ok (teardown i wait).
Proof. unfold teardown. keep. Qed.
Lemma onQueue_view q f m : view (onQueue q f m) = view m /\ frame (onQueue q f m) = frame m.
Proof. unfold onQueue. by case_match. Qed.
#[export] Instance aloof_launchStages build i opts env rev limits :
  Keeps Ok (launchStages build i opts env rev limits).
Proof. unfold launchStages. keep. apply aloof_modify. intros m. apply onQueue_view. Qed.
#[export] Instance aloof_finish worker limits begun err : Keeps Ok (finish worker limits begun err).
Proof.
  unfold finish. keep. apply aloof_modify. intros m. unfold onRing. case_decide; [apply onQueue_view|done].
Qed.
#[export] Instance aloof_launch build i opts env rev limits : Keeps Ok (launch build i opts env rev limits).
Proof. unfold launch. keep. Qed.
#[export] Instance aloof_checkPrune : Keeps Ok checkPrune.
Proof. unfold checkPrune. keep. by apply aloof_modify. Qed.
#[export] Instance aloof_placeInstance : Keeps Ok placeInstance.
Proof.
  intros w Hw. unfold placeInstance. run. destruct (m_placementEnabled (W_m w)); simpl.
  - destruct (selectWorker (W_m w)) as [[m' r]|] eqn:E; simpl; [|done].
    assert (view m' = view (W_m w) /\ frame m' = frame (W_m w)) as [Hv Hr]
      by (by apply select_frame in E as [k ->]).
    destruct r as [err|worker]; simpl; [|destruct (_ && _)]; by apply (aloof w).
  - by destruct (m_externalBuildPlane (W_m w)).
Qed.
End keep_aloof.

(** ** The one row a launch or a stop changes *)

Lemma keeps_holds {A} (I : World -> Prop) (e : M A) `{!Keeps I e} w a w' : e w = (a, w') -> I w -> I w'.
Proof. intros E Hw. specialize (keeps w Hw). by rewrite E. Qed.

Lemma retryable_inr {A} (e : M (error + A)) w a w' : retryable e w = (inr a, w') -> e w = (inr a, w').
Proof. unfold retryable. run. destruct (e w) as [[err|b] w1]; [done|]. intros; by simplify_eq. Qed.

Lemma reservePorts_id ports rev i w i' w' : reservePorts ports rev i w = (inr i', w') -> im_id i' = im_id i.
Proof.
  revert i w. induction ports as [|p ports IH]; intros i w; simpl; [run; intros; by simplify_eq|].
  intros (port & w1 & _ & H)%try_inr. by apply IH in H.
Qed.

Lemma openInstance_roster meta R B w i w' :
  tables_ok (W_m w) -> steady (R, B) w -> openInstance meta w = (inr i, w') ->
  R !! im_id i = None /\ steady (<[im_id i := im_build meta]> R, B) w'.
Proof.
  intros Hok [Hs Hv] H. unfold openInstance in H. step H t w1 E1.
  apply try_inr in H as (id & w2 & H & E). apply retryable_inr, sql_inr in H as (Hins & Hm & Ho).
  assert (W_m w1 = W_m w /\ W_o w1 = W_o w) as [Em Eo] by (by run; simplify_eq). rewrite Em in *.
  apply ret_inv in E as [? ->]. simplify_eq/=.
  assert (t_instances (m_db (W_m w)) !! id = None) as Hnew by (eapply insertInstance_fresh; [apply Hok|exact Hins]).
  apply insertInstance_spec in Hins as (_ & _ & Ed). split.
  - unfold view, roster in Hv. simplify_eq. by rewrite lookup_fmap, Hnew.
  - split; [by rewrite Ho, Eo|]. unfold view, roster in *. simplify_eq. rewrite Ed. simpl. by rewrite fmap_insert.
Qed.

Lemma newInstance_roster build env limits R B w id w' :
  tables_ok (W_m w) -> steady (R, B) w -> newInstance build env limits w = (inr id, w') ->
  R !! id = None /\ steady (<[id := bm_id build]> R, B) w'.
Proof.
  intros Hok Hs H. unfold newInstance in H. apply try_inr in H as (c & w1 & E1 & H).
  pose proof (keeps_gives _ _ _ _ _ E1 Hok) as Hok1. pose proof (keeps_holds _ _ _ _ _ E1 Hs) as Hs1.
  destruct (NeedsInstance c); [|by apply ret_inv in H as [? _]].
  apply try_inr in H as (worker & w2 & E2 & H).
  pose proof (keeps_gives _ _ _ _ _ E2 Hok1) as Hok2. pose proof (keeps_holds _ _ _ _ _ E2 Hs1) as Hs2.
  step H m w3 E3. apply getM_inv in E3 as [-> ->].
  destruct (admitLaunch _ _ _) as [err|].
  { step H b w3 E3. step H u w4 E4. by apply ret_inv in H as [? _]. }
  apply try_inr in H as (i & w3 & E3 & H).
  pose proof (openInstance_roster _ _ _ _ _ _ Hok2 Hs2 E3) as [Hnew Hs3]. simpl in Hs3.
  step H pr w4 E4. pose proof (keeps_holds _ _ _ _ _ E4 Hs3) as Hs4.
  step H rv w5 E5. pose proof (keeps_holds _ _ _ _ _ E5 Hs4) as Hs5.
  destruct rv as [err|rv]; [step H u w6 E6; by apply ret_inv in H as [? _]|].
  step H m w6 E6. apply getM_inv in E6 as [-> ->]. step H r w6 E6.
  assert (steady (<[im_id i := bm_id build]> R, B) w6 /\ match r with inr i' => im_id i' = im_id i | inl _ => True end)
    as [Hs6 Hid].
  { case_decide.
    - apply ret_inv in E6 as [-> ->]. done.
    - split; [exact (keeps_holds _ _ _ _ _ E6 Hs5)|]. destruct r; [done|]. by eapply reservePorts_id. }
  destruct r as [err|i1]; [step H u w7 E7; by apply ret_inv in H as [? _]|].
  step H res w7 E7. destruct res as [[started err] i2].
  pose proof (keeps_holds _ _ _ _ _ E7 Hs6) as Hs7.
  destruct err as [err|]; [step H u w8 E8; by apply ret_inv in H as [? _]|].
  apply ret_inv in H as [? ->]. simplify_eq. by rewrite Hid.
Qed.

Lemma roster_delete id d : roster (deleteInstance id d) = delete id (roster d).
Proof.
  unfold roster. apply map_eq. intros k. rewrite lookup_fmap, deleteInstance_lookup, lookup_delete, lookup_fmap.
  by repeat case_decide.
Qed.
Lemma removeInstance_roster id R B w u w' :
  steady (R, B) w -> removeInstanceMetadata id w = (inr u, w') -> steady (delete id R, B) w'.
Proof.
  intros [Hs Hv] H. unfold removeInstanceMetadata in H. apply retryable_inr, sql_inr in H as (Hd & Hm & Ho).
  simplify_eq. split; [by rewrite Ho|]. unfold view in *. simplify_eq.
  rewrite <- H. rewrite roster_delete. done.
Qed.
Lemma stopInstance_roster i R B w u w' :
  steady (R, B) w -> stopInstance i w = (inr u, w') -> steady (delete (im_id i) R, B) w'.
Proof.
  intros Hs H. unfold stopInstance in H. step H m w1 E1. apply getM_inv in E1 as [-> ->].
  destruct (unreachable _ _); [by eapply removeInstance_roster|].
  step H r w1 E1. destruct r as [err i1]. pose proof (keeps_holds _ _ _ _ _ E1 Hs) as Hs1.
  destruct err as [e|]; [|by eapply removeInstance_roster].
  step H m w2 E2. apply getM_inv in E2 as [-> ->].
  destruct (unreachable _ _); [by eapply removeInstance_roster|].
  destruct (errors_Is _ _); [by eapply removeInstance_roster|]. by apply ret_inv in H as [? _].
Qed.
