(* ===== verification/Reconcile.v ===== *)
(** * Reconcile: clearing what no record names

    [cork/worker_reconcile.go] with [runWorker] and [reconcileWithRetries] of
    [cork/workers.go], and [Prune] of [cork/api.go].  A pass lists what cork
    created on a worker, reads the instances recorded there and removes the
    rest; a worker joins placement once a pass has come through.

    The removals run four at a time.  A removal's call is made when it is
    handed out; its result counts when it comes back, which [o_settle] decides,
    so the loop may hand out more work before it learns of a failure. *)
From S2P Require Import Prelude Types Settings Text Queue Worker Database Fleet Probe HostConfig Effects Ports Instances Docker Launch Lifecycle.
Local Open Scope Z_scope.

(** ** Attribution *)

Definition networkInstance (name : string) : option InstanceId :=
  match CutPrefix name networkPrefix with
  | None => None
  | Some digits =>
    if bool_decide (digits = ""%string) || negb (all_chars isDecimal digits) then None
    else ParseInt digits
  end.

(** The first of its networks that is an instance's; the range over the map
    takes them in the order the outside lists them. *)
Fixpoint firstInstance (names : list string) : option InstanceId :=
  match names with
  | [] => None
  | name :: names => match networkInstance name with
                     | Some id => Some id
                     | None => firstInstance names
                     end
  end.
Definition containerInstance (c : containerSummary) : option InstanceId :=
  match sm_networks c with
  | None => None
  | Some names => firstInstance names
  end.

Definition orphan (live : gset InstanceId) (id : option InstanceId) : Prop :=
  match id with Some id => id ∉ live | None => False end.
#[export] Instance orphan_dec live id : Decision (orphan live id).
Proof. destruct id; apply _. Defined.

Definition findOrphans (containers : list containerSummary) (networks : list string)
    (live : gset InstanceId) : list string * list string :=
  (sm_id <$> filter (fun c => orphan live (containerInstance c)) containers,
   filter (fun n => orphan live (networkInstance n)) networks).

(** ** One pass *)

Inductive reconcileResult := reconcileDone | reconcileIncomplete | reconcileUnreachable.
#[export] Instance reconcileResult_eq_dec : EqDecision reconcileResult.
Proof. solve_decision. Defined.

(** Ordered by severity: a pass takes the worst. *)
Definition severity (r : reconcileResult) : Z :=
  match r with reconcileDone => 0 | reconcileIncomplete => 1 | reconcileUnreachable => 2 end.
Definition worse (a b : reconcileResult) : reconcileResult :=
  if decide (severity a < severity b) then b else a.

Definition reconcileFailed (err : error) : reconcileResult :=
  if isTransportError (Some err) then reconcileUnreachable else reconcileIncomplete.

Definition goneConn (c : nat) (m : Manager) : bool :=
  match m_conns m !! c with Some w => gone w | None => false end.

(** What the goroutine of one removal reports: nothing to note when the thing
    is gone. *)
Definition removal (cli : nat) (c : call) : M (option reconcileResult) :=
  r ← docker (Some cli) c;
  mret (match r with
        | inr _ => None
        | inl err =>
          let onItsWay := match c with ContainerRemove _ => IsConflict err | _ => false end in
          if onItsWay || IsNotFound err then None else Some (reconcileFailed err)
        end).

(** The removals that have come back: how many are gone, the worst of the
    rest. *)
Definition note (acc : Z * reconcileResult) (r : option reconcileResult) : Z * reconcileResult :=
  match r with
  | None => (acc.1 + 1, acc.2)
  | Some r => (acc.1, worse acc.2 r)
  end.
Fixpoint settle (mask : list bool) (flying : list (option reconcileResult))
    : list (option reconcileResult) * list (option reconcileResult) :=
  match flying with
  | [] => ([], [])
  | r :: flying =>
    let '(back, still) := settle (tail mask) flying in
    if default false (head mask) then (r :: back, still) else (back, r :: still)
  end.

Definition reconcileParallelism : nat := 4.

(** Hands out one removal per name; with four in flight, the slot waits for
    one of them. *)
Fixpoint handOut (c cli : nat) (remove : string -> call) (names : list string)
    (flying : list (option reconcileResult)) (acc : Z * reconcileResult) : M (Z * reconcileResult) :=
  match names with
  | [] => mret (foldl note acc flying)
  | name :: names =>
    mask ← ask o_settle;
    let '(back, flying) := settle mask flying in
    let acc := foldl note acc back in
    m ← getM;
    if goneConn c m || bool_decide (acc.2 = reconcileUnreachable) then mret (foldl note acc flying)
    else
      mask ← ask o_settle;
      let '(back, flying) := settle mask flying in
      let acc := foldl note acc back in
      let '(acc, flying) :=
        if decide (length flying < reconcileParallelism)%nat then (acc, flying)
        else match flying with
             | [] => (acc, flying)
             | r :: flying => (note acc r, flying)
             end in
      r ← removal cli (remove name);
      handOut c cli remove names (flying ++ [r]) acc
  end.
Definition removeOrphans (c cli : nat) (remove : string -> call) (names : list string)
    : M (Z * reconcileResult) :=
  handOut c cli remove names [] (0, reconcileDone).

(** The instances recorded on a worker. *)
Definition liveIds (ip : string) (d : Db) : gset InstanceId :=
  list_to_set (fst <$> filter (fun kv => i_worker kv.2 = ip) (rows (t_instances d))).

Definition reconcileWorker (c : nat) (w : workerConn) : M reconcileResult :=
  let cli := w_cli w in
  r ← docker (Some cli) ContainerList;
  match r with
  | inl err => mret (reconcileFailed err)
  | inr _ =>
    containers ← ask o_containers;
    r ← docker (Some cli) NetworkList;
    match r with
    | inl err => mret (reconcileFailed err)
    | inr _ =>
      networks ← ask o_networks;
      ids ← sqlRead (liveIds (w_ip w));
      match ids with
      | inl _ => mret reconcileIncomplete
      | inr live =>
        let '(orphanContainers, orphanNetworks) := findOrphans containers networks live in
        match orphanContainers, orphanNetworks with
        | [], [] => mret reconcileDone
        | _, _ =>
          '(_, result) ← removeOrphans c cli ContainerRemove orphanContainers;
          if decide (result = reconcileUnreachable) then mret result
          else
            '(_, netResult) ← removeOrphans c cli NetworkRemove orphanNetworks;
            mret (worse result netResult)
        end
      end
    end
  end.

(** ** Until the worker may take placements *)

Inductive reconcileOutcome := reconcileAbandoned | reconcileReady | reconcileEjected.
#[export] Instance reconcileOutcome_eq_dec : EqDecision reconcileOutcome.
Proof. solve_decision. Defined.

(** [fuel] bounds the attempts; [None] is running out of it. *)
Fixpoint retryLoop (fuel : nat) (c : nat) (w : workerConn) (deadline : Z) : M (option reconcileOutcome) :=
  match fuel with
  | O => mret None
  | S fuel =>
    result ← reconcileWorker c w;
    m ← getM;
    if goneConn c m then mret (Some reconcileAbandoned)
    else if decide (result = reconcileDone) then mret (Some reconcileReady)
    else
      t ← now;
      if decide (t < deadline) then
        (* the wait, or the conn goes meanwhile *)
        others ← ask o_others;
        modifyM (run_ops others);;
        m ← getM;
        if goneConn c m then mret (Some reconcileAbandoned) else retryLoop fuel c w deadline
      else if decide (result = reconcileUnreachable) then
        t ← now;
        modifyM (onConn c (fun w => eject t w "its daemon did not answer while the worker was being reconciled"));;
        mret (Some reconcileEjected)
      else mret (Some reconcileReady)
  end.
Definition reconcileWithRetries (fuel : nat) (c : nat) (w : workerConn) (budget : Z)
    : M (option reconcileOutcome) :=
  t ← now; retryLoop fuel c w (t + budget).

(** [runWorker]: the pass, the admission, the poller over the ticks the outside
    deals it.  (The preloads it starts alongside are left out.) *)
Definition runWorker (fuel : nat) (c : nat) (w : workerConn) (first : probeIn) (ticks : list tick)
    : M (option reconcileOutcome) :=
  t ← reader (fun m => timing (m_workerTiming m));
  outcome ← reconcileWithRetries fuel c w (maxMisses t * pollInterval t);
  match outcome with
  | Some reconcileReady =>
    at_ ← now;
    modifyM (onConn c (admitConn at_));;
    modifyM (fun m => (pollWorker at_ c first ticks m).2)
  | Some reconcileEjected => at_ ← now; modifyM (fun m => (pollWorker at_ c first ticks m).2)
  | _ => mret tt
  end;;
  mret outcome.

(** ** After the crash GC *)

Fixpoint reclaimAfterGC (workers : list string) : M unit :=
  match workers with
  | [] => mret tt
  | ip :: workers =>
    m ← getM;
    match lookupWorker m ip with
    | Some (c, w) =>
      if decide (w_reachable w = workerReachableOk) then _ ← reconcileWorker c w; reclaimAfterGC workers
      else reclaimAfterGC workers
    | None => reclaimAfterGC workers
    end
  end.

(** The two deletes of [Prune].  [NULL < x] holds of nothing. *)
Definition olderThan (created : option Z) (t : Z) : bool :=
  match created with Some c => bool_decide (c < t) | None => false end.
Definition prunable (d : Db) (t ageSeconds : Z) (r : instanceRow) : bool :=
  match t_builds d !! i_build r with
  | None => false
  | Some b => bool_decide (b_instancecount b = DYNAMIC_INSTANCES) &&
              (bool_decide (i_created_at r = None) ||
               i_is_finalized r && olderThan (i_created_at r) (t - ageSeconds))
  end.
Definition crashed (t : Z) (r : instanceRow) : bool :=
  negb (i_is_finalized r) && olderThan (i_created_at r) (t - 300).
Definition crashedWorkers (t : Z) (d : Db) : list string :=
  remove_dups (i_worker ∘ snd <$>
    filter (fun kv => crashed t kv.2 = true /\ i_worker kv.2 <> ""%string) (rows (t_instances d))).
Definition crashedCount (t : Z) (d : Db) : nat :=
  length (filter (fun kv => crashed t kv.2 = true) (rows (t_instances d))).

(** [int((age + time.Second - time.Nanosecond) / time.Second)]: Go's division
    truncates. *)
Definition pruneSeconds (age : Z) : Z := (age + Second - 1) `quot` Second.

Definition Prune : M (error + unit) :=
  m ← getM;
  if decide (m_pruneAge m <= 0) then ok tt
  else
    t ← now;
    let? _ := sqlExec (fun d => deleteInstances (fun _ r => prunable d (t `div` Second) (pruneSeconds (m_pruneAge m)) r) d) in
    t ← now;
    listed ← sqlRead (crashedWorkers (t `div` Second));
    let gcWorkers := match listed with inr ws => ws | inl _ => [] end in
    t ← now;
    n ← sql (fun d => Some (deleteInstances (fun _ r => crashed (t `div` Second) r) d, crashedCount (t `div` Second) d));
    match n with
    | inr (S _) => reclaimAfterGC gcWorkers;; ok tt
    | _ => ok tt
    end.

#[global] Typeclasses Opaque removal handOut removeOrphans reconcileWorker retryLoop reconcileWithRetries
  runWorker reclaimAfterGC Prune.

(** ** Names *)

(** The name of an instance's network gives the instance back, for every
    id SQLite can hand out. *)
Theorem networkInstance_getNetworkName id :
  0 <= id < two63 -> networkInstance (getNetworkName id) = Some id.
Proof.
  intros Hid. unfold networkInstance, getNetworkName.
  rewrite (proj2 (CutPrefix_spec _ _ _) eq_refl).
  pose proof (ParseInt_pretty id Hid) as Hp.
  assert (pretty id = pretty (Z.to_N id)) as E by (by destruct id; [..|lia]).
  rewrite bool_decide_eq_false_2 by (rewrite E; apply pretty_N_nonempty).
  rewrite E at 1. by rewrite pretty_N_decimal.
Qed.

Lemma networkInstance_getNetworkName_witness : networkInstance (getNetworkName 9007199254740993) = Some 9007199254740993.
Proof. apply (networkInstance_getNetworkName 9007199254740993). unfold two63. lia. Defined.

(** Names the code does not make are nobody's. *)
Example networkInstance_foreign :
  networkInstance "bridge" = None /\ networkInstance "cmgr-" = None /\ networkInstance "cmgr-12a" = None /\
  networkInstance "cmgr--1" = None /\ networkInstance "cmgr-9223372036854775808" = None.
Proof. by vm_compute. Qed.

(** ** A pass spares what is recorded *)

Lemma elem_of_liveIds ip d id :
  id ∈ liveIds ip d <-> exists r, t_instances d !! id = Some r /\ i_worker r = ip.
Proof.
  unfold liveIds. rewrite elem_of_list_to_set, list_elem_of_fmap. split.
  - intros ([k r] & -> & [Hw Hin]%list_elem_of_filter). apply elem_of_rows in Hin. eauto.
  - intros (r & Hr & Hw). exists (id, r). split; [done|]. apply list_elem_of_filter. split; [done|].
    by apply elem_of_rows.
Qed.

(** The call removes something the listing attributes to an instance for which
    [P] holds. *)
Definition removes_of (cs : list containerSummary) (ns : list string) (P : InstanceId -> Prop)
    (e : event) : Prop :=
  match ev_call e with
  | ContainerList | NetworkList => True
  | ContainerRemove cid => exists s id, s ∈ cs /\ sm_id s = cid /\ containerInstance s = Some id /\ P id
  | NetworkRemove name => exists id, name ∈ ns /\ networkInstance name = Some id /\ P id
  | _ => False
  end.

(** What the two listings of a pass that starts in [w] are answered: a call
    takes two ticks, its answer one. *)
Definition listedContainers (w : World) : list containerSummary := o_containers (W_o w) (W_tick w + 2).
Definition listedNetworks (w : World) : list string := o_networks (W_o w) (W_tick w + 5).

Lemma removes_of_mono cs ns (P Q : InstanceId -> Prop) e :
  (forall id, P id -> Q id) -> removes_of cs ns P e -> removes_of cs ns Q e.
Proof.
  intros H. unfold removes_of. destruct (ev_call e); try done.
  - intros (id & ? & ? & ?). exists id. auto.
  - intros (s & id & ? & ? & ? & ?). exists s, id. auto.
Qed.

Lemma emits_handOut (Q : event -> Prop) c cli remove names flying acc :
  Forall (fun name => forall err, Q (mkEvent (Some cli) (remove name) err)) names ->
  Emits Q (handOut c cli remove names flying acc).
Proof.
  intros H. revert flying acc. induction H as [|name names Hq _ IH]; intros flying acc; cbn [handOut]; [apply _|].
  unfold removal. emit.
Qed.

Lemma findOrphans_containers cs ns live cid :
  cid ∈ (findOrphans cs ns live).1 <->
  exists s id, s ∈ cs /\ sm_id s = cid /\ containerInstance s = Some id /\ id ∉ live.
Proof.
  unfold findOrphans, orphan. simpl. rewrite list_elem_of_fmap. split.
  - intros (s & -> & [Ho Hin]%list_elem_of_filter). destruct (containerInstance s) eqn:E; [|done]. eauto 10.
  - intros (s & id & Hin & <- & Hc & Hl). exists s. split; [done|]. apply list_elem_of_filter. by rewrite Hc.
Qed.
Lemma findOrphans_networks cs ns live name :
  name ∈ (findOrphans cs ns live).2 <-> exists id, name ∈ ns /\ networkInstance name = Some id /\ id ∉ live.
Proof.
  unfold findOrphans, orphan. simpl. rewrite list_elem_of_filter. destruct (networkInstance name) as [id|].
  - split; [intros [? ?]; eauto|]. by intros (? & ? & ? & ?); simplify_eq.
  - split; [by intros [? _]|]. by intros (? & _ & ? & _).
Qed.

Lemma emits_reconcile_removals c cli cs ns live :
  Emits (removes_of cs ns (fun id => id ∉ live)) (removeOrphans c cli ContainerRemove (findOrphans cs ns live).1) /\
  Emits (removes_of cs ns (fun id => id ∉ live)) (removeOrphans c cli NetworkRemove (findOrphans cs ns live).2).
Proof.
  split; apply emits_handOut, Forall_forall; intros name Hin err; unfold removes_of; simpl.
  - by apply findOrphans_containers in Hin.
  - by apply findOrphans_networks in Hin.
Qed.

(** The second half of a pass, once the orphans are known. *)
Definition removeAll (c cli : nat) (orphans : list string * list string) : M reconcileResult :=
  '(_, result) ← removeOrphans c cli ContainerRemove orphans.1;
  if decide (result = reconcileUnreachable) then mret result
  else '(_, netResult) ← removeOrphans c cli NetworkRemove orphans.2; mret (worse result netResult).

Definition listing (e : event) : Prop := match ev_call e with ContainerList | NetworkList => True | _ => False end.

(** A pass lists, reads, and removes what it found; when it comes that far, the
    fleet has changed only by what others did during the two listings. *)
Lemma reconcileWorker_phases c wc w r w' :
  reconcileWorker c wc w = (r, w') ->
  exists w1 tr, W_trace w1 = W_trace w ++ tr /\ Forall listing tr /\ W_o w1 = W_o w /\
    ((r <> reconcileDone /\ w' = w1) \/
     exists t1 t2,
       W_m w1 = run_ops (o_others (W_o w) t2) (run_ops (o_others (W_o w) t1) (W_m w)) /\
       removeAll c (w_cli wc) (findOrphans (listedContainers w) (listedNetworks w)
         (liveIds (w_ip wc) (m_db (W_m w1)))) w1 = (r, w')).
Proof.
  unfold reconcileWorker. intros H. cbv zeta in H.
  assert (forall err, reconcileFailed err <> reconcileDone) as Hf by (intros; unfold reconcileFailed; by case_match).
  step H r1 w1 E1. pose proof (docker_tick _ _ _ _ _ E1) as Hk1.
  apply docker_result in E1 as (e1 & Ht1 & -> & Ho1 & Hm1). destruct e1 as [e1|].
  { apply ret_inv in H as [-> ->]. eexists w1, _. split_and!; [exact Ht1|by repeat constructor|done|]. auto. }
  step H cs w2 E2. unfold ask in E2. injection E2 as <- <-.
  step H r2 w3 E3. pose proof (docker_tick _ _ _ _ _ E3) as Hk3. simpl in Hk3.
  apply docker_result in E3 as (e3 & Ht3 & -> & Ho3 & Hm3). simpl in Ht3, Ho3, Hm3.
  rewrite Ht1, <- app_assoc in Ht3. destruct e3 as [e3|].
  { apply ret_inv in H as [-> ->]. eexists w3, _. split_and!; [exact Ht3|by repeat constructor|congruence|]. auto. }
  step H ns w4 E4. unfold ask in E4. injection E4 as <- <-.
  step H ids w5 E5. apply sqlRead_inv in E5 as (Hm5 & Ho5 & Ht5 & Hids). simpl in Hm5, Ho5, Ht5, Hids.
  eexists w5, _. split_and!; [rewrite Ht5; exact Ht3|by repeat constructor|congruence|].
  destruct ids as [err|live]; [apply ret_inv in H as [-> ->]; auto|]. right.
  exists (W_tick w), (S (W_tick w1)).
  split; [rewrite Hm5, Hm3, Hm1; by rewrite Ho1|]. rewrite Hm5, <- Hids. unfold listedContainers, listedNetworks.
  replace (W_tick w + 2)%nat with (W_tick w1) by lia. replace (W_tick w + 5)%nat with (W_tick w3) by lia.
  rewrite <- Ho1. rewrite Ho3 in H.
  destruct (findOrphans _ _ live) as [[|a cs] [|b ns]]; [apply ret_inv in H as [-> ->]|..]; done.
Qed.

(** C5. A pass never touches an instance on record.  Whatever else happens to
    the fleet short of the worker's removal, nothing the listing attributes to
    an instance recorded on the worker is removed: every call of the pass lists,
    or removes a listed container or network attributed to some other
    instance. *)
Theorem reconcile_spares_recorded id c wc w r w' :
  spared (w_ip wc) (W_o w) -> recorded id (w_ip wc) (W_m w) -> reconcileWorker c wc w = (r, w') ->
  exists tr, W_trace w' = W_trace w ++ tr /\
    Forall (removes_of (listedContainers w) (listedNetworks w) (fun other => other <> id)) tr.
Proof.
  intros Hs Hr H. apply reconcileWorker_phases in H as (w1 & tr & Ht & Hl & Ho & Hrest).
  set (cs := listedContainers w) in *. set (ns := listedNetworks w) in *.
  assert (Forall (removes_of cs ns (fun other => other <> id)) tr) as Htr.
  { eapply Forall_impl; [exact Hl|]. intros e. unfold listing, removes_of. by destruct (ev_call e). }
  destruct Hrest as [[_ ->]|(t1 & t2 & Hm & H)]; [eauto|].
  assert (id ∈ liveIds (w_ip wc) (m_db (W_m w1))) as Hlive.
  { apply elem_of_liveIds. fold (recorded id (w_ip wc) (W_m w1)). rewrite Hm.
    apply run_ops_recorded; [apply Hs|]. by apply run_ops_recorded; [apply Hs|]. }
  set (live := liveIds _ _) in *.
  assert (Emits (removes_of cs ns (fun other => other <> id)) (removeAll c (w_cli wc) (findOrphans cs ns live))) as Hem.
  { destruct (emits_reconcile_removals c (w_cli wc) cs ns live) as [Hc Hn].
    assert (forall A (e : M A), Emits (removes_of cs ns (fun id0 => id0 ∉ live)) e ->
      Emits (removes_of cs ns (fun other => other <> id)) e) as Hweak.
    { intros A e He w0. destruct (He w0) as (tr0 & ? & Hp). exists tr0. split; [done|].
      eapply Forall_impl; [exact Hp|]. intros ev. apply removes_of_mono. intros other Hno ->. done. }
    apply Hweak in Hc, Hn. unfold removeAll. emit. }
  destruct (emits_inv _ _ _ _ _ Hem H) as (tr' & Ht' & Hp'). exists (tr ++ tr').
  split; [by rewrite Ht', Ht, app_assoc|]. by apply Forall_app.
Qed.

(** ** A pass that is done left nothing behind *)

(** The daemon carried the removal out, had nothing of that name, or was
    removing that container already. *)
Definition taken_away (e : event) : Prop :=
  match ev_err e with
  | None => True
  | Some err => IsNotFound err = true \/
      (IsConflict err = true /\ match ev_call e with ContainerRemove _ => True | _ => False end)
  end.
Definition all_taken (remove : string -> call) (names : list string) (tr : list event) : Prop :=
  Forall (fun name => exists e, e ∈ tr /\ ev_call e = remove name /\ taken_away e) names.

Lemma all_taken_app remove names tr1 tr2 tr3 : all_taken remove names tr2 -> all_taken remove names (tr1 ++ tr2 ++ tr3).
Proof.
  intros H. eapply Forall_impl; [exact H|]. intros name (e & He & ?). exists e. split; [|done].
  apply elem_of_app. right. apply elem_of_app. by left.
Qed.

Lemma worse_done a b : worse a b = reconcileDone -> a = reconcileDone /\ b = reconcileDone.
Proof. by destruct a, b. Qed.

Lemma note_done acc r :
  r <> Some reconcileDone -> (note acc r).2 = reconcileDone -> acc.2 = reconcileDone /\ r = None.
Proof. destruct r as [r|]; simpl; [|done]. intros Hr [? ->]%worse_done. done. Qed.

Local Abbreviation Failing := (fun r => r <> Some reconcileDone).
Lemma foldl_note_done acc l :
  Forall Failing l -> (foldl note acc l).2 = reconcileDone -> acc.2 = reconcileDone /\ Forall (eq None) l.
Proof.
  intros H. revert acc. induction H as [|r l Hr _ IH]; intros acc Hd; simpl in Hd; [done|].
  apply IH in Hd as [Hd Hl]. apply note_done in Hd as [? ->]; [|done]. auto.
Qed.

Lemma settle_Permutation mask flying back still : settle mask flying = (back, still) -> flying ≡ₚ back ++ still.
Proof.
  revert mask back still. induction flying as [|r flying IH]; intros mask back still H; simpl in H; [by simplify_eq|].
  destruct (settle (tail mask) flying) as [b s] eqn:E. apply IH in E.
  destruct (default false (head mask)); simplify_eq; rewrite E; [done|]. apply Permutation_middle.
Qed.

Lemma removal_inv cli c w r w' :
  removal cli c w = (r, w') ->
  Failing r /\ exists e, W_trace w' = W_trace w ++ [e] /\ ev_call e = c /\ (r = None -> taken_away e).
Proof.
  unfold removal. intros H. step H r1 w1 E. apply docker_result in E as (err & Ht & -> & _ & _).
  apply ret_inv in H as [-> ->]. destruct err as [err|].
  - set (b := match c with ContainerRemove _ => IsConflict err | _ => false end). cbv zeta.
    destruct (b || IsNotFound err) eqn:Eb.
    + split; [done|]. eexists. split_and!; [exact Ht|done|]. intros _. unfold taken_away. simpl.
      apply orb_prop in Eb as [Eb|Eb]; [|by left]. subst b. right. by destruct c.
    + split; [|eexists; by split_and!; [exact Ht|..]]. unfold reconcileFailed. by case_match.
  - split; [done|]. eexists. by split_and!; [exact Ht|..].
Qed.

Lemma handOut_done c cli remove names flying acc w n w' :
  Forall Failing flying -> handOut c cli remove names flying acc w = ((n, reconcileDone), w') ->
  goneConn c (W_m w') = false ->
  acc.2 = reconcileDone /\ Forall (eq None) flying /\
  exists tr, W_trace w' = W_trace w ++ tr /\ all_taken remove names tr.
Proof.
  intros Hfl H Hg. revert flying acc w Hfl H. induction names as [|name names IH]; intros flying acc w Hfl H; cbn [handOut] in H.
  { apply ret_inv in H as [H ->]. pose proof (foldl_note_done acc flying Hfl) as Hd. rewrite <- H in Hd.
    destruct (Hd eq_refl). split_and!; [done..|]. exists []. rewrite app_nil_r. split; [done|constructor]. }
  step H msk w1 E1. unfold ask in E1. simplify_eq.
  destruct (settle _ flying) as [back1 fly1] eqn:Es1. apply settle_Permutation in Es1. rewrite Es1 in Hfl.
  apply Forall_app in Hfl as [Hb1 Hf1]. cbv zeta in H. set (acc1 := foldl note acc back1) in H.
  step H m w1 E1. apply getM_inv in E1 as [-> ->]. simpl in H.
  destruct (goneConn c (W_m w) || _) eqn:Ebreak.
  { apply ret_inv in H as [H ->]. simpl in Hg. rewrite Hg in Ebreak. simpl in Ebreak.
    apply bool_decide_eq_true in Ebreak. pose proof (foldl_note_done acc1 fly1 Hf1) as Hd. rewrite <- H in Hd.
    destruct (Hd eq_refl) as [Hd1 _]. congruence. }
  step H msk w1 E1. unfold ask in E1. simplify_eq.
  destruct (settle _ fly1) as [back2 fly2] eqn:Es2. apply settle_Permutation in Es2. rewrite Es2 in Hf1.
  apply Forall_app in Hf1 as [Hb2 Hf2]. cbv zeta in H. set (acc2 := foldl note acc1 back2) in H.
  set (pick := if decide _ then _ else _) in H.
  assert (exists now_, Forall Failing now_ /\ Forall Failing pick.2 /\ fly2 ≡ₚ now_ ++ pick.2 /\ pick.1 = foldl note acc2 now_)
    as (now_ & Hnow & Hp2 & Hperm & Hp1).
  { subst pick. case_decide; [by exists []|]. destruct fly2 as [|r fly2]; [by exists []|].
    inversion_clear Hf2. exists [r]. split_and!; by repeat constructor. }
  destruct pick as [acc3 fly3]. simpl in *. step H r w2 E2. apply removal_inv in E2 as (Hr & e & Ht & Hc & Hnone).
  apply IH in H as (Hacc3 & Hall & tr & Htr & Htaken); [|apply Forall_app; split; [done|by constructor]].
  apply Forall_app in Hall as [Hall3 Hr3]. inversion_clear Hr3; subst.
  apply foldl_note_done in Hacc3 as [Hacc2 Hn]; [|done].
  apply foldl_note_done in Hacc2 as [Hacc1 Hn2]; [|done]. apply foldl_note_done in Hacc1 as [Hacc Hn1]; [|done].
  split; [done|]. split; [by rewrite Es1, Es2, Hperm, !Forall_app|].
  exists ([e] ++ tr). rewrite Htr, Ht, <- app_assoc. split; [done|]. constructor.
  - exists e. split; [left|]. auto.
  - apply (all_taken_app _ _ [e] tr []) in Htaken. by rewrite app_nil_r in Htaken.
Qed.

(** A conn that is gone stays gone. *)
Definition gone_fleet (c : nat) (m : Manager) : Prop := fleet_ok m /\ goneConn c m = true.

Lemma goneConn_on c c' (f : workerConn -> workerConn) m :
  (forall w, gone w = true -> gone (f w) = true) -> goneConn c m = true -> goneConn c (onConn c' f m) = true.
Proof.
  intros Hf. unfold goneConn, onConn. simpl. rewrite lookup_alter. destruct (m_conns m !! c) eqn:E; [|done].
  case_decide; subst; rewrite ?E; simpl; auto.
Qed.
Lemma goneConn_register c w m : fleet_ok m -> goneConn c m = true -> goneConn c (register w m) = true.
Proof.
  intros Hok Hg. assert (goneConn c (m <| m_conns ::= <[m_nextConn m := w]> |>) = true) as Hg'.
  { unfold goneConn in *. simpl. destruct (m_conns m !! c) as [w0|] eqn:E; [|done].
    rewrite lookup_insert_ne, E; [done|]. pose proof (fo_conns m Hok c w0 E) as [_ ?]. lia. }
  unfold register. destruct (m_workers m !! w_ip w); [|exact Hg'].
  refine (goneConn_on c n discard _ _ Hg'). unfold gone, discard. simpl. intros w0 H0%bool_decide_eq_true.
  apply bool_decide_eq_true. by destruct (w_done w0).
Qed.
Lemma goneConn_op c c' f m : ConnOp f -> goneConn c m = true -> goneConn c (onConn c' f m) = true.
Proof.
  intros Hf. apply goneConn_on. intros w. unfold gone. by rewrite (proj1 (conn_op_done (f := f) w)).
Qed.

#[export] Instance gone_fleet_stable c : Stable (gone_fleet c).
Proof.
  intros op m [Hok Hg]. split; [by apply run_op_fleet_ok|].
  destruct op; simpl; try (apply goneConn_op; [apply _|done]).
  - destruct (AddWorker_register now execErr getErr dialErr ip public m) as [(err & [E|E])|[_ E]]; rewrite E;
      [done..|]. apply goneConn_register; [by apply upsertWorker_fleet_ok|done].
  - unfold RemoveWorker. destruct (m_workers m !! ip) as [k|]; [|done]. destruct txErr; [done|].
    refine (goneConn_on c k discard m _ Hg). unfold gone, discard. simpl. intros w0 H0%bool_decide_eq_true.
    apply bool_decide_eq_true. by destruct (w_done w0).
  - unfold SetWorkerDown. case_match; [|done]. by apply goneConn_op; [apply _|].
  - destruct (recoverWorker_register now dialErr c0 m) as [E|(w & _ & _ & _ & E)]; rewrite E; [done|].
    by apply goneConn_register.
  - unfold noteWorkerTransportError. repeat case_match; try done. by apply goneConn_op; [apply _|].
  - destruct (selectWorker m) as [[m' r]|] eqn:E; [|done]. by apply select_frame in E as [k ->].
Qed.
#[export] Instance keeps_handOut I `{!Stable I} c cli remove names flying acc :
  Keeps (onM I) (handOut c cli remove names flying acc).
Proof. revert flying acc. induction names; intros; cbn [handOut]; unfold removal; keep. Qed.

Lemma removeAll_done c cli orphans w w' :
  fleet_ok (W_m w) -> removeAll c cli orphans w = (reconcileDone, w') -> goneConn c (W_m w') = false ->
  exists tr, W_trace w' = W_trace w ++ tr /\
    all_taken ContainerRemove orphans.1 tr /\ all_taken NetworkRemove orphans.2 tr.
Proof.
  intros Hok H Hg. unfold removeAll, removeOrphans in H. step H r1 w1 E1. destruct r1 as [n1 r1].
  case_decide as Hr1; [apply ret_inv in H as [<- _]; done|]. step H r2 w2 E2. destruct r2 as [n2 r2].
  apply ret_inv in H as [H ->]. symmetry in H. apply worse_done in H as [-> ->].
  assert (fleet_ok (W_m w1)) as Hok1.
  { assert (Stable fleet_ok) by (intros op m; apply run_op_fleet_ok). exact (keeps_gives _ _ _ _ _ E1 Hok). }
  assert (goneConn c (W_m w1) = false) as Hg1.
  { destruct (goneConn c (W_m w1)) eqn:E; [|done].
    pose proof (keeps_gives (gone_fleet c) _ _ _ _ E2 (conj Hok1 E)) as [_ ?]. congruence. }
  apply handOut_done in E1 as (_ & _ & tr1 & Ht1 & H1); [|constructor|done].
  apply handOut_done in E2 as (_ & _ & tr2 & Ht2 & H2); [|constructor|done].
  exists (tr1 ++ tr2). split; [by rewrite Ht2, Ht1, app_assoc|]. split.
  - exact (all_taken_app _ _ [] tr1 tr2 H1).
  - pose proof (all_taken_app _ _ tr1 tr2 [] H2) as H3. by rewrite app_nil_r in H3.
Qed.

(** Nothing but a launch puts an instance on record. *)
#[export] Instance unrecorded_stable id : Stable (fun m => t_instances (m_db m) !! id = None).
Proof.
  intros op m Hn. destruct op; simpl; try done.
  - destruct (AddWorker_register now execErr getErr dialErr ip public m) as [(err & [E|E])|[_ E]]; rewrite E;
      [done..|]. simpl. by rewrite register_db.
  - unfold RemoveWorker. destruct (m_workers m !! ip) as [k|]; [|done]. destruct txErr; [done|].
    change (t_instances (deleteInstances (fun _ r => bool_decide (i_worker r = ip)) (m_db m)) !! id = None).
    by rewrite deleteInstances_lookup, Hn.
  - unfold SetWorkerDown. by case_match.
  - destruct (recoverWorker_register now dialErr c m) as [E|(w & _ & _ & _ & E)]; rewrite E; [done|].
    by rewrite register_db.
  - unfold noteWorkerTransportError. by repeat case_match.
  - destruct (selectWorker m) as [[m' r]|] eqn:E; [|done]. by apply select_frame in E as [k ->].
Qed.

(** C6. A pass that reports done left nothing of an instance nobody has on
    record: unless the conn was replaced during the pass, every container and
    every network the daemon listed for it was removed (or found gone, or on its
    way out), so none of its host ports is still held. *)
Theorem reconcile_done_is_clean id c wc w w' :
  fleet_ok (W_m w) -> t_instances (m_db (W_m w)) !! id = None ->
  reconcileWorker c wc w = (reconcileDone, w') -> goneConn c (W_m w') = false ->
  exists tr, W_trace w' = W_trace w ++ tr /\
    (forall s, s ∈ listedContainers w -> containerInstance s = Some id ->
       exists e, e ∈ tr /\ ev_call e = ContainerRemove (sm_id s) /\ taken_away e) /\
    (forall name, name ∈ listedNetworks w -> networkInstance name = Some id ->
       exists e, e ∈ tr /\ ev_call e = NetworkRemove name /\ taken_away e).
Proof.
  intros Hok Hid H Hg. apply reconcileWorker_phases in H as (w1 & tr & Ht & _ & _ & [[? _]|Hrest]); [done|].
  destruct Hrest as (t1 & t2 & Hm & H).
  assert (Stable fleet_ok) as Hst by (intros op m; apply run_op_fleet_ok).
  assert (id ∉ liveIds (w_ip wc) (m_db (W_m w1))) as Hdead.
  { intros (r & Hr & _)%elem_of_liveIds. revert Hr. rewrite Hm.
    rewrite (stable_ops (unrecorded_stable id)); [done|]. by apply (stable_ops (unrecorded_stable id)). }
  apply removeAll_done in H as (tr' & Ht' & Hc & Hn); [|rewrite Hm; by do 2 apply (stable_ops Hst)|done].
  unfold all_taken in Hc, Hn. rewrite Forall_forall in Hc. rewrite Forall_forall in Hn.
  exists (tr ++ tr'). split; [by rewrite Ht', Ht, app_assoc|]. split.
  - intros s Hs Hsid. destruct (Hc (sm_id s)) as (e & He & ?); [apply findOrphans_containers; eauto 10|].
    exists e. split; [apply elem_of_app; by right|done].
  - intros name Hs Hsid. destruct (Hn name) as (e & He & ?); [apply findOrphans_networks; eauto|].
    exists e. split; [apply elem_of_app; by right|done].
Qed.

(** [running_world] with a leftover of instance 7 beside the recorded one. *)
Definition leftovers : Oracle :=
  calm <| o_containers := fun _ => [mkSummary "c0" (Some ["cmgr-1"]); mkSummary "x" (Some ["bridge"; "cmgr-7"]);
                                    mkSummary "y" None]%string |>
       <| o_networks := fun _ => ["cmgr-1"; "cmgr-7"; "cmgr-tools"]%string |>.
Definition leftover_conn : workerConn := newWorkerConn 5 0 "10.0.0.1" "one.example" false 4.

Lemma reconcile_spares_recorded_witness :
  exists r w', reconcileWorker 0 leftover_conn (running_world leftovers) = (r, w') /\
    Forall (removes_of (listedContainers (running_world leftovers)) (listedNetworks (running_world leftovers))
      (fun other => other <> 1)) (W_trace w') /\ length (W_trace w') = 4%nat.
Proof.
  destruct (reconcileWorker 0 leftover_conn (running_world leftovers)) as [r w'] eqn:E. exists r, w'.
  destruct (reconcile_spares_recorded 1 0 leftover_conn (running_world leftovers) r w') as (tr & Ht & Hf).
  - intros n. constructor.
  - eexists. split; [vm_compute; reflexivity|reflexivity].
  - exact E.
  - split; [reflexivity|]. change (W_trace w' = tr) in Ht. rewrite Ht. split; [exact Hf|].
    rewrite <- Ht. vm_compute in E. injection E as _ <-. reflexivity.
Defined.

Lemma fleet_ok_dressed m d registry :
  t_workers d = t_workers (m_db m) -> fleet_ok m ->
  fleet_ok (m <| m_db := d |> <| m_placementEnabled := true |> <| m_challengeRegistry := registry |>).
Proof. intros E []. split; simpl; rewrite ?E; done. Qed.

Lemma demo_workers : t_workers demo_db = t_workers (m_db two_workers).
Proof. vm_compute. reflexivity. Qed.
Lemma demo_fleet_ok o : fleet_ok (W_m (demo_world o)).
Proof. unfold demo_world, W_m. apply fleet_ok_dressed; [exact demo_workers|exact two_workers_ok]. Qed.

Lemma reconcile_done_is_clean_witness :
  exists w', reconcileWorker 0 leftover_conn (demo_world leftovers) = (reconcileDone, w') /\
    exists e, e ∈ W_trace w' /\ ev_call e = ContainerRemove "x" /\ taken_away e.
Proof.
  destruct (reconcileWorker 0 leftover_conn (demo_world leftovers)) as [r w'] eqn:E. exists w'.
  assert (r = reconcileDone) as -> by (vm_compute in E; injection E as <- _; reflexivity).
  split; [reflexivity|].
  destruct (reconcile_done_is_clean 7 0 leftover_conn (demo_world leftovers) w' (demo_fleet_ok leftovers))
    as (tr & Ht & Hc & _).
  - vm_compute. reflexivity.
  - exact E.
  - vm_compute in E. injection E as <-. vm_compute. reflexivity.
  - change (W_trace w' = tr) in Ht. rewrite Ht.
    apply (Hc (mkSummary "x" (Some ["bridge"; "cmgr-7"]%string))); [right; left|vm_compute; reflexivity].
Defined.

(** ** The passes end *)

(** The outside stays and time does not run backwards. *)
Class Advances {A} (e : M A) : Prop := advances w : W_o (e w).2 = W_o w /\ (W_tick w <= W_tick (e w).2)%nat.

Section advance.
#[export] Instance advances_ret {A} (a : A) : Advances (mret a : M A).
Proof. by intros w. Qed.
#[export] Instance advances_bind {A B} (e : M A) (k : A -> M B) :
  Advances e -> (forall a, Advances (k a)) -> Advances (e ≫= k).
Proof.
  intros He Hk w. unfold mbind, M_bind. destruct (He w) as [Ho Ht]. destruct (e w) as [a w1]; simpl in *.
  destruct (Hk a w1) as [-> ?]. split; [done|lia].
Qed.
#[export] Instance advances_ask {A} (f : Oracle -> nat -> A) : Advances (ask f).
Proof. intros w. simpl. split; [done|lia]. Qed.
#[export] Instance advances_getM : Advances getM.
Proof. by intros w. Qed.
#[export] Instance advances_modify f : Advances (modifyM f).
Proof. by intros w. Qed.
#[export] Instance advances_docker cli c : Advances (docker cli c).
Proof.
  intros w. destruct (docker cli c w) as [r w'] eqn:E. pose proof (docker_tick _ _ _ _ _ E).
  apply docker_result in E as (? & _ & _ & ? & _). simpl. split; [done|lia].
Qed.
#[export] Instance advances_sqlRead {A} (f : Db -> A) : Advances (sqlRead f).
Proof. intros w. run. destruct (o_db _ _); simpl; (split; [done|lia]). Qed.
End advance.

Ltac advance :=
  repeat (cbn beta; first
    [ solve [apply _]
    | lazymatch goal with |- Advances (mbind _ _) => apply advances_bind end
    | lazymatch goal with |- forall _, _ => intros ? end
    | match goal with |- Advances (match ?x with _ => _ end) => destruct x end ]).

#[export] Instance advances_handOut c cli remove names flying acc : Advances (handOut c cli remove names flying acc).
Proof. revert flying acc. induction names; intros; cbn [handOut]; unfold removal; advance. Qed.
#[export] Instance advances_reconcileWorker c w : Advances (reconcileWorker c w).
Proof. unfold reconcileWorker, removeOrphans. advance. Qed.

Lemma retryLoop_ends fuel c wc deadline w :
  (forall n, o_now (W_o w) n < o_now (W_o w) (S n)) ->
  (Z.to_nat (deadline - o_now (W_o w) (W_tick w)) < fuel)%nat ->
  is_Some (retryLoop fuel c wc deadline w).1.
Proof.
  revert w. induction fuel as [|fuel IH]; intros w Hclock Hf; [lia|]. cbn [retryLoop].
  assert (forall i j, (i <= j)%nat -> o_now (W_o w) i <= o_now (W_o w) j) as Hmono.
  { intros i j. induction 1 as [|j ? IHj]; [lia|]. pose proof (Hclock j). lia. }
  unfold mbind at 1, M_bind at 1. destruct (advances (e := reconcileWorker c wc) w) as [Ho Ht].
  destruct (reconcileWorker c wc w) as [result w1]. simpl in Ho, Ht.
  unfold mbind at 1, M_bind at 1, getM at 1. destruct (goneConn c (W_m w1)); [by eexists|].
  case_decide; [by eexists|]. unfold now, ask, mbind, M_bind, modifyM, getM. cbn beta iota zeta.
  rewrite Ho. case_decide as Hd; [|case_decide; by eexists]. simpl.
  destruct (goneConn c _); [by eexists|]. apply IH; simpl; rewrite ?Ho; [done|].
  pose proof (Hmono (W_tick w) (W_tick w1) Ht). pose proof (Hclock (W_tick w1)).
  pose proof (Hclock (S (W_tick w1))). lia.
Qed.

(** C38. A worker is not held out of the fleet for ever: under a clock that
    moves on, [reconcileWithRetries] comes to an outcome after boundedly many
    passes -- the budget it is given bounds them -- whatever the daemon and the
    database do. *)
Theorem reconcileWithRetries_ends c wc budget w :
  (forall n, o_now (W_o w) n < o_now (W_o w) (S n)) ->
  is_Some (reconcileWithRetries (S (Z.to_nat budget)) c wc budget w).1.
Proof.
  intros Hclock. unfold reconcileWithRetries, now, ask, mbind, M_bind. cbn beta iota zeta.
  apply retryLoop_ends; [done|]. simpl. pose proof (Hclock (W_tick w)). lia.
Qed.

(** A daemon that never answers, and the ten nanoseconds it is given. *)
Definition silent : Oracle := calm <| o_docker := fun _ _ => Some [ConnectionFailed] |>.
Lemma reconcileWithRetries_ends_witness :
  (reconcileWithRetries (S (Z.to_nat 10)) 0 leftover_conn 10 (demo_world silent)).1 = Some reconcileEjected /\
  is_Some (reconcileWithRetries (S (Z.to_nat 10)) 0 leftover_conn 10 (demo_world silent)).1.
Proof.
  split; [vm_compute; reflexivity|].
  apply (reconcileWithRetries_ends 0 leftover_conn 10 (demo_world silent)). intros n. simpl. lia.
Defined.

(** ** Pruning *)

Lemma pruneSeconds_covers age : 0 < age -> age <= pruneSeconds age * Second.
Proof.
  intros Ha. unfold pruneSeconds. rewrite Z.quot_div_nonneg by (unfold Second; lia).
  pose proof (Z.mul_succ_div_gt (age + Second - 1) Second ltac:(unfold Second; lia)).
  unfold Second in *. lia.
Qed.

(** The row is younger than the age that applies to it: the prune age once it
    is finalized, five minutes before. *)
Definition young (m : Manager) (t : Z) (r : instanceRow) : Prop :=
  exists created, i_created_at r = Some created /\
    t - created * Second <= if i_is_finalized r then m_pruneAge m else 5 * Minute.

Lemma olderThan_young created age t : t - created * Second <= age * Second -> olderThan (Some created) (t `div` Second - age) = false.
Proof.
  intros H. unfold olderThan. apply bool_decide_eq_false. intros Hlt.
  pose proof (Z.mul_div_le t Second ltac:(unfold Second; lia)). unfold Second in *. nia.
Qed.

Lemma young_spared m t r d : 0 < m_pruneAge m -> young m t r ->
  prunable d (t `div` Second) (pruneSeconds (m_pruneAge m)) r = false /\ crashed (t `div` Second) r = false.
Proof.
  intros Ha (created & Hc & Hy). unfold prunable, crashed.
  rewrite Hc, (bool_decide_eq_false_2 (Some created = None)) by done.
  pose proof (pruneSeconds_covers _ Ha). destruct (i_is_finalized r); cbn [negb andb orb].
  - rewrite olderThan_young by lia. split; [|done]. destruct (t_builds d !! i_build r); [|done]. apply andb_false_r.
  - split; [destruct (t_builds d !! i_build r); [apply andb_false_r|done]|].
    apply (olderThan_young created 300). unfold Minute, Second in *. lia.
Qed.

Section keep_prune.
Context (id : InstanceId) (worker : string).
#[export] Instance record_sqlRead {A} (f : Db -> A) : Keeps (on_record id worker) (sqlRead f).
Proof.
  intros w [Hs Hr]. destruct (sqlRead f w) as [r w'] eqn:E. apply sqlRead_inv in E as (Hm & Ho & _ & _).
  split; simpl; [by rewrite Ho|by rewrite Hm].
Qed.
#[export] Instance record_handOut c cli remove names flying acc :
  Keeps (on_record id worker) (handOut c cli remove names flying acc).
Proof. revert flying acc. induction names; intros; cbn [handOut]; unfold removal; keep. Qed.
#[export] Instance record_reconcileWorker c w : Keeps (on_record id worker) (reconcileWorker c w).
Proof. unfold reconcileWorker, removeOrphans. keep. Qed.
#[export] Instance record_reclaimAfterGC workers : Keeps (on_record id worker) (reclaimAfterGC workers).
Proof. induction workers; simpl; keep. Qed.
End keep_prune.

Section keep_collected.
Context {I : Manager -> Prop} `{!Stable I}.
#[export] Instance keeps_reconcileWorker c w : Keeps (onM I) (reconcileWorker c w).
Proof. unfold reconcileWorker, removeOrphans. keep. Qed.
#[export] Instance keeps_reclaimAfterGC workers : Keeps (onM I) (reclaimAfterGC workers).
Proof. induction workers; simpl; keep. Qed.
End keep_collected.

#[export] Instance keeps_Prune : Keeps (onM tables_ok) Prune.
Proof.
  assert (forall gone, Keeps (onM tables_ok) (sqlExec (deleteInstances gone))) as Hdel.
  { intros g. apply keeps_tables_exec; intros d; [apply deleteInstances_ok|apply deleteInstances_ports_unique]. }
  unfold Prune. keep.
  - apply keeps_tables_exec; intros d; [apply deleteInstances_ok|apply deleteInstances_ports_unique].
  - apply keeps_sql. intros m d' k Hm E. injection E as <- _. apply tables_ok_db; [done|..].
    + apply deleteInstances_ok, Hm.
    + apply deleteInstances_ports_unique.
Qed.

(** A statement no constraint can refuse. *)
Lemma sql_total_inv {A} (f : Db -> Db) (h : Db -> A) w r w' :
  sql (fun d => Some (f d, h d)) w = (r, w') ->
  W_o w' = W_o w /\
  match r with
  | inl _ => W_m w' = W_m w /\ ~ db_quiet w
  | inr _ => W_m w' = (W_m w) <| m_db := f (m_db (W_m w)) |>
  end.
Proof.
  run. destruct (o_db _ _) eqn:E; intros; simplify_eq/=; [|done]. split_and!; [done..|].
  intros Hq. unfold db_quiet in Hq. by rewrite Hq in E.
Qed.

(** What [Prune] comes to: the two deletes, then whatever happens during the
    passes over the workers of the crashed launches. *)
Lemma Prune_runs w res w' :
  0 < m_pruneAge (W_m w) -> Prune w = (res, w') ->
  let t n := o_now (W_o w) n `div` Second in
  let d1 n := deleteInstances (fun _ r => prunable (m_db (W_m w)) (t n) (pruneSeconds (m_pruneAge (W_m w))) r)
                (m_db (W_m w)) in
  exists n w2, W_o w2 = W_o w /\ (w' = w2 \/ exists ws, (reclaimAfterGC ws w2).2 = w') /\
    ((W_m w2 = W_m w /\ ~ db_quiet w) \/
     (W_m w2 = (W_m w) <| m_db := d1 n |> /\ ~ db_quiet w) \/
     exists k, W_m w2 = (W_m w) <| m_db := deleteInstances (fun _ r => crashed (t k) r) (d1 n) |>).
Proof.
  intros Ha H t d1. unfold Prune in H. step H m w1 E. apply getM_inv in E as [-> ->].
  rewrite decide_False in H by lia. step H t1 w1 E1. unfold now, ask in E1. injection E1 as <- <-.
  unfold try in H. step H r w2 E2. apply sql_total_inv in E2 as [Ho2 Hr]. simpl in Ho2, Hr.
  exists (W_tick w). destruct r as [err|u].
  { apply ret_inv in H as [-> ->]. destruct Hr as [Hm Hq]. exists w2. split_and!; auto. }
  step H t2 w3 E3. unfold now, ask in E3. injection E3 as <- <-.
  step H ws w4 E4. apply sqlRead_inv in E4 as (Hm4 & Ho4 & _ & _). simpl in Hm4, Ho4.
  step H t3 w5 E5. unfold now, ask in E5. injection E5 as <- <-.
  step H n w6 E6. apply sql_total_inv in E6 as [Ho6 Hn]. simpl in Ho6, Hn.
  exists w6. split; [congruence|]. rewrite Ho4, Ho2, Hm4, Hr in Hn. split.
  - destruct n as [e|[|n]]; [apply ret_inv in H as [_ ->]; auto..|]. right. step H u' w7 E7.
    apply ret_inv in H as [_ ->]. eexists. by rewrite E7.
  - destruct n as [e|n].
    + right; left. destruct Hn as [-> Hq]. split; [done|]. intros Hq'. apply Hq. intros k. simpl.
      apply Hq'.
    + right; right. exists (W_tick w4). exact Hn.
Qed.

Lemma m_db_set m d : m_db (m <| m_db := d |>) = d.
Proof. done. Qed.

(** [Prune] only takes what is old enough: an instance that is younger, by
    every reading of the clock, than the prune age once it is finalized and than
    five minutes before that, is still on record afterwards (unless its worker
    is removed meanwhile). *)
Theorem Prune_spares_young id r w res w' :
  t_instances (m_db (W_m w)) !! id = Some r -> spared (i_worker r) (W_o w) ->
  (forall n, young (W_m w) (o_now (W_o w) n) r) -> Prune w = (res, w') ->
  recorded id (i_worker r) (W_m w').
Proof.
  intros Hr Hs Hy H. assert (recorded id (i_worker r) (W_m w)) as Hrec by (by exists r).
  destruct (decide (m_pruneAge (W_m w) <= 0)) as [Ha|Ha].
  { unfold Prune in H. step H m w1 E. apply getM_inv in E as [-> ->]. rewrite decide_True in H by done.
    by apply ret_inv in H as [_ ->]. }
  pose proof (fun n d => young_spared (W_m w) (o_now (W_o w) n) r d ltac:(lia) (Hy n)) as Hsp.
  apply Prune_runs in H as (n & w2 & Ho & Hw' & Hm); [|lia].
  assert (on_record id (i_worker r) w2) as H2.
  { split; [by rewrite Ho|]. destruct Hm as [[-> _]|[[-> _]|[k ->]]]; [done|exists r; split; [|done]; rewrite m_db_set..].
    - rewrite deleteInstances_lookup, Hr. by rewrite (proj1 (Hsp n (m_db (W_m w)))).
    - rewrite !deleteInstances_lookup, Hr. rewrite (proj1 (Hsp n (m_db (W_m w)))). by rewrite (proj2 (Hsp k (m_db (W_m w)))). }
  destruct Hw' as [->|[ws <-]]; [apply H2|]. apply (record_reclaimAfterGC id (i_worker r) ws w2 H2).
Qed.

(** And it takes all of it: with a database that answers, an on-demand
    instance past its age, or a launch that never got finalized within five
    minutes, is off the records afterwards with its ports and containers. *)
Theorem Prune_collects_overdue id r w res w' :
  tables_ok (W_m w) -> db_quiet w -> 0 < m_pruneAge (W_m w) ->
  t_instances (m_db (W_m w)) !! id = Some r ->
  let t n := o_now (W_o w) n `div` Second in
  (forall n, prunable (m_db (W_m w)) (t n) (pruneSeconds (m_pruneAge (W_m w))) r = true) \/
  (forall n, crashed (t n) r = true) ->
  Prune w = (res, w') -> cleared id (m_db (W_m w')).
Proof.
  intros Hok Hq Ha Hr t Hold H. subst t; cbn beta in Hold. pose proof (keeps_gives _ _ _ _ _ H Hok) as Hok'.
  apply Prune_runs in H as (n & w2 & Ho & Hw' & Hm); [|done].
  assert (t_instances (m_db (W_m w2)) !! id = None) as H2.
  { destruct Hm as [[_ ?]|[[_ ?]|[k ->]]]; [done..|]. rewrite m_db_set, !deleteInstances_lookup, Hr.
    destruct Hold as [Hp|Hc]; [by rewrite (Hp n)|]. destruct (prunable _ _ _ _); [done|]. by rewrite (Hc k). }
  assert (t_instances (m_db (W_m w')) !! id = None) as Hn.
  { destruct Hw' as [->|[ws <-]]; [done|].
    exact (keeps (I := onM (fun m => t_instances (m_db m) !! id = None)) (e := reclaimAfterGC ws) w2 H2). }
  destruct Hok' as [[] _]. split_and!; [done|..].
  - eapply Forall_impl; [exact ok_ports|]. intros p [[x Hx] _] E. rewrite E in Hx. congruence.
  - eapply Forall_impl; [exact ok_containers|]. intros p [x Hx] E. rewrite E in Hx. congruence.
Qed.

(** [port_world]'s instance was opened at second 5 and is not finalized. *)
Definition aged (w : World) (age : Z) : World := w <| W_m ::= (fun m => m <| m_pruneAge := age |>) |>.
Definition pruning_world (t : Z) : World := aged (port_world (calm <| o_now := fun _ => t |>)) (10 * Minute).

Lemma Prune_spares_young_witness :
  exists res w', Prune (pruning_world (60 * Second)) = (res, w') /\ recorded 1 "10.0.0.1" (W_m w').
Proof.
  destruct (Prune (pruning_world (60 * Second))) as [res w'] eqn:E. exists res, w'. split; [reflexivity|].
  destruct (t_instances (m_db (W_m (pruning_world (60 * Second)))) !! 1) as [r|] eqn:Hr;
    [|vm_compute in Hr; discriminate].
  assert (i_worker r = "10.0.0.1"%string /\ i_created_at r = Some 5 /\ i_is_finalized r = false) as (Hw & Hc & Hf)
    by (vm_compute in Hr; injection Hr as <-; repeat split).
  rewrite <- Hw. apply (Prune_spares_young 1 r (pruning_world (60 * Second)) res w' Hr);
    [intros n; constructor| |exact E].
  intros n. exists 5. split; [exact Hc|]. rewrite Hf. vm_compute. discriminate.
Defined.

Lemma aged_ok w age : tables_ok (W_m w) -> tables_ok (W_m (aged w age)).
Proof. by apply same_db_tables_ok. Qed.
Lemma pruning_world_ok t : tables_ok (W_m (pruning_world t)).
Proof. apply aged_ok, port_world_ok. Qed.

Lemma Prune_collects_overdue_witness :
  exists res w', Prune (pruning_world (600 * Second)) = (res, w') /\ cleared 1 (m_db (W_m w')).
Proof.
  destruct (Prune (pruning_world (600 * Second))) as [res w'] eqn:E. exists res, w'. split; [reflexivity|].
  destruct (t_instances (m_db (W_m (pruning_world (600 * Second)))) !! 1) as [r|] eqn:Hr;
    [|vm_compute in Hr; discriminate].
  apply (Prune_collects_overdue 1 r (pruning_world (600 * Second)) res w'); [apply pruning_world_ok| | |exact Hr| |exact E].
  - intros n. reflexivity.
  - vm_compute. reflexivity.
  - right. intros n. vm_compute in Hr. injection Hr as <-. vm_compute. reflexivity.
Defined.
