(* ===== verification/Builds.v ===== *)
(** * Builds: the records of a build and the images it resolves to

    [cork/database_builds.go] and the removal of images in [cork/docker.go]
    ([removeLocalImage], [pruneReplacedImages], [destroyImages]), with
    [retireRegistryTag] of [cork/registry.go].

    A build row names a generation (its checksum) and the one it can be rolled
    back to; the tags of its images are computed from them ([Images]), so
    several rows may resolve to the same images and no image may be untagged
    while one does.  What the Manager holds besides its record is a parameter:
    the fingerprint of the base pins, the checksum of a challenge type's
    template, and whether this process is a build plane. *)
From S2P Require Import Prelude Types Settings Text Queue Worker Database Fleet HostConfig Effects Ports Instances Images Docker Launch Lifecycle Roster.
Local Open Scope Z_scope.

(** ** Statements *)

Definition finalizeRow (b : BuildMetadata) (r : buildRow) : buildRow :=
  r <| b_flag := bm_flag b |> <| b_hasartifacts := bm_hasArtifacts b |> <| b_checksum := bm_checksum b |>
    <| b_prevchecksum := bm_prevChecksum b |> <| b_sourcechecksum := bm_sourceChecksum b |> <| b_lastsolved := 0 |>.
(** [finalizeBuildQuery], with the row count the code insists on. *)
Definition updateBuild (b : BuildMetadata) (d : Db) : option (Db * unit) :=
  match t_builds d !! bm_id b with
  | Some r => Some (d <| t_builds ::= <[bm_id b := finalizeRow b r]> |>, tt)
  | None => None
  end.
Definition deleteLookups (id : BuildId) (d : Db) : Db := d <| t_lookupData ::= filter (fun x => x.1 <> id) |>.
Definition insertLookup (id : BuildId) (kv : string * string) (d : Db) : option Db :=
  if decide (is_Some (t_builds d !! id)) then Some (d <| t_lookupData ::= (fun l => l ++ [(id, kv)]) |>) else None.
(** [DELETE FROM images WHERE build=?]: the ports cascade. *)
Definition deleteImages (id : BuildId) (d : Db) : Db :=
  let dead (img : ImageId) :=
    match t_images d !! img with Some r => bool_decide (ig_build r = id) | None => false end in
  d <| t_imagePorts ::= filter (fun x => dead x.1 = false) |>
    <| t_images ::= filter (fun kv => ig_build kv.2 <> id) |>.
Definition insertImage (build : BuildId) (host : string) (d : Db) : option (Db * ImageId) :=
  if decide (is_Some (t_builds d !! build)) then
    let id := freshRowid (t_images d) in Some (d <| t_images ::= <[id := mkImageRow build host]> |>, id)
  else None.
Definition insertImagePort (image : ImageId) (port : string) (d : Db) : option Db :=
  if decide (is_Some (t_images d !! image)) then Some (d <| t_imagePorts ::= (fun l => l ++ [(image, port)]) |>)
  else None.

(** ** Opening and finalizing *)
Section content.
Context (basePins : Z) (template : string -> Z).

Definition buildContentChecksum (sourceChecksum : Z) (format challengeType : string) : Z :=
  contentChecksum sourceChecksum format basePins (template challengeType).

(** Best effort: the challenge's source may not be on record. *)
Definition stampChecksum (b : BuildMetadata) : M BuildMetadata :=
  if decide (bm_checksum b = 0) then
    r ← sqlRead (fun d => t_challenges d !! bm_challenge b);
    mret (match r with
          | inr (Some c) => b <| bm_checksum := buildContentChecksum (ch_sourcechecksum c) (bm_format b) (ch_challengetype c) |>
          | _ => b
          end)
  else mret b.

(** The row as [openBuildQuery] inserts it: the generation it is rolled back to
    and the source it was made from take their defaults. *)
Definition openedRow (b : BuildMetadata) : buildRow :=
  mkBuildRow (bm_flag b) (bm_format b) (bm_seed b) (bm_checksum b) 0 0 (bm_hasArtifacts b) (bm_lastSolved b)
    (bm_challenge b) (bm_schema b) (bm_instanceCount b).
Definition chosenId (b : BuildMetadata) : option BuildId := if decide (bm_id b = 0) then None else Some (bm_id b).

Definition buildNamed (key : string * string * string * Z) (d : Db) : option (BuildId * buildRow) :=
  match buildIdFor key d with
  | Some id => pair id <$> t_builds d !! id
  | None => None
  end.

Definition openStamped (b : BuildMetadata) : M (error + BuildMetadata) :=
  r ← sql (fun d => d' ← upsertBuild (chosenId b) (openedRow b) d; Some (d', tt));
  match r with
  | inl err =>
    taken ← reader (fun m => bool_decide (is_Some (t_builds (m_db m) !! bm_id b)));
    if negb (bool_decide (bm_id b = 0)) && errors_Is err SqliteConstraint && taken then
      holder ← sqlRead (fun d => t_builds d !! bm_id b);
      fail (match holder with
            | inr (Some _) => [OtherError "build id is already another build's, the schema holding it must be released"]
            | _ => [OtherError "build id is already another build's, and that row could not be read"]
            end)
    else fail err
  | inr _ =>
    let? found := sqlRead (buildNamed (buildKey (openedRow b))) in
    match found with
    | None => fail [OtherError "found no rows when exactly one expected"]
    | Some (id, row) =>
      ok (b <| bm_id := id |> <| bm_flag := b_flag row |> <| bm_hasArtifacts := b_hasartifacts row |>
            <| bm_lastSolved := b_lastsolved row |> <| bm_checksum := b_checksum row |>
            <| bm_prevChecksum := b_prevchecksum row |> <| bm_sourceChecksum := b_sourcechecksum row |>)
    end
  end.
Definition openBuild (build : BuildMetadata) : M (error + BuildMetadata) := b ← stampChecksum build; openStamped b.
End content.

Fixpoint insertPorts (image : ImageId) (ports : list string) : M (error + unit) :=
  match ports with
  | [] => ok tt
  | p :: ports => let? _ := sql (stmt (insertImagePort image p)) in insertPorts image ports
  end.
Fixpoint insertImages (build : BuildId) (images : list Image) : M (error + unit) :=
  match images with
  | [] => ok tt
  | image :: images =>
    let? id := sql (insertImage build (img_host image)) in
    let? _ := insertPorts id (img_ports image) in
    insertImages build images
  end.

Definition finalizeBuild (build : BuildMetadata) : M (error + unit) :=
  transaction (
    let? _ := sql (updateBuild build) in
    let? _ := sqlExec (deleteLookups (bm_id build)) in
    let? _ := sqlAll (fun kv => stmt (insertLookup (bm_id build) kv)) (map_to_list (bm_lookupData build)) in
    let? _ := sqlExec (deleteImages (bm_id build)) in
    insertImages (bm_id build) (bm_images build)).

Definition removeBuildMetadata (build : BuildId) : M (error + unit) :=
  transaction (
    let? _ := sqlExec (deleteImages build) in
    sql (stmt (deleteBuild build))).

(** ** Reading *)

(** A row resolves to the tags of (challenge, seed, checksum). *)
Definition resolves (challenge : ChallengeId) (seed checksum : Z) (r : buildRow) : bool :=
  bool_decide (b_challenge r = challenge) && bool_decide (b_seed r = seed) &&
  (bool_decide (b_checksum r = checksum) || bool_decide (b_prevchecksum r = checksum)).
Definition countReferences (challenge : ChallengeId) (seed checksum : Z) (exclude : BuildId) (d : Db) : nat :=
  length (filter (fun kv => resolves challenge seed checksum kv.2 = true /\ kv.1 <> exclude) (rows (t_builds d))).
(** Fails safe: an error counts as a reference. *)
Definition contentReferenced (b : BuildMetadata) (exclude : BuildId) : M bool :=
  r ← sqlRead (countReferences (bm_challenge b) (bm_seed b) (bm_checksum b) exclude);
  mret (match r with inl _ => true | inr n => bool_decide (0 < n)%nat end).

Definition buildsWhere (P : buildRow -> bool) (d : Db) : list BuildId :=
  fst <$> filter (fun kv => P kv.2 = true) (rows (t_builds d)).
Definition schemaExists (schema : string) : M (error + bool) :=
  sqlRead (fun d => bool_decide (buildsWhere (fun r => bool_decide (b_schema r = schema)) d <> [])).
Definition removedSchemaBuilds (schema : string) : M (error + list BuildId) :=
  sqlRead (buildsWhere (fun r => bool_decide (b_schema r = schema) && bool_decide (b_instancecount r = LOCKED))).
Definition lockSchema (schema : string) : M (error + unit) := sqlExec (lockSchemaRows schema).
Definition queryForSchemas : M (error + list string) :=
  sqlRead (fun d => remove_dups (b_schema ∘ snd <$> rows (t_builds d))).
Definition removedSchemaInstances (schema : string) : M (error + list InstanceId) :=
  sqlRead (fun d => fst <$> filter (fun kv =>
    match t_builds d !! i_build kv.2 with
    | Some b => bool_decide (b_schema b = schema) && bool_decide (b_instancecount b = LOCKED)
    | None => false
    end = true) (rows (t_instances d))).

Definition staleBuildIds (c : ChallengeMetadata) : M (error + list BuildId) :=
  sqlRead (buildsWhere (fun r => bool_decide (b_challenge r = cm_id c) && negb (bool_decide (b_flag r = ""%string)) &&
                                 negb (bool_decide (b_sourcechecksum r = cm_sourceChecksum c)))).
Definition allBuildIds (c : ChallengeMetadata) : M (error + list BuildId) :=
  sqlRead (buildsWhere (fun r => bool_decide (b_challenge r = cm_id c))).
(** Built, from another source generation than its challenge's row records. *)
Definition stale (d : Db) (r : buildRow) : bool :=
  match t_challenges d !! b_challenge r with
  | Some c => negb (bool_decide (b_flag r = ""%string)) && negb (bool_decide (b_sourcechecksum r = ch_sourcechecksum c))
  | None => false
  end.
Definition challengeHasStaleBuild (id : ChallengeId) : M (error + bool) :=
  sqlRead (fun d => bool_decide (0 < length (buildsWhere (fun r => bool_decide (b_challenge r = id) && stale d r) d))%nat).
Definition staleChallengeSet : M (error + gset ChallengeId) :=
  sqlRead (fun d => list_to_set (b_challenge ∘ snd <$> filter (fun kv => stale d kv.2 = true) (rows (t_builds d)))).

Definition storedGeneration (id : BuildId) : M (error + (Z * Z)) :=
  let? row := sqlRead (fun d => t_builds d !! id) in
  match row with
  | None => fail [OtherError "sql: no rows in result set"]
  | Some r => ok (if decide (b_flag r = ""%string) then (0, 0) else (b_checksum r, b_prevchecksum r))
  end.

(** ** Removing images *)
Section remove.
Context (buildPlane : bool).     (* whether the process was built AsBuildPlane *)

Definition removeLocalImage (name : string) : M (error + unit) :=
  m ← getM;
  if m_externalBuildPlane m then fail [NotFound] else docker None (ImageRemove name).

Definition retireRegistryTag (name : string) : M (error + unit) :=
  m ← getM;
  if bool_decide (m_challengeRegistry m = ""%string) || buildPlane then ok tt
  else docker None (RegistryDelete name).

(** Both removals are best effort: what they come to is only logged. *)
Fixpoint untagAll (tags : list string) : M unit :=
  match tags with
  | [] => mret tt
  | tag :: tags => _ ← removeLocalImage tag; _ ← retireRegistryTag tag; untagAll tags
  end.

Record replacedImages := mkReplaced { ri_tags : list string; ri_meta : BuildMetadata }.
Fixpoint pruneReplacedImages (replaced : list replacedImages) : M unit :=
  match replaced with
  | [] => mret tt
  | r :: replaced =>
    referenced ← contentReferenced (ri_meta r) 0;
    (if referenced : bool then mret tt else untagAll (ri_tags r));;
    pruneReplacedImages replaced
  end.

(** The images of one generation of a build being destroyed. *)
Fixpoint untagGeneration (retire : bool) (b : BuildMetadata) (images : list Image) : M unit :=
  match images with
  | [] => mret tt
  | image :: images =>
    m ← getM;
    let name := instanceImageName (m_challengeRegistry m) (bm_challenge b) b image in
    _ ← removeLocalImage name;
    (if retire && negb (bool_decide (img_host image = "builder"%string))
     then _ ← retireRegistryTag name; mret tt else mret tt);;
    untagGeneration retire b images
  end.

(** The images of a generation go unless another row resolves to them. *)
Definition untagUnlessReferenced (retire : bool) (b : BuildMetadata) (exclude : BuildId) (images : list Image) : M unit :=
  referenced ← contentReferenced b exclude;
  if referenced : bool then mret tt else untagGeneration retire b images.

Definition ErrNotExist : sentinel := OtherError "file does not exist".
(** [removeArtifactBundle], as a file operation that may fail. *)
Definition removeArtifactBundle : M (error + unit) :=
  e ← ask o_fs; match e with Some err => fail err | None => ok tt end.

Definition destroyImages (build : BuildId) (retire : bool) : M (error + unit) :=
  let? b := lookupBuildMetadata build in
  let? _ := removeBuildMetadata build in
  m ← getM;
  let? _ := (if bm_hasArtifacts b && negb (m_externalBuildPlane m) then
               r ← removeArtifactBundle;
               match r with
               | inl err => if errors_Is err ErrNotExist then ok tt else fail err
               | inr _ => ok tt
               end
             else ok tt) in
  untagUnlessReferenced retire b (bm_id b) (bm_images b);;
  (if decide (bm_prevChecksum b <> 0 /\ bm_prevChecksum b <> bm_checksum b) then
     let prev := mkBuild 0 "" ∅ (bm_seed b) (bm_format b) (bm_prevChecksum b) 0 0 [] false 0 (bm_challenge b) [] "" 0 in
     untagUnlessReferenced retire prev (bm_id b) (bm_images b)
   else mret tt);;
  ok tt.
End remove.

#[global] Typeclasses Opaque stampChecksum openStamped openBuild insertPorts insertImages finalizeBuild removeBuildMetadata
  contentReferenced removeLocalImage retireRegistryTag untagAll pruneReplacedImages untagGeneration untagUnlessReferenced
  removeArtifactBundle destroyImages.

(** ** The tables stay sound *)
Section keep_builds.
Local Abbreviation Ok := (onM tables_ok).

(** A statement that leaves instances, ports and containers alone. *)
Definition same_instances (d d' : Db) : Prop :=
  t_instances d' = t_instances d /\ t_instanceSeq d' = t_instanceSeq d /\
  t_portAssignments d' = t_portAssignments d /\ t_containers d' = t_containers d.
Lemma builds_ok d d' :
  db_ok d -> same_instances d d' ->
  (forall id, is_Some (t_builds d !! id) -> is_Some (t_builds d' !! id) \/ instancesOfBuild id d = []) ->
  (forall id r, t_builds d' !! id = Some r -> is_Some (t_challenges d' !! b_challenge r)) ->
  (forall id r, t_images d' !! id = Some r -> is_Some (t_builds d' !! ig_build r)) -> db_ok d'.
Proof.
  intros [] (Ei & Es & Ep & Ec) Hb Hc Himg. split; rewrite ?Ei, ?Es, ?Ep, ?Ec; try done.
  intros id r Hr. destruct (Hb (i_build r)) as [?|Hnone]; [eauto|done|].
  exfalso. assert (id ∈ instancesOfBuild (i_build r) d) as Hin by (apply instancesOfBuild_spec; eauto).
  rewrite Hnone in Hin. set_solver.
Qed.
Lemma keeps_builds_sql {A} (f : Db -> option (Db * A)) :
  (forall d d' a, db_ok d -> f d = Some (d', a) -> db_ok d' /\ same_instances d d') -> Keeps Ok (sql f).
Proof.
  intros Hf. apply keeps_sql. intros m d' a Hm E. destruct (Hf _ _ _ (to_db _ Hm) E) as [Hd (_ & _ & Ep & _)].
  apply tables_ok_db; [done..|]. unfold ports_unique. by rewrite Ep.
Qed.

Lemma deleteImages_lookup id d img :
  t_images (deleteImages id d) !! img =
  match t_images d !! img with Some r => if decide (ig_build r = id) then None else Some r | None => None end.
Proof.
  unfold deleteImages. simpl. rewrite map_lookup_filter. destruct (t_images d !! img); simpl; [|done].
  unfold guard. repeat case_decide; try done.
Qed.
Lemma deleteImages_ok id d : db_ok d -> db_ok (deleteImages id d) /\ same_instances d (deleteImages id d).
Proof.
  intros Hd. split; [|done]. apply (builds_ok d); [done|done|by auto|apply (ok_challenge d Hd)|].
  intros img r. rewrite deleteImages_lookup. destruct (t_images d !! img) eqn:E; [|done]. case_decide; [done|].
  intros; simplify_eq. by apply (ok_images d Hd img).
Qed.
#[export] Instance keeps_deleteImages id : Keeps Ok (sqlExec (deleteImages id)).
Proof. apply keeps_builds_sql. intros d d' [] Hd E. injection E as <-. by apply deleteImages_ok. Qed.
#[export] Instance keeps_insertImage build host : Keeps Ok (sql (insertImage build host)).
Proof.
  apply keeps_builds_sql. intros d d' a Hd E. unfold insertImage in E. case_decide as Hb; simplify_eq.
  split; [|done]. apply (builds_ok d); [done|done|by auto|apply (ok_challenge d Hd)|].
  simpl. intros img r. rewrite lookup_insert. case_decide; intros; simplify_eq/=; [done|]. by apply (ok_images d Hd img).
Qed.
#[export] Instance keeps_insertImagePort image port : Keeps Ok (sql (stmt (insertImagePort image port))).
Proof.
  apply keeps_builds_sql. intros d d' a Hd E. unfold stmt, insertImagePort in E. repeat case_match; simplify_eq.
  split; [|done]. by destruct Hd.
Qed.
#[export] Instance keeps_insertLookup id kv : Keeps Ok (sql (stmt (insertLookup id kv))).
Proof.
  apply keeps_builds_sql. intros d d' a Hd E. unfold stmt, insertLookup in E. repeat case_match; simplify_eq.
  split; [|done]. by destruct Hd.
Qed.
#[export] Instance keeps_deleteLookups id : Keeps Ok (sqlExec (deleteLookups id)).
Proof. apply keeps_builds_sql. intros d d' [] Hd E. injection E as <-. split; [|done]. by destruct Hd. Qed.
#[export] Instance keeps_updateBuild b : Keeps Ok (sql (updateBuild b)).
Proof.
  apply keeps_builds_sql. intros d d' [] Hd E. unfold updateBuild in E.
  destruct (t_builds d !! bm_id b) as [r|] eqn:Er; simplify_eq. split; [|done].
  apply (builds_ok d); [done|done| | |]; simpl.
  - intros id Hid. left. by apply is_Some_insert.
  - intros id r'. rewrite lookup_insert. case_decide; intros; simplify_eq/=; by eapply (ok_challenge d Hd).
  - intros img r' Hr. apply is_Some_insert. by apply (ok_images d Hd img).
Qed.
#[export] Instance keeps_deleteBuild id : Keeps Ok (sql (stmt (deleteBuild id))).
Proof.
  apply keeps_builds_sql. intros d d' [] Hd E. unfold stmt, deleteBuild in E.
  destruct (decide (instancesOfBuild id d = [])) as [Hn|]; [|done]. simplify_eq. split; [|done].
  apply (builds_ok d); [done|done| | |]; simpl.
  - intros b Hb. destruct (decide (b = id)) as [->|]; [by right|]. left. by rewrite lookup_delete_ne.
  - intros b r. rewrite lookup_delete. case_decide; [done|]. apply (ok_challenge d Hd).
  - intros img r. rewrite map_lookup_filter. destruct (t_images d !! img) as [r0|] eqn:E; [|done]. simpl.
    unfold guard. case_decide as Hne; [|done]. simpl. intros; simplify_eq.
    rewrite lookup_delete_ne by done. by apply (ok_images d Hd img).
Qed.
Lemma upsertBuild_ok id r d d' : db_ok d -> upsertBuild id r d = Some d' -> db_ok d' /\ same_instances d d'.
Proof.
  intros Hd E. unfold upsertBuild in E. destruct (buildIdFor (buildKey r) d) as [old|].
  - simplify_eq. split; [|done]. apply (builds_ok d); [done|done| | |]; simpl.
    + intros b Hb. left. by apply lookup_alter_is_Some.
    + intros b r'. rewrite lookup_alter. case_decide; [|apply (ok_challenge d Hd)].
      subst. destruct (t_builds d !! b) eqn:Eb; [|done]. simpl. intros; simplify_eq/=. by eapply (ok_challenge d Hd).
    + intros img r' Hr. apply lookup_alter_is_Some. by apply (ok_images d Hd img).
  - case_decide as Hc; [|done]. destruct Hc as [Hf Hc]. simplify_eq. split; [|done].
    apply (builds_ok d); [done|done| | |]; simpl.
    + intros b Hb. left. by apply is_Some_insert.
    + intros b r'. rewrite lookup_insert. case_decide; intros; simplify_eq/=; [done|]. by eapply (ok_challenge d Hd).
    + intros img r' Hr. apply is_Some_insert. by apply (ok_images d Hd img).
Qed.
#[export] Instance keeps_openStamped b : Keeps Ok (openStamped b).
Proof.
  unfold openStamped. keep. apply keeps_builds_sql. intros d d' [] Hd E.
  destruct (upsertBuild _ _ d) eqn:Eu; simplify_eq/=. by eapply upsertBuild_ok.
Qed.
#[export] Instance keeps_stampChecksum pins template b : Keeps Ok (stampChecksum pins template b).
Proof. unfold stampChecksum. keep. Qed.
#[export] Instance keeps_openBuild pins template b : Keeps Ok (openBuild pins template b).
Proof. unfold openBuild. keep. Qed.
#[export] Instance keeps_insertPorts image ports : Keeps Ok (insertPorts image ports).
Proof. induction ports; simpl; keep. Qed.
#[export] Instance keeps_insertImages build images : Keeps Ok (insertImages build images).
Proof. induction images; simpl; keep. Qed.
#[export] Instance db_only_insertPorts image ports : DbOnly (insertPorts image ports).
Proof. induction ports; simpl; apply _. Qed.
#[export] Instance db_only_insertImages build images : DbOnly (insertImages build images).
Proof. induction images; simpl; apply _. Qed.
#[export] Instance keeps_finalizeBuild b : Keeps Ok (finalizeBuild b).
Proof. unfold finalizeBuild. apply keeps_transaction; [apply _|]. keep. apply keeps_sqlAll. apply _. Qed.
#[export] Instance keeps_removeBuildMetadata id : Keeps Ok (removeBuildMetadata id).
Proof. unfold removeBuildMetadata. apply keeps_transaction; [apply _|]. keep. Qed.
Lemma lockSchemaRows_ok schema d : db_ok d -> db_ok (lockSchemaRows schema d) /\ same_instances d (lockSchemaRows schema d).
Proof.
  intros Hd. split; [|done]. apply (builds_ok d); [done|done| | |]; simpl.
  - intros b Hb. left. by rewrite lookup_fmap, fmap_is_Some.
  - intros b r. rewrite lookup_fmap. destruct (t_builds d !! b) eqn:E; [|done]. simpl. intros; simplify_eq.
    case_decide; simpl; by eapply (ok_challenge d Hd).
  - intros img r Hr. rewrite lookup_fmap, fmap_is_Some. by apply (ok_images d Hd img).
Qed.
#[export] Instance keeps_lockSchema schema : Keeps Ok (lockSchema schema).
Proof. apply keeps_builds_sql. intros d d' [] Hd E. injection E as <-. by apply lockSchemaRows_ok. Qed.
#[export] Instance keeps_untagAll bp tags : Keeps Ok (untagAll bp tags).
Proof. induction tags; simpl; unfold removeLocalImage, retireRegistryTag; keep. Qed.
#[export] Instance keeps_untagGeneration bp retire b images : Keeps Ok (untagGeneration bp retire b images).
Proof. induction images; simpl; unfold removeLocalImage, retireRegistryTag; keep. Qed.
#[export] Instance keeps_contentReferenced b x : Keeps Ok (contentReferenced b x).
Proof. unfold contentReferenced. keep. Qed.
#[export] Instance keeps_untagUnlessReferenced bp retire b x images : Keeps Ok (untagUnlessReferenced bp retire b x images).
Proof. unfold untagUnlessReferenced. keep. Qed.
#[export] Instance keeps_pruneReplacedImages bp replaced : Keeps Ok (pruneReplacedImages bp replaced).
Proof. induction replaced; simpl; keep. Qed.
#[export] Instance keeps_destroyImages bp build retire : Keeps Ok (destroyImages bp build retire).
Proof. unfold destroyImages, lookupBuildMetadata, removeArtifactBundle. keep. Qed.
End keep_builds.

(** Removing images leaves builds and instances alone. *)
Section aloof_removal.
Context (I : World -> Prop) {HI : Aloof I}.
Local Abbreviation Ok := I.
#[export] Instance aloof_contentReferenced b x : Keeps Ok (contentReferenced b x).
Proof. unfold contentReferenced. keep. Qed.
#[export] Instance aloof_removeLocalImage name : Keeps Ok (removeLocalImage name).
Proof. unfold removeLocalImage. keep. Qed.
#[export] Instance aloof_retireRegistryTag bp name : Keeps Ok (retireRegistryTag bp name).
Proof. unfold retireRegistryTag. keep. Qed.
#[export] Instance aloof_untagGeneration bp retire b images : Keeps Ok (untagGeneration bp retire b images).
Proof. induction images; simpl; keep. Qed.
#[export] Instance aloof_untagUnlessReferenced bp retire b x images : Keeps Ok (untagUnlessReferenced bp retire b x images).
Proof. unfold untagUnlessReferenced. keep. Qed.
#[export] Instance aloof_removeArtifactBundle : Keeps Ok removeArtifactBundle.
Proof. unfold removeArtifactBundle. keep. Qed.
End aloof_removal.

(** ** No image in use is untagged *)

(** No row resolves to the tags of (challenge, seed, checksum). *)
Definition unreferenced (builds : gmap Z buildRow) (c : ChallengeId) (seed sum : Z) : Prop :=
  forall id r, builds !! id = Some r -> resolves c seed sum r = false.

Definition builds_are (builds : gmap Z buildRow) (registry : string) (m : Manager) : Prop :=
  t_builds (m_db m) = builds /\ m_challengeRegistry m = registry.
#[export] Instance builds_are_stable builds registry : Stable (builds_are builds registry).
Proof. intros op m [<- <-]. split; [apply run_op_builds|].
  by injection (run_op_frame op m). Qed.

(** The tags a row resolves to: of the generation it serves and of the one it
    can be rolled back to. *)
Definition row_tag (registry : string) (r : buildRow) (tag : string) : Prop :=
  exists sum host, (sum = b_checksum r \/ sum = b_prevchecksum r) /\
    tag = image_tag registry (b_challenge r) (b_seed r) sum host.

(** The call untags an image, and one that no row of [builds] resolves to. *)
Definition no_row_tag (registry : string) (builds : gmap Z buildRow) (name : string) : Prop :=
  forall id r, builds !! id = Some r -> ~ row_tag registry r name.
Definition spares_rows (registry : string) (builds : gmap Z buildRow) (e : event) : Prop :=
  exists name, (ev_call e = ImageRemove name \/ ev_call e = RegistryDelete name) /\ no_row_tag registry builds name.

(** What the two columns that name generations hold: unsigned 32-bit words, of
    a challenge whose id has no colon. *)
Definition row_ok (r : buildRow) : Prop :=
  word32 (b_checksum r) /\ word32 (b_prevchecksum r) /\ all_chars (notChar ":") (b_challenge r) = true.
Definition rows_ok (builds : gmap Z buildRow) : Prop := forall id r, builds !! id = Some r -> row_ok r.

Lemma unreferenced_spares registry builds c seed sum host :
  rows_ok builds -> all_chars (notChar ":") c = true -> word32 sum -> unreferenced builds c seed sum ->
  no_row_tag registry builds (image_tag registry c seed sum host).
Proof.
  intros Hok Hc Hs Hu id r Hr (sum' & host' & Hsum & E). destruct (Hok id r Hr) as (H1 & H2 & H3).
  apply image_tag_inj in E as (-> & -> & -> & _); [|done..|by destruct Hsum as [->| ->]].
  specialize (Hu id r Hr). unfold resolves in Hu. rewrite 2!bool_decide_eq_true_2 in Hu by done. simpl in Hu.
  destruct Hsum as [Hsum|Hsum]; rewrite Hsum in Hu.
  - by rewrite (bool_decide_eq_true_2 (b_checksum r = b_checksum r)) in Hu.
  - by rewrite (bool_decide_eq_true_2 (b_prevchecksum r = b_prevchecksum r)), orb_true_r in Hu.
Qed.

Section untag.
Context (bp : bool) (builds : gmap Z buildRow) (registry : string).
Local Abbreviation I := (builds_are builds registry).
Local Abbreviation U := (spares_rows registry builds).

Lemma emits_removeLocalImage name : (forall cli err, U (mkEvent cli (ImageRemove name) err)) -> Emits U (removeLocalImage name).
Proof. intros H. unfold removeLocalImage. emit. Qed.
Lemma emits_retireRegistryTag name :
  (forall cli err, U (mkEvent cli (RegistryDelete name) err)) -> Emits U (retireRegistryTag bp name).
Proof. intros H. unfold retireRegistryTag. emit. Qed.
#[local] Instance keeps_removeLocalImage name : Keeps (onM I) (removeLocalImage name).
Proof. unfold removeLocalImage. keep. Qed.
#[local] Instance keeps_retireRegistryTag name : Keeps (onM I) (retireRegistryTag bp name).
Proof. unfold retireRegistryTag. keep. Qed.
#[local] Instance keeps_untagGen retire b images : Keeps (onM I) (untagGeneration bp retire b images).
Proof. induction images; simpl; keep. Qed.

Lemma untagGeneration_spec retire b images w u w' :
  I (W_m w) ->
  (forall host, no_row_tag registry builds (image_tag registry (bm_challenge b) (bm_seed b) (bm_checksum b) host)) ->
  untagGeneration bp retire b images w = (u, w') ->
  exists tr, W_trace w' = W_trace w ++ tr /\ Forall U tr.
Proof.
  intros Hw Hu. revert w Hw. induction images as [|image images IH]; intros w Hw H; cbn [untagGeneration] in H.
  { apply ret_inv in H as [_ ->]. exists []. by rewrite app_nil_r. }
  step H m w1 E. apply getM_inv in E as [-> ->]. cbv zeta in H. destruct Hw as [Hb Hr]. rewrite Hr in H.
  set (name := instanceImageName registry (bm_challenge b) b image) in H.
  assert (forall c cli err, c = ImageRemove name \/ c = RegistryDelete name -> U (mkEvent cli c err)) as HU.
  { intros c cli err Hc. exists name. split; [done|]. subst name. rewrite instanceImageName_tag. apply Hu. }
  step H r1 w1 E1. destruct (emits_inv _ _ _ _ _ (emits_removeLocalImage name ltac:(auto)) E1) as (tr1 & Ht1 & Hp1).
  pose proof (keeps_gives I _ _ _ _ E1 (conj Hb Hr)) as Hw1.
  step H r2 w2 E2.
  assert (I (W_m w2) /\ exists tr2, W_trace w2 = W_trace w1 ++ tr2 /\ Forall U tr2) as [Hw2 (tr2 & Ht2 & Hp2)].
  { destruct (retire && _); [|apply ret_inv in E2 as [_ ->]; split; [done|]; exists []; by rewrite app_nil_r].
    step E2 r3 w3 E3. apply ret_inv in E2 as [_ ->].
    split; [exact (keeps_gives I _ _ _ _ E3 Hw1)|]. exact (emits_inv _ _ _ _ _ (emits_retireRegistryTag name ltac:(auto)) E3). }
  apply IH in H as (tr3 & Ht3 & Hp3); [|done]. exists (tr1 ++ tr2 ++ tr3).
  rewrite Ht3, Ht2, Ht1, !app_assoc. split; [done|]. by rewrite !Forall_app.
Qed.

Lemma contentReferenced_inv b x w res w' :
  contentReferenced b x w = (res, w') ->
  W_m w' = W_m w /\ W_trace w' = W_trace w /\
  (res = false -> forall id r, t_builds (m_db (W_m w)) !! id = Some r -> id <> x ->
     resolves (bm_challenge b) (bm_seed b) (bm_checksum b) r = false).
Proof.
  unfold contentReferenced. intros H. step H r w1 E. apply sqlRead_inv in E as (Hm & _ & Ht & Hr).
  apply ret_inv in H as [-> ->]. split_and!; [done..|]. destruct r as [e|n]; [done|]. subst n.
  intros Hn%bool_decide_eq_false id r Hid Hx. destruct (resolves _ _ _ r) eqn:Er; [|done]. exfalso. apply Hn.
  unfold countReferences.
  assert ((id, r) ∈ filter (fun kv => resolves (bm_challenge b) (bm_seed b) (bm_checksum b) kv.2 = true /\ kv.1 <> x)
    (rows (t_builds (m_db (W_m w))))) as Hin
    by (apply list_elem_of_filter; split; [done|]; by apply elem_of_rows).
  destruct (filter _ _); [by apply not_elem_of_nil in Hin|]. simpl. lia.
Qed.

Lemma untagUnlessReferenced_spec retire b x images w u w' :
  I (W_m w) -> rows_ok builds -> builds !! x = None ->
  all_chars (notChar ":") (bm_challenge b) = true -> word32 (bm_checksum b) ->
  untagUnlessReferenced bp retire b x images w = (u, w') ->
  I (W_m w') /\ exists tr, W_trace w' = W_trace w ++ tr /\ Forall U tr.
Proof.
  intros Hw Hok Hx Hc Hs H. unfold untagUnlessReferenced in H. step H ref w1 E.
  apply contentReferenced_inv in E as (Hm & Ht & Href). assert (I (W_m w1)) as Hw1 by (by rewrite Hm).
  destruct ref; [apply ret_inv in H as [_ ->]; split; [done|]; exists []; by rewrite app_nil_r|].
  split; [exact (keeps_gives I _ _ _ _ H Hw1)|].
  apply untagGeneration_spec in H as (tr & Ht' & Hp); [exists tr; by rewrite Ht', Ht|done|].
  intros host. apply unreferenced_spares; [done..|]. intros id r Hr. destruct Hw as [Hb _].
  apply (Href eq_refl id r); [by rewrite Hb|]. intros ->. congruence.
Qed.
End untag.

Lemma lookupBuildMetadata_inv id w r w' :
  lookupBuildMetadata id w = (r, w') ->
  W_m w' = W_m w /\ W_trace w' = W_trace w /\
  match r with
  | inl _ => True
  | inr b => exists row, t_builds (m_db (W_m w)) !! id = Some row /\ b = buildMeta id row (m_db (W_m w))
  end.
Proof.
  unfold lookupBuildMetadata, try. intros H. step H d w1 E. apply sqlRead_inv in E as (Hm & _ & Ht & Hd).
  destruct d as [e|d]; [by apply ret_inv in H as [-> ->]|]. simpl in Hd. subst d.
  destruct (t_builds (m_db (W_m w)) !! id) as [row|] eqn:Er; apply ret_inv in H as [-> ->]; [|done].
  split_and!; [done..|]. eauto.
Qed.

Lemma removeBuildMetadata_inv id w r w' :
  removeBuildMetadata id w = (r, w') ->
  W_trace w' = W_trace w /\
  match r with
  | inl _ => W_m w' = W_m w
  | inr _ => m_challengeRegistry (W_m w') = m_challengeRegistry (W_m w) /\
             t_builds (m_db (W_m w')) = delete id (t_builds (m_db (W_m w)))
  end.
Proof.
  unfold removeBuildMetadata. intros H. apply transaction_spec in H as (_ & Ht & Hr); [|apply _].
  split; [done|]. destruct r as [e|[]]; [done|]. destruct Hr as (w1 & H & Hm).
  apply try_inr in H as ([] & w2 & H1 & H2). apply sql_inr in H1 as (E1 & Hm1 & _).
  apply sql_inr in H2 as (E2 & Hm2 & _). rewrite Hm, Hm2, Hm1. split; [done|]. injection E1 as E1.
  unfold stmt, deleteBuild in E2. case_decide; [|done]. injection E2 as E2. cbn [m_db]. rewrite <- E2, <- E1. done.
Qed.

(** The archive of a build is a file: removing it touches nothing else. *)
Lemma removeArchive_inv (b : bool) w r w' :
  (if b then
     r ← removeArtifactBundle;
     match r with
     | inl err => if errors_Is err ErrNotExist then ok tt else fail err
     | inr _ => ok tt
     end
   else ok tt) w = (r, w') -> W_m w' = W_m w /\ W_trace w' = W_trace w.
Proof.
  intros E. destruct b; [|by apply ret_inv in E as [_ ->]]. unfold removeArtifactBundle in E.
  step E r5 w5 E5. step E5 fs w6 E6. unfold ask in E6. simplify_eq.
  destruct (o_fs (W_o w) (W_tick w)); apply ret_inv in E5 as [-> ->]; [destruct (errors_Is _ _)|];
    by apply ret_inv in E as [_ ->].
Qed.

(** C10. Destroying a build never takes an image from another: every tag that is
    removed, from the daemon or from the registry, is one no build left on
    record resolves to, neither by the generation it serves nor by the one it
    can be rolled back to. *)
Theorem destroyImages_spares_builds bp build retire w r w' :
  rows_ok (t_builds (m_db (W_m w))) -> destroyImages bp build retire w = (r, w') ->
  exists tr, W_trace w' = W_trace w ++ tr /\
    Forall (spares_rows (m_challengeRegistry (W_m w)) (t_builds (m_db (W_m w')))) tr.
Proof.
  intros Hok H. assert (forall w1, W_trace w1 = W_trace w -> w' = w1 -> exists tr, W_trace w' = W_trace w ++ tr /\
    Forall (spares_rows (m_challengeRegistry (W_m w)) (t_builds (m_db (W_m w')))) tr) as Hnone
    by (intros w1 Ht ->; exists []; by rewrite Ht, app_nil_r).
  unfold destroyImages, try in H. step H b w1 E1. apply lookupBuildMetadata_inv in E1 as (Hm1 & Ht1 & Hb).
  destruct b as [e|b]; [apply ret_inv in H as [_ ->]; by apply (Hnone w1)|]. destruct Hb as (row & Hrow & ->).
  step H r2 w2 E2. apply removeBuildMetadata_inv in E2 as [Ht2 Hm2]. rewrite Ht1 in Ht2.
  destruct r2 as [e|u]; [apply ret_inv in H as [_ ->]; by apply (Hnone w2)|]. destruct Hm2 as [Hreg Hbuilds].
  rewrite Hm1 in Hreg, Hbuilds. step H m w3 E3. apply getM_inv in E3 as [-> ->].
  step H r4 w4 E4. apply removeArchive_inv in E4 as [Hm4 Ht4]. rewrite Ht2 in Ht4.
  destruct r4 as [e|u4]; [apply ret_inv in H as [_ ->]; by apply (Hnone w4)|].
  set (registry := m_challengeRegistry (W_m w)) in *. set (B := delete build (t_builds (m_db (W_m w)))) in *.
  destruct (Hok build row Hrow) as (Hsum & Hprev & Hcolon).
  assert (rows_ok B) as HokB by (intros id r0 [_ H0]%lookup_delete_Some; eauto).
  assert (B !! build = None) as HBid by apply lookup_delete_eq.
  assert (builds_are B registry (W_m w4)) as Hw4 by (by rewrite Hm4).
  step H u5 w5 E5. apply (untagUnlessReferenced_spec bp B registry) in E5 as [Hw5 (tr5 & Ht5 & Hp5)]; [|done..].
  step H u6 w6 E6. apply ret_inv in H as [_ ->].
  assert (builds_are B registry (W_m w6) /\ exists tr, W_trace w6 = W_trace w5 ++ tr /\ Forall (spares_rows registry B) tr)
    as [[Hw6 _] (tr6 & Ht6 & Hp6)].
  { case_decide; [|apply ret_inv in E6 as [_ ->]; split; [done|]; exists []; by rewrite app_nil_r].
    by apply (untagUnlessReferenced_spec bp B registry) in E6. }
  exists (tr5 ++ tr6). rewrite Ht6, Ht5, Ht4, app_assoc. split; [done|]. rewrite Hw6. by apply Forall_app.
Qed.

(** Two schemas share one build of [demo_db]; the second is destroyed. *)
Definition shared_world : World :=
  (demo_world calm) <| W_m ::= (fun m => m <| m_db ::= (fun d => d
     <| t_builds ::= <[2 := mkBuildRow "flag{x}" "flag{%s}" 42 5 3 7 false 0 "web" "other" DYNAMIC_INSTANCES]> |>
     <| t_images ::= <[2 := mkImageRow 2 "web"]> |>) |>) |>.

Lemma shared_rows_ok : rows_ok (t_builds (m_db (W_m shared_world))).
Proof.
  assert (map_Forall (fun _ r => row_ok r) (t_builds (m_db (W_m shared_world)))) as H; [|exact H].
  assert (t_builds (m_db (W_m shared_world)) =
    <[2 := mkBuildRow "flag{x}" "flag{%s}" 42 5 3 7 false 0 "web" "other" DYNAMIC_INSTANCES]>
      ({[1 := mkBuildRow "flag{x}" "flag{%s}" 42 5 0 7 false 0 "web" "event" DYNAMIC_INSTANCES]} : gmap Z buildRow))
    as -> by (vm_compute; reflexivity).
  apply map_Forall_insert_2; [|apply map_Forall_singleton]; split_and!; try done; split; vm_compute; congruence.
Qed.

Lemma destroyImages_spares_builds_witness :
  let '(r, w') := destroyImages false 2 true shared_world in
  r = inr tt /\ length (W_trace w') = 2%nat /\
  Forall (spares_rows "registry.example:5000" (t_builds (m_db (W_m w')))) (W_trace w').
Proof.
  destruct (destroyImages false 2 true shared_world) as [r w'] eqn:E.
  destruct (destroyImages_spares_builds false 2 true shared_world r w' shared_rows_ok E) as (tr & Ht & Hp).
  change (W_trace w' = tr) in Ht. rewrite <- Ht in Hp. split_and!; [| |exact Hp].
  - vm_compute in E. injection E as <- _. reflexivity.
  - vm_compute in E. injection E as _ <-. reflexivity.
Defined.

(** ** What is finalized is what is read back *)

Lemma rows_sorted {A} (m : gmap Z A) : StronglySorted rowid_le (rows m).
Proof. apply StronglySorted_merge_sort; unfold rowid_le; [intros x y z; lia|intros x y; lia]. Qed.

Lemma freshRowid_above {A} (m : gmap Z A) k v : m !! k = Some v -> k < freshRowid m.
Proof.
  unfold freshRowid. cut (forall k v, m !! k = Some v -> k <= map_fold (fun k _ acc => Z.max k acc) 0 m).
  { intros H Hk. specialize (H _ _ Hk). lia. }
  apply (map_fold_weak_ind (fun acc m => forall k v, m !! k = Some v -> k <= acc)); [done|].
  intros i x m' acc Hi IH k' v'. rewrite lookup_insert. case_decide; intros; [lia|]. specialize (IH _ _ ltac:(eassumption)). lia.
Qed.
Lemma freshRowid_fresh {A} (m : gmap Z A) : m !! freshRowid m = None.
Proof. destruct (m !! freshRowid m) eqn:E; [|done]. apply freshRowid_above in E. lia. Qed.

(** A row under a fresh id comes last. *)
Lemma rows_insert_fresh {A} (m : gmap Z A) v : rows (<[freshRowid m := v]> m) = rows m ++ [(freshRowid m, v)].
Proof.
  assert (forall x, x ∈ rows m -> x.1 < freshRowid m) as Hlt.
  { intros [k x] Hx%elem_of_rows. by eapply freshRowid_above. }
  apply (StronglySorted_unique_strong rowid_le).
  - intros [k1 v1] [k2 v2] H1%elem_of_rows H2 Hle Hge. unfold rowid_le in *. simpl in *.
    assert (k1 = k2) as -> by lia. apply elem_of_app in H2 as [H2|H2%list_elem_of_singleton].
    + pose proof (Hlt _ H2). simpl in *. apply elem_of_rows in H2. simpl in H2.
      rewrite lookup_insert_ne in H1 by lia. congruence.
    + simplify_eq. rewrite lookup_insert_eq in H1. congruence.
  - apply rows_sorted.
  - apply StronglySorted_app. split_and!; [|apply rows_sorted|repeat constructor].
    intros x1 x2 H1 ->%list_elem_of_singleton. unfold rowid_le. simpl. pose proof (Hlt _ H1). lia.
  - unfold rows. rewrite !merge_sort_Permutation, map_to_list_insert by apply freshRowid_fresh.
    by rewrite Permutation_cons_append.
Qed.

(** Every port of an image belongs to an image on record, as the foreign key
    has it. *)
Lemma filter_none {A} (P : A -> Prop) `{!forall x, Decision (P x)} l : Forall (fun x => ~ P x) l -> filter P l = [].
Proof. induction 1; [done|]. by rewrite filter_cons_False. Qed.
Definition image_ports_ok (d : Db) : Prop := Forall (fun x => is_Some (t_images d !! x.1)) (t_imagePorts d).

(** The images of a build, by host and ports. *)
Definition image_view (i : Image) : string * list string := (img_host i, img_ports i).

Lemma buildImages_insert build host ps d d' :
  image_ports_ok d -> let id := freshRowid (t_images d) in
  t_images d' = <[id := mkImageRow build host]> (t_images d) ->
  t_imagePorts d' = t_imagePorts d ++ (pair id <$> ps) ->
  image_view <$> buildImages build d' = (image_view <$> buildImages build d) ++ [(host, ps)].
Proof.
  intros Hok id Hi Hp. unfold buildImages. rewrite Hi, Hp. subst id. rewrite rows_insert_fresh, filter_app, !fmap_app.
  rewrite (filter_cons_True _ _ []) by done. rewrite <- !list_fmap_compose. f_equal.
  - apply list_fmap_ext. intros i [k r] Hk%list_elem_of_lookup_2. apply list_elem_of_filter in Hk as [_ Hk].
    apply elem_of_rows in Hk. simpl in Hk. apply freshRowid_above in Hk. unfold image_view. simpl. f_equal.
    rewrite filter_app, fmap_app. rewrite (filter_none (fun ip => ip.1 = k) (pair _ <$> ps)); [by rewrite app_nil_r|].
    apply Forall_fmap, Forall_true. intros p. simpl. lia.
  - simpl. unfold image_view. simpl. do 2 f_equal. rewrite filter_app, fmap_app.
    rewrite (filter_none _ (t_imagePorts d)).
    + simpl. rewrite filter_all by (apply Forall_fmap, Forall_true; done). rewrite <- list_fmap_compose. apply list_fmap_id.
    + eapply Forall_impl; [exact Hok|]. intros [k p] [r Hr] E. simpl in *. subst k. by rewrite freshRowid_fresh in Hr.
Qed.

Lemma insertPorts_spec image ports w u w' :
  insertPorts image ports w = (inr u, w') ->
  m_db (W_m w') = (m_db (W_m w)) <| t_imagePorts := t_imagePorts (m_db (W_m w)) ++ (pair image <$> ports) |> /\
  (ports <> [] -> is_Some (t_images (m_db (W_m w)) !! image)).
Proof.
  revert w. induction ports as [|p ports IH]; intros w H; cbn [insertPorts] in H.
  { apply ret_inv in H as [_ ->]. rewrite app_nil_r. split; [by destruct (m_db (W_m w))|done]. }
  apply try_inr in H as ([] & w1 & H1 & H2). apply sql_inr in H1 as (E & _ & _).
  unfold stmt, insertImagePort in E. case_decide as Hi; [|done]. injection E as E. apply IH in H2 as [H2 _].
  rewrite H2, <- E. simpl. by rewrite <- app_assoc.
Qed.

(** What [insertImages] leaves alone. *)
Definition same_build_rows (d d' : Db) : Prop :=
  t_builds d' = t_builds d /\ t_lookupData d' = t_lookupData d /\ t_challenges d' = t_challenges d.

Lemma insertImages_spec build images w u w' :
  image_ports_ok (m_db (W_m w)) -> insertImages build images w = (inr u, w') ->
  image_ports_ok (m_db (W_m w')) /\ same_build_rows (m_db (W_m w)) (m_db (W_m w')) /\
  image_view <$> buildImages build (m_db (W_m w')) =
    (image_view <$> buildImages build (m_db (W_m w))) ++ (image_view <$> images).
Proof.
  revert w. induction images as [|image images IH]; intros w Hok H; cbn [insertImages] in H.
  { apply ret_inv in H as [_ ->]. by rewrite app_nil_r. }
  apply try_inr in H as (id & w1 & H1 & H). apply sql_inr in H1 as (E & _ & _).
  unfold insertImage in E. case_decide as Hb; [|done]. injection E as E Hid.
  apply try_inr in H as ([] & w2 & H2 & H). apply insertPorts_spec in H2 as [H2 _].
  set (d := m_db (W_m w)) in *. set (d2 := m_db (W_m w2)) in *. rewrite <- E in H2. simpl in H2.
  assert (image_ports_ok d2) as Hok2.
  { unfold image_ports_ok. rewrite H2. simpl. apply Forall_app. split.
    - eapply Forall_impl; [exact Hok|]. intros x Hx. by apply is_Some_insert.
    - apply Forall_fmap, Forall_true. intros p. simpl. rewrite <- Hid, lookup_insert_eq. eauto. }
  apply IH in H as (Hok' & (Hsb & Hsl & Hsc) & Hview); [|done].
  split; [done|]. split; [unfold same_build_rows; rewrite Hsb, Hsl, Hsc; fold d2; by rewrite H2|]. rewrite Hview. fold d2.
  rewrite (buildImages_insert build (img_host image) (img_ports image) d d2); [by rewrite <- app_assoc|done|..];
    by rewrite H2, <- ?Hid.
Qed.

Lemma deleteImages_ports_ok id d : image_ports_ok d -> image_ports_ok (deleteImages id d).
Proof.
  unfold image_ports_ok. rewrite !Forall_forall. intros H x Hx. simpl in Hx.
  apply list_elem_of_filter in Hx as [Hd Hx]. destruct (H x Hx) as [r Hr]. rewrite Hr in Hd.
  rewrite deleteImages_lookup, Hr. apply bool_decide_eq_false in Hd. rewrite decide_False by done. eauto.
Qed.
Lemma deleteImages_view id d : buildImages id (deleteImages id d) = [].
Proof.
  unfold buildImages. rewrite filter_none; [done|]. apply Forall_forall. intros [k r] Hk E.
  apply elem_of_rows in Hk. cbn [fst snd] in *. rewrite deleteImages_lookup in Hk.
  destruct (t_images d !! k); [|done]. case_decide; simplify_eq.
Qed.

(** Recording a finished build is atomic and lossless.  On any failure the
    tables are as they were; on success reading the build back gives the flag,
    the lookup data, the generations and the images with their ports exactly as
    they were recorded, and its solve is forgotten. *)
Theorem finalizeBuild_roundtrip b w res w' :
  image_ports_ok (m_db (W_m w)) -> finalizeBuild b w = (res, w') ->
  match res with
  | inl _ => W_m w' = W_m w
  | inr _ =>
    o_db (W_o w') (W_tick w') = None ->
    exists got, (lookupBuildMetadata (bm_id b) w').1 = inr got /\
      bm_flag got = bm_flag b /\ bm_lookupData got = bm_lookupData b /\ bm_checksum got = bm_checksum b /\
      bm_prevChecksum got = bm_prevChecksum b /\ bm_sourceChecksum got = bm_sourceChecksum b /\
      bm_hasArtifacts got = bm_hasArtifacts b /\ bm_lastSolved got = 0 /\
      image_view <$> bm_images got = image_view <$> bm_images b
  end.
Proof.
  intros Hok H. unfold finalizeBuild in H. apply transaction_spec in H as (_ & _ & Hres); [|apply _].
  destruct res as [err|u]; [done|]. destruct Hres as (w5 & H & Hm). intros Hdb.
  apply try_inr in H as ([] & w1 & H1 & H). apply sql_inr in H1 as (E1 & _ & _).
  unfold updateBuild in E1. destruct (t_builds (m_db (W_m w)) !! bm_id b) as [row|] eqn:Hrow; [|done]. injection E1 as E1.
  apply try_inr in H as ([] & w2 & H2 & H). apply sql_inr in H2 as (E2 & _ & _). injection E2 as E2.
  apply try_inr in H as ([] & w3 & H3 & H).
  apply (sqlAll_inserts (insertLookup (bm_id b)) (pair (bm_id b)) t_lookupData
    (fun d => t_builds d = t_builds (m_db (W_m w2)) /\ image_ports_ok d)) in H3 as (Hl & Hk & _ & _);
    [|intros a d d'; unfold insertLookup; case_decide; [|done]; by intros; simplify_eq].
  apply try_inr in H as ([] & w4 & H4 & H). apply sql_inr in H4 as (E4 & _ & _). injection E4 as E4.
  assert (t_builds (m_db (W_m w3)) = t_builds (m_db (W_m w2)) /\ image_ports_ok (m_db (W_m w3))) as [Hb3 Hok3].
  { apply Hk. split; [done|]. rewrite <- E2, <- E1. exact Hok. }
  apply insertImages_spec in H as (_ & (Hsb & Hsl & _) & Hview); [|rewrite <- E4; by apply deleteImages_ports_ok].
  assert (t_builds (m_db (W_m w5)) !! bm_id b = Some (finalizeRow b row)) as Hrow5.
  { rewrite Hsb, <- E4. simpl. rewrite Hb3, <- E2, <- E1. simpl. apply lookup_insert_eq. }
  unfold lookupBuildMetadata. run. rewrite Hdb. simpl. rewrite Hm, Hrow5. eexists. split; [done|].
  unfold buildMeta. simpl. split_and!; try done.
  - rewrite Hsl, <- E4. simpl. rewrite Hl, <- E2. simpl. rewrite filter_app, fmap_app, rev_app_distr.
    rewrite (filter_none _ (filter _ (t_lookupData _)))
      by (apply Forall_forall; intros x [Hx _]%list_elem_of_filter; done).
    simpl. rewrite app_nil_r, filter_all by (by apply Forall_fmap, Forall_true).
    rewrite <- list_fmap_compose. rewrite <- (list_to_map_rev (bm_lookupData b)) at 2. do 2 f_equal. apply list_fmap_id.
  - rewrite Hview, <- E4, deleteImages_view. done.
Qed.

Definition finished_build : BuildMetadata :=
  mkBuild 1 "flag{y}" {["user" := "ann"; "pw" := "x"]} 42 "flag{%s}" 9 5 8
    [mkImage 0 "builder" [] 0; mkImage 0 "db" ["5432/tcp"%string] 0; mkImage 0 "web" ["80/tcp"; "443/tcp"]%string 0]
    true 77 "web" [] "event" DYNAMIC_INSTANCES.

Lemma finalizeBuild_roundtrip_witness :
  exists got, (lookupBuildMetadata 1 (finalizeBuild finished_build (demo_world calm)).2).1 = inr got /\
    bm_lookupData got = {["user" := "ann"; "pw" := "x"]} /\
    image_view <$> bm_images got = [("builder", []); ("db", ["5432/tcp"]); ("web", ["80/tcp"; "443/tcp"])]%string.
Proof.
  destruct (finalizeBuild finished_build (demo_world calm)) as [[err|u] w'] eqn:E; [vm_compute in E; discriminate|].
  destruct (finalizeBuild_roundtrip finished_build (demo_world calm) (inr u) w') as (got & Hg & _ & Hl & _ & _ & _ & _ & _ & Hi).
  - repeat constructor; vm_compute; eexists; reflexivity.
  - exact E.
  - vm_compute in E. injection E as _ <-. reflexivity.
  - exists got. split; [exact Hg|]. split; [exact Hl|]. exact Hi.
Defined.

(** ** The three ways to ask for stale builds *)

Lemma elem_of_buildsWhere P d id : id ∈ buildsWhere P d <-> exists r, t_builds d !! id = Some r /\ P r = true.
Proof.
  unfold buildsWhere. rewrite list_elem_of_fmap. split.
  - intros ([k r] & -> & [HP Hin]%list_elem_of_filter). apply elem_of_rows in Hin. eauto.
  - intros (r & Hr & HP). exists (id, r). split; [done|]. apply list_elem_of_filter. split; [done|]. by apply elem_of_rows.
Qed.
Lemma nonempty_elem {A} (l : list A) : l <> [] <-> exists x, x ∈ l.
Proof.
  split; [destruct l as [|x l]; [done|]; intros _; exists x; left|]. intros [x Hx] ->. by apply not_elem_of_nil in Hx.
Qed.

(** The three questions about stale builds agree: for a challenge whose
    metadata carries the source generation on record, the point lookup the
    converge makes, the set an update reads once for all challenges, and the
    list of builds to rebuild say the same of it. *)
Theorem stale_queries_agree c row w :
  db_quiet w -> t_challenges (m_db (W_m w)) !! cm_id c = Some row -> cm_sourceChecksum c = ch_sourcechecksum row ->
  exists has set ids,
    (challengeHasStaleBuild (cm_id c) w).1 = inr has /\ (staleChallengeSet w).1 = inr set /\
    (staleBuildIds c w).1 = inr ids /\
    (has = true <-> cm_id c ∈ set) /\ (has = true <-> ids <> []).
Proof.
  intros Hq Hrow Hsrc. unfold challengeHasStaleBuild, staleChallengeSet, staleBuildIds. run.
  unfold db_quiet in Hq. rewrite !Hq. simpl. set (d := m_db (W_m w)) in *.
  do 3 eexists. split_and!; [reflexivity..| |].
  all: set (P := fun r => bool_decide (b_challenge r = cm_id c) && stale d r).
  all: assert (bool_decide (0 < length (buildsWhere P d))%nat = true <-> exists id r, t_builds d !! id = Some r /\ P r = true) as ->
    by (rewrite bool_decide_eq_true; setoid_rewrite <- elem_of_buildsWhere; rewrite <- nonempty_elem;
        destruct (buildsWhere P d); simpl; split; (lia || done)).
  - rewrite elem_of_list_to_set, list_elem_of_fmap. subst P. simpl. split.
    + intros (id & r & Hr & [Hc Hs]%andb_prop). apply bool_decide_eq_true in Hc. exists (id, r). split; [done|].
      apply list_elem_of_filter. split; [done|]. by apply elem_of_rows.
    + intros ([id r] & Hc & [Hs Hin]%list_elem_of_filter). apply elem_of_rows in Hin. exists id, r. split; [done|].
      simpl in *. by rewrite bool_decide_eq_true_2.
  - rewrite nonempty_elem. setoid_rewrite elem_of_buildsWhere. subst P. simpl.
    split; intros (id & r & Hr & HP); exists id, r; (split; [done|]); revert HP; unfold stale;
      destruct (bool_decide_reflect (b_challenge r = cm_id c)) as [->|]; simpl; try done; by rewrite Hrow, Hsrc.
Qed.

Lemma stale_queries_agree_witness :
  exists has, (challengeHasStaleBuild "web" (demo_world calm)).1 = inr has /\ has = false /\
    (staleChallengeSet (demo_world calm)).1 = inr ∅.
Proof.
  destruct (t_challenges (m_db (W_m (demo_world calm))) !! "web"%string) as [row|] eqn:Hrow; [|vm_compute in Hrow; discriminate].
  destruct (stale_queries_agree (challengeMeta "web" row noParts) row (demo_world calm)) as (has & set & ids & Hh & Hs & _);
    [intros n; reflexivity|exact Hrow|reflexivity|].
  exists has. split; [exact Hh|]. vm_compute in Hh. injection Hh as <-. split; [reflexivity|vm_compute; reflexivity].
Defined.

(** ** Opening a build *)

(** The [UNIQUE(schema, format, challenge, seed)] of the table. *)
Definition builds_unique (d : Db) : Prop :=
  forall id1 id2 r1 r2, t_builds d !! id1 = Some r1 -> t_builds d !! id2 = Some r2 ->
    buildKey r1 = buildKey r2 -> id1 = id2.

Lemma buildIdFor_spec key d :
  match buildIdFor key d with
  | Some id => exists r, t_builds d !! id = Some r /\ buildKey r = key
  | None => forall id r, t_builds d !! id = Some r -> buildKey r <> key
  end.
Proof.
  unfold buildIdFor. destruct (List.find _ _) as [[id r]|] eqn:E; simpl.
  - apply List.find_some in E as [Hin Hk]. apply bool_decide_eq_true in Hk. simpl in Hk.
    apply list_elem_of_In, elem_of_rows in Hin. eauto.
  - intros id r Hr Hk. assert (In (id, r) (rows (t_builds d))) as Hin by (apply list_elem_of_In; by apply elem_of_rows).
    apply (List.find_none _ _ E) in Hin. simpl in Hin. by rewrite bool_decide_eq_true_2 in Hin.
Qed.

(** Within a table whose keys are unique, asking by key finds the row. *)
Lemma buildNamed_unique key d id r :
  builds_unique d -> t_builds d !! id = Some r -> buildKey r = key -> buildNamed key d = Some (id, r).
Proof.
  intros Hu Hr Hk. unfold buildNamed. pose proof (buildIdFor_spec key d) as Hs.
  destruct (buildIdFor key d) as [id'|]; [|by edestruct Hs].
  destruct Hs as (r' & Hr' & Hk'). assert (id' = id) as -> by (eapply Hu; eauto; congruence). by rewrite Hr.
Qed.

(** What [INSERT ... ON CONFLICT] does: exactly one row is new or has a new
    count. *)
Lemma upsertBuild_spec id r d d' :
  builds_unique d -> upsertBuild id r d = Some d' ->
  builds_unique d' /\ exists k row, t_builds d' = <[k := row]> (t_builds d) /\ buildKey row = buildKey r /\
    b_instancecount row = b_instancecount r /\
    match t_builds d !! k with
    | Some old => row = old <| b_instancecount := b_instancecount r |>
    | None => row = r /\ k = default (freshRowid (t_builds d)) id
    end.
Proof.
  intros Hu E. unfold upsertBuild in E. pose proof (buildIdFor_spec (buildKey r) d) as Hs.
  destruct (buildIdFor (buildKey r) d) as [old|].
  - destruct Hs as (o & Ho & Hk). injection E as E.
    set (row := o <| b_instancecount := b_instancecount r |>).
    assert (t_builds d' = <[old := row]> (t_builds d)) as Ha.
    { rewrite <- E. apply map_eq. intros i. cbn [t_builds]. rewrite lookup_alter, lookup_insert.
      case_decide; [subst; by rewrite Ho|done]. }
    split; [|exists old, row; by rewrite Ho]. unfold builds_unique. rewrite Ha.
    intros id1 id2 r1 r2. rewrite !lookup_insert. repeat case_decide; intros; simplify_eq; try done.
    + eapply Hu; [eassumption..|]. unfold buildKey. congruence.
    + eapply Hu; [eassumption..|]. unfold buildKey. congruence.
    + eapply Hu; [eassumption..|]. unfold buildKey. congruence.
  - case_decide as Hc; [|done]. destruct Hc as [Hf _]. injection E as <-. set (k := default _ id) in *.
    split; [|exists k, r; simpl; by rewrite Hf]. unfold builds_unique. simpl. intros id1 id2 r1 r2.
    rewrite !lookup_insert. repeat case_decide; intros; simplify_eq; try done.
    + edestruct (Hs id2 r2); [done|]. unfold buildKey. congruence.
    + edestruct (Hs id1 r1); [done|]. unfold buildKey. congruence.
    + eapply Hu; [eassumption..|]. unfold buildKey. congruence.
Qed.

Lemma upsertBuild_frame id r d d' :
  upsertBuild id r d = Some d' ->
  t_instances d' = t_instances d /\ t_challenges d' = t_challenges d /\ t_parts d' = t_parts d.
Proof. unfold upsertBuild. destruct (buildIdFor _ d); [|case_decide; [|done]]; by intros [= <-]. Qed.

Lemma stampChecksum_inv pins template b w b1 w1 :
  stampChecksum pins template b w = (b1, w1) -> W_m w1 = W_m w /\ exists sum, b1 = b <| bm_checksum := sum |>.
Proof.
  unfold stampChecksum. intros H. assert (b = b <| bm_checksum := bm_checksum b |>) as Hsame by (by destruct b).
  case_decide; [|apply ret_inv in H as [-> ->]; eauto]. step H r w2 E. apply sqlRead_inv in E as (Hm & _).
  apply ret_inv in H as [-> ->]. split; [done|]. destruct r as [e|[c|]]; eauto.
Qed.

(** Opening a build finds it or makes it, and disturbs nothing.  When it
    succeeds there is one row of that schema, format, challenge and seed, the
    one reported, with the instance count asked for; a row that was there keeps
    its id, its flag and its generations, a new one takes the id the caller
    chose (or a fresh one), and every other build is as it was. *)
Theorem openBuild_finds_or_makes pins template b w b' w' :
  builds_unique (m_db (W_m w)) -> openBuild pins template b w = (inr b', w') ->
  let d := m_db (W_m w) in let d' := m_db (W_m w') in
  builds_unique d' /\ frame (W_m w') = frame (W_m w) /\ exists row, t_builds d' = <[bm_id b' := row]> (t_builds d) /\
    buildKey row = (bm_schema b, bm_format b, bm_challenge b, bm_seed b) /\
    b_instancecount row = bm_instanceCount b /\ bm_flag b' = b_flag row /\ bm_checksum b' = b_checksum row /\
    bm_prevChecksum b' = b_prevchecksum row /\ bm_sourceChecksum b' = b_sourcechecksum row /\
    bm_hasArtifacts b' = b_hasartifacts row /\
    match t_builds d !! bm_id b' with
    | Some old => row = old <| b_instancecount := bm_instanceCount b |>
    | None => b_flag row = bm_flag b /\ (bm_id b <> 0 -> bm_id b' = bm_id b)
    end.
Proof.
  intros Hu H d d'. unfold openBuild in H. step H b1 w1 E1. apply stampChecksum_inv in E1 as (Hm1 & sum & ->).
  set (b1 := b <| bm_checksum := sum |>) in *. step H r w2 E2. destruct r as [err|u].
  { step H tk w3 E3. destruct (_ && _); [step H hold w4 E4|]; by apply ret_inv in H as [? _]. }
  apply sql_inr in E2 as (E2 & Hm2 & _). rewrite Hm1 in E2.
  destruct (upsertBuild _ _ (m_db (W_m w))) as [d2|] eqn:Eu; [|done]. injection E2 as Hd2 _.
  pose proof (upsertBuild_frame _ _ _ _ Eu) as (_ & Hf1 & Hf2). apply upsertBuild_spec in Eu as (Hu2 & k & row & Hb & Hk & Hc & Hold); [|done].
  apply try_inr in H as (found & w3 & E3 & H). apply sqlRead_inv in E3 as (Hm3 & _ & _ & Hf). simpl in Hf.
  rewrite <- Hd2 in Hf.
  rewrite (buildNamed_unique _ d2 k row) in Hf; [|done|by rewrite Hb, lookup_insert_eq|done]. subst found.
  apply ret_inv in H as [Hb' ->]. injection Hb' as ->. subst d d'. rewrite Hm3, <- Hd2. split; [done|].
  split; [unfold frame; rewrite Hm2, Hm1; simpl; by rewrite <- Hd2, Hf1, Hf2|].
  exists row. simpl. split_and!; try done. destruct (t_builds (m_db (W_m w)) !! k); [exact Hold|].
  destruct Hold as [-> ->]. split; [done|]. intros Hid. unfold chosenId. simpl. by rewrite decide_False.
Qed.

Lemma demo_unique : builds_unique (m_db (W_m (demo_world calm))).
Proof.
  assert (t_builds (m_db (W_m (demo_world calm))) =
    {[1 := mkBuildRow "flag{x}" "flag{%s}" 42 5 0 7 false 0 "web" "event" DYNAMIC_INSTANCES]}) as E
    by (vm_compute; reflexivity).
  unfold builds_unique. rewrite E. intros id1 id2 r1 r2 [<- _]%lookup_singleton_Some [<- _]%lookup_singleton_Some. done.
Qed.

Lemma openBuild_finds_or_makes_witness :
  exists b' w', openBuild 0 (fun _ => 0) (finished_build <| bm_id := 0 |> <| bm_instanceCount := 3 |>) (demo_world calm) = (inr b', w') /\
    bm_id b' = 1 /\ bm_flag b' = "flag{x}"%string /\ builds_unique (m_db (W_m w')).
Proof.
  destruct (openBuild 0 (fun _ => 0) (finished_build <| bm_id := 0 |> <| bm_instanceCount := 3 |>) (demo_world calm))
    as [[err|b'] w'] eqn:E; [vm_compute in E; discriminate|].
  exists b', w'. split; [reflexivity|].
  destruct (openBuild_finds_or_makes 0 (fun _ => 0) _ (demo_world calm) b' w' demo_unique E) as [Hu _].
  assert (bm_id b' = 1 /\ bm_flag b' = "flag{x}"%string) as [-> ->] by (vm_compute in E; injection E as <- _; split; reflexivity).
  split; [reflexivity|]. split; [reflexivity|exact Hu].
Defined.
