(* ===== verification/Converge.v ===== *)
(** * Converge: bringing a build to its number of instances

    [convergeBuildInstances], [cleanupSchemaResources] and [DeleteSchema] of
    [cork/api.go].  The first stops what is too much and launches what is
    missing; the other two release what a schema no longer names: its locked
    builds with everything that runs them. *)
From S2P Require Import Prelude Types Settings Queue Worker Database Fleet HostConfig Effects Ports Instances Images Docker Launch Lifecycle Roster Builds.
Local Open Scope Z_scope.

(** The surplus, each stopped whatever became of the others. *)
Fixpoint stopSurplus (ids : list InstanceId) : M (list error) :=
  match ids with
  | [] => mret []
  | id :: ids =>
    r ← (let? i := lookupInstanceMetadata id in stopInstance i);
    errs ← stopSurplus ids;
    mret (match r with inl err => err :: errs | inr _ => errs end)
  end.

(** The missing, up to the first that fails.  A build that was only resized
    comes without its images and is read first. *)
Fixpoint launchMissing (n : nat) (build : BuildMetadata) : M (list error) :=
  match n with
  | O => mret []
  | S n =>
    b ← (if decide (bm_images build = []) then lookupBuildMetadata (bm_id build) else ok build);
    match b with
    | inl err => mret [err]
    | inr build =>
      limits ← reader restartLimits;
      r ← newInstance build ∅ limits;
      match r with inl err => mret [err] | inr _ => launchMissing n build end
    end
  end.

(** A negative target indexes before the list: the code panics. *)
Definition convergeBuildInstances (build : BuildMetadata) (c : ChallengeMetadata) (target : Z) : M (list error) :=
  r ← getBuildInstances (bm_id build);
  match r with
  | inl err => mret [err]
  | inr instances =>
    if decide (target < 0) then mret [[OtherError "index out of range"]]
    else
      errs ← stopSurplus (drop (Z.to_nat target) instances);
      errs' ← launchMissing (Z.to_nat target - length instances) build;
      mret (errs ++ errs')
  end.

(** ** Releasing what a schema no longer names *)
Section cleanup.
Context (buildPlane : bool).

Fixpoint stopAll (ids : list InstanceId) : M (error + unit) :=
  match ids with
  | [] => ok tt
  | id :: ids =>
    let? i := lookupInstanceMetadata id in
    let? _ := stopInstance i in
    stopAll ids
  end.
Fixpoint destroyAll (ids : list BuildId) (retire : bool) : M (error + unit) :=
  match ids with
  | [] => ok tt
  | id :: ids => let? _ := destroyImages buildPlane id retire in destroyAll ids retire
  end.
Definition cleanupSchemaResources (name : string) (retire : bool) : M (error + unit) :=
  let? instances := removedSchemaInstances name in
  let? _ := stopAll instances in
  let? builds := removedSchemaBuilds name in
  destroyAll builds retire.

(** [DELETE FROM preloads WHERE schema = ?]. *)
Definition deletePreload (name : string) (d : Db) : Db := d <| t_preloads ::= (fun s => s ∖ {[name]}) |>.
Definition DeleteSchema (name : string) (retire : bool) : M (error + unit) :=
  let? _ := lockSchema name in
  let? _ := cleanupSchemaResources name retire in
  sqlExec (deletePreload name).
End cleanup.

#[global] Typeclasses Opaque stopSurplus launchMissing convergeBuildInstances stopAll destroyAll
  cleanupSchemaResources DeleteSchema.

(** ** The tables stay sound *)
Section keep_converge.
Local Abbreviation Ok := (onM tables_ok).
#[export] Instance keeps_stopSurplus ids : Keeps Ok (stopSurplus ids).
Proof. induction ids; simpl; keep. Qed.
#[export] Instance keeps_launchMissing n build : Keeps Ok (launchMissing n build).
Proof. revert build. induction n; intros; simpl; keep. Qed.
#[export] Instance keeps_convergeBuildInstances build c target : Keeps Ok (convergeBuildInstances build c target).
Proof. unfold convergeBuildInstances, getBuildInstances. keep. Qed.
#[export] Instance keeps_stopAll ids : Keeps Ok (stopAll ids).
Proof. induction ids; simpl; keep. Qed.
#[export] Instance keeps_destroyAll bp ids retire : Keeps Ok (destroyAll bp ids retire).
Proof. induction ids; simpl; keep. Qed.
#[export] Instance keeps_cleanupSchemaResources bp name retire : Keeps Ok (cleanupSchemaResources bp name retire).
Proof. unfold cleanupSchemaResources, removedSchemaInstances, removedSchemaBuilds. keep. Qed.
#[export] Instance keeps_DeleteSchema bp name retire : Keeps Ok (DeleteSchema bp name retire).
Proof. unfold DeleteSchema. keep. apply keeps_tables_exec; [|done]. intros d []. by split. Qed.
End keep_converge.

(** ** Counting

    The crew of a build: the instances a roster gives it. *)
Definition crew (b : BuildId) (R : gmap Z BuildId) : gset Z := dom (filter (fun kv => kv.2 = b) R).

Lemma elem_of_crew b R id : id ∈ crew b R <-> R !! id = Some b.
Proof.
  unfold crew. rewrite elem_of_dom. unfold is_Some. setoid_rewrite map_lookup_filter_Some. naive_solver.
Qed.
Lemma crew_instances b d : list_to_set (instancesOfBuild b d) = crew b (roster d).
Proof.
  apply set_eq. intros id. rewrite elem_of_list_to_set, instancesOfBuild_spec, elem_of_crew. unfold roster.
  rewrite lookup_fmap, fmap_Some. naive_solver.
Qed.
Lemma crew_size b d : length (instancesOfBuild b d) = size (crew b (roster d)).
Proof. rewrite <- crew_instances, size_list_to_set; [done|]. apply instancesOfBuild_NoDup. Qed.

Lemma lookupInstance_inv id w i w' :
  lookupInstanceMetadata id w = (inr i, w') ->
  im_id i = id /\ W_m w' = W_m w /\ is_Some (t_instances (m_db (W_m w)) !! id).
Proof.
  intros (d & w1 & E & H)%try_inr. apply sqlRead_inv in E as (Em & _ & _ & ->).
  destruct (t_instances _ !! id) eqn:Ei; apply ret_inv in H as [? ->]; simplify_eq. split_and!; [done|done|by eexists].
Qed.

Lemma filter_without_cons {A} (k : Z) ids (m : gmap Z A) :
  filter (fun kv => kv.1 ∉ ids) (delete k m) = filter (fun kv => kv.1 ∉ k :: ids) m.
Proof.
  apply map_eq. intros j. rewrite !map_lookup_filter, lookup_delete. case_decide as Hj; simpl.
  - subst. destruct (m !! j); simpl; [|done]. rewrite option_guard_False; [done|]. set_solver.
  - destruct (m !! j) eqn:E; simpl; [|done]. unfold guard. repeat case_decide; set_solver.
Qed.
Lemma filter_without_nil {A} (m : gmap Z A) : filter (fun kv => kv.1 ∉ []) m = m.
Proof. apply map_filter_id. intros; set_solver. Qed.

Lemma stopSurplus_roster ids R B w w' :
  steady (R, B) w -> stopSurplus ids w = ([], w') ->
  steady (filter (fun kv => kv.1 ∉ ids) R, B) w'.
Proof.
  revert R w. induction ids as [|id ids IH]; intros R w Hs H; simpl in H.
  { apply ret_inv in H as [_ ->]. by rewrite filter_without_nil. }
  step H r w1 E1. step H errs w2 E2. apply ret_inv in H as [H ->].
  destruct r as [err|u]; [done|]. subst errs.
  apply try_inr in E1 as (i & w3 & E3 & E1). pose proof (keeps_holds _ _ _ _ _ E3 Hs) as Hs3.
  apply lookupInstance_inv in E3 as (<- & _ & _).
  apply (stopInstance_roster _ _ _ _ _ _ Hs3) in E1. apply (IH _ _ E1) in E2.
  by rewrite <- filter_without_cons.
Qed.

Lemma crew_insert b b' R id :
  R !! id = None -> crew b (<[id := b']> R) = if decide (b' = b) then {[id]} ∪ crew b R else crew b R.
Proof.
  intros Hn. apply set_eq. intros k. rewrite elem_of_crew, lookup_insert.
  destruct (decide (b' = b)) as [->|Hb], (decide (id = k)) as [->|Hk].
  - set_solver.
  - rewrite elem_of_union, elem_of_crew. set_solver.
  - rewrite elem_of_crew, Hn. naive_solver.
  - by rewrite elem_of_crew.
Qed.

Lemma lookupBuild_inv id w b w' :
  lookupBuildMetadata id w = (inr b, w') ->
  W_m w' = W_m w /\ exists r, t_builds (m_db (W_m w)) !! id = Some r /\ b = buildMeta id r (m_db (W_m w)).
Proof.
  intros (d & w1 & E & H)%try_inr. apply sqlRead_inv in E as (Em & _ & _ & ->).
  destruct (t_builds _ !! id) eqn:Ei; apply ret_inv in H as [? ->]; simplify_eq. eauto.
Qed.

Lemma launchMissing_roster n build R B w w' :
  tables_ok (W_m w) -> steady (R, B) w -> launchMissing n build w = ([], w') ->
  exists R', steady (R', B) w' /\ R ⊆ R' /\
    (forall b, b <> bm_id build -> crew b R' = crew b R) /\
    size (crew (bm_id build) R') = (size (crew (bm_id build) R) + n)%nat.
Proof.
  revert build R w. induction n as [|n IH]; intros build R w Hok Hs H; simpl in H.
  { apply ret_inv in H as [_ ->]. exists R. split_and!; [done..|lia]. }
  step H b w1 E1.
  assert (tables_ok (W_m w1) /\ steady (R, B) w1 /\ match b with inr b => bm_id b = bm_id build | inl _ => True end)
    as (Hok1 & Hs1 & Hid).
  { case_decide.
    - split; [exact (keeps_gives _ _ _ _ _ E1 Hok)|]. split; [exact (keeps_holds _ _ _ _ _ E1 Hs)|].
      destruct b; [done|]. by apply lookupBuild_inv in E1 as (_ & r & _ & ->).
    - by apply ret_inv in E1 as [-> ->]. }
  destruct b as [err|b]; [by apply ret_inv in H as [? _]|].
  step H limits w2 E2. apply reader_inv in E2 as [_ ->]. step H r w2 E2.
  destruct r as [err|id]; [by apply ret_inv in H as [? _]|].
  pose proof (keeps_gives _ _ _ _ _ E2 Hok1) as Hok2.
  apply (newInstance_roster _ _ _ _ _ _ _ _ Hok1 Hs1) in E2 as [Hnew Hs2].
  apply (IH b _ w2 Hok2 Hs2) in H as (R' & Hs' & Hsub & Hoth & Hn). rewrite Hid in *.
  exists R'. split_and!; [done| | |].
  - etrans; [|exact Hsub]. by apply insert_subseteq.
  - intros b' Hb'. rewrite Hoth by done. rewrite crew_insert by done. by rewrite decide_False by congruence.
  - rewrite Hn, crew_insert, decide_True by done. rewrite size_union, size_singleton; [lia|].
    apply disjoint_singleton_l. rewrite elem_of_crew, Hnew. done.
Qed.

(** What a converge that reports no error does to the roster: the build keeps
    its oldest instances up to the target and has exactly as many as asked. *)
Lemma converge_roster build c target R B w w' :
  tables_ok (W_m w) -> steady (R, B) w -> convergeBuildInstances build c target w = ([], w') ->
  exists R', steady (R', B) w' /\ (forall b, b <> bm_id build -> crew b R' = crew b R) /\
    Z.of_nat (size (crew (bm_id build) R')) = target /\
    forall k, k ∈ take (Z.to_nat target) (instancesOfBuild (bm_id build) (m_db (W_m w))) -> k ∈ crew (bm_id build) R'.
Proof.
  intros Hok Hs H. unfold convergeBuildInstances in H. step H r w1 E1.
  pose proof (keeps_holds _ _ _ _ _ E1 Hs) as Hs1. pose proof (keeps_gives _ _ _ _ _ E1 Hok) as Hok1.
  apply sqlRead_inv in E1 as (Em & _ & _ & Hr). destruct r as [err|ids]; [by apply ret_inv in H as [? _]|].
  case_decide; [by apply ret_inv in H as [? _]|]. step H errs w2 E2. step H errs' w3 E3.
  apply ret_inv in H as [H ->]. symmetry in H. apply app_eq_nil in H as [-> ->].
  pose proof (keeps_gives _ _ _ _ _ E2 Hok1) as Hok2.
  apply (stopSurplus_roster _ _ _ _ _ Hs1) in E2.
  apply (launchMissing_roster _ _ _ _ _ _ Hok2 E2) in E3 as (R' & Hs' & Hsub & Hoth & Hn).
  destruct Hs as [_ Hv]. injection Hv as HR _.
  set (b := bm_id build) in *. set (t := Z.to_nat target) in *. rewrite <- Hr.
  assert (NoDup ids) as Hnd by (subst ids; apply instancesOfBuild_NoDup).
  assert (crew b R = list_to_set ids) as HcR by (rewrite <- HR; subst ids; symmetry; apply crew_instances).
  assert (crew b (filter (fun kv => kv.1 ∉ drop t ids) R) = list_to_set (take t ids)) as Hcf.
  { apply set_eq. intros k. rewrite elem_of_crew, elem_of_list_to_set, map_lookup_filter_Some.
    rewrite <- elem_of_crew, HcR, elem_of_list_to_set. simpl.
    rewrite <- (take_drop t ids) at 1. rewrite elem_of_app. rewrite <- (take_drop t ids) in Hnd.
    apply NoDup_app in Hnd as (_ & Hd & _). naive_solver. }
  exists R'. split_and!; [done| | |].
  - intros b' Hb'. rewrite Hoth by done. apply set_eq. intros k. rewrite !elem_of_crew, map_lookup_filter_Some. simpl.
    split; [naive_solver|]. intros Hk. split; [done|].
    intros Hin. assert (k ∈ crew b R) as Hc by (rewrite HcR, elem_of_list_to_set; by eapply subseteq_drop).
    apply elem_of_crew in Hc. congruence.
  - rewrite Hn, Hcf, size_list_to_set by (eapply sublist_NoDup; [done|apply sublist_take]).
    rewrite length_take. subst t. lia.
  - intros k Hk. apply elem_of_crew. eapply lookup_weaken; [|exact Hsub]. apply elem_of_crew.
    by rewrite Hcf, elem_of_list_to_set.
Qed.

(** A converge that reports no error reached its target: the build has
    exactly the instances asked for, the oldest of those it had kept their
    place, and no other build gained or lost one -- as long as no worker is
    removed while it runs. *)
Theorem converge_reaches_target build c target w w' :
  tables_ok (W_m w) -> unmolested (W_o w) -> convergeBuildInstances build c target w = ([], w') ->
  let before := instancesOfBuild (bm_id build) (m_db (W_m w)) in
  let after := instancesOfBuild (bm_id build) (m_db (W_m w')) in
  Z.of_nat (length after) = target /\ take (Z.to_nat target) before ⊆ after /\
  (forall b id, b <> bm_id build ->
     id ∈ instancesOfBuild b (m_db (W_m w')) <-> id ∈ instancesOfBuild b (m_db (W_m w))).
Proof.
  intros Hok Hun H. assert (steady (view (W_m w)) w) as Hs by done.
  apply (converge_roster _ _ _ _ _ _ _ Hok Hs) in H as (R' & [_ Hv] & Hoth & Hn & Hkept). injection Hv as HR _.
  rewrite <- HR in *. cbv zeta. split_and!.
  - by rewrite crew_size.
  - intros k Hk. apply (elem_of_list_to_set (C := gset Z)). rewrite crew_instances. by apply Hkept.
  - intros b' k Hb'. by rewrite <- !(elem_of_list_to_set (C := gset Z)), !crew_instances, Hoth.
Qed.

(** A build with one image, brought from nothing to two instances. *)
Definition web : ChallengeMetadata := challengeMeta "web" (mkChallengeRow "Web" "" "custom" "" "" 7 9 "/c/web" false false 1 "" 1) noParts.
Lemma demo_world_ok o : tables_ok (W_m (demo_world o)).
Proof. split; [exact demo_ok|]. intros _. constructor. Qed.
Lemma converge_reaches_target_witness :
  exists w', convergeBuildInstances demo_build web 2 (demo_world calm) = ([], w') /\
    length (instancesOfBuild 1 (m_db (W_m w'))) = 2%nat.
Proof.
  destruct (convergeBuildInstances demo_build web 2 (demo_world calm)) as [r w'] eqn:E. exists w'.
  assert (r = []) as -> by (vm_compute in E; congruence). split; [reflexivity|].
  destruct (converge_reaches_target demo_build web 2 (demo_world calm) w' (demo_world_ok calm)) as (Hn & _ & _);
    [intros n; constructor|exact E|].
  apply Nat2Z.inj. exact Hn.
Defined.

(** ** Releasing a schema *)

Lemma stopAll_roster ids R B w u w' :
  steady (R, B) w -> stopAll ids w = (inr u, w') -> steady (filter (fun kv => kv.1 ∉ ids) R, B) w'.
Proof.
  revert R w. induction ids as [|id ids IH]; intros R w Hs H; simpl in H.
  { apply ret_inv in H as [_ ->]. by rewrite filter_without_nil. }
  apply try_inr in H as (i & w1 & E1 & H). pose proof (keeps_holds _ _ _ _ _ E1 Hs) as Hs1.
  apply lookupInstance_inv in E1 as (<- & _ & _). apply try_inr in H as (u1 & w2 & E2 & H).
  apply (stopInstance_roster _ _ _ _ _ _ Hs1) in E2. apply (IH _ _ E2) in H. by rewrite <- filter_without_cons.
Qed.

Lemma removeBuildMetadata_view id R B w u w' :
  steady (R, B) w -> removeBuildMetadata id w = (inr u, w') -> steady (R, delete id B) w'.
Proof.
  intros [Hs Hv] H. unfold removeBuildMetadata in H. apply transaction_spec in H as (Ho & _ & w1 & H & Hm); [|apply _].
  apply try_inr in H as (u1 & w2 & E & H). apply sql_inr in E as (E & _ & _). apply sql_inr in H as (H & _ & _).
  injection E as E _. unfold stmt, deleteBuild in H. case_decide; simplify_eq/=.
  split; [by rewrite Ho|]. unfold view in *. rewrite Hm. simplify_eq. rewrite <- H. simpl. rewrite <- E. done.
Qed.
Lemma destroyImages_view bp id retire R B w u w' :
  steady (R, B) w -> destroyImages bp id retire w = (inr u, w') -> steady (R, delete id B) w'.
Proof.
  intros Hs H. unfold destroyImages in H. apply try_inr in H as (b & w1 & E1 & H).
  pose proof (keeps_holds _ _ _ _ _ E1 Hs) as Hs1. apply try_inr in H as (u1 & w2 & E2 & H).
  apply (removeBuildMetadata_view _ _ _ _ _ _ Hs1) in E2 as Hs2.
  refine (keeps_holds (steady (R, delete id B)) _ _ _ _ H Hs2). keep.
Qed.
Lemma destroyAll_view bp ids retire R B w u w' :
  steady (R, B) w -> destroyAll bp ids retire w = (inr u, w') -> steady (R, filter (fun kv => kv.1 ∉ ids) B) w'.
Proof.
  revert B w. induction ids as [|id ids IH]; intros B w Hs H; simpl in H.
  { apply ret_inv in H as [_ ->]. by rewrite filter_without_nil. }
  apply try_inr in H as (u1 & w1 & E & H). apply (destroyImages_view _ _ _ _ _ _ _ _ Hs) in E.
  apply (IH _ _ E) in H. by rewrite <- filter_without_cons.
Qed.

(** A row a converge or a delete releases: one of the schema, still locked. *)
Definition released (name : string) (r : buildRow) : bool :=
  bool_decide (b_schema r = name) && bool_decide (b_instancecount r = LOCKED).
Definition releasedBuild (name : string) (B : gmap Z buildRow) (b : BuildId) : bool :=
  match B !! b with Some r => released name r | None => false end.

Lemma filter_listed {A} (P : A -> bool) (ids : list Z) (m : gmap Z A) :
  (forall k a, m !! k = Some a -> k ∈ ids <-> P a = true) ->
  filter (fun kv => kv.1 ∉ ids) m = filter (fun kv => P kv.2 = false) m.
Proof. intros H. apply map_filter_ext. intros k a Hk. simpl. rewrite (H k a Hk). by destruct (P a). Qed.

Lemma cleanup_view bp name retire R B w u w' :
  steady (R, B) w -> cleanupSchemaResources bp name retire w = (inr u, w') ->
  steady (filter (fun kv => releasedBuild name B kv.2 = false) R, filter (fun kv => released name kv.2 = false) B) w'.
Proof.
  intros Hs H. unfold cleanupSchemaResources in H. apply try_inr in H as (is_ & w1 & E1 & H).
  pose proof (keeps_holds _ _ _ _ _ E1 Hs) as Hs1. apply sqlRead_inv in E1 as (_ & _ & _ & Hi).
  apply try_inr in H as (u1 & w2 & E2 & H). apply (stopAll_roster _ _ _ _ _ _ Hs1) in E2 as Hs2.
  apply try_inr in H as (bs & w3 & E3 & H). pose proof (keeps_holds _ _ _ _ _ E3 Hs2) as Hs3.
  apply sqlRead_inv in E3 as (_ & _ & _ & Hb). apply (destroyAll_view _ _ _ _ _ _ _ _ Hs3) in H.
  destruct Hs as [_ Hv]. destruct Hs2 as [_ Hv2]. injection Hv as HR HB. injection Hv2 as _ HB2.
  rewrite <- (filter_listed (releasedBuild name B) is_ R), <- (filter_listed (released name) bs B); [done| |].
  - intros k r Hr. subst bs. unfold buildsWhere. rewrite HB2, list_elem_of_fmap. split.
    + intros ([k' r'] & -> & [Hrel Hin]%list_elem_of_filter). apply elem_of_rows in Hin. simpl in *. by simplify_eq.
    + intros Hrel. exists (k, r). split; [done|]. apply list_elem_of_filter. split; [done|by apply elem_of_rows].
  - intros k b Hk. subst is_. rewrite <- HR in Hk. unfold roster in Hk. rewrite lookup_fmap, fmap_Some in Hk.
    destruct Hk as (r & Hr & ->). rewrite list_elem_of_fmap, HB. split.
    + intros ([k' r'] & -> & [Hrel Hin]%list_elem_of_filter). apply elem_of_rows in Hin. simpl in *. by simplify_eq.
    + intros Hrel. exists (k, r). split; [done|]. apply list_elem_of_filter. split; [exact Hrel|by apply elem_of_rows].
Qed.

(** Deleting a schema leaves nothing of it and takes nothing else: when it
    reports success, the builds on record are exactly those of the other
    schemas, unchanged, the instances exactly those of the other schemas'
    builds, and its preload is gone -- as long as no worker is removed while it
    runs. *)
Theorem DeleteSchema_clears bp name retire w u w' :
  unmolested (W_o w) -> DeleteSchema bp name retire w = (inr u, w') ->
  let d := m_db (W_m w) in let d' := m_db (W_m w') in
  (forall id r, t_builds d' !! id = Some r <-> t_builds d !! id = Some r /\ b_schema r <> name) /\
  (forall id b, id ∈ instancesOfBuild b d' <->
     id ∈ instancesOfBuild b d /\ (forall r, t_builds d !! b = Some r -> b_schema r <> name)) /\
  name ∉ t_preloads d'.
Proof.
  intros Hun H. unfold DeleteSchema in H. apply try_inr in H as (u1 & w1 & E1 & H).
  apply sql_inr in E1 as (E1 & _ & Ho1). injection E1 as E1 _.
  assert (steady (roster (m_db (W_m w)), t_builds (lockSchemaRows name (m_db (W_m w)))) w1) as Hs1
    by (split; [by rewrite Ho1|]; unfold view; by rewrite <- E1).
  apply try_inr in H as (u2 & w2 & E2 & H). apply (cleanup_view _ _ _ _ _ _ _ _ Hs1) in E2 as [_ Hv].
  apply sql_inr in H as (H & _ & _). injection H as H _. injection Hv as HR HB. cbv zeta.
  assert (forall b, releasedBuild name (t_builds (lockSchemaRows name (m_db (W_m w)))) b = false <->
    forall r, t_builds (m_db (W_m w)) !! b = Some r -> b_schema r <> name) as Hrel.
  { intros b. unfold releasedBuild, released. simpl. rewrite lookup_fmap.
    destruct (t_builds _ !! b) as [r|]; simpl; [|naive_solver].
    case_decide; simpl; repeat case_bool_decide; naive_solver. }
  split_and!.
  - intros id r. rewrite <- H. simpl. rewrite HB, map_lookup_filter_Some, lookup_fmap, fmap_Some. simpl. split.
    + intros [(r0 & Hr0 & ->) Hf]. unfold released in Hf. revert Hf. case_decide; simpl; repeat case_bool_decide; naive_solver.
    + intros [Hr Hn]. split; [exists r; split; [done|by rewrite decide_False]|]. unfold released. by case_bool_decide.
  - intros id b. rewrite <- !(elem_of_list_to_set (C := gset Z)), !crew_instances, !elem_of_crew, <- Hrel.
    rewrite <- H. change (roster (deletePreload name (m_db (W_m w2)))) with (roster (m_db (W_m w2))).
    rewrite HR, map_lookup_filter_Some. done.
  - rewrite <- H. simpl. set_solver.
Qed.

Lemma DeleteSchema_clears_witness :
  exists w', DeleteSchema false "event" true (port_world calm) = (inr tt, w') /\ 
    t_builds (m_db (W_m w')) !! 1 = None /\ 1 ∉ instancesOfBuild 1 (m_db (W_m w')).
Proof.
  destruct (DeleteSchema false "event" true (port_world calm)) as [r w'] eqn:E. exists w'.
  assert (r = inr tt) as -> by (vm_compute in E; congruence). split; [reflexivity|].
  destruct (DeleteSchema_clears false "event" true (port_world calm) tt w') as (Hb & Hi & _);
    [intros n; constructor|exact E|]. split.
  - destruct (t_builds (m_db (W_m w')) !! 1) as [r|] eqn:Er; [|reflexivity].
    apply Hb in Er as [Er Hn]. vm_compute in Er. injection Er as <-. by destruct Hn.
  - intros Hin%Hi. destruct Hin as [_ Hn]. by eapply Hn; [vm_compute; reflexivity|].
Defined.
