(* ===== verification/Builder.v ===== *)
(** * Builder: making the images of a build

    [executeBuild] of [cork/docker.go] with what it calls: [registryTagExists]
    ([cork/registry.go]), [publishImages], [validateBuild] ([cork/loader.go])
    and [purgeBuiltImages] ([cork/purge.go]).  The images of a build are
    resolved against the registry, built where it does not serve them, the
    flag and the artifacts are copied out of one of them, the result is
    validated, and only then are images pushed: the registry is write-once.

    The daemon decides what a build and a copy come to; [o_tar] is the tree it
    copies out. *)
From S2P Require Import Prelude Types Settings Text Artifacts Queue Worker Database Fleet HostConfig Effects Ports Instances Images Docker Launch Lifecycle Roster Builds.
Local Open Scope Z_scope.

(** ** References in a challenge's texts

    What [urlRe] and [lookupRe] find: double braces around [url("<file>")] or
    [lookup("<key>")], either kind of quote, space around. *)
Definition isSpace (c : ascii) : bool :=
  let n := nat_of_ascii c in (n =? 32)%nat || (n =? 9)%nat || (n =? 10)%nat || (n =? 12)%nat || (n =? 13)%nat.
Definition isWord (c : ascii) : bool :=
  let n := nat_of_ascii c in
  ((48 <=? n)%nat && (n <=? 57)%nat) || ((65 <=? n)%nat && (n <=? 90)%nat) || ((97 <=? n)%nat && (n <=? 122)%nat) || (n =? 95)%nat.
Definition isFilename (c : ascii) : bool := isWord c || bool_decide (c = "."%char) || bool_decide (c = "-"%char).
Definition isQuote (c : ascii) : bool := (nat_of_ascii c =? 34)%nat || (nat_of_ascii c =? 39)%nat.

(** The longest prefix in a class, and the rest. *)
Fixpoint spanChars (P : ascii -> bool) (s : string) : string * string :=
  match s with
  | String c s' => if P c then let '(a, b) := spanChars P s' in (String c a, b) else (EmptyString, s)
  | EmptyString => (EmptyString, EmptyString)
  end.
Definition cutQuote (s : string) : option string :=
  match s with String c s => if isQuote c then Some s else None | EmptyString => None end.
Definition skipSpace (s : string) : string := (spanChars isSpace s).2.

(** A match that starts here: the argument and what follows. *)
Definition matchRef (function : string) (class : ascii -> bool) (s : string) : option (string * string) :=
  s ← CutPrefix s "{{";
  s ← CutPrefix (skipSpace s) (function +:+ "(")%string;
  s ← cutQuote s;
  let '(arg, s) := spanChars class s in
  if decide (arg = ""%string) then None
  else
    s ← cutQuote s;
    s ← CutPrefix s ")";
    s ← CutPrefix (skipSpace s) "}}";
    Some (arg, s).
(** All matches, leftmost first; the length of the text is fuel enough. *)
Fixpoint findRefs (fuel : nat) (function : string) (class : ascii -> bool) (s : string) : list string :=
  match fuel, s with
  | S fuel, String _ rest =>
    match matchRef function class s with
    | Some (arg, s) => arg :: findRefs fuel function class s
    | None => findRefs fuel function class rest
    end
  | _, _ => []
  end.
Definition urlRefs (s : string) : list string := findRefs (String.length s) "url" isFilename s.
Definition lookupRefs (s : string) : list string := findRefs (String.length s) "lookup" isWord s.

Inductive problem :=
| UnknownArtifact (file : string)
| UnknownLookup (key : string)
| UnreferencedArtifact (file : string)
| UnreferencedLookup (key : string).

(** [slices.Sorted]. *)
Definition string_le (a b : string) : Prop := String.leb a b = true.
#[export] Instance string_le_dec : RelDecision string_le.
Proof. intros a b. unfold string_le. apply _. Defined.
Definition sorted (s : gset string) : list string := merge_sort string_le (elements s).

(** Every problem, in the order they are reported. *)
Definition validateBuild (c : ChallengeMetadata) (b : BuildMetadata) (files : list string) : list problem :=
  let known : gset string := list_to_set files in
  let keys : gset string := dom (bm_lookupData b) in
  let texts := cm_description c :: cm_details c :: cm_hints c in
  let used : gset string := list_to_set (mjoin (urlRefs <$> texts)) in
  let looked : gset string := list_to_set (mjoin (lookupRefs <$> texts)) in
  mjoin ((fun s => (UnknownArtifact <$> filter (fun f => f ∉ known) (urlRefs s)) ++
                   (UnknownLookup <$> filter (fun k => k ∉ keys) (lookupRefs s))) <$> texts) ++
  (UnreferencedArtifact <$> sorted (known ∖ used)) ++
  (UnreferencedLookup <$> sorted (keys ∖ looked)).

(** ** The registry *)

(** [manifestUnknown]: the registry's own words for a missing manifest. *)
Definition manifestUnknown : sentinel := OtherError "manifest unknown".
Definition absent (err : error) : bool := IsNotFound err || errors_Is err manifestUnknown.

(** [registryTagExists] through [retryRegistry]: asked again, [k] more times,
    while it fails without an answer. *)
Fixpoint askRegistry (k : nat) (name : string) : M (error + bool) :=
  r ← docker None (DistributionInspect name);
  match r with
  | inr _ => ok true
  | inl err => if absent err then ok false
               else match k with O => fail err | S k => askRegistry k name end
  end.
Definition registryAttempts : nat := 3.
Definition registryTagExists (name : string) : M (error + bool) := askRegistry (pred registryAttempts) name.

(** What the registry serves of a build before anything is built. *)
Fixpoint resolveHosts (registry : string) (c : ChallengeMetadata) (b : BuildMetadata) (hosts : list HostInfo)
    (present : gmap string bool) : M (error + gmap string bool) :=
  match hosts with
  | [] => ok present
  | h :: hosts =>
    if decide (hi_name h = "builder"%string) then resolveHosts registry c b hosts present
    else
      let name := instanceImageName registry (cm_id c) b (mkImage 0 (hi_name h) [] 0) in
      let? inRegistry := registryTagExists name in
      resolveHosts registry c b hosts (<[name := inRegistry]> present)
  end.
Definition isPresent (present : gmap string bool) (name : string) : bool := default false (present !! name).

(** [publishImages]: the error, and the tags pushed before it. *)
Fixpoint publishImages (registry : string) (c : ChallengeMetadata) (b : BuildMetadata) (present : gmap string bool)
    (images : list Image) (pushed : list string) : M (option error * list string) :=
  match images with
  | [] => mret (None, pushed)
  | image :: images =>
    let name := instanceImageName registry (cm_id c) b image in
    if bool_decide (img_host image = "builder"%string) || isPresent present name
    then publishImages registry c b present images pushed
    else
      r ← docker None (ImagePush name);
      match r with
      | inl err => mret (Some err, pushed)
      | inr _ => publishImages registry c b present images (pushed ++ [name])
      end
  end.

(** ** Building *)
Section builder.
Context (basePins : Z) (template : string -> Z) (limits : artifactLimits).

(** A host's image with the ports the challenge exposes on it. *)
Definition hostImage (c : ChallengeMetadata) (h : HostInfo) : Image :=
  mkImage 0 (hi_name h)
    ((fun kv => String.append (pretty (pi_port kv.2)) "/tcp") <$>
     filter (fun kv => pi_host kv.2 = hi_name h) (map_to_list (cm_portMap c))) 0.

(** One image after the other: served already (and pulled if this build copies
    from it), or built.  [buildImage] is the one copied from. *)
Fixpoint buildHosts (registry : string) (c : ChallengeMetadata) (b : BuildMetadata) (present : gmap string bool)
    (hosts : list HostInfo) (images : list Image) (buildImage : string) : M (error + (list Image * string)) :=
  match hosts with
  | [] => ok (images, buildImage)
  | h :: hosts =>
    let image := hostImage c h in
    let name := instanceImageName registry (cm_id c) b image in
    let buildImage := if bool_decide (hi_name h = "builder"%string) ||
                         (bool_decide (hi_name h = "challenge"%string) && bool_decide (buildImage = ""%string))
                      then name else buildImage in
    let? _ := (if isPresent present name then
                 if decide (name = buildImage) then pullImage None name else ok tt
               else
                 e ← ask o_fs;                                  (* opening the build context *)
                 match e with
                 | Some err => fail err
                 | None => docker None (ImageBuild name (hi_target h))
                 end) in
    buildHosts registry c b present hosts (images ++ [image]) buildImage
  end.

Record extracted := mkExtracted {
  x_flag : string; x_lookups : gmap string string; x_files : list string; x_staged : bool }.
(** The tree copied out of the image, entry by entry. *)
Fixpoint readTar (entries : list tarEntry) (x : extracted) : error + extracted :=
  match entries with
  | [] => inr x
  | TarMetadata (inl err) :: _ => inl err
  | TarMetadata (inr m) :: entries =>
    match m !! "flag"%string with
    | None => inl [OtherError "build metadata missing the flag"]
    | Some flag => readTar entries (mkExtracted flag (delete "flag"%string m) (x_files x) (x_staged x))
    end
  | TarArtifacts opening es nextErr closing :: entries =>
    match cacheArtifacts limits opening es nextErr closing with
    | inl err => inl err
    | inr (files, _) => readTar entries (mkExtracted (x_flag x) (x_lookups x) files true)
    end
  | TarOther :: entries => readTar entries x
  end.

Fixpoint removeImages (names : list string) : M unit :=
  match names with
  | [] => mret tt
  | name :: names => _ ← docker None (ImageRemove name); removeImages names
  end.
Fixpoint deleteTags (names : list string) : M unit :=
  match names with
  | [] => mret tt
  | name :: names => _ ← docker None (RegistryDelete name); deleteTags names
  end.

(** The failure block: the staged archive, the container, then the failed
    generation's images and the tags this build pushed, unless some row still
    resolves to them. *)
Definition abandonBuild (registry cid : string) (staged : bool) (b : BuildMetadata) (pushed : list string) : M unit :=
  (if staged then _ ← ask o_fs; mret tt else mret tt);;
  _ ← docker None (ContainerRemove cid);
  referenced ← (if decide (bm_prevChecksum b = bm_checksum b) then mret true else contentReferenced b (bm_id b));
  if referenced : bool then mret tt
  else
    removeImages ((fun image => instanceImageName registry (bm_challenge b) b image) <$> bm_images b);;
    deleteTags pushed.

(** Pushed only once the whole build has validated. *)
Definition publishValid (registry : string) (c : ChallengeMetadata) (b : BuildMetadata) (images : list Image)
    (present : gmap string bool) (files : list string) : M (option error * list string) :=
  match validateBuild c b files with
  | [] => if decide (registry = ""%string) then mret (None, []) else publishImages registry c b present images []
  | _ => mret (Some [OtherError "invalid build"], [])
  end.

(** From the copy on.  Registry, then archive: the archive is put in place only
    once every image has been pushed. *)
Definition extractAndPublish (registry cid : string) (c : ChallengeMetadata) (b : BuildMetadata)
    (images : list Image) (present : gmap string bool) : M (option error * BuildMetadata) :=
  copy ← docker None (CopyFromContainer cid);
  match copy with
  | inl err => mret (Some err, b)
  | inr _ =>
    '(entries, tarErr) ← ask o_tar;
    match readTar entries (mkExtracted "" ∅ [] false), tarErr with
    | inl err, _ | inr _, Some err => mret (Some err, b)
    | inr x, None =>
      if decide (x_flag x = ""%string) then mret (Some [OtherError "'flag' missing in metadata.json"], b)
      else
        let b := b <| bm_flag := x_flag x |> <| bm_lookupData := x_lookups x |> <| bm_images := images |>
                   <| bm_hasArtifacts := bool_decide (x_files x <> []) |> in
        '(err, pushed) ← publishValid registry c b images present (x_files x);
        err ← (match err with
               | None => if x_staged x then ask o_fs else mret None        (* promoting the archive *)
               | Some err => mret (Some err)
               end);
        match err with
        | None => mret (None, b)
        | Some err => abandonBuild registry cid (x_staged x) b pushed;; mret (Some err, b)
        end
    end
  end.

Definition executeBuild (c : ChallengeMetadata) (b : BuildMetadata) : M (option error * BuildMetadata) :=
  let b := b <| bm_checksum := buildContentChecksum basePins template (cm_sourceChecksum c) (bm_format b) (cm_challengeType c) |>
             <| bm_sourceChecksum := cm_sourceChecksum c |> in
  m ← getM;
  let registry := m_challengeRegistry m in
  p ← (if decide (registry = ""%string) then ok ∅ else resolveHosts registry c b (cm_hosts c) ∅);
  match p with
  | inl err => mret (Some err, b)
  | inr present =>
    r ← buildHosts registry c b present (cm_hosts c) [] "";
    match r with
    | inl err => mret (Some err, b)
    | inr (images, buildImage) =>
      if decide (buildImage = ""%string) then mret (Some [OtherError "no build image identified"], b)
      else
        let opts := if decide (m_hostOSType m = "linux"%string) then [seccompSecurityOpt (m_seccompPolicy m)] else [] in
        created ← docker None (ContainerExtract buildImage opts);
        match created with
        | inl err => mret (Some err, b)
        | inr _ =>
          cid ← ask o_cid;
          res ← extractAndPublish registry cid c b images present;
          _ ← docker None (ContainerRemove cid);            (* deferred *)
          mret res
        end
    end
  end.
End builder.

(** [purgeBuiltImages]: the builder's copies, best effort. *)
Definition purgeBuiltImages (purgeAfterPush : bool) (b : BuildMetadata) : M unit :=
  m ← getM;
  let registry := m_challengeRegistry m in
  if negb purgeAfterPush || bool_decide (registry = ""%string) then mret tt
  else removeImages ((fun image => instanceImageName registry (bm_challenge b) b image) <$> bm_images b).

#[global] Typeclasses Opaque askRegistry resolveHosts publishImages buildHosts removeImages deleteTags abandonBuild
  publishValid extractAndPublish executeBuild purgeBuiltImages.

(** ** The tables stay sound *)
Section keep_builder.
Local Abbreviation Ok := (onM tables_ok).
#[export] Instance keeps_askRegistry k name : Keeps Ok (askRegistry k name).
Proof. induction k; simpl; keep. Qed.
#[export] Instance keeps_resolveHosts registry c b hosts p : Keeps Ok (resolveHosts registry c b hosts p).
Proof. revert p. induction hosts; intros; simpl; unfold registryTagExists; keep. Qed.
#[export] Instance keeps_publishImages registry c b p images pushed : Keeps Ok (publishImages registry c b p images pushed).
Proof. revert pushed. induction images; intros; simpl; keep. Qed.
#[export] Instance keeps_buildHosts registry c b p hosts images bi : Keeps Ok (buildHosts registry c b p hosts images bi).
Proof. revert images bi. induction hosts; intros; simpl; keep. Qed.
#[export] Instance keeps_removeImages names : Keeps Ok (removeImages names).
Proof. induction names; simpl; keep. Qed.
#[export] Instance keeps_deleteTags names : Keeps Ok (deleteTags names).
Proof. induction names; simpl; keep. Qed.
#[export] Instance keeps_abandonBuild registry cid staged b pushed : Keeps Ok (abandonBuild registry cid staged b pushed).
Proof. unfold abandonBuild. keep. Qed.
#[export] Instance keeps_publishValid registry c b images p files : Keeps Ok (publishValid registry c b images p files).
Proof. unfold publishValid. keep. Qed.
#[export] Instance keeps_extractAndPublish limits registry cid c b images p :
  Keeps Ok (extractAndPublish limits registry cid c b images p).
Proof. unfold extractAndPublish. keep. Qed.
#[export] Instance keeps_executeBuild pins template limits c b : Keeps Ok (executeBuild pins template limits c b).
Proof. unfold executeBuild. keep. Qed.
#[export] Instance keeps_purgeBuiltImages purge b : Keeps Ok (purgeBuiltImages purge b).
Proof. unfold purgeBuiltImages. keep. Qed.
End keep_builder.

(** Making images leaves builds and instances alone. *)
Section aloof_builder.
Context (I : World -> Prop) {HI : Aloof I}.
Local Abbreviation Ok := I.
#[export] Instance aloof_askRegistry k name : Keeps Ok (askRegistry k name).
Proof. induction k; simpl; keep. Qed.
#[export] Instance aloof_resolveHosts registry c b hosts p : Keeps Ok (resolveHosts registry c b hosts p).
Proof. revert p. induction hosts; intros; simpl; unfold registryTagExists; keep. Qed.
#[export] Instance aloof_publishImages registry c b p images pushed : Keeps Ok (publishImages registry c b p images pushed).
Proof. revert pushed. induction images; intros; simpl; keep. Qed.
#[export] Instance aloof_buildHosts registry c b p hosts images bi : Keeps Ok (buildHosts registry c b p hosts images bi).
Proof. revert images bi. induction hosts; intros; simpl; keep. Qed.
#[export] Instance aloof_removeImages names : Keeps Ok (removeImages names).
Proof. induction names; simpl; keep. Qed.
#[export] Instance aloof_deleteTags names : Keeps Ok (deleteTags names).
Proof. induction names; simpl; keep. Qed.
#[export] Instance aloof_abandonBuild registry cid staged b pushed : Keeps Ok (abandonBuild registry cid staged b pushed).
Proof. unfold abandonBuild. keep. Qed.
#[export] Instance aloof_publishValid registry c b images p files : Keeps Ok (publishValid registry c b images p files).
Proof. unfold publishValid. keep. Qed.
#[export] Instance aloof_extractAndPublish limits registry cid c b images p :
  Keeps Ok (extractAndPublish limits registry cid c b images p).
Proof. unfold extractAndPublish. keep. Qed.
#[export] Instance aloof_executeBuild pins template limits c b : Keeps Ok (executeBuild pins template limits c b).
Proof. unfold executeBuild. keep. Qed.
#[export] Instance aloof_purgeBuiltImages purge b : Keeps Ok (purgeBuiltImages purge b).
Proof. unfold purgeBuiltImages. keep. Qed.
End aloof_builder.

Example refs_example :
  urlRefs "get {{ url('flag.zip')}} and {{lookup('k')}}" = ["flag.zip"]%string.
Proof. reflexivity. Qed.

(** ** The build that comes out

    Whatever becomes of it, it is the build that went in, stamped with the
    generation it is made from. *)
Record stamped (basePins : Z) (template : string -> Z) (c : ChallengeMetadata) (b b' : BuildMetadata) : Prop := {
  st_id : bm_id b' = bm_id b;
  st_challenge : bm_challenge b' = bm_challenge b;
  st_seed : bm_seed b' = bm_seed b;
  st_format : bm_format b' = bm_format b;
  st_schema : bm_schema b' = bm_schema b;
  st_count : bm_instanceCount b' = bm_instanceCount b;
  st_checksum : bm_checksum b' = buildContentChecksum basePins template (cm_sourceChecksum c) (bm_format b) (cm_challengeType c);
  st_source : bm_sourceChecksum b' = cm_sourceChecksum c }.
Class Returns {A} (P : A -> Prop) (e : M A) : Prop := returns w : P (e w).1.
Lemma returns_ret {A} (P : A -> Prop) a : P a -> Returns P (mret a).
Proof. by intros Ha w. Qed.
Lemma returns_bind {A B} (P : B -> Prop) (e : M A) k : (forall a, Returns P (k a)) -> Returns P (e ≫= k).
Proof. intros Hk w. unfold mbind, M_bind. destruct (e w). apply Hk. Qed.
Lemma returns_then {A B} (P : A -> Prop) (e : M A) (d : M B) : Returns P e -> Returns P (r ← e; _ ← d; mret r).
Proof. intros He w. specialize (He w). unfold mbind, M_bind. destruct (e w) as [r w1]. by destruct (d w1). Qed.

Ltac returning := repeat first
  [ apply returns_then | apply returns_bind; intros ? | apply returns_ret; by split
  | match goal with |- Returns _ (match ?x with _ => _ end) => destruct x end ].
Lemma executeBuild_stamps basePins template limits c b :
  Returns (fun r => stamped basePins template c b r.2) (executeBuild basePins template limits c b).
Proof. unfold executeBuild. returning. Qed.

(** ** What a build asks of the registry and leaves in it *)

(** The registry answered for a tag: it serves it, or it does not. *)
Definition answered (tr : list event) (name : string) (served : bool) : Prop :=
  exists e, e ∈ tr /\ ev_call e = DistributionInspect name /\
    match ev_err e with None => served = true | Some err => served = false /\ absent err = true end.
Definition pushes (e : event) : bool := match ev_call e with ImagePush _ => true | _ => false end.
Definition no_push (e : event) : Prop := pushes e = false.
Definition pushed_ok (tr : list event) (name : string) : Prop :=
  exists e, e ∈ tr /\ ev_call e = ImagePush name /\ ev_err e = None.

Lemma answered_app tr tr' name v : answered tr name v -> answered (tr ++ tr') name v.
Proof. intros (e & He & H). exists e. split; [set_solver|done]. Qed.
Lemma answered_app_r tr tr' name v : answered tr' name v -> answered (tr ++ tr') name v.
Proof. intros (e & He & H). exists e. split; [set_solver|done]. Qed.

Lemma askRegistry_spec k name w r w' :
  askRegistry k name w = (r, w') ->
  exists tr, W_trace w' = W_trace w ++ tr /\ Forall no_push tr /\
    match r with inr v => answered tr name v | inl _ => True end.
Proof.
  revert w. induction k as [|k IH]; intros w H; simpl in H; step H a w1 E;
    apply docker_result in E as (err & Ht & Ha & _ & _); subst a.
  all: destruct err as [err|]; [destruct (absent err) eqn:Eab|].
  all: try (apply ret_inv in H as [-> ->]; eexists; split; [exact Ht|]; split; [by repeat constructor|]).
  all: try done.
  all: try (eexists; split; [by apply list_elem_of_singleton|done]).
  apply IH in H as (tr & Ht' & Hp & Hr). eexists (_ :: tr). rewrite Ht', Ht, <- app_assoc. split; [done|].
  split; [by constructor|]. destruct r; [done|]. by apply (answered_app_r [_]).
Qed.

Lemma resolveHosts_spec registry c b hosts present w r w' :
  resolveHosts registry c b hosts present w = (r, w') ->
  exists tr, W_trace w' = W_trace w ++ tr /\ Forall no_push tr /\
    match r with
    | inl _ => True
    | inr p =>
      (forall name v, p !! name = Some v -> present !! name = Some v \/ answered tr name v) /\
      (forall name, is_Some (present !! name) -> is_Some (p !! name)) /\
      (forall h, h ∈ hosts -> hi_name h <> "builder"%string ->
         is_Some (p !! instanceImageName registry (cm_id c) b (mkImage 0 (hi_name h) [] 0)))
    end.
Proof.
  revert present w. induction hosts as [|h hosts IH]; intros present w H; simpl in H.
  { apply ret_inv in H as [-> ->]. exists []. rewrite app_nil_r. split_and!; [done|constructor|auto|done|set_solver]. }
  case_decide as Hb.
  { apply IH in H as (tr & Ht & Hp & Hr). exists tr. split_and!; [done..|]. destruct r as [|p]; [done|].
    destruct Hr as (H1 & H2 & H3). split_and!; [done..|]. intros h' [->|Hh]%elem_of_cons Hn; [done|auto]. }
  set (name := instanceImageName _ _ _ _) in *. unfold try in H. step H a w1 E.
  apply askRegistry_spec in E as (tr & Ht & Hp & Ha). destruct a as [err|v]; [apply ret_inv in H as [-> ->]; eauto|].
  apply IH in H as (tr' & Ht' & Hp' & Hr). exists (tr ++ tr'). rewrite Ht', Ht, <- app_assoc.
  split; [done|]. split; [by apply Forall_app|]. destruct r as [|p]; [done|]. destruct Hr as (H1 & H2 & H3). split_and!.
  - intros n v' [Hv|Hv]%H1; [|right; by apply answered_app_r]. rewrite lookup_insert in Hv.
    case_decide; simplify_eq; [right; by apply answered_app|by left].
  - intros n Hn. apply H2. rewrite lookup_insert. by case_decide.
  - intros h' [->|Hh]%elem_of_cons Hn; [|by apply H3]. apply H2. rewrite lookup_insert_eq. by eexists.
Qed.

(** A tag a push may go to. *)
Definition publishable (registry : string) (c : ChallengeMetadata) (b : BuildMetadata) (present : gmap string bool)
    (images : list Image) (name : string) : Prop :=
  exists image, image ∈ images /\ img_host image <> "builder"%string /\
    name = instanceImageName registry (cm_id c) b image /\ isPresent present name = false.

Lemma publishImages_spec registry c b present images pushed w err pushed' w' :
  publishImages registry c b present images pushed w = ((err, pushed'), w') ->
  exists tr, W_trace w' = W_trace w ++ tr /\
    Forall (fun e => exists name, ev_call e = ImagePush name /\ publishable registry c b present images name) tr /\
    (forall name, name ∈ pushed' <-> name ∈ pushed \/ pushed_ok tr name) /\
    (err = None -> forall image, image ∈ images -> img_host image <> "builder"%string ->
       let name := instanceImageName registry (cm_id c) b image in
       isPresent present name = true \/ pushed_ok tr name).
Proof.
  revert pushed w. induction images as [|image images IH]; intros pushed w H; simpl in H.
  { apply ret_inv in H as [? ->]. simplify_eq. exists []. rewrite app_nil_r.
    split_and!; [done|constructor| |set_solver]. intros name. split; [auto|]. intros [?|(e & He & _)]; set_solver. }
  set (name := instanceImageName _ _ _ _) in *.
  assert (forall tr, Forall (fun e => exists n, ev_call e = ImagePush n /\ publishable registry c b present images n) tr ->
    Forall (fun e => exists n, ev_call e = ImagePush n /\ publishable registry c b present (image :: images) n) tr) as Hmono.
  { intros tr Htr. eapply Forall_impl; [exact Htr|]. intros e (n & Hn & i & Hi & ?). exists n. split; [done|]. exists i. split; [set_solver|done]. }
  destruct (_ || _) eqn:Eskip.
  - apply IH in H as (tr & Ht & Hp & Hpush & Hall). exists tr. split_and!; [done|by apply Hmono|done|].
    intros He i [->|Hi]%elem_of_cons Hn; [|by apply Hall]. left. subst name.
    apply orb_true_iff in Eskip as [Hx|Hx]; [by apply bool_decide_eq_true in Hx|done].
  - apply orb_false_iff in Eskip as [Hnb Hnp]. apply bool_decide_eq_false in Hnb. step H a w1 E.
    apply docker_result in E as (er & Ht & Ha & _ & _). subst a.
    assert (publishable registry c b present (image :: images) name) as Hpub by (exists image; split_and!; [set_solver|done..]).
    destruct er as [er|].
    { apply ret_inv in H as [? ->]. simplify_eq. eexists [_]. split; [exact Ht|]. split_and!; [| |done].
      - apply Forall_singleton. by exists name.
      - intros n. split; [auto|]. intros [?|(e & ->%list_elem_of_singleton & _ & He)]; done. }
    apply IH in H as (tr & Ht' & Hp & Hpush & Hall). eexists (_ :: tr). rewrite Ht', Ht, <- app_assoc. split; [done|].
    split_and!.
    + constructor; [by exists name|by apply Hmono].
    + intros n. rewrite Hpush. unfold pushed_ok. setoid_rewrite elem_of_cons. setoid_rewrite elem_of_app.
      setoid_rewrite list_elem_of_singleton. split; [|naive_solver].
      intros [[?| ->]|(e & ? & ? & ?)]; [by left|right; eexists; by split; [left|]|eauto 10].
    + intros He i [->|Hi]%elem_of_cons Hn; [right; eexists; by split; [left|]|].
      destruct (Hall He i Hi Hn) as [?|(e & ? & ?)]; [by left|]. right. exists e. split; [by right|done].
Qed.

Section emits_builder.
#[export] Instance emits_pull_no_push cli name : Emits no_push (pullImage cli name).
Proof. unfold pullImage. emit. Qed.
#[export] Instance emits_buildHosts registry c b present hosts images bi :
  Emits no_push (buildHosts registry c b present hosts images bi).
Proof. revert images bi. induction hosts; intros; simpl; emit. Qed.
#[export] Instance emits_removeImages names : Emits no_push (removeImages names).
Proof. induction names; simpl; emit. Qed.
#[export] Instance emits_deleteTags names : Emits no_push (deleteTags names).
Proof. induction names; simpl; emit. Qed.
End emits_builder.

Lemma buildHosts_images registry c b present hosts images bi w images' bi' w' :
  buildHosts registry c b present hosts images bi w = (inr (images', bi'), w') ->
  images' = images ++ (hostImage c <$> hosts).
Proof.
  revert images bi w. induction hosts as [|h hosts IH]; intros images bi w H; simpl in H.
  { apply ret_inv in H as [? ->]. simplify_eq. by rewrite app_nil_r. }
  apply try_inr in H as (u & w1 & _ & H). apply IH in H. by rewrite H, <- app_assoc.
Qed.

(** The rows and the database stay as they are while images are made. *)
Definition undisturbed (builds : gmap Z buildRow) (w : World) : Prop :=
  db_quiet w /\ t_builds (m_db (W_m w)) = builds.
#[export] Instance aloof_undisturbed builds : Aloof (undisturbed builds).
Proof.
  split; unfold undisturbed, db_quiet.
  - intros w w' -> [= _ ->] _. done.
  - intros w n [Hq <-]. split; [done|]. apply run_ops_builds.
Qed.

Lemma deleteTags_spec names w u w' :
  deleteTags names w = (u, w') ->
  exists tr, W_trace w' = W_trace w ++ tr /\ forall n, (n ∈ names <-> exists e, e ∈ tr /\ ev_call e = RegistryDelete n).
Proof.
  revert w. induction names as [|name names IH]; intros w H; simpl in H.
  { apply ret_inv in H as [_ ->]. exists []. rewrite app_nil_r. split; [done|]. intros n.
    split; [by intros ?%not_elem_of_nil|]. by intros (e & ?%not_elem_of_nil & _). }
  step H r w1 E. apply docker_result in E as (err & Ht & _). apply IH in H as (tr & Ht' & Hn).
  eexists (_ :: tr). rewrite Ht', Ht, <- app_assoc. split; [done|]. intros n. rewrite elem_of_cons, Hn. split.
  - intros [->|(e & He & Hc)]; [eexists; split; [by left|done]|]. exists e. split; [by right|done].
  - intros (e & [->|He]%elem_of_cons & Hc); [left; by injection Hc|]. right. eauto.
Qed.

(** No row but the build's own resolves to the generation it is making. *)
Definition unshared (builds : gmap Z buildRow) (b : BuildMetadata) : Prop :=
  bm_prevChecksum b <> bm_checksum b /\
  forall id r, builds !! id = Some r -> id <> bm_id b ->
    resolves (bm_challenge b) (bm_seed b) (bm_checksum b) r = false.

Definition deletes (tr : list event) (name : string) : Prop := exists e, e ∈ tr /\ ev_call e = RegistryDelete name.
Definition no_delete (e : event) : Prop := match ev_call e with RegistryDelete _ => False | _ => True end.
#[export] Instance emits_removeImages_no_delete names : Emits no_delete (removeImages names).
Proof. induction names; simpl; emit. Qed.

Lemma countReferences_zero builds d b :
  t_builds d = builds -> unshared builds b -> countReferences (bm_challenge b) (bm_seed b) (bm_checksum b) (bm_id b) d = 0%nat.
Proof.
  intros <- [_ Hu]. unfold countReferences. apply length_zero_iff_nil.
  destruct (filter _ _) as [|[id r] l] eqn:E; [done|]. exfalso.
  assert ((id, r) ∈ (id, r) :: l) as Hin by set_solver. rewrite <- E in Hin.
  apply list_elem_of_filter in Hin as [[H1 H2] Hin]. apply elem_of_rows in Hin. simpl in *. by rewrite (Hu id r) in H1.
Qed.
Lemma abandonBuild_spec registry cid staged b pushed w u w' :
  abandonBuild registry cid staged b pushed w = (u, w') ->
  exists tr, W_trace w' = W_trace w ++ tr /\ Forall no_push tr /\
    (forall n, deletes tr n -> n ∈ pushed) /\
    (undisturbed (t_builds (m_db (W_m w))) w -> unshared (t_builds (m_db (W_m w))) b ->
     forall n, n ∈ pushed -> deletes tr n).
Proof.
  intros H. unfold abandonBuild in H. step H u1 w1 E1.
  assert (W_trace w1 = W_trace w /\ (forall B, undisturbed B w -> undisturbed B w1)) as [Ht1 Hk1].
  { destruct staged; [step E1 o w0 E0; unfold ask in E0; simplify_eq; apply ret_inv in E1 as [_ ->]; done|].
    by apply ret_inv in E1 as [_ ->]. }
  step H r w2 E2. apply docker_result in E2 as Hd2. destruct Hd2 as (err & Ht2 & _).
  assert (forall B, undisturbed B w -> undisturbed B w2) as Hk2.
  { intros B HB%Hk1. exact (keeps_holds _ _ _ _ _ E2 HB). }
  step H ref w3 E3.
  assert (W_trace w3 = W_trace w2 /\ (undisturbed (t_builds (m_db (W_m w))) w -> unshared (t_builds (m_db (W_m w))) b -> ref = false))
    as [Ht3 Href].
  { case_decide as Hp.
    - apply ret_inv in E3 as [-> ->]. split; [done|]. intros _ [? _]. done.
    - split; [by apply contentReferenced_inv in E3 as (_ & ? & _)|]. intros [Hq Hb]%Hk2 Hu.
      unfold contentReferenced in E3. step E3 x w4 E4. apply ret_inv in E3 as [-> _].
      apply sqlRead_inv in E4 as Hx. destruct Hx as (_ & _ & _ & Hx). destruct x as [e|n].
      + exfalso. revert E4. run. rewrite Hq. by intros.
      + subst n. by rewrite (countReferences_zero _ _ _ Hb Hu). }
  rewrite Ht1 in Ht2. destruct ref.
  - apply ret_inv in H as [_ ->]. eexists. split; [rewrite Ht3; exact Ht2|]. split; [by repeat constructor|]. split.
    + intros n (e & ->%list_elem_of_singleton & Hc). done.
    + intros Hq Hu. by specialize (Href Hq Hu).
  - step H u2 w4 E4. apply (emits_inv no_push) in E4 as Hx; [|apply _]. destruct Hx as (tr1 & Ht4 & Hp1).
    apply (emits_inv no_delete) in E4 as Hx; [|apply _]. destruct Hx as (tr1' & Ht4' & Hd1).
    rewrite Ht4 in Ht4'. apply app_inv_head in Ht4' as <-.
    apply (emits_inv no_push) in H as Hx; [|apply _]. destruct Hx as (tr2 & Ht5 & Hp2).
    apply deleteTags_spec in H as (tr2' & Ht5' & Hd2). rewrite Ht5 in Ht5'. apply app_inv_head in Ht5' as <-.
    exists ([mkEvent None (ContainerRemove cid) err] ++ tr1 ++ tr2).
    split; [rewrite Ht5, Ht4, Ht3, Ht2; by rewrite <- !app_assoc|]. split; [by apply Forall_cons; split; [|apply Forall_app]|]. split.
    + intros n (e & He & Hc). apply elem_of_app in He as [->%list_elem_of_singleton|[He|He]%elem_of_app]; [done| |].
      * rewrite Forall_forall in Hd1. specialize (Hd1 e He). unfold no_delete in Hd1. by rewrite Hc in Hd1.
      * apply Hd2. eauto.
    + intros _ _ n (e & He & Hc)%Hd2. exists e. split; [set_solver|done].
Qed.

(** What makes a build that build, and its images those images. *)
Definition same_identity (b b' : BuildMetadata) : Prop :=
  bm_id b' = bm_id b /\ bm_challenge b' = bm_challenge b /\ bm_seed b' = bm_seed b /\ bm_checksum b' = bm_checksum b /\
  bm_prevChecksum b' = bm_prevChecksum b /\ bm_sourceChecksum b' = bm_sourceChecksum b.

(** What the tail of a build does to the registry. *)
Record tail_ok (registry : string) (c : ChallengeMetadata) (b' : BuildMetadata) (present : gmap string bool)
    (images : list Image) (builds : gmap Z buildRow) (w : World) (err : option error) (tr : list event) : Prop := {
  tail_push : forall e n, e ∈ tr -> ev_call e = ImagePush n ->
    publishable registry c b' present images n /\ exists files, validateBuild c b' files = [];
  tail_done : err = None -> bm_images b' = images /\ bm_flag b' <> ""%string /\
    (registry <> ""%string -> forall image, image ∈ images -> img_host image <> "builder"%string ->
       let n := instanceImageName registry (cm_id c) b' image in isPresent present n = true \/ pushed_ok tr n);
  tail_undone : is_Some err -> undisturbed builds w -> unshared builds b' -> forall n, pushed_ok tr n -> deletes tr n;
  tail_deletes : forall n, deletes tr n -> pushed_ok tr n }.

Lemma tail_ok_none registry c b' present images builds w err :
  is_Some err -> tail_ok registry c b' present images builds w err [].
Proof.
  intros [e ->]. split; try done.
  - intros ? n ?%not_elem_of_nil. done.
  - intros _ _ _ n (? & ?%not_elem_of_nil & _). done.
  - intros n (? & ?%not_elem_of_nil & _). done.
Qed.

(** Calls that neither push nor delete, before or after, change nothing. *)
Definition mute (e : event) : Prop := no_push e /\ no_delete e.
Lemma mute_pushed tr tr' n : Forall mute tr' -> pushed_ok (tr' ++ tr) n <-> pushed_ok tr n.
Proof.
  intros Hm. rewrite Forall_forall in Hm. unfold pushed_ok. setoid_rewrite elem_of_app. split; [|naive_solver].
  intros (e & [He|He] & Hc & H); [|eauto]. destruct (Hm e He) as [Hx _]. unfold no_push, pushes in Hx. by rewrite Hc in Hx.
Qed.
Lemma mute_deletes tr tr' n : Forall mute tr' -> deletes (tr' ++ tr) n <-> deletes tr n.
Proof.
  intros Hm. rewrite Forall_forall in Hm. unfold deletes. setoid_rewrite elem_of_app. split; [|naive_solver].
  intros (e & [He|He] & Hc); [|eauto]. destruct (Hm e He) as [_ Hx]. unfold no_delete in Hx. by rewrite Hc in Hx.
Qed.
Lemma tail_ok_mute registry c b' present images builds w w1 err tr tr1 :
  Forall mute tr1 -> (undisturbed builds w -> undisturbed builds w1) ->
  tail_ok registry c b' present images builds w1 err tr -> tail_ok registry c b' present images builds w err (tr1 ++ tr).
Proof.
  intros Hm Hu [H1 H2 H3 H4]. split.
  - intros e n [He|He]%elem_of_app Hc; [|eauto]. rewrite Forall_forall in Hm. destruct (Hm e He) as [Hx _].
    unfold no_push, pushes in Hx. by rewrite Hc in Hx.
  - intros He. destruct (H2 He) as (Hi & Hf & Hs). split_and!; [done..|]. intros Hr image Hin Hn.
    destruct (Hs Hr image Hin Hn) as [?|?]; [by left|right; by apply mute_pushed].
  - intros He Hq Hs n. rewrite mute_pushed, mute_deletes by done. eauto.
  - intros n. rewrite mute_pushed, mute_deletes by done. eauto.
Qed.

Lemma publishValid_spec registry c b images present files w err pushed w' :
  publishValid registry c b images present files w = ((err, pushed), w') ->
  exists tr, W_trace w' = W_trace w ++ tr /\ (forall B, undisturbed B w -> undisturbed B w') /\
    (forall n, n ∈ pushed <-> pushed_ok tr n) /\
    Forall (fun e => exists n, ev_call e = ImagePush n /\ publishable registry c b present images n /\
                     exists files, validateBuild c b files = []) tr /\
    (err = None -> registry <> ""%string -> forall image, image ∈ images -> img_host image <> "builder"%string ->
       let n := instanceImageName registry (cm_id c) b image in isPresent present n = true \/ pushed_ok tr n).
Proof.
  intros H. unfold publishValid in H.
  assert (forall e, (registry <> ""%string -> e <> None) ->
    (mret (e, []) : M (option error * list string)) w = ((err, pushed), w') ->
    exists tr, W_trace w' = W_trace w ++ tr /\ (forall B, undisturbed B w -> undisturbed B w') /\
    (forall n, n ∈ pushed <-> pushed_ok tr n) /\
    Forall (fun e => exists n, ev_call e = ImagePush n /\ publishable registry c b present images n /\
                     exists files, validateBuild c b files = []) tr /\
    (err = None -> registry <> ""%string -> forall image, image ∈ images -> img_host image <> "builder"%string ->
       let n := instanceImageName registry (cm_id c) b image in isPresent present n = true \/ pushed_ok tr n)) as Hnone.
  { intros e He [? ->]%ret_inv. simplify_eq. exists []. rewrite app_nil_r.
    split_and!; [done|done| |constructor|intros Hn Hr; by destruct (He Hr)].
    intros n. split; [by intros ?%not_elem_of_nil|by intros (? & ?%not_elem_of_nil & _)]. }
  destruct (validateBuild c b files) as [|p ps] eqn:Ev; [case_decide as Hreg|]; [by eapply Hnone; [|exact H]| |by eapply Hnone; [|exact H]].
  apply publishImages_spec in H as Hp. destruct Hp as (tr & Ht & Hf & Hn & Hok). exists tr. split_and!; [done| | | |eauto].
  - intros B HB. exact (keeps_holds _ _ _ _ _ H HB).
  - intros n. rewrite Hn. split; [|auto]. by intros [?%not_elem_of_nil|].
  - eapply Forall_impl; [exact Hf|]. intros e (n & He & Hpb). eauto 10.
Qed.

Lemma extractAndPublish_spec limits registry cid c b images present w err b' w' :
  extractAndPublish limits registry cid c b images present w = ((err, b'), w') ->
  exists tr, W_trace w' = W_trace w ++ tr /\ same_identity b b' /\
    tail_ok registry c b' present images (t_builds (m_db (W_m w))) w err tr.
Proof.
  intros H. unfold extractAndPublish in H. step H copy w1 E1. apply docker_result in E1 as Hd.
  destruct Hd as (cerr & Ht1 & Hc1 & _ & _).
  assert (forall B, undisturbed B w -> undisturbed B w1) as Hk1.
  { intros B HB. exact (keeps_holds _ _ _ _ _ E1 HB). }
  set (ce := mkEvent None (CopyFromContainer cid) cerr) in *. assert (Forall mute [ce]) as Hce by (by repeat constructor).
  assert (forall err, is_Some err -> tail_ok registry c b present images (t_builds (m_db (W_m w))) w err [ce]) as Hfail.
  { intros e He. apply (tail_ok_mute _ _ _ _ _ _ w w1 e [] [ce]); [done|auto|]. by apply tail_ok_none. }
  destruct copy as [e|u].
  { apply ret_inv in H as [? ->]. simplify_eq. exists [ce]. split_and!; [done|done|]. apply Hfail. by eexists. }
  step H tar w2 E2. destruct tar as [entries tarErr]. unfold ask in E2. injection E2 as E2 <-.
  assert (forall e, (mret (Some e, b) : M (option error * BuildMetadata)) (w1 <| W_tick ::= S |>) = (err, b', w') ->
    exists tr, W_trace w' = W_trace w ++ tr /\ same_identity b b' /\
    tail_ok registry c b' present images (t_builds (m_db (W_m w))) w err tr) as Hout.
  { intros e [? ->]%ret_inv. simplify_eq. exists [ce]. split_and!; [done|done|]. apply Hfail. by eexists. }
  destruct (readTar limits entries _) as [e|x]; [by eapply Hout|]. destruct tarErr as [e|]; [by eapply Hout|].
  case_decide as Hflag; [by eapply Hout|]. clear Hout Hfail.
  set (b1 := b <| bm_flag := _ |> <| bm_lookupData := _ |> <| bm_images := _ |> <| bm_hasArtifacts := _ |>) in *.
  step H pub w3 E3. destruct pub as [perr pushed].
  apply publishValid_spec in E3 as (tr3 & Ht3 & Hk3 & Hpush & Hpub & Hall).
  change (W_trace w3 = W_trace w1 ++ tr3) in Ht3.
  assert (forall n, deletes tr3 n -> False) as Hnodel.
  { intros n (e & He & Hc). rewrite Forall_forall in Hpub. destruct (Hpub e He) as (? & Hx & _). congruence. }
  step H perr' w4 E4.
  assert (W_trace w4 = W_trace w3 /\ (perr' = None -> perr = None) /\ (forall B, undisturbed B w3 -> undisturbed B w4))
    as (Ht4 & Hperr & Hk4).
  { destruct perr as [e|]; [apply ret_inv in E4 as [-> ->]; split_and!; auto|].
    destruct (x_staged x); [unfold ask in E4; simplify_eq; split_and!; auto|].
    apply ret_inv in E4 as [-> ->]. split_and!; auto. }
  assert (same_identity b b1) as Hid by done.
  assert (forall e n, e ∈ tr3 -> ev_call e = ImagePush n ->
    publishable registry c b1 present images n /\ exists files, validateBuild c b1 files = []) as Hpush3.
  { intros e n He Hc. rewrite Forall_forall in Hpub. destruct (Hpub e He) as (n' & Hx & ? & ?). rewrite Hx in Hc. injection Hc as ->. done. }
  destruct perr' as [e|].
  - step H u2 w5 E5. apply ret_inv in H as [? ->]. simplify_eq. apply abandonBuild_spec in E5 as (tr5 & Ht5 & Hp5 & Hd5 & Hu5).
    exists ([ce] ++ tr3 ++ tr5). split; [rewrite Ht5, Ht4, Ht3, Ht1; by rewrite <- !app_assoc|]. split; [done|].
    apply (tail_ok_mute _ _ _ _ _ _ w w1); [done|auto|]. rewrite Forall_forall in Hp5.
    assert (forall n, pushed_ok (tr3 ++ tr5) n <-> n ∈ pushed) as Hpp.
    { intros n. rewrite Hpush. split.
      - intros (ev & [He|He]%elem_of_app & Hc & Hn); [by exists ev|]. specialize (Hp5 ev He).
        unfold no_push, pushes in Hp5. by rewrite Hc in Hp5.
      - intros (ev & He & Hc). exists ev. split; [set_solver|done]. }
    split.
    + intros ev n [He|He]%elem_of_app Hc; [by eapply Hpush3|]. specialize (Hp5 ev He).
      unfold no_push, pushes in Hp5. by rewrite Hc in Hp5.
    + done.
    + intros _ Hq Hu n Hn%Hpp. apply Hk3, Hk4 in Hq. destruct Hq as [Hq Hb]. rewrite <- Hb in Hu.
      destruct (Hu5 (conj Hq eq_refl) Hu n Hn) as (ev & He & Hc). exists ev. split; [set_solver|done].
    + intros n (ev & [He|He]%elem_of_app & Hc); [by destruct (Hnodel n); exists ev|]. apply Hpp, Hd5. by exists ev.
  - apply ret_inv in H as [? ->]. simplify_eq. exists ([ce] ++ tr3).
    split; [rewrite Ht4, Ht3, Ht1; by rewrite <- !app_assoc|]. split; [done|].
    apply (tail_ok_mute _ _ _ _ _ _ w w1); [done|auto|]. split; [done| |by intros [? ?]|].
    + intros _. split_and!; [done..|]. apply Hall. by apply Hperr.
    + intros n Hn. by destruct (Hnodel n).
Qed.

Section emits_mute.
#[export] Instance mute_askRegistry k name : Emits mute (askRegistry k name).
Proof. induction k; simpl; emit. Qed.
#[export] Instance mute_resolveHosts registry c b hosts p : Emits mute (resolveHosts registry c b hosts p).
Proof. revert p. induction hosts; intros; simpl; unfold registryTagExists; emit. Qed.
#[export] Instance mute_pullImage cli name : Emits mute (pullImage cli name).
Proof. unfold pullImage. emit. Qed.
#[export] Instance mute_buildHosts registry c b p hosts images bi : Emits mute (buildHosts registry c b p hosts images bi).
Proof. revert images bi. induction hosts; intros; simpl; emit. Qed.
End emits_mute.

(** A build up to the copy, which asks the registry and makes images, and from
    there on. *)
Lemma executeBuild_phases basePins template limits c b w err b' w' :
  executeBuild basePins template limits c b w = ((err, b'), w') ->
  let registry := m_challengeRegistry (W_m w) in
  exists tr1 tr2 tr3, W_trace w' = W_trace w ++ tr1 ++ tr2 ++ tr3 /\ Forall mute tr1 /\ Forall mute tr3 /\
    bm_checksum b' = buildContentChecksum basePins template (cm_sourceChecksum c) (bm_format b) (cm_challengeType c) /\
    bm_sourceChecksum b' = cm_sourceChecksum c /\
    ((is_Some err /\ tr2 = []) \/
     exists present w1, (forall n v, present !! n = Some v -> answered tr1 n v) /\
       (registry <> ""%string -> forall h, h ∈ cm_hosts c -> hi_name h <> "builder"%string ->
          is_Some (present !! instanceImageName registry (cm_id c) b' (hostImage c h))) /\
       (undisturbed (t_builds (m_db (W_m w))) w -> undisturbed (t_builds (m_db (W_m w))) w1 /\ t_builds (m_db (W_m w1)) = t_builds (m_db (W_m w))) /\
       tail_ok registry c b' present (hostImage c <$> cm_hosts c) (t_builds (m_db (W_m w1))) w1 err tr2).
Proof.
  intros H. cbv zeta. unfold executeBuild in H. set (b1 := b <| bm_checksum := _ |> <| bm_sourceChecksum := _ |>) in *.
  step H m w0 E0. apply getM_inv in E0 as [-> ->]. set (registry := m_challengeRegistry (W_m w)) in *.
  step H p w1 E1.
  assert (exists tr, W_trace w1 = W_trace w ++ tr /\ Forall mute tr /\ (forall B, undisturbed B w -> undisturbed B w1) /\
    match p with
    | inl _ => True
    | inr p => (forall n v, p !! n = Some v -> answered tr n v) /\
        (registry <> ""%string -> forall h, h ∈ cm_hosts c -> hi_name h <> "builder"%string ->
           is_Some (p !! instanceImageName registry (cm_id c) b1 (hostImage c h)))
    end) as (tr1 & Ht1 & Hm1 & Hk1 & Hp).
  { destruct (decide (registry = ""%string)) as [Hr|Hr].
    - apply ret_inv in E1 as [-> ->]. exists []. rewrite app_nil_r. split_and!; [done|constructor|done| |done].
      intros n v Hn. by rewrite lookup_empty in Hn.
    - apply (emits_inv mute) in E1 as Hx; [|apply _]. destruct Hx as (tr & Ht & Hm). exists tr. split_and!; [done..| |].
      + intros B HB. exact (keeps_holds _ _ _ _ _ E1 HB).
      + apply resolveHosts_spec in E1 as (tr' & Ht' & _ & Hp). rewrite Ht in Ht'. apply app_inv_head in Ht' as <-.
        destruct p as [|p]; [done|]. destruct Hp as (H1 & _ & H3). split; [|by intros _].
        intros n v [Hn|Hn]%H1; [by rewrite lookup_empty in Hn|done]. }
  match goal with |- ?G => assert (forall e w2 tr, W_trace w2 = W_trace w ++ tr -> Forall mute tr ->
    (mret (Some e, b1) : M (option error * BuildMetadata)) w2 = ((err, b'), w') -> G) as Hout' end.
  { intros e w2 tr Ht Hm [? ->]%ret_inv. simplify_eq. exists tr, [], []. rewrite !app_nil_r.
    split_and!; try done. left. by split. }
  destruct p as [e|present]; [by eapply Hout'|]. destruct Hp as [Hp1 Hp2].
  step H r w2 E2. apply (emits_inv mute) in E2 as Hx; [|apply _]. destruct Hx as (tr2 & Ht2 & Hm2).
  rewrite Ht1, <- app_assoc in Ht2. assert (Forall mute (tr1 ++ tr2)) as Hm12 by (by apply Forall_app).
  destruct r as [e|[images bi]]; [by eapply Hout'|]. apply buildHosts_images in E2 as Hi. simpl in Hi. subst images.
  destruct (decide (bi = ""%string)); [by eapply Hout'|]. step H cr w3 E3. apply docker_result in E3 as Hx. destruct Hx as (ce & Ht3 & Hc3 & _ & _).
  set (ev := mkEvent _ _ ce) in *. rewrite Ht2, <- app_assoc in Ht3.
  assert (Forall mute ((tr1 ++ tr2) ++ [ev])) as Hm123 by (apply Forall_app; split; [done|]; by apply Forall_singleton).
  rewrite <- app_assoc in Ht3.
  destruct cr as [e|u]; [eapply (Hout' e w3 ((tr1 ++ tr2) ++ [ev])); [by rewrite <- app_assoc|done|exact H]|].
  step H cid w4 E4. unfold ask in E4. injection E4 as <- <-. step H res w5 E5. destruct res as [err1 b2].
  apply extractAndPublish_spec in E5 as (tr5 & Ht5 & Hid & Htail). simpl in Ht5.
  step H r6 w6 E6. apply docker_result in E6 as (ce6 & Ht6 & _). apply ret_inv in H as [? ->]. simplify_eq.
  destruct Hid as (? & ? & Hseed & Hsum & ? & Hsrc).
  eexists ((tr1 ++ tr2) ++ [ev]), tr5, [_]. split; [rewrite Ht6, Ht5, Ht3; by rewrite <- !app_assoc|].
  split_and!; [done|by repeat constructor|by rewrite Hsum|by rewrite Hsrc|]. right. exists present. eexists _. split_and!; [| | |exact Htail].
  - intros n2 v Hn. rewrite <- app_assoc. by apply answered_app, Hp1.
  - intros Hr h Hh Hb. specialize (Hp2 Hr h Hh Hb). unfold instanceImageName in *. by rewrite Hseed, Hsum.
  - intros Hq. assert (undisturbed (t_builds (m_db (W_m w))) w3) as Hq3; [|split; [exact Hq3|apply Hq3]].
    refine (keeps_holds _ _ _ _ _ E3 _). refine (keeps_holds _ _ _ _ _ E2 _). by apply Hk1.
Qed.

(** C11. A build that succeeds names only images the workers can pull: it
    carries the identity its inputs give, a flag, and one image for each host
    of the challenge, and with a registry every image that runs was found in it
    or pushed to it by this build. *)
Theorem executeBuild_serves basePins template limits c b w b' w' :
  executeBuild basePins template limits c b w = ((None, b'), w') ->
  let registry := m_challengeRegistry (W_m w) in
  exists tr, W_trace w' = W_trace w ++ tr /\
    bm_checksum b' = buildContentChecksum basePins template (cm_sourceChecksum c) (bm_format b) (cm_challengeType c) /\
    bm_sourceChecksum b' = cm_sourceChecksum c /\ bm_flag b' <> ""%string /\
    bm_images b' = hostImage c <$> cm_hosts c /\
    (registry <> ""%string -> forall image, image ∈ bm_images b' -> img_host image <> "builder"%string ->
       let n := instanceImageName registry (cm_id c) b' image in answered tr n true \/ pushed_ok tr n).
Proof.
  intros (tr1 & tr2 & tr3 & Ht & Hm1 & Hm3 & Hsum & Hsrc & Hrest)%executeBuild_phases. cbv zeta in *.
  destruct Hrest as [[[? ?] _]|(present & w1 & Hans & _ & _ & [_ Hdone _ _])]; [done|].
  destruct (Hdone eq_refl) as (Himg & Hflag & Hserved). exists (tr1 ++ tr2 ++ tr3). split_and!; [done..|].
  rewrite Himg. intros Hr image Hin Hb. destruct (Hserved Hr image Hin Hb) as [Hp|(e & He & Hp)].
  - left. apply answered_app, Hans. unfold isPresent in Hp.
    destruct (present !! _) as [[]|] eqn:E; [reflexivity|discriminate..].
  - right. exists e. split; [set_solver|done].
Qed.


(** A challenge with two hosts, built where the registry serves none of its
    images, and where it takes only the first of them. *)
Definition built_challenge : ChallengeMetadata :=
  challengeMeta "web" (mkChallengeRow "Web" "" "custom" "" "" 8 9 "/c/web" false false 1 "" 1)
    (mkParts [] [] [] [(0%nat, mkHostInfo "challenge" ""); (1%nat, mkHostInfo "db" "db")]
       [("http"%string, mkPortInfo "challenge" 80)] []).
Definition built_tag (host : string) : string :=
  instanceImageName "registry.example:5000" "web"
    (demo_build <| bm_checksum := buildContentChecksum 0 (fun _ => 0) 8 "flag{%s}" "custom" |>) (mkImage 0 host [] 0).
Definition empty_registry (refused : list string) : Oracle :=
  calm <| o_docker := fun _ c => match c with
                                 | DistributionInspect _ => Some [NotFound]
                                 | ImagePush n => if decide (n ∈ refused) then Some [OtherError "denied"] else None
                                 | _ => None
                                 end |>.
Definition someLimits : artifactLimits := mkArtifactLimits 10 1000 1000.

Lemma executeBuild_serves_witness :
  exists b' w', executeBuild 0 (fun _ => 0) someLimits built_challenge demo_build (demo_world (empty_registry [])) = ((None, b'), w') /\
    (answered (W_trace w') (built_tag "db") true \/ pushed_ok (W_trace w') (built_tag "db")).
Proof.
  destruct (executeBuild 0 (fun _ => 0) someLimits built_challenge demo_build (demo_world (empty_registry []))) as [[err b'] w'] eqn:E.
  exists b', w'. assert (err = None) as -> by (vm_compute in E; congruence). split; [reflexivity|].
  destruct (executeBuild_serves 0 (fun _ => 0) someLimits built_challenge demo_build (demo_world (empty_registry [])) b' w' E)
    as (tr & Ht & Hsum & _ & _ & Himg & Hs). change (W_trace w' = tr) in Ht. rewrite Ht.
  assert (bm_seed b' = 42) as Hseed by (vm_compute in E; injection E as <- _; reflexivity).
  assert (built_tag "db" = instanceImageName "registry.example:5000" "web" b' (hostImage built_challenge (mkHostInfo "db" "db"))) as ->.
  { unfold built_tag, instanceImageName. rewrite Hseed, Hsum. reflexivity. }
  apply Hs; [discriminate| |discriminate]. rewrite Himg. apply list_elem_of_fmap. exists (mkHostInfo "db" "db").
  split; [reflexivity|]. right. left.
Defined.

