(* ===== verification/Rebuild.v ===== *)
(** * Rebuild: moving a build to its next generation

    [reconcileBuild], [rebuildBuilds], [rotatedPrevChecksum] and
    [displacedPruneCandidate] of [cork/database_challenges.go].  A rebuild makes
    the images of a build from the challenge's current source, rotates the pair
    of generations its row retains, brings the instances onto the new one, and
    untags the generation that leaves retention once every build of the
    challenge is through. *)
From S2P Require Import Prelude Types Settings Text Artifacts Queue Worker Database Fleet HostConfig Effects Ports Instances Images Docker Launch Lifecycle Roster Builds Converge Builder.
Local Open Scope Z_scope.

Definition rotatedPrevChecksum (oldChecksum newChecksum currentPrev : Z) : Z :=
  if decide (newChecksum <> oldChecksum) then oldChecksum else currentPrev.
Definition displacedPruneCandidate (oldChecksum newChecksum displaced : Z) : bool :=
  negb (bool_decide (newChecksum = oldChecksum)) && negb (bool_decide (displaced = 0)) &&
  negb (bool_decide (displaced = newChecksum)).

(** The error is itself an [*UnknownIdentifierError]. *)
Definition isGone (err : error) : bool := match err with [UnknownIdentifier _ _] => true | _ => false end.

(** One instance of a build whose generation has changed: left to its launch,
    removed, or restarted in place and, failing that, removed. *)
Definition renewInstance (b : BuildMetadata) (c : ChallengeMetadata) (rev : gmap string string) (iid : InstanceId)
    : M (list error) :=
  r ← lookupInstanceMetadata iid;
  match r with
  | inl err => mret (if isGone err then [] else [err])
  | inr i =>
    if negb (im_isFinalized i) then mret []
    else if bool_decide (bm_instanceCount b = DYNAMIC_INSTANCES) || negb (NeedsInstance c) then
      r ← stopInstance i;
      mret (match r with inl err => [err] | inr _ => [] end)
    else
      m ← getM;
      '(err, i) ← (if bool_decide (im_worker i <> ""%string) && workerUnreachable m (im_worker i)
                   then mret (Some [OtherError "worker is not reachable"], i)
                   else restartInstance b c i rev);
      match err with
      | None => mret []
      | Some _ =>
        r ← stopInstance i;
        mret [match r with
              | inl _ => [OtherError "instance could not be restarted nor removed"]
              | inr _ => [OtherError "instance removed instead of restarted"]
              end]
      end
  end.
Fixpoint renewInstances (b : BuildMetadata) (c : ChallengeMetadata) (rev : gmap string string) (ids : list InstanceId)
    : M (list error) :=
  match ids with
  | [] => mret []
  | id :: ids =>
    errs ← renewInstance b c rev id;
    more ← renewInstances b c rev ids;
    mret (errs ++ more)
  end.

Section rebuild.
Context (basePins : Z) (template : string -> Z) (limits : artifactLimits) (buildPlane purgeAfterPush : bool).

(** The displaced generation with the tags it had, over the current hosts. *)
Definition displacedImages (registry : string) (b : BuildMetadata) (displaced : Z) : replacedImages :=
  let meta := mkBuild 0 "" ∅ (bm_seed b) (bm_format b) displaced 0 0 [] false 0 (bm_challenge b) [] "" 0 in
  mkReplaced ((fun image => instanceImageName registry (bm_challenge b) meta image) <$> bm_images b) meta.

Definition reconcileBuild (b : BuildMetadata) (c : ChallengeMetadata) (rev : gmap string string) (pruneOldImages : bool)
    : M (option replacedImages * list error) :=
  g ← storedGeneration (bm_id b);
  match g with
  | inl err => mret (None, [err])
  | inr (oldChecksum, displaced) =>
    let b := b <| bm_prevChecksum := rotatedPrevChecksum oldChecksum (bm_checksum b) displaced |> in
    f ← finalizeBuild b;
    match f with
    | inl err => mret (None, [err])
    | inr _ =>
      l ← getBuildInstances (bm_id b);
      match l with
      | inl err => purgeBuiltImages purgeAfterPush b;; mret (None, [err])
      | inr ids =>
        errs ← renewInstances b c rev ids;
        more ← (if bool_decide (0 < bm_instanceCount b) && NeedsInstance c
                then convergeBuildInstances b c (bm_instanceCount b) else mret []);
        purgeBuiltImages purgeAfterPush b;;
        m ← getM;
        mret (if pruneOldImages && displacedPruneCandidate oldChecksum (bm_checksum b) displaced
              then Some (displacedImages (m_challengeRegistry m) b displaced) else None,
              errs ++ more)
      end
    end
  end.

(** Every build in turn; one whose rebuild fails keeps its generation. *)
Fixpoint rebuildLoop (metadata c : ChallengeMetadata) (rev : gmap string string) (pruneOldImages : bool)
    (ids : list BuildId) : M (list replacedImages * list error) :=
  match ids with
  | [] => mret ([], [])
  | id :: ids =>
    r ← lookupBuildMetadata id;
    '(cand, errs) ← (match r with
                     | inl err => mret (None, [err])
                     | inr b =>
                       '(err, b) ← executeBuild basePins template limits metadata (b <| bm_flag := ""%string |>);
                       match err with
                       | Some err => mret (None, [err])
                       | None => reconcileBuild b c rev pruneOldImages
                       end
                     end);
    '(replaced, more) ← rebuildLoop metadata c rev pruneOldImages ids;
    mret (match cand with Some x => x :: replaced | None => replaced end, errs ++ more)
  end.

Definition rebuildBuilds (metadata : ChallengeMetadata) (ids : list BuildId) (pruneOldImages : bool) : M (list error) :=
  if decide (ids = []) then mret []
  else
    e ← ask o_fs;                                                 (* createBuildContext *)
    match e with
    | Some err => mret [err]
    | None =>
      r ← lookupChallengeMetadata (cm_id metadata);
      match r with
      | inl err => mret [err]
      | inr c =>
        r ← getReversePortMap (cm_id metadata);
        match r with
        | inl err => mret [err]
        | inr rev =>
          '(replaced, errs) ← rebuildLoop metadata c rev pruneOldImages ids;
          pruneReplacedImages buildPlane replaced;;
          mret errs
        end
      end
    end.
End rebuild.

#[global] Typeclasses Opaque renewInstance renewInstances reconcileBuild rebuildLoop rebuildBuilds.

(** ** The tables stay sound *)
Section keep_rebuild.
Local Abbreviation Ok := (onM tables_ok).
#[export] Instance keeps_renewInstance b c rev id : Keeps Ok (renewInstance b c rev id).
Proof. unfold renewInstance. keep. Qed.
#[export] Instance keeps_renewInstances b c rev ids : Keeps Ok (renewInstances b c rev ids).
Proof. induction ids; simpl; keep. Qed.
#[export] Instance keeps_storedGeneration id : Keeps Ok (storedGeneration id).
Proof. unfold storedGeneration. keep. Qed.
#[export] Instance keeps_reconcileBuild purge b c rev prune : Keeps Ok (reconcileBuild purge b c rev prune).
Proof. unfold reconcileBuild, getBuildInstances. keep. Qed.
#[export] Instance keeps_rebuildLoop pins template limits purge md c rev prune ids :
  Keeps Ok (rebuildLoop pins template limits purge md c rev prune ids).
Proof. induction ids; simpl; keep. Qed.
#[export] Instance keeps_rebuildBuilds pins template limits bp purge md ids prune :
  Keeps Ok (rebuildBuilds pins template limits bp purge md ids prune).
Proof. unfold rebuildBuilds. keep. Qed.
End keep_rebuild.

(** ** Instances come and go without touching a build *)
Section fixed_builds.
Context (B : gmap Z buildRow) (F : string * gmap string challengeRow * gmap string challengeParts).
Local Abbreviation Ok := (fixed B F).
Lemma fixed_sql {A} (f : Db -> option (Db * A)) :
  (forall d d' a, f d = Some (d', a) ->
     t_builds d' = t_builds d /\ t_challenges d' = t_challenges d /\ t_parts d' = t_parts d) -> Keeps Ok (sql f).
Proof.
  intros Hf w [<- <-]. unfold fixed. run. destruct (o_db _ _); simpl; [done|].
  destruct (f (m_db (W_m w))) as [[d' a]|] eqn:E; simpl; [|done].
  destruct (Hf _ _ _ E) as (H1 & H2 & H3). unfold frame. simpl. by rewrite H1, H2, H3.
Qed.
#[export] Instance fixed_retryable {A} (e : M (error + A)) : Keeps Ok e -> Keeps Ok (retryable e).
Proof. intros He. unfold retryable. keep. Qed.
#[export] Instance fixed_openInstance meta : Keeps Ok (openInstance meta).
Proof.
  unfold openInstance. keep. apply fixed_retryable, fixed_sql. by intros d d' id' (_ & _ & ->)%insertInstance_spec.
Qed.
#[export] Instance fixed_removeInstanceMetadata id : Keeps Ok (removeInstanceMetadata id).
Proof. unfold removeInstanceMetadata. apply fixed_retryable, fixed_sql. by intros d d' [] [= <-]. Qed.
#[export] Instance fixed_clearInstanceRecords id : Keeps Ok (clearInstanceRecords id).
Proof. unfold clearInstanceRecords. keep. Qed.
#[export] Instance fixed_stopInstance i : Keeps Ok (stopInstance i).
Proof. unfold stopInstance. keep. Qed.
#[export] Instance fixed_newInstance build env limits : Keeps Ok (newInstance build env limits).
Proof. unfold newInstance. keep. Qed.
#[export] Instance fixed_restartInstance build c i rev : Keeps Ok (restartInstance build c i rev).
Proof. unfold restartInstance. keep. Qed.
#[export] Instance fixed_stopSurplus ids : Keeps Ok (stopSurplus ids).
Proof. induction ids; simpl; keep. Qed.
#[export] Instance fixed_launchMissing n build : Keeps Ok (launchMissing n build).
Proof. revert build. induction n; intros; simpl; keep. Qed.
#[export] Instance fixed_convergeBuildInstances build c target : Keeps Ok (convergeBuildInstances build c target).
Proof. unfold convergeBuildInstances. keep. Qed.
#[export] Instance fixed_renewInstance b c rev id : Keeps Ok (renewInstance b c rev id).
Proof. unfold renewInstance. keep. Qed.
#[export] Instance fixed_renewInstances b c rev ids : Keeps Ok (renewInstances b c rev ids).
Proof. induction ids; simpl; keep. Qed.
#[export] Instance fixed_insertLookups id l : Keeps Ok (sqlAll (fun kv => stmt (insertLookup id kv)) l).
Proof.
  apply aloof_sqlAll. intros kv. apply fixed_sql. intros d d' []. unfold stmt, insertLookup. case_decide; [|done].
  by intros [= <-].
Qed.
#[export] Instance fixed_insertPorts image ports : Keeps Ok (insertPorts image ports).
Proof.
  induction ports; simpl; keep. apply fixed_sql. intros d d' []. unfold stmt, insertImagePort. case_decide; [|done].
  by intros [= <-].
Qed.
#[export] Instance fixed_insertImages build images : Keeps Ok (insertImages build images).
Proof.
  induction images; simpl; keep. apply fixed_sql. intros d d' id. unfold insertImage. case_decide; [|done].
  by intros [= <- _].
Qed.
End fixed_builds.

(** ** What a rebuild does to the rows *)

Lemma finalizeBuild_rows b B F w r w' :
  fixed B F w -> finalizeBuild b w = (r, w') ->
  match r with
  | inl _ => fixed B F w'
  | inr _ => exists row, B !! bm_id b = Some row /\ fixed (<[bm_id b := finalizeRow b row]> B) F w'
  end.
Proof.
  intros [HB HR] H. unfold finalizeBuild in H. apply transaction_spec in H as (_ & _ & Hr); [|apply _].
  destruct r as [err|u]; [unfold fixed; by rewrite Hr|]. destruct Hr as (w1 & H & Hm).
  apply try_inr in H as ([] & w2 & E & H). apply sql_inr in E as (E & Em & _). unfold updateBuild in E.
  rewrite <- HB. destruct (t_builds (m_db (W_m w)) !! bm_id b) as [row|] eqn:Hrow; [|done]. injection E as E.
  exists row. split; [done|]. unfold fixed at 1. rewrite Hm.
  refine (keeps_holds (fixed _ _) _ _ _ _ H _); [|split; [by rewrite <- E|rewrite <- HR; unfold frame; by rewrite <- E, Em]].
  keep; apply fixed_sql; by intros d d' [] [= <-].
Qed.

(** The generation a row serves and the one it retains; none before it was
    first built. *)
Definition generations (r : buildRow) : Z * Z :=
  if decide (b_flag r = ""%string) then (0, 0) else (b_checksum r, b_prevchecksum r).
(** The row of [b] once its new generation has landed. *)
Definition rotatedRow (b : BuildMetadata) (r : buildRow) : buildRow :=
  let '(oldChecksum, displaced) := generations r in
  finalizeRow (b <| bm_prevChecksum := rotatedPrevChecksum oldChecksum (bm_checksum b) displaced |>) r.

Lemma reconcileBuild_rows purge b c rev prune B F w cand errs w' :
  fixed B F w -> reconcileBuild purge b c rev prune w = ((cand, errs), w') ->
  (fixed B F w' /\ cand = None /\ errs <> []) \/
  exists row, B !! bm_id b = Some row /\ fixed (<[bm_id b := rotatedRow b row]> B) F w' /\
    forall r, cand = Some r -> r = displacedImages F.1.1 b (generations row).2.
Proof.
  intros HB H. unfold reconcileBuild in H. step H g w1 E1.
  assert (fixed B F w1 /\ match g with inl _ => True | inr p => exists row, B !! bm_id b = Some row /\ p = generations row end)
    as [HB1 Hg].
  { unfold storedGeneration in E1. unfold try in E1. step E1 row w2 E2. apply sqlRead_inv in E2 as (Em & _ & _ & Hr).
    destruct HB as [HB HR]. unfold fixed.
    destruct row as [err|[row|]]; apply ret_inv in E1 as [-> ->]; rewrite Em; (split; [done|]); [done| |done].
    exists row. split; [by rewrite <- HB|]. unfold generations. by case_decide. }
  destruct g as [err|[oldChecksum displaced]]; [apply ret_inv in H as [? ->]; simplify_eq; by left|].
  destruct Hg as (row & Hrow & Hgen). step H f w2 E2. apply (finalizeBuild_rows _ _ _ _ _ _ HB1) in E2.
  destruct f as [err|u]; [apply ret_inv in H as [? ->]; simplify_eq; by left|]. right.
  destruct E2 as (row' & Hrow' & HB2). simpl in Hrow', HB2. rewrite Hrow in Hrow'. injection Hrow' as <-.
  exists row. split; [done|]. unfold rotatedRow. rewrite <- Hgen. set (B2 := <[_ := _]> B) in *.
  step H l w3 E3. pose proof (keeps_holds _ _ _ _ _ E3 HB2) as HB3. destruct l as [err|ids].
  { step H u2 w4 E4. pose proof (keeps_holds _ _ _ _ _ E4 HB3) as HB4. apply ret_inv in H as [? ->]. by simplify_eq. }
  step H e1 w4 E4. pose proof (keeps_holds _ _ _ _ _ E4 HB3) as HB4.
  step H e2 w5 E5. assert (fixed B2 F w5) as HB5.
  { destruct (_ && _); [|by apply ret_inv in E5 as [_ ->]]. exact (keeps_holds _ _ _ _ _ E5 HB4). }
  step H u2 w6 E6. pose proof (keeps_holds _ _ _ _ _ E6 HB5) as HB6. step H m w7 E7. apply getM_inv in E7 as [-> ->].
  apply ret_inv in H as [? ->]. simplify_eq. split; [done|]. destruct HB6 as [_ <-]. intros r Hr.
  destruct (prune && _); by simplify_eq.
Qed.

(** What a successful build of a row's build carries: a flag, the row's
    identity, and the generation the challenge's source gives it. *)
Record renewed (basePins : Z) (template : string -> Z) (md : ChallengeMetadata) (r : buildRow) (b : BuildMetadata) : Prop := {
  rn_flag : bm_flag b <> ""%string;
  rn_challenge : bm_challenge b = b_challenge r;
  rn_seed : bm_seed b = b_seed r;
  rn_checksum : bm_checksum b = buildContentChecksum basePins template (cm_sourceChecksum md) (b_format r) (cm_challengeType md);
  rn_source : bm_sourceChecksum b = cm_sourceChecksum md }.

Lemma executeBuild_renews pins template limits md id r d w b' w' :
  executeBuild pins template limits md ((buildMeta id r d) <| bm_flag := ""%string |>) w = ((None, b'), w') ->
  bm_id b' = id /\ renewed pins template md r b'.
Proof.
  intros H. pose proof (executeBuild_stamps pins template limits md ((buildMeta id r d) <| bm_flag := ""%string |>) w) as [].
  rewrite H in *. simpl in *. split; [done|].
  apply executeBuild_phases in H as (tr1 & tr2 & tr3 & _ & _ & _ & _ & _ & Hrest). cbv zeta in Hrest.
  destruct Hrest as [[[? ?] _]|(present & w1 & _ & _ & _ & [_ Hdone _ _])]; [done|].
  by destruct (Hdone eq_refl) as (_ & Hflag & _).
Qed.

Section rebuild_rows.
Context (pins : Z) (template : string -> Z) (limits : artifactLimits) (purge : bool) (md c : ChallengeMetadata)
  (rev : gmap string string) (prune : bool) (F : string * gmap string challengeRow * gmap string challengeParts).

(** The rows a loop over [ids] leaves: those of the builds that were made moved
    on, every other row is as it was. *)
Definition moved (B B' : gmap Z buildRow) (id : BuildId) : Prop :=
  exists r b, B !! id = Some r /\ bm_id b = id /\ renewed pins template md r b /\ B' !! id = Some (rotatedRow b r).
Definition displaced_by (B : gmap Z buildRow) (ids : list BuildId) (x : replacedImages) : Prop :=
  exists id r b, id ∈ ids /\ B !! id = Some r /\ renewed pins template md r b /\ x = displacedImages F.1.1 b (generations r).2.

Lemma rebuildLoop_rows ids B w replaced errs w' :
  NoDup ids -> fixed B F w ->
  rebuildLoop pins template limits purge md c rev prune ids w = ((replaced, errs), w') ->
  exists B', fixed B' F w' /\
    (forall id, B' !! id = B !! id \/ id ∈ ids /\ moved B B' id) /\
    (errs = [] -> forall id, id ∈ ids -> moved B B' id) /\
    Forall (displaced_by B ids) replaced.
Proof.
  revert B w replaced errs. induction ids as [|id ids IH]; intros B w replaced errs Hnd HB H; simpl in H.
  { apply ret_inv in H as [? ->]. simplify_eq. exists B. split_and!; [done|auto|set_solver|constructor]. }
  apply NoDup_cons in Hnd as [Hid Hnd]. step H r w1 E1. step H x w2 E2. destruct x as [cand errs1].
  assert (exists B1, fixed B1 F w2 /\ (forall k, k <> id -> B1 !! k = B !! k) /\
    (B1 = B \/ moved B B1 id) /\ (errs1 = [] -> moved B B1 id) /\
    forall x, cand = Some x -> displaced_by B (id :: ids) x) as (B1 & HB1 & Hother & Hself & Hok & Hcand).
  { pose proof (keeps_holds _ _ _ _ _ E1 HB) as HBr. apply lookupBuildMetadata_inv in E1 as (_ & _ & Hr).
    destruct r as [err|b]; [apply ret_inv in E2 as [? ->]; simplify_eq; exists B; by split_and!; auto|].
    destruct Hr as (row & Hrow & ->). step E2 y w3 E3. destruct y as [err b'].
    pose proof (keeps_holds _ _ _ _ _ E3 HBr) as HB3. rewrite (proj1 HB) in Hrow.
    destruct err as [err|]; [apply ret_inv in E2 as [? ->]; simplify_eq; exists B; by split_and!; auto|].
    apply executeBuild_renews in E3 as [Hbid Hren].
    apply (reconcileBuild_rows _ _ _ _ _ _ _ _ _ _ _ HB3) in E2 as [(HB2 & -> & Herr)|(row' & Hrow' & HB2 & Hc)].
    - exists B. split_and!; [done|done|by left|done|done].
    - rewrite Hbid, Hrow in Hrow'. injection Hrow' as <-. rewrite Hbid in HB2. eexists. split; [exact HB2|].
      assert (moved B (<[id := rotatedRow b' row]> B) id) as Hmv by (exists row, b'; by rewrite lookup_insert_eq).
      split_and!; [intros k Hk; by rewrite lookup_insert_ne|by right|done|]. intros z Hz. exists id, row, b'. split; [by left|auto]. }
  step H z w3 E3. destruct z as [replaced2 errs2]. apply ret_inv in H as [H ->]. injection H as -> ->.
  destruct (IH B1 w2 replaced2 errs2 Hnd HB1 E3) as (B' & HB' & Hrows & Hall & Hrep).
  assert (B' !! id = B1 !! id) as Hidrow by (destruct (Hrows id) as [?|[? _]]; done).
  assert (forall k, moved B1 B' k -> k <> id -> moved B B' k) as Hlift.
  { intros k (r0 & b & H1 & H2) Hk. exists r0, b. by rewrite <- Hother. }
  assert (moved B B1 id -> moved B B' id) as Hlift1.
  { intros (r0 & b & H1 & H2 & H3 & H4). exists r0, b. by rewrite Hidrow. }
  exists B'. split_and!; [done| | |].
  - intros k. destruct (decide (k = id)) as [->|Hk].
    + rewrite Hidrow. destruct Hself as [->|Hm]; [by left|right]. split; [set_solver|auto].
    + rewrite <- (Hother k Hk). destruct (Hrows k) as [?|[? ?]]; [by left|right]. split; [set_solver|auto].
  - intros [-> ->]%app_eq_nil k [->|Hk]%elem_of_cons; [auto|]. apply Hlift; [auto|]. by intros ->.
  - assert (Forall (displaced_by B (id :: ids)) replaced2) as Hrep2.
    { eapply Forall_impl; [exact Hrep|]. intros x (k & r0 & b & Hin & Hk & Hx). exists k, r0, b.
      rewrite <- Hother by (by intros ->). split; [by right|done]. }
    destruct cand as [x|]; [constructor; auto|done].
Qed.
End rebuild_rows.

Lemma pruneReplaced_keeps bp replaced I : Aloof I -> Keeps I (pruneReplacedImages bp replaced).
Proof.
  intros HI. induction replaced; simpl; keep.
  generalize (ri_tags a) as tags. induction tags; simpl; keep.
Qed.

(** The generation a row stands at, once built from [md]'s source. *)
Definition current (basePins : Z) (template : string -> Z) (md : ChallengeMetadata) (r : buildRow) : Prop :=
  b_flag r <> ""%string /\ b_sourcechecksum r = cm_sourceChecksum md /\
  b_checksum r = buildContentChecksum basePins template (cm_sourceChecksum md) (b_format r) (cm_challengeType md).

(** A build moved on: same identity, same count, the current generation, and
    the one it served before kept to roll back to. *)
Definition rotated (basePins : Z) (template : string -> Z) (md : ChallengeMetadata) (B B' : gmap Z buildRow) (id : BuildId)
    : Prop :=
  exists r r', B !! id = Some r /\ B' !! id = Some r' /\ current basePins template md r' /\
    buildKey r' = buildKey r /\ b_instancecount r' = b_instancecount r /\
    b_prevchecksum r' = if decide (b_checksum r' = (generations r).1) then (generations r).2 else (generations r).1.
Lemma moved_rotated pins template md B B' id : moved pins template md B B' id -> rotated pins template md B B' id.
Proof.
  intros (r & b & Hr & _ & [] & Hr'). exists r, (rotatedRow b r). split_and!; [done|done|..];
    unfold rotatedRow, rotatedPrevChecksum, current; destruct (generations r) as [old displaced]; simpl; try done.
  by repeat case_decide.
Qed.

Lemma rebuildBuilds_rows pins template limits bp purge md ids prune B F w errs w' :
  NoDup ids -> fixed B F w -> rebuildBuilds pins template limits bp purge md ids prune w = (errs, w') ->
  exists B', fixed B' F w' /\ (forall id, B' !! id = B !! id \/ id ∈ ids /\ rotated pins template md B B' id) /\
    (errs = [] -> forall id, id ∈ ids -> rotated pins template md B B' id).
Proof.
  intros Hnd HB H.
  assert (forall e w1, fixed B F w1 -> (mret [e] : M (list error)) w1 = (errs, w') ->
    exists B', fixed B' F w' /\ (forall id, B' !! id = B !! id \/ id ∈ ids /\ rotated pins template md B B' id) /\
    (errs = [] -> forall id, id ∈ ids -> rotated pins template md B B' id)) as Hfail.
  { intros e w1 HB1 [-> ->]%ret_inv. exists B. split_and!; [done|by left|done]. }
  unfold rebuildBuilds in H. destruct (decide (ids = [])) as [->|_].
  { apply ret_inv in H as [_ ->]. exists B. split_and!; [done|by left|set_solver]. }
  step H e w1 E1. pose proof (keeps_holds _ _ _ _ _ E1 HB) as HB1. destruct e as [e|]; [by eapply Hfail|].
  step H c w2 E2. pose proof (keeps_holds _ _ _ _ _ E2 HB1) as HB2. destruct c as [e|c]; [by eapply Hfail|].
  step H rv w3 E3. pose proof (keeps_holds _ _ _ _ _ E3 HB2) as HB3. destruct rv as [e|rv]; [by eapply Hfail|].
  step H x w4 E4. destruct x as [replaced errs1].
  apply (rebuildLoop_rows _ _ _ _ _ _ _ _ _ _ _ _ _ _ _ Hnd HB3) in E4 as (B4 & HB4 & Hrows & Hall & _).
  step H u w5 E5. pose proof (pruneReplaced_keeps bp replaced (fixed B4 F) _ w4 HB4) as HB5. rewrite E5 in HB5.
  apply ret_inv in H as [-> ->]. exists B4. split_and!; [done| |].
  - intros id. destruct (Hrows id) as [?|[? ?]]; [by left|right]. split; [done|]. by apply moved_rotated.
  - intros He id Hid. by apply moved_rotated, Hall.
Qed.

(** A rebuild moves each build forward by one generation or leaves it
    alone: a row it does not move is exactly as before; one it moves keeps its
    identity and its instance count, stands at the challenge's current source,
    and retains as its rollback generation the one it served until then -- or,
    when the content did not change, the one it retained already.  When no
    error is reported, every build asked for has moved. *)
Theorem rebuild_rotates pins template limits bp purge md ids prune w errs w' :
  NoDup ids -> rebuildBuilds pins template limits bp purge md ids prune w = (errs, w') ->
  let B := t_builds (m_db (W_m w)) in let B' := t_builds (m_db (W_m w')) in
  (forall id, B' !! id = B !! id \/ id ∈ ids /\ rotated pins template md B B' id) /\
  (errs = [] -> forall id, id ∈ ids -> rotated pins template md B B' id).
Proof.
  intros Hnd H B B'. assert (fixed B (frame (W_m w)) w) as HB by done.
  destruct (rebuildBuilds_rows _ _ _ _ _ _ _ _ _ _ _ _ _ Hnd HB H) as (B1 & [<- _] & Hrows & Hall). done.
Qed.

(** ** What leaves retention *)

Lemma buildContentChecksum_word32 pins template s f t : word32 (buildContentChecksum pins template s f t).
Proof.
  unfold buildContentChecksum, contentChecksum. cbv zeta. case_decide; [unfold word32; lia|]. unfold crcSum.
  apply word32_lxor; [|unfold word32; lia]. apply (writeWord_word32 (writeWord _ pins)), (writeWord_word32 _ pins).
  apply crcWrite_word32; [|apply bytesOf_bytes]. apply crcWrite_word32; [apply crcInit_word32|apply bigEndian_bytes].
Qed.
Lemma rotatedRow_ok pins template md r b : renewed pins template md r b -> row_ok r -> row_ok (rotatedRow b r).
Proof.
  intros [] (H1 & H2 & H3). unfold rotatedRow, generations, row_ok, rotatedPrevChecksum.
  repeat case_decide; simpl; (split; [by rewrite rn_checksum0; apply buildContentChecksum_word32|]);
    (split; [done || (unfold word32; lia)|done]).
Qed.

Section prune.
Context (bp : bool) (B : gmap Z buildRow) (F : string * gmap string challengeRow * gmap string challengeParts).
Local Abbreviation registry := (F.1.1).
Local Abbreviation U := (spares_rows registry B).
Lemma untagAll_spares tags :
  Forall (no_row_tag registry B) tags -> Emits U (untagAll bp tags).
Proof.
  induction 1 as [|tag tags Htag _ IH]; simpl; [emit|].
  apply emits_bind; [apply (emits_removeLocalImage B registry); intros; exists tag; auto|]. intros _.
  apply emits_bind; [apply (emits_retireRegistryTag bp B registry); intros; exists tag; auto|]. done.
Qed.
Lemma aloof_untagAll I tags : Aloof I -> Keeps I (untagAll bp tags).
Proof. intros HI. induction tags; simpl; keep. Qed.

(** What a candidate's tags are: those of its generation. *)
Definition candidate (x : replacedImages) : Prop :=
  all_chars (notChar ":") (bm_challenge (ri_meta x)) = true /\ word32 (bm_checksum (ri_meta x)) /\
  Forall (fun tag => exists host, tag = image_tag registry (bm_challenge (ri_meta x)) (bm_seed (ri_meta x))
    (bm_checksum (ri_meta x)) host) (ri_tags x).

Lemma pruneReplacedImages_spares replaced w u w' :
  rows_ok B -> B !! 0 = None -> Forall candidate replaced -> fixed B F w ->
  pruneReplacedImages bp replaced w = (u, w') -> exists tr, W_trace w' = W_trace w ++ tr /\ Forall U tr.
Proof.
  intros Hok H0 Hc. revert w. induction Hc as [|x replaced (Hcolon & Hword & Htags) _ IH]; intros w HB H; simpl in H.
  { apply ret_inv in H as [_ ->]. exists []. by rewrite app_nil_r. }
  step H ref w1 E1. pose proof (keeps_holds _ _ _ _ _ E1 HB) as HB1.
  apply contentReferenced_inv in E1 as (_ & Ht1 & Href). step H u2 w2 E2.
  assert (fixed B F w2 /\ exists tr, W_trace w2 = W_trace w ++ tr /\ Forall U tr) as (HB2 & tr & Ht2 & HU).
  { destruct ref; [apply ret_inv in E2 as [_ ->]; split; [done|]; exists []; by rewrite Ht1, app_nil_r|].
    split; [exact (keeps_holds (Keeps0 := aloof_untagAll _ _ _) _ _ _ _ _ E2 HB1)|]. rewrite <- Ht1.
    refine (emits_inv _ _ _ _ _ (untagAll_spares _ _) E2). eapply Forall_impl; [exact Htags|].
    intros tag [host ->]. apply unreferenced_spares; [done..|]. intros id r Hr.
    apply (Href eq_refl id r); [by rewrite (proj1 HB)|]. intros ->. congruence. }
  apply (IH _ HB2) in H as (tr' & Ht' & HU'). exists (tr ++ tr'). rewrite Ht', Ht2, app_assoc. split; [done|].
  by apply Forall_app.
Qed.
End prune.

(** Pruning takes only what has left retention: after the builds of a
    challenge have been rebuilt, every tag the prune removes, from the daemon or
    from the registry, is one no build on record resolves to -- neither by the
    generation it serves nor by the one it can be rolled back to, be it a build
    just rebuilt, one whose rebuild failed, or one of another schema. *)
Theorem rebuild_prune_spares pins template limits bp purge md c rev prune ids w replaced errs w1 u w2 :
  let B := t_builds (m_db (W_m w)) in
  NoDup ids -> rows_ok B -> B !! 0 = None ->
  rebuildLoop pins template limits purge md c rev prune ids w = ((replaced, errs), w1) ->
  pruneReplacedImages bp replaced w1 = (u, w2) ->
  exists tr, W_trace w2 = W_trace w1 ++ tr /\
    Forall (spares_rows (m_challengeRegistry (W_m w)) (t_builds (m_db (W_m w2)))) tr.
Proof.
  intros B Hnd Hok H0 H1 H2. set (F := frame (W_m w)).
  assert (fixed B F w) as HB by done.
  apply (rebuildLoop_rows _ _ _ _ _ _ _ _ _ _ _ _ _ _ _ Hnd HB) in H1 as (B1 & HB1 & Hrows & _ & Hrep).
  pose proof (pruneReplaced_keeps bp replaced (fixed B1 F) _ w1 HB1) as HB2. rewrite H2 in HB2.
  destruct HB2 as [HB2 _]. simpl in HB2. rewrite HB2.
  eapply (pruneReplacedImages_spares bp B1 F replaced); [| | |done|done].
  - intros id r Hr. destruct (Hrows id) as [E|[_ (r0 & b & Hr0 & _ & Hren & E)]]; rewrite E in Hr; [by eapply Hok|].
    injection Hr as <-. eapply rotatedRow_ok; [done|by eapply Hok].
  - destruct (Hrows 0) as [E|[_ (r0 & b & Hr0 & _)]]; [by rewrite E|congruence].
  - eapply Forall_impl; [exact Hrep|]. intros x (id & r & b & _ & Hr & [] & ->).
    destruct (Hok id r Hr) as (Hs1 & Hs2 & Hcolon). unfold candidate. simpl. rewrite rn_challenge0. split_and!.
    + done.
    + unfold generations. case_decide; simpl; [unfold word32; lia|done].
    + apply Forall_fmap, Forall_true. intros image. exists (img_host image). simpl. apply instanceImageName_tag.
Qed.

(** The demo build, rebuilt from a newer source. *)
Lemma rebuild_rotates_witness :
  exists w', rebuildBuilds 0 (fun _ => 0) someLimits false true built_challenge [1] true (demo_world (empty_registry []))
    = ([], w') /\ (b_prevchecksum <$> t_builds (m_db (W_m w')) !! 1) = Some 5.
Proof.
  destruct (rebuildBuilds 0 (fun _ => 0) someLimits false true built_challenge [1] true (demo_world (empty_registry [])))
    as [errs w'] eqn:E. exists w'. assert (errs = []) as -> by (vm_compute in E; congruence). split; [reflexivity|].
  destruct (rebuild_rotates 0 (fun _ => 0) someLimits false true built_challenge [1] true (demo_world (empty_registry [])) [] w')
    as [_ Hall]; [apply NoDup_singleton|exact E|].
  destruct (Hall eq_refl 1 ltac:(left)) as (r & r' & Hr & Hr' & (_ & _ & Hs) & Hk & _ & Hp). rewrite Hr'. simpl.
  assert (r = mkBuildRow "flag{x}" "flag{%s}" 42 5 0 7 false 0 "web" "event" DYNAMIC_INSTANCES) as ->
    by (vm_compute in Hr; injection Hr as <-; reflexivity).
  assert (b_format r' = "flag{%s}"%string) as Hf by (injection Hk; auto). rewrite Hf in Hs. rewrite Hp, Hs.
  vm_compute. reflexivity.
Defined.

(** Two schemas share a build; the rebuild of one displaces a generation only
    it retained. *)
Definition shared_rebuild : World := shared_world <| W_o := empty_registry [] |>.
Lemma rebuild_prune_spares_witness :
  exists replaced errs w1 w2,
    rebuildLoop 0 (fun _ => 0) someLimits true built_challenge built_challenge ∅ true [2] shared_rebuild = ((replaced, errs), w1) /\
    pruneReplacedImages false replaced w1 = (tt, w2) /\
    exists e tr, W_trace w2 = W_trace w1 ++ e :: tr /\
      spares_rows "registry.example:5000" (t_builds (m_db (W_m w2))) e.
Proof.
  destruct (rebuildLoop 0 (fun _ => 0) someLimits true built_challenge built_challenge ∅ true [2] shared_rebuild)
    as [[replaced errs] w1] eqn:E1.
  destruct (pruneReplacedImages false replaced w1) as [[] w2] eqn:E2. exists replaced, errs, w1, w2.
  split; [reflexivity|]. split; [exact E2|].
  destruct (rebuild_prune_spares 0 (fun _ => 0) someLimits false true built_challenge built_challenge ∅ true [2] shared_rebuild
    replaced errs w1 tt w2) as (tr & Ht & HU);
    [apply NoDup_singleton|exact shared_rows_ok|vm_compute; reflexivity|exact E1|exact E2|].
  destruct tr as [|e tr].
  - exfalso. vm_compute in E1. injection E1 as <- _ <-. vm_compute in E2. injection E2 as <-. vm_compute in Ht. discriminate.
  - exists e, tr. split; [exact Ht|]. by inversion HU.
Defined.

(** Without a registry, a rebuild that reproduces the generation a build serves
    and then fails to validate untags the images of that very generation: the
    reference check leaves the build's own row out, and only its rollback
    generation is compared.  The row still names them. *)
Definition broken_reference : ChallengeMetadata :=
  challengeMeta "web" (mkChallengeRow "Web" "" "custom" "{{url('typo')}}" "" 8 9 "/c/web" false false 1 "" 1)
    (mkParts [] [] [] [(0%nat, mkHostInfo "challenge" "")] [("http"%string, mkPortInfo "challenge" 80)] []).
Definition local_images : World :=
  (demo_world calm) <| W_m ::= (fun m => m <| m_challengeRegistry := ""%string |> <| m_db ::= (fun d => d
     <| t_builds ::= alter (fun r => r <| b_checksum := buildContentChecksum 0 (fun _ => 0) 8 "flag{%s}" "custom" |>) 1 |>) |>) |>.
Example failed_rebuild_untags_served :
  exists row tag, t_builds (m_db (W_m local_images)) !! 1 = Some row /\ row_tag "" row tag /\
    let '(errs, w') := rebuildBuilds 0 (fun _ => 0) someLimits false true broken_reference [1] false local_images in
    errs = [[OtherError "invalid build"]] /\ t_builds (m_db (W_m w')) !! 1 = Some row /\
    mkEvent None (ImageRemove tag) None ∈ W_trace w'.
Proof.
  eexists _, (image_tag "" "web" 42 (buildContentChecksum 0 (fun _ => 0) 8 "flag{%s}" "custom") "challenge").
  split; [vm_compute; reflexivity|]. split; [exists (buildContentChecksum 0 (fun _ => 0) 8 "flag{%s}" "custom"), "challenge"%string; vm_compute; auto|].
  vm_compute. split_and!; [reflexivity..|]. repeat first [left | right].
Qed.
