(* ===== verification/Challenges.v ===== *)
(** * Challenges: the records of the challenges, and keeping them current

    [addChallenges], [updateChallenges], [removeChallenges], [listChallenges]
    ([cork/database_challenges.go]), [safeToRefresh] ([cork/database.go]),
    [pathInDirectory] ([cork/filesystem.go]), and [DetectChanges],
    [classifyChallenges], [UpdateWithOptions] ([cork/api.go]).  What a scan of
    the tree finds is the oracle's; how it is compared with the rows, what is
    written and what is rebuilt is modelled.

    Container options travel to the database as JSON and come back; only what
    the encoding drops on purpose ([marshalSeccompOptions]) is modelled. *)
From S2P Require Import Prelude Types Settings Text Artifacts Queue Worker Database Fleet HostConfig Effects Ports Instances Images Docker Launch Lifecycle Roster Builds Converge Builder Rebuild.
Local Open Scope Z_scope.

(** ** Statements *)

Definition challengeRowOf (c : ChallengeMetadata) : challengeRow :=
  mkChallengeRow (cm_name c) (cm_namespace c) (cm_challengeType c) (cm_description c) (cm_details c)
    (cm_sourceChecksum c) (cm_metadataChecksum c) (cm_path c) (cm_solveScript c) (cm_templatable c)
    (cm_maxUsers c) (cm_category c) (cm_points c).
(** The CHECKs of the table. *)
Definition rowAllowed (c : ChallengeMetadata) : bool := bool_decide (0 <= cm_maxUsers c) && bool_decide (0 <= cm_points c).

(** [challengeInsertQuery]. *)
Definition insertChallenge (c : ChallengeMetadata) (d : Db) : option Db :=
  if decide (t_challenges d !! cm_id c = None) then
    if rowAllowed c then Some (d <| t_challenges ::= <[cm_id c := challengeRowOf c]> |>) else None
  else None.
(** [challengeUpdateQuery]: every column but the namespace; no row, no change. *)
Definition updateChallenge (c : ChallengeMetadata) (d : Db) : option Db :=
  match t_challenges d !! cm_id c with
  | None => Some d
  | Some r => if rowAllowed c then
                let r' := challengeRowOf c in
                Some (d <| t_challenges ::= <[cm_id c :=
                  mkChallengeRow (ch_name r') (ch_namespace r) (ch_challengetype r') (ch_description r') (ch_details r')
                    (ch_sourcechecksum r') (ch_metadatachecksum r') (ch_path r') (ch_solvescript r') (ch_templatable r')
                    (ch_maxusers r') (ch_category r') (ch_points r')]> |>)
              else None
  end.

(** A statement on the rows that hang off a challenge. *)
Definition onParts (id : ChallengeId) (f : challengeParts -> challengeParts) (d : Db) : Db :=
  d <| t_parts ::= <[id := f (challengeParts_of id d)]> |>.
(** An insert among them: the challenge must exist, and so must what the
    statement itself asks for. *)
Definition insertPart (id : ChallengeId) (allowed : challengeParts -> bool) (f : challengeParts -> challengeParts) (d : Db)
    : option Db :=
  if decide (is_Some (t_challenges d !! id)) then
    if allowed (challengeParts_of id d) then Some (onParts id f d) else None
  else None.

Definition insertHint (id : ChallengeId) (h : nat * string) : Db -> option Db :=
  insertPart id (fun p => bool_decide (h.1 ∉ (cp_hints p).*1)) (fun p => p <| cp_hints ::= (fun l => l ++ [h]) |>).
Definition insertTag (id : ChallengeId) (tag : string) : Db -> option Db :=
  insertPart id (fun p => bool_decide (tag ∉ cp_tags p)) (fun p => p <| cp_tags ::= (fun l => l ++ [tag]) |>).
Definition insertAttribute (id : ChallengeId) (kv : string * string) : Db -> option Db :=
  insertPart id (fun p => bool_decide (kv.1 ∉ (cp_attributes p).*1)) (fun p => p <| cp_attributes ::= (fun l => l ++ [kv]) |>).
Definition insertHost (id : ChallengeId) (h : nat * HostInfo) : Db -> option Db :=
  insertPart id (fun p => bool_decide (hi_name h.2 ∉ hi_name <$> (cp_hosts p).*2)) (fun p => p <| cp_hosts ::= (fun l => l ++ [h]) |>).
Definition insertPortName (id : ChallengeId) (np : string * PortInfo) : Db -> option Db :=
  insertPart id (fun p => validPort (pi_port np.2) && bool_decide (pi_host np.2 ∈ hi_name <$> (cp_hosts p).*2))
    (fun p => p <| cp_portNames ::= (fun l => l ++ [np]) |>).

(** A seccomp block that names nothing is stored as nothing. *)
Definition storedSeccomp (s : option SeccompOptions) : option SeccompOptions :=
  match s with
  | Some s => if bool_decide (sc_profile s = ""%string) && bool_decide (sc_effectiveProfile s = ""%string) then None else Some s
  | None => None
  end.
Definition storedOptions (o : ContainerOptions) : ContainerOptions :=
  mkContainerOptions (co_init o) (co_cpus o) (co_memory o) (co_ulimits o) (co_pidsLimit o) (co_readonlyRootfs o)
    (co_droppedCaps o) (co_noNewPrivileges o) (co_diskQuota o) (co_cgroupParent o) (co_capImmutable o)
    (storedSeccomp (co_seccomp o)).
Definition insertOptions (id : ChallengeId) (ho : string * ContainerOptions) : Db -> option Db :=
  insertPart id (fun _ => true) (fun p => p <| cp_options ::= (fun l => l ++ [(ho.1, storedOptions ho.2)]) |>).

Definition deleteHints (id : ChallengeId) : Db -> Db := onParts id (fun p => p <| cp_hints := [] |>).
Definition deleteTagRows (id : ChallengeId) : Db -> Db := onParts id (fun p => p <| cp_tags := [] |>).
Definition deleteAttributes (id : ChallengeId) : Db -> Db := onParts id (fun p => p <| cp_attributes := [] |>).
(** The named ports of a deleted host cascade. *)
Definition deleteHosts (id : ChallengeId) : Db -> Db :=
  onParts id (fun p => p <| cp_portNames ::= filter (fun np => pi_host np.2 ∉ hi_name <$> (cp_hosts p).*2) |>
                         <| cp_hosts := [] |>).
Definition deletePortNames (id : ChallengeId) : Db -> Db := onParts id (fun p => p <| cp_portNames := [] |>).
Definition deleteOptions (id : ChallengeId) : Db -> Db := onParts id (fun p => p <| cp_options := [] |>).

Definition indexed {A} (l : list A) : list (nat * A) := imap pair l.
Definition hintRows (c : ChallengeMetadata) : list (Db -> option Db) := insertHint (cm_id c) <$> indexed (cm_hints c).
Definition tagRows (c : ChallengeMetadata) : list (Db -> option Db) := insertTag (cm_id c) <$> cm_tags c.
Definition attributeRows (c : ChallengeMetadata) : list (Db -> option Db) :=
  insertAttribute (cm_id c) <$> map_to_list (cm_attributes c).
Definition hostRows (c : ChallengeMetadata) : list (Db -> option Db) := insertHost (cm_id c) <$> indexed (cm_hosts c).
Definition portRows (c : ChallengeMetadata) : list (Db -> option Db) :=
  insertPortName (cm_id c) <$> map_to_list (cm_portMap c).
Definition optionRows (c : ChallengeMetadata) : list (Db -> option Db) :=
  insertOptions (cm_id c) <$> map_to_list (cho_overrides (cm_options c)).

(** ** Adding

    The transaction is handled by hand, and not only where it is open: after a
    failed insert the code rolls back, forgets the error, and goes on with the
    next kind of row on a transaction that is over. *)
Definition txExec (alive : bool) (f : Db -> option Db) : M (error + unit) :=
  if alive then sql (stmt f) else fail [ErrTxDone].

(** The rows of one kind: whether the transaction is still open, or the error
    of a rollback that fails, with which the function returns. *)
Fixpoint insertGroup (before : Db) (alive : bool) (rows : list (Db -> option Db)) : M (error + bool) :=
  match rows with
  | [] => ok alive
  | f :: rows =>
    r ← txExec alive f;
    match r with
    | inr _ => insertGroup before alive rows
    | inl _ => if alive then setDb before;; ok false else fail [ErrTxDone]
    end
  end.
Fixpoint insertGroups (before : Db) (alive : bool) (groups : list (list (Db -> option Db))) : M (error + bool) :=
  match groups with
  | [] => ok alive
  | rows :: groups => let? alive := insertGroup before alive rows in insertGroups before alive groups
  end.
(** The options: the errors, and whether the whole function ends here. *)
Fixpoint insertAllOptions (before : Db) (alive : bool) (rows : list (Db -> option Db)) : M (option (list error * bool)) :=
  match rows with
  | [] => mret None
  | f :: rows =>
    r ← txExec alive f;
    match r with
    | inr _ => insertAllOptions before alive rows
    | inl err => if alive then setDb before;; mret (Some ([err], false)) else mret (Some ([err; [ErrTxDone]], true))
    end
  end.

(** One challenge: the errors, and whether the function returns. *)
Definition addChallenge (c : ChallengeMetadata) : M (list error * bool) :=
  before ← getDb;
  r ← sql (stmt (insertChallenge c));
  match r with
  | inl _ => setDb before;; mret ([], false)
  | inr _ =>
    r ← insertGroups before true [hintRows c; tagRows c; attributeRows c; hostRows c; portRows c];
    match r with
    | inl err => mret ([err], true)
    | inr alive =>
      o ← insertAllOptions before alive (optionRows c);
      match o with
      | Some (errs, stop) => mret (errs, stop)
      | None =>
        if alive : bool then
          e ← ask o_db;
          match e with Some err => setDb before;; mret ([err], false) | None => mret ([], false) end
        else mret ([[ErrTxDone]], false)
      end
    end
  end.
Fixpoint addChallenges (added : list ChallengeMetadata) : M (list error) :=
  match added with
  | [] => mret []
  | c :: added =>
    '(errs, stop) ← addChallenge c;
    if stop : bool then mret errs
    else more ← addChallenges added; mret (errs ++ more)
  end.

(** ** Updating, removing *)
Definition rewriteChallenge (c : ChallengeMetadata) : M (error + unit) :=
  transaction (
    let? _ := sql (stmt (updateChallenge c)) in
    let? _ := sqlExec (deleteHints (cm_id c)) in
    let? _ := sqlAll stmt (hintRows c) in
    let? _ := sqlExec (deleteTagRows (cm_id c)) in
    let? _ := sqlAll stmt (tagRows c) in
    let? _ := sqlExec (deleteAttributes (cm_id c)) in
    let? _ := sqlAll stmt (attributeRows c) in
    let? _ := sqlExec (deleteHosts (cm_id c)) in
    let? _ := sqlAll stmt (hostRows c) in
    let? _ := sqlExec (deletePortNames (cm_id c)) in
    let? _ := sqlAll stmt (portRows c) in
    let? _ := sqlExec (deleteOptions (cm_id c)) in
    sqlAll stmt (optionRows c)).

Definition removeChallenges (removed : list ChallengeMetadata) : M (error + unit) :=
  transaction (sqlAll (fun c => stmt (deleteChallenge (cm_id c))) removed).

Section update.
Context (basePins : Z) (template : string -> Z) (limits : artifactLimits) (buildPlane purgeAfterPush : bool).

(** [selectBuilds] picks the builds to rebuild once the metadata is written;
    a challenge whose metadata is not written is not rebuilt. *)
Fixpoint updateChallenges (updated : list ChallengeMetadata)
    (selectBuilds : option (ChallengeMetadata -> M (error + list BuildId))) (pruneOldImages : bool) : M (list error) :=
  match updated with
  | [] => mret []
  | c :: updated =>
    r ← rewriteChallenge c;
    errs ← (match r with
            | inl err => mret [err]
            | inr _ =>
              match selectBuilds with
              | None => mret []
              | Some select =>
                ids ← select c;
                match ids with
                | inl err => mret [err]
                | inr ids => rebuildBuilds basePins template limits buildPlane purgeAfterPush c ids pruneOldImages
                end
              end
            end);
    more ← updateChallenges updated selectBuilds pruneOldImages;
    mret (errs ++ more)
  end.

(** ** Comparing a scan with the rows *)

(** [listChallenges]: the light columns, with the delivery type. *)
Definition listedChallenge (id : ChallengeId) (r : challengeRow) (ports : nat) : ChallengeMetadata :=
  mkChallenge id (ch_name r) "" (ch_challengetype r) "" "" [] (ch_sourcechecksum r) (ch_metadatachecksum r) (ch_path r)
    false ∅ [] 0 "" 0 [] ∅ (mkChallengeOptions noContainerOptions ∅) (ch_solvescript r)
    (deriveDeliveryType (ch_challengetype r) ports) [].
Definition id_le {A} (x y : string * A) : Prop := string_le x.1 y.1.
#[export] Instance id_le_dec {A} : RelDecision (@id_le A).
Proof. intros x y. unfold id_le. apply _. Defined.
Definition listChallenges : M (error + list ChallengeMetadata) :=
  sqlRead (fun d => (fun kv => listedChallenge kv.1 kv.2 (length (cp_portNames (challengeParts_of kv.1 d)))) <$>
    merge_sort id_le (map_to_list (t_challenges d))).

(** Fails safe: a challenge that cannot be read is not safe to refresh. *)
Definition safeToRefresh (c : ChallengeMetadata) : M bool :=
  r ← lookupChallengeMetadata (cm_id c);
  mret (match r with
        | inl _ => false
        | inr old => bool_decide (cm_challengeType old = cm_challengeType c) && bool_decide (cm_options old = cm_options c)
        end).

Inductive challengeVerdict := verdictAdded | verdictUpdated | verdictRefreshed | verdictStale | verdictUnmodified.

Definition classifyChallenge (current : option ChallengeMetadata) (c : ChallengeMetadata) (stale : bool) : M challengeVerdict :=
  match current with
  | None => mret verdictAdded
  | Some old =>
    if decide (cm_sourceChecksum old <> cm_sourceChecksum c) then mret verdictUpdated
    else if decide (cm_metadataChecksum old <> cm_metadataChecksum c \/ cm_solveScript old <> cm_solveScript c) then
      safe ← safeToRefresh c;
      mret (if safe : bool then verdictRefreshed else verdictUpdated)
    else
      safe ← safeToRefresh c;
      mret (if safe : bool then if stale then verdictStale else verdictUnmodified else verdictRefreshed)
  end.

Record ChallengeUpdates := mkUpdates {
  cu_added : list ChallengeMetadata; cu_refreshed : list ChallengeMetadata; cu_updated : list ChallengeMetadata;
  cu_removed : list ChallengeMetadata; cu_unmodified : list ChallengeMetadata; cu_stale : list ChallengeMetadata;
  cu_errors : list error }.
#[export] Instance eta_ChallengeUpdates : Eta ChallengeUpdates := fun u =>
  mkUpdates (cu_added u) (cu_refreshed u) (cu_updated u) (cu_removed u) (cu_unmodified u) (cu_stale u) (cu_errors u).
Definition noUpdates (errs : list error) : ChallengeUpdates := mkUpdates [] [] [] [] [] [] errs.

(** The rows in turn. *)
Fixpoint classifyRows (inventory : gmap ChallengeId ChallengeMetadata) (current : list ChallengeMetadata)
    (stale : gset ChallengeId) (removed : ChallengeMetadata -> bool) (cu : ChallengeUpdates) : M ChallengeUpdates :=
  match current with
  | [] => mret cu
  | old :: current =>
    match inventory !! cm_id old with
    | None =>
      classifyRows inventory current stale removed
        (if removed old then cu <| cu_removed ::= (fun l => l ++ [old]) |> else cu)
    | Some c =>
      v ← classifyChallenge (Some old) c (bool_decide (cm_id old ∈ stale));
      classifyRows inventory current stale removed
        (match v with
         | verdictUpdated => cu <| cu_updated ::= (fun l => l ++ [c]) |>
         | verdictRefreshed => cu <| cu_refreshed ::= (fun l => l ++ [c]) |>
         | verdictStale => cu <| cu_stale ::= (fun l => l ++ [c]) |>
         | verdictUnmodified => cu <| cu_unmodified ::= (fun l => l ++ [old]) |>
         | verdictAdded => cu
         end)
    end
  end.
Definition classifyChallenges (inventory : gmap ChallengeId ChallengeMetadata) (current : list ChallengeMetadata)
    (stale : gset ChallengeId) (removed : ChallengeMetadata -> bool) : M ChallengeUpdates :=
  cu ← classifyRows inventory current stale removed (noUpdates []);
  let seen : gset ChallengeId := list_to_set (filter (fun id => is_Some (inventory !! id)) (cm_id <$> current)) in
  mret (cu <| cu_added := snd <$> filter (fun kv => kv.1 ∉ seen) (map_to_list inventory) |>).

Definition pathInDirectory (path dir : string) : bool :=
  match CutPrefix path dir with
  | Some rest => bool_decide (rest = ""%string) || HasPrefix rest "/"
  | None => false
  end.

Context (chalDir : string).

(** [normalizeDirPath]. *)
Definition normalizeDirPath (dir : string) : M (error + string) :=
  r ← ask (fun o n => o_abs o n dir);
  match r with
  | inl err => fail err
  | inr dir => if pathInDirectory dir chalDir then ok dir else fail [OtherError "not a sub-directory"]
  end.

Definition DetectChanges (fp : string) : M ChallengeUpdates :=
  m ← getM;
  if m_externalBuildPlane m then mret (noUpdates [[ErrExternalBuildPlane]])
  else
    r ← normalizeDirPath (if decide (fp = ""%string) then chalDir else fp);
    match r with
    | inl err => mret (noUpdates [err])
    | inr fp =>
      '(inventory, errs) ← ask (fun o n => o_inventory o n fp);
      rows ← listChallenges;
      match rows with
      | inl err => mret (noUpdates (errs ++ [err]))
      | inr rows =>
        s ← staleChallengeSet;
        let errs := match s with inl err => errs ++ [err] | inr _ => errs end in
        let stale : gset ChallengeId := match s with inl _ => ∅ | inr s => s end in
        cu ← classifyChallenges inventory rows stale
               (fun row => pathInDirectory (cm_path row) fp || negb (pathInDirectory (cm_path row) chalDir));
        mret (cu <| cu_errors := errs |>)
      end
    end.

Definition UpdateWithOptions (fp : string) (pruneOldImages : bool) : M ChallengeUpdates :=
  m ← getM;
  if m_externalBuildPlane m then mret (noUpdates [[ErrExternalBuildPlane]])
  else
    cu ← DetectChanges fp;
    e1 ← addChallenges (cu_added cu);
    e2 ← updateChallenges (cu_refreshed cu ++ cu_stale cu) (Some staleBuildIds) pruneOldImages;
    e3 ← updateChallenges (cu_updated cu) (Some allBuildIds) pruneOldImages;
    let errs := cu_errors cu ++ e1 ++ e2 ++ e3 in
    if decide (errs = []) then
      r ← removeChallenges (cu_removed cu);
      mret (cu <| cu_errors := match r with inl err => [err] | inr _ => [] end |>)
    else mret (cu <| cu_errors := errs |>).
End update.

#[global] Typeclasses Opaque txExec insertGroup insertGroups insertAllOptions addChallenge addChallenges rewriteChallenge
  removeChallenges updateChallenges safeToRefresh classifyChallenge classifyRows classifyChallenges normalizeDirPath
  DetectChanges UpdateWithOptions.

(** ** What holds of the records whatever happens to a challenge's rows

    An invariant of the Manager that no statement on the rows of a challenge can
    break, and that therefore every function here keeps. *)
Definition sound (J : Manager -> Prop) (f : Db -> option Db) : Prop :=
  forall m d', J m -> f (m_db m) = Some d' -> J (m <| m_db := d' |>).
Class ChallengeSafe (J : Manager -> Prop) : Prop := {
  safe_insert c : sound J (insertChallenge c);
  safe_update c : sound J (updateChallenge c);
  safe_delete id : sound J (deleteChallenge id);
  safe_insertPart id allowed f : sound J (insertPart id allowed f);
  safe_onParts id f : sound J (fun d => Some (onParts id f d)) }.

(** The rows of a challenge, of every kind. *)
Definition challengeRows (c : ChallengeMetadata) : list (list (Db -> option Db)) :=
  [hintRows c; tagRows c; attributeRows c; hostRows c; portRows c; optionRows c].

Section safe.
Context (J : Manager -> Prop) {HJ : ChallengeSafe J}.
Local Abbreviation Ok := (onM J).

Lemma rows_sound c rows : rows ∈ challengeRows c -> Forall (sound J) rows.
Proof.
  intros H. unfold challengeRows, hintRows, tagRows, attributeRows, hostRows, portRows, optionRows in H.
  repeat (apply elem_of_cons in H as [->|H]; [apply Forall_fmap, Forall_true; intros x; apply safe_insertPart|]).
  by apply elem_of_nil in H.
Qed.
Lemma keeps_stmt f : sound J f -> Keeps Ok (sql (stmt f)).
Proof.
  intros Hf. apply keeps_sql. intros m d' [] Hm E. unfold stmt in E. destruct (f (m_db m)) as [d2|] eqn:Ef; [|done].
  injection E as <-. by eapply Hf.
Qed.
Lemma keeps_rows rows : Forall (sound J) rows -> Keeps Ok (sqlAll stmt rows).
Proof. induction 1 as [|f rows Hf _ IH]; simpl; keep. by apply keeps_stmt. Qed.
Lemma keeps_onParts id f : Keeps Ok (sqlExec (onParts id f)).
Proof. apply keeps_sql. intros m d' [] Hm [= <-]. by apply (safe_onParts id f). Qed.

#[export] Instance keeps_rewriteChallenge c : Keeps Ok (rewriteChallenge c).
Proof.
  unfold rewriteChallenge. apply keeps_transaction; [apply _|].
  keep; try apply keeps_onParts; try (apply keeps_rows, (rows_sound c); unfold challengeRows; set_solver).
  apply keeps_stmt, safe_update.
Qed.
#[export] Instance keeps_removeChallenges l : Keeps Ok (removeChallenges l).
Proof.
  unfold removeChallenges. apply keeps_transaction; [apply _|]. induction l; simpl; keep. apply keeps_stmt, safe_delete.
Qed.

(** A transaction that may be rolled back by hand. *)
Section by_hand.
Context (before : Db).
Definition undoable (w : World) : Prop := J (W_m w) /\ J ((W_m w) <| m_db := before |>).
Lemma undoable_ask {A} (f : Oracle -> nat -> A) : Keeps undoable (ask f).
Proof. by intros w. Qed.
Lemma undoable_set : Keeps undoable (setDb before).
Proof. by intros w [_ H]. Qed.
Lemma undoable_stmt f : sound J f -> Keeps undoable (sql (stmt f)).
Proof.
  intros Hf w [Hok Hb]. split; [by apply keeps_stmt|]. run. destruct (o_db _ _); simpl; [done|]. unfold stmt. by destruct (f _).
Qed.
Lemma undoable_txExec alive f : sound J f -> Keeps undoable (txExec alive f).
Proof. intros Hf. unfold txExec. keep. by apply undoable_stmt. Qed.
Lemma undoable_insertGroup alive rows : Forall (sound J) rows -> Keeps undoable (insertGroup before alive rows).
Proof.
  intros H. induction H as [|f rows Hf _ IH]; simpl; keep; [by apply undoable_txExec|apply undoable_set].
Qed.
Lemma undoable_insertGroups alive groups : Forall (Forall (sound J)) groups -> Keeps undoable (insertGroups before alive groups).
Proof.
  intros H. revert alive. induction H as [|rows groups Hr _ IH]; intros alive; simpl; keep. by apply undoable_insertGroup.
Qed.
Lemma undoable_insertAllOptions alive rows : Forall (sound J) rows -> Keeps undoable (insertAllOptions before alive rows).
Proof.
  intros H. induction H as [|f rows Hf _ IH]; simpl; keep; [by apply undoable_txExec|apply undoable_set].
Qed.
End by_hand.

#[export] Instance keeps_addChallenge c : Keeps Ok (addChallenge c).
Proof.
  intros w Hw. unfold addChallenge. set (before := m_db (W_m w)).
  assert (undoable before w) as Hb by (split; [done|]; subst before; by rewrite same_db).
  match goal with |- onM J ((mbind ?k getDb) w).2 => change (onM J (k before w).2); assert (Keeps (undoable before) (k before)) as Hk end;
    [|exact (proj1 (Hk w Hb))]. cbv beta.
  keep; try apply undoable_set; try apply undoable_ask.
  - apply undoable_stmt, safe_insert.
  - apply undoable_insertGroups. repeat (apply Forall_cons; split; [apply (rows_sound c); unfold challengeRows; set_solver|]). constructor.
  - apply undoable_insertAllOptions, (rows_sound c). unfold challengeRows. set_solver.
Qed.
#[export] Instance keeps_addChallenges l : Keeps Ok (addChallenges l).
Proof. induction l; simpl; keep. Qed.

(** The scan only reads. *)
#[export] Instance keeps_safeToRefresh c : Keeps Ok (safeToRefresh c).
Proof. unfold safeToRefresh, lookupChallengeMetadata. keep. Qed.
#[export] Instance keeps_classifyChallenge old c s : Keeps Ok (classifyChallenge old c s).
Proof. unfold classifyChallenge. keep. Qed.
#[export] Instance keeps_classifyRows inv current s removed cu : Keeps Ok (classifyRows inv current s removed cu).
Proof. revert cu. induction current; intros; simpl; keep. Qed.
#[export] Instance keeps_DetectChanges chalDir fp : Keeps Ok (DetectChanges chalDir fp).
Proof. unfold DetectChanges, normalizeDirPath, listChallenges, staleChallengeSet, classifyChallenges. keep. Qed.

Section updating.
Context (pins : Z) (template : string -> Z) (limits : artifactLimits) (bp purge : bool) (chalDir : string).
Hypothesis Hrebuild : forall md ids prune, Keeps Ok (rebuildBuilds pins template limits bp purge md ids prune).
Lemma keeps_updateChallenges l select prune :
  (forall f c, select = Some f -> Keeps Ok (f c)) -> Keeps Ok (updateChallenges pins template limits bp purge l select prune).
Proof. intros Hs. induction l; simpl; keep. by apply Hs. Qed.
Lemma keeps_UpdateWithOptions fp prune : Keeps Ok (UpdateWithOptions pins template limits bp purge chalDir fp prune).
Proof.
  unfold UpdateWithOptions. keep; apply keeps_updateChallenges; intros f c [= <-];
    [unfold staleBuildIds|unfold allBuildIds]; apply _.
Qed.
End updating.
End safe.

(** *** The tables *)
Section keep_challenges.
(** A row of a challenge: whatever it says of the challenge, no build, instance
    or port depends on it. *)
Lemma parts_only_ok d d' :
  db_ok d -> t_challenges d' = t_challenges d -> t_builds d' = t_builds d -> t_images d' = t_images d -> same_instances d d' -> db_ok d'.
Proof. intros [] E1 E2 E3 (E4 & E5 & E6 & E7). split; rewrite ?E1, ?E2, ?E3, ?E4, ?E5, ?E6, ?E7; done. Qed.
Lemma insertPart_ok id allowed f d d' : db_ok d -> insertPart id allowed f d = Some d' -> db_ok d' /\ same_instances d d'.
Proof. unfold insertPart. case_decide; [|done]. destruct (allowed _); [|done]. intros Hd [= <-]. split; [|done]. by apply (parts_only_ok d). Qed.
Lemma challenge_ok d k r : db_ok d -> db_ok (d <| t_challenges ::= <[k := r]> |>).
Proof.
  intros []. split; try done. intros id row Hr. simpl. rewrite lookup_insert. case_decide; [by eexists|by eapply ok_challenge].
Qed.
Lemma deleteChallenge_ok id d d' : db_ok d -> deleteChallenge id d = Some d' -> db_ok d' /\ same_instances d d'.
Proof.
  unfold deleteChallenge. destruct (existsb _ _) eqn:E; [done|]. intros Hd [= <-]. split; [|done]. destruct Hd.
  split; try done. intros b r Hr. simpl. rewrite lookup_delete_ne; [by eapply ok_challenge|]. intros ->.
  assert (existsb (fun kv => bool_decide (b_challenge kv.2 = b_challenge r)) (map_to_list (t_builds d)) = true) as Ht; [|congruence].
  apply existsb_exists. exists (b, r). split; [by apply list_elem_of_In, elem_of_map_to_list|by apply bool_decide_eq_true].
Qed.
Lemma updateChallenge_ok c d d' : db_ok d -> updateChallenge c d = Some d' -> db_ok d' /\ same_instances d d'.
Proof.
  unfold updateChallenge. destruct (t_challenges d !! cm_id c); [destruct (rowAllowed c); [|done]|]; intros Hd [= <-]; [|done].
  split; [by apply challenge_ok|done].
Qed.
Lemma insertChallenge_ok c d d' : db_ok d -> insertChallenge c d = Some d' -> db_ok d' /\ same_instances d d'.
Proof.
  unfold insertChallenge. case_decide; [|done]. destruct (rowAllowed c); [|done]. intros Hd [= <-].
  split; [by apply challenge_ok|done].
Qed.

#[export] Instance safe_tables_ok : ChallengeSafe tables_ok.
Proof.
  assert (forall f, (forall d d', db_ok d -> f d = Some d' -> db_ok d' /\ same_instances d d') -> sound tables_ok f) as Hs.
  { intros f Hf m d' Hm E. destruct (Hf _ _ (to_db _ Hm) E) as [Hd (_ & _ & Ep & _)].
    apply tables_ok_db; [done..|]. unfold ports_unique. by rewrite Ep. }
  split; intros; apply Hs; intros d d'.
  - apply insertChallenge_ok.
  - apply updateChallenge_ok.
  - apply deleteChallenge_ok.
  - apply insertPart_ok.
  - intros Hd [= <-]. split; [|done]. by apply (parts_only_ok d).
Qed.
#[export] Instance keeps_Update pins template limits bp purge chalDir fp prune :
  Keeps (onM tables_ok) (UpdateWithOptions pins template limits bp purge chalDir fp prune).
Proof. apply keeps_UpdateWithOptions; apply _. Qed.
End keep_challenges.
