(* ===== verification/Schemas.v ===== *)
(** * Schemas: converging a whole schema

    [convergeSchema], [CreateSchema], [UpdateSchema], [Build] and [Destroy]
    ([cork/api.go]), [generateBuilds] and [requireIngestedBuilds]
    ([cork/docker.go]), [requireHandedOver] ([cork/buildplane.go]).

    A schema names challenges, seeds and instance counts.  A converge locks the
    builds the schema has, opens those it names, releases what stayed locked,
    makes what is missing and brings every build to its instances.  The builds
    are shared by pointer between these steps; here each step returns them. *)
From S2P Require Import Prelude Types Settings Text Artifacts Queue Worker Database Fleet HostConfig Effects Ports Instances Images Docker Launch Lifecycle Roster Builds Converge Builder Rebuild Challenges.
Local Open Scope Z_scope.

(** [filepath.Dir]: what precedes the last separator, cleaned. *)
Fixpoint upToLastSlash (p : string) : string :=
  match p with
  | EmptyString => ""%string
  | String c p =>
    let rest := upToLastSlash p in
    if bool_decide (rest = ""%string) && negb (bool_decide (c = slash)) then ""%string else String c rest
  end.
Definition Dir (p : string) : string := Clean (upToLastSlash p).

Definition missingHandOverError : error := [OtherError "has not been handed over"; ErrExternalBuildPlane].

(** Every challenge that falls short, in the order of their ids. *)
Definition requireHandedOver (schema : Schema) : M (list error) :=
  r ← sqlRead (fun d => dom (t_challenges d));
  match r with
  | inl err => mret [err]
  | inr known =>
    r ← sqlRead (fun d => (fun kv => (b_challenge kv.2, b_seed kv.2)) <$> filter (fun kv =>
          b_schema kv.2 = sch_name schema /\ b_format kv.2 = sch_flagFormat schema /\ b_flag kv.2 <> ""%string)
          (rows (t_builds d)));
    match r with
    | inl err => mret [err]
    | inr built =>
      mret (mjoin ((fun challenge =>
        match sch_challenges schema !! challenge with
        | None => []
        | Some spec =>
          if decide (spec_seeds spec = []) then []
          else if decide (challenge ∉ known) then [missingHandOverError]
          else if decide (filter (fun seed => (challenge, seed) ∉ built) (spec_seeds spec) <> []) then [missingHandOverError]
          else []
        end) <$> sorted (dom (sch_challenges schema))))
    end
  end.

(** The probe for stale builds only makes a log line. *)
Definition requireIngestedBuilds (builds : list BuildMetadata) : M (error + unit) :=
  if decide (filter (fun b => bm_flag b = ""%string) builds <> []) then fail missingHandOverError
  else
    _ ← (match builds with b :: _ => challengeHasStaleBuild (bm_challenge b) | [] => ok false end);
    ok tt.

Definition inList (id : ChallengeId) (l : list ChallengeMetadata) : bool := bool_decide (id ∈ cm_id <$> l).

Section schema.
Context (basePins : Z) (template : string -> Z) (limits : artifactLimits) (buildPlane purgeAfterPush : bool).
Context (chalDir : string).

(** [openBuild] on a build held by pointer: the checksum it stamps stays on the
    build when the rest fails. *)
Definition openHeld (b : BuildMetadata) : M (option error * BuildMetadata) :=
  b ← stampChecksum basePins template b;
  r ← openStamped b;
  mret (match r with inl err => (Some err, b) | inr b => (None, b) end).

(** The builds that have no flag yet, up to the first that fails. *)
Fixpoint buildMissing (c : ChallengeMetadata) (builds : list BuildMetadata) : M (option error * list BuildMetadata) :=
  match builds with
  | [] => mret (None, [])
  | b :: builds =>
    if decide (bm_flag b <> ""%string) then
      '(err, builds) ← buildMissing c builds;
      mret (err, b :: builds)
    else
      '(err, b) ← openHeld b;
      match err with
      | Some err => mret (Some err, b :: builds)
      | None =>
        '(err, b) ← executeBuild basePins template limits c b;
        match err with
        | Some err => _ ← removeBuildMetadata (bm_id b); mret (Some err, b :: builds)
        | None =>
          f ← finalizeBuild b;
          match f with
          | inl err => mret (Some err, b :: builds)
          | inr _ =>
            purgeBuiltImages purgeAfterPush b;;
            '(err, builds) ← buildMissing c builds;
            mret (err, b :: builds)
          end
        end
      end
  end.

Definition generateBuilds (builds : list BuildMetadata) : M (option error * list BuildMetadata) :=
  match builds with
  | [] => mret (None, [])
  | b0 :: _ =>
    m ← getM;
    if m_externalBuildPlane m then
      r ← requireIngestedBuilds builds;
      mret (match r with inl err => Some err | inr _ => None end, builds)
    else
      r ← lookupChallengeMetadata (bm_challenge b0);
      match r with
      | inl err => mret (Some err, builds)
      | inr c =>
        updates ← DetectChanges chalDir (Dir (cm_path c));
        if forallb (fun b => negb (bool_decide (bm_flag b = ""%string))) builds then mret (None, builds)
        else if decide (cu_errors updates <> []) then
          mret (Some [OtherError "errors detected in directory, run 'update'"], builds)
        else if inList (cm_id c) (cu_updated updates) || inList (cm_id c) (cu_refreshed updates) ||
                inList (cm_id c) (cu_removed updates) then
          mret (Some [OtherError "has changed since last update"], builds)
        else
          e ← ask o_fs;                                           (* createBuildContext *)
          match e with
          | Some err => mret (Some err, builds)
          | None => buildMissing c builds
          end
      end
  end.

(** The builds of one entry of the schema, opened; one that fails stays in the
    list as it is. *)
Fixpoint openGroup (schema : Schema) (challenge : ChallengeId) (count : Z) (seeds : list Z)
    : M (list BuildMetadata * list error) :=
  match seeds with
  | [] => mret ([], [])
  | seed :: seeds =>
    '(err, b) ← openHeld (mkBuild 0 "" ∅ seed (sch_flagFormat schema) 0 0 0 [] false 0 challenge [] (sch_name schema) count);
    '(builds, errs) ← openGroup schema challenge count seeds;
    mret (b :: builds, match err with Some err => err :: errs | None => errs end)
  end.
Fixpoint openGroups (schema : Schema) (entries : list (ChallengeId * BuildSpecification))
    : M (list (list BuildMetadata) * list error) :=
  match entries with
  | [] => mret ([], [])
  | (challenge, spec) :: entries =>
    '(builds, errs) ← openGroup schema challenge (spec_instanceCount spec) (spec_seeds spec);
    '(state, more) ← openGroups schema entries;
    mret (builds :: state, errs ++ more)
  end.

(** The builds of one challenge, each brought to its count.  [None] is the
    panic of a count below every one the code knows. *)
Fixpoint convergeGroup (schema : Schema) (c : ChallengeMetadata) (builds : list BuildMetadata) : M (option (list error)) :=
  match builds with
  | [] => mret (Some [])
  | b :: builds =>
    let count := from_option spec_instanceCount 0 (sch_challenges schema !! bm_challenge b) in
    r ← (if negb (NeedsInstance c) then errs ← convergeBuildInstances b c 0; mret (Some errs)
         else if decide (count = DYNAMIC_INSTANCES \/ count = LOCKED) then mret (Some [])
         else if decide (count < 0) then
           l ← getBuildInstances (bm_id b);
           mret (match l with inl err => Some [err] | inr _ => None end)
         else errs ← convergeBuildInstances b c count; mret (Some errs));
    match r with
    | None => mret None
    | Some errs => more ← convergeGroup schema c builds; mret (app errs <$> more)
    end
  end.
Fixpoint convergeGroups (schema : Schema) (state : list (list BuildMetadata)) : M (option (list error)) :=
  match state with
  | [] => mret (Some [])
  | builds :: state =>
    '(err, builds) ← generateBuilds builds;
    r ← (match err, builds with
         | Some err, _ => mret (Some [err])
         | None, [] => mret (Some [])
         | None, b0 :: _ =>
           r ← lookupChallengeMetadata (bm_challenge b0);
           match r with inl err => mret (Some [err]) | inr c => convergeGroup schema c builds end
         end);
    match r with
    | None => mret None
    | Some errs => more ← convergeGroups schema state; mret (app errs <$> more)
    end
  end.

Definition convergeSchema (schema : Schema) : M (option (list error)) :=
  m ← getM;
  refused ← (if m_externalBuildPlane m then requireHandedOver schema else mret []);
  if decide (refused <> []) then mret (Some refused)
  else
    r ← lockSchema (sch_name schema);
    match r with
    | inl err => mret (Some [err])
    | inr _ =>
      '(state, errs) ← openGroups schema (map_to_list (sch_challenges schema));
      r ← cleanupSchemaResources buildPlane (sch_name schema) true;
      more ← convergeGroups schema state;
      mret (app (errs ++ match r with inl err => [err] | inr _ => [] end) <$> more)
    end.

Definition createSchema (schema : Schema) : M (option (list error)) :=
  r ← schemaExists (sch_name schema);
  match r with
  | inl err => mret (Some [err])
  | inr true => mret (Some [[OtherError "schema already exists"]])
  | inr false => convergeSchema schema
  end.
(** [lockUpdates] serialises these with updates and one another; the model
    runs one request at a time. *)
Definition CreateSchema (schema : Schema) : M (option (list error)) := createSchema schema.
Definition UpdateSchema (schema : Schema) : M (option (list error)) :=
  r ← schemaExists (sch_name schema);
  match r with
  | inl err => mret (Some [err])
  | inr false => createSchema schema
  | inr true => convergeSchema schema
  end.

(** ** Builds made by hand *)
Definition manualSchemaPrefix : string := "manual-".
Definition Build (challenge : ChallengeId) (seeds : list Z) (flagFormat : string) : M (list BuildMetadata * option error) :=
  m ← getM;
  if m_externalBuildPlane m then mret ([], Some [ErrExternalBuildPlane])
  else
    n ← Intn (2 ^ 63);
    let schema := (manualSchemaPrefix +:+ hexDigits 16 n "")%string in
    '(err, builds) ← generateBuilds
      ((fun seed => mkBuild 0 "" ∅ seed flagFormat 0 0 0 [] false 0 challenge [] schema (-1)) <$> seeds);
    mret (builds, err).
(** [None] is the panic of a schema name shorter than the prefix. *)
Definition Destroy (build : BuildId) : M (option (error + unit)) :=
  r ← lookupBuildMetadata build;
  match r with
  | inl err => mret (Some (inl err))
  | inr b =>
    if decide (String.length (bm_schema b) < String.length manualSchemaPrefix)%nat then mret None
    else if HasPrefix (bm_schema b) manualSchemaPrefix then
      r ← destroyImages buildPlane build true; mret (Some r)
    else mret (Some (inl [OtherError "locked build: change the schema definition to destroy this build"]))
  end.
End schema.

#[global] Typeclasses Opaque requireHandedOver requireIngestedBuilds openHeld buildMissing generateBuilds openGroup openGroups
  convergeGroup convergeGroups convergeSchema createSchema CreateSchema UpdateSchema Build Destroy.

(** ** The tables stay sound *)
Section keep_schemas.
Local Abbreviation Ok := (onM tables_ok).
Context (pins : Z) (template : string -> Z) (limits : artifactLimits) (bp purge : bool) (chalDir : string).

#[export] Instance keeps_requireHandedOver schema : Keeps Ok (requireHandedOver schema).
Proof. unfold requireHandedOver. keep. Qed.
#[export] Instance keeps_requireIngestedBuilds builds : Keeps Ok (requireIngestedBuilds builds).
Proof. unfold requireIngestedBuilds, challengeHasStaleBuild. keep. Qed.
#[export] Instance keeps_openHeld b : Keeps Ok (openHeld pins template b).
Proof. unfold openHeld. keep. Qed.
#[export] Instance keeps_buildMissing c builds : Keeps Ok (buildMissing pins template limits purge c builds).
Proof. induction builds; simpl; keep. Qed.
#[export] Instance keeps_generateBuilds builds : Keeps Ok (generateBuilds pins template limits purge chalDir builds).
Proof. unfold generateBuilds. keep. Qed.
#[export] Instance keeps_openGroup schema ch count seeds : Keeps Ok (openGroup pins template schema ch count seeds).
Proof. induction seeds; simpl; keep. Qed.
#[export] Instance keeps_openGroups schema entries : Keeps Ok (openGroups pins template schema entries).
Proof. induction entries as [|[ch spec] entries IH]; simpl; keep. Qed.
#[export] Instance keeps_convergeGroup schema c builds : Keeps Ok (convergeGroup schema c builds).
Proof. induction builds; simpl; unfold getBuildInstances; keep. Qed.
#[export] Instance keeps_convergeGroups schema state :
  Keeps Ok (convergeGroups pins template limits purge chalDir schema state).
Proof. induction state; simpl; keep. Qed.
#[export] Instance keeps_convergeSchema schema :
  Keeps Ok (convergeSchema pins template limits bp purge chalDir schema).
Proof. unfold convergeSchema. keep. Qed.
#[export] Instance keeps_createSchema schema : Keeps Ok (createSchema pins template limits bp purge chalDir schema).
Proof. unfold createSchema, schemaExists. keep. Qed.
#[export] Instance keeps_UpdateSchema schema : Keeps Ok (UpdateSchema pins template limits bp purge chalDir schema).
Proof. unfold UpdateSchema, schemaExists. keep. Qed.
#[export] Instance keeps_Build ch seeds format : Keeps Ok (Build pins template limits purge chalDir ch seeds format).
Proof. unfold Build. keep. Qed.
#[export] Instance keeps_Destroy id : Keeps Ok (Destroy bp id).
Proof. unfold Destroy. keep. Qed.
End keep_schemas.
