(* ===== verification/Converged.v ===== *)
(** * Converged: what a schema converge that reports no error has done

    The steps of [convergeSchema] ([Schemas]) followed through the records: who
    runs what ([roster]), the builds, and the challenges, which none of it
    writes. *)
From S2P Require Import Prelude Types Settings Text Artifacts Queue Worker Database Fleet HostConfig Effects Ports Instances Images Docker Launch Lifecycle Roster Builds Converge Builder Rebuild Challenges Schemas.
Local Open Scope Z_scope.

(** ** One invariant for all of it *)
Definition records : Type := gmap Z BuildId * gmap Z buildRow * (string * gmap string challengeRow * gmap string challengeParts).
Definition scene (s : records) (w : World) : Prop := steady s.1 w /\ frame (W_m w) = s.2.
#[export] Instance aloof_scene s : Aloof (scene s).
Proof.
  split.
  - intros w w' Ho Hv Hf [Hs HF]. split; [by eapply (aloof w)|by rewrite Hf].
  - intros w n [Hs HF]. split; [by apply aloof_others|]. rewrite <- HF. apply run_ops_frame.
Qed.
Lemma scene_fixed R B F w : scene (R, B, F) w -> fixed B F w.
Proof. intros [[_ Hv] HF]. split; [by injection Hv|done]. Qed.
Lemma scene_of R B F w : steady (R, B) w -> fixed B F w -> scene (R, B, F) w.
Proof. intros ? [_ ?]. by split. Qed.

(** A statement that leaves the instances alone keeps the roster. *)
Lemma scene_sql R B F {A} (f : Db -> option (Db * A)) w a w' :
  scene (R, B, F) w -> sql f w = (inr a, w') ->
  (forall d d', f d = Some (d', a) -> t_instances d' = t_instances d /\ t_challenges d' = t_challenges d /\ t_parts d' = t_parts d) ->
  scene (R, t_builds (m_db (W_m w')), F) w'.
Proof.
  intros [[Hu Hv] HF] H Hf. apply sql_inr in H as (E & Hm & Ho). injection Hv as HR _. simpl in HF.
  destruct (Hf _ _ E) as (H1 & H2 & H3). split; [split; [by rewrite Ho|]|].
  - unfold view, roster in *. simpl. by rewrite H1, <- HR.
  - unfold frame in *. rewrite Hm. simpl. by rewrite H2, H3.
Qed.

(** Finalizing writes the build's row and no other record seen here. *)
Section finalize.
Context (R : gmap Z BuildId).
Definition rolled (w : World) : Prop := unmolested (W_o w) /\ roster (m_db (W_m w)) = R.
Lemma rolled_sql {A} (f : Db -> option (Db * A)) :
  (forall d d' a, f d = Some (d', a) -> t_instances d' = t_instances d) -> Keeps rolled (sql f).
Proof.
  intros Hf w [Hu <-]. unfold rolled. run. destruct (o_db _ _); simpl; [done|].
  destruct (f (m_db (W_m w))) as [[d' a]|] eqn:E; simpl; [|done]. unfold roster. by rewrite (Hf _ _ _ E).
Qed.
Lemma rolled_insertPorts image ports : Keeps rolled (insertPorts image ports).
Proof.
  induction ports; simpl; keep. apply rolled_sql. intros d d' []. unfold stmt, insertImagePort. case_decide; [|done].
  by intros [= <-].
Qed.
Lemma rolled_insertImages build images : Keeps rolled (insertImages build images).
Proof.
  induction images; simpl; keep; [|by apply rolled_insertPorts]. apply rolled_sql. intros d d' id. unfold insertImage.
  case_decide; [|done]. by intros [= <- _].
Qed.
Lemma rolled_finalizeBuild b w r w' : rolled w -> finalizeBuild b w = (r, w') -> rolled w'.
Proof.
  intros Hw H. unfold finalizeBuild in H. apply transaction_spec in H as (Ho & _ & Hr); [|apply _].
  destruct Hw as [Hu HR]. split; [by rewrite Ho|]. destruct r as [err|u]; [by rewrite Hr|]. destruct Hr as (w1 & H & Hm).
  rewrite Hm. refine (proj2 (keeps_holds rolled _ _ _ _ H (conj Hu HR))). keep.
  - apply rolled_sql. intros d d' []. unfold updateBuild. destruct (t_builds d !! _); [|done]. by intros [= <-].
  - apply rolled_sql. by intros d d' [] [= <-].
  - clear H. induction (map_to_list (bm_lookupData b)); simpl; keep. apply rolled_sql. intros d d' []. unfold stmt, insertLookup.
    case_decide; [|done]. by intros [= <-].
  - apply rolled_sql. by intros d d' [] [= <-].
  - apply rolled_insertImages.
Qed.
End finalize.
Lemma finalizeBuild_scene b R B F w u w' :
  scene (R, B, F) w -> finalizeBuild b w = (inr u, w') ->
  exists row, B !! bm_id b = Some row /\ scene (R, <[bm_id b := finalizeRow b row]> B, F) w'.
Proof.
  intros Hs H. pose proof (scene_fixed _ _ _ _ Hs) as Hf. destruct Hs as [[Hu Hv] _]. injection Hv as HR _.
  destruct (rolled_finalizeBuild R b w _ w' (conj Hu HR) H) as [Hu' HR'].
  apply (finalizeBuild_rows _ _ _ _ _ _ Hf) in H as (row & Hrow & [HB HF]). exists row. split; [done|].
  split; [split; [done|]|done]. unfold view. simpl. by rewrite HR', HB.
Qed.

(** ** Opening a build *)
Definition unique_rows (B : gmap Z buildRow) : Prop :=
  forall id1 id2 r1 r2, B !! id1 = Some r1 -> B !! id2 = Some r2 -> buildKey r1 = buildKey r2 -> id1 = id2.
Definition keyOf (b : BuildMetadata) : string * string * string * Z := (bm_schema b, bm_format b, bm_challenge b, bm_seed b).

Section opened.
Context (pins : Z) (template : string -> Z).

Lemma stampChecksum_scene b s w b1 w1 :
  scene s w -> stampChecksum pins template b w = (b1, w1) -> scene s w1 /\ exists sum, b1 = b <| bm_checksum := sum |>.
Proof.
  intros Hs H. split; [|by eapply stampChecksum_inv]. refine (keeps_holds (scene s) _ _ _ _ H Hs). unfold stampChecksum. keep.
Qed.

(** What a build that was opened is: the row of its key, found or made. *)
Lemma openHeld_scene b R B F w b' w' :
  scene (R, B, F) w -> unique_rows B -> openHeld pins template b w = ((None, b'), w') ->
  exists row, scene (R, <[bm_id b' := row]> B, F) w' /\ unique_rows (<[bm_id b' := row]> B) /\
    keyOf b' = keyOf b /\ bm_instanceCount b' = bm_instanceCount b /\ bm_images b' = bm_images b /\
    buildKey row = keyOf b /\ b_instancecount row = bm_instanceCount b /\ bm_flag b' = b_flag row /\
    match B !! bm_id b' with Some old => row = old <| b_instancecount := bm_instanceCount b |> | None => b_flag row = bm_flag b end.
Proof.
  intros Hs Hu H. unfold openHeld in H. step H b1 w1 E1. apply (stampChecksum_scene _ _ _ _ _ Hs) in E1 as (Hs1 & sum & ->).
  step H r w2 E2. apply ret_inv in H as [H ->]. destruct r as [err|b2]; [done|]. injection H as ->.
  unfold openStamped in E2. step E2 r w3 E3. destruct r as [err|u].
  { step E2 tk w4 E4. destruct (_ && _); [step E2 hold w5 E5|]; by apply ret_inv in E2 as [? _]. }
  apply try_inr in E2 as (found & w4 & E4 & E2). pose proof E3 as E3'. apply sql_inr in E3' as (E & Hm & _).
  destruct (upsertBuild _ _ (m_db (W_m w1))) as [d2|] eqn:Eu; [|done]. injection E as Hd2 _.
  assert (t_builds (m_db (W_m w1)) = B) as HB by apply (scene_fixed _ _ _ _ Hs1).
  pose proof Eu as Eu'. apply upsertBuild_spec in Eu' as (Hu2 & k & row & Hb & Hk & Hc & Hold);
    [|unfold builds_unique; by rewrite HB]. rewrite HB in Hb, Hold.
  assert (scene (R, <[k := row]> B, F) w3) as Hs3.
  { rewrite <- Hb, Hd2. eapply scene_sql; [exact Hs1|exact E3|]. intros d d' Ed. cbv beta in Ed.
    destruct (upsertBuild _ _ d) as [d3|] eqn:Eu3; [|done]. injection Ed as <-. by eapply upsertBuild_frame. }
  pose proof (keeps_holds _ _ _ _ _ E4 Hs3) as Hs4. apply sqlRead_inv in E4 as (_ & _ & _ & Hf). simpl in Hf. rewrite <- Hd2 in Hf.
  rewrite (buildNamed_unique _ d2 k row) in Hf; [|done|by rewrite Hb, lookup_insert_eq|done]. subst found.
  apply ret_inv in E2 as [E2 ->]. injection E2 as ->. simpl. exists row. unfold builds_unique in Hu2. rewrite Hb in Hu2.
  split_and!; try done. destruct (B !! k); [done|]. by destruct Hold as [-> _].
Qed.
End opened.

(** ** Making what is missing *)
Lemma executeBuild_flag pins template limits c b :
  Returns (fun r => r.1 = None -> bm_flag r.2 <> ""%string) (executeBuild pins template limits c b).
Proof.
  unfold executeBuild. repeat first [apply returns_then | apply returns_bind; intros ? | apply returns_ret; done
    | match goal with |- Returns _ (match ?x with _ => _ end) => destruct x end].
Qed.

(** The row of a build held in memory. *)
Definition held (B : gmap Z buildRow) (b : BuildMetadata) : Prop :=
  exists r, B !! bm_id b = Some r /\ buildKey r = keyOf b /\ b_instancecount r = bm_instanceCount b /\
    (bm_flag b <> ""%string -> b_flag r <> ""%string).
(** The rows named may have been built; what they are and how many instances
    they want has not changed. *)
Definition kept (r r' : buildRow) : Prop :=
  buildKey r' = buildKey r /\ b_instancecount r' = b_instancecount r /\ (b_flag r <> ""%string -> b_flag r' <> ""%string).
Record advanced (ids : list Z) (B B' : gmap Z buildRow) : Prop := {
  ad_other : forall id, id ∉ ids -> B' !! id = B !! id;
  ad_kept : forall id r, B !! id = Some r -> exists r', B' !! id = Some r' /\ kept r r';
  ad_back : forall id, is_Some (B' !! id) -> is_Some (B !! id) }.

Lemma advanced_refl ids B : advanced ids B B.
Proof. split; [done| |done]. intros id r Hr. exists r. by split. Qed.
Lemma advanced_trans ids B1 B2 B3 : advanced ids B1 B2 -> advanced ids B2 B3 -> advanced ids B1 B3.
Proof.
  intros [H1 H2 H3] [H4 H5 H6]. split; [|intros id r Hr|by auto].
  - intros id Hid. by rewrite H4, H1.
  - destruct (H2 id r Hr) as (r2 & Hr2 & Hk2 & Hc2 & Hf2). destruct (H5 id r2 Hr2) as (r3 & Hr3 & Hk3 & Hc3 & Hf3).
    exists r3. split; [done|]. split_and!; [congruence..|by auto].
Qed.
Lemma advanced_mono ids ids' B B' : ids ⊆ ids' -> advanced ids B B' -> advanced ids' B B'.
Proof. intros Hsub [H1 H2 H3]. split; [|done..]. intros id Hid. apply H1. by intros ?%Hsub. Qed.
Lemma advanced_insert id r r' B : B !! id = Some r -> kept r r' -> advanced [id] B (<[id := r']> B).
Proof.
  intros Hr Hk. split.
  - intros k Hk'. rewrite lookup_insert_ne; [done|]. intros ->. apply Hk'. left.
  - intros k x Hx. rewrite lookup_insert. case_decide; [subst; simplify_eq; by exists r'|]. exists x. by split.
  - intros k. rewrite lookup_insert. case_decide; [subst; by rewrite Hr|done].
Qed.
Lemma advanced_held ids B B' b : advanced ids B B' -> held B b -> held B' b.
Proof.
  intros Ha (r & Hr & Hk & Hc & Hf). destruct (ad_kept _ _ _ Ha _ _ Hr) as (r' & Hr' & Hk' & Hc' & Hf').
  exists r'. split_and!; [done|congruence..|by auto].
Qed.
Lemma advanced_unique ids B B' : advanced ids B B' -> unique_rows B -> unique_rows B'.
Proof.
  intros Ha Hu id1 id2 r1 r2 H1 H2 Hk. destruct (ad_back _ _ _ Ha id1) as [x1 Hx1]; [by rewrite H1|].
  destruct (ad_back _ _ _ Ha id2) as [x2 Hx2]; [by rewrite H2|].
  destruct (ad_kept _ _ _ Ha _ _ Hx1) as (y1 & Hy1 & Hk1 & _). destruct (ad_kept _ _ _ Ha _ _ Hx2) as (y2 & Hy2 & Hk2 & _).
  rewrite H1 in Hy1. rewrite H2 in Hy2. injection Hy1 as <-. injection Hy2 as <-.
  eapply Hu; [exact Hx1|exact Hx2|congruence].
Qed.

Definition finished (B : gmap Z buildRow) (id : Z) : Prop := exists r, B !! id = Some r /\ b_flag r <> ""%string.
Lemma advanced_finished ids B B' id : advanced ids B B' -> finished B id -> finished B' id.
Proof.
  intros Ha (r & Hr & Hf). destruct (ad_kept _ _ _ Ha _ _ Hr) as (r' & Hr' & _ & _ & Hf'). exists r'. auto.
Qed.
Definition same_builds (l l' : list BuildMetadata) : Prop :=
  bm_id <$> l' = bm_id <$> l /\ bm_challenge <$> l' = bm_challenge <$> l.

Section making.
Context (pins : Z) (template : string -> Z) (limits : artifactLimits) (purge : bool) (chalDir : string).

(** A build that is already on record is found again. *)
Lemma openHeld_again b R B F w b' w' :
  scene (R, B, F) w -> unique_rows B -> held B b -> openHeld pins template b w = ((None, b'), w') ->
  exists B', scene (R, B', F) w' /\ advanced [bm_id b] B B' /\ bm_id b' = bm_id b /\ keyOf b' = keyOf b /\ held B' b'.
Proof.
  intros Hs Hu (r & Hr & Hk & Hc & _) H.
  apply (openHeld_scene _ _ _ _ _ _ _ _ _ Hs Hu) in H as (row & Hs' & Hu' & Hkb & Hcb & _ & Hkr & Hcr & Hfr & Hold).
  assert (bm_id b' = bm_id b) as Hid.
  { destruct (decide (bm_id b' = bm_id b)) as [|Hne]; [done|].
    apply (Hu' _ _ row r); [apply lookup_insert_eq|by rewrite lookup_insert_ne|congruence]. }
  rewrite Hid in *. rewrite Hr in Hold. eexists. split; [exact Hs'|]. split_and!; [|done|done|].
  - eapply advanced_insert; [done|]. subst row. split_and!; [by rewrite <- Hc|by simpl|done].
  - exists row. rewrite Hid, lookup_insert_eq. split_and!; [done|congruence|congruence|by rewrite Hfr].
Qed.

Lemma buildMissing_scene c builds R B F w builds' w' :
  scene (R, B, F) w -> unique_rows B -> (forall b, b ∈ builds -> held B b) ->
  buildMissing pins template limits purge c builds w = ((None, builds'), w') ->
  exists B', scene (R, B', F) w' /\ advanced (bm_id <$> builds) B B' /\ same_builds builds builds' /\
    forall b, b ∈ builds -> finished B' (bm_id b).
Proof.
  revert B w builds'. induction builds as [|b builds IH]; intros B w builds' Hs Hu Hh H; simpl in H.
  { apply ret_inv in H as [H ->]. injection H as ->. exists B. split_and!; [done|apply advanced_refl|done|]. by intros b ?%elem_of_nil. }
  assert (held B b) as Hb by (apply Hh; left). assert (forall x, x ∈ builds -> held B x) as Hh' by (intros; apply Hh; by right).
  case_decide as Hf.
  - step H r w1 E1. destruct r as [err l]. apply ret_inv in H as [H ->]. injection H as <- ->.
    apply (IH _ _ _ Hs Hu Hh') in E1 as (B' & Hs' & Ha & [Hi Hc] & Hfin). exists B'. split_and!; [done| | |].
    + eapply advanced_mono; [|exact Ha]. rewrite fmap_cons. by right.
    + split; rewrite !fmap_cons; congruence.
    + intros x [->|Hx]%elem_of_cons; [|by apply Hfin]. eapply advanced_finished; [exact Ha|].
      destruct Hb as (r & Hr & _ & _ & Hfr). exists r. auto.
  - step H r1 w1 E1. destruct r1 as [[err|] b1]; [by apply ret_inv in H as [? _]|].
    apply (openHeld_again _ _ _ _ _ _ _ Hs Hu Hb) in E1 as (B1 & Hs1 & Ha1 & Hid1 & Hk1 & Hb1).
    step H r2 w2 E2. destruct r2 as [err b2]. pose proof (keeps_holds _ _ _ _ _ E2 Hs1) as Hs2.
    pose proof (executeBuild_stamps pins template limits c b1 w1) as [Hid2 Hch2 Hsd2 Hfm2 Hsc2 Hct2 _ _].
    pose proof (executeBuild_flag pins template limits c b1 w1) as Hfl2. rewrite E2 in Hid2, Hch2, Hsd2, Hfm2, Hsc2, Hct2, Hfl2.
    cbn [fst snd] in Hid2, Hch2, Hsd2, Hfm2, Hsc2, Hct2, Hfl2.
    destruct err as [err|]; [step H x w3 E3; by apply ret_inv in H as [? _]|]. specialize (Hfl2 eq_refl).
    step H f w3 E3. destruct f as [err|u]; [by apply ret_inv in H as [? _]|].
    apply (finalizeBuild_scene _ _ _ _ _ _ _ Hs2) in E3 as (row & Hrow & Hs3). step H u1 w4 E4.
    pose proof (keeps_holds _ _ _ _ _ E4 Hs3) as Hs4. set (B3 := <[bm_id b2 := finalizeRow b2 row]> B1) in *.
    assert (advanced [bm_id b] B B3) as Ha3.
    { eapply advanced_trans; [exact Ha1|]. subst B3. rewrite Hid2, Hid1 in *. by eapply advanced_insert. }
    step H r5 w5 E5. destruct r5 as [err l]. apply ret_inv in H as [H ->]. injection H as <- ->.
    apply (IH B3) in E5 as (B' & Hs' & Ha & [Hi Hc] & Hfin); [|done|by eapply advanced_unique|intros x Hx; by eapply advanced_held, Hh'].
    exists B'. split_and!; [done| | |].
    + eapply advanced_trans; [eapply advanced_mono; [|exact Ha3]|eapply advanced_mono; [|exact Ha]]; rewrite fmap_cons.
      * intros k ->%list_elem_of_singleton. left.
      * by right.
    + injection Hk1 as _ _ Hch1 _. split; rewrite !fmap_cons; congruence.
    + intros x [->|Hx]%elem_of_cons; [|by apply Hfin]. eapply advanced_finished; [exact Ha|]. rewrite <- Hid1, <- Hid2.
      exists (finalizeRow b2 row). subst B3. split; [apply lookup_insert_eq|done].
Qed.

(** Scans only read. *)
Section aloof_scan.
Context (I : World -> Prop) {HI : Aloof I}.
#[local] Instance aloof_safeToRefresh c : Keeps I (safeToRefresh c).
Proof. unfold safeToRefresh. keep. Qed.
#[local] Instance aloof_classifyChallenge old c s : Keeps I (classifyChallenge old c s).
Proof. unfold classifyChallenge. keep. Qed.
#[local] Instance aloof_classifyRows inv current s removed cu : Keeps I (classifyRows inv current s removed cu).
Proof. revert cu. induction current; intros; simpl; keep. Qed.
#[export] Instance aloof_DetectChanges fp : Keeps I (DetectChanges chalDir fp).
Proof. unfold DetectChanges, normalizeDirPath, listChallenges, staleChallengeSet, classifyChallenges. keep. Qed.
#[export] Instance aloof_requireIngestedBuilds builds : Keeps I (requireIngestedBuilds builds).
Proof. unfold requireIngestedBuilds, challengeHasStaleBuild. keep. Qed.
End aloof_scan.

Lemma held_finished B b : held B b -> bm_flag b <> ""%string -> finished B (bm_id b).
Proof. intros (r & Hr & _ & _ & Hf) Hb. exists r. auto. Qed.

Lemma generateBuilds_scene builds R B F w builds' w' :
  scene (R, B, F) w -> unique_rows B -> (forall b, b ∈ builds -> held B b) ->
  generateBuilds pins template limits purge chalDir builds w = ((None, builds'), w') ->
  exists B', scene (R, B', F) w' /\ advanced (bm_id <$> builds) B B' /\ same_builds builds builds' /\
    forall b, b ∈ builds -> finished B' (bm_id b).
Proof.
  intros Hs Hu Hh H. unfold generateBuilds in H. destruct builds as [|b0 builds].
  { apply ret_inv in H as [H ->]. injection H as ->. exists B. split_and!; [done|apply advanced_refl|done|]. by intros b ?%elem_of_nil. }
  assert (forall w1, scene (R, B, F) w1 -> (forall b, b ∈ b0 :: builds -> bm_flag b <> ""%string) ->
    exists B', scene (R, B', F) w1 /\ advanced (bm_id <$> b0 :: builds) B B' /\ same_builds (b0 :: builds) (b0 :: builds) /\
    forall b, b ∈ b0 :: builds -> finished B' (bm_id b)) as Hdone.
  { intros w1 Hs1 Hf. exists B. split_and!; [done|apply advanced_refl|done|]. intros b Hb. apply held_finished; auto. }
  step H m w1 E1. apply getM_inv in E1 as [-> ->]. destruct (m_externalBuildPlane (W_m w)).
  - step H r w1 E1. pose proof (keeps_holds _ _ _ _ _ E1 Hs) as Hs1. apply ret_inv in H as [H ->].
    destruct r as [err|u]; [done|]. injection H as ->. apply Hdone; [done|]. unfold requireIngestedBuilds in E1.
    case_decide as Hnone; [by apply ret_inv in E1 as [? _]|]. intros b Hb Hf.
    assert (b ∈ filter (fun b => bm_flag b = ""%string) (b0 :: builds)) as Hin by (by apply list_elem_of_filter).
    rewrite Hnone in Hin. by apply elem_of_nil in Hin.
  - step H r w1 E1. pose proof (keeps_holds _ _ _ _ _ E1 Hs) as Hs1. destruct r as [err|c]; [by apply ret_inv in H as [? _]|].
    step H u w2 E2. pose proof (keeps_holds _ _ _ _ _ E2 Hs1) as Hs2. destruct (forallb _ _) eqn:Ef.
    { apply ret_inv in H as [H ->]. injection H as ->. apply Hdone; [done|]. intros b Hb. rewrite forallb_forall in Ef.
      apply list_elem_of_In, Ef in Hb. apply negb_true_iff, bool_decide_eq_false in Hb. done. }
    case_decide; [by apply ret_inv in H as [? _]|]. destruct (_ || _); [by apply ret_inv in H as [? _]|].
    step H e w3 E3. pose proof (keeps_holds _ _ _ _ _ E3 Hs2) as Hs3. destruct e; [by apply ret_inv in H as [? _]|].
    by eapply buildMissing_scene.
Qed.
End making.

(** ** Bringing every build to its instances *)

(** How many instances a build should have: nothing to do for an on-demand or
    locked one, and none for a challenge that is not a service. *)
Definition wanted (c : ChallengeMetadata) (count : Z) : option Z :=
  if negb (NeedsInstance c) then Some 0
  else if decide (count = DYNAMIC_INSTANCES \/ count = LOCKED) then None else Some count.
Definition manned (c : ChallengeMetadata) (count : Z) (R R' : gmap Z BuildId) (id : BuildId) : Prop :=
  match wanted c count with
  | Some n => Z.of_nat (size (crew id R')) = n
  | None => crew id R' = crew id R
  end.

Lemma convergeBuild_scene b c target R B F w w' :
  tables_ok (W_m w) -> scene (R, B, F) w -> convergeBuildInstances b c target w = ([], w') ->
  tables_ok (W_m w') /\ exists R', scene (R', B, F) w' /\ (forall k, k <> bm_id b -> crew k R' = crew k R) /\
    Z.of_nat (size (crew (bm_id b) R')) = target.
Proof.
  intros Hok Hs H. split; [exact (keeps_gives _ _ _ _ _ H Hok)|].
  pose proof (keeps_holds _ _ _ _ _ H (scene_fixed _ _ _ _ Hs)) as Hf.
  apply (converge_roster _ _ _ _ _ _ _ Hok (proj1 Hs)) in H as (R' & Hs' & Hoth & Hn & _).
  exists R'. split_and!; [by apply scene_of|done|done].
Qed.

Lemma convergeGroup_scene schema c ch spec builds R B F w w' :
  tables_ok (W_m w) -> scene (R, B, F) w -> sch_challenges schema !! ch = Some spec ->
  (forall b, b ∈ builds -> bm_challenge b = ch) ->
  convergeGroup schema c builds w = (Some [], w') ->
  tables_ok (W_m w') /\ exists R', scene (R', B, F) w' /\
    (forall k, k ∉ bm_id <$> builds -> crew k R' = crew k R) /\
    (forall b, b ∈ builds -> manned c (spec_instanceCount spec) R R' (bm_id b)).
Proof.
  intros Hok Hs Hspec. revert R w Hok Hs. induction builds as [|b builds IH]; intros R w Hok Hs Hch H; simpl in H.
  { apply ret_inv in H as [_ ->]. split; [done|]. exists R. split_and!; [done|done|]. by intros b ?%elem_of_nil. }
  rewrite (Hch b), Hspec in H by left. simpl in H. set (count := spec_instanceCount spec) in *.
  step H r w1 E1. destruct r as [errs|]; [|by apply ret_inv in H as [? _]].
  step H more w2 E2. apply ret_inv in H as [H ->]. destruct more as [more|]; [|done]. injection H as H.
  symmetry in H. apply app_eq_nil in H as [-> ->].
  assert (tables_ok (W_m w1) /\ exists R1, scene (R1, B, F) w1 /\ (forall k, k <> bm_id b -> crew k R1 = crew k R) /\
    manned c count R R1 (bm_id b)) as (Hok1 & R1 & Hs1 & Hoth1 & Hm1).
  { unfold manned, wanted. destruct (NeedsInstance c); simpl in E1 |- *.
    - case_decide as Hd; [apply ret_inv in E1 as [_ ->]; split; [done|]; by exists R|].
      case_decide; [step E1 l w3 E3; apply ret_inv in E1 as [E1 _]; by destruct l|].
      step E1 errs w3 E3. apply ret_inv in E1 as [E1 ->]. injection E1 as <-. by eapply convergeBuild_scene.
    - step E1 errs w3 E3. apply ret_inv in E1 as [E1 ->]. injection E1 as <-. by eapply convergeBuild_scene. }
  apply (IH R1 _ Hok1 Hs1) in E2 as (Hok2 & R2 & Hs2 & Hoth2 & Hm2); [|intros x Hx; apply Hch; by right].
  split; [done|]. exists R2. split_and!; [done| |].
  - intros k [Hne Hk]%not_elem_of_cons. rewrite Hoth2, Hoth1; done.
  - assert (forall x, x ∈ builds -> manned c count R R2 (bm_id x)) as Htail.
    { intros x Hx. specialize (Hm2 x Hx). revert Hm1 Hm2. unfold manned. destruct (wanted c count); [done|].
      intros Hm1 ->. destruct (decide (bm_id x = bm_id b)) as [->|]; [done|by apply Hoth1]. }
    intros x [->|Hx]%elem_of_cons; [|by apply Htail].
    destruct (decide (bm_id b ∈ bm_id <$> builds)) as [(x & -> & Hx)%list_elem_of_fmap|Hn]; [by apply Htail|].
    revert Hm1. unfold manned. destruct (wanted c count); by rewrite Hoth2.
Qed.

(** A challenge as it is on record. *)
Definition recorded (F : string * gmap string challengeRow * gmap string challengeParts) (id : ChallengeId) : option ChallengeMetadata :=
  (fun r => challengeMeta id r (default noParts (F.2 !! id))) <$> F.1.2 !! id.
Lemma lookupChallenge_recorded s id w c w' :
  scene s w -> lookupChallengeMetadata id w = (inr c, w') -> scene s w' /\ recorded s.2 id = Some c.
Proof.
  intros Hs H. split; [exact (keeps_holds _ _ _ _ _ H Hs)|]. apply try_inr in H as (d & w1 & E & H).
  apply sqlRead_inv in E as (_ & _ & _ & ->). destruct Hs as [_ <-]. unfold recorded. simpl.
  destruct (t_challenges _ !! id); by apply ret_inv in H as [[= ->] _].
Qed.

Definition in_order (schema : Schema) F (R R' : gmap Z BuildId) (B' : gmap Z buildRow) (b : BuildMetadata) : Prop :=
  finished B' (bm_id b) /\ exists c spec, recorded F (bm_challenge b) = Some c /\
    sch_challenges schema !! bm_challenge b = Some spec /\ manned c (spec_instanceCount spec) R R' (bm_id b).

Definition groups (schema : Schema) (entries : list (ChallengeId * BuildSpecification)) (state : list (list BuildMetadata)) : Prop :=
  Forall2 (fun e builds => sch_challenges schema !! e.1 = Some e.2 /\ forall b, b ∈ builds -> bm_challenge b = e.1) entries state.

(** Builds of different challenges are different builds. *)
Lemma groups_disjoint schema ch entries state B (builds : list BuildMetadata) :
  groups schema entries state -> ch ∉ entries.*1 -> (forall b, b ∈ builds -> bm_challenge b = ch) ->
  (forall b, b ∈ builds \/ b ∈ mjoin state -> held B b) ->
  forall b, b ∈ builds -> bm_id b ∉ bm_id <$> mjoin state.
Proof.
  intros Hg Hch Hb Hh b Hin (x & E & Hx)%list_elem_of_fmap. destruct (Hh b) as (r & Hr & Hk & _); [by left|].
  destruct (Hh x) as (r' & Hr' & Hk' & _); [by right|]. rewrite E, Hr' in Hr. injection Hr as ->.
  assert (bm_challenge x = ch) as Hxc by (rewrite Hk in Hk'; injection Hk' as _ _ <- _; by apply Hb).
  apply list_elem_of_join in Hx as (g & Hxg & Hgs). apply list_elem_of_lookup in Hgs as [i Hi].
  destruct (Forall2_lookup_r _ _ _ _ _ Hg Hi) as ([ch' spec] & He & _ & Hall). simpl in Hall.
  rewrite (Hall _ Hxg) in Hxc. subst ch'. apply Hch. apply list_elem_of_fmap. exists (ch, spec). split; [easy|].
  by eapply list_elem_of_lookup_2.
Qed.

Section converging.
Context (pins : Z) (template : string -> Z) (limits : artifactLimits) (bp purge : bool) (chalDir : string).

(** One group: its builds made, then brought to their instances. *)
Lemma convergeOne_scene schema ch spec builds R B F w err builds' w1 r w' :
  tables_ok (W_m w) -> scene (R, B, F) w -> unique_rows B -> sch_challenges schema !! ch = Some spec ->
  (forall b, b ∈ builds -> bm_challenge b = ch) -> (forall b, b ∈ builds -> held B b) ->
  generateBuilds pins template limits purge chalDir builds w = ((err, builds'), w1) ->
  match err, builds' with
  | Some err, _ => mret (Some [err])
  | None, [] => mret (Some [])
  | None, b0 :: _ =>
    r ← lookupChallengeMetadata (bm_challenge b0);
    match r with inl err => mret (Some [err]) | inr c => convergeGroup schema c builds' end
  end w1 = (r, w') -> r = Some [] ->
  tables_ok (W_m w') /\ exists R' B', scene (R', B', F) w' /\ advanced (bm_id <$> builds) B B' /\
    (forall k, k ∉ bm_id <$> builds -> crew k R' = crew k R) /\ forall b, b ∈ builds -> in_order schema F R R' B' b.
Proof.
  intros Hok Hs Hu Hspec Hch Hh E1 E2 ->. pose proof (keeps_gives _ _ _ _ _ E1 Hok) as Hok1.
  destruct err as [err|]; [by apply ret_inv in E2 as [? _]|].
  apply (generateBuilds_scene _ _ _ _ _ _ _ _ _ _ _ _ Hs Hu Hh) in E1 as (B1 & Hs1 & Ha & [Hi Hc] & Hfin).
  destruct builds' as [|b0 builds'].
  { apply ret_inv in E2 as [_ ->]. destruct builds; [|discriminate]. split; [easy|]. exists R, B1. split_and!; [easy..|].
    by intros b ?%elem_of_nil. }
  step E2 c w2 E3. pose proof (keeps_gives _ _ _ _ _ E3 Hok1) as Hok2. destruct c as [err|c]; [by apply ret_inv in E2 as [? _]|].
  apply (lookupChallenge_recorded _ _ _ _ _ Hs1) in E3 as [Hs2 Hrec]. simpl in Hrec.
  assert (forall b, b ∈ b0 :: builds' -> bm_challenge b = ch) as Hch'.
  { intros b Hb. apply (list_elem_of_fmap_2 bm_challenge) in Hb. rewrite Hc in Hb.
    apply list_elem_of_fmap in Hb as (x & -> & Hx). by apply Hch. }
  apply (convergeGroup_scene _ _ _ _ _ _ _ _ _ _ Hok2 Hs2 Hspec Hch') in E2 as (Hok' & R' & Hs' & Hoth & Hman).
  rewrite Hi in Hoth. split; [easy|]. exists R', B1. split_and!; [easy..|]. intros b Hb. split; [by apply Hfin|].
  rewrite (Hch b Hb). exists c, spec. split_and!; [by rewrite <- (Hch' b0) by left|easy|].
  apply (list_elem_of_fmap_2 bm_id) in Hb. rewrite <- Hi in Hb. apply list_elem_of_fmap in Hb as (x & -> & Hx). by apply Hman.
Qed.

Lemma convergeGroups_scene schema entries state R B F w w' :
  tables_ok (W_m w) -> scene (R, B, F) w -> unique_rows B -> groups schema entries state -> NoDup entries.*1 ->
  (forall b, b ∈ mjoin state -> held B b) ->
  convergeGroups pins template limits purge chalDir schema state w = (Some [], w') ->
  exists R' B', scene (R', B', F) w' /\ advanced (bm_id <$> mjoin state) B B' /\
    (forall k, k ∉ bm_id <$> mjoin state -> crew k R' = crew k R) /\ forall b, b ∈ mjoin state -> in_order schema F R R' B' b.
Proof.
  intros Hok Hs Hu Hg. revert R B w Hok Hs Hu. induction Hg as [|[ch spec] builds entries state [Hspec Hch] Hg IH];
    intros R B w Hok Hs Hu Hnd Hh H; simpl in H.
  { apply ret_inv in H as [_ ->]. exists R, B. split_and!; [easy|apply advanced_refl|easy|]. by intros b ?%elem_of_nil. }
  apply NoDup_cons in Hnd as [Hnew Hnd]. simpl in Hspec, Hch, Hnew.
  step H g w1 E1. destruct g as [err builds']. step H r w2 E2. destruct r as [errs|]; [|by apply ret_inv in H as [? _]].
  step H more w3 E3. apply ret_inv in H as [H ->]. destruct more as [more|]; [|discriminate]. injection H as H.
  symmetry in H. apply app_eq_nil in H as [-> ->].
  assert (forall b, b ∈ builds \/ b ∈ mjoin state -> held B b) as Hh'.
  { intros b Hb. apply Hh. simpl. by rewrite elem_of_app. }
  eapply convergeOne_scene in E2 as (Hok1 & R1 & B1 & Hs1 & Ha1 & Hoth1 & Hd1); [|eassumption..|by auto|eassumption|easy].
  apply (IH R1 B1) in E3 as (R' & B' & Hs' & Ha' & Hoth' & Hd'); [|easy|easy|by eapply advanced_unique|easy|].
  2: { intros b Hb. eapply advanced_held; [exact Ha1|]. auto. }
  pose proof (groups_disjoint _ _ _ _ _ _ Hg Hnew Hch Hh') as Hdis.
  exists R', B'. simpl. rewrite fmap_app. split_and!; [easy| | |].
  - eapply advanced_trans; [eapply advanced_mono; [|exact Ha1]|eapply advanced_mono; [|exact Ha']]; intros k ?; apply elem_of_app; auto.
  - intros k [Hk1 Hk2]%not_elem_of_app. by rewrite Hoth', Hoth1.
  - intros b [Hb|Hb]%elem_of_app.
    + destruct (Hd1 b Hb) as (Hfin & c & sp & Hc & Hsp & Hm). split; [by eapply advanced_finished|]. exists c, sp. split_and!; [easy..|].
      revert Hm. unfold manned. rewrite (Hoth' (bm_id b)) by (by apply Hdis). easy.
    + destruct (Hd' b Hb) as (Hfin & c & sp & Hc & Hsp & Hm). split; [easy|]. exists c, sp. split_and!; [easy..|].
      revert Hm. unfold manned. destruct (wanted _ _); [easy|]. rewrite (Hoth1 (bm_id b)); [easy|].
      intros (x & E & Hx)%list_elem_of_fmap. apply (Hdis x Hx). rewrite <- E. by apply list_elem_of_fmap_2.
Qed.
End converging.

(** ** Opening the builds a schema names *)
Definition countOf (schema : Schema) (ch : ChallengeId) : Z := from_option spec_instanceCount 0 (sch_challenges schema !! ch).
(** The builds opened so far, over the rows as they were locked. *)
Record opening (schema : Schema) (B1 B : gmap Z buildRow) (bs : list BuildMetadata) : Prop := {
  og_unique : unique_rows B;
  og_other : forall id r, b_schema r <> sch_name schema -> B !! id = Some r <-> B1 !! id = Some r;
  og_held : forall b, b ∈ bs -> held B b /\ bm_schema b = sch_name schema /\ bm_format b = sch_flagFormat schema /\
              bm_instanceCount b = countOf schema (bm_challenge b);
  og_named : forall id r, B !! id = Some r -> b_schema r = sch_name schema -> b_instancecount r <> LOCKED -> id ∈ bm_id <$> bs }.
Lemma opening_ext schema B1 B bs bs' : (forall b, b ∈ bs <-> b ∈ bs') -> opening schema B1 B bs -> opening schema B1 B bs'.
Proof.
  intros He [H1 H2 H3 H4]. split; [done|done| |].
  - intros b Hb. apply H3. by apply He.
  - intros id r Hr Hs Hc. destruct (proj1 (list_elem_of_fmap _ _ _) (H4 id r Hr Hs Hc)) as (b & -> & Hb).
    apply list_elem_of_fmap_2. by apply He.
Qed.

Section openings.
Context (pins : Z) (template : string -> Z) (schema : Schema).

Lemma openHeld_opening ch seed bs R B1 B F w b' w' :
  scene (R, B, F) w -> opening schema B1 B bs ->
  openHeld pins template (mkBuild 0 "" ∅ seed (sch_flagFormat schema) 0 0 0 [] false 0 ch [] (sch_name schema) (countOf schema ch)) w
    = ((None, b'), w') ->
  exists B', scene (R, B', F) w' /\ opening schema B1 B' (b' :: bs) /\ bm_challenge b' = ch /\ bm_seed b' = seed.
Proof.
  intros Hs [Hu Hoth Hh Hn] H.
  apply (openHeld_scene _ _ _ _ _ _ _ _ _ Hs Hu) in H as (row & Hs' & Hu' & Hkb & Hcb & _ & Hkr & Hcr & Hfr & Hold).
  unfold keyOf in Hkb, Hkr. simpl in Hkb, Hcb, Hkr, Hcr, Hold. injection Hkb as Hks Hkf Hkc Hkd.
  assert (b_schema row = sch_name schema) as Hrs by (unfold buildKey in Hkr; congruence).
  assert (forall old, B !! bm_id b' = Some old -> buildKey old = buildKey row) as Hok.
  { intros old Ho. rewrite Ho in Hold. by rewrite Hold. }
  eexists. split; [exact Hs'|]. split; [|done]. split; [done| | |].
  - intros id r Hr. rewrite <- Hoth by done. rewrite lookup_insert. case_decide as Hid; [|done]. subst id. split.
    + intros [= ->]. done.
    + intros Ho. apply Hok in Ho. unfold buildKey in Ho. congruence.
  - intros b [->|Hb]%elem_of_cons.
    + split_and!; [|done..|congruence]. exists row. rewrite lookup_insert_eq. unfold keyOf.
      split_and!; [done|congruence|congruence|by rewrite Hfr].
    + destruct (Hh b Hb) as ((r & Hr & Hk & Hc & Hf) & Hbs & Hbf & Hbc). split_and!; [|done..].
      unfold held. rewrite lookup_insert. case_decide as Hid; [|by exists r]. rewrite Hid in Hok, Hold.
      specialize (Hok r Hr). rewrite Hr in Hold. exists row. split_and!; [done|congruence| |by rewrite Hold].
      rewrite Hcr, Hbc. f_equal. rewrite Hk, Hkr in Hok. unfold keyOf in Hok. congruence.
  - intros id r. rewrite lookup_insert. rewrite fmap_cons. case_decide as Hid; [subst id; intros; by left|].
    intros Hr Hrs' Hrc. right. by eapply Hn.
Qed.

Lemma openGroup_opening ch spec seeds bs R B1 B F w builds w' :
  scene (R, B, F) w -> opening schema B1 B bs -> sch_challenges schema !! ch = Some spec ->
  openGroup pins template schema ch (spec_instanceCount spec) seeds w = ((builds, []), w') ->
  exists B', scene (R, B', F) w' /\ opening schema B1 B' (builds ++ bs) /\
    (forall b, b ∈ builds -> bm_challenge b = ch) /\ bm_seed <$> builds = seeds.
Proof.
  intros Hs Ho Hspec. assert (spec_instanceCount spec = countOf schema ch) as Hcount by (unfold countOf; by rewrite Hspec).
  rewrite Hcount. revert bs B w builds Hs Ho. induction seeds as [|seed seeds IH]; intros bs B w builds Hs Ho H; simpl in H.
  { apply ret_inv in H as [H ->]. injection H as ->. exists B. split_and!; [done|done| |done]. by intros b ?%elem_of_nil. }
  step H r w1 E1. destruct r as [err b]. step H r w2 E2. destruct r as [l errs]. apply ret_inv in H as [H ->].
  destruct err; [done|]. injection H as -> <-.
  apply (openHeld_opening _ _ _ _ _ _ _ _ _ _ Hs Ho) in E1 as (B2 & Hs1 & Ho1 & Hc1 & Hsd1).
  apply (IH _ _ _ _ Hs1 Ho1) in E2 as (B' & Hs' & Ho' & Hc' & Hsd'). exists B'. split_and!; [done| | |].
  - eapply opening_ext; [|exact Ho']. intros x. rewrite <- app_comm_cons, !elem_of_app, !elem_of_cons, elem_of_app. tauto.
  - intros x [->|Hx]%elem_of_cons; [done|by apply Hc'].
  - rewrite fmap_cons. congruence.
Qed.

Definition seeded : list (ChallengeId * BuildSpecification) -> list (list BuildMetadata) -> Prop :=
  Forall2 (fun e builds => bm_seed <$> builds = spec_seeds e.2).
Lemma openGroups_opening entries bs R B1 B F w state w' :
  scene (R, B, F) w -> opening schema B1 B bs -> (forall e, e ∈ entries -> sch_challenges schema !! e.1 = Some e.2) ->
  openGroups pins template schema entries w = ((state, []), w') ->
  exists B', scene (R, B', F) w' /\ opening schema B1 B' (mjoin state ++ bs) /\ groups schema entries state /\ seeded entries state.
Proof.
  revert bs B w state. induction entries as [|[ch spec] entries IH]; intros bs B w state Hs Ho He H; simpl in H.
  { apply ret_inv in H as [H ->]. injection H as ->. exists B. split_and!; [done|done|constructor..]. }
  assert (sch_challenges schema !! ch = Some spec) as Hspec by (apply (He (ch, spec)); left).
  step H r w1 E1. destruct r as [builds errs]. step H r w2 E2. destruct r as [l more]. apply ret_inv in H as [H ->].
  injection H as -> H. symmetry in H. apply app_eq_nil in H as [-> ->].
  apply (openGroup_opening _ _ _ _ _ _ _ _ _ _ _ Hs Ho Hspec) in E1 as (B2 & Hs1 & Ho1 & Hc1 & Hsd1).
  apply (IH _ _ _ _ Hs1 Ho1) in E2 as (B' & Hs' & Ho' & Hg & Hsd); [|intros e ?; apply He; by right].
  exists B'. split_and!; [done| |by constructor|by constructor].
  eapply opening_ext; [|exact Ho']. intros x. simpl. rewrite !elem_of_app. tauto.
Qed.
End openings.

(** ** Releasing what is left locked *)
Definition framed F (w : World) : Prop := frame (W_m w) = F.
#[export] Instance aloof_framed F : Aloof (framed F).
Proof. split; unfold framed; [by intros w w' _ _ ->|]. intros w n <-. apply run_ops_frame. Qed.
Section framed.
Context (F : string * gmap string challengeRow * gmap string challengeParts).
Lemma framed_sql {A} (f : Db -> option (Db * A)) :
  (forall d d' a, f d = Some (d', a) -> t_challenges d' = t_challenges d /\ t_parts d' = t_parts d) -> Keeps (framed F) (sql f).
Proof.
  intros Hf w Hw. unfold framed in *. run. destruct (o_db _ _); simpl; [done|].
  destruct (f (m_db (W_m w))) as [[d' a]|] eqn:E; simpl; [|done]. destruct (Hf _ _ _ E) as [H1 H2].
  rewrite <- Hw. unfold frame. simpl. by rewrite H1, H2.
Qed.
#[export] Instance framed_retryable {A} (e : M (error + A)) : Keeps (framed F) e -> Keeps (framed F) (retryable e).
Proof. intros He. unfold retryable. keep. Qed.
#[export] Instance framed_stopInstance i : Keeps (framed F) (stopInstance i).
Proof.
  unfold stopInstance, removeInstanceMetadata. keep; apply framed_retryable, framed_sql; by intros d d' [] [= <-].
Qed.
#[export] Instance framed_stopAll ids : Keeps (framed F) (stopAll ids).
Proof. induction ids; simpl; keep. Qed.
#[export] Instance framed_removeBuildMetadata id : Keeps (framed F) (removeBuildMetadata id).
Proof.
  unfold removeBuildMetadata. apply (aloof_transaction (framed F)); [apply _|]. keep; apply framed_sql; intros d d' [].
  - by intros [= <-].
  - unfold stmt, deleteBuild. case_decide; [|done]. by intros [= <-].
Qed.
#[export] Instance framed_destroyImages bp id retire : Keeps (framed F) (destroyImages bp id retire).
Proof. unfold destroyImages. keep. Qed.
#[export] Instance framed_destroyAll bp ids retire : Keeps (framed F) (destroyAll bp ids retire).
Proof. induction ids; simpl; keep. Qed.
#[export] Instance framed_cleanup bp name retire : Keeps (framed F) (cleanupSchemaResources bp name retire).
Proof. unfold cleanupSchemaResources, removedSchemaInstances, removedSchemaBuilds. keep. Qed.
End framed.
Lemma cleanup_scene bp name retire R B F w u w' :
  scene (R, B, F) w -> cleanupSchemaResources bp name retire w = (inr u, w') ->
  scene (filter (fun kv => releasedBuild name B kv.2 = false) R, filter (fun kv => released name kv.2 = false) B, F) w'.
Proof.
  intros [Hs HF] H. split; [by eapply cleanup_view|]. exact (keeps_holds (framed F) _ _ _ _ H HF).
Qed.

(** What is left of the rows, and of the roster, once the obsolete builds are
    released. *)
Section released.
Context (schema : Schema) (B1 B2 : gmap Z buildRow) (bs : list BuildMetadata).
Hypothesis Hop : opening schema B1 B2 bs.
Hypothesis Hlock : forall ch spec, sch_challenges schema !! ch = Some spec -> spec_instanceCount spec <> LOCKED.
Hypothesis Hin : forall b, b ∈ bs -> is_Some (sch_challenges schema !! bm_challenge b).
Local Abbreviation name := (sch_name schema).
Local Abbreviation B3 := (filter (fun kv => released name kv.2 = false) B2).

Lemma released_held b : b ∈ bs -> held B3 b /\ releasedBuild name B2 (bm_id b) = false.
Proof.
  intros Hb. destruct (og_held _ _ _ _ Hop b Hb) as ((r & Hr & Hk & Hc & Hf) & _ & _ & Hcount).
  assert (released name r = false) as Hrel.
  { unfold released. rewrite (bool_decide_eq_false_2 (b_instancecount r = LOCKED)); [by rewrite andb_false_r|].
    rewrite Hc, Hcount. unfold countOf. destruct (Hin b Hb) as [spec Hspec]. rewrite Hspec. by eapply Hlock. }
  split; [|unfold releasedBuild; by rewrite Hr]. exists r. split_and!; [by apply map_lookup_filter_Some|done..].
Qed.
Lemma released_unique : unique_rows B3.
Proof.
  intros id1 id2 r1 r2 [H1 _]%map_lookup_filter_Some [H2 _]%map_lookup_filter_Some. by eapply (og_unique _ _ _ _ Hop).
Qed.
Lemma released_other id r : b_schema r <> name -> B3 !! id = Some r <-> B1 !! id = Some r.
Proof.
  intros Hr. rewrite <- (og_other _ _ _ _ Hop) by done. rewrite map_lookup_filter_Some. simpl. split; [by intros [? _]|].
  intros ?. split; [done|]. unfold released. by rewrite bool_decide_eq_false_2.
Qed.
Lemma released_named id r : B3 !! id = Some r -> b_schema r = name -> id ∈ bm_id <$> bs.
Proof.
  intros [Hr Hrel]%map_lookup_filter_Some Hs. eapply (og_named _ _ _ _ Hop); [done..|]. simpl in Hrel. unfold released in Hrel.
  rewrite (bool_decide_eq_true_2 (b_schema r = name)) in Hrel by done. by apply bool_decide_eq_false in Hrel.
Qed.
Lemma released_crew R id : releasedBuild name B2 id = false -> crew id (filter (fun kv => releasedBuild name B2 kv.2 = false) R) = crew id R.
Proof.
  intros Hrel. apply set_eq. intros k. rewrite !elem_of_crew, map_lookup_filter_Some. simpl. naive_solver.
Qed.
End released.

Lemma locked_opening schema d :
  builds_unique d -> opening schema (t_builds (lockSchemaRows (sch_name schema) d)) (t_builds (lockSchemaRows (sch_name schema) d)) [].
Proof.
  intros Hu. simpl. split; [|done|by intros b ?%elem_of_nil|].
  - intros id1 id2 r1 r2. rewrite !lookup_fmap, !fmap_Some. intros (x1 & H1 & ->) (x2 & H2 & ->) Hk.
    eapply Hu; [done..|]. revert Hk. by repeat case_decide.
  - intros id r. rewrite lookup_fmap, fmap_Some. intros (x & Hx & ->). by case_decide.
Qed.
Lemma locked_other schema d id r :
  b_schema r <> sch_name schema -> t_builds (lockSchemaRows (sch_name schema) d) !! id = Some r <-> t_builds d !! id = Some r.
Proof.
  intros Hr. simpl. rewrite lookup_fmap, fmap_Some. split.
  - intros (x & Hx & ->). revert Hr. case_decide; [|done]. simpl. congruence.
  - intros Hx. exists r. by rewrite decide_False.
Qed.

(** The phases of a converge that reports no error. *)
Lemma convergeSchema_phases pins template limits bp purge chalDir schema w w' :
  tables_ok (W_m w) -> builds_unique (m_db (W_m w)) -> unmolested (W_o w) ->
  (forall ch spec, sch_challenges schema !! ch = Some spec -> spec_instanceCount spec <> LOCKED) ->
  convergeSchema pins template limits bp purge chalDir schema w = (Some [], w') ->
  let B1 := t_builds (lockSchemaRows (sch_name schema) (m_db (W_m w))) in
  let R := roster (m_db (W_m w)) in let F := frame (W_m w) in
  exists B2 state R' B', opening schema B1 B2 (mjoin state) /\ seeded (map_to_list (sch_challenges schema)) state /\
    groups schema (map_to_list (sch_challenges schema)) state /\
    let R3 := filter (fun kv => releasedBuild (sch_name schema) B2 kv.2 = false) R in
    let B3 := filter (fun kv => released (sch_name schema) kv.2 = false) B2 in
    scene (R', B', F) w' /\ advanced (bm_id <$> mjoin state) B3 B' /\
    (forall k, k ∉ bm_id <$> mjoin state -> crew k R' = crew k R3) /\
    (forall b, b ∈ mjoin state -> in_order schema F R3 R' B' b /\ is_Some (sch_challenges schema !! bm_challenge b)).
Proof.
  intros Hok Hu Hun Hlock H B1 R F. unfold convergeSchema in H. step H m w1 E1. apply getM_inv in E1 as [-> ->].
  step H refused w1 E1. assert (scene (view (W_m w), F) w) as Hs by done.
  assert (scene (view (W_m w), F) w1 /\ tables_ok (W_m w1) /\ W_m w1 = W_m w) as (Hs1 & Hok1 & Hm1).
  { destruct (m_externalBuildPlane (W_m w)); [|by apply ret_inv in E1 as [_ ->]]. assert (W_m w1 = W_m w) as Hm.
    { unfold requireHandedOver in E1. step E1 k w2 E2. apply sqlRead_inv in E2 as (Hm2 & _).
      destruct k as [e|k]; [apply ret_inv in E1 as [_ ->]; done|]. step E1 l w3 E3. apply sqlRead_inv in E3 as (Hm3 & _).
      destruct l; apply ret_inv in E1 as [_ ->]; congruence. }
    split_and!; [|by rewrite Hm|done]. refine (keeps_holds (scene _) _ _ _ _ E1 Hs). unfold requireHandedOver. keep. }
  case_decide as Href; [apply ret_inv in H as [H _]; by injection H as <-|]. step H r w2 E2.
  pose proof (keeps_gives _ _ _ _ _ E2 Hok1) as Hok2. destruct r as [err|u]; [by apply ret_inv in H as [? _]|].
  pose proof E2 as E2'. apply sql_inr in E2' as (E2' & _ & _). injection E2' as Hd2 _. rewrite Hm1 in Hd2.
  assert (scene (R, B1, F) w2) as Hs2.
  { subst B1. rewrite Hd2. unfold lockSchema, sqlExec in E2. eapply scene_sql; [exact Hs1|exact E2|]. by intros d d' [= <-]. }
  step H r w3 E3. destruct r as [state errs]. pose proof (keeps_gives _ _ _ _ _ E3 Hok2) as Hok3. step H r w4 E4.
  pose proof (keeps_gives _ _ _ _ _ E4 Hok3) as Hok4. step H more w5 E5. apply ret_inv in H as [H ->].
  destruct more as [more|]; [|done]. injection H as H. symmetry in H. apply app_eq_nil in H as [H ->].
  apply app_eq_nil in H as [-> Hr]. destruct r as [err|u4]; [done|].
  edestruct openGroups_opening as (B2 & Hs3 & Ho & Hg & Hsd);
    [exact Hs2|exact (locked_opening _ _ Hu)| |exact E3|]; [intros [ch spec] He; by apply elem_of_map_to_list in He|].
  rewrite app_nil_r in Ho. pose proof (cleanup_scene _ _ _ _ _ _ _ _ _ Hs3 E4) as Hs4.
  assert (forall b, b ∈ mjoin state -> is_Some (sch_challenges schema !! bm_challenge b)) as Hin.
  { intros b (g & Hb & [i Hi]%list_elem_of_lookup)%list_elem_of_join.
    destruct (Forall2_lookup_r _ _ _ _ _ Hg Hi) as ([ch spec] & _ & Hspec & Hall). rewrite (Hall _ Hb). by eexists. }
  eapply convergeGroups_scene in E5 as (R' & B' & Hs' & Ha & Hoth & Hd);
    [|exact Hok4|exact Hs4|by eapply released_unique|exact Hg|apply NoDup_fst_map_to_list|intros b Hb; by eapply released_held].
  exists B2, state, R', B'. do 3 (split; [done|]). cbv zeta. do 3 (split; [done|]).
  intros b Hb. split; [by apply Hd|by apply Hin].
Qed.

(** What the phases come to, said of the tables. *)
Section assembled.
Context (schema : Schema) (d d' : Db) (B2 : gmap Z buildRow) (state : list (list BuildMetadata)).
Context (F : string * gmap string challengeRow * gmap string challengeParts).
Local Abbreviation name := (sch_name schema).
Local Abbreviation B' := (t_builds d').
Local Abbreviation R' := (roster d').
Local Abbreviation R3 := (filter (fun kv => releasedBuild name B2 kv.2 = false) (roster d)).
Hypothesis Hlock : forall ch spec, sch_challenges schema !! ch = Some spec -> spec_instanceCount spec <> LOCKED.
Hypothesis Hop : opening schema (t_builds (lockSchemaRows name d)) B2 (mjoin state).
Hypothesis Hsd : seeded (map_to_list (sch_challenges schema)) state.
Hypothesis Hg : groups schema (map_to_list (sch_challenges schema)) state.
Hypothesis Ha : advanced (bm_id <$> mjoin state) (filter (fun kv => released name kv.2 = false) B2) B'.
Hypothesis Hoth : forall k, k ∉ bm_id <$> mjoin state -> crew k R' = crew k R3.
Hypothesis Hall : forall b, b ∈ mjoin state -> in_order schema F R3 R' B' b /\ is_Some (sch_challenges schema !! bm_challenge b).

Lemma as_held b : b ∈ mjoin state -> held B' b /\ releasedBuild name B2 (bm_id b) = false.
Proof.
  intros Hb. destruct (released_held _ _ _ _ Hop Hlock (fun b Hb => proj2 (Hall b Hb)) b Hb) as [Hh Hr].
  split; [|done]. by eapply advanced_held.
Qed.
Lemma as_other_id id r : b_schema r <> name -> B' !! id = Some r \/ t_builds d !! id = Some r -> id ∉ bm_id <$> mjoin state.
Proof.
  intros Hr Hid (b & -> & Hb)%list_elem_of_fmap. apply Hr. destruct (as_held b Hb) as [(x & Hx & Hk & _) _].
  destruct (og_held _ _ _ _ Hop b Hb) as ((y & Hy & Hky & _) & Hs & _). destruct Hid as [Hid|Hid].
  - rewrite Hx in Hid. injection Hid as <-. unfold buildKey, keyOf in Hk. congruence.
  - apply (locked_other schema), (og_other _ _ _ _ Hop) in Hid; [|done..]. rewrite Hy in Hid. injection Hid as <-.
    unfold buildKey, keyOf in Hky. congruence.
Qed.
Lemma as_other id r : b_schema r <> name -> B' !! id = Some r <-> t_builds d !! id = Some r.
Proof.
  intros Hr. split; intros Hid; pose proof (as_other_id id r Hr ltac:(auto)) as Hn; revert Hid;
    rewrite (ad_other _ _ _ Ha) by done; rewrite (released_other _ _ _ _ Hop), (locked_other schema) by done; done.
Qed.
Lemma as_crew id r : b_schema r <> name -> t_builds d !! id = Some r -> crew id R' = crew id (roster d).
Proof.
  intros Hr Hid. rewrite Hoth by (by eapply as_other_id; [|right]). apply released_crew.
  apply (locked_other schema), (og_other _ _ _ _ Hop) in Hid; [|done..]. unfold releasedBuild, released. rewrite Hid.
  by rewrite bool_decide_eq_false_2.
Qed.
Lemma as_named ch spec seed : sch_challenges schema !! ch = Some spec -> seed ∈ spec_seeds spec ->
  exists id r, B' !! id = Some r /\ buildKey r = (name, sch_flagFormat schema, ch, seed) /\
    b_instancecount r = spec_instanceCount spec /\ b_flag r <> ""%string.
Proof.
  intros Hspec Hseed. assert ((ch, spec) ∈ map_to_list (sch_challenges schema)) as [i Hi]%list_elem_of_lookup
    by (by apply elem_of_map_to_list).
  destruct (Forall2_lookup_l _ _ _ _ _ Hsd Hi) as (g & Hgi & Hs). simpl in Hs. rewrite <- Hs in Hseed.
  destruct (Forall2_lookup_l _ _ _ _ _ Hg Hi) as (g' & Hgi' & _ & Hc). simpl in Hc. rewrite Hgi in Hgi'. injection Hgi' as <-.
  apply list_elem_of_fmap in Hseed as (b & -> & Hb).
  assert (b ∈ mjoin state) as Hin by (apply list_elem_of_join; exists g; split; [done|by eapply list_elem_of_lookup_2]).
  destruct (as_held b Hin) as [(r & Hr & Hk & Hcount & _) _]. destruct (og_held _ _ _ _ Hop b Hin) as (_ & H1 & H2 & H3).
  destruct (Hall b Hin) as [[(r' & Hr' & Hf) _] _]. rewrite Hr in Hr'. injection Hr' as <-. exists (bm_id b), r.
  split_and!; [done| |rewrite Hcount, H3; unfold countOf; by rewrite (Hc b Hb), Hspec|done].
  rewrite Hk. unfold keyOf. by rewrite H1, H2, (Hc b Hb).
Qed.
Lemma as_only id r : B' !! id = Some r -> b_schema r = name ->
  exists spec c, sch_challenges schema !! b_challenge r = Some spec /\ b_seed r ∈ spec_seeds spec /\
    b_format r = sch_flagFormat schema /\ recorded F (b_challenge r) = Some c /\
    manned c (spec_instanceCount spec) (roster d) R' id.
Proof.
  intros Hid Hs. destruct (ad_back _ _ _ Ha id) as [x Hx]; [by rewrite Hid|].
  destruct (ad_kept _ _ _ Ha _ _ Hx) as (r' & Hr' & Hk & _). rewrite Hid in Hr'. injection Hr' as <-.
  assert (id ∈ bm_id <$> mjoin state) as (b & -> & Hb)%list_elem_of_fmap.
  { eapply released_named; [exact Hop|exact Hx|]. unfold buildKey in Hk. congruence. }
  destruct (as_held b Hb) as [(r' & Hr' & Hkb & _) Hrel]. rewrite Hid in Hr'. injection Hr' as <-.
  destruct (og_held _ _ _ _ Hop b Hb) as (_ & _ & Hfmt & _). destruct (Hall b Hb) as [[_ (c & spec & Hc & Hspec & Hm)] _].
  unfold buildKey, keyOf in Hkb. injection Hkb as _ -> -> ->. exists spec, c. split_and!; [done| |done|done|].
  - apply list_elem_of_join in Hb as (g & Hb & [i Hi]%list_elem_of_lookup).
    destruct (Forall2_lookup_r _ _ _ _ _ Hsd Hi) as ([ch sp] & He & Hseeds).
    destruct (Forall2_lookup_r _ _ _ _ _ Hg Hi) as (e & He' & Hsp & Hch). rewrite He in He'. injection He' as <-. simpl in *.
    rewrite (Hch b Hb), Hsp in Hspec. injection Hspec as ->. rewrite <- Hseeds. by apply list_elem_of_fmap_2.
  - revert Hm. unfold manned. destruct (wanted _ _); [done|]. intros ->. by apply released_crew.
Qed.
End assembled.

Section converged.
Context (pins : Z) (template : string -> Z) (limits : artifactLimits) (bp purge : bool) (chalDir : string).

(** C16. A schema that has converged is as it was written: with no error
    reported, every seed it names has a finished build with the count asked
    for, the schema has no other build, and each of its builds runs exactly as
    many instances as it wants -- none for a challenge that is no service, those
    it had for an on-demand one; the builds of every other schema and their
    instances are as they were.  It holds as long as no worker is removed
    meanwhile and the document does not itself ask for the count that marks a
    build as obsolete. *)
Theorem convergeSchema_correct schema w w' :
  tables_ok (W_m w) -> builds_unique (m_db (W_m w)) -> unmolested (W_o w) ->
  (forall ch spec, sch_challenges schema !! ch = Some spec -> spec_instanceCount spec <> LOCKED) ->
  convergeSchema pins template limits bp purge chalDir schema w = (Some [], w') ->
  let d := m_db (W_m w) in let d' := m_db (W_m w') in
  (forall ch spec seed, sch_challenges schema !! ch = Some spec -> seed ∈ spec_seeds spec ->
     exists id r, t_builds d' !! id = Some r /\ buildKey r = (sch_name schema, sch_flagFormat schema, ch, seed) /\
       b_instancecount r = spec_instanceCount spec /\ b_flag r <> ""%string) /\
  (forall id r, t_builds d' !! id = Some r -> b_schema r = sch_name schema ->
     exists spec row, sch_challenges schema !! b_challenge r = Some spec /\ b_seed r ∈ spec_seeds spec /\
       b_format r = sch_flagFormat schema /\ t_challenges d !! b_challenge r = Some row /\
       match wanted (challengeMeta (b_challenge r) row (challengeParts_of (b_challenge r) d)) (spec_instanceCount spec) with
       | Some n => Z.of_nat (length (instancesOfBuild id d')) = n
       | None => forall i, i ∈ instancesOfBuild id d' <-> i ∈ instancesOfBuild id d
       end) /\
  (forall id r, b_schema r <> sch_name schema -> t_builds d' !! id = Some r <-> t_builds d !! id = Some r) /\
  (forall id r i, t_builds d !! id = Some r -> b_schema r <> sch_name schema ->
     i ∈ instancesOfBuild id d' <-> i ∈ instancesOfBuild id d).
Proof.
  intros Hok Hu Hun Hlock H.
  destruct (convergeSchema_phases _ _ _ _ _ _ _ _ _ Hok Hu Hun Hlock H)
    as (B2 & state & R' & B' & Hop & Hsd & Hg & [[_ Hv] _] & Ha & Hoth & Hall). injection Hv as <- <-. cbv zeta.
  assert (forall id, (forall i, i ∈ instancesOfBuild id (m_db (W_m w')) <-> i ∈ instancesOfBuild id (m_db (W_m w))) <->
    crew id (roster (m_db (W_m w'))) = crew id (roster (m_db (W_m w)))) as Hcrew.
  { intros id. rewrite <- !crew_instances, set_eq. by setoid_rewrite elem_of_list_to_set. }
  split_and!.
  - intros ch spec seed. by eapply as_named.
  - intros id r Hr Hs. edestruct as_only as (spec & c & H1 & H2 & H3 & H4 & H5); [exact Hlock|exact Hop|exact Hsd|exact Hg|exact Ha|exact Hall|exact Hr|exact Hs|].
    apply fmap_Some in H4 as (row & Hrow & ->). exists spec, row. split_and!; [done..|]. unfold manned in H5.
    change (default noParts _) with (challengeParts_of (b_challenge r) (m_db (W_m w))) in H5.
    destruct (wanted _ _); [by rewrite crew_size|by apply Hcrew].
  - intros id r. by eapply as_other.
  - intros id r i Hr Hs. revert i. apply Hcrew. by eapply as_crew.
Qed.
End converged.

Lemma mjoin_fmap_nil {A B} (f : A -> list B) l x : mjoin (f <$> l) = [] -> x ∈ l -> f x = [].
Proof. intros H Hx. induction Hx; simpl in H; apply app_eq_nil in H as [? ?]; auto. Qed.
(** What a converge on an external build plane asks before it starts. *)
Lemma requireHandedOver_spec schema w errs w' :
  requireHandedOver schema w = (errs, w') ->
  W_m w' = W_m w /\ W_trace w' = W_trace w /\
  (errs = [] -> forall ch spec seed, sch_challenges schema !! ch = Some spec -> seed ∈ spec_seeds spec ->
     is_Some (t_challenges (m_db (W_m w)) !! ch) /\
     exists id r, t_builds (m_db (W_m w)) !! id = Some r /\ buildKey r = (sch_name schema, sch_flagFormat schema, ch, seed) /\
       b_flag r <> ""%string).
Proof.
  intros H. unfold requireHandedOver in H. step H k w1 E1. apply sqlRead_inv in E1 as (Hm1 & _ & Ht1 & Hk).
  destruct k as [e|k]; [by apply ret_inv in H as [-> ->]|]. step H l w2 E2. apply sqlRead_inv in E2 as (Hm2 & _ & Ht2 & Hl).
  destruct l as [e|l]; [apply ret_inv in H as [-> ->]; split_and!; [congruence|congruence|done]|].
  apply ret_inv in H as [-> ->]. split; [congruence|]. split; [congruence|]. intros Hnil ch spec seed Hspec Hseed.
  assert (ch ∈ sorted (dom (sch_challenges schema))) as Hin.
  { unfold sorted. rewrite merge_sort_Permutation, elem_of_elements, elem_of_dom. by eexists. }
  pose proof (mjoin_fmap_nil _ _ _ Hnil Hin) as Hch.
  cbv beta in Hch. rewrite Hspec in Hch. case_decide as Hempty; [rewrite Hempty in Hseed; by apply elem_of_nil in Hseed|].
  case_decide as Hknown; [done|]. case_decide as Hmiss; [done|]. subst k l. rewrite Hm1 in *. split.
  - apply elem_of_dom. by apply dec_stable.
  - assert ((ch, seed) ∈ (fun kv => (b_challenge kv.2, b_seed kv.2)) <$> filter (fun kv =>
          b_schema kv.2 = sch_name schema /\ b_format kv.2 = sch_flagFormat schema /\ b_flag kv.2 <> ""%string)
          (rows (t_builds (m_db (W_m w))))) as Hb.
    { apply dec_stable. intros Hn. assert (seed ∈ @nil Z) as []%elem_of_nil. rewrite <- Hmiss. by apply list_elem_of_filter. }
    apply list_elem_of_fmap in Hb as ([id r] & [= -> ->] & [(H1 & H2 & H3) Hr]%list_elem_of_filter). apply elem_of_rows in Hr.
    simpl in *. exists id, r. split_and!; [done| |done]. unfold buildKey. by rewrite H1, H2.
Qed.

(** On an external build plane a schema is refused whole or can be served:
    a converge either returns errors with nothing changed and nothing asked of
    any daemon, or found on record, before it locked anything, the challenge
    and a finished build for every seed the schema names. *)
Theorem convergeSchema_refused_whole pins template limits bp purge chalDir schema w r w' :
  m_externalBuildPlane (W_m w) = true ->
  convergeSchema pins template limits bp purge chalDir schema w = (r, w') ->
  (exists errs, r = Some errs /\ errs <> [] /\ W_m w' = W_m w /\ W_trace w' = W_trace w) \/
  (forall ch spec seed, sch_challenges schema !! ch = Some spec -> seed ∈ spec_seeds spec ->
     is_Some (t_challenges (m_db (W_m w)) !! ch) /\
     exists id row, t_builds (m_db (W_m w)) !! id = Some row /\
       buildKey row = (sch_name schema, sch_flagFormat schema, ch, seed) /\ b_flag row <> ""%string).
Proof.
  intros Hext H. unfold convergeSchema in H. step H m w1 E1. apply getM_inv in E1 as [-> ->]. rewrite Hext in H.
  step H refused w1 E1. apply requireHandedOver_spec in E1 as (Hm & Ht & Hnone). case_decide as Hr.
  - left. apply ret_inv in H as [-> ->]. eauto.
  - right. by apply Hnone.
Qed.

(** The demo system with its challenge unchanged on disk, and a schema that
    asks for a second seed and for two instances of each. *)
Definition web_row : challengeRow := mkChallengeRow "Web" "" "custom" "" "" 7 9 "/c/web/problem.json" false false 1 "" 1.
Definition web_parts : challengeParts :=
  mkParts [] [] [] [(0%nat, mkHostInfo "challenge" "")] [("http"%string, mkPortInfo "challenge" 80)] [].
Definition event_world : World :=
  (demo_world ((empty_registry []) <| o_inventory := fun _ _ => ({["web"%string := challengeMeta "web" web_row web_parts]}, []) |>))
    <| W_m ::= (fun m => m <| m_db ::= (fun d => d <| t_challenges := {["web"%string := web_row]} |>
                                              <| t_parts := {["web"%string := web_parts]} |>) |>) |>.
Definition event_schema (count : Z) : Schema := mkSchema "event" "flag{%s}" {["web"%string := mkSpec [42; 7] count]} "".
Lemma event_world_ok : tables_ok (W_m event_world).
Proof.
  pose proof demo_ok as []. split; [|intros _; constructor]. split; try done. intros id r Hr.
  change (t_builds demo_db !! id = Some r) in Hr. change (t_builds demo_db) with
    ({[1 := mkBuildRow "flag{x}" "flag{%s}" 42 5 0 7 false 0 "web" "event" DYNAMIC_INSTANCES]} : gmap Z buildRow) in Hr.
  apply lookup_singleton_Some in Hr as [_ <-]. by eexists.
Qed.
Lemma event_unique : builds_unique (m_db (W_m event_world)).
Proof.
  assert (t_builds (m_db (W_m event_world)) = t_builds (m_db (W_m (demo_world calm)))) as E by (vm_compute; reflexivity).
  unfold builds_unique. rewrite E. exact demo_unique.
Qed.

Lemma convergeSchema_correct_witness :
  exists w', convergeSchema 0 (fun _ => 0) someLimits false true "/c" (event_schema 2) event_world = (Some [], w') /\
    exists id r, t_builds (m_db (W_m w')) !! id = Some r /\ buildKey r = ("event", "flag{%s}", "web", 7)%string /\
      b_flag r <> ""%string /\ length (instancesOfBuild id (m_db (W_m w'))) = 2%nat.
Proof.
  destruct (convergeSchema 0 (fun _ => 0) someLimits false true "/c" (event_schema 2) event_world) as [r w'] eqn:E.
  exists w'. assert (r = Some []) as -> by (vm_compute in E; congruence). split; [reflexivity|].
  destruct (convergeSchema_correct 0 (fun _ => 0) someLimits false true "/c" (event_schema 2) event_world w' event_world_ok event_unique)
    as (Hnamed & Honly & _ & _); [intros n; constructor| |exact E|].
  { intros ch spec. simpl. intros [_ <-]%lookup_singleton_Some. done. }
  destruct (Hnamed "web"%string (mkSpec [42; 7] 2) 7) as (id & row & Hr & Hk & Hc & Hf); [reflexivity|right; left|].
  exists id, row. split; [exact Hr|]. split; [exact Hk|]. split; [exact Hf|].
  assert (b_schema row = "event"%string) as Hs by (unfold buildKey in Hk; simpl in Hk; congruence).
  destruct (Honly id row Hr Hs) as (spec & crow & Hspec & _ & _ & Hcr & Hw).
  assert (b_challenge row = "web"%string) as Hch by (unfold buildKey in Hk; congruence). rewrite Hch in *.
  vm_compute in Hspec, Hcr. injection Hspec as <-. injection Hcr as <-. apply Nat2Z.inj. exact Hw.
Defined.

(** A count below every one the code knows: the converge panics, with the
    schema's row already carrying it. *)
Example negative_count_panics :
  exists w', convergeSchema 0 (fun _ => 0) someLimits false true "/c" (event_schema (-3)) event_world = (None, w') /\
    b_instancecount <$> t_builds (m_db (W_m w')) !! 1 = Some (-3).
Proof.
  destruct (convergeSchema 0 (fun _ => 0) someLimits false true "/c" (event_schema (-3)) event_world) as [r w'] eqn:E.
  exists w'. vm_compute in E. injection E as <- <-. split; reflexivity.
Qed.
(** A build of a schema whose name is shorter than the prefix of manual ones. *)
Example destroy_panics : (Destroy false 1 event_world).1 = None.
Proof. vm_compute. reflexivity. Qed.

(** The same schema where nothing is built here: its second seed was never
    handed over. *)
Definition external_world : World := event_world <| W_m ::= (fun m => m <| m_externalBuildPlane := true |>) |>.
Lemma convergeSchema_refused_whole_witness :
  exists errs w', convergeSchema 0 (fun _ => 0) someLimits false true "/c" (event_schema 2) external_world = (Some errs, w') /\
    errs <> [] /\ W_m w' = W_m external_world.
Proof.
  destruct (convergeSchema 0 (fun _ => 0) someLimits false true "/c" (event_schema 2) external_world) as [r w'] eqn:E.
  destruct (convergeSchema_refused_whole 0 (fun _ => 0) someLimits false true "/c" (event_schema 2) external_world r w' eq_refl E)
    as [(errs & -> & Hn & Hm & _)|Hall].
  - exists errs, w'. split; [reflexivity|]. split; [exact Hn|exact Hm].
  - exfalso. vm_compute in E. injection E as <- _.
    destruct (Hall "web"%string (mkSpec [42; 7] 2) 7) as [_ (id & row & Hr & Hk & _)]; [reflexivity|right; left|].
    assert (t_builds (m_db (W_m external_world)) = t_builds demo_db) as Eb by (vm_compute; reflexivity). rewrite Eb in Hr.
    change (t_builds demo_db) with
      ({[1 := mkBuildRow "flag{x}" "flag{%s}" 42 5 0 7 false 0 "web" "event" DYNAMIC_INSTANCES]} : gmap Z buildRow) in Hr.
    apply lookup_singleton_Some in Hr as [_ <-]. discriminate.
Defined.
