(* ===== verification/Update.v ===== *)
(** * Update: what the records of a challenge hold after they are written

    Theorems about [Challenges]: that a challenge written is the challenge read
    back, and that an update which reports no error leaves nothing to update. *)
From S2P Require Import Prelude Types Settings Text Artifacts Queue Worker Database Fleet HostConfig Effects Ports Instances Images Docker Launch Lifecycle Roster Builds Converge Builder Rebuild Challenges.
Local Open Scope Z_scope.

(** ** Statements in a row *)
Fixpoint runAll (fs : list (Db -> option Db)) (d : Db) : option Db :=
  match fs with [] => Some d | f :: fs => match f d with Some d => runAll fs d | None => None end end.

Lemma runAll_app fs gs d : runAll (fs ++ gs) d = match runAll fs d with Some d => runAll gs d | None => None end.
Proof. revert d. induction fs as [|f fs IH]; intros d; [done|]. simpl. by destruct (f d). Qed.

Lemma sqlAll_run fs w u w' :
  sqlAll stmt fs w = (inr u, w') ->
  runAll fs (m_db (W_m w)) = Some (m_db (W_m w')) /\ W_m w' = (W_m w) <| m_db := m_db (W_m w') |>.
Proof.
  revert w. induction fs as [|f fs IH]; intros w H; simpl in H.
  { apply ret_inv in H as [_ ->]. split; [done|]. symmetry. apply same_db. }
  apply try_inr in H as ([] & w1 & E & H). apply sql_inr in E as (E & Em & _). apply IH in H as [H1 H2].
  unfold stmt in E. simpl. destruct (f (m_db (W_m w))) as [d|]; [|done]. injection E as ->.
  split; [done|]. rewrite H2, Em. done.
Qed.

(** Only the rows hanging off one challenge differ, and they are [p]. *)
Record only_parts (id : ChallengeId) (p : challengeParts) (d d' : Db) : Prop := {
  op_parts : challengeParts_of id d' = p;
  op_other : forall k, k <> id -> challengeParts_of k d' = challengeParts_of k d;
  op_rest : d' = d <| t_parts := t_parts d' |> }.

Lemma only_parts_refl id d : only_parts id (challengeParts_of id d) d d.
Proof. split; [done..|]. by destruct d. Qed.
Lemma only_parts_trans id p p' d d1 d2 : only_parts id p d d1 -> only_parts id p' d1 d2 -> only_parts id p' d d2.
Proof.
  intros [H1 H2 H3] [H4 H5 H6]. split; [done| |].
  - intros k Hk. rewrite H5, H2; done.
  - rewrite H6, H3. done.
Qed.
Lemma onParts_only id f d : only_parts id (f (challengeParts_of id d)) d (onParts id f d).
Proof.
  assert (t_parts (onParts id f d) = <[id := f (challengeParts_of id d)]> (t_parts d)) as Ht by done.
  split; [| |done]; unfold challengeParts_of at 1; rewrite Ht; [by rewrite lookup_insert_eq|].
  intros k Hk. by rewrite lookup_insert_ne.
Qed.
Lemma only_parts_challenges id p d d' : only_parts id p d d' -> t_challenges d' = t_challenges d.
Proof. by intros [_ _ ->]. Qed.
Lemma only_parts_builds id p d d' : only_parts id p d d' -> t_builds d' = t_builds d.
Proof. by intros [_ _ ->]. Qed.

(** A group of inserts, as what it makes of the rows. *)
Section group.
Context {A : Type} (id : ChallengeId) (allowed : A -> challengeParts -> bool) (f : A -> challengeParts -> challengeParts).
Local Abbreviation group l := ((fun a => insertPart id (allowed a) (f a)) <$> l).
Local Abbreviation after l p := (foldl (fun q b => f b q) p l).

Lemma group_runs l d d' : runAll (group l) d = Some d' -> only_parts id (after l (challengeParts_of id d)) d d'.
Proof.
  revert d. induction l as [|a l IH]; intros d H; simpl in H; [injection H as <-; apply only_parts_refl|].
  unfold insertPart in H. case_decide; [|done]. destruct (allowed _ _); [|done]. apply IH in H.
  eapply only_parts_trans; [apply onParts_only|]. simpl. by rewrite (op_parts _ _ _ _ (onParts_only id (f a) d)) in H.
Qed.
Lemma group_allowed l d :
  is_Some (t_challenges d !! id) ->
  (forall l1 a l2, l = l1 ++ a :: l2 -> allowed a (after l1 (challengeParts_of id d)) = true) ->
  is_Some (runAll (group l) d).
Proof.
  revert d. induction l as [|a l IH]; intros d Hc Ha; [by eexists|]. simpl. unfold insertPart.
  rewrite decide_True by done. pose proof (Ha [] a l eq_refl) as H0. simpl in H0. rewrite H0. apply IH; [done|]. intros l1 b l2 ->.
  rewrite (op_parts _ _ _ _ (onParts_only id (f a) d)). by apply (Ha (a :: l1) b l2).
Qed.
End group.

(** ** The rows of a challenge *)
Definition partsOf (c : ChallengeMetadata) : challengeParts :=
  mkParts (indexed (cm_hints c)) (cm_tags c) (map_to_list (cm_attributes c)) (indexed (cm_hosts c))
    (map_to_list (cm_portMap c)) (prod_map (fun x => x) storedOptions <$> map_to_list (cho_overrides (cm_options c))).

(** What each group leaves: its rows appended. *)
Lemma group_only {A} id (allowed : A -> challengeParts -> bool) f (rows : list (Db -> option Db)) l d d' p' :
  rows = (fun a => insertPart id (allowed a) (f a)) <$> l ->
  foldl (fun p a => f a p) (challengeParts_of id d) l = p' ->
  runAll rows d = Some d' -> only_parts id p' d d'.
Proof. intros -> <-. apply group_runs. Qed.

Ltac appending rows p :=
  induction rows as [|a rows IH] using rev_ind; [by destruct p; simpl; rewrite app_nil_r|];
  rewrite foldl_app, IH; simpl; by rewrite ?fmap_app, app_assoc.
Lemma fold_hints l p :
  foldl (fun q b => q <| cp_hints ::= (fun l : list (nat * string) => l ++ [b]) |>) p l = p <| cp_hints := cp_hints p ++ l |>.
Proof. appending l p. Qed.
Lemma fold_tags l p :
  foldl (fun q b => q <| cp_tags ::= (fun l : list string => l ++ [b]) |>) p l = p <| cp_tags := cp_tags p ++ l |>.
Proof. appending l p. Qed.
Lemma fold_attributes l p :
  foldl (fun q b => q <| cp_attributes ::= (fun l : list (string * string) => l ++ [b]) |>) p l = p <| cp_attributes := cp_attributes p ++ l |>.
Proof. appending l p. Qed.
Lemma fold_hosts l p :
  foldl (fun q b => q <| cp_hosts ::= (fun l : list (nat * HostInfo) => l ++ [b]) |>) p l = p <| cp_hosts := cp_hosts p ++ l |>.
Proof. appending l p. Qed.
Lemma fold_ports l p :
  foldl (fun q b => q <| cp_portNames ::= (fun l : list (string * PortInfo) => l ++ [b]) |>) p l = p <| cp_portNames := cp_portNames p ++ l |>.
Proof. appending l p. Qed.
Lemma fold_options l p :
  foldl (fun q b => q <| cp_options ::= (fun l => l ++ [(b.1, storedOptions b.2)]) |>) p l =
  p <| cp_options := cp_options p ++ (prod_map (fun x => x) storedOptions <$> l) |>.
Proof. appending l p. Qed.

Section group_rows.
Context (c : ChallengeMetadata) (d d' : Db) (p : challengeParts).
Local Abbreviation id := (cm_id c).
Lemma hintRows_only :
  challengeParts_of id d = p -> runAll (hintRows c) d = Some d' ->
  only_parts id (p <| cp_hints := cp_hints p ++ indexed (cm_hints c) |>) d d'.
Proof. intros <-. eapply group_only; [done|apply fold_hints]. Qed.
Lemma tagRows_only :
  challengeParts_of id d = p -> runAll (tagRows c) d = Some d' ->
  only_parts id (p <| cp_tags := cp_tags p ++ cm_tags c |>) d d'.
Proof. intros <-. eapply group_only; [done|apply fold_tags]. Qed.
Lemma attributeRows_only :
  challengeParts_of id d = p -> runAll (attributeRows c) d = Some d' ->
  only_parts id (p <| cp_attributes := cp_attributes p ++ map_to_list (cm_attributes c) |>) d d'.
Proof. intros <-. eapply group_only; [done|apply fold_attributes]. Qed.
Lemma hostRows_only :
  challengeParts_of id d = p -> runAll (hostRows c) d = Some d' ->
  only_parts id (p <| cp_hosts := cp_hosts p ++ indexed (cm_hosts c) |>) d d'.
Proof. intros <-. eapply group_only; [done|apply fold_hosts]. Qed.
Lemma portRows_only :
  challengeParts_of id d = p -> runAll (portRows c) d = Some d' ->
  only_parts id (p <| cp_portNames := cp_portNames p ++ map_to_list (cm_portMap c) |>) d d'.
Proof. intros <-. eapply group_only; [done|apply fold_ports]. Qed.
Lemma optionRows_only :
  challengeParts_of id d = p -> runAll (optionRows c) d = Some d' ->
  only_parts id (p <| cp_options := cp_options p ++
    (prod_map (fun x => x) storedOptions <$> map_to_list (cho_overrides (cm_options c))) |>) d d'.
Proof. intros <-. eapply group_only; [done|apply fold_options]. Qed.
End group_rows.

(** The rows of one kind, replaced. *)
Lemma replace_rows {A} f rows (k : M (error + A)) w a w' :
  (let? _ := sqlExec f in let? _ := sqlAll stmt rows in k) w = (inr a, w') ->
  exists w1, k w1 = (inr a, w') /\ runAll rows (f (m_db (W_m w))) = Some (m_db (W_m w1)) /\
    W_m w1 = (W_m w) <| m_db := m_db (W_m w1) |>.
Proof.
  intros ([] & w1 & E1 & H)%try_inr. apply sql_inr in E1 as (E1 & Em1 & _). injection E1 as E1.
  apply try_inr in H as (u & w2 & E2 & H). apply sqlAll_run in E2 as [E2 Em2]. exists w2. rewrite E1. split_and!; [done..|].
  rewrite Em2, Em1. done.
Qed.
Lemma replaced_only {id f rows d p p1 p2 d'} :
  challengeParts_of id d = p -> f p = p1 ->
  (forall d, challengeParts_of id d = p1 -> runAll rows d = Some d' -> only_parts id p2 d d') ->
  runAll rows (onParts id f d) = Some d' -> only_parts id p2 d d'.
Proof.
  intros <- <- Hg H. eapply only_parts_trans; [apply onParts_only|]. apply Hg; [|done]. apply onParts_only.
Qed.

(** A written challenge: its row but for the namespace, and its parts. *)
Definition rewrittenRow (c : ChallengeMetadata) (r : challengeRow) : challengeRow :=
  mkChallengeRow (cm_name c) (ch_namespace r) (cm_challengeType c) (cm_description c) (cm_details c)
    (cm_sourceChecksum c) (cm_metadataChecksum c) (cm_path c) (cm_solveScript c) (cm_templatable c)
    (cm_maxUsers c) (cm_category c) (cm_points c).

Lemma rewriteChallenge_spec c w res w' :
  rewriteChallenge c w = (res, w') ->
  match res with
  | inl _ => W_m w' = W_m w
  | inr _ => exists d1 d', W_m w' = (W_m w) <| m_db := d' |> /\ updateChallenge c (m_db (W_m w)) = Some d1 /\
               only_parts (cm_id c) (partsOf c) d1 d'
  end.
Proof.
  intros H. unfold rewriteChallenge in H. apply transaction_spec in H as (_ & _ & Hr); [|apply _].
  destruct res as [err|u]; [done|]. destruct Hr as (w0 & H & ->).
  apply try_inr in H as ([] & w1 & E & H). apply sql_inr in E as (E & Em & _). unfold stmt in E.
  destruct (updateChallenge c (m_db (W_m w))) as [d1|] eqn:Eu; [|done]. injection E as ->.
  apply replace_rows in H as (w2 & H & E2 & Em2). apply replace_rows in H as (w3 & H & E3 & Em3).
  apply replace_rows in H as (w4 & H & E4 & Em4). apply replace_rows in H as (w5 & H & E5 & Em5).
  apply replace_rows in H as (w6 & H & E6 & Em6). apply try_inr in H as ([] & w7 & E7 & H).
  apply sql_inr in E7 as (E7 & Em7 & _). injection E7 as E7. apply sqlAll_run in H as [H Em8]. rewrite <- E7 in H.
  exists (m_db (W_m w1)), (m_db (W_m w0)). split; [rewrite Em8, Em7, Em6, Em5, Em4, Em3, Em2, Em; done|]. split; [done|].
  assert (exists p, challengeParts_of (cm_id c) (m_db (W_m w1)) = p) as [p Hp] by eauto.
  apply (replaced_only Hp eq_refl (fun d => hintRows_only c d _ _)) in E2.
  apply (replaced_only (op_parts _ _ _ _ E2) eq_refl (fun d => tagRows_only c d _ _)) in E3.
  apply (replaced_only (op_parts _ _ _ _ E3) eq_refl (fun d => attributeRows_only c d _ _)) in E4.
  apply (replaced_only (op_parts _ _ _ _ E4) eq_refl (fun d => hostRows_only c d _ _)) in E5.
  apply (replaced_only (op_parts _ _ _ _ E5) eq_refl (fun d => portRows_only c d _ _)) in E6.
  apply (replaced_only (op_parts _ _ _ _ E6) eq_refl (fun d => optionRows_only c d _ _)) in H.
  eapply only_parts_trans; [exact E2|]. eapply only_parts_trans; [exact E3|]. eapply only_parts_trans; [exact E4|].
  eapply only_parts_trans; [exact E5|]. eapply only_parts_trans; [exact E6|]. exact H.
Qed.

(** ** What is written is what is read *)

(** A challenge as the loader makes them: the options of the whole challenge
    also under the empty host, no empty seccomp block, the derived delivery
    type, and no builds attached. *)
Record canonical (c : ChallengeMetadata) : Prop := {
  can_overrides : cho_overrides (cm_options c) !! ""%string = Some (cho_container (cm_options c));
  can_stored : forall host o, cho_overrides (cm_options c) !! host = Some o -> storedOptions o = o;
  can_delivery : cm_deliveryType c = deriveDeliveryType (cm_challengeType c) (size (cm_portMap c));
  can_builds : cm_builds c = [] }.

Lemma indexed_snd {A} (l : list A) : snd <$> indexed l = l.
Proof.
  unfold indexed. rewrite fmap_imap. etrans; [exact (imap_const (fun x => x) l)|apply list_fmap_id].
Qed.
Lemma storedRows_id (m : gmap string ContainerOptions) :
  (forall host o, m !! host = Some o -> storedOptions o = o) ->
  prod_map (fun x => x) storedOptions <$> map_to_list m = map_to_list m.
Proof.
  intros H. rewrite <- (list_fmap_id (map_to_list m)) at 2. apply list_fmap_ext.
  intros i [k o] Hi%list_elem_of_lookup_2%elem_of_map_to_list. unfold prod_map. simpl. by rewrite (H k o).
Qed.
Lemma challengeMeta_written c r : canonical c -> cm_namespace c = ch_namespace r ->
  challengeMeta (cm_id c) (rewrittenRow c r) (partsOf c) = c.
Proof.
  intros [Ho Hs Hd Hb] Hn. unfold challengeMeta. simpl. rewrite !indexed_snd, storedRows_id, !list_to_map_rev by done.
  destruct c as [? ? ? ? ? ? ? ? ? ? ? ? ? ? ? ? ? ? [] ? ? ?]. simpl in *. rewrite Ho. simpl. by subst.
Qed.
Lemma challengeMeta_options c r : canonical c ->
  let old := challengeMeta (cm_id c) (rewrittenRow c r) (partsOf c) in
  cm_challengeType old = cm_challengeType c /\ cm_options old = cm_options c.
Proof.
  intros [Ho Hs _ _]. simpl. rewrite storedRows_id, list_to_map_rev by done. split; [done|].
  destruct (cm_options c). simpl in *. by rewrite Ho.
Qed.

(** The row of a challenge before and after it is written. *)
Lemma updateChallenge_row c d d1 r :
  t_challenges d !! cm_id c = Some r -> updateChallenge c d = Some d1 ->
  d1 = d <| t_challenges := <[cm_id c := rewrittenRow c r]> (t_challenges d) |>.
Proof. unfold updateChallenge. intros ->. destruct (rowAllowed c); [|done]. by intros [= <-]. Qed.


(** ** Adding *)

(** What the constraints of the tables ask of a challenge. *)
Record valid (c : ChallengeMetadata) : Prop := {
  val_row : rowAllowed c = true;
  val_tags : NoDup (cm_tags c);
  val_hosts : NoDup (hi_name <$> cm_hosts c);
  val_ports : forall name p, cm_portMap c !! name = Some p -> validPort (pi_port p) = true /\ pi_host p ∈ hi_name <$> cm_hosts c }.

Lemma sql_stmt_quiet f w d :
  db_quiet w -> f (m_db (W_m w)) = Some d ->
  exists w1, sql (stmt f) w = (inr tt, w1) /\ W_m w1 = (W_m w) <| m_db := d |> /\ W_o w1 = W_o w.
Proof. intros Hq Hf. run. rewrite Hq. simpl. unfold stmt. rewrite Hf. simpl. eauto. Qed.
Lemma insertGroup_quiet before fs w d :
  db_quiet w -> runAll fs (m_db (W_m w)) = Some d ->
  exists w1, insertGroup before true fs w = (inr true, w1) /\ W_m w1 = (W_m w) <| m_db := d |> /\ W_o w1 = W_o w.
Proof.
  revert w. induction fs as [|f fs IH]; intros w Hq H; simpl in H.
  { injection H as <-. exists w. split; [done|]. split; [symmetry; apply same_db|done]. }
  destruct (f (m_db (W_m w))) as [d1|] eqn:Ef; [|done]. destruct (sql_stmt_quiet f w d1 Hq Ef) as (w1 & E1 & Em1 & Eo1).
  destruct (IH w1) as (w2 & E2 & Em2 & Eo2); [unfold db_quiet; by rewrite Eo1|by rewrite Em1|].
  exists w2. cbn [insertGroup]. unfold txExec, mbind, M_bind. rewrite E1, E2, Em2, Em1, Eo2. done.
Qed.
Lemma insertGroups_quiet before groups w d :
  db_quiet w -> runAll (mjoin groups) (m_db (W_m w)) = Some d ->
  exists w1, insertGroups before true groups w = (inr true, w1) /\ W_m w1 = (W_m w) <| m_db := d |> /\ W_o w1 = W_o w.
Proof.
  revert w. induction groups as [|fs groups IH]; intros w Hq H; simpl in H.
  { injection H as <-. exists w. split; [done|]. split; [symmetry; apply same_db|done]. }
  rewrite runAll_app in H. destruct (runAll fs (m_db (W_m w))) as [d1|] eqn:Ef; [|done].
  destruct (insertGroup_quiet before fs w d1 Hq Ef) as (w1 & E1 & Em1 & Eo1).
  destruct (IH w1) as (w2 & E2 & Em2 & Eo2); [unfold db_quiet; by rewrite Eo1|by rewrite Em1|].
  exists w2. cbn [insertGroups]. unfold try, mbind, M_bind. rewrite E1, E2, Em2, Em1, Eo2. done.
Qed.
Lemma insertAllOptions_quiet before fs w d :
  db_quiet w -> runAll fs (m_db (W_m w)) = Some d ->
  exists w1, insertAllOptions before true fs w = (None, w1) /\ W_m w1 = (W_m w) <| m_db := d |> /\ W_o w1 = W_o w.
Proof.
  revert w. induction fs as [|f fs IH]; intros w Hq H; simpl in H.
  { injection H as <-. exists w. split; [done|]. split; [symmetry; apply same_db|done]. }
  destruct (f (m_db (W_m w))) as [d1|] eqn:Ef; [|done]. destruct (sql_stmt_quiet f w d1 Hq Ef) as (w1 & E1 & Em1 & Eo1).
  destruct (IH w1) as (w2 & E2 & Em2 & Eo2); [unfold db_quiet; by rewrite Eo1|by rewrite Em1|].
  exists w2. cbn [insertAllOptions]. unfold txExec, mbind, M_bind. rewrite E1, E2, Em2, Em1, Eo2. done.
Qed.

(** Every row of a valid challenge is accepted. *)
Lemma indexed_fst {A} (l : list A) : NoDup (indexed l).*1.
Proof.
  unfold indexed. rewrite fmap_imap. apply NoDup_alt. intros i j x Hi Hj.
  rewrite list_lookup_imap in Hi, Hj. destruct (l !! i), (l !! j); simplify_eq/=. done.
Qed.
Lemma NoDup_split_fresh {A} (l1 l2 : list A) a : NoDup (l1 ++ a :: l2) -> a ∉ l1.
Proof. intros (_ & H & _)%NoDup_app Ha. apply (H a Ha). by left. Qed.

(** One more group: it is accepted, and what it leaves. *)
Lemma grown {id p p' d0 d rows} :
  only_parts id p d0 d -> is_Some (t_challenges d0 !! id) ->
  (is_Some (t_challenges d !! id) -> is_Some (runAll rows d)) ->
  (forall d', runAll rows d = Some d' -> only_parts id p' d d') ->
  exists d', runAll rows d = Some d' /\ only_parts id p' d0 d'.
Proof.
  intros Hp Hc Hsome Honly. destruct Hsome as [d' Hd']; [by rewrite (only_parts_challenges _ _ _ _ Hp)|].
  exists d'. split; [done|]. eapply only_parts_trans; [exact Hp|]. by apply Honly.
Qed.

Section accept.
Context (c : ChallengeMetadata) (d : Db) (p : challengeParts).
Hypothesis Hp : challengeParts_of (cm_id c) d = p.
Hypothesis Hrow : is_Some (t_challenges d !! cm_id c).

Lemma hintRows_accepted : cp_hints p = [] -> is_Some (runAll (hintRows c) d).
Proof.
  intros He. eapply (group_allowed (cm_id c)); [done|]. intros l1 a l2 Hl. rewrite Hp.
  cbv beta. rewrite fold_hints. simpl. rewrite He. apply bool_decide_eq_true. simpl.
  pose proof (indexed_fst (cm_hints c)) as Hnd. rewrite Hl, fmap_app in Hnd. by apply NoDup_split_fresh in Hnd.
Qed.
Lemma tagRows_accepted : NoDup (cm_tags c) -> cp_tags p = [] -> is_Some (runAll (tagRows c) d).
Proof.
  intros Hnd He. eapply (group_allowed (cm_id c)); [done|]. intros l1 a l2 Hl. rewrite Hp.
  cbv beta. rewrite fold_tags. simpl. rewrite He. apply bool_decide_eq_true. simpl.
  rewrite Hl in Hnd. by apply NoDup_split_fresh in Hnd.
Qed.
Lemma attributeRows_accepted : cp_attributes p = [] -> is_Some (runAll (attributeRows c) d).
Proof.
  intros He. eapply (group_allowed (cm_id c)); [done|]. intros l1 a l2 Hl. rewrite Hp.
  cbv beta. rewrite fold_attributes. simpl. rewrite He. apply bool_decide_eq_true. simpl.
  pose proof (NoDup_fst_map_to_list (cm_attributes c)) as Hnd. rewrite Hl, fmap_app in Hnd. by apply NoDup_split_fresh in Hnd.
Qed.
Lemma hostRows_accepted : NoDup (hi_name <$> cm_hosts c) -> cp_hosts p = [] -> is_Some (runAll (hostRows c) d).
Proof.
  intros Hnd He. eapply (group_allowed (cm_id c)); [done|]. intros l1 a l2 Hl. rewrite Hp.
  cbv beta. rewrite fold_hosts. simpl. rewrite He. apply bool_decide_eq_true. simpl.
  rewrite <- (indexed_snd (cm_hosts c)), Hl, !fmap_app in Hnd. simpl in Hnd. by apply NoDup_split_fresh in Hnd.
Qed.
Lemma portRows_accepted :
  (forall name i, cm_portMap c !! name = Some i -> validPort (pi_port i) = true /\ pi_host i ∈ hi_name <$> (cp_hosts p).*2) ->
  is_Some (runAll (portRows c) d).
Proof.
  intros Hv. eapply (group_allowed (cm_id c)); [done|]. intros l1 [name i] l2 Hl. rewrite Hp.
  cbv beta. rewrite fold_ports. simpl. destruct (Hv name i) as [H1 H2].
  { apply elem_of_map_to_list. rewrite Hl. set_solver. }
  rewrite H1. simpl. by apply bool_decide_eq_true.
Qed.
Lemma optionRows_accepted : is_Some (runAll (optionRows c) d).
Proof. by eapply (group_allowed (cm_id c)). Qed.
End accept.

Lemma valid_accepted c d :
  valid c -> is_Some (t_challenges d !! cm_id c) -> challengeParts_of (cm_id c) d = noParts ->
  exists d1 d', runAll (mjoin [hintRows c; tagRows c; attributeRows c; hostRows c; portRows c]) d = Some d1 /\
    runAll (optionRows c) d1 = Some d' /\ only_parts (cm_id c) (partsOf c) d d'.
Proof.
  intros [_ Ht Hh Hports] Hc Hempty.
  pose proof (only_parts_refl (cm_id c) d) as H0. rewrite Hempty in H0.
  destruct (grown H0 Hc (fun Hx => hintRows_accepted c d _ Hempty Hx eq_refl) (fun d' => hintRows_only c d d' _ Hempty)) as (d1 & E1 & H1).
  destruct (grown H1 Hc (fun Hx => tagRows_accepted c d1 _ (op_parts _ _ _ _ H1) Hx Ht eq_refl)
    (fun d' => tagRows_only c d1 d' _ (op_parts _ _ _ _ H1))) as (d2 & E2 & H2).
  destruct (grown H2 Hc (fun Hx => attributeRows_accepted c d2 _ (op_parts _ _ _ _ H2) Hx eq_refl)
    (fun d' => attributeRows_only c d2 d' _ (op_parts _ _ _ _ H2))) as (d3 & E3 & H3).
  destruct (grown H3 Hc (fun Hx => hostRows_accepted c d3 _ (op_parts _ _ _ _ H3) Hx Hh eq_refl)
    (fun d' => hostRows_only c d3 d' _ (op_parts _ _ _ _ H3))) as (d4 & E4 & H4).
  assert (is_Some (t_challenges d4 !! cm_id c) -> is_Some (runAll (portRows c) d4)) as Hacc.
  { intros Hx. apply (portRows_accepted c d4 _ (op_parts _ _ _ _ H4) Hx). intros name i Hi. simpl.
    rewrite indexed_snd. by eapply Hports. }
  destruct (grown H4 Hc Hacc (fun d' => portRows_only c d4 d' _ (op_parts _ _ _ _ H4))) as (d5 & E5 & H5).
  destruct (grown H5 Hc (fun Hx => optionRows_accepted c d5 Hx) (fun d' => optionRows_only c d5 d' _ (op_parts _ _ _ _ H5)))
    as (d6 & E6 & H6).
  exists d5, d6. split; [|done]. simpl mjoin.
  by rewrite runAll_app, E1, runAll_app, E2, runAll_app, E3, runAll_app, E4, runAll_app, E5.
Qed.

(** Where nothing fails, a valid challenge that is not on record is put there,
    whole. *)
Lemma addChallenge_quiet c w :
  db_quiet w -> valid c -> t_challenges (m_db (W_m w)) !! cm_id c = None ->
  challengeParts_of (cm_id c) (m_db (W_m w)) = noParts ->
  exists w' d', addChallenge c w = (([], false), w') /\ W_o w' = W_o w /\ W_m w' = (W_m w) <| m_db := d' |> /\
    only_parts (cm_id c) (partsOf c)
      ((m_db (W_m w)) <| t_challenges := <[cm_id c := challengeRowOf c]> (t_challenges (m_db (W_m w))) |>) d'.
Proof.
  intros Hq Hv Hnew Hempty. set (d := m_db (W_m w)) in *.
  set (d0 := d <| t_challenges := <[cm_id c := challengeRowOf c]> (t_challenges d) |>).
  assert (insertChallenge c d = Some d0) as Hins.
  { unfold insertChallenge. rewrite decide_True by done. by rewrite (val_row c Hv). }
  destruct (valid_accepted c d0 Hv) as (d1 & d' & H1 & H2 & H3); [simpl; rewrite lookup_insert_eq; by eexists|done|].
  destruct (sql_stmt_quiet (insertChallenge c) w d0 Hq Hins) as (w1 & E1 & Em1 & Eo1).
  assert (db_quiet w1) as Hq1 by (unfold db_quiet; by rewrite Eo1).
  destruct (insertGroups_quiet d [hintRows c; tagRows c; attributeRows c; hostRows c; portRows c] w1 d1 Hq1) as (w2 & E2 & Em2 & Eo2);
    [by rewrite Em1|].
  assert (db_quiet w2) as Hq2 by (unfold db_quiet; by rewrite Eo2).
  destruct (insertAllOptions_quiet d (optionRows c) w2 d' Hq2) as (w3 & E3 & Em3 & Eo3); [by rewrite Em2|].
  eexists _, d'. split; [|split; [|split; [|exact H3]]].
  - unfold addChallenge, mbind, M_bind, getDb. fold d. rewrite E1, E2, E3. unfold ask. rewrite Eo3, Hq2. reflexivity.
  - simpl. by rewrite Eo3, Eo2, Eo1.
  - simpl. rewrite Em3, Em2, Em1. done.
Qed.

(** Two challenges as a scan finds them: one on record, from a newer source,
    and one that is not. *)
Definition found_challenge (id : ChallengeId) (tags hints : list string) : ChallengeMetadata :=
  challengeMeta id (mkChallengeRow "Web" "" "custom" "" "" 8 9 "/c/web" false false 1 "" 1)
    (mkParts (indexed hints) tags [] [(0%nat, mkHostInfo "challenge" ""); (1%nat, mkHostInfo "db" "db")]
       [("http"%string, mkPortInfo "challenge" 80)] [(""%string, noContainerOptions)]).
Lemma found_canonical id tags hints : canonical (found_challenge id tags hints).
Proof.
  split; [done| |done|done]. intros host o Ho. simpl in Ho. apply lookup_insert_Some in Ho as [[_ <-]|[_ Ho]]; done.
Qed.
Lemma found_valid id tags hints : NoDup tags -> valid (found_challenge id tags hints).
Proof.
  intros Ht. split; [done|done|by apply (bool_decide_unpack _); vm_compute|].
  intros name p Hp. simpl in Hp. apply lookup_insert_Some in Hp as [[_ <-]|[_ Hp]]; [|done]. split; [done|]. left.
Qed.

