(* ===== verification/Detect.v ===== *)
(** * Detect: what a scan finds to do, and that doing it is enough

    Theorems about [DetectChanges], [classifyChallenges] and
    [UpdateWithOptions] ([Challenges]): every challenge gets exactly one
    verdict, and an update that reports no error leaves nothing to update. *)
From S2P Require Import Prelude Types Settings Text Artifacts Queue Worker Database Fleet HostConfig Effects Ports Instances Images Docker Launch Lifecycle Roster Builds Converge Builder Rebuild Challenges Update.
Local Open Scope Z_scope.

(** The row and the options of a challenge are what a scan says of it. *)
Definition matches (d : Db) (c : ChallengeMetadata) : Prop :=
  exists r, t_challenges d !! cm_id c = Some r /\ ch_sourcechecksum r = cm_sourceChecksum c /\
    ch_metadatachecksum r = cm_metadataChecksum c /\ ch_solvescript r = cm_solveScript c /\
    let old := challengeMeta (cm_id c) r (challengeParts_of (cm_id c) d) in
    cm_challengeType old = cm_challengeType c /\ cm_options old = cm_options c.
(** No build of it stands at an earlier source. *)
Definition no_stale (d : Db) (id : ChallengeId) : Prop :=
  forall b r, t_builds d !! b = Some r -> b_challenge r = id -> stale d r = false.
Definition settled (d : Db) (c : ChallengeMetadata) : Prop := matches d c /\ no_stale d (cm_id c).

Lemma safeToRefresh_true c w w' :
  safeToRefresh c w = (true, w') ->
  exists r, t_challenges (m_db (W_m w)) !! cm_id c = Some r /\
    let old := challengeMeta (cm_id c) r (challengeParts_of (cm_id c) (m_db (W_m w))) in
    cm_challengeType old = cm_challengeType c /\ cm_options old = cm_options c.
Proof.
  unfold safeToRefresh. intros H. step H r w1 E. apply ret_inv in H as [Hs ->]. unfold lookupChallengeMetadata, try in E.
  step E d w2 E2. apply sqlRead_inv in E2 as (_ & _ & _ & Hd). destruct d as [e|d]; [by apply ret_inv in E as [-> _]|].
  simpl in Hd. subst d. destruct (t_challenges (m_db (W_m w)) !! cm_id c) as [row|]; apply ret_inv in E as [-> _]; [|done].
  symmetry in Hs. apply andb_true_iff in Hs as [H1%bool_decide_eq_true H2%bool_decide_eq_true]. eauto.
Qed.

(** The code here only reads. *)
Definition same_world (w w' : World) : Prop := W_m w' = W_m w /\ W_o w' = W_o w.
Lemma lookupChallenge_reads id w r w' : lookupChallengeMetadata id w = (r, w') -> same_world w w'.
Proof.
  unfold lookupChallengeMetadata, try. intros H. step H d w1 E. apply sqlRead_inv in E as (Hm & Ho & _ & _).
  destruct d as [e|d]; [|destruct (t_challenges d !! id)]; by apply ret_inv in H as [_ ->].
Qed.
Lemma classifyChallenge_spec old c s w v w' :
  cm_id old = cm_id c -> classifyChallenge (Some old) c s w = (v, w') ->
  same_world w w' /\ v <> verdictAdded /\
  (v = verdictUnmodified -> s = false /\ cm_sourceChecksum old = cm_sourceChecksum c /\
     cm_metadataChecksum old = cm_metadataChecksum c /\ cm_solveScript old = cm_solveScript c /\
     exists r, t_challenges (m_db (W_m w)) !! cm_id c = Some r /\
       let old := challengeMeta (cm_id c) r (challengeParts_of (cm_id c) (m_db (W_m w))) in
       cm_challengeType old = cm_challengeType c /\ cm_options old = cm_options c).
Proof.
  intros Hid H. unfold classifyChallenge in H. case_decide as Hs; [by apply ret_inv in H as [-> ->]|].
  assert (forall b w1, safeToRefresh c w = (b, w1) -> same_world w w1) as Hreads.
  { intros b w1 E. unfold safeToRefresh in E. step E r w2 E2. apply ret_inv in E as [_ ->]. by eapply lookupChallenge_reads. }
  case_decide as Hm; step H safe w1 E; apply ret_inv in H as [-> ->]; (split; [by eapply Hreads|]); [by destruct safe|].
  destruct safe; [|done]. destruct s; [done|]. split; [done|]. intros _.
  destruct (decide (cm_solveScript old = cm_solveScript c)); [|tauto].
  destruct (decide (cm_metadataChecksum old = cm_metadataChecksum c)); [|tauto].
  split_and!; [done|lia|done|done|]. by eapply safeToRefresh_true.
Qed.

Section classify.
Context (inventory : gmap ChallengeId ChallengeMetadata) (set : gset ChallengeId) (removed : ChallengeMetadata -> bool).
Hypothesis Hkeys : forall id c, inventory !! id = Some c -> cm_id c = id.

(** What an unmodified row was found to be. *)
Definition unmodified (d : Db) (old : ChallengeMetadata) : Prop :=
  exists c r, inventory !! cm_id old = Some c /\ (cm_id old ∉ set) /\ cm_sourceChecksum old = cm_sourceChecksum c /\
     cm_metadataChecksum old = cm_metadataChecksum c /\ cm_solveScript old = cm_solveScript c /\
     t_challenges d !! cm_id c = Some r /\
       let old := challengeMeta (cm_id c) r (challengeParts_of (cm_id c) d) in
       cm_challengeType old = cm_challengeType c /\ cm_options old = cm_options c.

(** The rows sorted into the lists that are appended. *)
Record sorted_rows (d : Db) (current : list ChallengeMetadata) (cu cu' : ChallengeUpdates)
    (upd ref sta unm rem : list ChallengeMetadata) : Prop := {
  so_updates : cu' = mkUpdates (cu_added cu) (cu_refreshed cu ++ ref) (cu_updated cu ++ upd) (cu_removed cu ++ rem)
                 (cu_unmodified cu ++ unm) (cu_stale cu ++ sta) (cu_errors cu);
  so_removed : rem = filter (fun row => inventory !! cm_id row = None /\ removed row = true) current;
  so_ids : cm_id <$> (upd ++ ref ++ sta ++ unm) ≡ₚ filter (fun id => is_Some (inventory !! id)) (cm_id <$> current);
  so_found : Forall (fun c => inventory !! cm_id c = Some c) (upd ++ ref ++ sta);
  so_unmodified : Forall (fun old => old ∈ current /\ unmodified d old) unm }.

Lemma classifyRows_spec current cu w cu' w' :
  classifyRows inventory current set removed cu w = (cu', w') ->
  same_world w w' /\ exists upd ref sta unm rem, sorted_rows (m_db (W_m w)) current cu cu' upd ref sta unm rem.
Proof.
  revert cu w. induction current as [|old current IH]; intros cu w H; simpl in H.
  { apply ret_inv in H as [-> ->]. split; [done|]. exists [], [], [], [], []. split; try done; [|constructor..].
    rewrite !app_nil_r. by destruct cu. }
  destruct (inventory !! cm_id old) as [c|] eqn:Ei.
  - step H v w1 E. apply classifyChallenge_spec in E as ([Hm Ho] & Hv & Hun); [|by rewrite (Hkeys _ _ Ei)].
    apply IH in H as ([Hm' Ho'] & upd & ref & sta & unm & rem & [Hcu Hrem Hids Hf Hu]).
    split; [split; congruence|]. rewrite Hm in Hu. pose proof (Hkeys _ _ Ei) as Hid.
    assert (inventory !! cm_id c = Some c) as Hic by (by rewrite Hid).
    assert (rem = filter (fun row => inventory !! cm_id row = None /\ removed row = true) (old :: current)) as Hrem'.
    { rewrite filter_cons_False; [done|]. rewrite Ei. by intros [? _]. }
    apply Forall_app in Hf as [Hf1 Hf2]. apply Forall_app in Hf2 as [Hf2 Hf3].
    assert (forall l, l ≡ₚ cm_id old :: (cm_id <$> upd ++ ref ++ sta ++ unm) ->
      l ≡ₚ filter (fun id => is_Some (inventory !! id)) (cm_id <$> old :: current)) as Hperm.
    { intros l ->. simpl. rewrite filter_cons_True by (by rewrite Ei). by rewrite Hids. }
    assert (Forall (fun x => x ∈ old :: current /\ unmodified (m_db (W_m w)) x) unm) as Hu'.
    { eapply Forall_impl; [exact Hu|]. intros x [? ?]. split; [by right|done]. }
    destruct v; [done|..].
    + exists (c :: upd), ref, sta, unm, rem. split; [by rewrite Hcu; simpl; rewrite <- !app_assoc|done| | |done].
      * apply Hperm. simpl. by rewrite Hid.
      * repeat (apply Forall_app; split; auto).
    + exists upd, (c :: ref), sta, unm, rem. split; [by rewrite Hcu; simpl; rewrite <- !app_assoc|done| | |done].
      * apply Hperm. rewrite !fmap_app. simpl. rewrite Hid. solve_Permutation.
      * repeat (apply Forall_app; split; auto).
    + exists upd, ref, (c :: sta), unm, rem. split; [by rewrite Hcu; simpl; rewrite <- !app_assoc|done| | |done].
      * apply Hperm. rewrite !fmap_app. simpl. rewrite Hid. solve_Permutation.
      * repeat (apply Forall_app; split; auto).
    + exists upd, ref, sta, (old :: unm), rem. split; [by rewrite Hcu; simpl; rewrite <- !app_assoc|done| | |].
      * apply Hperm. rewrite !fmap_app. simpl. solve_Permutation.
      * repeat (apply Forall_app; split; auto).
      * constructor; [|done]. split; [by left|]. destruct (Hun eq_refl) as (Hs & H1 & H2 & H3 & r & Hr & Hopt).
        exists c, r. split_and!; try done. by apply bool_decide_eq_false in Hs.
  - apply IH in H as (Hw & upd & ref & sta & unm & rem & [Hcu Hrem Hids Hf Hu]). split; [done|].
    assert (filter (fun id => is_Some (inventory !! id)) (cm_id <$> old :: current) =
            filter (fun id => is_Some (inventory !! id)) (cm_id <$> current)) as Hfil.
    { simpl. rewrite filter_cons_False; [done|]. rewrite Ei. by intros []. }
    assert (Forall (fun x => x ∈ old :: current /\ unmodified (m_db (W_m w)) x) unm) as Hu'.
    { eapply Forall_impl; [exact Hu|]. intros x [? ?]. split; [by right|done]. }
    destruct (removed old) eqn:Er.
    + exists upd, ref, sta, unm, (old :: rem). split; [by rewrite Hcu; simpl; rewrite <- !app_assoc| |by rewrite Hfil|done|done].
      rewrite filter_cons_True by done. by rewrite Hrem.
    + exists upd, ref, sta, unm, rem. split; [done| |by rewrite Hfil|done|done].
      rewrite filter_cons_False; [done|]. rewrite Er. by intros [].
Qed.
End classify.

(** ** A scan *)

Definition listedRows (d : Db) : list ChallengeMetadata :=
  (fun kv => listedChallenge kv.1 kv.2 (length (cp_portNames (challengeParts_of kv.1 d)))) <$>
    merge_sort id_le (map_to_list (t_challenges d)).
Lemma listedRows_ids d : cm_id <$> listedRows d ≡ₚ (map_to_list (t_challenges d)).*1.
Proof. unfold listedRows. rewrite <- list_fmap_compose. unfold compose. simpl. by rewrite merge_sort_Permutation. Qed.
Lemma elem_of_listedRows d c :
  c ∈ listedRows d <-> exists r, t_challenges d !! cm_id c = Some r /\
    c = listedChallenge (cm_id c) r (length (cp_portNames (challengeParts_of (cm_id c) d))).
Proof.
  unfold listedRows. rewrite merge_sort_Permutation, list_elem_of_fmap. split.
  - intros ([id r] & -> & Hin%elem_of_map_to_list). simpl. eauto.
  - intros (r & Hr & ->). exists (cm_id c, r). split; [done|]. by apply elem_of_map_to_list.
Qed.

Section scan.
Context (chalDir : string) (inventory : gmap ChallengeId ChallengeMetadata).
Hypothesis Hkeys : forall id c, inventory !! id = Some c -> cm_id c = id.

(** What a scan that reports no error has found. *)
Record scanned (d : Db) (cu : ChallengeUpdates) : Prop := {
  sc_ids : cm_id <$> (cu_added cu ++ cu_updated cu ++ cu_refreshed cu ++ cu_stale cu ++ cu_unmodified cu) ≡ₚ
             (map_to_list inventory).*1;
  sc_added : forall c, c ∈ cu_added cu -> inventory !! cm_id c = Some c /\ t_challenges d !! cm_id c = None;
  sc_found : forall c, c ∈ cu_updated cu ++ cu_refreshed cu ++ cu_stale cu ->
               inventory !! cm_id c = Some c /\ is_Some (t_challenges d !! cm_id c);
  sc_settled : forall old, old ∈ cu_unmodified cu -> exists c, inventory !! cm_id old = Some c /\ settled d c;
  sc_removed : forall old, old ∈ cu_removed cu -> inventory !! cm_id old = None /\ is_Some (t_challenges d !! cm_id old) }.

Lemma filter_keys_perm (l : list ChallengeId) :
  NoDup l ->
  ((filter (fun kv => kv.1 ∉ (list_to_set (filter (fun id => is_Some (inventory !! id)) l) : gset ChallengeId)) (map_to_list inventory)).*1)
    ++ filter (fun id => is_Some (inventory !! id)) l ≡ₚ (map_to_list inventory).*1.
Proof.
  intros Hl. apply NoDup_Permutation.
  - apply NoDup_app. split_and!.
    + eapply sublist_NoDup; [apply (NoDup_fst_map_to_list inventory)|]. apply fmap_sublist, sublist_filter.
    + intros id ([id' c] & -> & [Hn _]%list_elem_of_filter)%list_elem_of_fmap Hin. simpl in *.
      apply Hn. by apply elem_of_list_to_set.
    + by apply NoDup_filter.
  - apply NoDup_fst_map_to_list.
  - intros id. rewrite elem_of_app, !list_elem_of_fmap, list_elem_of_filter. split.
    + intros [([id' c] & -> & [_ Hin]%list_elem_of_filter)|[[c Hc] _]]; [eauto|].
      exists (id, c). split; [done|]. by apply elem_of_map_to_list.
    + intros ([id' c] & -> & Hin). simpl. destruct (decide (id' ∈ filter (fun id => is_Some (inventory !! id)) l)) as [Hx|Hx].
      * right. by apply list_elem_of_filter in Hx.
      * left. exists (id', c). split; [done|]. apply list_elem_of_filter. split; [|done]. simpl. by rewrite elem_of_list_to_set.
Qed.

Lemma unmodified_settled d set old :
  set = list_to_set (b_challenge ∘ snd <$> filter (fun kv => stale d kv.2 = true) (rows (t_builds d))) ->
  old ∈ listedRows d -> unmodified inventory set d old -> exists c, inventory !! cm_id old = Some c /\ settled d c.
Proof.
  intros -> Hold (c & r & Hc & Hset & H1 & H2 & H3 & Hr & Hopt). exists c. split; [done|].
  pose proof (Hkeys _ _ Hc) as Hid. apply elem_of_listedRows in Hold as (r' & Hr' & E). rewrite <- Hid in Hr'.
  rewrite Hr in Hr'. injection Hr' as <-. rewrite E in H1, H2, H3. simpl in H1, H2, H3. split.
  - exists r. done.
  - intros b row Hb Hch. destruct (stale d row) eqn:Es; [|done]. exfalso. apply Hset. apply elem_of_list_to_set.
    apply list_elem_of_fmap. exists (b, row). split; [by simpl; rewrite Hch, Hid|]. apply list_elem_of_filter.
    split; [done|]. by apply elem_of_rows.
Qed.

Lemma DetectChanges_spec fp w cu w' :
  (forall n dir, o_inventory (W_o w) n dir = (inventory, [])) ->
  DetectChanges chalDir fp w = (cu, w') -> same_world w w' /\ (cu_errors cu = [] -> scanned (m_db (W_m w)) cu).
Proof.
  intros Hinv H. unfold DetectChanges in H. step H m w0 E0. apply getM_inv in E0 as [-> ->].
  assert (forall errs w1, same_world w w1 -> errs <> [] -> (mret (noUpdates errs) : M ChallengeUpdates) w1 = (cu, w') ->
    same_world w w' /\ (cu_errors cu = [] -> scanned (m_db (W_m w)) cu)) as Hout.
  { intros errs w1 Hw He [-> ->]%ret_inv. split; [done|]. simpl. by intros ->. }
  destruct (m_externalBuildPlane (W_m w)); [by apply (Hout [[ErrExternalBuildPlane]] w)|]. step H r w1 E1.
  assert (same_world w w1) as Hw1.
  { unfold normalizeDirPath in E1. step E1 p w2 E2. unfold ask in E2. injection E2 as <- <-.
    destruct (o_abs _ _ _); [by apply ret_inv in E1 as [_ ->]|]. by destruct (pathInDirectory _ _); apply ret_inv in E1 as [_ ->]. }
  destruct r as [e|dir]; [by apply (Hout [e] w1)|]. step H inv w2 E2. unfold ask in E2. injection E2 as E2 <-.
  destruct Hw1 as [Hm1 Ho1]. rewrite Ho1, Hinv in E2. subst inv.
  step H rs w3 E3. apply sqlRead_inv in E3 as (Hm3 & Ho3 & _ & Hrs). simpl in Hm3, Ho3.
  assert (same_world w w3) as [Hm Ho] by (split; congruence).
  destruct rs as [e|rs]; [by apply (Hout [e] w3)|]. simpl in Hrs.
  step H s w4 E4. apply sqlRead_inv in E4 as (Hm4 & Ho4 & _ & Hs).
  step H cu1 w5 E5. apply ret_inv in H as [-> ->]. unfold classifyChallenges in E5. step E5 cu2 w6 E6.
  apply ret_inv in E5 as [-> ->]. apply (classifyRows_spec _ _ _ Hkeys) in E6 as ([Hm6 Ho6] & upd & ref & sta & unm & rem & [Hcu Hrem Hids Hf Hu]).
  split; [split; congruence|]. simpl. destruct s as [e|s]; [done|]. intros _.
  assert (rs = listedRows (m_db (W_m w))) as Hrows by (rewrite Hrs, Hm1; done).
  assert (m_db (W_m w4) = m_db (W_m w)) as Hd by congruence. rewrite Hd in Hu. clear Hrs. subst rs. rewrite Hm in Hs.
  assert (NoDup (cm_id <$> listedRows (m_db (W_m w)))) as Hnd by (rewrite listedRows_ids; apply NoDup_fst_map_to_list).
  assert (forall id, id ∈ cm_id <$> listedRows (m_db (W_m w)) <-> is_Some (t_challenges (m_db (W_m w)) !! id)) as Hon.
  { intros id. rewrite listedRows_ids, list_elem_of_fmap. split.
    - intros ([k r] & -> & Hin%elem_of_map_to_list). by eexists.
    - intros [r Hr]. exists (id, r). split; [done|]. by apply elem_of_map_to_list. }
  rewrite Hcu. split; simpl.
  - rewrite fmap_app, <- list_fmap_compose. rewrite <- (filter_keys_perm _ Hnd), <- Hids. apply Permutation_app_tail.
    apply Permutation_refl', list_fmap_ext. intros i [k c] Hi%list_elem_of_lookup_2. apply list_elem_of_filter in Hi as [_ Hi].
    apply elem_of_map_to_list in Hi. by apply Hkeys.
  - intros c ([k c'] & -> & [Hn Hin]%list_elem_of_filter)%list_elem_of_fmap. apply elem_of_map_to_list in Hin. simpl in *.
    pose proof (Hkeys _ _ Hin) as <-. split; [done|]. destruct (t_challenges _ !! cm_id c') eqn:E; [|done]. exfalso. apply Hn.
    apply elem_of_list_to_set, list_elem_of_filter. split; [by eexists|]. apply Hon. by rewrite E.
  - intros c Hc. rewrite Forall_forall in Hf. specialize (Hf c Hc). split; [done|]. apply Hon.
    assert (cm_id c ∈ cm_id <$> (upd ++ ref ++ sta ++ unm)) as Hin by (apply list_elem_of_fmap; exists c; set_solver).
    rewrite Hids in Hin. by apply list_elem_of_filter in Hin as [_ ?].
  - intros old Hold. rewrite Forall_forall in Hu. destruct (Hu old Hold). by eapply unmodified_settled.
  - intros old. rewrite Hrem. intros [[Hn _] Hin]%list_elem_of_filter. split; [done|]. apply Hon. apply list_elem_of_fmap. eauto.
Qed.
End scan.

(** Every challenge gets exactly one verdict: a scan that reports no error
    changes nothing, and sorts the challenges it found, each into one of its
    lists; what it calls added is not on record and what it calls updated,
    refreshed, stale or unmodified is; an unmodified challenge matches its
    record and has no build left at an earlier source; and nothing it found is
    called removed. *)
Theorem scan_partitions chalDir inventory fp w cu w' :
  (forall id c, inventory !! id = Some c -> cm_id c = id) ->
  (forall n dir, o_inventory (W_o w) n dir = (inventory, [])) ->
  DetectChanges chalDir fp w = (cu, w') -> cu_errors cu = [] ->
  let d := m_db (W_m w) in
  W_m w' = W_m w /\
  cm_id <$> (cu_added cu ++ cu_updated cu ++ cu_refreshed cu ++ cu_stale cu ++ cu_unmodified cu) ≡ₚ (map_to_list inventory).*1 /\
  (forall c, c ∈ cu_added cu -> t_challenges d !! cm_id c = None) /\
  (forall c, c ∈ cu_updated cu ++ cu_refreshed cu ++ cu_stale cu ++ cu_removed cu -> is_Some (t_challenges d !! cm_id c)) /\
  (forall old, old ∈ cu_unmodified cu -> exists c, inventory !! cm_id old = Some c /\ settled d c) /\
  (forall old, old ∈ cu_removed cu -> inventory !! cm_id old = None).
Proof.
  intros Hkeys Hinv H He. destruct (DetectChanges_spec _ _ Hkeys _ _ _ _ Hinv H) as [[Hm _] Hs].
  destruct (Hs He) as [H1 H2 H3 H4 H5]. split_and!; [done|done| | |done|].
  - intros c Hc. by apply H2.
  - intros c Hc. rewrite !app_assoc in Hc. apply elem_of_app in Hc as [Hc|Hc]; [|by apply H5].
    apply H3. by rewrite app_assoc.
  - intros old Hold. by apply H5.
Qed.

(** ** What an update leaves *)

Lemma settled_ext d d' c :
  t_challenges d' !! cm_id c = t_challenges d !! cm_id c ->
  challengeParts_of (cm_id c) d' = challengeParts_of (cm_id c) d ->
  (forall b r, t_builds d' !! b = Some r -> b_challenge r = cm_id c -> t_builds d !! b = Some r) ->
  settled d c -> settled d' c.
Proof.
  intros Hc Hp Hb [(r & Hr & Hm) Hn]. split.
  - exists r. by rewrite Hc, Hp.
  - intros b row Hrow Hch. specialize (Hn b row (Hb _ _ Hrow Hch) Hch). unfold stale in *. rewrite Hch in *. by rewrite Hc.
Qed.

(** Everything but the challenges named is as it was. *)
Record untouched (ids : list ChallengeId) (d d' : Db) : Prop := {
  un_row : forall k, k ∉ ids -> t_challenges d' !! k = t_challenges d !! k;
  un_parts : forall k, k ∉ ids -> challengeParts_of k d' = challengeParts_of k d;
  un_builds : forall b r, t_builds d' !! b = Some r -> b_challenge r ∉ ids -> t_builds d !! b = Some r;
  un_found : forall k, is_Some (t_challenges d !! k) -> is_Some (t_challenges d' !! k) }.
Lemma untouched_refl ids d : untouched ids d d.
Proof. by split. Qed.
Lemma untouched_trans ids d d1 d2 : untouched ids d d1 -> untouched ids d1 d2 -> untouched ids d d2.
Proof.
  intros [H1 H2 H3 H4] [H5 H6 H7 H8]. split.
  - intros k Hk. rewrite H5, H1; done.
  - intros k Hk. rewrite H6, H2; done.
  - intros b r Hb Hk. by apply H3; [apply H7|].
  - auto.
Qed.
Lemma untouched_mono ids ids' d d' : ids ⊆ ids' -> untouched ids d d' -> untouched ids' d d'.
Proof.
  intros Hsub [H1 H2 H3 H4]. split; [intros k Hk; apply H1; set_solver|intros k Hk; apply H2; set_solver| |done].
  intros b r Hb Hk. apply H3; [done|set_solver].
Qed.
Lemma untouched_settled ids d d' c : untouched ids d d' -> cm_id c ∉ ids -> settled d c -> settled d' c.
Proof.
  intros [H1 H2 H3 _] Hk. apply settled_ext; [by apply H1|by apply H2|]. intros b r Hb Hch. apply H3; [done|]. by rewrite Hch.
Qed.

Definition clean (d : Db) : Prop := forall id, t_challenges d !! id = None -> challengeParts_of id d = noParts.

Lemma addChallenges_quiet l w :
  db_quiet w -> NoDup (cm_id <$> l) ->
  (forall c, c ∈ l -> valid c /\ t_challenges (m_db (W_m w)) !! cm_id c = None /\
     challengeParts_of (cm_id c) (m_db (W_m w)) = noParts) ->
  exists w', addChallenges l w = ([], w') /\ t_builds (m_db (W_m w')) = t_builds (m_db (W_m w)) /\
    untouched (cm_id <$> l) (m_db (W_m w)) (m_db (W_m w')) /\
    forall c, c ∈ l -> t_challenges (m_db (W_m w')) !! cm_id c = Some (challengeRowOf c) /\
                challengeParts_of (cm_id c) (m_db (W_m w')) = partsOf c.
Proof.
  revert w. induction l as [|c l IH]; intros w Hq Hnd Hl.
  { exists w. split_and!; [done|done|apply untouched_refl|set_solver]. }
  rewrite fmap_cons in Hnd. apply NoDup_cons in Hnd as [Hc Hnd].
  destruct (Hl c ltac:(left)) as (Hv & Hnew & Hempty).
  destruct (addChallenge_quiet c w Hq Hv Hnew Hempty) as (w1 & d1 & E1 & Ho1 & Hm1 & [Hp1 Hp2 Hp3]).
  set (d := m_db (W_m w)) in *. assert (m_db (W_m w1) = d1) as Hd1 by (by rewrite Hm1).
  assert (t_challenges d1 = <[cm_id c := challengeRowOf c]> (t_challenges d)) as Hc1 by (by rewrite Hp3).
  assert (forall c', c' ∈ l -> cm_id c' <> cm_id c) as Hne.
  { intros c' Hc' E. apply Hc. rewrite <- E. apply list_elem_of_fmap. eauto. }
  destruct (IH w1) as (w2 & E2 & Hb2 & Hun & Hall); [unfold db_quiet; by rewrite Ho1|done| |].
  { intros c' Hc'. destruct (Hl c' ltac:(by right)) as (? & ? & ?). rewrite Hd1, Hc1, lookup_insert_ne by (by apply not_eq_sym, Hne).
    split_and!; [done|done|]. by rewrite Hp2 by (by apply Hne). }
  exists w2. rewrite Hd1 in *. split_and!.
  - cbn [addChallenges]. unfold mbind, M_bind. rewrite E1, E2. done.
  - rewrite Hb2, Hp3. done.
  - eapply untouched_trans; [|eapply untouched_mono; [|exact Hun]; rewrite fmap_cons; set_solver].
    split.
    + intros k Hk. rewrite fmap_cons in Hk. rewrite Hc1, lookup_insert_ne; [done|set_solver].
    + intros k Hk. rewrite fmap_cons in Hk. rewrite Hp2; [done|set_solver].
    + rewrite Hp3. done.
    + intros k Hk. rewrite Hc1, lookup_insert. by case_decide.
  - intros c' [->|Hc']%elem_of_cons; [|by apply Hall]. rewrite (un_row _ _ _ Hun), (un_parts _ _ _ Hun) by done.
    by rewrite Hc1, lookup_insert_eq.
Qed.

(** What picks the builds to rebuild: builds of the challenge, and all of them
    that are built from another source. *)
Definition selects (select : ChallengeMetadata -> M (error + list BuildId)) : Prop :=
  forall c w ids w', select c w = (inr ids, w') ->
    let B := t_builds (m_db (W_m w)) in
    W_m w' = W_m w /\ NoDup ids /\ (forall id, id ∈ ids -> exists r, B !! id = Some r /\ b_challenge r = cm_id c) /\
    (forall id r, B !! id = Some r -> b_challenge r = cm_id c -> id ∉ ids ->
       b_flag r = ""%string \/ b_sourcechecksum r = cm_sourceChecksum c).
Lemma buildsWhere_NoDup P d : NoDup (buildsWhere P d).
Proof.
  unfold buildsWhere. eapply sublist_NoDup; [|apply fmap_sublist, sublist_filter].
  unfold rows. rewrite merge_sort_Permutation. apply NoDup_fst_map_to_list.
Qed.
Lemma staleBuildIds_selects : selects staleBuildIds.
Proof.
  intros c w ids w' H. apply sqlRead_inv in H as (Hm & _ & _ & ->). split_and!; [done|apply buildsWhere_NoDup| |].
  - intros id (r & Hr & HP)%elem_of_buildsWhere. exists r. repeat (apply andb_true_iff in HP as [HP ?]).
    by apply bool_decide_eq_true in HP.
  - intros id r Hr Hc Hn. rewrite elem_of_buildsWhere in Hn. destruct (decide (b_flag r = ""%string)) as [?|Hf]; [by left|right].
    destruct (decide (b_sourcechecksum r = cm_sourceChecksum c)) as [|Hs]; [done|]. exfalso. apply Hn. exists r. split; [done|].
    rewrite bool_decide_eq_true_2, !bool_decide_eq_false_2 by done. done.
Qed.
Lemma allBuildIds_selects : selects allBuildIds.
Proof.
  intros c w ids w' H. apply sqlRead_inv in H as (Hm & _ & _ & ->). split_and!; [done|apply buildsWhere_NoDup| |].
  - intros id (r & Hr & HP%bool_decide_eq_true)%elem_of_buildsWhere. eauto.
  - intros id r Hr Hc Hn. exfalso. apply Hn. apply elem_of_buildsWhere. exists r. split; [done|]. by apply bool_decide_eq_true.
Qed.

Section updating.
Context (pins : Z) (template : string -> Z) (limits : artifactLimits) (bp purge : bool).

Lemma update_one select c prune w u w1 ids w2 w3 r :
  selects select -> canonical c -> t_challenges (m_db (W_m w)) !! cm_id c = Some r ->
  rewriteChallenge c w = (inr u, w1) -> select c w1 = (inr ids, w2) ->
  rebuildBuilds pins template limits bp purge c ids prune w2 = ([], w3) ->
  untouched [cm_id c] (m_db (W_m w)) (m_db (W_m w3)) /\ settled (m_db (W_m w3)) c.
Proof.
  intros Hsel Hcan Hr E1 E2 E3. apply rewriteChallenge_spec in E1 as (d1 & d' & Hm1 & Hu & Hp).
  apply (updateChallenge_row _ _ _ _ Hr) in Hu. subst d1. apply Hsel in E2 as (Hm2 & Hnd & Hids & Hrest).
  destruct Hp as [Hp1 Hp2 Hp3]. assert (m_db (W_m w1) = d') as Hd by (by rewrite Hm1). rewrite Hd in *.
  assert (t_builds d' = t_builds (m_db (W_m w))) as HB by (by rewrite Hp3).
  assert (t_challenges d' = <[cm_id c := rewrittenRow c r]> (t_challenges (m_db (W_m w)))) as HC by (by rewrite Hp3).
  assert (fixed (t_builds d') (frame (W_m w1)) w2) as Hfix by (unfold fixed; rewrite Hm2, Hd; done).
  destruct (rebuildBuilds_rows _ _ _ _ _ _ _ _ _ _ _ _ _ Hnd Hfix E3) as (B3 & [HB3 HF3] & Hrows & Hall).
  unfold frame in HF3. rewrite Hd in HF3. injection HF3 as _ HC3 HP3.
  assert (forall k, challengeParts_of k (m_db (W_m w3)) = challengeParts_of k d') as HP by (intros k; unfold challengeParts_of; by rewrite HP3).
  split.
  - split.
    + intros k Hk. rewrite HC3, HC, lookup_insert_ne; [done|]. intros E. by apply Hk, list_elem_of_singleton.
    + intros k Hk. rewrite HP, Hp2; [done|]. intros E. by apply Hk, list_elem_of_singleton.
    + intros b row Hb Hch. rewrite HB3 in Hb. destruct (Hrows b) as [E|[Hin (r0 & r1 & Hr0 & Hr1 & _ & Hk & _)]].
      * rewrite <- HB, <- E. done.
      * exfalso. rewrite Hr1 in Hb. injection Hb as ->. destruct (Hids b Hin) as (r2 & Hr2 & Hch2).
        rewrite Hr0 in Hr2. injection Hr2 as ->. apply Hch. rewrite list_elem_of_singleton. unfold buildKey in Hk. congruence.
    + intros k Hk. rewrite HC3, HC, lookup_insert. by case_decide.
  - assert (t_challenges (m_db (W_m w3)) !! cm_id c = Some (rewrittenRow c r)) as Hrow by (rewrite HC3, HC; apply lookup_insert_eq).
    split.
    + exists (rewrittenRow c r). rewrite HP, Hp1. split_and!; [done..|]. by apply challengeMeta_options.
    + intros b row Hb Hch. unfold stale. rewrite Hch, Hrow. simpl. rewrite HB3 in Hb.
      assert (b_flag row = ""%string \/ b_sourcechecksum row = cm_sourceChecksum c) as [Hf|Hs].
      { destruct (decide (b ∈ ids)) as [Hin|Hin].
        - destruct (Hall eq_refl b Hin) as (r0 & r1 & _ & Hr1 & (_ & Hsrc & _) & _). rewrite Hr1 in Hb. injection Hb as <-. auto.
        - destruct (Hrows b) as [E|[? _]]; [|done]. rewrite E in Hb. by eapply Hrest. }
      * by rewrite (bool_decide_eq_true_2 (b_flag row = ""%string)).
      * rewrite Hs, (bool_decide_eq_true_2 (cm_sourceChecksum c = cm_sourceChecksum c)) by done. apply andb_false_r.
Qed.

Lemma updateChallenges_settles select l prune w w' :
  selects select -> NoDup (cm_id <$> l) ->
  (forall c, c ∈ l -> canonical c /\ is_Some (t_challenges (m_db (W_m w)) !! cm_id c)) ->
  updateChallenges pins template limits bp purge l (Some select) prune w = ([], w') ->
  untouched (cm_id <$> l) (m_db (W_m w)) (m_db (W_m w')) /\ forall c, c ∈ l -> settled (m_db (W_m w')) c.
Proof.
  intros Hsel. revert w. induction l as [|c l IH]; intros w Hnd Hl H; simpl in H.
  { apply ret_inv in H as [_ ->]. split; [apply untouched_refl|set_solver]. }
  rewrite fmap_cons in Hnd. apply NoDup_cons in Hnd as [Hc Hnd]. destruct (Hl c ltac:(left)) as [Hcan [r Hr]].
  step H res w1 E1. step H errs w2 E2. step H more w3 E3. apply ret_inv in H as [H ->].
  symmetry in H. apply app_eq_nil in H as [-> ->].
  destruct res as [e|u]; [by apply ret_inv in E2 as [? _]|]. step E2 ids w4 E4.
  destruct ids as [e|ids]; [by apply ret_inv in E2 as [? _]|].
  destruct (update_one _ _ _ _ _ _ _ _ _ _ Hsel Hcan Hr E1 E4 E2) as [Hun Hset].
  apply IH in E3 as [Hun' Hset']; [|done|].
  - split.
    + eapply untouched_trans; (eapply untouched_mono; [|eassumption]); rewrite fmap_cons; set_solver.
    + intros c' [->|Hc']%elem_of_cons; [|by apply Hset']. by eapply untouched_settled.
  - intros c' Hc'. destruct (Hl c' ltac:(by right)) as [? ?]. split; [done|]. by apply (un_found _ _ _ Hun).
Qed.
End updating.

(** Challenges removed are only those named, and nothing is rebuilt. *)
Lemma sqlAll_deletes l w u w' :
  sqlAll (fun c => stmt (deleteChallenge (cm_id c))) l w = (inr u, w') ->
  t_builds (m_db (W_m w')) = t_builds (m_db (W_m w)) /\
  forall k, k ∉ cm_id <$> l -> t_challenges (m_db (W_m w')) !! k = t_challenges (m_db (W_m w)) !! k /\
    challengeParts_of k (m_db (W_m w')) = challengeParts_of k (m_db (W_m w)).
Proof.
  revert w. induction l as [|c l IH]; intros w H; simpl in H; [by apply ret_inv in H as [_ ->]|].
  apply try_inr in H as ([] & w1 & E & H). apply sql_inr in E as (E & _). apply IH in H as [-> H].
  unfold stmt, deleteChallenge in E. destruct (existsb _ _); [done|]. injection E as E. split; [by rewrite <- E|].
  intros k [Hne Hk]%not_elem_of_cons. destruct (H k Hk) as [-> ->]. rewrite <- E. simpl. rewrite lookup_delete_ne by done.
  split; [done|]. unfold challengeParts_of. simpl. by rewrite lookup_delete_ne.
Qed.
Lemma removeChallenges_settled l w u w' c :
  removeChallenges l w = (inr u, w') -> cm_id c ∉ cm_id <$> l -> settled (m_db (W_m w)) c -> settled (m_db (W_m w')) c.
Proof.
  intros H Hc. apply transaction_spec in H as (_ & _ & w1 & E & Hm); [|apply _]. rewrite Hm.
  apply sqlAll_deletes in E as [Hb E]. destruct (E _ Hc) as [Hr Hp]. apply settled_ext; [done|done|by rewrite Hb].
Qed.
(** A challenge put on record as it was found has nothing to update. *)
Lemma added_settled d c :
  canonical c -> t_challenges d !! cm_id c = Some (challengeRowOf c) -> challengeParts_of (cm_id c) d = partsOf c ->
  (forall b r, t_builds d !! b = Some r -> b_challenge r <> cm_id c) -> settled d c.
Proof.
  intros Hc Hr Hp Hb. split; [|intros b r Hr' Hch; by destruct (Hb b r Hr')].
  exists (challengeRowOf c). rewrite Hp. split_and!; [done..|]. by apply (challengeMeta_options c (challengeRowOf c)).
Qed.

Section converges.
Context (pins : Z) (template : string -> Z) (limits : artifactLimits) (bp purge : bool) (chalDir : string).
Context (inventory : gmap ChallengeId ChallengeMetadata).
Hypothesis Hkeys : forall id c, inventory !! id = Some c -> cm_id c = id.
Hypothesis Hgood : forall id c, inventory !! id = Some c -> valid c /\ canonical c.

(** The lists of a scan have no challenge in common. *)
Lemma scanned_disjoint d cu : scanned inventory d cu ->
  NoDup (cm_id <$> cu_added cu) /\ NoDup (cm_id <$> (cu_refreshed cu ++ cu_stale cu)) /\ NoDup (cm_id <$> cu_updated cu) /\
  (forall k, k ∈ cm_id <$> cu_added cu -> k ∉ cm_id <$> (cu_refreshed cu ++ cu_stale cu) /\ k ∉ cm_id <$> cu_updated cu) /\
  (forall k, k ∈ cm_id <$> (cu_refreshed cu ++ cu_stale cu) -> k ∉ cm_id <$> cu_updated cu) /\
  (forall k, k ∈ cm_id <$> cu_unmodified cu ->
     k ∉ cm_id <$> cu_added cu /\ k ∉ cm_id <$> (cu_refreshed cu ++ cu_stale cu) /\ k ∉ cm_id <$> cu_updated cu).
Proof.
  intros [Hids _ _ _ _]. pose proof (NoDup_fst_map_to_list inventory) as Hnd. rewrite <- Hids in Hnd.
  assert (NoDup ((cm_id <$> cu_added cu) ++ (cm_id <$> cu_updated cu) ++ (cm_id <$> (cu_refreshed cu ++ cu_stale cu)) ++
    (cm_id <$> cu_unmodified cu))) as H by (rewrite <- !fmap_app, <- !app_assoc; exact Hnd).
  clear Hnd. revert H. generalize (cm_id <$> cu_added cu), (cm_id <$> cu_updated cu), (cm_id <$> (cu_refreshed cu ++ cu_stale cu)),
    (cm_id <$> cu_unmodified cu). intros A U R N (HA & HAx & (HU & HUx & (HR & HRx & _)%NoDup_app)%NoDup_app)%NoDup_app.
  split_and!; [done|done|done|..]; intros k Hk; repeat split; intros Hk'.
  all: first [apply (HAx k Hk)|apply (HAx k Hk')|apply (HUx k Hk')|apply (HRx k Hk')]; rewrite ?elem_of_app; auto.
Qed.

(** The steps that change the tables, in the order they run. *)
Lemma update_steps_settle prune d cu w0 w1 w2 w3 w4 u :
  scanned inventory d cu -> db_ok d -> clean d -> db_quiet w0 -> m_db (W_m w0) = d ->
  addChallenges (cu_added cu) w0 = ([], w1) ->
  updateChallenges pins template limits bp purge (cu_refreshed cu ++ cu_stale cu) (Some staleBuildIds) prune w1 = ([], w2) ->
  updateChallenges pins template limits bp purge (cu_updated cu) (Some allBuildIds) prune w2 = ([], w3) ->
  removeChallenges (cu_removed cu) w3 = (inr u, w4) ->
  forall id c, inventory !! id = Some c -> settled (m_db (W_m w4)) c.
Proof.
  intros Hs Hok Hcl Hq <- E1 E2 E3 E4. pose proof (scanned_disjoint _ _ Hs) as (HA & HR & HU & HAx & HRx & HNx).
  destruct Hs as [Hids Hadd Hfound Hset Hrem].
  destruct (addChallenges_quiet (cu_added cu) w0 Hq HA) as (w1' & E1' & Hb1 & Hun1 & Hrows).
  { intros c Hc. destruct (Hadd c Hc) as [Hi Hn]. split_and!; [by eapply Hgood|done|by apply Hcl]. }
  rewrite E1 in E1'. injection E1' as <-.
  assert (forall c, c ∈ cu_updated cu ++ cu_refreshed cu ++ cu_stale cu ->
    canonical c /\ is_Some (t_challenges (m_db (W_m w1)) !! cm_id c)) as Hf1.
  { intros c Hc. destruct (Hfound c Hc) as [Hi Hn]. split; [by eapply Hgood|by apply (un_found _ _ _ Hun1)]. }
  apply (updateChallenges_settles _ _ _ _ _ _ _ _ _ _ staleBuildIds_selects HR) in E2 as [Hun2 Hset2];
    [|intros c Hc; apply Hf1, elem_of_app; by right].
  apply (updateChallenges_settles _ _ _ _ _ _ _ _ _ _ allBuildIds_selects HU) in E3 as [Hun3 Hset3].
  2: { intros c Hc. destruct (Hf1 c) as [? ?]; [apply elem_of_app; by left|]. split; [done|by apply (un_found _ _ _ Hun2)]. }
  intros id c Hc. pose proof (Hkeys _ _ Hc) as Hid. eapply removeChallenges_settled; [exact E4| |].
  { intros (old & E & Hold)%list_elem_of_fmap. apply Hrem in Hold as [Hn _]. rewrite <- E, Hid in Hn. by rewrite Hn in Hc. }
  assert (forall c', cm_id c' = cm_id c -> inventory !! cm_id c' = Some c' -> c' = c) as Huniq.
  { intros c' E Hc'. rewrite E, Hid, Hc in Hc'. by injection Hc'. }
  assert (id ∈ (map_to_list inventory).*1) as Hin.
  { apply list_elem_of_fmap. exists (id, c). split; [done|]. by apply elem_of_map_to_list. }
  rewrite <- Hids, <- Hid in Hin. apply list_elem_of_fmap in Hin as (x & Ex & Hx). apply elem_of_app in Hx as [Hx|Hx].
  { assert (x = c) as -> by (apply Huniq; [done|by apply Hadd]). pose proof (list_elem_of_fmap_2 cm_id _ _ Hx) as Hk.
    destruct (HAx _ Hk) as [HnR HnU]. eapply untouched_settled; [exact Hun3|done|]. eapply untouched_settled; [exact Hun2|done|].
    destruct (Hrows c Hx) as [Hr Hp]. apply added_settled; [by eapply Hgood|done|done|]. rewrite Hb1. intros b r Hb Hch.
    destruct (ok_challenge _ Hok _ _ Hb) as [? Hsome]. rewrite Hch in Hsome. destruct (Hadd c Hx) as [_ Hn]. by rewrite Hn in Hsome. }
  apply elem_of_app in Hx as [Hx|Hx].
  { assert (x = c) as -> by (apply Huniq; [done|apply Hfound, elem_of_app; by left]). by apply Hset3. }
  rewrite app_assoc in Hx. apply elem_of_app in Hx as [Hx|Hx].
  { assert (x = c) as -> by (apply Huniq; [done|apply Hfound, elem_of_app; by right]).
    eapply untouched_settled; [exact Hun3|apply HRx, list_elem_of_fmap; eauto|]. by apply Hset2. }
  destruct (HNx (cm_id c)) as (HnA & HnR & HnU); [rewrite Ex; by apply list_elem_of_fmap_2|].
  destruct (Hset x Hx) as (c' & Hc' & Hs'). rewrite <- Ex, Hid, Hc in Hc'. injection Hc' as <-.
  eapply untouched_settled; [exact Hun3|done|]. eapply untouched_settled; [exact Hun2|done|]. by eapply untouched_settled.
Qed.
End converges.

(** C13. An update that reports no error leaves nothing to update: with the
    database answering and every challenge found valid, each of them is then
    on record as it was found -- type, checksums, solve script and container
    options -- and no build of it stands at an earlier source, whatever was
    added, refreshed, rebuilt or removed on the way. *)
Theorem update_converges pins template limits bp purge chalDir inventory fp prune w cu w' :
  (forall id c, inventory !! id = Some c -> cm_id c = id /\ valid c /\ canonical c) ->
  (forall n dir, o_inventory (W_o w) n dir = (inventory, [])) ->
  db_ok (m_db (W_m w)) -> clean (m_db (W_m w)) -> db_quiet w ->
  UpdateWithOptions pins template limits bp purge chalDir fp prune w = (cu, w') -> cu_errors cu = [] ->
  forall id c, inventory !! id = Some c -> settled (m_db (W_m w')) c.
Proof.
  intros Hgood Hinv Hok Hcl Hq H He. assert (forall id c, inventory !! id = Some c -> cm_id c = id) as Hkeys by (intros ???; by apply Hgood).
  unfold UpdateWithOptions in H. step H m w0 E0. apply getM_inv in E0 as [-> ->].
  destruct (m_externalBuildPlane (W_m w)); [by apply ret_inv in H as [-> _]|]. step H scan w1 E1. step H e1 w2 E2.
  step H e2 w3 E3. step H e3 w4 E4. case_decide as Hnil; [|apply ret_inv in H as [-> _]; simpl in He; by rewrite He in Hnil].
  apply app_eq_nil in Hnil as [Hs [-> [-> ->]%app_eq_nil]%app_eq_nil]. step H r w5 E5. apply ret_inv in H as [-> ->].
  destruct r as [e|u]; [done|]. destruct (DetectChanges_spec _ _ Hkeys _ _ _ _ Hinv E1) as [[Hm Ho] Hscan].
  eapply update_steps_settle; [exact Hkeys| |exact (Hscan Hs)|done|done| |by rewrite Hm|exact E2|exact E3|exact E4|exact E5].
  - intros id c Hc. by destruct (Hgood id c Hc).
  - unfold db_quiet. by rewrite Ho.
Qed.

(** The demo system, and a directory with a newer [web] and a [crypto] that is
    not on record. *)
Definition found_inventory : gmap ChallengeId ChallengeMetadata :=
  {["web"%string := found_challenge "web" ["pwn"%string] []; "crypto"%string := found_challenge "crypto" [] ["xor"%string]]}.
Definition found_world : World := demo_world ((empty_registry []) <| o_inventory := fun _ _ => (found_inventory, []) |>).
Lemma found_ok id c : found_inventory !! id = Some c -> cm_id c = id /\ valid c /\ canonical c.
Proof.
  unfold found_inventory. intros [[<- <-]|[_ [<- <-]%lookup_singleton_Some]]%lookup_insert_Some.
  all: split; [done|split; [apply found_valid|apply found_canonical]].
  - apply NoDup_singleton.
  - apply NoDup_nil_2.
Qed.
Lemma demo_clean : clean demo_db.
Proof.
  intros id Hid. change (t_challenges demo_db) with
    ({["web"%string := mkChallengeRow "Web" "" "custom" "" "" 7 9 "/c/web" false false 1 "" 1]} : gmap string challengeRow) in Hid.
  apply lookup_singleton_None in Hid. unfold challengeParts_of.
  change (t_parts demo_db) with
    ({["web"%string := mkParts [] [] [] [] [("http"%string, mkPortInfo "web" 80)] []]} : gmap string challengeParts).
  by rewrite lookup_singleton_ne.
Qed.

Lemma scan_partitions_witness :
  exists cu w', DetectChanges "/c" "" found_world = (cu, w') /\ cm_id <$> cu_added cu = ["crypto"%string] /\
    cm_id <$> cu_updated cu = ["web"%string] /\ W_m w' = W_m found_world.
Proof.
  destruct (DetectChanges "/c" "" found_world) as [cu w'] eqn:E. exists cu, w'.
  destruct (scan_partitions "/c" found_inventory "" found_world cu w') as [Hm _];
    [intros id c H; apply (found_ok id c H)|intros n dir; reflexivity|exact E|vm_compute in E; injection E as <- _; reflexivity|].
  split; [reflexivity|]. split_and!; [vm_compute in E; injection E as <- _; reflexivity..|exact Hm].
Defined.

Lemma update_converges_witness :
  exists cu w', UpdateWithOptions 0 (fun _ => 0) someLimits false true "/c" "" true found_world = (cu, w') /\
    cu_errors cu = [] /\ settled (m_db (W_m w')) (found_challenge "web" ["pwn"%string] []) /\
    settled (m_db (W_m w')) (found_challenge "crypto" [] ["xor"%string]).
Proof.
  destruct (UpdateWithOptions 0 (fun _ => 0) someLimits false true "/c" "" true found_world) as [cu w'] eqn:E. exists cu, w'.
  assert (cu_errors cu = []) as He by (vm_compute in E; injection E as <- _; reflexivity).
  pose proof (update_converges 0 (fun _ => 0) someLimits false true "/c" found_inventory "" true found_world cu w'
    found_ok (fun _ _ => eq_refl) demo_ok demo_clean (fun _ => eq_refl) E He) as H.
  split; [reflexivity|]. split; [exact He|]. split; [apply (H "web"%string)|apply (H "crypto"%string)]; reflexivity.
Defined.

(** A challenge whose first [INSERT] fails is dropped without an error: the
    update reports success and the challenge is not on record. *)
Example failed_insert_is_silent :
  exists cu w', UpdateWithOptions 0 (fun _ => 0) someLimits false true "/c" ""
      true (found_world <| W_o ::= (fun o => o <| o_inventory := fun _ _ =>
        (<["crypto"%string := challengeMeta "crypto" (mkChallengeRow "Crypto" "" "custom" "" "" 8 9 "/c/crypto" false false 1 "" (-1)) noParts]> found_inventory, []) |>) |>) = (cu, w') /\
    cu_errors cu = [] /\ cm_id <$> cu_added cu = ["crypto"%string] /\ t_challenges (m_db (W_m w')) !! "crypto"%string = None.
Proof.
  destruct (UpdateWithOptions _ _ _ _ _ _ _ _ _) as [cu w'] eqn:E. exists cu, w'. vm_compute in E. injection E as <- <-.
  split; [reflexivity|]. split_and!; reflexivity.
Qed.
