(* ===== verification/HandOver.v ===== *)
(** * HandOver: builds that arrive from an external build plane

    [cork/handover.go]: [checkHandOver], [requireInRegistry],
    [commitHandedOverBuild], [HandOverChallenge] and [RemoveChallenge], with the
    names they accept; [registryTagPresent] and [registryManifestRequest]
    ([cork/registry.go]); [dumpChallenge] and [dumpState] ([cork/database.go]).

    A hand-over is metadata and image tags.  It is verified -- the payload
    against itself, every content checksum against its inputs, every seccomp
    profile against its hash, every tag against the registry -- before anything
    is written; then the challenge is persisted as an update would and each build
    is committed as a rebuild would.

    [decode] is how a seccomp profile's JSON reads, [template] the checksum of a
    challenge type's built-in Dockerfile. *)
From S2P Require Import Prelude Types Settings Text Regex Artifacts Queue Worker Database Fleet HostConfig Effects Ports Instances Images Sha256 Seccomp Docker Launch Lifecycle Roster Builds Converge Builder Rebuild Challenges Schemas Converged Update Detect.
Local Open Scope Z_scope.

(** ** Names *)
Definition inRange (lo hi c : ascii) : bool := (nat_of_ascii lo <=? nat_of_ascii c)%nat && (nat_of_ascii c <=? nat_of_ascii hi)%nat.
Definition lowerAlnum (c : ascii) : bool := inRange "a" "z" c || inRange "0" "9" c.
(** [^([a-z0-9]+(/[a-z0-9]+)*/)?[a-z0-9]([a-z0-9-]*[a-z0-9])?$] *)
Definition challengeIdRe : regex :=
  RSeq (ROpt (RSeq (RPlus (RClass lowerAlnum)) (RSeq (RStar (RSeq (RChar "/") (RPlus (RClass lowerAlnum)))) (RChar "/"))))
    (RSeq (RClass lowerAlnum)
       (ROpt (RSeq (RStar (RClass (fun c => lowerAlnum c || bool_decide (c = "-"%char)))) (RClass lowerAlnum)))).
Definition validChallengeId (id : ChallengeId) : bool := re_match challengeIdRe id.
(** [^\w+$] *)
Definition wordChar (c : ascii) : bool := lowerAlnum c || inRange "A" "Z" c || bool_decide (c = "_"%char).
Definition hostNameRe : regex := RPlus (RClass wordChar).
Definition validHostName (name : string) : bool := re_match hostNameRe name.

(** ** Asking the registry *)

(** [strings.Cut] at one character. *)
Fixpoint Cut (sep : ascii) (s : string) : option (string * string) :=
  match s with
  | EmptyString => None
  | String c s => if decide (c = sep) then Some (""%string, s) else prod_map (String c) id <$> Cut sep s
  end.
(** [strings.Trim] of one character. *)
Fixpoint TrimLeft (ch : ascii) (s : string) : string :=
  match s with String c rest => if decide (c = ch) then TrimLeft ch rest else s | EmptyString => s end.
Fixpoint TrimRight (ch : ascii) (s : string) : string :=
  match s with
  | EmptyString => ""%string
  | String c s =>
    let rest := TrimRight ch s in
    if bool_decide (rest = ""%string) && bool_decide (c = ch) then ""%string else String c rest
  end.
Definition registryEndpoint (registry : string) : string * string :=
  match Cut "/" registry with
  | Some (host, prefix) => (host, TrimRight "/" (TrimLeft "/" prefix))
  | None => (registry, ""%string)
  end.

(** The host and the path of the request, before [url.URL] escapes it. *)
Definition registryManifestRequest (registry imageName : string) : option (string * string) :=
  match CutPrefix imageName (registry +:+ "/")%string with
  | None => None
  | Some repoAndTag =>
    match Cut ":" repoAndTag with
    | None => None
    | Some (repo, tag) =>
      let '(host, prefix) := registryEndpoint registry in
      let repo := if decide (prefix <> ""%string) then (prefix +:+ "/" +:+ repo)%string else repo in
      Some (host, ("/v2/" +:+ repo +:+ "/manifests/" +:+ tag)%string)
    end
  end.

(** One exchange: the status the registry answered with.  A client that cannot
    be made (its certificates cannot be read) is one that gets no answer. *)
Definition registryManifestStatus (imageName : string) : M (error + Z) :=
  m ← getM;
  match registryManifestRequest (m_challengeRegistry m) imageName with
  | None => fail [OtherError "not a tag of the registry"]
  | Some _ =>
    r ← docker None (RegistryHead imageName);
    match r with
    | inr _ => ok 200
    | inl [HttpStatus code] => ok code
    | inl err => fail err
    end
  end.
Fixpoint askStatus (k : nat) (imageName : string) : M (error + Z) :=
  r ← registryManifestStatus imageName;
  match r with
  | inr code => ok code
  | inl err => match k with O => fail err | S k => askStatus k imageName end
  end.
Definition registryTagPresent (imageName : string) : M (error + bool) :=
  let? code := askStatus (pred registryAttempts) imageName in
  if decide (code = 200) then ok true
  else if decide (code = 404) then ok false
  else fail [OtherError "registry lookup returned another status"].

(** ** What is handed over *)

(** The challenge's builds arrive as an array whose elements may be null. *)
Record HandOver := mkHandOver {
  ho_challenge : option (ChallengeMetadata * list (option BuildMetadata));
  ho_pinFingerprint : Z;
  ho_seccompProfiles : gmap string string }.

Definition invalid (what : string) : error := [ErrHandOverInvalid; OtherError what].
Definition NUL : ascii := "000".
Definition handOverKey (b : BuildMetadata) : string :=
  (bm_schema b +:+ String NUL (bm_format b +:+ String NUL (pretty (bm_seed b))))%string.

Fixpoint checkImages (hosts imaged : list string) (images : list Image) : error + list string :=
  match images with
  | [] => inr imaged
  | image :: images =>
    if decide (img_host image ∉ hosts) then inl (invalid "an image for a host the challenge does not name")
    else if decide (img_host image ∈ imaged) then inl (invalid "two images for a host")
    else checkImages hosts (img_host image :: imaged) images
  end.

Section hand_over.
Context (template : string -> Z).

Definition checkBuild (c : ChallengeMetadata) (pin : Z) (hosts seen : list string) (b : BuildMetadata) : error + unit :=
  if decide (bm_challenge b <> ""%string /\ bm_challenge b <> cm_id c) then inl (invalid "belongs to another challenge")
  else if decide (bm_id b <= 0) then inl (invalid "carries no build id")
  else if decide (bm_schema b = ""%string \/ bm_format b = ""%string) then inl (invalid "names no schema or no flag format")
  else if decide (handOverKey b ∈ seen) then inl (invalid "is handed over twice")
  else if decide (bm_flag b = ""%string) then inl (invalid "has no flag")
  else if decide (bm_instanceCount b < DYNAMIC_INSTANCES) then inl (invalid "has a count no schema gives")
  else if decide (bm_sourceChecksum b <> cm_sourceChecksum c) then inl (invalid "was built from another source generation")
  else if decide (bm_checksum b <> contentChecksum (bm_sourceChecksum b) (bm_format b) pin (template (cm_challengeType c)))
    then inl (invalid "carries another content checksum than its inputs give")
  else if decide (bm_images b = []) then inl (invalid "has no images")
  else
    match checkImages hosts [] (bm_images b) with
    | inl err => inl err
    | inr imaged =>
      if decide (Forall (fun host => host ∈ imaged) hosts) then inr tt else inl (invalid "has no image for a host")
    end.
Fixpoint checkBuilds (c : ChallengeMetadata) (pin : Z) (hosts seen : list string) (builds : list (option BuildMetadata))
    : error + list BuildMetadata :=
  match builds with
  | [] => inr []
  | None :: _ => inl (invalid "is null")
  | Some b :: builds =>
    match checkBuild c pin hosts seen b with
    | inl err => inl err
    | inr _ =>
      match checkBuilds c pin hosts (handOverKey b :: seen) builds with
      | inl err => inl err
      | inr rest => inr (b :: rest)
      end
    end
  end.

(** The challenge with its builds, once nothing of it is refused. *)
Definition checkHandOver (id : ChallengeId) (handOver : option HandOver) : error + ChallengeMetadata :=
  match handOver with
  | None => inl (invalid "no hand-over")
  | Some h =>
    match ho_challenge h with
    | None => inl (invalid "no challenge")
    | Some (c, builds) =>
      if decide (cm_id c <> id) then inl (invalid "the payload describes another challenge")
      else if negb (validChallengeId id) then inl (invalid "not a challenge id")
      else if decide (cm_challengeType c = ""%string) then inl (invalid "no challenge type")
      else if decide (cm_hosts c = []) then inl (invalid "no hosts")
      else
        let hosts := hi_name <$> cm_hosts c in
        if negb (forallb validHostName hosts) then inl (invalid "not a stage name")
        else if decide (Exists (fun np => pi_host np.2 ∉ hosts) (map_to_list (cm_portMap c)))
          then inl (invalid "a port on a host the challenge does not name")
        else
          match checkBuilds c (ho_pinFingerprint h) hosts [] builds with
          | inl err => inl err
          | inr builds => inr (c <| cm_builds := builds |>)
          end
    end
  end.
End hand_over.

(** The tags a build resolves to that workers pull. *)
Definition pulledTags (registry : string) (challenge : ChallengeId) (b : BuildMetadata) : list string :=
  (fun image => instanceImageName registry challenge b image) <$> filter (fun image => img_host image <> "builder"%string) (bm_images b).
Fixpoint missingTags (names : list string) : M (error + list string) :=
  match names with
  | [] => ok []
  | name :: names =>
    let? present := registryTagPresent name in
    let? missing := missingTags names in
    ok (if present : bool then missing else name :: missing)
  end.
Definition requireInRegistry (c : ChallengeMetadata) : M (error + unit) :=
  m ← getM;
  let? missing := missingTags (mjoin (pulledTags (m_challengeRegistry m) (cm_id c) <$> cm_builds c)) in
  if decide (missing = []) then ok tt else fail [ErrNotInRegistry].

(** ** Reading a challenge back with everything of it *)
Fixpoint dumpBuilds (ids : list BuildId) : M (error + list BuildMetadata) :=
  match ids with
  | [] => ok []
  | id :: ids =>
    let? b := lookupBuildMetadata id in
    let? instances := lookupBuildInstances (bm_id b) in
    let? rest := dumpBuilds ids in
    ok (b <| bm_instances := instances |> :: rest)
  end.
Definition dumpChallenge (challenge : ChallengeId) : M (error + ChallengeMetadata) :=
  let? meta := lookupChallengeMetadata challenge in
  let? ids := sqlRead (buildsWhere (fun r => bool_decide (b_challenge r = challenge))) in
  let? builds := dumpBuilds ids in
  ok (meta <| cm_builds := builds |>).
Fixpoint dumpAll (ids : list ChallengeId) : M (error + list ChallengeMetadata) :=
  match ids with
  | [] => ok []
  | id :: ids => let? meta := dumpChallenge id in let? rest := dumpAll ids in ok (meta :: rest)
  end.
Definition dumpState : M (error + list ChallengeMetadata) :=
  let? challenges := listChallenges in dumpAll (cm_id <$> challenges).

(** ** Committing *)
Section commit.
Context (decode : string -> option seccompProfile) (basePins : Z) (template : string -> Z) (limits : artifactLimits).
Context (buildPlane purgeAfterPush : bool).

(** A row with no generation goes if what it was opened for does not finish. *)
Definition dropOpened (opened : bool) (id : BuildId) (err : error) : M (option replacedImages * list error) :=
  if opened then
    r ← removeBuildMetadata id;
    mret (None, err :: match r with inl rmErr => [rmErr] | inr _ => [] end)
  else mret (None, [err]).

Definition commitHandedOverBuild (c : ChallengeMetadata) (delivered : BuildMetadata) (rev : gmap string string)
    (pruneOldImages : bool) : M (option replacedImages * list error) :=
  r ← openBuild basePins template
        (mkBuild (bm_id delivered) "" ∅ (bm_seed delivered) (bm_format delivered) (bm_checksum delivered) 0 0 [] false 0
           (cm_id c) [] (bm_schema delivered) (bm_instanceCount delivered));
  match r with
  | inl err => mret (None, [err])
  | inr row =>
    if decide (bm_id delivered <> 0 /\ bm_id row <> bm_id delivered) then
      mret (None, [[OtherError "the build plane has renumbered it"]])
    else
      let opened := bool_decide (bm_flag row = ""%string) in
      let build := delivered <| bm_id := bm_id row |> <| bm_challenge := cm_id c |> <| bm_instances := [] |>
                     <| bm_prevChecksum := bm_prevChecksum row |> in
      if decide (bm_flag row = bm_flag delivered /\ bm_checksum row = bm_checksum delivered /\
                 bm_sourceChecksum row = bm_sourceChecksum delivered /\ bm_hasArtifacts row = bm_hasArtifacts delivered) then
        if negb (NeedsInstance c) then errs ← convergeBuildInstances build c 0; mret (None, errs)
        else if decide (bm_instanceCount build = DYNAMIC_INSTANCES) then mret (None, [])
        else errs ← convergeBuildInstances build c (bm_instanceCount build); mret (None, errs)
      else
        '(candidate, errs) ← reconcileBuild purgeAfterPush build c rev pruneOldImages;
        if opened && negb (bool_decide (errs = [])) then
          stored ← lookupBuildMetadata (bm_id row);
          match stored with
          | inr stored =>
            if decide (bm_flag stored = ""%string) then dropOpened opened (bm_id row) (mjoin errs)
            else mret (candidate, errs)
          | inl _ => mret (candidate, errs)
          end
        else mret (candidate, errs)
  end.

Fixpoint commitBuilds (c : ChallengeMetadata) (rev : gmap string string) (pruneOldImages : bool) (builds : list BuildMetadata)
    : M (list replacedImages * list error) :=
  match builds with
  | [] => mret ([], [])
  | b :: builds =>
    '(candidate, errs) ← commitHandedOverBuild c b rev pruneOldImages;
    '(replaced, more) ← commitBuilds c rev pruneOldImages builds;
    mret (match candidate with Some x => x :: replaced | None => replaced end, errs ++ more)
  end.

(** The challenge in the one list its verdict names. *)
Definition inBucket (v : challengeVerdict) (l : list ChallengeMetadata) (errs : list error) : ChallengeUpdates :=
  match v with
  | verdictAdded => (noUpdates errs) <| cu_added := l |>
  | verdictUpdated => (noUpdates errs) <| cu_updated := l |>
  | verdictRefreshed => (noUpdates errs) <| cu_refreshed := l |>
  | verdictStale => (noUpdates errs) <| cu_stale := l |>
  | verdictUnmodified => (noUpdates errs) <| cu_unmodified := l |>
  end.
(** What the verdict has written of the challenge. *)
Definition persist (v : challengeVerdict) (c : ChallengeMetadata) : M (error + unit) :=
  errs ← (match v with
          | verdictAdded => addChallenges [c]
          | verdictUpdated | verdictRefreshed => updateChallenges basePins template limits buildPlane purgeAfterPush [c] None false
          | _ => mret []
          end);
  if decide (errs = []) then ok tt else fail (mjoin errs).

(** Once the verdict stands, failures are the builds' own. *)
Definition commitAll (v : challengeVerdict) (c : ChallengeMetadata) (pruneOldImages : bool) : M ChallengeUpdates :=
  r ← lookupChallengeMetadata (cm_id c);
  match r with
  | inl err => mret (inBucket v [c] [err])
  | inr cMeta =>
    r ← getReversePortMap (cm_id c);
    match r with
    | inl err => mret (inBucket v [c] [err])
    | inr rev =>
      '(replaced, errs) ← commitBuilds cMeta rev pruneOldImages (cm_builds c);
      pruneReplacedImages buildPlane replaced;;
      _ ← staleBuildIds cMeta;                                    (* for the log *)
      r ← dumpChallenge (cm_id c);
      mret (match r with
            | inl err => inBucket v [c] (errs ++ [err])
            | inr recorded => inBucket v [recorded] errs
            end)
    end
  end.

(** The challenge on record, if there is one. *)
Definition currentChallenge (id : ChallengeId) : M (error + option ChallengeMetadata) :=
  r ← lookupChallengeMetadata id;
  mret (match r with
        | inr c => inr (Some c)
        | inl err => if isUnknownIdentifier err then inr None else inl err
        end).

Definition HandOverChallenge (id : ChallengeId) (handOver : option HandOver) (pruneOldImages : bool)
    : M (error + ChallengeUpdates) :=
  m ← getM;
  if negb (m_externalBuildPlane m) then fail [ErrLocalBuildPlane]
  else
    match checkHandOver template id handOver with
    | inl err => fail err
    | inr c =>
      match applySeccompProfiles decode c (from_option ho_seccompProfiles ∅ handOver) with
      | inl _ => fail [ErrHandOverInvalid]
      | inr c =>
        let? _ := requireInRegistry c in
        let? current := currentChallenge id in
        let? stale := (match current with Some _ => challengeHasStaleBuild id | None => ok false end) in
        v ← classifyChallenge current c stale;
        let? _ := persist v c in
        cu ← commitAll v c pruneOldImages;
        ok cu
      end
    end.
End commit.

Definition RemoveChallenge (id : ChallengeId) : M (error + unit) :=
  let? meta := lookupChallengeMetadata id in
  let? builds := sqlRead (fun d => length (buildsWhere (fun r => bool_decide (b_challenge r = id)) d)) in
  if decide (0 < builds)%nat then fail [ErrChallengeHasBuilds]
  else removeChallenges [meta].

#[global] Typeclasses Opaque registryManifestStatus askStatus registryTagPresent missingTags requireInRegistry dumpBuilds
  dumpChallenge dumpAll dumpState dropOpened commitHandedOverBuild commitBuilds persist commitAll currentChallenge
  HandOverChallenge RemoveChallenge.

(** ** Which manifest is asked for *)

(** The characters of a request that nothing needs to escape, without '.': a
    path made of them has no '..', no query and no fragment. *)
Definition plainChar (c : ascii) : bool := wordChar c || bool_decide (c = "-"%char) || bool_decide (c = "/"%char).

Lemma lower_plain c : lowerAlnum c = true -> plainChar c = true.
Proof. unfold plainChar, wordChar. by intros ->. Qed.
Lemma word_plain c : wordChar c = true -> plainChar c = true.
Proof. unfold plainChar. by intros ->. Qed.
Lemma plain_notColon c : plainChar c = true -> notChar ":" c = true.
Proof. unfold notChar. case_bool_decide; [by subst|done]. Qed.
#[local] Hint Resolve lower_plain word_plain plain_notColon : cork.

Lemma challengeId_plain id : validChallengeId id = true -> all_chars plainChar id = true.
Proof.
  intros H%re_match_lang. apply (lang_letters plainChar) in H; [done|]. simpl.
  split_and!; auto with cork; intros c.
  1, 2: case_bool_decide; [by subst|done].
  intros [?|E]%orb_true_iff; [by auto with cork|]. case_bool_decide; [by subst|done].
Qed.
(** The characters of a tag: those, without the slash. *)
Definition tagChar (c : ascii) : bool := wordChar c || bool_decide (c = "-"%char).
Lemma tag_plain c : tagChar c = true -> plainChar c = true.
Proof. unfold plainChar, tagChar. by intros ->. Qed.
Lemma hostName_tag name : validHostName name = true -> all_chars tagChar name = true.
Proof. intros H%re_match_lang. apply (lang_letters tagChar) in H; [done|]. simpl. unfold tagChar.
  by split_and!; intros; apply orb_true_iff; left. Qed.
Lemma decimal_tag c : isDecimal c = true -> tagChar c = true.
Proof. destruct c as [[] [] [] [] [] [] [] []]; vm_compute; done. Qed.
Lemma pretty_tag (z : Z) : all_chars tagChar (pretty z) = true.
Proof.
  rewrite pretty_Z_sign. case_decide; rewrite ?all_chars_app; simpl;
    (eapply all_chars_impl; [exact decimal_tag|apply pretty_N_decimal]).
Qed.
Lemma hexDigit_tag d : 0 <= d < 16 -> tagChar (hexDigit d) = true.
Proof.
  intros H. assert (d ∈ seqZ 0 16) as Hd by (by apply elem_of_seqZ). revert Hd. generalize d. apply Forall_forall. by repeat constructor.
Qed.
Lemma hexDigits_tag fuel n acc : all_chars tagChar acc = true -> all_chars tagChar (hexDigits fuel n acc) = true.
Proof.
  revert n acc. induction fuel as [|fuel IH]; intros n acc H; simpl; [done|].
  assert (all_chars tagChar (String (hexDigit (n `mod` 16)) acc) = true).
  { simpl. rewrite H, hexDigit_tag; [done|]. apply Z.mod_pos_bound. lia. }
  case_decide; [done|by apply IH].
Qed.
Lemma dockerId_tag seed sum host : all_chars tagChar host = true -> all_chars tagChar (dockerId seed sum host) = true.
Proof.
  intros H. unfold dockerId, hex. rewrite !all_chars_app, pretty_tag, H, hexDigits_tag by done. done.
Qed.

Lemma Cut_first sep s t : all_chars (notChar sep) s = true -> Cut sep (s +:+ String sep t) = Some (s, t).
Proof.
  induction s as [|c s IH]; [intros _; change (Cut sep (String sep t) = Some (""%string, t)); simpl; by rewrite decide_True|].
  simpl. intros [Hc Hs]%andb_true_iff. change (Cut sep (String c (s +:+ String sep t)) = Some (String c s, t)). simpl.
  unfold notChar in Hc. rewrite decide_False; [by rewrite IH|]. intros ->. by rewrite bool_decide_eq_true_2 in Hc.
Qed.

(** ** What a payload that passes is *)
Section checked.
Context (template : string -> Z) (pin : Z).

Record checkedBuild (c : ChallengeMetadata) (b : BuildMetadata) : Prop := {
  cb_challenge : bm_challenge b = ""%string \/ bm_challenge b = cm_id c;
  cb_id : 0 < bm_id b;
  cb_schema : bm_schema b <> ""%string;
  cb_format : bm_format b <> ""%string;
  cb_flag : bm_flag b <> ""%string;
  cb_count : DYNAMIC_INSTANCES <= bm_instanceCount b;
  cb_source : bm_sourceChecksum b = cm_sourceChecksum c;
  cb_checksum : bm_checksum b = contentChecksum (cm_sourceChecksum c) (bm_format b) pin (template (cm_challengeType c));
  cb_images : forall host, host ∈ img_host <$> bm_images b <-> host ∈ hi_name <$> cm_hosts c;
  cb_single : NoDup (img_host <$> bm_images b) }.

Lemma checkImages_inr hosts imaged images imaged' :
  checkImages hosts imaged images = inr imaged' -> NoDup imaged ->
  imaged' ≡ₚ imaged ++ (img_host <$> images) /\ NoDup imaged' /\ Forall (fun image => img_host image ∈ hosts) images.
Proof.
  revert imaged. induction images as [|image images IH]; intros imaged H Hnd; simpl in H.
  { injection H as <-. rewrite app_nil_r. by split_and!. }
  case_decide as Hh; [done|]. case_decide as Hi; [done|]. apply IH in H as (Hp & Hn & Ha); [|by constructor].
  split_and!; [|done|constructor; [by destruct (decide (img_host image ∈ hosts))|done]].
  rewrite Hp, fmap_cons. simpl. by rewrite Permutation_middle.
Qed.
Lemma checkBuild_inr c seen b :
  checkBuild template c pin (hi_name <$> cm_hosts c) seen b = inr tt -> checkedBuild c b /\ handOverKey b ∉ seen.
Proof.
  unfold checkBuild. repeat (case_decide; [done|]). destruct (checkImages _ _ _) as [err|imaged] eqn:Ei; [done|].
  case_decide as Hall; [|done]. intros _. apply checkImages_inr in Ei as (Hp & Hn & Ha); [|constructor]. simpl in Hp.
  split; [|done]. rewrite Forall_forall in Ha. rewrite Forall_forall in Hall. split; try lia; try tauto.
  - destruct (decide (bm_challenge b = ""%string)); [by left|right]. destruct (decide (bm_challenge b = cm_id c)); tauto.
  - congruence.
  - intros host. rewrite <- Hp. split; [|by apply Hall]. rewrite Hp. intros (image & -> & Hin)%list_elem_of_fmap. by apply Ha.
  - by rewrite <- Hp.
Qed.
Lemma checkBuilds_inr c seen builds bs :
  checkBuilds template c pin (hi_name <$> cm_hosts c) seen builds = inr bs ->
  builds = Some <$> bs /\ Forall (checkedBuild c) bs /\ NoDup (handOverKey <$> bs) /\ Forall (fun b => handOverKey b ∉ seen) bs.
Proof.
  revert seen bs. induction builds as [|[b|] builds IH]; intros seen bs H; simpl in H; [|..|done].
  { injection H as <-. by split_and!; constructor. }
  destruct (checkBuild _ _ _ _ _ _) as [err|[]] eqn:Eb; [done|]. destruct (checkBuilds _ _ _ _ _ _) as [err|rest] eqn:Er; [done|].
  injection H as <-. apply checkBuild_inr in Eb as [Hb Hs]. apply IH in Er as (-> & Hrest & Hnd & Hout).
  rewrite Forall_forall in Hout. split_and!; [done|by constructor| |].
  - rewrite fmap_cons. constructor; [|done]. intros (b' & E & Hin)%list_elem_of_fmap. specialize (Hout b' Hin). set_solver.
  - constructor; [done|]. apply Forall_forall. intros b' Hin. specialize (Hout b' Hin). set_solver.
Qed.
End checked.

Record checked (template : string -> Z) (pin : Z) (id : ChallengeId) (c : ChallengeMetadata) : Prop := {
  ck_id : cm_id c = id;
  ck_valid : validChallengeId id = true;
  ck_type : cm_challengeType c <> ""%string;
  ck_named : cm_hosts c <> [];
  ck_hosts : Forall (fun h => validHostName (hi_name h) = true) (cm_hosts c);
  ck_ports : forall name port, cm_portMap c !! name = Some port -> pi_host port ∈ hi_name <$> cm_hosts c;
  ck_builds : Forall (checkedBuild template pin c) (cm_builds c);
  ck_keys : NoDup (handOverKey <$> cm_builds c) }.
Lemma checkImages_accepts hosts imaged images :
  Forall (fun image => img_host image ∈ hosts) images -> NoDup (img_host <$> images) ->
  Forall (fun image => img_host image ∉ imaged) images ->
  exists imaged', checkImages hosts imaged images = inr imaged' /\ forall host, host ∈ img_host <$> images -> host ∈ imaged'.
Proof.
  intros Ha. revert imaged. induction Ha as [|image images Hin _ IH]; intros imaged Hnd Hout; simpl; [by exists imaged; split; [|set_solver]|].
  rewrite fmap_cons in Hnd. apply NoDup_cons in Hnd as [Hi Hnd]. apply Forall_cons in Hout as [Ho Hout].
  rewrite decide_False by auto. rewrite decide_False by done.
  assert (forall x imaged', checkImages hosts x images = inr imaged' -> forall host, host ∈ x -> host ∈ imaged') as Hgrow.
  { clear. induction images as [|i images IH]; intros x imaged' H host Hx; simpl in H; [by injection H as <-|].
    case_decide; [done|]. case_decide; [done|]. eapply IH; [exact H|by right]. }
  destruct (IH (img_host image :: imaged)) as (imaged' & E & H); [done| |].
  { apply Forall_forall. intros i Hii. rewrite Forall_forall in Hout. apply not_elem_of_cons. split; [|by apply Hout].
    intros Eh. apply Hi. rewrite <- Eh. by apply list_elem_of_fmap_2. }
  exists imaged'. split; [done|]. intros host [->|?]%elem_of_cons; [|auto].
  eapply Hgrow; [exact E|left].
Qed.
Lemma checkBuild_accepts template pin c seen b :
  checkedBuild template pin c b -> handOverKey b ∉ seen -> cm_hosts c <> [] ->
  checkBuild template c pin (hi_name <$> cm_hosts c) seen b = inr tt.
Proof.
  intros [Hch Hid Hsch Hfmt Hfl Hcnt Hsrc Hsum Himg Hone] Hs Hh. unfold checkBuild.
  rewrite decide_False by tauto. rewrite decide_False by lia. rewrite decide_False by tauto. rewrite decide_False by done.
  rewrite decide_False by done. rewrite decide_False by lia. rewrite decide_False by tauto.
  rewrite decide_False by (rewrite Hsrc, Hsum; tauto). rewrite decide_False.
  2: { intros E. rewrite E in Himg. destruct (cm_hosts c) as [|h l]; [done|]. by apply (elem_of_nil (hi_name h)), Himg; left. }
  destruct (checkImages_accepts (hi_name <$> cm_hosts c) [] (bm_images b)) as (imaged & -> & Hall); [|done| |].
  - apply Forall_forall. intros image Hi. by apply Himg, list_elem_of_fmap_2.
  - apply Forall_true. intros. apply not_elem_of_nil.
  - rewrite decide_True; [done|]. apply Forall_forall. intros host Hin. by apply Hall, Himg.
Qed.
Lemma checkBuilds_accepts template pin c seen bs :
  cm_hosts c <> [] -> Forall (checkedBuild template pin c) bs -> NoDup (handOverKey <$> bs) -> Forall (fun b => handOverKey b ∉ seen) bs ->
  checkBuilds template c pin (hi_name <$> cm_hosts c) seen (Some <$> bs) = inr bs.
Proof.
  intros Hh Hbs. revert seen. induction Hbs as [|b bs Hb _ IH]; intros seen Hnd Hout; [done|].
  rewrite fmap_cons in Hnd. apply NoDup_cons in Hnd as [Hi Hnd]. apply Forall_cons in Hout as [Ho Hout]. rewrite fmap_cons. simpl.
  rewrite checkBuild_accepts by done. rewrite IH; [done|done|]. apply Forall_forall. intros b2 Hb2. rewrite Forall_forall in Hout.
  apply not_elem_of_cons. split; [|by apply Hout]. intros E. apply Hi. rewrite <- E. by apply list_elem_of_fmap_2.
Qed.

Lemma checkHandOver_iff template id h c :
  checkHandOver template id (Some h) = inr c <->
  exists c0 builds, ho_challenge h = Some (c0, Some <$> builds) /\ c = c0 <| cm_builds := builds |> /\
    checked template (ho_pinFingerprint h) id c.
Proof.
  unfold checkHandOver. split.
  - destruct (ho_challenge h) as [[c0 builds]|]; [|done].
    case_decide as Hid; [done|]. destruct (validChallengeId id) eqn:Hv; [|done]. simpl. case_decide as Ht; [done|]. case_decide as Hh; [done|].
    destruct (forallb _ _) eqn:Hn; [|done]. simpl. case_decide as Hp; [done|].
    destruct (checkBuilds _ _ _ _ _ _) as [err|bs] eqn:Eb; [done|]. intros [= <-].
    apply checkBuilds_inr in Eb as (-> & Hbs & Hnd & _). exists c0, bs. split; [done|]. split; [done|]. split; simpl; try done.
    + apply Forall_forall. intros x Hx. rewrite forallb_forall in Hn. by apply Hn, list_elem_of_In, list_elem_of_fmap_2.
    + intros name port Hl. destruct (decide (pi_host port ∈ hi_name <$> cm_hosts c0)) as [|Hni]; [done|]. destruct Hp. apply Exists_exists.
      exists (name, port). split; [by apply elem_of_map_to_list|done].
    + eapply Forall_impl; [exact Hbs|]. intros b []. by split.
  - intros (c0 & bs & -> & -> & [Hid Hv Ht Hn Hh Hp Hb Hk]). simpl in *.
    rewrite decide_False by auto. rewrite Hv. simpl. rewrite decide_False by done. rewrite decide_False by done.
    assert (forallb validHostName (hi_name <$> cm_hosts c0) = true) as ->.
    { apply forallb_forall. intros x Hx%list_elem_of_In%list_elem_of_fmap. destruct Hx as (y & -> & Hy). rewrite Forall_forall in Hh. by apply Hh. }
    simpl. rewrite decide_False.
    2: { intros ([name port] & Hin%elem_of_map_to_list & Hni)%Exists_exists. by eapply Hni, Hp. }
    rewrite checkBuilds_accepts; [done|done| |done|apply Forall_true; intros; apply not_elem_of_nil].
    eapply Forall_impl; [exact Hb|]. intros b []. by split.
Qed.
Lemma checkHandOver_inr template id h c :
  checkHandOver template id h = inr c -> exists pin, checked template pin id c.
Proof. destruct h as [h|]; [|done]. intros (c0 & bs & _ & _ & H)%checkHandOver_iff. by exists (ho_pinFingerprint h). Qed.

(** What passes the check is exactly a well-formed hand-over: it is accepted
    if and only if it is addressed to the challenge it describes, under an id the
    loader could have made; it has a type, hosts with stage names and ports on
    those hosts only; and every build is there, of this challenge, with an id, a
    schema, a format, a flag, a count a schema can give, the challenge's source
    generation, the content checksum its inputs give, exactly one image for each
    host and none for another, no two of them for one schema, format and seed. *)
Theorem checkHandOver_decides template id h c :
  checkHandOver template id (Some h) = inr c <->
  exists c0 builds, ho_challenge h = Some (c0, Some <$> builds) /\ c = c0 <| cm_builds := builds |> /\
    checked template (ho_pinFingerprint h) id c.
Proof. apply checkHandOver_iff. Qed.

(** The registry is asked for exactly what will be pulled.  For every image
    of every build of a payload that passes the check, the request names the
    registry's own host, the challenge's repository under the registry's prefix
    and the tag the build's identity gives, and neither the challenge's id nor
    the tag has a character that could divide the request otherwise: no ':', no
    '.', no '?', no '#', no '%'. *)
Theorem registry_request_exact template id h c registry b image :
  checkHandOver template id h = inr c -> registry <> ""%string -> b ∈ cm_builds c -> image ∈ bm_images b ->
  let '(host, prefix) := registryEndpoint registry in
  let tag := dockerId (bm_seed b) (bm_checksum b) (img_host image) in
  registryManifestRequest registry (instanceImageName registry id b image) =
    Some (host, "/v2/" +:+ (if decide (prefix <> "") then prefix +:+ "/" +:+ id else id) +:+ "/manifests/" +:+ tag)%string /\
  all_chars plainChar (id +:+ "/manifests/" +:+ tag)%string = true.
Proof.
  intros H Hreg Hb Hi. apply checkHandOver_inr in H as [pin Hc]. destruct (registryEndpoint registry) as [host prefix] eqn:Ee.
  set (tag := dockerId (bm_seed b) (bm_checksum b) (img_host image)).
  pose proof (challengeId_plain id (ck_valid _ _ _ _ Hc)) as Hid.
  assert (all_chars plainChar tag = true) as Htag.
  { eapply all_chars_impl; [exact tag_plain|]. apply dockerId_tag, hostName_tag. pose proof (ck_builds _ _ _ _ Hc) as Hbs. rewrite Forall_forall in Hbs.
    pose proof (proj1 (cb_images _ _ _ _ (Hbs b Hb) (img_host image)) (list_elem_of_fmap_2 _ _ _ Hi)) as (x & -> & Hx)%list_elem_of_fmap.
    pose proof (ck_hosts _ _ _ _ Hc) as Hh. rewrite Forall_forall in Hh. by apply Hh. }
  split; [|rewrite !all_chars_app, Hid, Htag; done].
  unfold registryManifestRequest, instanceImageName, imageRepository. rewrite decide_False by done. fold tag.
  rewrite <- !append_assoc, (append_assoc registry "/"%string).
  rewrite (proj2 (CutPrefix_spec _ _ (id +:+ ":" +:+ tag)%string)) by done.
  change (":" +:+ tag)%string with (String ":" tag). rewrite (Cut_first ":" id tag) by (eapply all_chars_impl; [exact plain_notColon|done]). by rewrite Ee.
Qed.

(** ** A refusal has written nothing *)

(** What a hand-over writes: the catalogue, not the instances or the fleet. *)
Definition catalogue (d : Db) :=
  (t_challenges d, t_parts d, t_builds d, t_images d, t_imagePorts d, t_lookupData d, t_preloads d).
Lemma register_catalogue w m : catalogue (m_db (register w m)) = catalogue (m_db m).
Proof. unfold register. by repeat case_match. Qed.
Lemma run_op_catalogue op m : catalogue (m_db (run_op op m)) = catalogue (m_db m).
Proof.
  destruct op; simpl; try done.
  - destruct (AddWorker_register now execErr getErr dialErr ip public m) as [(err & [E|E])|[_ E]]; rewrite E; [done..|].
    simpl. by rewrite register_catalogue.
  - unfold RemoveWorker. by repeat case_match.
  - unfold SetWorkerDown. by case_match.
  - destruct (recoverWorker_register now dialErr c m) as [E|(w & _ & _ & _ & E)]; rewrite E; [done|].
    by rewrite register_catalogue.
  - unfold noteWorkerTransportError. by repeat case_match.
  - destruct (selectWorker m) as [[m' r]|] eqn:E; [|done]. by apply select_frame in E as [k ->].
Qed.
#[export] Instance stable_catalogue K : Stable (fun m => catalogue (m_db m) = K).
Proof. intros op m <-. apply run_op_catalogue. Qed.

(** Code that only asks and reads keeps whatever a call and a read keep. *)
Class Onlooking (I : World -> Prop) : Prop := {
  onlooking_docker cli c : Keeps I (docker cli c);
  onlooking_read {A} (f : Db -> A) : Keeps I (sqlRead f) }.
#[local] Existing Instance onlooking_docker.
#[local] Existing Instance onlooking_read.
#[export] Instance onlooking_stable J : Stable J -> Onlooking (onM J).
Proof. intros HJ. split; intros; [by apply keeps_docker|apply _]. Qed.
#[export] Instance onlooking_aloof I : Aloof I -> Onlooking I.
Proof. intros HI. split; intros; apply _. Qed.

Section reading.
Context (I : World -> Prop) {HI : Onlooking I}.
Local Abbreviation Ok := I.
#[export] Instance reading_status name : Keeps Ok (registryManifestStatus name).
Proof. unfold registryManifestStatus. keep. Qed.
#[export] Instance reading_askStatus k name : Keeps Ok (askStatus k name).
Proof. induction k; simpl; keep. Qed.
#[export] Instance reading_present name : Keeps Ok (registryTagPresent name).
Proof. unfold registryTagPresent. keep. Qed.
#[export] Instance reading_missing names : Keeps Ok (missingTags names).
Proof. induction names; simpl; keep. Qed.
#[export] Instance reading_require c : Keeps Ok (requireInRegistry c).
Proof. unfold requireInRegistry. keep. Qed.
#[export] Instance reading_current id : Keeps Ok (currentChallenge id).
Proof. unfold currentChallenge, lookupChallengeMetadata. keep. Qed.
#[export] Instance reading_stale id : Keeps Ok (challengeHasStaleBuild id).
Proof. unfold challengeHasStaleBuild. keep. Qed.
#[export] Instance reading_classify old c s : Keeps Ok (classifyChallenge old c s).
Proof. unfold classifyChallenge, safeToRefresh, lookupChallengeMetadata. keep. Qed.
#[export] Instance reading_dumpBuilds ids : Keeps Ok (dumpBuilds ids).
Proof. induction ids; simpl; unfold lookupBuildMetadata, lookupBuildInstances; keep. Qed.
#[export] Instance reading_dump id : Keeps Ok (dumpChallenge id).
Proof. unfold dumpChallenge, lookupChallengeMetadata. keep. Qed.
End reading.

(** A transaction handled by hand: still open, with what its rows keep, or
    rolled back. *)
Section by_hand.
Context (P : Db -> Prop) (before : Db).
Definition txState (alive : bool) (w : World) : Prop := if alive then P (m_db (W_m w)) else m_db (W_m w) = before.
Definition rowKeeps (f : Db -> option Db) : Prop := forall d d', P d -> f d = Some d' -> P d'.

Lemma txExec_state alive f w r w' :
  rowKeeps f -> txState alive w -> txExec alive f w = (r, w') ->
  match r with inr _ => alive = true /\ txState true w' | inl _ => txState alive w' end.
Proof.
  intros Hf Hs H. unfold txExec in H. destruct alive; [|by apply ret_inv in H as [-> ->]].
  revert H. run. destruct (o_db _ _); [intros; by simplify_eq/=|]. simpl. unfold stmt. destruct (f (m_db (W_m w))) as [d|] eqn:E; intros; simplify_eq/=; [|done].
  split; [done|]. by eapply Hf.
Qed.
Lemma insertGroup_state rows alive w r w' :
  Forall rowKeeps rows -> txState alive w -> insertGroup before alive rows w = (r, w') ->
  match r with inr alive' => txState alive' w' /\ (alive' = true -> alive = true) | inl _ => m_db (W_m w') = before end.
Proof.
  intros Hr. revert w. induction Hr as [|f rows Hf _ IH]; intros w Hs H; simpl in H; [apply ret_inv in H as [-> ->]; auto|].
  step H x w1 E. apply (txExec_state _ _ _ _ _ Hf Hs) in E. destruct x as [err|u].
  - destruct alive; [|apply ret_inv in H as [-> ->]; done]. step H u w2 E2. apply ret_inv in H as [-> ->].
    unfold setDb, modifyM in E2. by simplify_eq/=.
  - destruct E as [-> E]. by apply (IH _ E).
Qed.
Lemma insertGroups_state groups alive w r w' :
  Forall (Forall rowKeeps) groups -> txState alive w -> insertGroups before alive groups w = (r, w') ->
  match r with inr alive' => txState alive' w' /\ (alive' = true -> alive = true) | inl _ => m_db (W_m w') = before end.
Proof.
  intros Hg. revert alive w. induction Hg as [|rows groups Hr _ IH]; intros alive w Hs H; simpl in H;
    [apply ret_inv in H as [-> ->]; auto|].
  unfold try in H. step H x w1 E. apply (insertGroup_state _ _ _ _ _ Hr Hs) in E. destruct x as [err|alive1].
  - by apply ret_inv in H as [-> ->].
  - destruct E as [E Ha]. apply (IH _ _ E) in H. destruct r; [done|]. naive_solver.
Qed.
Lemma insertAllOptions_state rows alive w r w' :
  Forall rowKeeps rows -> txState alive w -> insertAllOptions before alive rows w = (r, w') ->
  match r with None => txState alive w' | Some (errs, _) => m_db (W_m w') = before /\ errs <> [] end.
Proof.
  intros Hr. revert w. induction Hr as [|f rows Hf _ IH]; intros w Hs H; simpl in H; [by apply ret_inv in H as [-> ->]|].
  step H x w1 E. apply (txExec_state _ _ _ _ _ Hf Hs) in E. destruct x as [err|u].
  - destruct alive; [|by apply ret_inv in H as [-> ->]]. step H u w2 E2. apply ret_inv in H as [-> ->].
    unfold setDb, modifyM in E2. by simplify_eq/=.
  - destruct E as [-> E]. by apply (IH _ E).
Qed.
End by_hand.

(** The row of a challenge among the others, and the builds. *)
Definition rowIn (c : ChallengeMetadata) (d0 d : Db) : Prop :=
  t_challenges d = <[cm_id c := challengeRowOf c]> (t_challenges d0) /\ t_builds d = t_builds d0.
Lemma challengeRows_keep c d0 rows : rows ∈ challengeRows c -> Forall (rowKeeps (rowIn c d0)) rows.
Proof.
  intros H. unfold challengeRows, hintRows, tagRows, attributeRows, hostRows, portRows, optionRows in H.
  assert (forall id allowed f, rowKeeps (rowIn c d0) (insertPart id allowed f)) as Hk.
  { intros id allowed f d d' Hd. unfold insertPart. case_decide; [|done]. destruct (allowed _); [|done]. by intros [= <-]. }
  repeat (apply elem_of_cons in H as [->|H]; [apply Forall_fmap, Forall_true; intros x; apply Hk|]). by apply elem_of_nil in H.
Qed.

(** Adding a challenge writes it whole or not at all, and an error means not at
    all. *)
Lemma addChallenge_atomic c w errs stop w' :
  addChallenge c w = ((errs, stop), w') ->
  m_db (W_m w') = m_db (W_m w) \/ errs = [] /\ t_challenges (m_db (W_m w)) !! cm_id c = None /\ rowIn c (m_db (W_m w)) (m_db (W_m w')).
Proof.
  intros H. unfold addChallenge in H. set (before := m_db (W_m w)) in *.
  change (getDb w) with (before, w) in H. unfold mbind at 1, M_bind at 1 in H. unfold getDb in H. fold before in H.
  step H r w1 E1. destruct r as [err|u].
  { step H u w2 E2. apply ret_inv in H as [H ->]. unfold setDb, modifyM in E2. simplify_eq/=. by left. }
  apply sql_inr in E1 as (E1 & _ & _). unfold stmt in E1. destruct (insertChallenge c _) as [d1|] eqn:Ei; [|done]. injection E1 as E1.
  fold before in Ei. assert (t_challenges before !! cm_id c = None /\ rowIn c before d1) as [Hnew Hrow].
  { unfold insertChallenge in Ei. case_decide; [|done]. destruct (rowAllowed c); [|done]. by injection Ei as <-. }
  rewrite E1 in Hrow.
  assert (Forall (Forall (rowKeeps (rowIn c before))) [hintRows c; tagRows c; attributeRows c; hostRows c; portRows c]) as Hg.
  { repeat (apply Forall_cons; split; [apply (challengeRows_keep c); unfold challengeRows; set_solver|]). constructor. }
  assert (Forall (rowKeeps (rowIn c before)) (optionRows c)) as Ho by (apply (challengeRows_keep c); unfold challengeRows; set_solver).
  step H r w2 E2. apply (insertGroups_state (rowIn c before) before _ true w1 _ _ Hg Hrow) in E2. destruct r as [err|alive].
  { apply ret_inv in H as [H ->]. by left. }
  destruct E2 as [E2 _]. step H o w3 E3. apply (insertAllOptions_state (rowIn c before) before _ alive w2 _ _ Ho E2) in E3. destruct o as [[errs' stop']|].
  { apply ret_inv in H as [H ->]. left. by destruct E3. }
  destruct alive; [|apply ret_inv in H as [H ->]; by left]. step H e w4 E4. unfold ask in E4. injection E4 as <- <-.
  destruct (o_db _ _).
  - step H u2 w5 E5. apply ret_inv in H as [H ->]. unfold setDb, modifyM in E5. simplify_eq/=. by left.
  - apply ret_inv in H as [H ->]. injection H as -> _. right. by split_and!.
Qed.

(** ** What the registry has answered *)

(** The registry said that it serves a manifest under the tag. *)
Definition served (name : string) (e : event) : Prop :=
  ev_call e = RegistryHead name /\ (ev_err e = None \/ ev_err e = Some [HttpStatus 200]).

Lemma docker_trace cli c w r w' :
  docker cli c w = (r, w') -> exists err, W_trace w' = W_trace w ++ [mkEvent cli c err] /\
    match r with inl e => err = Some e | inr _ => err = None end.
Proof. unfold docker. run. destruct (o_docker _ _ _); intros; simplify_eq/=; eauto. Qed.
Lemma status_trace name w r w' :
  registryManifestStatus name w = (r, w') -> exists tr, W_trace w' = W_trace w ++ tr /\ (r = inr 200 -> Exists (served name) tr).
Proof.
  intros H. unfold registryManifestStatus in H. step H m w0 E0. apply getM_inv in E0 as [-> ->].
  destruct (registryManifestRequest _ _); [|apply ret_inv in H as [-> ->]; exists []; rewrite app_nil_r; by split].
  step H x w1 E1. apply docker_trace in E1 as (err & Ht & Hx). exists [mkEvent None (RegistryHead name) err].
  assert (w' = w1 /\ (r = inr 200 -> err = None \/ err = Some [HttpStatus 200])) as [-> Hr].
  { destruct x as [e|[]]; [|apply ret_inv in H as [_ ->]; auto]. subst err.
    destruct e as [|[] [|? ?]]; apply ret_inv in H as [-> ->]; (split; [done|]); intros; simplify_eq; auto. }
  split; [done|]. intros ->. apply Exists_cons_hd. split; [done|]. by apply Hr.
Qed.
Lemma askStatus_trace k name w r w' :
  askStatus k name w = (r, w') -> exists tr, W_trace w' = W_trace w ++ tr /\ (r = inr 200 -> Exists (served name) tr).
Proof.
  revert w. induction k as [|k IH]; intros w H; simpl in H; step H x w1 E1; pose proof (status_trace _ _ _ _ E1) as (tr & Ht & Hs).
  - destruct x; apply ret_inv in H as [-> ->]; exists tr; by split.
  - destruct x; [|apply ret_inv in H as [-> ->]; eauto]. apply IH in H as (tr' & Ht' & Hs'). exists (tr ++ tr').
    rewrite Ht', Ht, app_assoc. split; [done|]. intros E. apply Exists_app. by auto.
Qed.
Lemma present_trace name w r w' :
  registryTagPresent name w = (r, w') -> exists tr, W_trace w' = W_trace w ++ tr /\ (r = inr true -> Exists (served name) tr).
Proof.
  intros H. unfold registryTagPresent, try in H. step H x w1 E1. apply askStatus_trace in E1 as (tr & Ht & Hs). exists tr.
  destruct x as [e|code]; [apply ret_inv in H as [-> ->]; by split|]. case_decide as Hc.
  - apply ret_inv in H as [-> ->]. subst. auto.
  - case_decide; apply ret_inv in H as [-> ->]; by split.
Qed.
Lemma missing_trace names w r w' :
  missingTags names w = (r, w') ->
  exists tr, W_trace w' = W_trace w ++ tr /\ (r = inr [] -> Forall (fun name => Exists (served name) tr) names).
Proof.
  revert w r w'. induction names as [|name names IH]; intros w r w' H; simpl in H.
  { apply ret_inv in H as [-> ->]. exists []. rewrite app_nil_r. by split. }
  unfold try in H. step H x w1 E1. apply present_trace in E1 as (tr & Ht & Hs).
  destruct x as [e|present]; [apply ret_inv in H as [-> ->]; exists tr; by split|].
  step H y w2 E2. apply IH in E2 as (tr' & Ht' & Hs'). exists (tr ++ tr').
  assert (W_trace w2 = W_trace w ++ tr ++ tr') as Htt by (by rewrite Ht', Ht, app_assoc).
  destruct y as [e|missing]; apply ret_inv in H as [-> ->]; (split; [done|]); [done|]. destruct present; [|done]. intros [= ->].
  constructor; [apply Exists_app; auto|]. eapply Forall_impl; [by apply Hs'|]. intros n Hn. apply Exists_app. by right.
Qed.

Section writing.
Context (decode : string -> option seccompProfile) (pins : Z) (template : string -> Z) (limits : artifactLimits) (bp purge : bool).

Lemma rewrites_spec c w errs w' :
  updateChallenges pins template limits bp purge [c] None false w = (errs, w') ->
  t_builds (m_db (W_m w')) = t_builds (m_db (W_m w)) /\
  (errs <> [] -> W_m w' = W_m w) /\
  (errs = [] -> match t_challenges (m_db (W_m w)) !! cm_id c with
     | Some _ => exists row, t_challenges (m_db (W_m w')) !! cm_id c = Some row /\ ch_sourcechecksum row = cm_sourceChecksum c
     | None => t_challenges (m_db (W_m w')) = t_challenges (m_db (W_m w))
     end).
Proof.
  intros H. simpl in H. step H r w1 E1. apply rewriteChallenge_spec in E1. step H e w2 E2.
  assert (w2 = w1 /\ e = match r with inl err => [err] | inr _ => [] end) as [-> ->] by (by destruct r; apply ret_inv in E2 as [-> ->]).
  step H more w3 E3. apply ret_inv in E3 as [-> ->]. apply ret_inv in H as [-> ->]. rewrite app_nil_r. destruct r as [err|u].
  { rewrite E1. by split_and!. }
  destruct E1 as (d1 & d' & Hm & Hu & Hp). rewrite Hm. simpl. rewrite (only_parts_challenges _ _ _ _ Hp), (only_parts_builds _ _ _ _ Hp).
  destruct (t_challenges (m_db (W_m w)) !! cm_id c) as [row|] eqn:Er.
  - rewrite (updateChallenge_row _ _ _ _ Er Hu). simpl. split_and!; [done|done|]. intros _. rewrite lookup_insert_eq. by eexists.
  - unfold updateChallenge in Hu. rewrite Er in Hu. injection Hu as <-. by split_and!.
Qed.
(** What is written of the challenge before its builds. *)
Lemma persist_spec v c w r w' :
  persist pins template limits bp purge v c w = (r, w') ->
  t_builds (m_db (W_m w')) = t_builds (m_db (W_m w)) /\
  match r with
  | inl _ => catalogue (m_db (W_m w')) = catalogue (m_db (W_m w))
  | inr _ =>
    (exists row, t_challenges (m_db (W_m w')) !! cm_id c = Some row /\ ch_sourcechecksum row = cm_sourceChecksum c) \/
    t_challenges (m_db (W_m w')) = t_challenges (m_db (W_m w)) /\
      (v = verdictUpdated \/ v = verdictRefreshed -> t_challenges (m_db (W_m w)) !! cm_id c = None)
  end.
Proof.
  intros H. unfold persist in H. step H errs w1 E.
  assert ((if decide (errs = []) then ok tt else fail (mjoin errs)) w1 = (r, w') -> w' = w1 /\ (errs = [] <-> exists u, r = inr u)) as Hend.
  { case_decide; intros [-> ->]%ret_inv; (split; [done|]); [split; eauto|split; [done|by intros [? ?]]]. }
  apply Hend in H as [-> Hr]. clear Hend. destruct v.
  2, 3: apply rewrites_spec in E as (Hb & Hfail & Hok); (split; [done|]); destruct r as [err|u];
    [rewrite Hfail; [done|]; intros ->; by destruct (proj1 Hr eq_refl)|]; specialize (Hok (proj2 Hr (ex_intro _ u eq_refl)));
    destruct (t_challenges (m_db (W_m w)) !! cm_id c); auto.
  - simpl in E. step E x w2 E1. destruct x as [errs1 stop]. assert (w1 = w2 /\ errs = errs1) as [-> ->].
    { destruct stop; [by apply ret_inv in E as [-> ->]|]. step E more w3 E2. apply ret_inv in E2 as [-> ->].
      apply ret_inv in E as [-> ->]. by rewrite app_nil_r. }
    apply addChallenge_atomic in E1 as [Em|(-> & Hnew & Hc & Hb)].
    + rewrite Em. split; [done|]. destruct r; [done|]. right. split; [done|]. by intros [?|?].
    + split; [done|]. destruct r as [err|u]; [by destruct (proj1 Hr eq_refl)|]. left. rewrite Hc, lookup_insert_eq. by eexists.
  - apply ret_inv in E as [-> ->]. split; [done|]. destruct r; [done|]. right. split; [done|]. by intros [?|?].
  - apply ret_inv in E as [-> ->]. split; [done|]. destruct r; [done|]. right. split; [done|]. by intros [?|?].
Qed.

(** ** The phases *)
Lemma applySeccompProfiles_options c profiles c' :
  applySeccompProfiles decode c profiles = inr c' -> exists o, c' = c <| cm_options := o |>.
Proof.
  unfold applySeccompProfiles. destruct (applyOptional _ _ _) as [e|s]; [done|]. destruct (applyOverrides _ _ _) as [e|l]; [done|].
  intros [= <-]. eauto.
Qed.

(** A statement that fails is not taken for a challenge that does not exist. *)
Definition plain_errors (o : Oracle) : Prop := forall n err, o_db o n = Some err -> isUnknownIdentifier err = false.

Lemma currentChallenge_inv id w cur w' :
  plain_errors (W_o w) -> currentChallenge id w = (inr cur, w') ->
  W_m w' = W_m w /\
  match cur with
  | None => t_challenges (m_db (W_m w)) !! id = None
  | Some old => cm_id old = id /\ exists row, t_challenges (m_db (W_m w)) !! id = Some row /\ cm_sourceChecksum old = ch_sourcechecksum row
  end.
Proof.
  intros Hp H. unfold currentChallenge in H. step H r w1 E. apply ret_inv in H as [H ->].
  unfold lookupChallengeMetadata, sqlRead in E. revert E. run. destruct (o_db (W_o w) (W_tick w)) as [err|] eqn:Ed.
  { intros E. simplify_eq/=. apply Hp in Ed. rewrite Ed in H. done. }
  simpl. destruct (t_challenges (m_db (W_m w)) !! id) as [row|] eqn:Er; intros E; simplify_eq/=; (split; [apply same_db|]); [|done].
  split; [done|]. by exists row.
Qed.
Lemma classify_source old c s w v w' :
  classifyChallenge (Some old) c s w = (v, w') -> v = verdictStale \/ v = verdictUnmodified -> cm_sourceChecksum old = cm_sourceChecksum c.
Proof.
  unfold classifyChallenge. case_decide as Hs; [intros [-> _]%ret_inv [?|?]; done|]. intros _ _. lia.
Qed.

#[local] Instance aloof_oracle o : Aloof (fun w => W_o w = o).
Proof. by split; [intros w w' ->|]. Qed.

(** From the request to the builds: refused with nothing written, or verified,
    with the challenge on record and the builds as they were. *)
Lemma HandOverChallenge_phases id h prune w r w' :
  HandOverChallenge decode pins template limits bp purge id h prune w = (r, w') ->
  match r with
  | inl _ => catalogue (m_db (W_m w')) = catalogue (m_db (W_m w))
  | inr cu => exists c0 c w1 w2 v,
      checkHandOver template id h = inr c0 /\ applySeccompProfiles decode c0 (from_option ho_seccompProfiles ∅ h) = inr c /\
      requireInRegistry c w = (inr tt, w1) /\ t_builds (m_db (W_m w2)) = t_builds (m_db (W_m w)) /\
      (plain_errors (W_o w) -> forall row, t_challenges (m_db (W_m w2)) !! id = Some row -> ch_sourcechecksum row = cm_sourceChecksum c) /\
      commitAll pins template bp purge v c prune w2 = (cu, w')
  end.
Proof.
  set (K := catalogue (m_db (W_m w))). assert (onM (fun m => catalogue (m_db m) = K) w) as HK by done.
  assert (forall w', onM (fun m => catalogue (m_db m) = K) w' ->
    t_challenges (m_db (W_m w')) = t_challenges (m_db (W_m w)) /\ t_builds (m_db (W_m w')) = t_builds (m_db (W_m w))) as Hof.
  { intros w0 H0. unfold onM, K, catalogue in H0. by simplify_eq. }
  intros H. unfold HandOverChallenge in H. step H m w0 E0. apply getM_inv in E0 as [-> ->].
  destruct (m_externalBuildPlane (W_m w)); simpl in H; [|by apply ret_inv in H as [-> ->]].
  destruct (checkHandOver template id h) as [err|c0] eqn:Ec; [by apply ret_inv in H as [-> ->]|].
  destruct (applySeccompProfiles _ _ _) as [err|c] eqn:Es; [by apply ret_inv in H as [-> ->]|].
  assert (cm_id c = id) as Hid.
  { apply applySeccompProfiles_options in Es as [o ->]. by apply checkHandOver_inr in Ec as [pin []]. }
  unfold try in H. step H u w1 E1. pose proof (keeps_holds _ _ _ _ _ E1 HK) as HK1.
  assert (W_o w1 = W_o w) as Ho1 by exact (keeps_holds (fun x => W_o x = W_o w) _ _ _ _ E1 eq_refl).
  destruct u as [err|[]]; [apply ret_inv in H as [-> ->]; exact HK1|].
  step H cur w2 E2. pose proof (keeps_holds _ _ _ _ _ E2 HK1) as HK2.
  destruct cur as [err|cur]; [apply ret_inv in H as [-> ->]; exact HK2|].
  step H st w3 E3. assert (onM (fun m => catalogue (m_db m) = K) w3) as HK3.
  { destruct cur; [exact (keeps_holds _ _ _ _ _ E3 HK2)|by apply ret_inv in E3 as [_ ->]]. }
  destruct st as [err|st]; [apply ret_inv in H as [-> ->]; exact HK3|].
  step H v w4 E4. pose proof (keeps_holds _ _ _ _ _ E4 HK3) as HK4. step H p w5 E5. apply persist_spec in E5 as [Hb5 E5].
  destruct (Hof _ HK1) as [Hc1 _]. destruct (Hof _ HK4) as [Hc4 Hb4].
  destruct p as [err|[]]; [apply ret_inv in H as [-> ->]; unfold onM in HK4; by rewrite E5, HK4|].
  step H cu w6 E6. apply ret_inv in H as [-> ->]. exists c0, c, w1, w5, v. split_and!; [done..| | |done].
  - by rewrite Hb5.
  - intros Hp row Hrow. rewrite <- Hid in Hrow. destruct E5 as [(row' & Hrow' & Hs)|[Hsame Habs]]; [congruence|].
    rewrite Hsame, Hc4 in Hrow. rewrite Hc4 in Habs. apply currentChallenge_inv in E2 as [_ Hcur]; [|by rewrite Ho1]. rewrite Hc1, <- Hid in Hcur.
    destruct cur as [old|]; [|congruence]. destruct Hcur as (Hold & row0 & Hrow0 & Hs0). rewrite Hrow in Hrow0. injection Hrow0 as <-.
    rewrite <- Hs0. destruct (classifyChallenge_spec _ _ _ _ _ _ Hold E4) as (_ & Hadd & _).
    destruct v; try (rewrite Habs in Hrow by auto; done); [done|..]; eapply classify_source; try exact E4; auto.
Qed.

(** C15. A hand-over that is refused has written nothing: when the request is
    answered with an error -- the build plane is local, the payload contradicts
    itself, a checksum or a profile is not what its inputs give, an image is not
    in the registry, the registry or the database does not answer, or the
    challenge could not be recorded -- the challenges, their rows, the builds,
    their images, ports and lookup data and the preloads are exactly what they
    were. *)
Theorem handOver_refused_whole id h prune w err w' :
  HandOverChallenge decode pins template limits bp purge id h prune w = (inl err, w') ->
  catalogue (m_db (W_m w')) = catalogue (m_db (W_m w)).
Proof. exact (HandOverChallenge_phases id h prune w (inl err) w'). Qed.

(** ** What is committed *)

(** The row of a build that was handed over, under the challenge [id]. *)
Record handedRow (id : ChallengeId) (b : BuildMetadata) (r : buildRow) : Prop := {
  hr_key : buildKey r = (bm_schema b, bm_format b, id, bm_seed b);
  hr_flag : b_flag r = bm_flag b;
  hr_checksum : b_checksum r = bm_checksum b;
  hr_source : b_sourcechecksum r = bm_sourceChecksum b;
  hr_artifacts : b_hasartifacts r = bm_hasArtifacts b;
  hr_count : b_instancecount r = bm_instanceCount b }.

Lemma rotatedRow_handed id b b' r :
  buildKey r = (bm_schema b, bm_format b, id, bm_seed b) -> b_instancecount r = bm_instanceCount b ->
  bm_flag b' = bm_flag b -> bm_checksum b' = bm_checksum b -> bm_sourceChecksum b' = bm_sourceChecksum b ->
  bm_hasArtifacts b' = bm_hasArtifacts b -> handedRow id b (rotatedRow b' r).
Proof. intros. unfold rotatedRow. destruct (generations r). by split. Qed.

Lemma unique_kept B B' :
  (forall id r, B' !! id = Some r -> exists r0, B !! id = Some r0 /\ buildKey r0 = buildKey r) -> unique_rows B -> unique_rows B'.
Proof. intros H Hu id1 id2 r1 r2 (x1 & H1 & E1)%H (x2 & H2 & E2)%H Hk. eapply Hu; [exact H1|exact H2|congruence]. Qed.

(** A build that is committed without an error: its row is the one delivered,
    under the id delivered, and no other row has changed. *)
Lemma commit_rows c b rev prune B F w cand w' :
  fixed B F w -> unique_rows B -> 0 < bm_id b -> bm_flag b <> ""%string ->
  commitHandedOverBuild pins template purge c b rev prune w = ((cand, []), w') ->
  exists row, fixed (<[bm_id b := row]> B) F w' /\ unique_rows (<[bm_id b := row]> B) /\ handedRow (cm_id c) b row /\
    forall old, B !! bm_id b = Some old -> buildKey old = (bm_schema b, bm_format b, cm_id c, bm_seed b).
Proof.
  intros HB Hu Hpos Hflag H. destruct HB as [HB HF]. unfold commitHandedOverBuild in H. step H r w1 E1.
  destruct r as [err|row]; [by apply ret_inv in H as [? _]|].
  apply openBuild_finds_or_makes in E1 as (Hu1 & Hf1 & r1 & Hb1 & Hk & Hc & Hfl & Hsum & _ & Hsrc & Hart & Hold); [|by unfold builds_unique; rewrite HB].
  simpl in Hk, Hc, Hold. rewrite HB in Hb1, Hold. case_decide as Hid; [by apply ret_inv in H as [? _]|].
  assert (bm_id row = bm_id b) as Eid by lia. rewrite Eid in *. clear Hid.
  assert (fixed (<[bm_id b := r1]> B) F w1) as HB1 by (split; [done|by rewrite Hf1]).
  assert (unique_rows (<[bm_id b := r1]> B)) as HU1 by (unfold builds_unique in Hu1; by rewrite Hb1 in Hu1).
  assert (forall old, B !! bm_id b = Some old -> buildKey old = (bm_schema b, bm_format b, cm_id c, bm_seed b)) as Hkey.
  { intros old Ho. rewrite Ho in Hold. rewrite <- Hk, Hold. done. }
  case_decide as Hheld.
  - destruct Hheld as (H1 & H2 & H3 & H4). exists r1. split; [|split; [done|split; [|done]]].
    2: { split; congruence. }
    destruct (negb (NeedsInstance c)).
    { step H errs w2 E2. apply ret_inv in H as [_ ->]. exact (keeps_holds _ _ _ _ _ E2 HB1). }
    case_decide; [by apply ret_inv in H as [_ ->]|]. step H errs w2 E2. apply ret_inv in H as [_ ->]. exact (keeps_holds _ _ _ _ _ E2 HB1).
  - step H x w2 E2. destruct x as [cand2 errs].
    assert (errs = [] /\ w' = w2) as [-> ->].
    { destruct (_ && _) eqn:Eo.
      - step H st w3 E3. apply andb_true_iff in Eo as [_ Hne%negb_true_iff%bool_decide_eq_false].
        destruct st as [e|st]; [apply ret_inv in H as [[= _ <-] _]; done|]. case_decide; [|apply ret_inv in H as [[= _ <-] _]; done].
        unfold dropOpened in H. case_bool_decide; [|by apply ret_inv in H as [? _]]. step H u w4 E4. by apply ret_inv in H as [? _].
      - apply ret_inv in H as [[= _ <-] ->]. done. }
    apply (reconcileBuild_rows _ _ _ _ _ _ _ _ _ _ _ HB1) in E2 as [(_ & _ & ?)|(r2 & Hr2 & HB2 & _)]; [done|].
    simpl in Hr2, HB2. rewrite lookup_insert_eq in Hr2. injection Hr2 as <-. rewrite insert_insert_eq in HB2.
    eexists. split; [exact HB2|]. split; [|split; [by apply rotatedRow_handed|done]].
    eapply unique_kept; [|exact HU1]. intros k x. destruct (decide (bm_id b = k)) as [<-|Hne];
      [rewrite !lookup_insert_eq|rewrite !lookup_insert_ne by done; eauto]. intros [= <-]. exists r1. split; [done|]. unfold rotatedRow. by destruct (generations r1).
Qed.

(** The builds in turn: what one is recorded as, the next ones leave. *)
Lemma commitBuilds_rows c rev prune bs B F w replaced w' :
  fixed B F w -> unique_rows B -> Forall (fun b => 0 < bm_id b /\ bm_flag b <> ""%string) bs -> NoDup (handOverKey <$> bs) ->
  commitBuilds pins template purge c rev prune bs w = ((replaced, []), w') ->
  exists B', fixed B' F w' /\ unique_rows B' /\
    (forall b, b ∈ bs -> exists row, B' !! bm_id b = Some row /\ handedRow (cm_id c) b row) /\
    (forall id, id ∉ bm_id <$> bs -> B' !! id = B !! id) /\
    (forall b old, b ∈ bs -> B !! bm_id b = Some old -> buildKey old = (bm_schema b, bm_format b, cm_id c, bm_seed b)).
Proof.
  intros HB Hu Hbs. revert B w replaced HB Hu. induction Hbs as [|b bs [Hid Hfl] Hbs IH]; intros B w replaced HB Hu Hnd H; simpl in H.
  { apply ret_inv in H as [_ ->]. exists B. split_and!; [done..|set_solver|done|set_solver]. }
  rewrite fmap_cons in Hnd. apply NoDup_cons in Hnd as [Hfresh Hnd].
  step H x w1 E1. destruct x as [cand errs]. step H y w2 E2. destruct y as [replaced2 more].
  apply ret_inv in H as [H ->]. injection H as _ [-> ->]%eq_sym%app_eq_nil.
  apply (commit_rows _ _ _ _ _ _ _ _ _ HB Hu Hid Hfl) in E1 as (row & HB1 & Hu1 & Hrow & Hkey).
  apply (IH _ _ _ HB1 Hu1 Hnd) in E2 as (B' & HB' & Hu' & Hall & Hother & Hkeys).
  assert (bm_id b ∉ bm_id <$> bs) as Hnew.
  { intros (b2 & E & Hin)%list_elem_of_fmap. specialize (Hkeys b2 row Hin). rewrite <- E, lookup_insert_eq in Hkeys. specialize (Hkeys eq_refl).
    rewrite (hr_key _ _ _ Hrow) in Hkeys. apply Hfresh. apply list_elem_of_fmap. exists b2. split; [|done].
    unfold handOverKey. by injection Hkeys as -> -> ->. }
  exists B'. split_and!; [done|done|..].
  - intros b2 [->|Hin]%elem_of_cons; [|by apply Hall]. exists row. by rewrite Hother, lookup_insert_eq.
  - intros id Hn. rewrite Hother by set_solver. rewrite lookup_insert_ne; [done|]. set_solver.
  - intros b2 old [->|Hin]%elem_of_cons Ho; [by apply Hkey|]. apply (Hkeys b2 old Hin). rewrite lookup_insert_ne; [done|].
    intros E. apply Hnew. rewrite E. by apply list_elem_of_fmap_2.
Qed.

Lemma require_trace c w w' :
  requireInRegistry c w = (inr tt, w') ->
  exists tr, W_trace w' = W_trace w ++ tr /\ forall b, b ∈ cm_builds c ->
    Forall (fun name => Exists (served name) tr) (pulledTags (m_challengeRegistry (W_m w)) (cm_id c) b).
Proof.
  intros H. unfold requireInRegistry, try in H. step H m w0 E0. apply getM_inv in E0 as [-> ->]. step H x w1 E1.
  apply missing_trace in E1 as (tr & Ht & Hs). destruct x as [e|missing]; [by apply ret_inv in H as [? _]|].
  case_decide as Hm; apply ret_inv in H as [? ->]; [|done]. subst missing. exists tr. split; [done|]. intros b Hb.
  specialize (Hs eq_refl). rewrite Forall_forall in Hs. apply Forall_forall. intros name Hn. apply Hs.
  apply list_elem_of_join. exists (pulledTags (m_challengeRegistry (W_m w)) (cm_id c) b). split; [done|]. by apply list_elem_of_fmap_2.
Qed.


(** ** Handing the same thing over again *)
Lemma lookupChallenge_id id w c w' :
  lookupChallengeMetadata id w = (inr c, w') -> cm_id c = id.
Proof.
  unfold lookupChallengeMetadata, try. intros H. step H d w1 E. destruct d as [e|d]; [by apply ret_inv in H as [? _]|].
  destruct (t_challenges d !! id); apply ret_inv in H as [H _]; [|done]. by injection H as ->.
Qed.
(** Opening a build that is there with the count asked for changes no row, even
    when it fails. *)
Lemma openBuild_held b id row B F w r w' :
  unique_rows B -> B !! id = Some row -> buildKey row = keyOf b -> b_instancecount row = bm_instanceCount b ->
  fixed B F w -> openBuild pins template b w = (r, w') -> fixed B F w'.
Proof.
  intros Hu Hrow Hk Hc HB H. unfold openBuild in H. step H b1 w1 E1.
  apply stampChecksum_inv in E1 as (Hm & sum & ->). assert (fixed B F w1) as HB1 by (unfold fixed; by rewrite Hm).
  unfold openStamped in H. step H x w2 E2.
  assert (fixed B F w2) as HB2.
  { destruct HB1 as [HB1 HF1]. revert E2. run. destruct (o_db _ _); [intros; by simplify_eq/=|]. simpl.
    destruct (upsertBuild _ _ _) as [d2|] eqn:Eu; simpl; intros; simplify_eq/=; [|done].
    destruct (upsertBuild_frame _ _ _ _ Eu) as (_ & Hf1 & Hf2). split; [|unfold frame; simpl; by rewrite Hf1, Hf2].
    simpl. apply upsertBuild_spec in Eu as (Hu2 & k & r2 & Hb & Hk2 & Hc2 & Hold); [|done].
    assert (k = id) as ->.
    { assert (t_builds d2 !! k = Some r2) as Hk1 by (by rewrite Hb, lookup_insert_eq). destruct (decide (k = id)) as [|Hne]; [done|].
      apply (Hu2 k id r2 row Hk1); [by rewrite Hb, lookup_insert_ne|by rewrite Hk2, Hk]. }
    rewrite Hb. apply insert_id. rewrite Hrow in Hold. rewrite Hrow. f_equal. rewrite Hold. simpl. rewrite <- Hc. by destruct row. }
  destruct x as [e|u].
  - step H t w3 E3. apply reader_inv in E3 as [-> ->]. destruct (_ && _ && _); [step H ho w4 E4; apply ret_inv in H as [_ ->]; exact (keeps_holds _ _ _ _ _ E4 HB2)|].
    by apply ret_inv in H as [_ ->].
  - unfold try in H. step H fd w3 E3. pose proof (keeps_holds _ _ _ _ _ E3 HB2) as HB3.
    destruct fd as [e|[[k r2]|]]; by apply ret_inv in H as [_ ->].
Qed.

(** A build whose row serves what is delivered: whatever fails, no row changes
    and no generation is displaced. *)
Lemma commit_held c b row rev prune B F w res w' :
  fixed B F w -> unique_rows B -> 0 < bm_id b -> B !! bm_id b = Some row -> handedRow (cm_id c) b row ->
  commitHandedOverBuild pins template purge c b rev prune w = (res, w') -> fixed B F w' /\ res.1 = None.
Proof.
  intros HB Hu Hid Hrow [Hk Hfl Hsum Hsrc Hart Hc] H. unfold commitHandedOverBuild in H. step H r w1 E1.
  assert (fixed B F w1) as HB1 by (eapply openBuild_held; [exact Hu|exact Hrow| | |exact HB|exact E1]; done).
  destruct r as [e|rw]; [by apply ret_inv in H as [-> ->]|].
  apply openBuild_finds_or_makes in E1 as (Hu1 & _ & r1 & Hb1 & Hk1 & Hc1 & Hfl1 & Hsum1 & _ & Hsrc1 & Hart1 & Hold);
    [|unfold builds_unique; by rewrite (proj1 HB)].
  simpl in Hk1, Hc1, Hold. rewrite (proj1 HB) in Hb1, Hold. rewrite (proj1 HB1) in Hb1.
  assert (B !! bm_id rw = Some r1) as Hr1 by (rewrite Hb1; apply lookup_insert_eq).
  assert (bm_id rw = bm_id b) as Eid by (eapply Hu; [exact Hr1|exact Hrow|by rewrite Hk1, Hk]). rewrite Eid in *.
  rewrite Hrow in Hr1. injection Hr1 as <-. rewrite decide_False in H by lia. rewrite decide_True in H by (split_and!; congruence).
  destruct (negb (NeedsInstance c)).
  { step H errs w2 E2. apply ret_inv in H as [-> ->]. split; [exact (keeps_holds _ _ _ _ _ E2 HB1)|done]. }
  case_decide; [by apply ret_inv in H as [-> ->]|]. step H errs w2 E2. apply ret_inv in H as [-> ->].
  split; [exact (keeps_holds _ _ _ _ _ E2 HB1)|done].
Qed.
Lemma commitBuilds_held c rev prune bs B F w res w' :
  fixed B F w -> unique_rows B ->
  Forall (fun b => 0 < bm_id b /\ exists row, B !! bm_id b = Some row /\ handedRow (cm_id c) b row) bs ->
  commitBuilds pins template purge c rev prune bs w = (res, w') -> fixed B F w' /\ res.1 = [].
Proof.
  intros HB Hu Hbs. revert w res w' HB. induction Hbs as [|b bs (Hid & row & Hrow & Hh) _ IH]; intros w res w' HB H; simpl in H.
  { by apply ret_inv in H as [-> ->]. }
  step H x w1 E1. apply (commit_held _ _ _ _ _ _ _ _ _ _ HB Hu Hid Hrow Hh) in E1 as [HB1 Hn]. destruct x as [cand errs]. simpl in Hn. subst cand.
  step H y w2 E2. apply (IH _ _ _ HB1) in E2 as [HB2 Hr]. destruct y as [replaced more]. apply ret_inv in H as [-> ->]. done.
Qed.

(** Handing the same thing over twice changes no build: when every build
    delivered is on record as it is delivered, then however the hand-over ends
    -- taken, refused, or failing half way -- the rows of the builds are exactly
    what they were. *)
Theorem handOver_again id h prune w c r w' :
  builds_unique (m_db (W_m w)) -> checkHandOver template id h = inr c ->
  (forall b, b ∈ cm_builds c -> exists row, t_builds (m_db (W_m w)) !! bm_id b = Some row /\ handedRow id b row) ->
  HandOverChallenge decode pins template limits bp purge id h prune w = (r, w') ->
  t_builds (m_db (W_m w')) = t_builds (m_db (W_m w)).
Proof.
  intros Hu Hc Hheld H. apply HandOverChallenge_phases in H as Hph. destruct r as [err|cu].
  { unfold catalogue in Hph. by simplify_eq. }
  destruct Hph as (c0 & c1 & w1 & w2 & v & Hc0 & Hs & _ & Hb2 & _ & Hall). rewrite Hc in Hc0. injection Hc0 as <-.
  apply applySeccompProfiles_options in Hs as [o ->]. apply checkHandOver_inr in Hc as [pin Hck].
  set (B := t_builds (m_db (W_m w))) in *. set (F := frame (W_m w2)). assert (fixed B F w2) as HB2 by (by split).
  enough (fixed B F w') as [-> _] by done. unfold commitAll in Hall. simpl in Hall. rewrite (ck_id _ _ _ _ Hck) in Hall.
  step Hall x w3 E3. pose proof (keeps_holds _ _ _ _ _ E3 HB2) as HB3.
  destruct x as [err|cm]; [by apply ret_inv in Hall as [_ ->]|]. apply lookupChallenge_id in E3 as Hcm.
  step Hall rv w4 E4. pose proof (keeps_holds _ _ _ _ _ E4 HB3) as HB4. destruct rv as [err|rv]; [by apply ret_inv in Hall as [_ ->]|].
  step Hall y w5 E5. apply (commitBuilds_held _ _ _ _ B F) in E5 as [HB5 Hr]; [|done|done|].
  2: { apply Forall_forall. intros b Hb. rewrite Hcm. split; [|by apply Hheld]. pose proof (ck_builds _ _ _ _ Hck) as Hbs.
       rewrite Forall_forall in Hbs. apply (Hbs b Hb). }
  destruct y as [replaced errs]. simpl in Hr. subst replaced. step Hall u w6 E6. apply ret_inv in E6 as [_ ->].
  step Hall st w7 E7. pose proof (keeps_holds _ _ _ _ _ E7 HB5) as HB7. step Hall d w8 E8. pose proof (keeps_holds _ _ _ _ _ E8 HB7) as HB8.
  by apply ret_inv in Hall as [_ ->].
Qed.

(** ** Taking a challenge off the catalogue *)

(** A challenge goes only when nothing was built from it: [RemoveChallenge]
    succeeds only for a challenge on record without builds, and then its record
    is gone and every other challenge and every build is as it was; when it
    fails -- the challenge is unknown, it still has builds, the database does
    not answer -- nothing has changed. *)
Theorem RemoveChallenge_spec id w r w' :
  RemoveChallenge id w = (r, w') ->
  match r with
  | inl _ => m_db (W_m w') = m_db (W_m w)
  | inr _ =>
    is_Some (t_challenges (m_db (W_m w)) !! id) /\
    (forall k row, t_builds (m_db (W_m w)) !! k = Some row -> b_challenge row <> id) /\
    t_challenges (m_db (W_m w')) = delete id (t_challenges (m_db (W_m w))) /\
    t_builds (m_db (W_m w')) = t_builds (m_db (W_m w))
  end.
Proof.
  intros H. unfold RemoveChallenge, try in H. step H x w1 E1. apply lookupChallenge_reads in E1 as Hsame. destruct Hsame as [Hm _].
  destruct x as [err|meta]; [apply ret_inv in H as [-> ->]; by rewrite Hm|]. apply lookupChallenge_id in E1 as Hid.
  step H n w2 E2. apply sqlRead_inv in E2 as (Hm2 & _ & _ & Hn). rewrite Hm in Hm2, Hn.
  destruct n as [err|n]; [apply ret_inv in H as [-> ->]; by rewrite Hm2|].
  case_decide as Hpos; [apply ret_inv in H as [-> ->]; by rewrite Hm2|]. unfold removeChallenges in H.
  apply transaction_spec in H as (_ & _ & Hr); [|apply _]. destruct r as [err|u]; [by rewrite Hr, Hm2|]. destruct Hr as (w3 & H & ->).
  simpl in H. apply try_inr in H as ([] & w4 & E4 & H). apply ret_inv in H as [_ ->]. apply sql_inr in E4 as (E4 & _). rewrite Hm2 in E4.
  unfold stmt, deleteChallenge in E4. rewrite Hid in E4. destruct (existsb _ _) eqn:Eb; [done|]. injection E4 as <-. simpl. split_and!; try done.
  - unfold lookupChallengeMetadata, try in E1. step E1 d w5 E5. apply sqlRead_inv in E5 as (_ & _ & _ & Ed).
    destruct d as [e|d]; [by apply ret_inv in E1 as [? _]|]. subst d. destruct (_ !! id); [by eexists|by apply ret_inv in E1 as [? _]].
  - intros k row Hrow Hch. assert (existsb (fun kv => bool_decide (b_challenge kv.2 = id)) (map_to_list (t_builds (m_db (W_m w)))) = true); [|congruence].
    apply existsb_exists. exists (k, row). split; [by apply list_elem_of_In, elem_of_map_to_list|by apply bool_decide_eq_true].
Qed.
End writing.

(** ** What holds of the records whatever is handed over

    For an invariant that the operations a hand-over is made of keep. *)
Section keep_handover.
Context (J : Manager -> Prop) {HJ : ChallengeSafe J} {HS : Stable J}.
Context (decode : string -> option seccompProfile) (pins : Z) (template : string -> Z) (limits : artifactLimits) (bp purge : bool).
Local Abbreviation Ok := (onM J).
Context {Kopen : forall b, Keeps Ok (openBuild pins template b)}.
Context {Kremove : forall id, Keeps Ok (removeBuildMetadata id)}.
Context {Kconverge : forall b c n, Keeps Ok (convergeBuildInstances b c n)}.
Context {Kreconcile : forall b c rev prune, Keeps Ok (reconcileBuild purge b c rev prune)}.
Context {Krebuild : forall md ids prune, Keeps Ok (rebuildBuilds pins template limits bp purge md ids prune)}.
Context {Kprune : forall replaced, Keeps Ok (pruneReplacedImages bp replaced)}.

Lemma keeps_commitBuilds c rev prune bs : Keeps Ok (commitBuilds pins template purge c rev prune bs).
Proof.
  induction bs as [|b bs IH]; simpl; keep. unfold commitHandedOverBuild, dropOpened, lookupBuildMetadata. keep.
Qed.
Lemma keeps_persist v c : Keeps Ok (persist pins template limits bp purge v c).
Proof.
  unfold persist. keep; by apply (keeps_updateChallenges J).
Qed.
Lemma keeps_HandOverChallenge id h prune : Keeps Ok (HandOverChallenge decode pins template limits bp purge id h prune).
Proof.
  unfold HandOverChallenge. keep; try apply keeps_persist.
  unfold commitAll, lookupChallengeMetadata, getReversePortMap, staleBuildIds. keep. apply keeps_commitBuilds.
Qed.
Lemma keeps_RemoveChallenge id : Keeps Ok (RemoveChallenge id).
Proof. unfold RemoveChallenge, lookupChallengeMetadata. keep. Qed.
End keep_handover.

(** ** A hand-over

    The build on record, from a newer source, and one for another seed. *)
Definition handed_build (id seed : Z) : BuildMetadata :=
  mkBuild id "flag{y}" ∅ seed "flag{%s}" (contentChecksum 8 "flag{%s}" 0 0) 0 8 [mkImage 0 "challenge" ["80/tcp"%string] 0] true 0
    "web" [] "event" DYNAMIC_INSTANCES.
Definition handed_challenge : ChallengeMetadata :=
  challengeMeta "web" (mkChallengeRow "Web" "" "custom" "" "" 8 9 "/c/web/problem.json" false false 1 "" 1) web_parts.
Definition handed : HandOver := mkHandOver (Some (handed_challenge, [Some (handed_build 1 42); Some (handed_build 12 7)])) 0 ∅.
Definition no_profiles (_ : string) : option seccompProfile := None.
Definition no_template (_ : string) : Z := 0.
Definition take_over (w : World) : (error + ChallengeUpdates) * World :=
  HandOverChallenge no_profiles 0 no_template someLimits false true "web" (Some handed) true w.

Lemma registry_request_exact_witness :
  registryManifestRequest "registry.example:5000/ctf" (instanceImageName "registry.example:5000/ctf" "web" (handed_build 12 7) (mkImage 0 "challenge" ["80/tcp"%string] 0)) =
    Some ("registry.example:5000", "/v2/ctf/web/manifests/" +:+ dockerId 7 (contentChecksum 8 "flag{%s}" 0 0) "challenge")%string.
Proof.
  destruct (checkHandOver no_template "web" (Some handed)) as [e|c] eqn:E; [vm_compute in E; discriminate|].
  destruct (registry_request_exact no_template "web" (Some handed) c "registry.example:5000/ctf" (handed_build 12 7)
    (mkImage 0 "challenge" ["80/tcp"%string] 0) E) as [H _]; [discriminate| |left|exact H].
  assert (c = handed_challenge <| cm_builds := [handed_build 1 42; handed_build 12 7] |>) as -> by (vm_compute in E; injection E as <-; reflexivity).
  right. left.
Defined.

(** One of the tags is not there. *)
Definition half_pushed : World :=
  external_world <| W_o ::= (fun o => o <| o_docker := fun _ c =>
    match c with RegistryHead n => if HasPrefix n "registry.example:5000/web:s7-" then Some [HttpStatus 404] else None | _ => None end |>) |>.
Lemma handOver_refused_whole_witness :
  exists w', take_over half_pushed = (inl [ErrNotInRegistry], w') /\
    catalogue (m_db (W_m w')) = catalogue (m_db (W_m half_pushed)).
Proof.
  destruct (take_over half_pushed) as [r w'] eqn:E. exists w'.
  assert (r = inl [ErrNotInRegistry]) as -> by (vm_compute in E; injection E as <- _; reflexivity). split; [reflexivity|].
  exact (handOver_refused_whole no_profiles 0 no_template someLimits false true "web" (Some handed) true half_pushed [ErrNotInRegistry] w' E).
Defined.

Lemma external_unique : builds_unique (m_db (W_m external_world)).
Proof.
  assert (t_builds (m_db (W_m external_world)) = t_builds (m_db (W_m (demo_world calm)))) as E by (vm_compute; reflexivity).
  unfold builds_unique. rewrite E. exact demo_unique.
Qed.
Lemma external_errors : plain_errors (W_o external_world).
Proof. intros n err. vm_compute. discriminate. Qed.

(** The same payload once its builds are on record. *)
Definition handed_row (seed : Z) : buildRow := mkBuildRow "flag{y}" "flag{%s}" seed (contentChecksum 8 "flag{%s}" 0 0) 0 8 true 0 "web" "event" DYNAMIC_INSTANCES.
Lemma handed_row_handed id seed : handedRow "web" (handed_build id seed) (handed_row seed).
Proof. constructor; reflexivity. Qed.
Definition handed_world : World :=
  external_world <| W_m ::= (fun m => m <| m_db ::= (fun d => d <| t_builds := <[1 := handed_row 42]> {[12 := handed_row 7]} |>) |>) |>.
Lemma handed_world_unique : builds_unique (m_db (W_m handed_world)).
Proof.
  intros id1 id2 r1 r2. simpl. rewrite !lookup_insert_Some, !lookup_singleton_Some.
  intros [[<- <-]|(_ & <- & <-)] [[<- <-]|(_ & <- & <-)]; done.
Qed.
Lemma handOver_again_witness :
  exists cu w', take_over handed_world = (inr cu, w') /\ t_builds (m_db (W_m w')) = t_builds (m_db (W_m handed_world)).
Proof.
  destruct (take_over handed_world) as [r w'] eqn:E. destruct r as [err|cu]; [vm_compute in E; discriminate|].
  exists cu, w'. split; [reflexivity|].
  apply (handOver_again no_profiles 0 no_template someLimits false true "web" (Some handed) true handed_world
    (handed_challenge <| cm_builds := [handed_build 1 42; handed_build 12 7] |>) (inr cu) w' handed_world_unique); [vm_compute; reflexivity| |exact E].
  intros b Hb. change (b ∈ [handed_build 1 42; handed_build 12 7]) in Hb. apply elem_of_cons in Hb as [->|Hb].
  - exists (handed_row 42). split; [vm_compute; reflexivity|apply handed_row_handed].
  - apply list_elem_of_singleton in Hb as ->. exists (handed_row 7). split; [vm_compute; reflexivity|apply handed_row_handed].
Defined.

Lemma RemoveChallenge_spec_witness :
  exists w', RemoveChallenge "web" (external_world <| W_m ::= (fun m => m <| m_db ::= (fun d => d <| t_builds := ∅ |>) |>) |>) = (inr tt, w') /\
    t_challenges (m_db (W_m w')) = ∅.
Proof.
  set (w := external_world <| W_m ::= (fun m => m <| m_db ::= (fun d => d <| t_builds := ∅ |>) |>) |>).
  destruct (RemoveChallenge "web" w) as [r w'] eqn:E. assert (r = inr tt) as -> by (vm_compute in E; injection E as <- _; reflexivity).
  exists w'. split; [reflexivity|]. destruct (RemoveChallenge_spec "web" w (inr tt) w' E) as (_ & _ & -> & _). vm_compute. reflexivity.
Defined.
Example challenge_with_builds_stays : (RemoveChallenge "web" external_world).1 = inl [ErrChallengeHasBuilds].
Proof. vm_compute. reflexivity. Qed.
Example names_refused :
  validChallengeId "over-the-wire/a--b" = false /\ validChallengeId "ns/sub/web-1" = true /\ validChallengeId "a/../b" = false /\
  validChallengeId "web:latest" = false /\ validHostName "db_1" = true /\ validHostName "a/b" = false.
Proof. vm_compute. auto 6. Qed.
