(* ===== verification/Preload.v ===== *)
(** * Preload: holding the images of a schema on every worker

    [cork/preload.go].  A preloaded schema has every image it launches pulled to
    every worker, and what a redeploy supersedes removed from them.  A worker's
    preloader makes passes: it lists what the worker holds, pulls what is
    missing, then removes the tags of preloaded challenges that no build
    launches any more; a tag a container still uses is renamed so that a later
    pass finds it.

    A pass holds no lock: [updates] is what other requests have done to the
    records by the time it reads them again.  The mutex of [lockUpdates] is one
    step here, and what it logs is not modelled. *)
From S2P Require Import Prelude Types Settings Text Artifacts Queue Worker Database Fleet HostConfig Effects Ports Instances Images Docker Launch Lifecycle Roster Builds Converge Builder HandOver.
Local Open Scope Z_scope.

Definition preloadSweepInterval : Z := 5 * 60 * 1000000000.
Definition preloadRetryAfter : Z := 30 * 1000000000.
Definition defaultPreloadPulls : Z := 8.
Definition preloadPullSlots (env : environ) : Z := envCount env "CORK_PRELOAD_PULLS" defaultPreloadPulls.

(** ** Names *)

(** [strings.LastIndex] of one character. *)
Fixpoint LastIndex (ch : ascii) (s : string) : option nat :=
  match s with
  | EmptyString => None
  | String c s =>
    match LastIndex ch s with
    | Some i => Some (S i)
    | None => if decide (c = ch) then Some O else None
    end
  end.
Definition imageRepo (name : string) : string :=
  match LastIndex ":" name, LastIndex "/" name with
  | Some i, Some j => if decide (j < i)%nat then substring 0 i name else name
  | Some i, None => substring 0 i name
  | None, _ => name
  end.
Definition staleTagPrefix : string := "stale-".
Definition staleTag (ref : string) : string :=
  let repo := imageRepo ref in (repo +:+ ":" +:+ staleTagPrefix +:+ TrimPrefix ref (repo +:+ ":"))%string.
Definition isStale (ref : string) : bool := HasPrefix (TrimPrefix ref (imageRepo ref +:+ ":")%string) staleTagPrefix.

(** ** What the database says *)
Record preloadSets := mkSets {
  ps_schemas : gset string;
  ps_bySchema : gmap string (list string);
  ps_wanted : gset string;
  ps_named : gset string;
  ps_repos : gset string }.
#[export] Instance eta_preloadSets : Eta preloadSets := fun s =>
  mkSets (ps_schemas s) (ps_bySchema s) (ps_wanted s) (ps_named s) (ps_repos s).

(** A row of the query: a build with one of its images and its challenge. *)
Record preloadRow := mkPreloadRow {
  pr_schema : string; pr_challenge : ChallengeId; pr_seed : Z; pr_checksum : Z; pr_host : string;
  pr_challengeType : string; pr_portCount : nat }.
Definition preloadRows (d : Db) : list preloadRow :=
  mjoin ((fun kb =>
    let b := kb.2 in
    match t_challenges d !! b_challenge b with
    | Some c =>
      if decide (b_checksum b <> 0 /\ b_flag b <> ""%string) then
        (fun ki => mkPreloadRow (b_schema b) (b_challenge b) (b_seed b) (b_checksum b) (ig_host ki.2) (ch_challengetype c)
                     (length (cp_portNames (challengeParts_of (b_challenge b) d)))) <$>
        filter (fun ki => ig_build ki.2 = kb.1 /\ ig_host ki.2 <> "builder"%string) (rows (t_images d))
      else []
    | None => []
    end) <$> rows (t_builds d)).

Section sets.
Context (registry : string).
Definition rowImage (r : preloadRow) : string :=
  instanceImageName registry (pr_challenge r)
    (mkBuild 0 "" ∅ (pr_seed r) "" (pr_checksum r) 0 0 [] false 0 "" [] "" 0) (mkImage 0 (pr_host r) [] 0).
Definition addRow (s : preloadSets) (r : preloadRow) : preloadSets :=
  let name := rowImage r in
  let s := s <| ps_named ::= (fun x => {[name]} ∪ x) |> in
  if decide (pr_schema r ∉ ps_schemas s \/ deriveDeliveryType (pr_challengeType r) (pr_portCount r) <> DeliveryService) then s
  else s <| ps_wanted ::= (fun x => {[name]} ∪ x) |>
         <| ps_bySchema ::= (fun m => <[pr_schema r := default [] (m !! pr_schema r) ++ [name]]> m) |>
         <| ps_repos ::= (fun x => {[imageRepository registry (pr_challenge r)]} ∪ x) |>.
Definition noSets : preloadSets := mkSets ∅ ∅ ∅ ∅ ∅.
Definition setsOf (schemas : gset string) (l : list preloadRow) : preloadSets :=
  let s := foldl addRow (mkSets schemas (gset_to_gmap [] schemas) ∅ ∅ ∅) l in
  s <| ps_bySchema ::= fmap (merge_sort string_le) |>.
Definition schemaNames (s : preloadSets) : list string := sorted (ps_schemas s).
End sets.

Definition missing (wanted have : gset string) : list string := sorted (wanted ∖ have).
Definition heldTags (images : list (list string)) : gset string := list_to_set (mjoin images).
Definition superseded (sets : preloadSets) (held tried : gset string) : list string :=
  let waiting : gset string := set_map imageRepo (ps_wanted sets ∖ held ∖ tried) in
  sorted (filter (fun tag => tag ∉ ps_named sets /\ imageRepo tag ∈ ps_repos sets /\ imageRepo tag ∉ waiting) held).
Definition releasedImages (before after : preloadSets) : list string :=
  sorted (filter (fun name => ~ (name ∈ ps_wanted after \/ (name ∉ ps_named after /\ imageRepo name ∈ ps_repos after)))
    (ps_wanted before)).

(** ** What a preloader reports *)
Record preloadStatus := mkStatus {
  st_held : gset string;
  st_failed : gmap string error;
  st_pulling : string;
  st_lastPass : option Z }.
#[export] Instance eta_preloadStatus : Eta preloadStatus := fun s =>
  mkStatus (st_held s) (st_failed s) (st_pulling s) (st_lastPass s).
Definition newStatus : preloadStatus := mkStatus ∅ ∅ "" None.
Definition begin (held : gset string) (s : preloadStatus) : preloadStatus := s <| st_held := held |> <| st_failed := ∅ |>.
Definition pull (image : string) (s : preloadStatus) : preloadStatus := s <| st_pulling := image |>.
Definition pulled (image : string) (err : option error) (s : preloadStatus) : preloadStatus :=
  let s := s <| st_pulling := ""%string |> in
  match err with
  | Some err => s <| st_failed ::= <[image := err]> |>
  | None => s <| st_held ::= (fun x => {[image]} ∪ x) |>
  end.
Definition removed (image : string) (s : preloadStatus) : preloadStatus := s <| st_held ::= (fun x => x ∖ {[image]}) |>.
Definition finishPass (now : Z) (s : preloadStatus) : preloadStatus :=
  s <| st_pulling := ""%string |> <| st_lastPass := Some now |>.

Record PreloadWorker := mkPreloadWorker {
  pw_ip : string; pw_reachable : string; pw_held : nat; pw_pulling : string; pw_failed : list (string * error);
  pw_lastPass : option Z }.
Definition report (ip : string) (reachable : workerReachable) (wanted : list string) (s : preloadStatus) : PreloadWorker :=
  mkPreloadWorker ip (reachableString reachable) (length (filter (fun image => image ∈ st_held s) wanted))
    (if decide (st_pulling s ∈ wanted) then st_pulling s else ""%string)
    (omap (fun image => pair image <$> st_failed s !! image) wanted) (st_lastPass s).
Record PreloadInfo := mkPreloadInfo { pi_schema : string; pi_images : nat; pi_workers : list PreloadWorker }.

Section preload.
Context (updates : nat -> Db -> Db).
(** Other requests write between two readings. *)
Definition meanwhile : M unit := fun w => (tt, w <| W_m ::= (fun m => m <| m_db ::= updates (W_tick w) |>) |> <| W_tick ::= S |>).

Definition readSets : M (error + preloadSets) :=
  m ← getM;
  meanwhile;;
  let? schemas := sqlRead t_preloads in
  if decide (schemas = ∅) then ok noSets
  else
    meanwhile;;
    let? l := sqlRead preloadRows in
    ok (setsOf (m_challengeRegistry m) schemas l).

(** [w_preloadNow] is the nudge a preloader finds; its channel holds one. *)
Definition kickPreloads (m : Manager) : Manager :=
  m <| m_conns ::= (fun cs => map_imap (fun c w =>
         Some (if decide (m_workers m !! w_ip w = Some c) then w <| w_preloadNow := true |> else w)) cs) |>.
Definition insertPreload (schema : string) (d : Db) : Db := d <| t_preloads ::= (fun s => {[schema]} ∪ s) |>.
Definition AddPreload (schema : string) : M (error + unit) :=
  m ← getM;
  if decide (m_challengeRegistry m = ""%string) then fail [OtherError "preloading needs a challenge registry"]
  else
    let? exists_ := schemaExists schema in
    if exists_ : bool then
      let? _ := sqlExec (insertPreload schema) in
      modifyM kickPreloads;;
      ok tt
    else fail [UnknownIdentifier "schema" schema].
(** The statement reports how many rows it deleted. *)
Definition RemovePreload (schema : string) : M (error + list string) :=
  let? before := readSets in
  let? n := sql (fun d => Some (deletePreload schema d, bool_decide (schema ∈ t_preloads d))) in
  if n : bool then
    let? after := readSets in
    ok (releasedImages before after)
  else fail [UnknownIdentifier "preload" schema].

(** Every preloaded schema, worker by worker; [status] is what each conn's
    preloader last established. *)
Definition ListPreloads (status : nat -> preloadStatus) : M (error + list PreloadInfo) :=
  let? sets := readSets in
  m ← getM;
  let snaps := omap (fun ip => c ← m_workers m !! ip; w ← m_conns m !! c; Some (ip, w_reachable w, status c)) (m_workerOrder m) in
  ok ((fun schema =>
         let wanted := default [] (ps_bySchema sets !! schema) in
         mkPreloadInfo schema (length wanted) ((fun x => report x.1.1 x.1.2 wanted x.2) <$> snaps)) <$> schemaNames sets).

(** ** A pass *)
Definition preloadable (m : Manager) (c : nat) : bool :=
  match m_conns m !! c with
  | Some w => negb (gone w) && bool_decide (w_reachable w = workerReachableOk)
  | None => false
  end.
Definition connGone (m : Manager) (c : nat) : bool :=
  match m_conns m !! c with Some w => gone w | None => false end.

(** [rand.Shuffle]: from the last position down, each swapped with one at or
    before it. *)
Definition swap (i j : nat) (l : list string) : list string :=
  match l !! i, l !! j with
  | Some x, Some y => <[i := y]> (<[j := x]> l)
  | _, _ => l
  end.
Fixpoint shuffleFrom (i : nat) (l : list string) : M (list string) :=
  match i with
  | O => mret l
  | S i' => j ← Intn (Z.of_nat (S i)); shuffleFrom i' (swap i (Z.to_nat j) l)
  end.
Definition shuffle (l : list string) : M (list string) := shuffleFrom (pred (length l)) l.

Definition notePreloadError (ip : string) (cli : nat) (err : error) : M unit :=
  if errors_Is err DeadlineExceeded || errors_Is err ErrPullTimeout then mret tt
  else noteTransport ip (Some cli) err.
Definition workerImages (ip : string) (cli : nat) : M (error + list (list string)) :=
  r ← docker (Some cli) ImageList;
  match r with
  | inl err => notePreloadError ip cli err;; fail err
  | inr _ => images ← ask o_images; ok images
  end.
Definition removeWorkerImage (ip : string) (cli : nat) (ref : string) : M (error + unit) :=
  r ← docker (Some cli) (ImageRemove ref);
  match r with
  | inl err => if IsNotFound err then ok tt else notePreloadError ip cli err;; fail err
  | inr _ => ok tt
  end.
Definition markStale (ip : string) (cli : nat) (tag : string) (s : preloadStatus) : M (option error * preloadStatus) :=
  if isStale tag then mret (None, s)
  else
    r ← docker (Some cli) (ImageTag tag (staleTag tag));
    r ← (match r with
         | inr _ => removeWorkerImage ip cli tag
         | inl err => notePreloadError ip cli err;; fail err
         end);
    mret (match r with inl err => (Some err, s) | inr _ => (None, removed tag s) end).

(** A slot, unless the conn goes first. *)
Definition acquirePreloadPull (c : nat) : M bool :=
  others ← ask o_others;
  modifyM (run_ops others);;
  outcome ← ask o_slot;
  m ← getM;
  mret (match outcome with SlotTaken => true | _ => negb (connGone m c) end).

Fixpoint removeTags (c : nat) (ip : string) (cli : nat) (tags : list string) (s : preloadStatus) : M preloadStatus :=
  match tags with
  | [] => mret s
  | tag :: tags =>
    m ← getM;
    if negb (preloadable m c) then mret s
    else
      r ← removeWorkerImage ip cli tag;
      '(err, s) ← (match r with
                   | inr _ => mret (None, removed tag s)
                   | inl err => if IsConflict err then markStale ip cli tag s else mret (Some err, s)
                   end);
      match err with
      | Some err => if errors_Is err DeadlineExceeded then mret s else removeTags c ip cli tags s
      | None => removeTags c ip cli tags s
      end
  end.
Definition removeSuperseded (c : nat) (ip : string) (cli : nat) (held tried : gset string) (s : preloadStatus)
    : M (bool * preloadStatus) :=
  r ← readSets;
  match r with
  | inl _ => mret (true, s)
  | inr sets => s ← removeTags c ip cli (superseded sets held tried) s; mret (false, s)
  end.

(** The pulls: stopped (the conn has gone or is not reachable), unread, or
    through, with what was tried and whether one failed. *)
Inductive pullsEnd := PullsStopped | PullsUnread | PullsDone (tried : gset string) (failed : bool).
Fixpoint pullAll (c : nat) (ip : string) (cli : nat) (names : list string) (tried : gset string) (failed : bool)
    (s : preloadStatus) : M (pullsEnd * preloadStatus) :=
  match names with
  | [] => mret (PullsDone tried failed, s)
  | name :: names =>
    got ← acquirePreloadPull c;
    if negb got then mret (PullsStopped, s)
    else
      m ← getM;
      if negb (preloadable m c) then mret (PullsStopped, s)
      else
        now ← readSets;
        match now with
        | inl _ => mret (PullsUnread, s)
        | inr now =>
          if decide (name ∉ ps_wanted now) then pullAll c ip cli names tried failed s
          else
            let s := pull name s in
            r ← pullImage (Some cli) name;
            match r with
            | inl err =>
              notePreloadError ip cli err;;
              pullAll c ip cli names ({[name]} ∪ tried) true (pulled name (Some err) s)
            | inr _ => pullAll c ip cli names ({[name]} ∪ tried) failed (pulled name None s)
            end
        end
  end.

Definition preloadPass (c : nat) (w : workerConn) (s : preloadStatus) : M (bool * preloadStatus) :=
  m ← getM;
  if negb (preloadable m c) then mret (false, s)
  else
    r ← readSets;
    match r with
    | inl _ => mret (true, s)
    | inr sets =>
      if decide (ps_schemas sets = ∅) then mret (false, s)
      else
        r ← workerImages (w_ip w) (w_cli w);
        match r with
        | inl _ => mret (true, s)
        | inr images =>
          let held := heldTags images in
          let s := begin held s in
          pulls ← shuffle (missing (ps_wanted sets) held);
          '(e, s) ← pullAll c (w_ip w) (w_cli w) pulls ∅ false s;
          '(failed, s) ← (match e with
                          | PullsStopped => mret (false, s)
                          | PullsUnread => mret (true, s)
                          | PullsDone tried failed =>
                            '(unread, s) ← removeSuperseded c (w_ip w) (w_cli w) held tried s;
                            mret (failed || unread, s)
                          end);
          t ← now;
          mret (failed, finishPass t s)
        end
    end.

(** The passes of a preloader, [n] at most: between two of them it waits for a
    nudge, the sweep, its retry or its end, while others work. *)
Definition nextRetry (failed : bool) (retryIn : Z) : Z :=
  if failed then Z.min (2 * retryIn) preloadSweepInterval else preloadRetryAfter.
Fixpoint preloadLoop (n : nat) (c : nat) (w : workerConn) (retryIn : Z) (s : preloadStatus) : M (Z * preloadStatus) :=
  match n with
  | O => mret (retryIn, s)
  | S n =>
    '(failed, s) ← preloadPass c w s;
    let retryIn := nextRetry failed retryIn in
    others ← ask o_others;
    modifyM (run_ops others);;
    m ← getM;
    if connGone m c then mret (retryIn, s)
    else
      modifyM (onConn c (fun w => w <| w_preloadNow := false |>));;
      preloadLoop n c w retryIn s
  end.
End preload.

#[global] Typeclasses Opaque meanwhile readSets AddPreload RemovePreload ListPreloads shuffleFrom shuffle notePreloadError
  workerImages removeWorkerImage markStale acquirePreloadPull removeTags removeSuperseded pullAll preloadPass preloadLoop.

(** ** Names *)

Lemma LastIndex_app ch s t :
  LastIndex ch (s +:+ t) =
  match LastIndex ch t with Some i => Some (String.length s + i)%nat | None => LastIndex ch s end.
Proof.
  induction s as [|c s IH]; [change ("" +:+ t) with t; simpl; by destruct (LastIndex ch t)|].
  change (String c s +:+ t) with (String c (s +:+ t)). simpl. rewrite IH.
  destruct (LastIndex ch t); [done|]. done.
Qed.
Lemma LastIndex_none ch s : all_chars (notChar ch) s = true -> LastIndex ch s = None.
Proof.
  induction s as [|c s IH]; simpl; [done|]. intros [Hc Hs]%andb_true_iff. rewrite IH by done.
  unfold notChar in Hc. by case_bool_decide; rewrite ?decide_False by done.
Qed.
Lemma LastIndex_bound ch s i : LastIndex ch s = Some i -> (i < String.length s)%nat.
Proof.
  revert i. induction s as [|c s IH]; intros i; simpl; [done|].
  destruct (LastIndex ch s) as [j|]; [intros [= <-]; specialize (IH j eq_refl); lia|].
  case_decide; intros; simplify_eq; lia.
Qed.
Lemma substring_app s t : substring 0 (String.length s) (s +:+ t) = s.
Proof. induction s as [|c s IH]; [by destruct t|]. exact (f_equal (String c) IH). Qed.

Lemma tagChar_plain sep c : sep = ":"%char \/ sep = "/"%char -> tagChar c = true -> notChar sep c = true.
Proof. intros Hs. unfold notChar. case_bool_decide; [subst; by destruct Hs as [->| ->]|done]. Qed.

(** A repository with a tag, which has neither a colon nor a slash. *)
Lemma imageRepo_tagged repo tag : all_chars tagChar tag = true -> imageRepo (repo +:+ ":" +:+ tag) = repo.
Proof.
  intros Ht. unfold imageRepo. change (":" +:+ tag)%string with (String ":" tag).
  assert (forall sep, sep = ":"%char \/ sep = "/"%char -> LastIndex sep tag = None) as Hn.
  { intros sep Hs. apply LastIndex_none. eapply all_chars_impl; [|exact Ht]. intros c. by apply tagChar_plain. }
  rewrite !LastIndex_app. simpl. rewrite !Hn by auto. simpl. rewrite Nat.add_0_r, substring_app.
  destruct (LastIndex "/" repo) as [j|] eqn:E; [|done]. apply LastIndex_bound in E. by rewrite decide_True.
Qed.
Lemma TrimPrefix_tagged repo tag : TrimPrefix (repo +:+ ":" +:+ tag) (repo +:+ ":") = tag.
Proof. rewrite append_assoc. unfold TrimPrefix. by rewrite (proj2 (CutPrefix_spec _ _ tag)). Qed.

Section tagged.
Context (repo tag : string) (Htag : all_chars tagChar tag = true).
Lemma staleTag_tagged : staleTag (repo +:+ ":" +:+ tag) = (repo +:+ ":" +:+ staleTagPrefix +:+ tag)%string.
Proof. unfold staleTag. by rewrite imageRepo_tagged, TrimPrefix_tagged. Qed.
Lemma isStale_tagged : isStale (repo +:+ ":" +:+ tag) = HasPrefix tag staleTagPrefix.
Proof. unfold isStale. by rewrite imageRepo_tagged, TrimPrefix_tagged. Qed.
End tagged.

(** The seed after the "s" is a number, which "tale-" is not. *)
Lemma dockerId_not_stale seed sum host : HasPrefix (dockerId seed sum host) staleTagPrefix = false.
Proof.
  destruct (HasPrefix _ _) eqn:E; [|done]. apply HasPrefix_spec in E as [rest E].
  unfold dockerId, staleTagPrefix in E. injection E as E. rewrite pretty_Z_sign in E. case_decide; [done|].
  pose proof (pretty_N_decimal (Z.to_N seed)) as Hd. pose proof (pretty_N_nonempty (Z.to_N seed)).
  destruct (pretty (Z.to_N seed)) as [|ch t]; [done|]. injection E as -> _. done.
Qed.

(** A tag that marks an image stale tells it, stays in the repository the
    cleanup looks in, and is no build's image: a later pass finds it
    superseded. *)
Lemma stale_kept registry c seed sum host :
  all_chars tagChar host = true ->
  let ref := image_tag registry c seed sum host in
  isStale ref = false /\ isStale (staleTag ref) = true /\
  imageRepo ref = imageRepository registry c /\ imageRepo (staleTag ref) = imageRepository registry c /\
  (forall c' seed' sum' host', all_chars tagChar host' = true -> staleTag ref <> image_tag registry c' seed' sum' host').
Proof.
  intros Hh ref. pose proof (dockerId_tag seed sum host Hh) as Ht. unfold ref, image_tag.
  assert (all_chars tagChar (staleTagPrefix +:+ dockerId seed sum host) = true) as Hs by (rewrite all_chars_app, Ht; done).
  rewrite staleTag_tagged, !isStale_tagged, !imageRepo_tagged by done.
  split_and!; [apply dockerId_not_stale|apply HasPrefix_spec; eauto|done..|].
  intros c' seed' sum' host' Hh' E. pose proof (dockerId_not_stale seed' sum' host') as Hn.
  apply (f_equal isStale) in E. rewrite !isStale_tagged in E by (done || by apply dockerId_tag).
  rewrite Hn in E. enough (HasPrefix (staleTagPrefix +:+ dockerId seed sum host) staleTagPrefix = true) by congruence.
  apply HasPrefix_spec. eauto.
Qed.

(** ** What the sets hold *)

(** A row that a preloaded schema launches as a service. *)
Definition serves (schemas : gset string) (r : preloadRow) : Prop :=
  pr_schema r ∈ schemas /\ deriveDeliveryType (pr_challengeType r) (pr_portCount r) = DeliveryService.
#[export] Instance serves_dec schemas r : Decision (serves schemas r).
Proof. unfold serves. apply _. Defined.

Section sets_spec.
Context (registry : string).

Lemma addRow_sets s r :
  ps_schemas (addRow registry s r) = ps_schemas s /\
  ps_named (addRow registry s r) = {[rowImage registry r]} ∪ ps_named s /\
  (ps_wanted (addRow registry s r), ps_repos (addRow registry s r)) =
    if decide (serves (ps_schemas s) r)
    then ({[rowImage registry r]} ∪ ps_wanted s, {[imageRepository registry (pr_challenge r)]} ∪ ps_repos s)
    else (ps_wanted s, ps_repos s).
Proof.
  unfold addRow, serves. simpl. case_decide as H1; simpl; (split_and!; [done..|]).
  - rewrite decide_False; [done|]. tauto.
  - rewrite decide_True; [done|]. split; [by apply dec_stable; tauto|].
    apply dec_stable. tauto.
Qed.

Lemma ex_cons {A} (P : A -> Prop) a l : (exists r, r ∈ a :: l /\ P r) <-> P a \/ exists r, r ∈ l /\ P r.
Proof.
  split; [intros (r & [->|Hr]%elem_of_cons & HP); eauto|]. intros [HP|(r & Hr & HP)]; eexists; (split; [|exact HP]); by constructor.
Qed.
Lemma foldl_addRow l s :
  let t := foldl (addRow registry) s l in
  ps_schemas t = ps_schemas s /\
  (forall x, x ∈ ps_named t <-> x ∈ ps_named s \/ exists r, r ∈ l /\ rowImage registry r = x) /\
  (forall x, x ∈ ps_wanted t <-> x ∈ ps_wanted s \/ exists r, r ∈ l /\ serves (ps_schemas s) r /\ rowImage registry r = x) /\
  (forall x, x ∈ ps_repos t <-> x ∈ ps_repos s \/
     exists r, r ∈ l /\ serves (ps_schemas s) r /\ imageRepository registry (pr_challenge r) = x).
Proof.
  revert s. induction l as [|r l IH]; intros s t; [subst t; set_solver|].
  destruct (IH (addRow registry s r)) as (H1 & H2 & H3 & H4). destruct (addRow_sets s r) as (E1 & E2 & E3).
  subst t. simpl. split; [congruence|]. rewrite E1 in H3, H4.
  case_decide as Hs; injection E3 as Ew Er; split_and!; intros x; rewrite ?H2, ?H3, ?H4, ?E2, ?Ew, ?Er, ex_cons;
    rewrite ?elem_of_union, ?elem_of_singleton; intuition congruence.
Qed.

Lemma setsOf_spec schemas l :
  let t := setsOf registry schemas l in
  ps_schemas t = schemas /\
  (forall x, x ∈ ps_named t <-> exists r, r ∈ l /\ rowImage registry r = x) /\
  (forall x, x ∈ ps_wanted t <-> exists r, r ∈ l /\ serves schemas r /\ rowImage registry r = x) /\
  (forall x, x ∈ ps_repos t <-> exists r, r ∈ l /\ serves schemas r /\ imageRepository registry (pr_challenge r) = x).
Proof.
  unfold setsOf. destruct (foldl_addRow l (mkSets schemas (gset_to_gmap [] schemas) ∅ ∅ ∅)) as (H1 & H2 & H3 & H4).
  simpl in *. split_and!; [done|intros x; rewrite ?H2, ?H3, ?H4; set_solver..].
Qed.
End sets_spec.

Lemma elem_of_sorted (x : string) (s : gset string) : x ∈ sorted s <-> x ∈ s.
Proof. unfold sorted. by rewrite merge_sort_Permutation, elem_of_elements. Qed.

Lemma elem_of_superseded sets held tried x :
  x ∈ superseded sets held tried <->
  x ∈ held /\ x ∉ ps_named sets /\ imageRepo x ∈ ps_repos sets /\
  (forall name, name ∈ ps_wanted sets -> imageRepo name = imageRepo x -> name ∈ held \/ name ∈ tried).
Proof.
  unfold superseded. rewrite elem_of_sorted, elem_of_filter.
  split.
  - intros ((H1 & H2 & H3) & H4). split_and!; [done..|]. intros name Hn E.
    destruct (decide (name ∈ held)); [by left|]. destruct (decide (name ∈ tried)); [by right|].
    destruct H3. apply elem_of_map. exists name. set_solver.
  - intros (H1 & H2 & H3 & H4). split_and!; [done..| |done].
    intros (name & E & Hn)%elem_of_map. destruct (H4 name); set_solver.
Qed.

(** ** What a pass relies on while others write *)

Lemma preloadRows_catalogue d d' : catalogue d = catalogue d' -> preloadRows d = preloadRows d'.
Proof. unfold catalogue. intros [= H1 H2 H3 H4 _ _ _]. unfold preloadRows, challengeParts_of. by rewrite H1, H2, H3, H4. Qed.

(** A statement about what the records say of builds, images and preloads,
    that the other requests do not end. *)
Class Standing (updates : nat -> Db -> Db) (J : Db -> Prop) : Prop := {
  standing_catalogue d d' : catalogue d = catalogue d' -> J d -> J d';
  standing_updates n d : J d -> J (updates n d) }.

Section standing.
Context (updates : nat -> Db -> Db) (J : Db -> Prop) {HJ : Standing updates J} (R : string).
Definition holds_of (m : Manager) : Prop := m_challengeRegistry m = R /\ J (m_db m).
#[export] Instance stable_holds : Stable holds_of.
Proof.
  intros op m [HR Hd]. split.
  - rewrite <- HR. by injection (run_op_frame op m).
  - eapply standing_catalogue; [symmetry; apply run_op_catalogue|done].
Qed.
Local Abbreviation Ok := (onM holds_of).

#[export] Instance holds_meanwhile : Keeps Ok (meanwhile updates).
Proof. intros w [HR Hd]. split; [done|]. by apply standing_updates. Qed.
#[export] Instance holds_readSets : Keeps Ok (readSets updates).
Proof. unfold readSets. keep. Qed.
#[export] Instance holds_shuffleFrom i l : Keeps Ok (shuffleFrom i l).
Proof. revert l. induction i; intros; simpl; keep. Qed.
#[export] Instance holds_shuffle l : Keeps Ok (shuffle l).
Proof. unfold shuffle. apply _. Qed.
#[export] Instance holds_notePreloadError ip cli err : Keeps Ok (notePreloadError ip cli err).
Proof. unfold notePreloadError. keep. Qed.
#[export] Instance holds_workerImages ip cli : Keeps Ok (workerImages ip cli).
Proof. unfold workerImages. keep. Qed.
#[export] Instance holds_removeWorkerImage ip cli ref : Keeps Ok (removeWorkerImage ip cli ref).
Proof. unfold removeWorkerImage. keep. Qed.
#[export] Instance holds_others ops : Keeps Ok (modifyM (run_ops ops)).
Proof. apply keeps_modify. intros m. by apply stable_ops, _. Qed.
#[export] Instance holds_acquire c : Keeps Ok (acquirePreloadPull c).
Proof. unfold acquirePreloadPull. keep. Qed.
#[export] Instance holds_pullImage cli name : Keeps Ok (pullImage cli name).
Proof. unfold pullImage. keep. Qed.
#[export] Instance holds_pullAll c ip cli names tried failed s : Keeps Ok (pullAll updates c ip cli names tried failed s).
Proof. revert tried failed s. induction names; intros; simpl; keep. Qed.

(** What a reading finds is what the records say at two moments, the preloads
    at one and the builds at another. *)
Lemma readSets_spec w r w' :
  readSets updates w = (r, w') -> holds_of (W_m w) ->
  W_trace w' = W_trace w /\ W_o w' = W_o w /\ m_conns (W_m w') = m_conns (W_m w) /\ holds_of (W_m w') /\
  match r with
  | inl _ => True
  | inr sets =>
    exists d1 d2, J d1 /\ J d2 /\
      sets = if decide (t_preloads d1 = ∅) then noSets else setsOf R (t_preloads d1) (preloadRows d2)
  end.
Proof.
  intros H Hw. pose proof (keeps_gives holds_of _ _ _ _ H Hw) as Hw'.
  enough (W_trace w' = W_trace w /\ W_o w' = W_o w /\ m_conns (W_m w') = m_conns (W_m w) /\
    match r with inl _ => True | inr sets => exists d1 d2, J d1 /\ J d2 /\
      sets = if decide (t_preloads d1 = ∅) then noSets else setsOf R (t_preloads d1) (preloadRows d2) end) by tauto.
  destruct Hw as [HR Hd]. pose proof (standing_updates (J:=J) (W_tick w) _ Hd) as Hd1. revert H. unfold readSets, meanwhile. run.
  simpl. destruct (o_db _ _); [by intros; simplify_eq/=|]. simpl.
  case_decide as E1; [intros; simplify_eq/=; split_and!; [done..|]; eexists _, _; split_and!; [exact Hd1..|]; by rewrite decide_True by done|].
  simpl. pose proof (fun n => standing_updates (J:=J) n _ Hd1) as Hd2.
  destruct (o_db _ _); intros; simplify_eq/=; [done|]. split_and!; [done..|].
  eexists _, _; split_and!; [exact Hd1|apply Hd2|]. rewrite decide_False by done. by rewrite HR.
Qed.
End standing.

(** ** What a pass removes *)

(** A tag cleanup has to leave alone: a current build launches it, or no
    current build is of its repository. *)
Definition spared (R x : string) (d : Db) : Prop :=
  (exists r, r ∈ preloadRows d /\ rowImage R r = x) \/
  (forall r, r ∈ preloadRows d -> imageRepository R (pr_challenge r) <> imageRepo x).
Definition leaves (x : string) (ev : event) : Prop := ev_call ev <> ImageRemove x.

Lemma standing_spared updates R x :
  (forall n d, spared R x d -> spared R x (updates n d)) -> Standing updates (spared R x).
Proof. intros H. split; [|done]. intros d d' E. unfold spared. by rewrite (preloadRows_catalogue _ _ E). Qed.

Section leaves.
Context (x : string).
Local Abbreviation P := (leaves x).
#[export] Instance leaves_meanwhile updates : Emits P (meanwhile updates).
Proof. by apply emits_none. Qed.
#[export] Instance leaves_readSets updates : Emits P (readSets updates).
Proof. unfold readSets. emit. Qed.
#[export] Instance leaves_Intn n : Emits P (Intn n).
Proof. unfold Intn. emit. Qed.
#[export] Instance leaves_shuffleFrom i l : Emits P (shuffleFrom i l).
Proof. revert l. induction i; intros; simpl; emit. Qed.
#[export] Instance leaves_shuffle l : Emits P (shuffle l).
Proof. unfold shuffle. apply _. Qed.
#[export] Instance leaves_notePreloadError ip cli err : Emits P (notePreloadError ip cli err).
Proof. unfold notePreloadError. emit. Qed.
#[export] Instance leaves_workerImages ip cli : Emits P (workerImages ip cli).
Proof. unfold workerImages. emit. Qed.
#[export] Instance leaves_pullImage cli name : Emits P (pullImage cli name).
Proof. unfold pullImage. emit. Qed.
#[export] Instance leaves_acquire c : Emits P (acquirePreloadPull c).
Proof. unfold acquirePreloadPull. emit. Qed.
#[export] Instance leaves_pullAll updates c ip cli names tried failed s : Emits P (pullAll updates c ip cli names tried failed s).
Proof. revert tried failed s. induction names; intros; simpl; emit. Qed.
Lemma leaves_removeWorkerImage ip cli ref : ref <> x -> Emits P (removeWorkerImage ip cli ref).
Proof. intros Hx. unfold removeWorkerImage. emit. apply emits_docker. intros err. unfold leaves. simpl. congruence. Qed.
Lemma leaves_markStale ip cli tag s : tag <> x -> Emits P (markStale ip cli tag s).
Proof. intros Hx. pose proof (leaves_removeWorkerImage ip cli tag Hx). unfold markStale. emit. Qed.
Lemma leaves_removeTags c ip cli tags s : x ∉ tags -> Emits P (removeTags c ip cli tags s).
Proof.
  revert s. induction tags as [|tag tags IH]; intros s Hx; simpl; [apply _|].
  apply not_elem_of_cons in Hx as [Hx Htags].
  pose proof (fun s => IH s Htags). pose proof (leaves_removeWorkerImage ip cli tag (not_eq_sym Hx)).
  pose proof (fun s => leaves_markStale ip cli tag s (not_eq_sym Hx)). emit.
Qed.
End leaves.

Lemma spared_not_superseded R x d1 d2 held tried :
  spared R x d2 ->
  x ∉ superseded (if decide (t_preloads d1 = ∅) then noSets else setsOf R (t_preloads d1) (preloadRows d2)) held tried.
Proof.
  intros Hs (_ & Hn & Hr & _)%elem_of_superseded. case_decide; [by apply not_elem_of_empty in Hr|].
  destruct (setsOf_spec R (t_preloads d1) (preloadRows d2)) as (_ & H2 & _ & H4).
  rewrite H2 in Hn. apply H4 in Hr as (r & Hr & _ & E). destruct Hs as [Hs|Hs]; [done|]. by eapply Hs.
Qed.

Lemma leaves_then {A B} x (e : M A) (k : A -> M B) w b w' :
  Emits (leaves x) e -> (e ≫= k) w = (b, w') ->
  exists a w1 tr, e w = (a, w1) /\ k a w1 = (b, w') /\ W_trace w1 = W_trace w ++ tr /\ Forall (leaves x) tr.
Proof.
  intros He H. apply bind_inv in H as (a & w1 & E & H). destruct (emits_inv _ _ _ _ _ He E) as (tr & Ht & Hp). eauto 10.
Qed.

Lemma removeSuperseded_leaves updates R x c ip cli held tried s w r w' :
  Standing updates (spared R x) -> holds_of (spared R x) R (W_m w) ->
  removeSuperseded updates c ip cli held tried s w = (r, w') ->
  exists tr, W_trace w' = W_trace w ++ tr /\ Forall (leaves x) tr.
Proof.
  intros HS Hw H. unfold removeSuperseded in H. step H r1 w1 E1.
  destruct (readSets_spec updates (spared R x) R _ _ _ E1 Hw) as (Ht & _ & _ & _ & Hr). rewrite <- Ht.
  destruct r1 as [err|sets]; [apply (emits_inv _ _ _ _ _ (emits_ret _) H)|].
  destruct Hr as (d1 & d2 & _ & Hs & ->). eapply emits_inv; [|exact H].
  apply emits_bind; [by apply leaves_removeTags, spared_not_superseded|]. intros; apply _.
Qed.

(** C25. Cleanup never takes an image that launches: whatever the other requests
    write during the pass, an image that some current build launches
    throughout -- or that is of a repository no current build is of -- is never
    named in a delete the pass sends the worker, whether or not its own schema
    is preloaded and whatever fails meanwhile. *)
Theorem preload_spares updates x c wc s w b s' w' :
  let R := m_challengeRegistry (W_m w) in
  (forall n d, spared R x d -> spared R x (updates n d)) ->
  spared R x (m_db (W_m w)) ->
  preloadPass updates c wc s w = ((b, s'), w') ->
  exists tr, W_trace w' = W_trace w ++ tr /\ Forall (fun ev => ev_call ev <> ImageRemove x) tr.
Proof.
  intros R Hu%standing_spared Hs H. assert (holds_of (spared R x) R (W_m w)) as Hw by done. clearbody R.
  revert H. change (preloadPass updates c wc s w = ((b, s'), w') -> exists tr, W_trace w' = W_trace w ++ tr /\ Forall (leaves x) tr).
  unfold preloadPass. intros H. step H m w1 E1. apply getM_inv in E1 as [-> ->].
  destruct (negb _); [apply (emits_inv _ _ _ _ _ (emits_ret _) H)|].
  step H r1 w1 E1. destruct (readSets_spec updates _ R _ _ _ E1 Hw) as (Ht1 & _ & _ & Hw1 & _). rewrite <- Ht1. clear E1 Ht1 Hw.
  destruct r1 as [err|sets]; [apply (emits_inv _ _ _ _ _ (emits_ret _) H)|].
  case_decide; [apply (emits_inv _ _ _ _ _ (emits_ret _) H)|].
  apply (leaves_then x) in H as (r2 & w2 & tr2 & E2 & H & Ht2 & Hp2); [|apply _].
  pose proof (keeps_gives _ _ _ _ _ E2 Hw1) as Hw2.
  destruct r2 as [err|images]; [apply ret_inv in H as [_ ->]; eauto|].
  apply (leaves_then x) in H as (pulls & w3 & tr3 & E3 & H & Ht3 & Hp3); [|apply _].
  pose proof (keeps_gives _ _ _ _ _ E3 Hw2) as Hw3.
  apply (leaves_then x) in H as ([e s1] & w4 & tr4 & E4 & H & Ht4 & Hp4); [|apply _].
  pose proof (keeps_gives _ _ _ _ _ E4 Hw3) as Hw4.
  apply bind_inv in H as ([failed s2] & w5 & E5 & H).
  assert (exists tr5, W_trace w5 = W_trace w4 ++ tr5 /\ Forall (leaves x) tr5) as (tr5 & Ht5 & Hp5).
  { destruct e as [| |tried fl]; [apply (emits_inv _ _ _ _ _ (emits_ret _) E5)..|].
    apply bind_inv in E5 as ([unread s3] & w6 & E6 & E5). apply ret_inv in E5 as [_ ->]. by eapply removeSuperseded_leaves. }
  step H t w6 E6. apply ret_inv in H as [_ ->].
  destruct (emits_inv (leaves x) _ _ _ _ emits_now E6) as (tr6 & Ht6 & Hp6).
  exists (tr2 ++ tr3 ++ tr4 ++ tr5 ++ tr6). rewrite !Forall_app. split; [|done].
  by rewrite Ht6, Ht5, Ht4, Ht3, Ht2, <- !app_assoc.
Qed.

(** ** What a pass brings *)

(** A schema that is preloaded launches the image, as a service. *)
Definition wants (R schema x : string) (d : Db) : Prop :=
  schema ∈ t_preloads d /\
  exists r, r ∈ preloadRows d /\ pr_schema r = schema /\
    deriveDeliveryType (pr_challengeType r) (pr_portCount r) = DeliveryService /\ rowImage R r = x.

Lemma standing_wants updates R schema x :
  (forall n d, wants R schema x d -> wants R schema x (updates n d)) -> Standing updates (wants R schema x).
Proof.
  intros H. split; [|done]. intros d d' E [H1 H2]. split; [by injection E as _ _ _ _ _ _ <-|].
  by rewrite <- (preloadRows_catalogue _ _ E).
Qed.
Lemma wants_sets R schema x d1 d2 :
  wants R schema x d1 -> wants R schema x d2 ->
  let sets := if decide (t_preloads d1 = ∅) then noSets else setsOf R (t_preloads d1) (preloadRows d2) in
  x ∈ ps_wanted sets /\ x ∈ ps_named sets /\ ps_schemas sets <> ∅.
Proof.
  intros [H1 _] (_ & r & Hr & <- & Hd & Hx) sets. subst sets. rewrite decide_False by set_solver.
  destruct (setsOf_spec R (t_preloads d1) (preloadRows d2)) as (E1 & H2 & H3 & _).
  rewrite H2, H3, E1. split_and!; [by exists r|by exists r|set_solver].
Qed.

Lemma swap_perm i j l : swap i j l ≡ₚ l.
Proof.
  unfold swap. destruct (l !! i) as [x|] eqn:Ei; [|done]. destruct (l !! j) as [y|] eqn:Ej; [|done].
  by apply Permutation_insert_swap.
Qed.
Lemma shuffleFrom_spec i l w l' w' :
  shuffleFrom i l w = (l', w') -> l' ≡ₚ l /\ W_m w' = W_m w /\ W_o w' = W_o w /\ W_trace w' = W_trace w.
Proof.
  revert l w. induction i as [|i IH]; intros l w H; simpl in H; [by apply ret_inv in H as [-> ->]|].
  step H j w1 E1. apply IH in H as (-> & -> & -> & ->). rewrite swap_perm. revert E1. run. by intros; simplify_eq/=.
Qed.
Lemma shuffle_spec l w l' w' :
  shuffle l w = (l', w') -> l' ≡ₚ l /\ W_m w' = W_m w /\ W_o w' = W_o w /\ W_trace w' = W_trace w.
Proof. apply shuffleFrom_spec. Qed.

#[export] Instance extends_removeTags c ip cli tags s : Emits (fun _ => True) (removeTags c ip cli tags s).
Proof. revert s. induction tags; intros; simpl; unfold removeWorkerImage, markStale, removeWorkerImage, notePreloadError; emit. Qed.

Lemma markStale_held ip cli tag s x w r w' :
  markStale ip cli tag s w = (r, w') -> tag <> x -> x ∈ st_held s -> x ∈ st_held r.2.
Proof.
  unfold markStale. destruct (isStale tag); [by intros [-> _]%ret_inv|]. intros H Ht Hx.
  step H r1 w1 E1. step H r2 w2 E2. apply ret_inv in H as [-> _]. destruct r2; simpl; set_solver.
Qed.
Lemma removeTags_held c ip cli tags s x w s' w' :
  removeTags c ip cli tags s w = (s', w') -> x ∉ tags -> x ∈ st_held s -> x ∈ st_held s'.
Proof.
  revert s w. induction tags as [|tag tags IH]; intros s w H Hx Hs; simpl in H; [by apply ret_inv in H as [-> ->]|].
  apply not_elem_of_cons in Hx as [Hx Htags]. step H m w1 E1. destruct (negb _); [by apply ret_inv in H as [-> ->]|].
  step H r w2 E2. apply bind_inv in H as ([err s1] & w3 & E3 & H).
  assert (x ∈ st_held s1) as Hs1.
  { destruct r as [e|]; [destruct (IsConflict e)|]; [by apply (markStale_held _ _ _ _ x) in E3| |];
      apply ret_inv in E3 as [E3 _]; simplify_eq/=; set_solver. }
  destruct err as [e|]; [destruct (errors_Is e DeadlineExceeded)|]; [by apply ret_inv in H as [-> ->]|by eapply IH..].
Qed.

Section brings.
Context (updates : nat -> Db -> Db) (R schema x : string) {HS : Standing updates (wants R schema x)}.
Local Abbreviation Ok := (holds_of (wants R schema x) R).

Lemma acquire_refused c w w' : acquirePreloadPull c w = (false, w') -> preloadable (W_m w') c = false.
Proof.
  unfold acquirePreloadPull. run. intros H. injection H as H <-. destruct (o_slot _ _); [done|..];
    simpl; unfold connGone, preloadable in *; apply negb_false_iff in H; simpl in H; by case_match; rewrite ?H.
Qed.

(** How the pulls end: they stopped at a conn that does not preload, they
    ended early, or the image was held before, was pulled, or failed. *)
Lemma pullAll_brings c ip cli names tried failed s w e s' w' :
  pullAll updates c ip cli names tried failed s w = ((e, s'), w') -> Ok (W_m w) ->
  exists tr, W_trace w' = W_trace w ++ tr /\ W_o w' = W_o w /\ (x ∈ st_held s -> x ∈ st_held s') /\
    match e with
    | PullsStopped => preloadable (W_m w') c = false
    | PullsUnread => True
    | PullsDone _ b => b = false -> failed = false /\
        (x ∈ names -> x ∈ st_held s' /\ mkEvent (Some cli) (ImagePull x) None ∈ tr)
    end.
Proof.
  revert tried failed s w. induction names as [|y names IH]; intros tried failed s w H Hw; simpl in H.
  { apply ret_inv in H as [[= -> ->] ->]. exists []. rewrite app_nil_r. split_and!; [done..|]. intros ->.
    split; [done|]. by intros ?%not_elem_of_nil. }
  step H got w1 E1. pose proof (keeps_gives _ _ _ _ _ E1 Hw) as Hw1.
  assert (W_trace w1 = W_trace w /\ W_o w1 = W_o w) as [Ht1 Ho1].
  { clear -E1. revert E1. unfold acquirePreloadPull. run. by intros; simplify_eq/=. }
  rewrite <- Ht1, <- Ho1. clear Ht1 Ho1.
  destruct got; simpl in H.
  2:{ apply ret_inv in H as [[= -> ->] ->]. exists []. rewrite app_nil_r. split_and!; [done..|]. by eapply acquire_refused. }
  step H m w1' E. apply getM_inv in E as [-> ->]. destruct (preloadable (W_m w1) c) eqn:Ep; simpl in H.
  2:{ apply ret_inv in H as [[= -> ->] ->]. exists []. by rewrite app_nil_r. }
  step H r2 w2 E2. destruct (readSets_spec updates _ R _ _ _ E2 Hw1) as (Ht2 & Ho2 & _ & Hw2 & Hr2). rewrite <- Ht2, <- Ho2.
  destruct r2 as [err|sets].
  { apply ret_inv in H as [[= -> ->] ->]. exists []. by rewrite app_nil_r. }
  destruct Hr2 as (d1 & d2 & Hd1 & Hd2 & Hsets). pose proof (wants_sets _ _ _ _ _ Hd1 Hd2) as (Hx & _). rewrite <- Hsets in Hx.
  clear Hsets. case_decide as Hy.
  { destruct (IH _ _ _ _ H Hw2) as (tr & Ht & Ho & Hh & He). exists tr. split_and!; [done..|]. destruct e; try done.
    intros Hb. destruct (He Hb) as [-> Hn]. split; [done|]. intros [->|Hxn]%elem_of_cons; [done|auto]. }
  step H r3 w3 E3. pose proof (keeps_gives _ _ _ _ _ E3 Hw2) as Hw3.
  assert (exists err, W_trace w3 = W_trace w2 ++ [mkEvent (Some cli) (ImagePull y) err] /\ W_o w3 = W_o w2 /\
            (r3 = inr tt <-> err = None)) as (err & Ht3 & Ho3 & Hr3).
  { clear -E3. unfold pullImage in E3. step E3 r w0 E0. apply docker_result in E0 as (err & Ht & -> & Ho & _). exists err.
    destruct err as [err|]; [destruct (_ || _)|]; apply ret_inv in E3 as [-> ->]; done. }
  destruct r3 as [err3|[]].
  - step H u w4 E4. pose proof (keeps_gives _ _ _ _ _ E4 Hw3) as Hw4.
    assert (W_trace w4 = W_trace w3 /\ W_o w4 = W_o w3) as [Ht4 Ho4].
    { clear -E4. revert E4. unfold notePreloadError. destruct (_ || _); [by intros [_ ->]%ret_inv|].
      unfold noteTransport. run. by intros; simplify_eq/=. }
    destruct (IH _ _ _ _ H Hw4) as (tr & Ht & Ho & Hh & He). eexists (_ :: tr). rewrite Ht, Ht4, Ht3, <- app_assoc. simpl.
    split_and!; [done|congruence|by intros ?; apply Hh; simpl; set_solver|]. destruct e; try done. intros Hb. by destruct (He Hb).
  - destruct (IH _ _ _ _ H Hw3) as (tr & Ht & Ho & Hh & He). eexists (_ :: tr). rewrite Ht, Ht3, <- app_assoc. simpl.
    split_and!; [done|congruence|by intros ?; apply Hh; simpl; set_solver|]. destruct e; try done. intros Hb.
    destruct (He Hb) as [-> Hn]. split; [done|]. intros [->|Hxn]%elem_of_cons.
    + split; [apply Hh; simpl; set_solver|]. rewrite (proj1 Hr3 eq_refl). by left.
    + destruct (Hn Hxn). split; [done|]. by right.
Qed.
End brings.

Lemma workerImages_spec ip cli w r w' :
  workerImages ip cli w = (r, w') ->
  W_o w' = W_o w /\ (exists tr, W_trace w' = W_trace w ++ tr) /\
  (forall images, r = inr images -> exists n, images = o_images (W_o w) n).
Proof.
  unfold workerImages. intros H. step H r1 w1 E1. apply docker_result in E1 as (err & Ht & -> & Ho & _).
  destruct err as [err|].
  - step H u w2 E2. apply ret_inv in H as [-> ->].
    assert (W_trace w2 = W_trace w1 /\ W_o w2 = W_o w1) as [Ht2 Ho2].
    { clear -E2. revert E2. unfold notePreloadError. destruct (_ || _); [by intros [_ ->]%ret_inv|].
      unfold noteTransport. run. by intros; simplify_eq/=. }
    split_and!; [congruence|eexists; by rewrite Ht2|done].
  - revert H. run. intros; simplify_eq/=. split_and!; [done|by eexists|]. intros images [= <-]. exists (W_tick w1). by rewrite Ho.
Qed.

(** C26. A pass that reports no failure and ends with the worker still
    reachable has brought what it had to: an image that a preloaded schema
    launches throughout the pass -- whatever else the other requests write --
    is counted as held by the worker, and really is there: the worker listed it
    when the pass began, or the pass pulled it and the pull succeeded. *)
Theorem preload_brings updates schema x c wc s w s' w' :
  let R := m_challengeRegistry (W_m w) in
  (forall n d, wants R schema x d -> wants R schema x (updates n d)) ->
  wants R schema x (m_db (W_m w)) ->
  preloadPass updates c wc s w = ((false, s'), w') ->
  preloadable (W_m w') c = true ->
  x ∈ st_held s' /\
  ((exists n, x ∈ heldTags (o_images (W_o w) n)) \/
   exists tr, W_trace w' = W_trace w ++ tr /\ mkEvent (Some (w_cli wc)) (ImagePull x) None ∈ tr).
Proof.
  intros R Hu%standing_wants Hs H Hend. assert (holds_of (wants R schema x) R (W_m w)) as Hw by done. clearbody R.
  revert H. unfold preloadPass. intros H. step H m w1 E1. apply getM_inv in E1 as [-> ->].
  destruct (preloadable (W_m w) c) eqn:Hp; simpl in H; [|apply ret_inv in H as [_ ->]; congruence].
  step H r1 w1 E1. destruct (readSets_spec updates _ R _ _ _ E1 Hw) as (Ht1 & Ho1 & _ & Hw1 & Hr1). rewrite <- Ht1, <- Ho1. clear E1 Ht1 Ho1 Hw.
  destruct r1 as [err|sets]; [by apply ret_inv in H as [? _]|].
  destruct Hr1 as (d1 & d2 & Hd1 & Hd2 & Hsets). destruct (wants_sets _ _ _ _ _ Hd1 Hd2) as (Hx & _ & Hn).
  rewrite <- Hsets in Hx, Hn. clear Hsets Hd1 Hd2 d1 d2. rewrite decide_False in H by done.
  step H r2 w2 E2. pose proof (keeps_gives _ _ _ _ _ E2 Hw1) as Hw2.
  destruct (workerImages_spec _ _ _ _ _ E2) as (Ho2 & (tr2 & Ht2) & Hi2).
  destruct r2 as [err|images]; [by apply ret_inv in H as [? _]|]. destruct (Hi2 images eq_refl) as [n ->].
  step H pulls w3 E3. pose proof (keeps_gives _ _ _ _ _ E3 Hw2) as Hw3. apply shuffle_spec in E3 as (Hpulls & _ & Ho3 & Ht3).
  apply bind_inv in H as ([e s1] & w4 & E4 & H). pose proof (keeps_gives _ _ _ _ _ E4 Hw3) as Hw4.
  destruct (pullAll_brings updates R schema x _ _ _ _ _ _ _ _ _ _ _ E4 Hw3) as (tr4 & Ht4 & Ho4 & Hh4 & He).
  apply bind_inv in H as ([failed s2] & w5 & E5 & H). step H t w6 E6. apply ret_inv in H as [[= <- ->] ->].
  assert (W_m w6 = W_m w5 /\ W_trace w6 = W_trace w5) as [Hm6 Ht6] by (revert E6; run; by intros; simplify_eq/=).
  destruct e as [| |tried fl]; [apply ret_inv in E5 as [_ ->]; congruence|by apply ret_inv in E5 as [[= _] _]|].
  apply bind_inv in E5 as ([unread s3] & w7 & E7 & E5). apply ret_inv in E5 as [[= Hfl ->] ->].
  symmetry in Hfl. apply orb_false_iff in Hfl as [-> ->]. destruct (He eq_refl) as [_ Hpull].
  unfold removeSuperseded in E7. apply bind_inv in E7 as (r7 & w8 & E8 & E7).
  destruct (readSets_spec updates _ R _ _ _ E8 Hw4) as (Ht8 & _ & _ & _ & Hr8).
  destruct r7 as [err|sets7]; [by apply ret_inv in E7 as [? _]|]. destruct Hr8 as (d1 & d2 & Hd1 & Hd2 & Hsets).
  apply bind_inv in E7 as (s4 & w9 & E9 & E7). apply ret_inv in E7 as [[= ->] ->].
  destruct (emits_inv _ _ _ _ _ (extends_removeTags _ _ _ _ _) E9) as (tr9 & Ht9 & _).
  assert (x ∈ st_held s1 -> x ∈ st_held s4) as Hh9.
  { intros. eapply removeTags_held; [exact E9| |done]. intros (_ & Hn7 & _)%elem_of_superseded. apply Hn7.
    destruct (wants_sets _ _ _ _ _ Hd1 Hd2) as (_ & ? & _). by rewrite Hsets. }
  destruct (decide (x ∈ heldTags (o_images (W_o w1) n))) as [Hin|Hout].
  - split; [apply Hh9, Hh4; exact Hin|eauto].
  - destruct Hpull as [Hheld Hev].
    { rewrite Hpulls. unfold missing. rewrite elem_of_sorted. set_solver. }
    split; [by apply Hh9|]. right. exists (tr2 ++ tr4 ++ tr9). split; [|set_solver].
    by rewrite Ht6, Ht9, Ht8, Ht4, Ht3, Ht2, <- !app_assoc.
Qed.

(** ** Stale tags are found again *)

(** The hosts on record are stage names ([validHostName]). *)
Definition hosts_plain (l : list preloadRow) : Prop := Forall (fun r => all_chars tagChar (pr_host r) = true) l.
#[export] Instance hosts_plain_dec l : Decision (hosts_plain l).
Proof. unfold hosts_plain. apply _. Defined.

(** An image in use keeps a name the cleanup finds: the stale tag of a
    superseded image is recognised as stale (and so never marked twice), which
    a build's own tag never is; it stays in the image's repository and is no
    build's image, so a later pass that lists it takes it for superseded as
    soon as the repository's wanted images are held or were tried, the challenge
    being preloaded still. *)
Theorem staleTag_collected registry schemas l c seed sum host held tried :
  all_chars tagChar host = true -> hosts_plain l ->
  let ref := image_tag registry c seed sum host in
  let sets := setsOf registry schemas l in
  isStale ref = false /\ isStale (staleTag ref) = true /\ imageRepo (staleTag ref) = imageRepo ref /\
  (staleTag ref ∈ superseded sets held tried <->
   staleTag ref ∈ held /\ imageRepository registry c ∈ ps_repos sets /\
   (forall name, name ∈ ps_wanted sets -> imageRepo name = imageRepository registry c -> name ∈ held \/ name ∈ tried)).
Proof.
  intros Hh Hl ref sets. destruct (stale_kept registry c seed sum host Hh) as (H1 & H2 & H3 & H4 & H5). fold ref in H1, H2, H3, H4, H5.
  split_and!; [done..|congruence|]. rewrite elem_of_superseded, H4. enough (staleTag ref ∉ ps_named sets) by tauto.
  destruct (setsOf_spec registry schemas l) as (_ & Hn & _). intros (r & Hr & E)%Hn.
  unfold hosts_plain in Hl. rewrite Forall_forall in Hl. eapply H5; [exact (Hl r Hr)|]. symmetry. exact E.
Qed.

(** ** Ending a preload *)

Definition setsNow (R : string) (d : Db) : preloadSets :=
  if decide (t_preloads d = ∅) then noSets else setsOf R (t_preloads d) (preloadRows d).
(** Nobody else writes: updates are serialized. *)
Definition alone (n : nat) (d : Db) : Db := d.

Lemma elem_of_released before after x :
  x ∈ releasedImages before after <->
  x ∈ ps_wanted before /\ x ∉ ps_wanted after /\ forall held tried, x ∉ superseded after held tried.
Proof.
  unfold releasedImages. rewrite elem_of_sorted, elem_of_filter. split.
  - intros [H1 H2]. split_and!; [done|tauto|]. intros held tried (_ & H3 & H4 & _)%elem_of_superseded. tauto.
  - intros (H1 & H2 & H3). split; [|done]. intros [?|[H4 H5]]; [done|].
    apply (H3 {[x]} (ps_wanted after)), elem_of_superseded. split_and!; [set_solver|done..|auto].
Qed.

Lemma readSets_alone w r w' :
  readSets alone w = (r, w') ->
  W_m w' = W_m w /\ W_o w' = W_o w /\ W_trace w' = W_trace w /\
  match r with inl err => exists n, o_db (W_o w) n = Some err | inr sets => sets = setsNow (m_challengeRegistry (W_m w)) (m_db (W_m w)) end.
Proof.
  intros H. pose proof (same_db (W_m w)) as Hm. revert H. unfold readSets, meanwhile, setsNow. run. simpl. unfold alone.
  destruct (o_db _ _) eqn:E; simpl; [intros; simplify_eq/=; rewrite Hm; split_and!; [done..|by eexists]|].
  case_decide as E1; [intros; simplify_eq/=; by rewrite Hm|]. simpl.
  destruct (o_db _ (S (S (S _)))) eqn:E2; intros; simplify_eq/=; rewrite Hm; split_and!; try done. by eexists.
Qed.

(** Ending a preload takes it alone off the records and answers with
    exactly the images that leave corkd's care: those preloading wanted and
    that from now on no pass pulls and no pass removes, whatever the worker
    holds.  A preload that is not there is an error of its own; any error has
    left the records as they were, unless only the last reading failed. *)
Theorem RemovePreload_exact schema w r w' :
  RemovePreload alone schema w = (r, w') ->
  let R := m_challengeRegistry (W_m w) in
  let before := setsNow R (m_db (W_m w)) in
  let after := setsNow R (deletePreload schema (m_db (W_m w))) in
  W_trace w' = W_trace w /\
  match r with
  | inr released =>
    schema ∈ t_preloads (m_db (W_m w)) /\ W_m w' = (W_m w) <| m_db ::= deletePreload schema |> /\
    (forall x, x ∈ released <->
       x ∈ ps_wanted before /\ x ∉ ps_wanted after /\ forall held tried, x ∉ superseded after held tried)
  | inl err =>
    (W_m w' = W_m w \/ W_m w' = (W_m w) <| m_db ::= deletePreload schema |>) /\
    ((schema ∉ t_preloads (m_db (W_m w)) /\ err = [UnknownIdentifier "preload" schema] /\ W_m w' = W_m w) \/
     exists n, o_db (W_o w) n = Some err)
  end.
Proof.
  intros H R before after. subst R before after. unfold RemovePreload, try in H. step H r1 w1 E1. apply readSets_alone in E1 as (Hm1 & Ho1 & Ht1 & Hr1).
  rewrite <- Hm1, <- Ho1 in *. rewrite <- Ht1. clear Hm1 Ho1 Ht1.
  destruct r1 as [err|sets1]; [apply ret_inv in H as [-> ->]; split_and!; [done|by left|by right]|].
  step H r2 w2 E2.
  revert E2. run. destruct (o_db _ _) as [e|] eqn:Ed; simpl; intros; simplify_eq/=; [split_and!; [done|by left|right; by eexists]|].
  case_bool_decide as Hin.
  - apply bind_inv in H as (r3 & w3 & E3 & H). apply readSets_alone in E3 as (Hm3 & Ho3 & Ht3 & Hr3). simpl in *.
    destruct r3 as [err|sets3]; simplify_eq/=.
    + split_and!; [done|by right|right]. exact Hr3.
    + split_and!; [done..|]. intros x. apply elem_of_released.
  - simplify_eq/=. assert (deletePreload schema (m_db (W_m w1)) = m_db (W_m w1)) as Hd.
    { unfold deletePreload. assert (t_preloads (m_db (W_m w1)) ∖ {[schema]} = t_preloads (m_db (W_m w1))) as E by set_solver.
      destruct (m_db (W_m w1)). cbn in *. by rewrite E. }
    split; [done|]. split; [by right|]. left. split_and!; [done..|]. rewrite Hd. apply same_db.
Qed.

(** ** Starting a preload, and when a failing pass goes again *)

Lemma kickPreloads_kicks m ip c w :
  lookupWorker m ip = Some (c, w) -> w_ip w = ip ->
  m_conns (kickPreloads m) !! c = Some (w <| w_preloadNow := true |>).
Proof.
  intros [Hw Hc]%lookupWorker_spec <-. unfold kickPreloads. simpl. rewrite map_lookup_imap, Hc. simpl. by rewrite decide_True.
Qed.

(** A preload starts only with a registry to pull from and for a schema that
    exists; once it is recorded, every registered worker is asked for a pass,
    and nothing else has changed.  An error has changed nothing. *)
Theorem AddPreload_spec schema w r w' :
  AddPreload schema w = (r, w') ->
  match r with
  | inr _ =>
    m_challengeRegistry (W_m w) <> ""%string /\ W_m w' = kickPreloads ((W_m w) <| m_db ::= insertPreload schema |>) /\
    (exists k b, t_builds (m_db (W_m w)) !! k = Some b /\ b_schema b = schema)
  | inl _ => W_m w' = W_m w
  end.
Proof.
  unfold AddPreload. intros H. step H m w1 E. apply getM_inv in E as [-> ->].
  case_decide as HR; [by apply ret_inv in H as [-> ->]|]. unfold try in H. step H r1 w1 E1.
  unfold schemaExists in E1. apply sqlRead_inv in E1 as (Hm1 & _ & _ & Hr1).
  destruct r1 as [err|[]]; [by apply ret_inv in H as [-> ->]| |by apply ret_inv in H as [-> ->]].
  revert H. run. destruct (o_db _ _); simpl; intros; simplify_eq/=; [done|]. rewrite Hm1.
  split_and!; [done..|]. symmetry in Hr1. apply bool_decide_eq_true in Hr1. destruct (buildsWhere _ _) as [|k l] eqn:El; [done|].
  assert (k ∈ k :: l) as Hk by left. rewrite <- El in Hk. apply elem_of_buildsWhere in Hk as (b & Hb & Hs).
  exists k, b. split; [done|]. by apply bool_decide_eq_true in Hs.
Qed.

Lemma nextRetry_bounds failed retryIn :
  preloadRetryAfter <= retryIn <= preloadSweepInterval ->
  preloadRetryAfter <= nextRetry failed retryIn <= preloadSweepInterval.
Proof. unfold nextRetry, preloadRetryAfter, preloadSweepInterval. destruct failed; lia. Qed.
(** However its passes go, a preloader retries a failed one no sooner than the
    first delay and no later than the sweep. *)
Theorem preloadLoop_retry updates n c wc retryIn s w r s' w' :
  preloadRetryAfter <= retryIn <= preloadSweepInterval ->
  preloadLoop updates n c wc retryIn s w = ((r, s'), w') -> preloadRetryAfter <= r <= preloadSweepInterval.
Proof.
  revert retryIn s w. induction n as [|n IH]; intros retryIn s w Hr H; simpl in H; [by apply ret_inv in H as [[= -> ->] _]|].
  apply bind_inv in H as ([failed s1] & w1 & E1 & H). pose proof (nextRetry_bounds failed retryIn Hr) as Hn.
  step H ops w2 E2. step H u w3 E3. step H m w4 E4. destruct (connGone m c); [by apply ret_inv in H as [[= -> ->] _]|].
  step H u' w5 E5. by eapply IH.
Qed.
(** [k] failures in a row double it [k] times, up to the sweep. *)
Lemma retry_doubles k : Nat.iter k (nextRetry true) preloadRetryAfter = Z.min (preloadRetryAfter * 2 ^ Z.of_nat k) preloadSweepInterval.
Proof.
  induction k as [|k IH]; [done|]. simpl Nat.iter. rewrite IH, Nat2Z.inj_succ, Z.pow_succ_r by lia.
  unfold nextRetry, preloadRetryAfter, preloadSweepInterval. lia.
Qed.

(** ** Witnesses *)

(** The small system with its schema preloaded; the worker holds the image of
    the generation before, which a container still uses. *)
Definition old_image : string := "registry.example:5000/web:s42-4-web".
Definition new_image : string := "registry.example:5000/web:s42-5-web".
Definition preloading (o : Oracle) : World :=
  (demo_world o) <| W_m ::= (fun m => m <| m_db ::= insertPreload "event" |>) |>.
Definition holding : Oracle := calm
  <| o_images := fun _ => [[old_image]] |>
  <| o_docker := fun n c => match c with ImageRemove x => if decide (x = old_image /\ (n < 21)%nat) then Some [Conflict] else None | _ => None end |>.
Definition first_conn : workerConn := default (newWorkerConn 0 0 "" "" false 1) (m_conns two_workers !! 0%nat).

Lemma spared_new d : preloadRows d = preloadRows (m_db (W_m (preloading holding))) -> spared "registry.example:5000" new_image d.
Proof. intros E. left. rewrite E. eexists. split; [by left|]. reflexivity. Qed.

(** The pass pulls the new generation, is refused the old one's delete, and
    marks it. *)
Example preload_pass_run :
  (fun ev => (ev_call ev, ev_err ev)) <$> W_trace (preloadPass alone 0 first_conn newStatus (preloading holding)).2 =
  [(ImageList, None); (ImagePull new_image, None); (ImageRemove old_image, Some [Conflict]);
   (ImageTag old_image "registry.example:5000/web:stale-s42-4-web", None); (ImageRemove old_image, None)].
Proof. vm_compute. reflexivity. Qed.

Lemma preload_spares_witness :
  exists b s' w' tr, preloadPass alone 0 first_conn newStatus (preloading holding) = ((b, s'), w') /\
    W_trace w' = tr /\ Forall (fun ev => ev_call ev <> ImageRemove new_image) tr /\
    exists ev, ev ∈ tr /\ ev_call ev = ImageRemove old_image.
Proof.
  destruct (preloadPass alone 0 first_conn newStatus (preloading holding)) as [[b s'] w'] eqn:E.
  destruct (preload_spares alone new_image 0 first_conn newStatus (preloading holding) b s' w') as (tr & Ht & Hp).
  - by intros n d.
  - by apply spared_new.
  - exact E.
  - assert (W_trace (preloading holding) = []) as H0 by (vm_compute; reflexivity). rewrite H0 in Ht. clear H0.
    pose proof preload_pass_run as Hr. rewrite E in Hr. cbn [snd] in Hr. rewrite Ht in Hr. clear E.
    exists b, s', w', tr. split_and!; [done..|].
    destruct tr as [|? [|? [|ev tr]]]; [discriminate Hr..|]. injection Hr as _ _ _ _ Hc _ _.
    exists ev. split; [by right; right; left|done].
Defined.

Lemma preload_brings_witness :
  exists s' w', preloadPass alone 0 first_conn newStatus (preloading holding) = ((false, s'), w') /\ new_image ∈ st_held s'.
Proof.
  assert ((fun p => (p.1.1, preloadable (W_m p.2) 0)) (preloadPass alone 0 first_conn newStatus (preloading holding)) =
    (false, true)) as Hc by (vm_compute; reflexivity).
  destruct (preloadPass alone 0 first_conn newStatus (preloading holding)) as [[b s'] w'] eqn:E. injection Hc as -> Hp.
  exists s', w'. split; [done|].
  apply (preload_brings alone "event" new_image 0 first_conn newStatus (preloading holding) s' w').
  - by intros n d.
  - split; [vm_compute; reflexivity|]. eexists. split; [by left|]. split_and!; vm_compute; reflexivity.
  - exact E.
  - exact Hp.
Defined.

Lemma staleTag_collected_witness :
  let sets := setsOf "registry.example:5000" {["event"%string]} (preloadRows (m_db (W_m (preloading holding)))) in
  staleTag old_image ∈ superseded sets {[staleTag old_image; new_image]} ∅.
Proof.
  intros sets.
  destruct (staleTag_collected "registry.example:5000" {["event"%string]} (preloadRows (m_db (W_m (preloading holding))))
    "web" 42 4 "web" {[staleTag old_image; new_image]} ∅) as (_ & _ & _ & H).
  - reflexivity.
  - apply (bool_decide_unpack _). vm_compute. exact I.
  - apply H. split_and!; [set_solver|apply (bool_decide_unpack _); vm_compute; exact I|].
    intros name Hn _. left. assert (name = new_image) as ->; [|set_solver].
    revert name Hn. apply (bool_decide_unpack (set_Forall (fun name => name = new_image) (ps_wanted sets))). vm_compute. exact I.
Defined.

Lemma preload_deleted schema m : schema ∉ t_preloads (m_db (m <| m_db ::= deletePreload schema |>)).
Proof. simpl. set_solver. Qed.
Lemma RemovePreload_exact_witness :
  exists released w', RemovePreload alone "event" (preloading holding) = (inr released, w') /\ released = [new_image] /\
    "event"%string ∉ t_preloads (m_db (W_m w')).
Proof.
  assert ((RemovePreload alone "event" (preloading holding)).1 = inr [new_image]) as Hr by (vm_compute; reflexivity).
  destruct (RemovePreload alone "event" (preloading holding)) as [r w'] eqn:E. cbn [fst] in Hr. subst r.
  pose proof (RemovePreload_exact _ _ _ _ E) as [_ H]. exists [new_image], w'. split_and!; [done..|].
  destruct H as (_ & -> & _). apply preload_deleted.
Defined.
