(* ===== verification/Submatch.v ===== *)
(** * Submatch: regular expressions with groups

    [regexp.FindStringSubmatch] on an expression of the form [^...$]: of all the
    ways to match, Go takes the one a backtracking search finds first --
    repetition tries once more before it stops, an alternative is tried after
    the one before it fails -- and reports what each group took.  [bt] is that
    search; [Regex] has the expressions that are only asked yes or no. *)
From S2P Require Import Prelude Settings Text.

Inductive cregex :=
| CEmpty
| CClass (P : ascii -> bool)
| CSeq (a b : cregex)
| CAlt (a b : cregex)
| CStar (a : cregex)
| CGroup (n : nat) (a : cregex).
Definition CPlus (a : cregex) : cregex := CSeq a (CStar a).

(** What is gone of [s] when [rest] is left. *)
Definition consumed (s rest : string) : string := substring 0 (String.length s - String.length rest) s.
Abbreviation groups := (gmap nat string).

Fixpoint bt {A} (r : cregex) (s : string) (g : groups) (k : string -> groups -> option A) {struct r} : option A :=
  match r with
  | CEmpty => k s g
  | CClass P => match s with String c s' => if P c then k s' g else None | EmptyString => None end
  | CSeq a b => bt a s g (fun s g => bt b s g k)
  | CAlt a b => match bt a s g k with Some x => Some x | None => bt b s g k end
  | CStar a =>
    (fix again (fuel : nat) (s : string) (g : groups) : option A :=
       match fuel with
       | O => k s g
       | S fuel =>
         match bt a s g (fun s' g' => if decide (String.length s' < String.length s)%nat then again fuel s' g' else None) with
         | Some x => Some x
         | None => k s g
         end
       end) (String.length s) s g
  | CGroup n a => bt a s g (fun s' g => k s' (<[n := consumed s s']> g))
  end.
Definition atEnd (s : string) (g : groups) : option groups := if decide (s = ""%string) then Some g else None.
Definition FindStringSubmatch (r : cregex) (s : string) : option groups := bt r s ∅ atEnd.

(** ** Runs of a class *)

Fixpoint takeRun (P : ascii -> bool) (s : string) : string :=
  match s with String c s => if P c then String c (takeRun P s) else ""%string | EmptyString => ""%string end.
Fixpoint dropRun (P : ascii -> bool) (s : string) : string :=
  match s with String c s' => if P c then dropRun P s' else s | EmptyString => s end.

Lemma run_split P s : takeRun P s +:+ dropRun P s = s.
Proof. induction s as [|c s IH]; simpl; [done|]. destruct (P c); [|done]. exact (f_equal (String c) IH). Qed.
Lemma takeRun_all P s : all_chars P (takeRun P s) = true.
Proof. induction s as [|c s IH]; simpl; [done|]. destruct (P c) eqn:E; [|done]. simpl. by rewrite E, IH. Qed.
Definition startsWith (P : ascii -> bool) (s : string) : bool := match s with String c _ => P c | EmptyString => false end.
Lemma dropRun_stops P s : startsWith P (dropRun P s) = false.
Proof. induction s as [|c s IH]; simpl; [done|]. destruct (P c) eqn:E; [done|]. simpl. done. Qed.
Lemma run_app P x y : all_chars P x = true -> startsWith P y = false -> takeRun P (x +:+ y) = x /\ dropRun P (x +:+ y) = y.
Proof.
  intros Hx Hy. induction x as [|c x IH].
  - change ("" +:+ y) with y. destruct y as [|c y]; [done|]. simpl in *. by rewrite Hy.
  - simpl in Hx. apply andb_true_iff in Hx as [Hc Hx]. change (String c x +:+ y) with (String c (x +:+ y)). simpl.
    rewrite Hc. destruct (IH Hx) as [-> ->]. done.
Qed.

Lemma length_append s t : String.length (s +:+ t) = (String.length s + String.length t)%nat.
Proof. induction s as [|c s IH]; [done|]. exact (f_equal S IH). Qed.
Lemma consumed_app x y : consumed (x +:+ y) y = x.
Proof.
  unfold consumed. rewrite length_append. replace (_ + _ - _)%nat with (String.length x) by lia.
  induction x as [|c x IH]; [by destruct y|]. exact (f_equal (String c) IH).
Qed.

Section star.
Context {A : Type} (P : ascii -> bool) (g : groups) (k : string -> groups -> option A).

(** One more character is tried first. *)
Lemma bt_star_class s :
  bt (CStar (CClass P)) s g k =
  match s with
  | String c s' =>
    if P c then match bt (CStar (CClass P)) s' g k with Some x => Some x | None => k s g end else k s g
  | EmptyString => k s g
  end.
Proof.
  destruct s as [|c s]; [done|]. simpl. destruct (P c); [|done]. by rewrite decide_True by lia.
Qed.
(** It takes the whole run when the rest fails wherever the run could go on. *)
Lemma bt_star_run s :
  (forall t, startsWith P t = true -> k t g = None) -> bt (CStar (CClass P)) s g k = k (dropRun P s) g.
Proof.
  intros Hk. induction s as [|c s IH]; rewrite bt_star_class; [done|]. cbn [dropRun]. destruct (P c) eqn:E; [|done].
  rewrite IH. destruct (k (dropRun P s) g); [done|]. apply Hk. done.
Qed.
(** It takes the whole run when the rest succeeds there. *)
Lemma bt_star_greedy s x : k (dropRun P s) g = Some x -> bt (CStar (CClass P)) s g k = Some x.
Proof.
  induction s as [|c s IH]; rewrite bt_star_class; [done|]. cbn [dropRun]. destruct (P c) eqn:E; [|done].
  intros H. by rewrite (IH H).
Qed.
Lemma bt_plus_run s :
  (forall t, startsWith P t = true -> k t g = None) ->
  bt (CPlus (CClass P)) s g k = if startsWith P s then k (dropRun P s) g else None.
Proof.
  intros Hk. unfold CPlus. destruct s as [|c s]; [done|]. change (bt (CSeq (CClass P) (CStar (CClass P))) (String c s) g k)
    with (if P c then bt (CStar (CClass P)) s g k else None). cbn [startsWith dropRun]. destruct (P c); [|done]. by apply bt_star_run.
Qed.
Lemma bt_plus_greedy s x :
  startsWith P s = true -> k (dropRun P s) g = Some x -> bt (CPlus (CClass P)) s g k = Some x.
Proof.
  destruct s as [|c s]; [done|]. cbn [startsWith dropRun]. intros E H. rewrite E in H. unfold CPlus.
  change (bt (CSeq (CClass P) (CStar (CClass P))) (String c s) g k) with (if P c then bt (CStar (CClass P)) s g k else None).
  rewrite E. by apply bt_star_greedy.
Qed.
Lemma bt_plus_none s : startsWith P s = false -> bt (CPlus (CClass P)) s g k = None.
Proof. unfold CPlus. destruct s as [|c s]; [done|]. simpl. by intros ->. Qed.
End star.

(** ** Repetition in general *)

(** The search looks at its continuation only through what it answers. *)
Lemma bt_ext {A} r s g (k k' : string -> groups -> option A) :
  (forall s g, k s g = k' s g) -> bt r s g k = bt r s g k'.
Proof.
  revert s g k k'. induction r as [|P|a IHa b IHb|a IHa b IHb|a IHa|n a IHa]; intros s g k k' H; simpl.
  - apply H.
  - destruct s; [done|]. destruct (P _); [apply H|done].
  - apply IHa. intros. by apply IHb.
  - by rewrite (IHa _ _ k k'), (IHb _ _ k k').
  - generalize (String.length s) as fuel. intros fuel. revert s g. induction fuel as [|fuel IH]; intros s g; [apply H|].
    rewrite H. erewrite (IHa s g); [done|]. intros s' g'. simpl. case_decide; [apply IH|done].
  - by apply IHa.
Qed.

Section again.
Context {A : Type} (a : cregex) (k : string -> groups -> option A).
Definition again := fix again (fuel : nat) (s : string) (g : groups) : option A :=
  match fuel with
  | O => k s g
  | S fuel =>
    match bt a s g (fun s' g' => if decide (String.length s' < String.length s)%nat then again fuel s' g' else None) with
    | Some x => Some x
    | None => k s g
    end
  end.
(** A body that takes something each time needs no more fuel than there is text. *)
Context (Hprogress : forall g (k' : string -> groups -> option A), bt a "" g k' = None).
Lemma again_fuel fuel fuel' s g :
  (String.length s <= fuel)%nat -> (String.length s <= fuel')%nat -> again fuel s g = again fuel' s g.
Proof.
  revert fuel' s g. induction fuel as [|fuel IH]; intros fuel' s g H H'.
  - destruct s; [|simpl in H; lia]. destruct fuel'; [done|]. simpl. by rewrite Hprogress.
  - destruct fuel' as [|fuel'].
    + destruct s; [|simpl in H'; lia]. simpl. by rewrite Hprogress.
    + simpl. erewrite bt_ext; [done|]. intros s' g'. simpl. case_decide; [|done]. apply IH; lia.
Qed.
Lemma bt_star_unfold s g :
  bt (CStar a) s g k =
  match bt a s g (fun s' g' => if decide (String.length s' < String.length s)%nat then bt (CStar a) s' g' k else None) with
  | Some x => Some x
  | None => k s g
  end.
Proof.
  change (again (String.length s) s g = match bt a s g (fun s' g' =>
    if decide (String.length s' < String.length s)%nat then again (String.length s') s' g' else None) with Some x => Some x | None => k s g end).
  rewrite (again_fuel _ (S (String.length s))) by lia. simpl. erewrite bt_ext; [done|]. intros s' g'. simpl.
  case_decide; [|done]. apply again_fuel; lia.
Qed.
End again.

(** ** What a match means *)

(** [cmatch r w g g']: [r] matches [w], and its groups take [g] to [g']. *)
Inductive cmatch : cregex -> string -> groups -> groups -> Prop :=
| cm_empty g : cmatch CEmpty "" g g
| cm_class P c g : P c = true -> cmatch (CClass P) (String c "") g g
| cm_seq a b x y g1 g2 g3 : cmatch a x g1 g2 -> cmatch b y g2 g3 -> cmatch (CSeq a b) (x +:+ y) g1 g3
| cm_alt_l a b x g1 g2 : cmatch a x g1 g2 -> cmatch (CAlt a b) x g1 g2
| cm_alt_r a b x g1 g2 : cmatch b x g1 g2 -> cmatch (CAlt a b) x g1 g2
| cm_star_nil a g : cmatch (CStar a) "" g g
| cm_star_cons a x y g1 g2 g3 : cmatch a x g1 g2 -> cmatch (CStar a) y g2 g3 -> cmatch (CStar a) (x +:+ y) g1 g3
| cm_group n a x g1 g2 : cmatch a x g1 g2 -> cmatch (CGroup n a) x g1 (<[n := x]> g2).
#[export] Hint Constructors cmatch : cork.

Lemma append_nil_r s : s +:+ "" = s.
Proof. induction s as [|c s IH]; [done|]. exact (f_equal (String c) IH). Qed.

Lemma bt_sound {A} r s g (k : string -> groups -> option A) x :
  bt r s g k = Some x -> exists w s' g', s = w +:+ s' /\ cmatch r w g g' /\ k s' g' = Some x.
Proof.
  revert s g k. induction r as [|P|a IHa b IHb|a IHa b IHb|a IHa|n a IHa]; intros s g k H; simpl in H.
  - exists "", s, g. auto with cork.
  - destruct s as [|c s]; [done|]. destruct (P c) eqn:E; [|done]. exists (String c ""), s, g. auto with cork.
  - apply IHa in H as (w1 & s1 & g1 & -> & Ha & (w2 & s2 & g2 & -> & Hb & Hk)%IHb).
    exists (w1 +:+ w2), s2, g2. rewrite append_assoc. eauto with cork.
  - destruct (bt a s g k) eqn:E.
    + simplify_eq. apply IHa in E as (w & s' & g' & -> & Ha & Hk). eauto 10 with cork.
    + apply IHb in H as (w & s' & g' & -> & Hb & Hk). eauto 10 with cork.
  - revert H. generalize (String.length s) as fuel. intros fuel. revert s g. induction fuel as [|fuel IH]; intros s g H.
    { exists "", s, g. auto with cork. }
    destruct (bt a s g _) eqn:E.
    + simplify_eq. apply IHa in E as (w & s' & g' & -> & Ha & Hk). case_decide; [|done].
      apply IH in Hk as (w2 & s2 & g2 & -> & Hs & Hk). exists (w +:+ w2), s2, g2. rewrite append_assoc. eauto with cork.
    + exists "", s, g. auto with cork.
  - apply IHa in H as (w & s' & g' & -> & Ha & Hk). rewrite consumed_app in Hk. eauto 10 with cork.
Qed.

(** Inversions for the shapes that occur. *)
Lemma cmatch_class P w g g' : cmatch (CClass P) w g g' -> exists c, w = String c "" /\ P c = true /\ g' = g.
Proof. inversion 1; subst; eauto. Qed.
Lemma cmatch_seq a b w g g' :
  cmatch (CSeq a b) w g g' -> exists x y g1, w = x +:+ y /\ cmatch a x g g1 /\ cmatch b y g1 g'.
Proof. inversion 1; subst; eauto 10. Qed.
Lemma cmatch_group n a w g g' : cmatch (CGroup n a) w g g' -> exists g1, cmatch a w g g1 /\ g' = <[n := w]> g1.
Proof. inversion 1; subst; eauto. Qed.
Lemma cmatch_run P w g g' : cmatch (CStar (CClass P)) w g g' -> all_chars P w = true /\ g' = g.
Proof.
  remember (CStar (CClass P)) as r eqn:Er. induction 1 as [| | | | |a g|a x y g1 g2 g3 Hx _ Hy IH|]; simplify_eq; [done|].
  apply cmatch_class in Hx as (c & -> & Hc & ->). destruct (IH eq_refl) as [Hy' ->]. split; [|done].
  change (all_chars P (String c y) = true). simpl. by rewrite Hc, Hy'.
Qed.
Lemma cmatch_plus P w g g' : cmatch (CPlus (CClass P)) w g g' -> all_chars P w = true /\ w <> ""%string /\ g' = g.
Proof.
  intros (x & y & g1 & -> & (c & -> & Hc & ->)%cmatch_class & [Hy ->]%cmatch_run)%cmatch_seq.
  split_and!; [|done..]. change (all_chars P (String c y) = true). simpl. by rewrite Hc, Hy.
Qed.
