(* ===== verification/BasePins.v ===== *)
(** * BasePins: holding base images at a digest

    [cork/basepins.go].  A Dockerfile that names a base image by a tag is
    rewritten, on its way into a build context, to the digest the pin map holds
    for it; a refresh resolves every tag in use again.  Scanning and rewriting
    follow the code character by character ([fromLineRe] and [asClauseRe] are
    matched by [Submatch], [refRe] by [Regex]).

    What Unicode's tables say of texts beyond ASCII is an argument
    ([unicodeLower]). *)
From S2P Require Import Prelude Types Settings Text Regex Submatch Artifacts Queue Worker Database Fleet HostConfig Effects Ports Instances Images Docker Launch Lifecycle Builds Converge Builder HandOver Preload.
Local Open Scope Z_scope.

(** ** Texts *)

Definition isSpace (c : ascii) : bool :=
  bool_decide (c = " "%char) || bool_decide (nat_of_ascii c ∈ [9; 10; 12; 13]%nat).
Definition notSpace (c : ascii) : bool := negb (isSpace c).
Definition newline : ascii := ascii_of_nat 10.
Definition notNewline (c : ascii) : bool := negb (bool_decide (c = newline)).
Definition lowerChar (c : ascii) : ascii :=
  let n := nat_of_ascii c in if decide (65 <= n <= 90)%nat then ascii_of_nat (n + 32) else c.
Definition folds (l : ascii) (c : ascii) : bool := bool_decide (lowerChar c = l).

(** [strings.Contains], [HasSuffix], [TrimSuffix], [TrimRight] with a cutset. *)
Fixpoint Contains (s sub : string) : bool :=
  HasPrefix s sub || match s with EmptyString => false | String _ s => Contains s sub end.
Fixpoint HasSuffix (s suf : string) : bool :=
  bool_decide (s = suf) || match s with EmptyString => false | String _ s => HasSuffix s suf end.
Fixpoint TrimSuffix (s suf : string) : string :=
  if decide (s = suf) then ""%string else match s with EmptyString => ""%string | String c s => String c (TrimSuffix s suf) end.
Fixpoint trimRightSet (P : ascii -> bool) (s : string) : string :=
  match s with
  | EmptyString => ""%string
  | String c s =>
    let rest := trimRightSet P s in
    if bool_decide (rest = ""%string) && P c then ""%string else String c rest
  end.
Definition lineEndSpace (c : ascii) : bool := bool_decide (nat_of_ascii c ∈ [32; 9; 13]%nat).

(** What [strings.TrimSpace] takes off the front: ASCII white space and the
    UTF-8 encodings of Unicode's other spaces. *)
Definition asciiSpace (c : ascii) : bool := bool_decide (nat_of_ascii c ∈ [32; 9; 10; 11; 12; 13]%nat).
Definition space2 (c d : ascii) : bool :=
  bool_decide (nat_of_ascii c = 194%nat) && bool_decide (nat_of_ascii d ∈ [133; 160]%nat).
Definition space3 (c d e : ascii) : bool :=
  let '(c, d, e) := (nat_of_ascii c, nat_of_ascii d, nat_of_ascii e) in
  bool_decide ((c, d, e) ∈ [(225, 154, 128); (226, 129, 159); (227, 128, 128)]%nat) ||
  bool_decide ((c, d) = (226, 128)%nat) && bool_decide ((128 <= e <= 138)%nat \/ e ∈ [168; 169; 175]%nat).
Fixpoint trimSpaceLeft (s : string) : string :=
  match s with
  | EmptyString => ""%string
  | String c s1 =>
    if asciiSpace c then trimSpaceLeft s1
    else
      match s1 with
      | EmptyString => s
      | String d s2 =>
        if space2 c d then trimSpaceLeft s2
        else
          match s2 with
          | EmptyString => s
          | String e s3 => if space3 c d e then trimSpaceLeft s3 else s
          end
      end
  end.
(** [TrimSpace(line)] is empty or begins with "#": what it takes off the end
    does not matter. *)
Definition blankOrComment (line : string) : bool :=
  let trimmed := trimSpaceLeft line in bool_decide (trimmed = ""%string) || HasPrefix trimmed "#".

Fixpoint mapString (f : ascii -> ascii) (s : string) : string :=
  match s with EmptyString => ""%string | String c s => String (f c) (mapString f s) end.
Definition isASCII (c : ascii) : bool := bool_decide (nat_of_ascii c < 128)%nat.

(** [strings.EqualFold] with a lower-case ASCII word without a k: of the other
    letters only s has a third form, the long s (in UTF-8, 197 191). *)
Fixpoint EqualFold (s word : string) : bool :=
  match word, s with
  | EmptyString, EmptyString => true
  | String l word, String c s =>
    folds l c && EqualFold s word ||
    bool_decide (l = "s"%char) && bool_decide (nat_of_ascii c = 197%nat) &&
    match s with String d s => bool_decide (nat_of_ascii d = 191%nat) && EqualFold s word | EmptyString => false end
  | _, _ => false
  end.

(** ** The expressions *)
Definition cSpace : cregex := CClass isSpace.
Definition cLetter (l : ascii) : cregex := CClass (folds l).
Definition cDash : cregex := CClass (fun c => bool_decide (c = "-"%char)).
(** [(?i)^ (\s* FROM \s+) ((?: --\S+ \s+)* ) (\S+) (.* )$], without the blanks. *)
Definition cFrom : cregex :=
  CSeq (CStar cSpace) (CSeq (cLetter "f") (CSeq (cLetter "r") (CSeq (cLetter "o") (CSeq (cLetter "m") (CPlus cSpace))))).
Definition cFlag : cregex := CSeq cDash (CSeq cDash (CSeq (CPlus (CClass notSpace)) (CPlus cSpace))).
Definition fromLineRe : cregex :=
  CSeq (CGroup 1 cFrom) (CSeq (CGroup 2 (CStar cFlag)) (CSeq (CGroup 3 (CPlus (CClass notSpace))) (CGroup 4 (CStar (CClass notNewline))))).
(** [(?i)^\s+AS\s+(\S+)\s*$]; the long s is an s to Go as well. *)
Definition cLetterS : cregex :=
  CAlt (cLetter "s") (CSeq (CClass (fun c => bool_decide (nat_of_ascii c = 197%nat))) (CClass (fun c => bool_decide (nat_of_ascii c = 191%nat)))).
Definition asClauseRe : cregex :=
  CSeq (CPlus cSpace) (CSeq (cLetter "a") (CSeq cLetterS (CSeq (CPlus cSpace) (CSeq (CGroup 1 (CPlus (CClass notSpace))) (CStar cSpace))))).
(** [^[A-Za-z0-9][A-Za-z0-9._:/@-]*$] *)
Definition alnum (c : ascii) : bool := lowerAlnum (lowerChar c).
Definition refChar (c : ascii) : bool := alnum c || bool_decide (c ∈ [".";"_";":";"/";"@";"-"]%char).
Definition refRe : regex := RSeq (RClass alnum) (RStar (RClass refChar)).
Definition heredocMarker : string := "<<".

Abbreviation pinMap := (gmap string string).

Section basepins.
Context (unicodeLower : string -> string).
(** [strings.ToLower]. *)
Definition ToLower (s : string) : string := if all_chars isASCII s then mapString lowerChar s else unicodeLower s.

(** ** The scan *)
Record baseRef := mkBaseRef { br_line : Z; br_prefix : string; br_flags : string; br_ref : string; br_rest : string }.

Definition refused (line : string) : bool :=
  Contains line heredocMarker || HasSuffix (TrimSuffix (trimRightSet lineEndSpace line) "\") "<".
(** The alias of a stage, of the tail of its instruction. *)
Definition alias (rest : string) : option string := g ← FindStringSubmatch asClauseRe rest; g !! 1%nat.
Definition noteStage (rest : string) (stages : gset string) : gset string :=
  match alias rest with Some a => {[ToLower a]} ∪ stages | None => stages end.
Definition internal (stages : gset string) (ref : string) : bool :=
  bool_decide (ToLower ref ∈ stages) || EqualFold ref "scratch" || Contains ref "@" || Contains ref "$" || negb (re_match refRe ref).

Fixpoint scanFrom (i : Z) (lines : list string) (stages : gset string) (continued : bool) (out : list baseRef)
    : option (list baseRef) :=
  match lines with
  | [] => Some out
  | line :: lines =>
    if refused line then None
    else if blankOrComment line then scanFrom (i + 1) lines stages continued out
    else
      let wasContinued := continued in
      let continued := HasSuffix (trimRightSet lineEndSpace line) "\" in
      if wasContinued then scanFrom (i + 1) lines stages continued out
      else
        match FindStringSubmatch fromLineRe line with
        | None => scanFrom (i + 1) lines stages continued out
        | Some g =>
          let part n := default ""%string (g !! n) in
          let ref := part 3%nat in
          let stages := noteStage (part 4%nat) stages in
          if internal stages ref then scanFrom (i + 1) lines stages continued out
          else
            scanFrom (i + 1) lines stages continued
              (out ++ [mkBaseRef (if continued then -1 else i) (part 1%nat) (part 2%nat) ref (part 4%nat)])
        end
  end.
Definition scanFromInstructions (lines : list string) : option (list baseRef) := scanFrom 0 lines ∅ false [].

(** ** The rewrite *)
Definition refHasTag (ref : string) : bool :=
  match LastIndex ":" ref, LastIndex "/" ref with
  | Some i, Some j => bool_decide (j < i)%nat
  | Some _, None => true
  | None, _ => false
  end.
Definition refName (ref : string) : string :=
  if refHasTag ref then substring 0 (default O (LastIndex ":" ref)) ref else ref.
Definition lookupPin (pins : pinMap) (ref : string) : option string :=
  match pins !! ref with
  | Some d => Some d
  | None => if refHasTag ref then None else pins !! (ref +:+ ":latest")%string
  end.

Definition pinnedLine (f : baseRef) (digest : string) : string :=
  (br_prefix f +:+ br_flags f +:+ refName (br_ref f) +:+ "@" +:+ digest +:+ br_rest f)%string.
Definition pinOne (pins : pinMap) (acc : list string * list string) (f : baseRef) : list string * list string :=
  if decide (br_line f < 0) then acc
  else
    match lookupPin pins (br_ref f) with
    | Some digest => (<[Z.to_nat (br_line f) := pinnedLine f digest]> acc.1, acc.2 ++ [br_ref f])
    | None => acc
    end.
(** The file, the pins applied, and whether it could be read at all. *)
Definition pinDockerfile (dockerfile : string) (pins : pinMap) : string * list string * bool :=
  if decide (pins = ∅ \/ dockerfile = ""%string) then (dockerfile, [], true)
  else
    let lines := SplitOn newline dockerfile in
    match scanFromInstructions lines with
    | None => (dockerfile, [], false)
    | Some froms =>
      let '(lines, applied) := foldl (pinOne pins) (lines, []) froms in
      if decide (applied = []) then (dockerfile, [], true)
      else (String.concat (String newline "") lines, merge_sort string_le applied, true)
    end.
Definition externalBaseRefs (dockerfile : string) : gset string :=
  if decide (dockerfile = ""%string) then ∅
  else
    match scanFromInstructions (SplitOn newline dockerfile) with
    | None => ∅
    | Some froms => list_to_set (br_ref <$> froms)
    end.
End basepins.

(** [checksum], of the map in force. *)
Definition pinsChecksum (pins : pinMap) : Z :=
  if decide (pins = ∅) then 0
  else
    let h := foldl (fun h ref =>
      crcWrite (crcWrite (crcWrite (crcWrite h (bytesOf ref)) [0]) (bytesOf (default ""%string (pins !! ref)))) [10])
      crcInit (sorted (dom pins)) in
    let sum := crcSum h in
    if decide (sum = 0) then 1 else sum.

(** ** What a FROM line is *)

(** The words of a FROM instruction: blanks, FROM in any case, blanks. *)
Inductive isFrom : string -> Prop :=
| is_from sp f r o m sp' :
  all_chars isSpace sp = true -> folds "f" f = true -> folds "r" r = true -> folds "o" o = true -> folds "m" m = true ->
  all_chars isSpace sp' = true -> sp' <> ""%string ->
  isFrom (sp +:+ String f (String r (String o (String m sp')))).
Inductive isFlags : string -> Prop :=
| no_flags : isFlags ""
| a_flag tok sp rest :
  all_chars notSpace tok = true -> tok <> ""%string -> all_chars isSpace sp = true -> sp <> ""%string ->
  isFlags rest -> isFlags ("--" +:+ tok +:+ sp +:+ rest).
Definition fromGroups (p f r rest : string) : groups := <[4%nat := rest]> (<[3%nat := r]> (<[2%nat := f]> (<[1%nat := p]> ∅))).

Definition cTail : cregex := CSeq (CGroup 3 (CPlus (CClass notSpace))) (CGroup 4 (CStar (CClass notNewline))).

Lemma startsWith_app P x y : x <> ""%string -> all_chars P x = true -> startsWith P (x +:+ y) = true.
Proof. destruct x as [|c x]; [done|]. simpl. by intros _ [-> _]%andb_true_iff. Qed.
Lemma startsWith_neg P s : startsWith (fun c => negb (P c)) s = true -> startsWith P s = false.
Proof. destruct s; simpl; [done|]. by intros ->%negb_true_iff. Qed.
Lemma startsWith_space s : startsWith isSpace s = true -> startsWith notSpace s = false.
Proof. destruct s; simpl; [done|]. unfold notSpace. by intros ->. Qed.
Lemma consumed_run P s : consumed s (dropRun P s) = takeRun P s.
Proof. rewrite <- (run_split P s) at 1. apply consumed_app. Qed.
Lemma dropRun_full P s : all_chars P s = true -> dropRun P s = ""%string.
Proof. induction s as [|c s IH]; simpl; [done|]. by intros [-> ?]%andb_true_iff; auto. Qed.
Lemma all_chars_dropRun P Q s : all_chars Q s = true -> all_chars Q (dropRun P s) = true.
Proof. induction s as [|c s IH]; simpl; [done|]. intros [? ?]%andb_true_iff. destruct (P c); [auto|]. simpl. by apply andb_true_iff. Qed.

(** The reference is the whole word, the rest the rest of the line. *)
Lemma tail_none s g : startsWith notSpace s = false -> bt cTail s g atEnd = None.
Proof. intros H. unfold cTail. cbn [bt]. by apply (bt_plus_none notSpace). Qed.
Lemma tail_some s g :
  startsWith notSpace s = true -> all_chars notNewline s = true ->
  bt cTail s g atEnd = Some (<[4%nat := dropRun notSpace s]> (<[3%nat := takeRun notSpace s]> g)).
Proof.
  intros H Hn. unfold cTail. change (bt (CPlus (CClass notSpace)) s g (fun s' g0 => bt (CGroup 4 (CStar (CClass notNewline))) s' (<[3%nat := consumed s s']> g0) atEnd) = Some (<[4%nat := dropRun notSpace s]> (<[3%nat := takeRun notSpace s]> g))).
  apply bt_plus_greedy; [done|]. set (t := dropRun notSpace s). rewrite (consumed_run notSpace s : consumed s t = _).
  change (bt (CStar (CClass notNewline)) t (<[3%nat := takeRun notSpace s]> g) (fun s' g0 => atEnd s' (<[4%nat := consumed t s']> g0)) =
    Some (<[4%nat := t]> (<[3%nat := takeRun notSpace s]> g))).
  apply bt_star_greedy. rewrite dropRun_full by (by apply all_chars_dropRun).
  unfold atEnd. rewrite decide_True by done. rewrite <- (append_nil_r t) at 1. by rewrite consumed_app.
Qed.

Lemma flag_progress {A} g (k : string -> groups -> option A) : bt cFlag "" g k = None.
Proof. done. Qed.
Lemma flag_none {A} s g (k : string -> groups -> option A) :
  startsWith (fun c => bool_decide (c = "-"%char)) s = false -> bt cFlag s g k = None.
Proof. destruct s as [|c s]; [done|]. simpl. by intros ->. Qed.

(** The flags end where the word does not begin with a dash. *)
Lemma flags_parse f r rest g (k : string -> groups -> option groups) x :
  isFlags f -> (forall s g, startsWith isSpace s = true -> k s g = None) ->
  r <> ""%string -> all_chars notSpace r = true -> startsWith (fun c => bool_decide (c = "-"%char)) r = false ->
  k (r +:+ rest) g = Some x -> bt (CStar cFlag) (f +:+ r +:+ rest) g k = Some x.
Proof.
  intros Hf Hk Hr Hrs Hd Hx.
  assert (forall s g, startsWith isSpace s = true -> bt (CStar cFlag) s g k = None) as Hstar.
  { intros s g0 Hs. rewrite bt_star_unfold by apply flag_progress. rewrite flag_none; [by apply Hk|].
    destruct s as [|c s]; [done|]. simpl in *. case_bool_decide; [by subst|done]. }
  induction Hf as [|tok sp f Ht Htn Hsp Hspn Hf IH].
  - change ("" +:+ (r +:+ rest)) with (r +:+ rest). rewrite bt_star_unfold by apply flag_progress. rewrite flag_none; [done|].
    destruct r; [done|]. exact Hd.
  - rewrite bt_star_unfold by apply flag_progress. rewrite <- !append_assoc.
    set (t := f +:+ r +:+ rest) in *. set (k2 := fun s' g' => if decide _ then _ else None).
    assert (startsWith isSpace t = false) as Hts.
    { subst t. destruct Hf; [|done]. change ("" +:+ r +:+ rest) with (r +:+ rest). apply startsWith_neg. by apply startsWith_app. }
    assert (bt cFlag ("--" +:+ tok +:+ sp +:+ t) g k2 = k2 t g) as ->.
    { change (bt (CPlus (CClass notSpace)) (tok +:+ sp +:+ t) g (fun s g => bt (CPlus cSpace) s g k2) = k2 t g).
      rewrite bt_plus_run; [|by intros s Hs; apply (bt_plus_none isSpace); apply startsWith_neg].
      rewrite startsWith_app by done.
      assert (startsWith notSpace (sp +:+ t) = false) as Hn by (apply startsWith_space; by apply startsWith_app).
      destruct (run_app notSpace tok (sp +:+ t)) as [_ ->]; [done..|]. unfold cSpace. rewrite bt_plus_run.
      - rewrite startsWith_app by done. destruct (run_app isSpace sp t) as [_ ->]; done.
      - intros s Hs. subst k2. cbn beta. case_decide; [by apply Hstar|done]. }
    subst k2. cbn beta. rewrite decide_True; [by rewrite IH|]. rewrite !length_append. simpl. lia.
Qed.

Lemma from_parse p f r rest :
  isFrom p -> isFlags f -> r <> ""%string -> all_chars notSpace r = true ->
  startsWith (fun c => bool_decide (c = "-"%char)) r = false -> startsWith notSpace rest = false ->
  all_chars notNewline rest = true ->
  FindStringSubmatch fromLineRe (p +:+ f +:+ r +:+ rest) = Some (fromGroups p f r rest).
Proof.
  intros Hp Hf Hr Hrs Hd Hrest Hn. unfold FindStringSubmatch, fromLineRe.
  set (line := p +:+ f +:+ r +:+ rest). set (t := f +:+ r +:+ rest).
  set (kf := fun s' g0 => bt cTail s' (<[2%nat := consumed t s']> g0) atEnd).
  assert (all_chars notNewline r = true) as Hrn.
  { eapply all_chars_impl; [|exact Hrs]. intros c. unfold notSpace, notNewline. case_bool_decide; [by subst|done]. }
  assert (forall g, bt (CStar cFlag) t g kf = Some (<[4%nat := rest]> (<[3%nat := r]> (<[2%nat := f]> g)))) as Hflags.
  { intros g. subst t. apply flags_parse; try done.
    - intros s g0 Hs. subst kf. cbn beta. by apply tail_none, startsWith_space.
    - subst kf. cbn beta. rewrite consumed_app, tail_some; [|by apply startsWith_app|by rewrite all_chars_app, Hrn, Hn].
      by destruct (run_app notSpace r rest) as [-> ->]. }
  destruct Hp as [sp a b o m sp' Hsp Ha Hb Ho Hm Hsp' Hspn].
  change (bt cFrom line ∅ (fun s' g => bt (CSeq (CGroup 2 (CStar cFlag)) cTail) s' (<[1%nat := consumed line s']> g) atEnd) =
    Some (fromGroups (sp +:+ String a (String b (String o (String m sp')))) f r rest)).
  set (k1 := fun s' g => _). unfold cFrom, cSpace.
  assert (forall s g, startsWith isSpace s = true -> k1 s g = None) as Hk1.
  { intros s g Hs. change (k1 s g) with (bt (CStar cFlag) s (<[1%nat := consumed line s]> g)
      (fun s' g0 => bt cTail s' (<[2%nat := consumed s s']> g0) atEnd)).
    rewrite bt_star_unfold by apply flag_progress. rewrite flag_none.
    - by apply tail_none, startsWith_space.
    - destruct s as [|c s]; [done|]. simpl in *. case_bool_decide; [by subst|done]. }
  set (word := CSeq (cLetter "f") (CSeq (cLetter "r") (CSeq (cLetter "o") (CSeq (cLetter "m") (CPlus (CClass isSpace)))))).
  change (bt (CSeq (CStar (CClass isSpace)) word) line ∅ k1) with (bt (CStar (CClass isSpace)) line ∅ (fun s g => bt word s g k1)).
  assert (line = sp +:+ String a (String b (String o (String m (sp' +:+ t))))) as El.
  { subst line. by rewrite <- append_assoc. }
  rewrite bt_star_run.
  2:{ intros s Hs. destruct s as [|c s]; [done|]. simpl. unfold folds. rewrite bool_decide_eq_false_2; [done|].
      intros E. revert Hs. simpl. clear -E. destruct c as [[] [] [] [] [] [] [] []]; try done; by vm_compute. }
  assert (dropRun isSpace line = String a (String b (String o (String m (sp' +:+ t))))) as ->.
  { rewrite El. apply (run_app isSpace sp); [done|]. simpl. clear -Ha. destruct a as [[] [] [] [] [] [] [] []]; by vm_compute in Ha |- *. }
  subst word. simpl. rewrite Ha, Hb, Ho, Hm.
  change (bt (CPlus (CClass isSpace)) (sp' +:+ t) ∅ k1 = Some (fromGroups (sp +:+ String a (String b (String o (String m sp')))) f r rest)).
  rewrite bt_plus_run by (intros; by apply Hk1). rewrite startsWith_app by done.
  assert (startsWith isSpace t = false) as Hts.
  { subst t. destruct Hf; [|done]. change ("" +:+ r +:+ rest) with (r +:+ rest). apply startsWith_neg. by apply startsWith_app. }
  destruct (run_app isSpace sp' t) as [_ ->]; [done..|].
  change (k1 t ∅) with (bt (CStar cFlag) t (<[1%nat := consumed line t]> ∅) kf). rewrite Hflags.
  subst line. unfold t. by rewrite consumed_app.
Qed.

Lemma cFrom_inv w g g' : cmatch cFrom w g g' -> isFrom w /\ g' = g.
Proof.
  intros (sp & y & g1 & -> & [Hsp ->]%cmatch_run & H)%cmatch_seq.
  apply cmatch_seq in H as (? & y1 & g2 & -> & (f & -> & Hf & ->)%cmatch_class & H).
  apply cmatch_seq in H as (? & y2 & g3 & -> & (r & -> & Hr & ->)%cmatch_class & H).
  apply cmatch_seq in H as (? & y3 & g4 & -> & (o & -> & Ho & ->)%cmatch_class & H).
  apply cmatch_seq in H as (? & y4 & g5 & -> & (m & -> & Hm & ->)%cmatch_class & (Hs & Hn & ->)%cmatch_plus).
  split; [|done]. exact (is_from sp f r o m y4 Hsp Hf Hr Ho Hm Hs Hn).
Qed.
Lemma cFlags_inv w g g' : cmatch (CStar cFlag) w g g' -> isFlags w /\ g' = g.
Proof.
  remember (CStar cFlag) as r eqn:Er. induction 1 as [| | | | |a g|a x y g1 g2 g3 Hx _ Hy IH|]; simplify_eq; [split; [constructor|done]|].
  destruct (IH eq_refl) as [Hf ->]. clear IH Hy.
  apply cmatch_seq in Hx as (? & y1 & g2' & -> & (d & -> & Hd & ->)%cmatch_class & H).
  apply cmatch_seq in H as (? & y2 & g3' & -> & (d' & -> & Hd' & ->)%cmatch_class & H).
  apply cmatch_seq in H as (tok & sp & g4 & -> & (Ht & Htn & ->)%cmatch_plus & (Hs & Hn & ->)%cmatch_plus).
  apply bool_decide_eq_true in Hd as ->. apply bool_decide_eq_true in Hd' as ->. split; [|done].
  rewrite <- !append_assoc. exact (a_flag tok sp y Ht Htn Hs Hn Hf).
Qed.

Lemma from_sound line g :
  all_chars notNewline line = true -> FindStringSubmatch fromLineRe line = Some g ->
  exists p f r rest, line = p +:+ f +:+ r +:+ rest /\ isFrom p /\ isFlags f /\ r <> ""%string /\
    all_chars notSpace r = true /\ startsWith notSpace rest = false /\ g = fromGroups p f r rest.
Proof.
  intros Hn H. unfold FindStringSubmatch, fromLineRe in H.
  change (bt (CGroup 1 cFrom) line ∅ (fun s g => bt (CGroup 2 (CStar cFlag)) s g (fun s g => bt cTail s g atEnd)) = Some g) in H.
  apply bt_sound in H as (p & s1 & g1 & -> & (g1' & [Hp ->]%cFrom_inv & ->)%cmatch_group & H).
  apply bt_sound in H as (f & s2 & g2 & -> & (g2' & [Hf ->]%cFlags_inv & ->)%cmatch_group & H).
  rewrite !all_chars_app, !andb_true_iff in Hn. destruct Hn as (_ & _ & Hn).
  destruct (startsWith notSpace s2) eqn:Es; [|by rewrite tail_none in H].
  rewrite tail_some in H by done. simplify_eq. exists p, f, (takeRun notSpace s2), (dropRun notSpace s2).
  rewrite run_split. split_and!; try done.
  - intros E. destruct s2 as [|c s2]; [done|]. simpl in *. by rewrite Es in E.
  - apply takeRun_all.
  - apply dropRun_stops.
Qed.

(** ** The ends of a line *)

Lemma string_snoc s : s = ""%string \/ exists t c, s = t +:+ String c "".
Proof.
  induction s as [|c s IH]; [by left|right]. destruct IH as [->|(t & d & ->)]; [by exists "", c|]. by exists (String c t), d.
Qed.
Lemma append_nil_inv s t : s +:+ t = ""%string -> s = ""%string /\ t = ""%string.
Proof. destruct s; [intros E; split; [done|exact E]|done]. Qed.
Lemma snoc_inj s t c d : s +:+ String c "" = t +:+ String d "" -> s = t /\ c = d.
Proof.
  revert t. induction s as [|a s IH]; intros t E.
  - destruct t as [|b t]; [by injection E|]. injection E as _ E. symmetry in E. by apply append_nil_inv in E as [_ ?].
  - destruct t as [|b t]; [injection E as _ E; by apply append_nil_inv in E as [_ ?]|]. injection E as -> E. by destruct (IH _ E) as [-> ->].
Qed.
Lemma snoc_nonempty s c : s +:+ String c "" <> ""%string.
Proof. by intros [_ ?]%append_nil_inv. Qed.

Lemma HasSuffix_snoc s c d : HasSuffix (s +:+ String c "") (String d "") = bool_decide (c = d).
Proof.
  induction s as [|a s IH].
  - simpl. rewrite orb_false_r. apply bool_decide_ext. split; [by intros [= ->]|by intros ->].
  - change (bool_decide (String a (s +:+ String c "") = String d "") || HasSuffix (s +:+ String c "") (String d "") = bool_decide (c = d)).
    rewrite IH, bool_decide_eq_false_2; [done|]. intros [= _ E]. by apply snoc_nonempty in E.
Qed.
Lemma TrimSuffix_snoc s c d :
  TrimSuffix (s +:+ String c "") (String d "") = if decide (c = d) then s else s +:+ String c "".
Proof.
  induction s as [|a s IH].
  - change (("" +:+ String c "")%string) with (String c ""). simpl. destruct (decide (String c "" = String d "")) as [E|E].
    + injection E as ->. by rewrite decide_True.
    + rewrite decide_False; [done|]. by intros ->.
  - change (String a s +:+ String c "") with (String a (s +:+ String c "")). simpl. rewrite decide_False.
    + rewrite IH. by case_decide.
    + intros [= _ E]. by apply snoc_nonempty in E.
Qed.
Lemma trimRight_app P x y :
  trimRightSet P (x +:+ y) = if decide (trimRightSet P y = ""%string) then trimRightSet P x else x +:+ trimRightSet P y.
Proof.
  induction x as [|c x IH]; [change ("" +:+ y) with y; case_decide; [done|done]|].
  change (String c x +:+ y) with (String c (x +:+ y)). simpl. rewrite IH. case_decide as E; [done|].
  rewrite bool_decide_eq_false_2; [done|]. intros [_ ?]%append_nil_inv. done.
Qed.
Lemma trimRight_snoc P s c : P c = false -> trimRightSet P (s +:+ String c "") = s +:+ String c "".
Proof. intros H. rewrite trimRight_app. simpl. by rewrite H. Qed.
Lemma trimRight_head P c s : P c = false -> exists t, trimRightSet P (String c s) = String c t.
Proof. intros H. simpl. rewrite H, andb_false_r. eauto. Qed.
(** What is left begins as the text did. *)
Lemma trimRight_first P s c t : trimRightSet P s = String c t -> exists s', s = String c s'.
Proof. destruct s as [|d s]; [done|]. simpl. destruct (_ && _); [done|]. intros [= <- _]. eauto. Qed.

Lemma Contains_free x y z c :
  y <> ""%string -> all_chars (notChar c) y = true ->
  Contains (x +:+ y +:+ z) (String c (String c "")) = Contains x (String c (String c "")) || Contains z (String c (String c "")).
Proof.
  set (cc := String c (String c "")). intros Hy Hf.
  assert (forall z, Contains (y +:+ z) cc = Contains z cc) as Hyz.
  { clear Hy. intros u. induction y as [|a y IH]; [done|]. simpl in Hf. apply andb_true_iff in Hf as [Ha Hf].
    change (String a y +:+ u) with (String a (y +:+ u)). simpl. rewrite (IH Hf).
    replace (HasPrefix (String a (y +:+ u)) cc) with false; [done|]. symmetry. unfold HasPrefix. apply bool_decide_eq_false.
    simpl. unfold notChar in Ha. apply negb_true_iff, bool_decide_eq_false in Ha. rewrite decide_False by done. by intros [? ?]. }
  induction x as [|a x IH]; [exact (Hyz z)|].
  change (HasPrefix (String a (x +:+ y +:+ z)) cc || Contains (x +:+ y +:+ z) cc = HasPrefix (String a x) cc || Contains x cc || Contains z cc).
  rewrite IH, orb_assoc. f_equal. f_equal. unfold HasPrefix. apply bool_decide_ext. subst cc. simpl.
  destruct (decide (a = c)); [|done]. destruct x as [|b x].
  - destruct y as [|b y]; [done|]. simpl in *. apply andb_true_iff in Hf as [Hb _].
    unfold notChar in Hb. apply negb_true_iff, bool_decide_eq_false in Hb. by rewrite decide_False.
  - simpl. by destruct (decide (b = c)); [split; intros; eexists|].
Qed.

(** A word made of a reference's characters. *)
Definition solid (r : string) : Prop := r <> ""%string /\ all_chars refChar r = true.
Lemma refChar_plain c :
  refChar c = true -> c <> "<"%char /\ c <> "\"%char /\ lineEndSpace c = false /\ notSpace c = true.
Proof. destruct c as [[] [] [] [] [] [] [] []]; vm_compute; intros; split_and!; congruence. Qed.
Lemma solid_snoc r : solid r -> exists t c, r = t +:+ String c "" /\ refChar c = true.
Proof.
  intros [Hn Hr]. destruct (string_snoc r) as [->|(t & c & ->)]; [done|]. exists t, c. split; [done|].
  rewrite all_chars_app in Hr. apply andb_true_iff in Hr as [_ Hr]. simpl in Hr. by rewrite andb_true_r in Hr.
Qed.
Lemma solid_notSpace r : solid r -> all_chars notSpace r = true.
Proof. intros [_ Hr]. eapply all_chars_impl; [|exact Hr]. intros c Hc. by apply refChar_plain in Hc as (_ & _ & _ & ?). Qed.

Section ends.
Context (u r : string) (Hr : solid r).
Lemma trimRight_line rest :
  trimRightSet lineEndSpace (u +:+ r +:+ rest) = u +:+ r +:+ trimRightSet lineEndSpace rest.
Proof.
  destruct (solid_snoc r Hr) as (t & c & -> & (_ & _ & Hc & _)%refChar_plain).
  rewrite (append_assoc u), trimRight_app, <- (append_assoc u). case_decide as E; [|done]. rewrite E, append_nil_r.
  rewrite (append_assoc u), trimRight_snoc by done. done.
Qed.
Lemma HasSuffix_line z d : refChar d = false -> HasSuffix (u +:+ r +:+ z) (String d "") = HasSuffix z (String d "").
Proof.
  intros Hd. destruct (string_snoc z) as [->|(t & c & ->)].
  - rewrite append_nil_r. destruct (solid_snoc r Hr) as (t & c & -> & Hc). rewrite (append_assoc u), HasSuffix_snoc.
    rewrite bool_decide_eq_false_2; [done|]. intros ->. congruence.
  - rewrite (append_assoc r), (append_assoc u), !HasSuffix_snoc. done.
Qed.
Lemma TrimSuffix_line z d : refChar d = false -> TrimSuffix (u +:+ r +:+ z) (String d "") = u +:+ r +:+ TrimSuffix z (String d "").
Proof.
  intros Hd. destruct (string_snoc z) as [->|(t & c & ->)].
  - change (TrimSuffix "" (String d "")) with ""%string. rewrite append_nil_r. destruct (solid_snoc r Hr) as (t & c & -> & Hc).
    rewrite (append_assoc u), TrimSuffix_snoc. rewrite decide_False; [done|]. intros ->. congruence.
  - rewrite (append_assoc r), (append_assoc u), !TrimSuffix_snoc. case_decide; by rewrite <- ?append_assoc.
Qed.

(** The word in the middle of a line decides neither of these. *)
Lemma continued_line rest :
  HasSuffix (trimRightSet lineEndSpace (u +:+ r +:+ rest)) "\" = HasSuffix (trimRightSet lineEndSpace rest) "\".
Proof. rewrite trimRight_line. by apply HasSuffix_line. Qed.
Lemma refused_line rest :
  refused (u +:+ r +:+ rest) =
  Contains u heredocMarker || Contains rest heredocMarker || HasSuffix (TrimSuffix (trimRightSet lineEndSpace rest) "\") "<".
Proof.
  unfold refused. rewrite trimRight_line, TrimSuffix_line, HasSuffix_line by done. f_equal.
  apply (Contains_free u r rest "<"); [by destruct Hr|]. destruct Hr as [_ Ha]. eapply all_chars_impl; [|exact Ha].
  intros c (Hc & _)%refChar_plain. unfold notChar. by rewrite bool_decide_eq_false_2.
Qed.
End ends.

Lemma blank_from p s : isFrom p -> blankOrComment (p +:+ s) = false.
Proof.
  intros [sp f r o m sp' Hsp Hf _ _ _ _ _]. unfold blankOrComment.
  assert (trimSpaceLeft ((sp +:+ String f (String r (String o (String m sp')))) +:+ s) = String f (String r (String o (String m (sp' +:+ s))))) as ->.
  { rewrite <- append_assoc. change (String f (String r (String o (String m sp'))) +:+ s) with (String f (String r (String o (String m (sp' +:+ s))))).
    induction sp as [|c sp IH].
    - destruct f as [[] [] [] [] [] [] [] []]; try done; vm_compute in Hf; try done; reflexivity.
    - simpl in Hsp. apply andb_true_iff in Hsp as [Hc Hsp]. change (String c sp +:+ ?x) with (String c (sp +:+ x)).
      assert (asciiSpace c = true) as Ha by (destruct c as [[] [] [] [] [] [] [] []]; try done; vm_compute in Hc; done).
      cbn [trimSpaceLeft]. rewrite Ha. by apply IH. }
  destruct f as [[] [] [] [] [] [] [] []]; try done; vm_compute in Hf; done.
Qed.

(** ** Scanning and rewriting in one go *)

(** The digests in force are spelled like a reference ("sha256:" and hexadecimal
    digits are). *)
Definition plain_pins (pins : pinMap) : Prop := map_Forall (fun _ d => solid d) pins.
#[export] Instance plain_pins_dec pins : Decision (plain_pins pins).
Proof. unfold plain_pins, solid. apply _. Defined.

Section rewrite.
Context (unicodeLower : string -> string) (pins : pinMap).
Local Abbreviation noteStage := (noteStage unicodeLower).
Local Abbreviation internal := (internal unicodeLower).
Local Abbreviation scanFrom := (scanFrom unicodeLower).

Definition foundRef (i : Z) (continued : bool) (g : groups) : baseRef :=
  let part n := default ""%string (g !! n) in
  mkBaseRef (if continued then -1 else i) (part 1%nat) (part 2%nat) (part 3%nat) (part 4%nat).
(** What a line becomes, and the pin that applies to it. *)
Definition pinLine (line : string) (f : baseRef) : string * list string :=
  if decide (br_line f < 0) then (line, [])
  else match lookupPin pins (br_ref f) with Some digest => (pinnedLine f digest, [br_ref f]) | None => (line, []) end.

Fixpoint pinFrom (i : Z) (lines : list string) (stages : gset string) (continued : bool) : option (list string * list string) :=
  match lines with
  | [] => Some ([], [])
  | line :: lines =>
    let keep st c := prod_map (cons line) id <$> pinFrom (i + 1) lines st c in
    if refused line then None
    else if blankOrComment line then keep stages continued
    else
      let c := HasSuffix (trimRightSet lineEndSpace line) "\" in
      if continued then keep stages c
      else
        match FindStringSubmatch fromLineRe line with
        | None => keep stages c
        | Some g =>
          let f := foundRef i c g in
          let st := noteStage (br_rest f) stages in
          if internal st (br_ref f) then keep st c
          else let '(line', a) := pinLine line f in prod_map (cons line') (app a) <$> pinFrom (i + 1) lines st c
        end
  end.

(** The code scans first and rewrites what it found by its index. *)
Lemma pinOne_at pre line lines f applied :
  br_line f < 0 \/ br_line f = Z.of_nat (length pre) ->
  pinOne pins (pre ++ line :: lines, applied) f = (pre ++ (pinLine line f).1 :: lines, applied ++ (pinLine line f).2).
Proof.
  intros H. unfold pinOne, pinLine. case_decide; [by rewrite app_nil_r|]. destruct H as [?|H]; [done|].
  destruct (lookupPin pins (br_ref f)); simpl; [|by rewrite app_nil_r].
  rewrite H, Nat2Z.id, insert_app_r_alt, Nat.sub_diag by lia. done.
Qed.
Lemma scan_pin lines : forall pre stages continued out,
  match scanFrom (Z.of_nat (length pre)) lines stages continued out with
  | None => pinFrom (Z.of_nat (length pre)) lines stages continued = None
  | Some froms =>
    exists froms' lines' applied', froms = out ++ froms' /\
      pinFrom (Z.of_nat (length pre)) lines stages continued = Some (lines', applied') /\
      forall applied, foldl (pinOne pins) (pre ++ lines, applied) froms' = (pre ++ lines', applied ++ applied')
  end.
Proof.
  induction lines as [|line lines IH]; intros pre stages continued out; simpl.
  { exists [], [], []. rewrite !app_nil_r. split_and!; [done..|]. intros applied. by rewrite app_nil_r. }
  assert (forall st c out line' a f,
    let r := scanFrom (Z.of_nat (length pre) + 1) lines st c (out ++ f) in
    (forall applied, foldl (pinOne pins) (pre ++ line :: lines, applied) f = (pre ++ line' :: lines, applied ++ a)) ->
    match r with
    | None => prod_map (cons line') (app a) <$> pinFrom (Z.of_nat (length pre) + 1) lines st c = None
    | Some froms => exists froms' lines' applied', froms = out ++ froms' /\
        prod_map (cons line') (app a) <$> pinFrom (Z.of_nat (length pre) + 1) lines st c = Some (lines', applied') /\
        forall applied, foldl (pinOne pins) (pre ++ line :: lines, applied) froms' = (pre ++ lines', applied ++ applied')
    end) as Hgo.
  { intros st c out0 line' a f r Hf. subst r. specialize (IH (pre ++ [line']) st c (out0 ++ f)).
    rewrite length_app in IH. simpl in IH. replace (Z.of_nat (length pre + 1)) with (Z.of_nat (length pre) + 1) in IH by lia.
    destruct (scanFrom _ lines st c (out0 ++ f)) as [froms|].
    - destruct IH as (froms' & lines' & applied' & -> & -> & Hfold). exists (f ++ froms'), (line' :: lines'), (a ++ applied').
      rewrite app_assoc. split_and!; [done..|]. intros applied. rewrite foldl_app, Hf. specialize (Hfold (applied ++ a)).
      rewrite <- !app_assoc in Hfold. exact Hfold.
    - by rewrite IH. }
  assert (forall st c, match scanFrom (Z.of_nat (length pre) + 1) lines st c out with
    | None => prod_map (cons line) id <$> pinFrom (Z.of_nat (length pre) + 1) lines st c = None
    | Some froms => exists froms' lines' applied', froms = out ++ froms' /\
        prod_map (cons line) id <$> pinFrom (Z.of_nat (length pre) + 1) lines st c = Some (lines', applied') /\
        forall applied, foldl (pinOne pins) (pre ++ line :: lines, applied) froms' = (pre ++ lines', applied ++ applied')
    end) as Hkeep.
  { intros st c. specialize (Hgo st c out line [] []). rewrite app_nil_r in Hgo. apply Hgo. intros applied. by rewrite app_nil_r. }
  destruct (refused line); [done|]. destruct (blankOrComment line); [apply Hkeep|]. destruct continued; [apply Hkeep|].
  destruct (FindStringSubmatch fromLineRe line) as [g|]; [|apply Hkeep].
  set (c := HasSuffix _ _). set (f := foundRef (Z.of_nat (length pre)) c g).
  change (default ""%string (g !! 4%nat)) with (br_rest f). change (default ""%string (g !! 3%nat)) with (br_ref f).
  destruct (internal _ (br_ref f)); [apply Hkeep|].
  change (mkBaseRef _ _ _ _ _) with f. destruct (pinLine line f) as [line' a] eqn:El. apply Hgo. intros applied. simpl.
  rewrite pinOne_at by (subst f; simpl; destruct c; [left; lia|by right]). by rewrite El.
Qed.
End rewrite.

(** ** A pinned reference *)

Lemma refRe_spec r : re_match refRe r = true -> solid r /\ startsWith alnum r = true.
Proof.
  intros H%re_match_lang. assert (all_chars refChar r = true) as Ha.
  { apply (lang_letters refChar) in H; [done|]. simpl. split; [intros c; unfold refChar; by intros ->|done]. }
  apply seq_inv in H as (x & y & -> & Hx & _). inversion Hx as [|? c Hc| | | | |]; subst. split; [split; [done|exact Ha]|]. exact Hc.
Qed.
Lemma all_chars_substring P m n s : all_chars P s = true -> all_chars P (substring m n s) = true.
Proof.
  revert m n. induction s as [|c s IH]; intros [|m] [|n]; simpl; try done; intros [Hc ?]%andb_true_iff; rewrite ?Hc; by apply IH.
Qed.
Lemma refName_solid r : re_match refRe r = true -> solid (refName r) /\ startsWith alnum (refName r) = true.
Proof.
  intros [[Hn Ha] Hs]%refRe_spec. unfold refName. destruct (refHasTag r) eqn:Ht; [|by repeat split].
  destruct r as [|c r]; [done|]. simpl in Hs. unfold solid. unfold refHasTag in Ht. revert Ht. cbn [LastIndex].
  assert (c <> ":"%char) as Hc by (by intros ->). rewrite decide_False by done.
  destruct (LastIndex ":" r) as [i|] eqn:E.
  - intros _. cbn [default substring startsWith]. split_and!; [done| |done].
    apply (all_chars_substring refChar 0 (S i) (String c r)). done.
  - done.
Qed.
Lemma Contains_char x c y : Contains (x +:+ String c y) (String c "") = true.
Proof.
  induction x as [|a x IH].
  - change ("" +:+ String c y) with (String c y). simpl. apply orb_true_iff. left. apply HasPrefix_spec. by exists y.
  - change (String a x +:+ String c y) with (String a (x +:+ String c y)). simpl. by rewrite IH, orb_true_r.
Qed.
Lemma lookupPin_solid pins ref d : plain_pins pins -> lookupPin pins ref = Some d -> solid d.
Proof. unfold lookupPin. intros H E. repeat case_match; simplify_eq; by eapply H. Qed.
Lemma solid_app x y : solid x -> all_chars refChar y = true -> solid (x +:+ y).
Proof. intros [Hx Ha] Hy. split; [by intros [? _]%append_nil_inv|]. by rewrite all_chars_app, Ha, Hy. Qed.

Section lockstep.
Context (unicodeLower : string -> string) (pins : pinMap) (Hpins : plain_pins pins).
Local Abbreviation noteStage := (noteStage unicodeLower).
Local Abbreviation inside := (internal unicodeLower).
Local Abbreviation scans := (scanFrom unicodeLower).
Local Abbreviation pinFrom := (pinFrom unicodeLower pins).

(** One line with its reference put at a digest. *)
Definition rewrites (l l' : string) : Prop :=
  exists p f r rest d, l = p +:+ f +:+ r +:+ rest /\ l' = p +:+ f +:+ refName r +:+ "@" +:+ d +:+ rest /\
    isFrom p /\ isFlags f /\ re_match refRe r = true /\ Contains r "@" = false /\ lookupPin pins r = Some d.

Lemma internal_false st r : inside st r = false -> Contains r "@" = false /\ re_match refRe r = true.
Proof. unfold internal. intros [[[_ H]%orb_false_iff _]%orb_false_iff Hr%negb_false_iff]%orb_false_iff. done. Qed.

Lemma pinned_step i c g line st d :
  let f := foundRef i c g in
  all_chars notNewline line = true -> refused line = false -> HasSuffix (trimRightSet lineEndSpace line) "\" = c ->
  FindStringSubmatch fromLineRe line = Some g -> inside st (br_ref f) = false -> lookupPin pins (br_ref f) = Some d ->
  let line' := pinnedLine f d in
  rewrites line line' /\ refused line' = false /\ blankOrComment line' = false /\
  HasSuffix (trimRightSet lineEndSpace line') "\" = c /\
  exists g', FindStringSubmatch fromLineRe line' = Some g' /\ br_rest (foundRef i c g') = br_rest f /\
    forall st, inside st (br_ref (foundRef i c g')) = true.
Proof.
  intros f Hn Href Hc Hg Hint Hd line'. apply from_sound in Hg as (p & fl & r & rest & -> & Hp & Hfl & Hr & Hrs & Hrest & ->); [|done].
  subst f line'. unfold pinnedLine, foundRef, fromGroups in *. simpl in *. simplify_map_eq. cbn [default] in *.
  apply internal_false in Hint as [Hat Hre]. pose proof (refRe_spec r Hre) as [Hsr _]. pose proof (refName_solid r Hre) as [Hsn Hal].
  pose proof (lookupPin_solid _ _ _ Hpins Hd) as [_ Hda].
  assert (solid (refName r +:+ "@" +:+ d)) as Hs by (apply solid_app; [done|]; by rewrite all_chars_app, Hda).
  assert (p +:+ fl +:+ refName r +:+ "@" +:+ d +:+ rest = (p +:+ fl) +:+ (refName r +:+ "@" +:+ d) +:+ rest) as El by (by rewrite <- !append_assoc).
  rewrite El. rewrite (append_assoc p fl (r +:+ rest)) in Href |- *. rewrite refused_line in Href by done.
  rewrite refused_line, !continued_line by done.
  split_and!; try done.
  - exists p, fl, r, rest, d. by rewrite <- El, <- (append_assoc p fl (r +:+ rest)).
  - rewrite <- append_assoc. by apply blank_from.
  - rewrite <- append_assoc. exists (fromGroups p fl (refName r +:+ "@" +:+ d) rest). split_and!.
    + apply from_parse; try done.
      * by destruct Hs.
      * by apply solid_notSpace.
      * destruct (refName r) as [|a t]; [by destruct Hsn|]. simpl in *. case_bool_decide; [by subst|done].
      * rewrite !all_chars_app in Hn. by repeat (apply andb_true_iff in Hn as [_ Hn]).
    + unfold fromGroups. by simplify_map_eq.
    + intros st0. unfold fromGroups. simplify_map_eq. cbn [default]. unfold internal.
      change ("@" +:+ d)%string with (String "@" d). rewrite (Contains_char (refName r) "@" d), !orb_true_r. done.
Qed.

Lemma pinFrom_lines lines : forall i stages continued lines' a,
  Forall (fun l => all_chars notNewline l = true) lines ->
  pinFrom i lines stages continued = Some (lines', a) -> Forall2 (fun l l' => l' = l \/ rewrites l l') lines lines'.
Proof.
  induction lines as [|line lines IH]; intros i stages continued lines' a Hn H; simpl in H; [by simplify_eq; constructor|].
  inversion_clear Hn as [|? ? Hl Hls].
  assert (forall st c line' a', line' = line \/ rewrites line line' ->
    prod_map (cons line') a' <$> pinFrom (i + 1) lines st c = Some (lines', a) ->
    Forall2 (fun l l' => l' = l \/ rewrites l l') (line :: lines) lines') as Hgo.
  { intros st c line' a' Hr E. destruct (pinFrom _ lines st c) as [[ls a0]|] eqn:E2; simplify_eq/=. constructor; [done|]. by eapply IH. }
  destruct (refused line) eqn:Href; [done|]. destruct (blankOrComment line); [eapply Hgo; [by left|exact H]|].
  destruct continued; [eapply Hgo; [by left|exact H]|].
  destruct (FindStringSubmatch fromLineRe line) as [g|] eqn:Hg; [|eapply Hgo; [by left|exact H]].
  set (c := HasSuffix _ _) in *. set (f := foundRef i c g) in *.
  change (default ""%string (g !! 4%nat)) with (br_rest f) in H. change (default ""%string (g !! 3%nat)) with (br_ref f) in H.
  destruct (inside (noteStage (br_rest f) stages) (br_ref f)) eqn:Hint; [eapply Hgo; [by left|exact H]|].
  destruct (pinLine pins line f) as [line' a'] eqn:El. eapply Hgo; [|exact H]. unfold pinLine in El.
  case_decide; [simplify_eq; by left|]. destruct (lookupPin pins (br_ref f)) as [d|] eqn:Ed; simplify_eq; [right|by left].
  by eapply pinned_step.
Qed.

(** Scanning the result finds, of what it could rewrite, nothing that has a pin. *)
Lemma pinFrom_again lines : forall i stages continued lines' a out,
  0 <= i -> Forall (fun l => all_chars notNewline l = true) lines ->
  pinFrom i lines stages continued = Some (lines', a) ->
  exists froms, scans i lines' stages continued out = Some (out ++ froms) /\
    Forall (fun f => 0 <= br_line f -> lookupPin pins (br_ref f) = None) froms.
Proof.
  induction lines as [|line lines IH]; intros i stages continued lines' a out Hi Hn H; simpl in H.
  { simplify_eq. exists []. simpl. by rewrite app_nil_r. }
  inversion_clear Hn as [|? ? Hl Hls].
  assert (forall st c line' a' (f : list baseRef),
    prod_map (cons line') a' <$> pinFrom (i + 1) lines st c = Some (lines', a) ->
    scans i lines' stages continued out = scans (i + 1) (tail lines') st c (out ++ f) \/ lines' <> line' :: tail lines' ->
    Forall (fun f => 0 <= br_line f -> lookupPin pins (br_ref f) = None) f ->
    exists froms, scans i lines' stages continued out = Some (out ++ froms) /\
      Forall (fun f => 0 <= br_line f -> lookupPin pins (br_ref f) = None) froms) as Hgo.
  { intros st c line' a' f E Hstep Hf. destruct (pinFrom (i + 1) lines st c) as [[ls a0]|] eqn:E2; simplify_eq/=.
    destruct Hstep as [Hstep|?]; [|done]. destruct (IH (i + 1) _ _ _ _ (out ++ f) ltac:(lia) Hls E2) as (froms & Hs & Hfr).
    exists (f ++ froms). rewrite Hstep, Hs, app_assoc. split; [done|]. by apply Forall_app. }
  assert (forall l' st c line' a', prod_map (cons line') a' <$> pinFrom (i + 1) lines st c = Some (l', a) -> l' = line' :: tail l') as Htl.
  { intros l' st c line' a' E. destruct (pinFrom _ lines st c) as [[? ?]|]; by simplify_eq/=. }
  destruct (refused line) eqn:Href; [done|].
  destruct (blankOrComment line) eqn:Hb.
  { eapply (Hgo _ _ _ _ []); [exact H| |done]. left. rewrite (Htl _ _ _ _ _ H) at 1. simpl. by rewrite Href, Hb, app_nil_r. }
  destruct continued eqn:Hc.
  { eapply (Hgo _ _ _ _ []); [exact H| |done]. left. rewrite (Htl _ _ _ _ _ H) at 1. simpl. by rewrite Href, Hb, app_nil_r. }
  destruct (FindStringSubmatch fromLineRe line) as [g|] eqn:Hg.
  2:{ eapply (Hgo _ _ _ _ []); [exact H| |done]. left. rewrite (Htl _ _ _ _ _ H) at 1. simpl. by rewrite Href, Hb, Hg, app_nil_r. }
  set (c := HasSuffix _ _) in *. set (f := foundRef i c g) in *.
  change (default ""%string (g !! 4%nat)) with (br_rest f) in H. change (default ""%string (g !! 3%nat)) with (br_ref f) in H.
  destruct (inside (noteStage (br_rest f) stages) (br_ref f)) eqn:Hint.
  { eapply (Hgo _ _ _ _ []); [exact H| |done]. left. rewrite (Htl _ _ _ _ _ H) at 1. simpl. rewrite Href, Hb, Hg.
    unfold f, foundRef in Hint. simpl in Hint. by rewrite Hint, app_nil_r. }
  assert (forall line' a', prod_map (cons line') a' <$> pinFrom (i + 1) lines (noteStage (br_rest f) stages) c = Some (lines', a) ->
    line' = line -> (0 <= br_line f -> lookupPin pins (br_ref f) = None) ->
    exists froms, scans i lines' stages false out = Some (out ++ froms) /\
      Forall (fun f => 0 <= br_line f -> lookupPin pins (br_ref f) = None) froms) as Hsame.
  { intros line' a' E -> Hf. eapply (Hgo _ _ _ _ [f]); [exact E| |by constructor]. left. rewrite (Htl _ _ _ _ _ E) at 1. simpl.
    rewrite Href, Hb, Hg. unfold f, foundRef in Hint. simpl in Hint. by rewrite Hint. }
  unfold pinLine in H. destruct (decide (br_line f < 0)); [eapply Hsame; [exact H|done|lia]|].
  destruct (lookupPin pins (br_ref f)) as [d|] eqn:Ed; [|by eapply Hsame; [exact H|done|]].
  destruct (pinned_step i c g line _ d Hl Href eq_refl Hg Hint Ed) as (_ & Href' & Hb' & Hc' & g' & Hg' & Hrest & Hint').
  eapply (Hgo _ _ _ _ []); [exact H| |done]. left. rewrite (Htl _ _ _ _ _ H) at 1. cbn [scanFrom].
  fold f in Href', Hb', Hc', Hg', Hrest. rewrite Href', Hb', Hc', Hg'.
  change (default ""%string (g' !! 4%nat)) with (br_rest (foundRef i c g')). rewrite Hrest.
  change (default ""%string (g' !! 3%nat)) with (br_ref (foundRef i c g')). by rewrite Hint', app_nil_r.
Qed.
End lockstep.

Section pin.
Context (unicodeLower : string -> string) (pins : pinMap) (Hpins : plain_pins pins).
Local Abbreviation related := (fun l l' => l' = l \/ rewrites pins l l').

Lemma related_same ls : Forall2 related ls ls.
Proof. apply Forall_Forall2_diag, Forall_forall. by left. Qed.
Lemma rewrites_newline l l' : rewrites pins l l' -> all_chars notNewline l = true -> all_chars notNewline l' = true.
Proof.
  intros (p & f & r & rest & d & -> & -> & _ & _ & Hre & _ & Hd). pose proof (lookupPin_solid _ _ _ Hpins Hd) as [_ Hda].
  destruct (refName_solid r Hre) as [[_ Hna] _].
  assert (forall s, all_chars refChar s = true -> all_chars notNewline s = true) as Hs.
  { intros s. apply all_chars_impl. intros c Hc. unfold notNewline. case_bool_decide; [by subst|done]. }
  rewrite !all_chars_app, !andb_true_iff. intros (Hp & Hf & _ & Hr). split_and!; auto.
Qed.
Lemma split_lines s : Forall (fun l => all_chars notNewline l = true) (SplitOn newline s).
Proof. exact (SplitOn_sepless newline s). Qed.

(** Where no pin applies, nothing has changed. *)
Lemma pinFrom_nil lines : forall i stages continued lines',
  pinFrom unicodeLower pins i lines stages continued = Some (lines', []) -> lines' = lines.
Proof.
  induction lines as [|line lines IH]; intros i stages continued lines' H; simpl in H; [by simplify_eq|].
  assert (forall st c line' a', line' = line \/ a' <> [] ->
    prod_map (cons line') (app a') <$> pinFrom unicodeLower pins (i + 1) lines st c = Some (lines', []) -> lines' = line :: lines) as Hgo.
  { intros st c line' a' Hl E. destruct (pinFrom _ _ _ lines st c) as [[ls a0]|] eqn:E2; simplify_eq/=.
    apply app_nil in H1 as [-> ->]. destruct Hl as [->|?]; [|done]. f_equal. by eapply IH. }
  repeat case_match; simplify_eq; try (eapply (Hgo _ _ _ []); [by left|exact H]).
  eapply Hgo; [|exact H]. unfold pinLine in *. repeat case_match; simplify_eq; by auto.
Qed.

(** What the rewrite comes to. *)
Lemma pinDockerfile_cases df out applied clean :
  pinDockerfile unicodeLower df pins = (out, applied, clean) ->
  (out = df /\ applied = [] /\
   (if clean then pins = ∅ \/ df = ""%string \/ exists lines, pinFrom unicodeLower pins 0 (SplitOn newline df) ∅ false = Some (lines, []) /\ lines = SplitOn newline df
    else scanFromInstructions unicodeLower (SplitOn newline df) = None)) \/
  (clean = true /\ exists a, pinFrom unicodeLower pins 0 (SplitOn newline df) ∅ false = Some (SplitOn newline out, a) /\ a <> []).
Proof.
  unfold pinDockerfile. case_decide as He; [intros [= <- <- <-]; left; tauto|].
  pose proof (scan_pin unicodeLower pins (SplitOn newline df) [] ∅ false []) as Hs. change (Z.of_nat (length (@nil string))) with 0 in Hs.
  unfold scanFromInstructions. destruct (scanFrom unicodeLower 0 (SplitOn newline df) ∅ false []) as [froms|] eqn:E.
  2:{ intros [= <- <- <-]. by left. }
  destruct Hs as (froms' & lines & a & -> & Hp & Hfold). specialize (Hfold []). simpl in Hfold. simpl. rewrite Hfold.
  pose proof (pinFrom_lines unicodeLower pins Hpins _ _ _ _ _ _ (split_lines df) Hp) as HF.
  case_decide as Ha; intros [= <- <- <-].
  - left. split_and!; [done..|]. right. right. exists lines. subst a. split; [done|]. by eapply pinFrom_nil.
  - right. split; [done|]. exists a. split; [|done]. rewrite Hp. f_equal. f_equal. symmetry. apply SplitOn_concat.
    + intros ->. inversion HF as [E2|]. symmetry in E2. by apply SplitOn_nonempty in E2.
    + pose proof (split_lines df) as Hn. clear -HF Hn Hpins. induction HF as [|l l' ls ls' Hr HF IH]; [done|].
      inversion_clear Hn. constructor; [|by apply IH]. destruct Hr as [->|Hr]; [done|]. by eapply rewrites_newline in Hr.
Qed.
End pin.


(** Pinning is complete and settles: of the references the result still
    has on a line of their own, none has a pin, so no build resolves a tag that
    is pinned; and pinning the result again changes nothing. *)
Theorem pinDockerfile_complete unicodeLower pins df out applied :
  plain_pins pins -> pins <> ∅ -> pinDockerfile unicodeLower df pins = (out, applied, true) ->
  (exists froms, scanFromInstructions unicodeLower (SplitOn newline out) = Some froms /\
     Forall (fun f => 0 <= br_line f -> lookupPin pins (br_ref f) = None) froms) /\
  pinDockerfile unicodeLower out pins = (out, [], true).
Proof.
  intros Hpins Hne H.
  assert (exists froms, scanFromInstructions unicodeLower (SplitOn newline out) = Some froms /\
     Forall (fun f => 0 <= br_line f -> lookupPin pins (br_ref f) = None) froms) as (froms & Hs & Hf).
  { apply pinDockerfile_cases in H as [(-> & -> & [?|[->|(lines & Hp & ->)]])|(_ & a & Hp & _)]; [done|by exists []|..|done];
      exact (pinFrom_again unicodeLower pins Hpins _ _ _ _ _ _ [] ltac:(done) (split_lines df) Hp). }
  split; [by exists froms|]. unfold pinDockerfile. case_decide; [done|]. rewrite Hs.
  assert (forall acc, foldl (pinOne pins) acc froms = acc) as ->; [|done].
  clear Hs. induction Hf as [|f froms Hf _ IH]; intros acc; [done|]. simpl. rewrite IH. unfold pinOne.
  case_decide; [done|]. by rewrite Hf by lia.
Qed.

(** ** Witnesses and two corners *)
Local Open Scope string_scope.
Definition nl : string := String newline "".
Definition demo_pins : pinMap := {["ubuntu:24.04" := "sha256:aa"; "nginx:latest" := "sha256:bb"; "node:latest" := "sha256:cc"]}.
Definition demo_dockerfile : string :=
  "# syntax=docker/dockerfile:1" +:+ nl +:+ "FROM --platform=linux/amd64 ubuntu:24.04 AS base" +:+ nl +:+
  "RUN echo \" +:+ nl +:+ "FROM nginx" +:+ nl +:+ "FROM BASE" +:+ nl +:+ "from nginx".
Definition demo_pinned : string :=
  "# syntax=docker/dockerfile:1" +:+ nl +:+ "FROM --platform=linux/amd64 ubuntu@sha256:aa AS base" +:+ nl +:+
  "RUN echo \" +:+ nl +:+ "FROM nginx" +:+ nl +:+ "FROM BASE" +:+ nl +:+ "from nginx@sha256:bb".
Example demo_pins_plain : plain_pins demo_pins.
Proof. apply (bool_decide_unpack _). vm_compute. exact I. Qed.
Example demo_pins_some : demo_pins <> ∅.
Proof. apply insert_non_empty. Qed.
Example demo_pin : pinDockerfile id demo_dockerfile demo_pins = (demo_pinned, ["nginx"; "ubuntu:24.04"], true).
Proof. vm_compute. reflexivity. Qed.

Lemma pinDockerfile_complete_witness : pinDockerfile id demo_pinned demo_pins = (demo_pinned, [], true).
Proof. exact (proj2 (pinDockerfile_complete id demo_pins demo_dockerfile demo_pinned _ demo_pins_plain demo_pins_some demo_pin)). Defined.

(** The stage an instruction opens counts as open while its own reference is
    looked at: an image that names its stage after itself is never pinned. *)
Example self_alias_unpinned :
  pinDockerfile id "FROM nginx AS nginx" demo_pins = ("FROM nginx AS nginx", [], true) /\
  externalBaseRefs id "FROM nginx AS nginx" = ∅.
Proof. split; vm_compute; reflexivity. Qed.
(** An alias on the continued line of its instruction is not seen: the stage
    is then taken for an image, and pinned. *)
Example continued_alias_pinned :
  (pinDockerfile id ("FROM ubuntu:24.04 \" +:+ nl +:+ "  AS node" +:+ nl +:+ "FROM node") demo_pins).1 =
  ("FROM ubuntu:24.04 \" +:+ nl +:+ "  AS node" +:+ nl +:+ "FROM node@sha256:cc", ["node"]).
Proof. vm_compute. reflexivity. Qed.
