(* ===== verification/Search.v ===== *)
(** * Search: finding and replacing with regular expressions

    [FindAllStringSubmatchIndex], [FindAllString] and [ReplaceAllString] of
    [regexp], on top of the matcher of [Submatch]: the leftmost match, then the
    next one in what is left.  Every expression used with them takes at least
    one character and begins with an ASCII one, so a search by bytes is a search
    by runes.  Also [strings.TrimSpace] and the decoding of a rune. *)
From S2P Require Import Prelude Settings Text Submatch BasePins.

(** Texts one after the other. *)
Definition glue (l : list string) : string := foldr String.append ""%string l.

(** ** One match *)

(** What the expression takes here, and the text after it. *)
Definition matchAt (r : cregex) (s : string) : option (string * groups) := bt r s ∅ (fun rest g => Some (rest, g)).
(** The text before the leftmost match, the match, the text after, the groups. *)
Fixpoint findFirst (r : cregex) (s : string) : option (string * string * string * groups) :=
  match matchAt r s with
  | Some (rest, g) => Some (""%string, consumed s rest, rest, g)
  | None =>
    match s with
    | EmptyString => None
    | String c s => '(before, w, rest, g) ← findFirst r s; Some (String c before, w, rest, g)
    end
  end.
Definition MatchString (r : cregex) (s : string) : bool := bool_decide (is_Some (findFirst r s)).

(** ** All of them *)

(** A text in pieces: before each match, the match and its groups; then what is
    left.  A match takes something, so the text's length is fuel enough. *)
Record found := mkFound { fd_start : nat; fd_before : string; fd_text : string; fd_groups : groups }.
Fixpoint cuts (fuel : nat) (r : cregex) (pos : nat) (s : string) : list found * string :=
  match fuel with
  | O => ([], s)
  | S fuel =>
    match findFirst r s with
    | None => ([], s)
    | Some (before, w, rest, g) =>
      if decide (w = ""%string) then ([], s)
      else
        let start := (pos + String.length before)%nat in
        let '(l, tail) := cuts fuel r (start + String.length w) rest in
        (mkFound start before w g :: l, tail)
    end
  end.
Definition FindAll (r : cregex) (s : string) : list found := (cuts (String.length s) r 0 s).1.
Definition FindAllString (r : cregex) (s : string) : list string := fd_text <$> FindAll r s.

(** A replacement: texts, and groups by their numbers (a group without a part in
    the match is empty). *)
Inductive piece := Lit (t : string) | Ref (n : nat).
Definition expand (g : groups) (template : list piece) : string :=
  glue ((fun p => match p with Lit t => t | Ref n => default ""%string (g !! n) end) <$> template).
Definition ReplaceAllString (r : cregex) (template : list piece) (s : string) : string :=
  let '(l, tail) := cuts (String.length s) r 0 s in
  (glue ((fun f => fd_before f +:+ expand (fd_groups f) template) <$> l) +:+ tail)%string.

(** ** Building expressions *)
Fixpoint CText (t : string) : cregex :=
  match t with EmptyString => CEmpty | String c t => CSeq (CClass (fun x => bool_decide (x = c))) (CText t) end.
Definition COpt (a : cregex) : cregex := CAlt a CEmpty.
Definition CSeqs (l : list cregex) : cregex := foldr CSeq CEmpty l.

(** ** Trimming *)
Fixpoint trimReversed (s : string) : string :=
  match s with
  | EmptyString => ""%string
  | String c s1 =>
    if asciiSpace c then trimReversed s1
    else
      match s1 with
      | EmptyString => s
      | String d s2 =>
        if space2 d c then trimReversed s2
        else
          match s2 with
          | EmptyString => s
          | String e s3 => if space3 e d c then trimReversed s3 else s
          end
      end
  end.
Definition TrimSpace (s : string) : string := String.rev (trimReversed (String.rev (trimSpaceLeft s))).

(** ** Runes *)

(** How many bytes the rune at the front takes, one where there is none. *)
Definition byteIn (low high : nat) (c : ascii) : bool := (low <=? nat_of_ascii c)%nat && (nat_of_ascii c <=? high)%nat.
Definition runeWidth (s : string) : nat :=
  match s with
  | String a (String b rest) =>
    if byteIn 194 223 a && byteIn 128 191 b then 2
    else
      let second3 := match nat_of_ascii a with
                     | 224 => byteIn 160 191 b | 237 => byteIn 128 159 b | _ => byteIn 225 239 a && byteIn 128 191 b end in
      let second4 := match nat_of_ascii a with
                     | 240 => byteIn 144 191 b | 244 => byteIn 128 143 b | _ => byteIn 241 243 a && byteIn 128 191 b end in
      match rest with
      | String c rest =>
        if second3 && byteIn 128 191 c then 3
        else match rest with String d _ => if second4 && byteIn 128 191 c && byteIn 128 191 d then 4 else 1 | EmptyString => 1 end
      | EmptyString => 1
      end
  | _ => 1
  end%nat.

(** ** What a search finds *)
Lemma findFirst_spec r s :
  match findFirst r s with
  | Some (before, w, rest, g) => s = before +:+ w +:+ rest /\ cmatch r w ∅ g
  | None => matchAt r s = None
  end.
Proof.
  induction s as [|c s IH].
  - simpl. unfold matchAt. destruct (bt r "" ∅ _) as [[rest g]|] eqn:E; [|done].
    apply bt_sound in E as (w & s' & g' & Hs & Hm & [= -> ->]). destruct w; [|done]. simpl in Hs. by subst.
  - simpl. destruct (matchAt r (String c s)) as [[rest g]|] eqn:E.
    + apply bt_sound in E as (w & s' & g' & Hs & Hm & [= -> ->]). rewrite Hs, consumed_app. done.
    + destruct (findFirst r s) as [[[[before w] rest] g]|]; simpl; [|done]. destruct IH as [-> ?]. done.
Qed.
Lemma cuts_spec fuel r pos s l tail : cuts fuel r pos s = (l, tail) ->
  (glue ((fun f => fd_before f +:+ fd_text f) <$> l) +:+ tail)%string = s /\
  Forall (fun f => cmatch r (fd_text f) ∅ (fd_groups f) /\ fd_text f <> ""%string /\ (pos <= fd_start f)%nat) l.
Proof.
  revert pos s l. induction fuel as [|fuel IH]; intros pos s l H; simpl in H; [by simplify_eq|].
  pose proof (findFirst_spec r s) as Hf. destruct (findFirst r s) as [[[[before w] rest] g]|]; [|by simplify_eq].
  case_decide as Hw; [by simplify_eq|]. destruct (cuts fuel r _ rest) as [l' t] eqn:E. simplify_eq.
  destruct Hf as [-> Hm]. apply IH in E as [<- Hl]. split.
  - rewrite fmap_cons. unfold glue. simpl. by rewrite !append_assoc.
  - constructor; simpl; [split_and!; [done|done|lia]|]. eapply Forall_impl; [exact Hl|]. intros f (? & ? & ?). simpl in *. split_and!; [done|done|lia].
Qed.
Lemma cuts_later fuel r pos s f : f ∈ (cuts fuel r pos s).1 -> (pos <= fd_start f)%nat.
Proof.
  destruct (cuts fuel r pos s) as [l tail] eqn:E. apply cuts_spec in E as [_ H]. simpl. intros Hf.
  rewrite Forall_forall in H. by apply H.
Qed.
(** Matches come in the order of the text, and do not overlap. *)
Lemma cuts_sorted fuel r pos s : StronglySorted (fun f g => (fd_start f < fd_start g)%nat) (cuts fuel r pos s).1.
Proof.
  revert pos s. induction fuel as [|fuel IH]; intros pos s; simpl; [constructor|].
  destruct (findFirst r s) as [[[[before w] rest] g]|]; [|constructor]. case_decide as Hw; [constructor|].
  set (at_ := (pos + String.length before)%nat). pose proof (IH (at_ + String.length w)%nat rest) as Hs.
  pose proof (cuts_later fuel r (at_ + String.length w)%nat rest) as Hl.
  destruct (cuts fuel r _ rest) as [l t]. simpl in *. constructor; [done|]. apply Forall_forall. intros f Hf. simpl.
  specialize (Hl f Hf). destruct w; [done|]. simpl in Hl. lia.
Qed.
Lemma FindAll_sorted r s : StronglySorted (fun f g => (fd_start f < fd_start g)%nat) (FindAll r s).
Proof. apply cuts_sorted. Qed.
Lemma FindAll_match r s f : f ∈ FindAll r s -> cmatch r (fd_text f) ∅ (fd_groups f).
Proof.
  unfold FindAll. destruct (cuts _ r 0 s) as [l tail] eqn:E. apply cuts_spec in E as [_ H]. simpl. intros Hf.
  rewrite Forall_forall in H. by apply H.
Qed.
Lemma findFirst_match r s before w rest g : findFirst r s = Some (before, w, rest, g) -> cmatch r w ∅ g.
Proof. intros E. pose proof (findFirst_spec r s) as H. rewrite E in H. apply H. Qed.

(** What a group can have taken. *)
Fixpoint groupBodies (n : nat) (r : cregex) : list cregex :=
  match r with
  | CEmpty | CClass _ => []
  | CSeq a b | CAlt a b => groupBodies n a ++ groupBodies n b
  | CStar a => groupBodies n a
  | CGroup m a => if decide (m = n) then [a] else groupBodies n a
  end.
Lemma cmatch_groups n r w g g' v : cmatch r w g g' -> g' !! n = Some v ->
  g !! n = Some v \/ exists a g1 g2, a ∈ groupBodies n r /\ cmatch a v g1 g2.
Proof.
  intros H. revert v. induction H as [g|P c g Hc|a b x y g1 g2 g3 Ha IHa Hb IHb|a b x g1 g2 Ha IHa|a b x g1 g2 Ha IHa|a g|a x y g1 g2 g3 Ha IHa Hb IHb|m a x g1 g2 Ha IHa];
    intros v Hv; simpl; [by left|by left| | | |by left| |].
  - destruct (IHb v Hv) as [H2|(b' & ? & ? & ? & ?)]; [destruct (IHa v H2) as [?|(a' & ? & ? & ? & ?)]; [by left|]|]; right; set_solver.
  - destruct (IHa v Hv) as [?|(a' & ? & ? & ? & ?)]; [by left|]. right. set_solver.
  - destruct (IHa v Hv) as [?|(a' & ? & ? & ? & ?)]; [by left|]. right. set_solver.
  - destruct (IHb v Hv) as [H2|?]; [by apply IHa|by right].
  - destruct (decide (m = n)) as [->|Hne].
    + rewrite lookup_insert_eq in Hv. simplify_eq. right. exists a, g1, g2. set_solver.
    + rewrite lookup_insert_ne in Hv by done. apply IHa. exact Hv.
Qed.
(** A group that every match passes through. *)
Fixpoint setsGroup (n : nat) (r : cregex) : bool :=
  match r with
  | CEmpty | CClass _ | CStar _ => false
  | CSeq a b => setsGroup n a || setsGroup n b
  | CAlt a b => setsGroup n a && setsGroup n b
  | CGroup m a => bool_decide (m = n) || setsGroup n a
  end.
Lemma cmatch_keeps n r w g g' : cmatch r w g g' -> is_Some (g !! n) -> is_Some (g' !! n).
Proof.
  induction 1 as [| | | | | | |m a x g1 g2 _ IH]; auto. intros H. destruct (decide (m = n)) as [->|Hne]; [rewrite lookup_insert_eq; eauto|].
  rewrite lookup_insert_ne by done. auto.
Qed.
Lemma cmatch_sets n r w g g' : cmatch r w g g' -> setsGroup n r = true -> is_Some (g' !! n).
Proof.
  induction 1 as [| |a b x y g1 g2 g3 Ha IHa Hb IHb|a b x g1 g2 Ha IHa|a b x g1 g2 Ha IHa| | |m a x g1 g2 Ha IHa]; simpl; try done.
  - intros [H|H]%orb_true_iff; [by eapply cmatch_keeps; eauto|auto].
  - intros [H _]%andb_true_iff. auto.
  - intros [_ H]%andb_true_iff. auto.
  - intros [->%bool_decide_eq_true|H]%orb_true_iff; [rewrite lookup_insert_eq; eauto|].
    destruct (decide (m = n)) as [->|Hne]; [rewrite lookup_insert_eq; eauto|]. rewrite lookup_insert_ne by done. auto.
Qed.
