(* ===== verification/Files.v ===== *)
(** * Files: directory trees, and a disk that can crash

    What the code uses of Go's [path/filepath] and [os].  [walk] is
    [filepath.Walk] over a tree as the walk finds it.  [disk] is a set of
    directories whose names lead to files; a file's data is safe only once it is
    synced, and a directory may fall back to what it was at any time since it
    was last synced: [survives] is what a crash can leave under a name. *)
From S2P Require Import Prelude Types Settings Text Artifacts Queue Worker Database Fleet Effects Seccomp Schemas.
Local Open Scope Z_scope.

(** ** Trees *)

(** What [Lstat] says of an entry: its size and its mode, as it prints. *)
Record fileStat := mkStat { fs_size : Z; fs_mode : string }.
(** A listing is in the order of [readDirNames], which sorts it; an entry in it
    may be gone when it is looked at.  A link has its target, and what reading
    the path gives, which follows it. *)
Inductive node :=
| DirNode (st : fileStat) (listing : error + list (string * (error + node)))
| FileNode (st : fileStat) (content : error + string)
| LinkNode (st : fileStat) (target content : error + string)
| SpecialNode (st : fileStat) (socket : bool).
Definition isDir (n : node) : bool := match n with DirNode _ _ => true | _ => false end.
Definition stat_of (n : node) : fileStat := match n with DirNode st _ | FileNode st _ | LinkNode st _ _ | SpecialNode st _ => st end.
(** [os.ReadFile] of a path that leads here. *)
Definition readFile (n : node) : error + string :=
  match n with
  | FileNode _ content | LinkNode _ _ content => content
  | DirNode _ _ => inl [OtherError "is a directory"]
  | SpecialNode _ _ => inl [OtherError "not a regular file"]
  end.

(** [filepath.Join] of a directory and any text. *)
Definition Join (dir p : string) : string := Clean (dir +:+ "/" +:+ p)%string.
(** [filepath.Join] of a clean directory and a name without slashes. *)
Definition joinName (dir name : string) : string :=
  if decide (dir = "/"%string) then ("/" +:+ name)%string else (dir +:+ "/" +:+ name)%string.

(** ** filepath.Walk *)
Inductive walkAction := Continue | SkipDir | Stop (err : error).
Section walk.
Context {S : Type}.
(** A [WalkFunc]: the path, the entry's name, the entry if [Lstat] gave one,
    and the error. *)
Abbreviation walkFunc := (string -> string -> option node -> option error -> S -> walkAction * S).
Context (fn : walkFunc).
Fixpoint walk (path name : string) (n : node) (s : S) {struct n} : walkAction * S :=
  match n with
  | DirNode _ (inl err) => fn path name (Some n) (Some err) s
  | DirNode _ (inr children) =>
    match fn path name (Some n) None s with
    | (Continue, s) =>
      (fix each (cs : list (string * (error + node))) (s : S) : walkAction * S :=
         match cs with
         | [] => (Continue, s)
         | (cname, inl err) :: cs =>
           match fn (joinName path cname) cname None (Some err) s with
           | (Stop e, s) => (Stop e, s)
           | (_, s) => each cs s
           end
         | (cname, inr child) :: cs =>
           match walk (joinName path cname) cname child s with
           | (Continue, s) => each cs s
           | (SkipDir, s) => if isDir child then each cs s else (SkipDir, s)
           | (Stop e, s) => (Stop e, s)
           end
         end) children s
    | r => r
    end
  | _ => fn path name (Some n) None s
  end.
Definition Walk (root name : string) (n : error + node) (s : S) : option error * S :=
  match (match n with inl err => fn root name None (Some err) s | inr n => walk root name n s end) with
  | (Stop e, s) => (Some e, s)
  | (_, s) => (None, s)
  end.
End walk.

(** Induction over a tree, through its listings. *)
Definition everyChild (P : node -> Prop) (listing : error + list (string * (error + node))) : Prop :=
  match listing with
  | inl _ => True
  | inr cs => Forall (fun c => match c.2 with inl _ => True | inr n => P n end) cs
  end.
Lemma node_nested_ind (P : node -> Prop) :
  (forall st listing, everyChild P listing -> P (DirNode st listing)) ->
  (forall st content, P (FileNode st content)) -> (forall st target content, P (LinkNode st target content)) ->
  (forall st socket, P (SpecialNode st socket)) -> forall n, P n.
Proof.
  intros Hd Hf Hl Hs. fix IH 1. intros [st [err|cs]|st content|st target content|st socket]; [by apply Hd| |by apply Hf|by apply Hl|by apply Hs].
  apply Hd. simpl. induction cs as [|[name [err|n]] cs IHcs]; constructor; [done|exact IHcs|simpl; apply IH|exact IHcs].
Qed.

Section walking.
Context {S : Type} (fn : string -> string -> option node -> option error -> S -> walkAction * S).
Definition walkEach (path : string) := fix each (cs : list (string * (error + node))) (s : S) : walkAction * S :=
  match cs with
  | [] => (Continue, s)
  | (cname, inl err) :: cs =>
    match fn (joinName path cname) cname None (Some err) s with
    | (Stop e, s) => (Stop e, s)
    | (_, s) => each cs s
    end
  | (cname, inr child) :: cs =>
    match walk fn (joinName path cname) cname child s with
    | (Continue, s) => each cs s
    | (SkipDir, s) => if isDir child then each cs s else (SkipDir, s)
    | (Stop e, s) => (Stop e, s)
    end
  end.
Lemma walk_dir path name st cs s :
  walk fn path name (DirNode st (inr cs)) s =
  match fn path name (Some (DirNode st (inr cs))) None s with (Continue, s) => walkEach path cs s | r => r end.
Proof. done. Qed.

(** What every visit keeps, the walk keeps. *)
Lemma walk_keeps (I : S -> Prop) :
  (forall path name n err s a s', fn path name n err s = (a, s') -> I s -> I s') ->
  forall n path name s a s', walk fn path name n s = (a, s') -> I s -> I s'.
Proof.
  intros Hfn. induction n as [st [err|cs] IH|st content|st target content|st socket] using node_nested_ind; intros path name s a s' H; try by eapply Hfn.
  rewrite walk_dir in H. destruct (fn path name _ None s) as [act s1] eqn:E. intros Hs. pose proof (Hfn _ _ _ _ _ _ _ E Hs) as Hs1.
  destruct act; [|by simplify_eq..]. clear E Hs. revert s1 H Hs1. simpl in IH. induction IH as [|[cname [err|n]] cs Hc IHcs IH]; intros s1 H Hs1; simpl in H.
  - by simplify_eq.
  - destruct (fn (joinName path cname) cname None (Some err) s1) as [act s2] eqn:E2. pose proof (Hfn _ _ _ _ _ _ _ E2 Hs1).
    destruct act; [by eapply IH..|by simplify_eq].
  - destruct (walk fn (joinName path cname) cname n s1) as [act s2] eqn:E2. pose proof (Hc _ _ _ _ _ E2 Hs1).
    destruct act; [by eapply IH|destruct (isDir n); [by eapply IH|by simplify_eq]|by simplify_eq].
Qed.
End walking.

(** The entries a walk goes over that leaves ignored names out. *)
Section visits.
Context (ignore : string -> bool).
Fixpoint visits (path name : string) (n : node) {struct n} : list (string * string * node) :=
  if ignore name then []
  else (path, name, n) ::
    match n with
    | DirNode _ (inr cs) =>
      (fix each (cs : list (string * (error + node))) : list (string * string * node) :=
         match cs with
         | [] => []
         | (_, inl _) :: cs => each cs
         | (cname, inr child) :: cs => visits (joinName path cname) cname child ++ each cs
         end) cs
    | _ => []
    end.
Definition visitsEach (path : string) := fix each (cs : list (string * (error + node))) : list (string * string * node) :=
  match cs with
  | [] => []
  | (_, inl _) :: cs => each cs
  | (cname, inr child) :: cs => visits (joinName path cname) cname child ++ each cs
  end.
End visits.

(** ** A disk *)
Record file := mkFile { f_data : string; f_synced : bool }.
(** A directory: its names now, and what it may fall back to. *)
Record directory := mkDirectory { dir_names : gmap string nat; dir_past : list (gmap string nat) }.
Record disk := mkDisk { dk_dirs : gmap string directory; dk_files : gmap nat file; dk_next : nat }.
#[export] Instance eta_disk : Eta disk := fun d => mkDisk (dk_dirs d) (dk_files d) (dk_next d).

Definition inode (d : disk) (dir name : string) : option nat := x ← dk_dirs d !! dir; dir_names x !! name.
Definition dataAt (d : disk) (dir name : string) : option string := i ← inode d dir name; f ← dk_files d !! i; Some (f_data f).
Definition onNames (dir : string) (f : gmap string nat -> gmap string nat) (d : disk) : disk :=
  d <| dk_dirs ::= alter (fun x => mkDirectory (f (dir_names x)) (dir_names x :: dir_past x)) dir |>.

(** What a crash can leave of a directory, and under a name: one of the files the
    name has led to since its directory was last synced, whole if that file is
    synced, with anything in it otherwise. *)
Definition candidates (d : disk) (dir : string) : list (gmap string nat) :=
  match dk_dirs d !! dir with None => [∅] | Some x => dir_names x :: dir_past x end.
Definition survives (d : disk) (dir name : string) (o : option string) : Prop :=
  exists names, names ∈ candidates d dir /\
    match names !! name with
    | None => o = None
    | Some i => exists f s, dk_files d !! i = Some f /\ o = Some s /\ (f_synced f = true -> s = f_data f)
    end.

(** Code that works on the disk: every operation may fail, whether it does being
    the outside's to say, and every state the disk passes through is kept. *)
Inductive fileCall := OpenCall | WriteCall | SyncCall | CloseCall | ChmodCall | RenameCall | RemoveCall | SyncDirCall | ReadCall | StatCall | ReadDirCall | MkdirCall.
#[export] Instance fileCall_eq_dec : EqDecision fileCall.
Proof. solve_decision. Defined.
Record Io := mkIo { io_disk : disk; io_tick : nat; io_seen : list disk; io_fail : fileCall -> nat -> option error; io_part : nat -> nat }.
#[export] Instance eta_Io : Eta Io := fun s => mkIo (io_disk s) (io_tick s) (io_seen s) (io_fail s) (io_part s).
Definition IO (A : Type) : Type := Io -> A * Io.
#[export] Instance IO_ret : MRet IO := fun _ a s => (a, s).
#[export] Instance IO_bind : MBind IO := fun _ _ k e s => let '(a, s) := e s in k a s.
Definition ioTry {A B} (e : IO (error + A)) (k : A -> IO (error + B)) : IO (error + B) :=
  r ← e; match r with inl err => mret (inl err) | inr a => k a end.
Notation "'io?' x := e 'in' k" := (ioTry e (fun x => k))
  (at level 10, x pattern, e at level 200, k at level 200) : cork_scope.
Definition ioOk {A} (a : A) : IO (error + A) := mret (inr a).
Definition ioFail {A} (err : error) : IO (error + A) := mret (inl err).

(** An operation that fails has done nothing; one that works makes one step. *)
Definition ioOp {A} (c : fileCall) (f : disk -> error + A * disk) : IO (error + A) := fun s =>
  let s := s <| io_tick ::= S |> in
  match io_fail s c (io_tick s) with
  | Some err => (inl err, s)
  | None =>
    match f (io_disk s) with
    | inl err => (inl err, s)
    | inr (a, d) => (inr a, s <| io_disk := d |> <| io_seen ::= (fun l => d :: l) |>)
    end
  end.

Definition notExist : sentinel := OtherError "file does not exist".
(** [os.CreateTemp] in a directory, under a name no file has; [OpenFile] that
    creates or truncates is [openTruncated]. *)
Definition newFile (dir name : string) (d : disk) : nat * disk :=
  let i := dk_next d in
  (i, onNames dir <[name := i]> (d <| dk_files ::= <[i := mkFile "" false]> |> <| dk_next ::= S |>)).
Definition createTemp (dir name : string) : IO (error + nat) :=
  ioOp OpenCall (fun d => match dk_dirs d !! dir with
                 | None => inl [notExist]
                 | Some x => match dir_names x !! name with Some _ => inl [OtherError "no free name"] | None => inr (newFile dir name d) end
                 end).
Definition openTruncated (dir name : string) : IO (error + nat) :=
  ioOp OpenCall (fun d => match dk_dirs d !! dir with
                 | None => inl [notExist]
                 | Some x =>
                   match dir_names x !! name with
                   | Some i => inr (i, d <| dk_files ::= <[i := mkFile "" false]> |>)
                   | None => inr (newFile dir name d)
                   end
                 end).
(** A write that fails may have written a part of it. *)
Definition wrote (s : Io) (data : string) : string :=
  match io_fail s WriteCall (io_tick s) with Some _ => substring 0 (io_part s (io_tick s)) data | None => data end.
Definition writeFd (i : nat) (data : string) : IO (error + unit) := fun s =>
  let s := s <| io_tick ::= S |> in
  let d := (io_disk s) <| dk_files ::= alter (fun f => mkFile (f_data f +:+ wrote s data)%string false) i |> in
  (match io_fail s WriteCall (io_tick s) with Some err => inl err | None => inr tt end, s <| io_disk := d |> <| io_seen ::= (fun l => d :: l) |>).
Definition syncFd (i : nat) : IO (error + unit) :=
  ioOp SyncCall (fun d => inr (tt, d <| dk_files ::= alter (fun f => mkFile (f_data f) true) i |>)).
(** [Close] and [Chmod] change nothing that is modelled. *)
Definition closeFd (i : nat) : IO (error + unit) := ioOp CloseCall (fun d => inr (tt, d)).
Definition chmod (dir name : string) : IO (error + unit) := ioOp ChmodCall (fun d => inr (tt, d)).
(** [os.Rename] within or across directories: the new name takes the file over
    in one step. *)
Definition rename (dir name dir' name' : string) : IO (error + unit) :=
  ioOp RenameCall (fun d => match inode d dir name, dk_dirs d !! dir' with
                 | Some i, Some _ =>
                   inr (tt, if decide (dir = dir') then onNames dir (fun names => <[name' := i]> (delete name names)) d
                            else onNames dir (delete name) (onNames dir' <[name' := i]> d))
                 | _, _ => inl [notExist]
                 end).
(** [os.Remove] of a file; that it takes an empty directory away as well is not
    modelled. *)
Definition remove (dir name : string) : IO (error + unit) :=
  ioOp RemoveCall (fun d =>
    match inode d dir name, dk_dirs d !! joinName dir name with
    | Some _, _ => inr (tt, onNames dir (delete name) d)
    | None, Some _ => inl [OtherError "is a directory"]
    | None, None => inl [notExist]
    end).
Definition syncDir (dir : string) : IO (error + unit) :=
  ioOp SyncDirCall (fun d => inr (tt, d <| dk_dirs ::= alter (fun x => mkDirectory (dir_names x) []) dir |>)).
(** Opening a file to read it, and reading all of it. *)
Definition openFd (dir name : string) : IO (error + nat) :=
  ioOp OpenCall (fun d => match inode d dir name with Some i => inr (i, d) | None => inl [notExist] end).
Definition readFd (i : nat) : IO (error + string) :=
  ioOp ReadCall (fun d => match dk_files d !! i with Some f => inr (f_data f, d) | None => inl [OtherError "not a file"] end).
(** [os.Stat]: whether the path is a directory. *)
Definition stat (dir name : string) : IO (error + bool) :=
  ioOp StatCall (fun d => match inode d dir name, dk_dirs d !! joinName dir name with
                          | Some _, _ => inr (false, d)
                          | None, Some _ => inr (true, d)
                          | None, None => inl [notExist]
                          end).
(** The directories [os.ReadDir] lists, by name. *)
Definition subdirs (d : disk) (dir : string) : list string :=
  merge_sort String.le (omap (fun p => if decide (p <> dir /\ joinName dir (Base p) = p) then Some (Base p) else None) (elements (dom (dk_dirs d)))).
Definition readDirs (dir : string) : IO (error + list string) :=
  ioOp ReadDirCall (fun d => match dk_dirs d !! dir with Some _ => inr (subdirs d dir, d) | None => inl [notExist] end).
(** [os.MkdirAll] of a clean path: each directory on the way, from the top. *)
Definition mkdir (p : string) : IO (error + unit) :=
  ioOp MkdirCall (fun d =>
    match dk_dirs d !! p, inode d (Dir p) (Base p), dk_dirs d !! Dir p with
    | Some _, _, _ => inr (tt, d)
    | None, Some _, _ => inl [OtherError "not a directory"]
    | None, None, None => inl [notExist]
    | None, None, Some _ => inr (tt, d <| dk_dirs ::= <[p := mkDirectory ∅ []]> |>)
    end).
Fixpoint ancestors (fuel : nat) (p : string) : list string :=
  match fuel with
  | O => []
  | S fuel => if decide (Dir p = p) then [p] else ancestors fuel (Dir p) ++ [p]
  end.
Fixpoint mkdirEach (ps : list string) : IO (error + unit) :=
  match ps with [] => ioOk tt | p :: ps => io? _ := mkdir p in mkdirEach ps end.
Definition mkdirAll (p : string) : IO (error + unit) := mkdirEach (ancestors (S (String.length p)) p).
(** [os.WriteFile]. *)
Definition writeFile (dir name data : string) : IO (error + unit) :=
  io? fd := openTruncated dir name in
  r ← writeFd fd data;
  c ← closeFd fd;
  mret (match r with inl err => inl err | inr _ => c end).
Definition readAt (dir name : string) : IO (error + string) :=
  ioOp ReadCall (fun d => match dataAt d dir name with Some s => inr (s, d) | None => inl [notExist] end).

(** ** What names can lead to *)

(** A crash may find the name leading to [v]. *)
Definition reach (d : disk) (dir name : string) (v : option nat) : Prop :=
  exists names, names ∈ candidates d dir /\ names !! name = v.
Lemma survives_reach d dir name o :
  survives d dir name o <->
  exists v, reach d dir name v /\
    match v with
    | None => o = None
    | Some i => exists f s, dk_files d !! i = Some f /\ o = Some s /\ (f_synced f = true -> s = f_data f)
    end.
Proof.
  split.
  - intros (names & Hn & H). exists (names !! name). split; [by exists names|done].
  - intros (v & (names & Hn & <-) & H). by exists names.
Qed.
Lemma inode_reach d dir name : reach d dir name (inode d dir name).
Proof. unfold reach, candidates, inode. destruct (dk_dirs d !! dir) as [x|]; simpl; eexists; (split; [by left|done]). Qed.
Lemma reach_now d dir name x : dk_dirs d !! dir = Some x -> reach d dir name (dir_names x !! name).
Proof. intros Hx. pose proof (inode_reach d dir name) as H. unfold inode in H. by rewrite Hx in H. Qed.

(** A change of a directory adds one thing a name may lead to. *)
Lemma reach_onNames dir f d dir' name v :
  reach (onNames dir f d) dir' name v ->
  reach d dir' name v \/
  (dir' = dir /\ exists x, dk_dirs d !! dir = Some x /\ v = f (dir_names x) !! name).
Proof.
  intros (names & Hn & Hv). unfold candidates, onNames in Hn. simpl in Hn.
  destruct (decide (dir' = dir)) as [->|Hne].
  - rewrite lookup_alter_eq in Hn. unfold reach, candidates. destruct (dk_dirs d !! dir) as [y|] eqn:Ey; simpl in Hn; [|left; by exists names].
    apply elem_of_cons in Hn as [->|Hn]; [right; eauto|left; by exists names].
  - rewrite lookup_alter_ne in Hn by done. left. by exists names.
Qed.
Lemma inode_onNames dir f d dir' name :
  inode (onNames dir f d) dir' name =
  if decide (dir' = dir) then x ← dk_dirs d !! dir; f (dir_names x) !! name else inode d dir' name.
Proof.
  unfold inode, onNames. simpl. case_decide as E; [subst; rewrite lookup_alter_eq; by destruct (dk_dirs d !! dir)|by rewrite lookup_alter_ne].
Qed.
Lemma dk_files_onNames dir f d : dk_files (onNames dir f d) = dk_files d.
Proof. done. Qed.
Lemma reach_files d g dir name v : reach (d <| dk_files ::= g |>) dir name v <-> reach d dir name v.
Proof. done. Qed.

(** An operation fails and leaves everything, or makes its one step. *)
Lemma ioOp_inv {A} {c} (f : disk -> error + A * disk) s r s' :
  ioOp c f s = (r, s') ->
  (exists err, r = inl err /\ io_disk s' = io_disk s /\ io_seen s' = io_seen s) \/
  (exists a d, f (io_disk s) = inr (a, d) /\ r = inr a /\ io_disk s' = d /\ io_seen s' = d :: io_seen s).
Proof.
  unfold ioOp. simpl. destruct (io_fail s c _); [intros; simplify_eq/=; left; eauto|].
  destruct (f (io_disk s)) as [err|[a d]]; intros; simplify_eq/=; [left|right]; eauto 10.
Qed.
Lemma io_bind_inv {A B} (e : IO A) (k : A -> IO B) s r s' :
  (e ≫= k) s = (r, s') -> exists a s1, e s = (a, s1) /\ k a s1 = (r, s').
Proof. unfold mbind, IO_bind. destruct (e s) as [a s1]. eauto. Qed.
Ltac ioStep H x s1 E := apply io_bind_inv in H as (x & s1 & E & H).
Lemma io_try_inr {A B} (e : IO (error + A)) (k : A -> IO (error + B)) s r s' :
  ioTry e k s = (r, s') ->
  (exists err, e s = (inl err, s') /\ r = inl err) \/ (exists a s1, e s = (inr a, s1) /\ k a s1 = (r, s')).
Proof.
  unfold ioTry. intros H. ioStep H x s1 E. destruct x as [err|a]; [left|right; eauto].
  injection H as <- <-. eauto.
Qed.

(** ** Keeping what every crash may find

    [seenSince s s' P]: every disk on the way from [s] to [s'] satisfies [P]. *)
Definition seenSince (s s' : Io) (P : disk -> Prop) : Prop :=
  exists new, io_seen s' = new ++ io_seen s /\ Forall P new.
Lemma seenSince_refl s P : seenSince s s P.
Proof. by exists []. Qed.
Lemma seenSince_trans s1 s2 s3 P : seenSince s1 s2 P -> seenSince s2 s3 P -> seenSince s1 s3 P.
Proof. intros (n1 & E1 & H1) (n2 & E2 & H2). exists (n2 ++ n1). rewrite E2, E1, app_assoc. split; [done|]. by apply Forall_app. Qed.
Lemma seenSince_same s s' P : io_seen s' = io_seen s -> seenSince s s' P.
Proof. intros E. by exists []. Qed.
Lemma seenSince_step s s' d (P : disk -> Prop) : io_seen s' = d :: io_seen s -> P d -> seenSince s s' P.
Proof. intros E H. exists [d]. split; [done|]. by repeat constructor. Qed.
Lemma seenSince_impl s s' (P Q : disk -> Prop) : (forall d, P d -> Q d) -> seenSince s s' P -> seenSince s s' Q.
Proof. intros HPQ (n & E & H). exists n. split; [done|]. by eapply Forall_impl. Qed.

(** Every inode a name may lead to is a file, and below the next one. *)
Record disk_ok (d : disk) : Prop := {
  dok_names dir name i : reach d dir name (Some i) -> (i < dk_next d)%nat;
  dok_files dir name i : reach d dir name (Some i) -> is_Some (dk_files d !! i) }.

Definition diskOk (d : disk) : bool :=
  bool_decide (map_Forall (fun _ x => Forall (map_Forall (fun _ i => (i < dk_next d)%nat /\ is_Some (dk_files d !! i))) (dir_names x :: dir_past x)) (dk_dirs d)).
Lemma diskOk_spec d : diskOk d = true -> disk_ok d.
Proof.
  intros H%bool_decide_eq_true. assert (forall dir name i, reach d dir name (Some i) -> (i < dk_next d)%nat /\ is_Some (dk_files d !! i)) as Hr.
  { intros dir name i (names & Hn & Hv). unfold candidates in Hn. destruct (dk_dirs d !! dir) as [x|] eqn:Ex.
    - eapply H in Ex. rewrite Forall_forall in Ex. exact (Ex _ Hn _ _ Hv).
    - apply list_elem_of_singleton in Hn as ->. by rewrite lookup_empty in Hv. }
  split; intros; by eapply Hr.
Qed.

(** Where a file is written before it gets its name: [start] is the disk before,
    [i] the file, under the name [tmp] in [dir]. *)
Section staging.
Context (start : disk) (dir tmp name : string) (i : nat) (Htmp : tmp <> name).
(** No other name leads to the file, and the rest is untouched. *)
Record staged (d : disk) : Prop := {
  sg_reach dir' name' v : (dir', name') <> (dir, tmp) -> reach d dir' name' v -> reach start dir' name' v;
  sg_now dir' name' : (dir', name') <> (dir, tmp) -> inode d dir' name' = inode start dir' name';
  sg_files j : j <> i -> dk_files d !! j = dk_files start !! j;
  sg_alone dir' name' : (dir', name') <> (dir, tmp) -> ~ reach start dir' name' (Some i);
  sg_tmp v : reach d dir tmp v -> reach start dir tmp v \/ v = Some i \/ v = None }.
(** The file, whole and synced, has its name. *)
Record placed (data : string) (d : disk) : Prop := {
  pl_reach dir' name' v : (dir', name') <> (dir, tmp) -> reach d dir' name' v ->
    reach start dir' name' v \/ (dir', name') = (dir, name) /\ v = Some i;
  pl_now : inode d dir name = Some i;
  pl_files j : j <> i -> dk_files d !! j = dk_files start !! j;
  pl_alone dir' name' : (dir', name') <> (dir, tmp) -> ~ reach start dir' name' (Some i);
  pl_file : dk_files d !! i = Some (mkFile data true);
  pl_rest dir' name' : (dir', name') <> (dir, tmp) -> (dir', name') <> (dir, name) -> inode d dir' name' = inode start dir' name';
  pl_gone : inode d dir tmp = None;
  pl_tmp v : reach d dir tmp v -> reach start dir tmp v \/ v = Some i \/ v = None }.

(** What a crash may find under any name but the temporary one. *)
Definition old_or_new (data : string) (d : disk) : Prop :=
  forall dir' name' o, (dir', name') <> (dir, tmp) -> survives d dir' name' o ->
    survives start dir' name' o \/ (dir', name') = (dir, name) /\ o = Some data.

Lemma staged_old data d : staged d -> old_or_new data d.
Proof.
  intros [Hr _ Hf Ha _] dir' name' o Hne (v & Hv & Ho)%survives_reach. left. apply survives_reach. exists v.
  pose proof (Hr _ _ _ Hne Hv) as Hv0. split; [done|]. destruct v as [j|]; [|done].
  destruct Ho as (f & s & Hj & Ho). exists f, s. rewrite <- Hf; [done|]. intros ->. by apply (Ha dir' name').
Qed.
Lemma placed_new data d : placed data d -> old_or_new data d.
Proof.
  intros [Hr _ Hf Ha Hfile _ _ _] dir' name' o Hne (v & Hv & Ho)%survives_reach.
  destruct (Hr _ _ _ Hne Hv) as [Hv0|[E ->]].
  - left. apply survives_reach. exists v. split; [done|]. destruct v as [j|]; [|done].
    destruct Ho as (f & s & Hj & Ho). exists f, s. rewrite <- Hf; [done|]. intros ->. by apply (Ha dir' name').
  - right. split; [done|]. destruct Ho as (f & s & Hj & -> & Hs). rewrite Hfile in Hj. simplify_eq/=. by rewrite Hs.
Qed.
Lemma staged_files g d : staged d -> (forall j, j <> i -> g (dk_files d) !! j = dk_files d !! j) -> staged (d <| dk_files ::= g |>).
Proof. intros [Hr Hn Hf Ha Ht] Hg. split; [done|done| |done|done]. intros j Hj. simpl. rewrite Hg by done. by apply Hf. Qed.

(** A change of the directory that leaves every other name alone. *)
Section touch.
Context (f : gmap string nat -> gmap string nat) (Hf : forall names n, n <> tmp -> f names !! n = names !! n).
Context (Hft : forall names, f names !! tmp = None).
Lemma inode_touch d dir' name' : (dir', name') <> (dir, tmp) -> inode (onNames dir f d) dir' name' = inode d dir' name'.
Proof.
  intros Hne. rewrite inode_onNames. case_decide as E; [|done]. subst dir'. unfold inode. destruct (dk_dirs d !! dir); [|done]. simpl. apply Hf. congruence.
Qed.
Lemma reach_touch d dir' name' v : (dir', name') <> (dir, tmp) -> reach (onNames dir f d) dir' name' v -> reach d dir' name' v.
Proof. intros Hne [Hv|(-> & x & Hx & ->)]%reach_onNames; [done|]. rewrite Hf by congruence. by apply reach_now. Qed.
Lemma reach_touch_tmp d v : reach (onNames dir f d) dir tmp v -> reach d dir tmp v \/ v = None.
Proof. intros [Hv|(_ & x & Hx & ->)]%reach_onNames; [by left|]. right. apply Hft. Qed.
Lemma staged_touch d : staged d -> staged (onNames dir f d).
Proof.
  intros [Hr Hn Hfi Ha Ht]. split; try done.
  - intros dir' name' v Hne Hv%reach_touch; [by apply Hr|done].
  - intros dir' name' Hne. rewrite inode_touch by done. by apply Hn.
  - intros v [Hv| ->]%reach_touch_tmp; auto.
Qed.
Lemma placed_touch data d : placed data d -> placed data (onNames dir f d).
Proof.
  intros [Hr Hn Hfi Ha Hfile Hrest Hg Ht]. split; try done.
  - intros dir' name' v Hne Hv%reach_touch; [by apply Hr|done].
  - rewrite inode_touch; [done|]. congruence.
  - intros dir' name' Hne Hne'. rewrite inode_touch by done. by apply Hrest.
  - rewrite inode_onNames, decide_True by done. destruct (dk_dirs d !! dir); [|done]. simpl. apply Hft.
  - intros v [Hv| ->]%reach_touch_tmp; auto.
Qed.
End touch.
Lemma staged_rename data d :
  staged d -> dk_files d !! i = Some (mkFile data true) -> is_Some (dk_dirs d !! dir) ->
  placed data (onNames dir (fun names => <[name := i]> (delete tmp names)) d).
Proof.
  intros [Hr Hn Hf Ha Ht] Hfile [x0 Hx0]. split; try done.
  - intros dir' name' v Hne [Hv|(-> & x & Hx & ->)]%reach_onNames; [left; by apply Hr|].
    assert (name' <> tmp) by congruence. destruct (decide (name' = name)) as [->|Hnn].
    + right. by rewrite lookup_insert_eq.
    + left. rewrite lookup_insert_ne, lookup_delete_ne by done. apply Hr; [done|]. by apply reach_now.
  - rewrite inode_onNames, decide_True by done. rewrite Hx0. simpl. by rewrite lookup_insert_eq.
  - intros dir' name' Hne Hne'. rewrite <- Hn by done. rewrite inode_onNames. case_decide as E; [|done]. subst dir'.
    unfold inode. rewrite Hx0. simpl. by rewrite lookup_insert_ne, lookup_delete_ne by congruence.
  - rewrite inode_onNames, decide_True by done. rewrite Hx0. simpl. by rewrite lookup_insert_ne, lookup_delete_eq.
  - intros v [Hv|(_ & x & Hx & ->)]%reach_onNames; [by apply Ht|]. rewrite lookup_insert_ne, lookup_delete_eq by done. auto.
Qed.
End staging.

(** ** Writing a file before it gets its name *)

Lemma delete_tmp tmp (names : gmap string nat) n : n <> tmp -> delete tmp names !! n = names !! n.
Proof. intros. by apply lookup_delete_ne. Qed.

(** Opening the temporary file. *)
Lemma newFile_opened dir tmp d x i d' {seen : list disk} :
  (inr (newFile dir tmp d) : error + nat * disk) = inr (i, d') -> disk_ok d -> dk_dirs d !! dir = Some x -> dir_names x !! tmp = None ->
  staged d dir tmp i d' /\ inode d' dir tmp = Some i /\ is_Some (dk_dirs d' !! dir) /\ dk_files d' !! i = Some (mkFile "" false) /\ d' :: seen = d' :: seen.
Proof.
  intros Hf [Hok _] Ex Et. unfold newFile in Hf. simplify_eq. set (d1 := d <| dk_files ::= _ |> <| dk_next ::= S |>).
  split_and!; [split| | | |done].
  - intros dir' name' v Hne [Hv|(-> & y & Hy & ->)]%reach_onNames; [done|].
    rewrite lookup_insert_ne by congruence. by apply reach_now.
  - intros dir' name' Hne. rewrite inode_onNames. case_decide as E; [|done]. subst dir'. unfold inode. simpl. rewrite Ex. simpl.
    rewrite lookup_insert_ne by congruence. done.
  - intros j Hj. simpl. by rewrite lookup_insert_ne.
  - intros dir' name' _ Hv%Hok. lia.
  - intros v [Hv|(_ & y & Hy & ->)]%reach_onNames; [by left|]. rewrite lookup_insert_eq. auto.
  - rewrite inode_onNames, decide_True by done. simpl. rewrite Ex. simpl. by rewrite lookup_insert_eq.
  - unfold onNames. simpl. rewrite lookup_alter_eq, Ex. by eexists.
  - simpl. by rewrite lookup_insert_eq.
Qed.
Lemma createTemp_staged dir tmp s r s' :
  createTemp dir tmp s = (r, s') -> disk_ok (io_disk s) ->
  match r with
  | inl _ => io_disk s' = io_disk s /\ io_seen s' = io_seen s
  | inr i => staged (io_disk s) dir tmp i (io_disk s') /\ inode (io_disk s') dir tmp = Some i /\
      is_Some (dk_dirs (io_disk s') !! dir) /\ dk_files (io_disk s') !! i = Some (mkFile "" false) /\ io_seen s' = io_disk s' :: io_seen s
  end.
Proof.
  intros [(err & -> & Hd & Hs)|(i & d & Hf & -> & Hd & Hs)]%ioOp_inv Hok; [done|]. rewrite Hd, Hs. clear Hd Hs.
  destruct (dk_dirs (io_disk s) !! dir) as [x|] eqn:Ex; [|done]. destruct (dir_names x !! tmp) eqn:Et; [done|].
  by eapply newFile_opened.
Qed.
(** A name of a file of its own. *)
Definition private (d : disk) (dir name : string) : Prop :=
  forall i dir' name', inode d dir name = Some i -> reach d dir' name' (Some i) -> (dir', name') = (dir, name).
Lemma openTruncated_staged dir tmp s r s' :
  openTruncated dir tmp s = (r, s') -> disk_ok (io_disk s) -> private (io_disk s) dir tmp ->
  match r with
  | inl _ => io_disk s' = io_disk s /\ io_seen s' = io_seen s
  | inr i => staged (io_disk s) dir tmp i (io_disk s') /\ inode (io_disk s') dir tmp = Some i /\
      is_Some (dk_dirs (io_disk s') !! dir) /\ dk_files (io_disk s') !! i = Some (mkFile "" false) /\ io_seen s' = io_disk s' :: io_seen s
  end.
Proof.
  intros [(err & -> & Hd & Hs)|(i & d & Hf & -> & Hd & Hs)]%ioOp_inv Hok Hp; [done|]. rewrite Hd, Hs. clear Hd Hs.
  destruct (dk_dirs (io_disk s) !! dir) as [x|] eqn:Ex; [|done]. destruct (dir_names x !! tmp) as [j|] eqn:Et.
  - injection Hf as <- <-. assert (inode (io_disk s) dir tmp = Some j) as Hi by (unfold inode; by rewrite Ex).
    split_and!; [|exact Hi|by exists x|simpl; by rewrite lookup_insert_eq|done]. split; simpl; try done; [|intros dir' name' Hne Hr|by left].
    + intros k Hk. by rewrite lookup_insert_ne.
    + by apply Hne, (Hp j).
  - by eapply newFile_opened.
Qed.

Section write.
Context (start : disk) (dir tmp name : string) (i : nat) (Htmp : tmp <> name) (data : string).
Local Abbreviation Staged := (staged start dir tmp i).
Local Abbreviation Fine := (old_or_new start dir tmp name data).
(** Open for writing: the file is only under its temporary name. *)
Record open_tmp (s : Io) (text : string) (synced : bool) : Prop := {
  ot_staged : Staged (io_disk s);
  ot_name : inode (io_disk s) dir tmp = Some i;
  ot_dir : is_Some (dk_dirs (io_disk s) !! dir);
  ot_file : dk_files (io_disk s) !! i = Some (mkFile text synced) }.

Lemma writeFd_open s text b more r s' :
  writeFd i more s = (r, s') -> open_tmp s text b ->
  seenSince s s' Fine /\
  match r with
  | inl _ => exists text', open_tmp s' text' false
  | inr _ => open_tmp s' (text +:+ more)%string false
  end.
Proof.
  intros H [Hs Hn Hd Hf]. unfold writeFd in H. cbn beta zeta in H. set (s1 := s <| io_tick ::= S |>) in H.
  set (d := (io_disk s1) <| dk_files ::= _ |>) in H. injection H as <- <-.
  assert (Staged d) as Hs'. { apply staged_files; [done|]. intros j Hj. by apply lookup_alter_ne. }
  assert (open_tmp (s1 <| io_disk := d |> <| io_seen ::= (fun l => d :: l) |>) (text +:+ wrote s1 more)%string false) as Ho.
  { split; [exact Hs'|exact Hn|exact Hd|]. simpl. by rewrite lookup_alter_eq, Hf. }
  split; [apply (seenSince_step _ _ d); [done|by eapply staged_old]|].
  unfold wrote in Ho. simpl in Ho |- *. destruct (io_fail s WriteCall (S (io_tick s))); [eexists; exact Ho|exact Ho].
Qed.
Lemma syncFd_open s text b r s' :
  syncFd i s = (r, s') -> open_tmp s text b ->
  seenSince s s' Fine /\ open_tmp s' text (match r with inl _ => b | inr _ => true end).
Proof.
  intros [(err & -> & Hd & Hs)|(a & d & Hf & -> & Hd & Hs)]%ioOp_inv [Ho Hn Hx Hfile].
  - split; [by apply seenSince_same|]. by split; rewrite Hd.
  - injection Hf as <- <-. assert (Staged ((io_disk s) <| dk_files ::= alter (fun f => mkFile (f_data f) true) i |>)) as Hs'.
    { apply staged_files; [done|]. intros j Hj. by apply lookup_alter_ne. }
    split; [eapply seenSince_step; [exact Hs|by eapply staged_old]|].
    split; rewrite Hd; [done..|]. simpl. by rewrite lookup_alter_eq, Hfile.
Qed.
(** A step that changes nothing of it. *)
Lemma idle_open {c} s text b (f : disk -> error + unit * disk) r s' :
  (forall d, f d = inr (tt, d)) -> ioOp c f s = (r, s') -> open_tmp s text b -> seenSince s s' Fine /\ open_tmp s' text b.
Proof.
  intros Hf0 [(err & -> & Hd & Hs)|(a & d & Hf & -> & Hd & Hs)]%ioOp_inv [Ho Hn Hx Hfile].
  - split; [by apply seenSince_same|]. by split; rewrite Hd.
  - rewrite Hf0 in Hf. injection Hf as <- <-. split; [eapply seenSince_step; [exact Hs|by eapply staged_old]|]. by split; rewrite Hd.
Qed.
Lemma rename_open s r s' :
  rename dir tmp dir name s = (r, s') -> open_tmp s data true ->
  seenSince s s' Fine /\ match r with inl _ => open_tmp s' data true | inr _ => placed start dir tmp name i data (io_disk s') end.
Proof.
  intros [(err & -> & Hd & Hs)|(a & d & Hf & -> & Hd & Hs)]%ioOp_inv [Ho Hn Hx Hfile].
  - split; [by apply seenSince_same|]. by split; rewrite Hd.
  - rewrite Hn in Hf. destruct Hx as [x Hx]. rewrite Hx, decide_True in Hf by done. injection Hf as <- <-.
    assert (placed start dir tmp name i data (onNames dir (fun names => <[name := i]> (delete tmp names)) (io_disk s))) as Hp
      by (apply staged_rename; eauto).
    rewrite Hd. split; [eapply seenSince_step; [exact Hs|by eapply placed_new]|done].
Qed.
Lemma remove_open s r s' :
  remove dir tmp s = (r, s') -> Staged (io_disk s) -> seenSince s s' Fine /\ Staged (io_disk s').
Proof.
  intros [(err & -> & Hd & Hs)|(a & d & Hf & -> & Hd & Hs)]%ioOp_inv Ho.
  - split; [by apply seenSince_same|by rewrite Hd].
  - destruct (inode _ dir tmp); [|by case_match]. injection Hf as <- <-.
    assert (Staged (onNames dir (delete tmp) (io_disk s))) by (apply staged_touch; [apply delete_tmp|intros ?; apply lookup_delete_eq|done]).
    rewrite Hd. split; [eapply seenSince_step; [exact Hs|by eapply staged_old]|done].
Qed.
Lemma remove_placed s r s' :
  remove dir tmp s = (r, s') -> placed start dir tmp name i data (io_disk s) ->
  seenSince s s' Fine /\ placed start dir tmp name i data (io_disk s').
Proof.
  intros [(err & -> & Hd & Hs)|(a & d & Hf & -> & Hd & Hs)]%ioOp_inv Ho.
  - split; [by apply seenSince_same|by rewrite Hd].
  - destruct (inode _ dir tmp); [|by case_match]. injection Hf as <- <-.
    assert (placed start dir tmp name i data (onNames dir (delete tmp) (io_disk s))) by (apply placed_touch; try done; [apply delete_tmp|intros ?; apply lookup_delete_eq]).
    rewrite Hd. split; [eapply seenSince_step; [exact Hs|by eapply placed_new]|done].
Qed.
End write.

(** A step that only looks. *)
Lemma look_same {A} {c} (f : disk -> error + A * disk) s r s' (P : disk -> Prop) :
  (forall d a d', f d = inr (a, d') -> d' = d) -> ioOp c f s = (r, s') -> P (io_disk s) -> seenSince s s' P /\ io_disk s' = io_disk s.
Proof.
  intros Hf0 [(err & -> & Hd & Hs)|(a & d & Hf & -> & Hd & Hs)]%ioOp_inv HP; [split; [by apply seenSince_same|done]|].
  apply Hf0 in Hf as ->. split; [by eapply seenSince_step|done].
Qed.
Lemma old_or_new_refl start dir tmp name data : old_or_new start dir tmp name data start.
Proof. intros dir' name' o _ H. by left. Qed.

(** Syncing the directory. *)
Lemma reach_syncDir dir d dir' name v :
  reach (d <| dk_dirs ::= alter (fun x => mkDirectory (dir_names x) []) dir |>) dir' name v -> reach d dir' name v.
Proof.
  intros (names & Hn & Hv). exists names. split; [|done]. unfold candidates in *. simpl in Hn. destruct (decide (dir' = dir)) as [->|].
  - rewrite lookup_alter_eq in Hn. destruct (dk_dirs d !! dir); [|done]. simpl in Hn. apply list_elem_of_singleton in Hn as ->. by left.
  - by rewrite lookup_alter_ne in Hn.
Qed.
Lemma inode_syncDir dir d dir' name :
  inode (d <| dk_dirs ::= alter (fun x => mkDirectory (dir_names x) []) dir |>) dir' name = inode d dir' name.
Proof.
  unfold inode. simpl. destruct (decide (dir' = dir)) as [->|]; [rewrite lookup_alter_eq; by destruct (dk_dirs d !! dir)|by rewrite lookup_alter_ne].
Qed.
(** A synced directory can only be found as it is. *)
Definition settled (d : disk) (dir : string) : Prop := forall name v, reach d dir name v -> v = inode d dir name.
Lemma settled_syncDir dir d : settled (d <| dk_dirs ::= alter (fun x => mkDirectory (dir_names x) []) dir |>) dir.
Proof.
  intros name v (names & Hn & Hv). unfold candidates in Hn. unfold inode. simpl in *. rewrite lookup_alter_eq in *.
  destruct (dk_dirs d !! dir); simpl in *; apply list_elem_of_singleton in Hn as ->; by rewrite <- Hv.
Qed.
Lemma syncDir_placed start dir tmp name i data s r s' :
  syncDir dir s = (r, s') -> placed start dir tmp name i data (io_disk s) ->
  seenSince s s' (old_or_new start dir tmp name data) /\ placed start dir tmp name i data (io_disk s') /\
  ((forall n, io_fail s SyncDirCall n = None) -> settled (io_disk s') dir).
Proof.
  intros H Ho. assert ((forall n, io_fail s SyncDirCall n = None) -> settled (io_disk s') dir) as Hset.
  { intros Hf. unfold syncDir, ioOp in H. simpl in H. rewrite Hf in H. injection H as _ <-. apply settled_syncDir. }
  apply ioOp_inv in H as [(err & -> & Hd & Hs)|(a & d & [= <- <-] & -> & Hd & Hs)].
  - split; [by apply seenSince_same|]. by rewrite Hd in Hset |- *.
  - rewrite Hd in Hset |- *. clear Hd. match type of Hs with _ = ?x :: _ => assert (placed start dir tmp name i data x) as Hp end.
    { destruct Ho as [Hr Hn Hfi Ha Hfile Hrest Hg Ht]. split; try done.
      - intros dir' name' v Hne Hv%(reach_syncDir dir (io_disk s)). by apply Hr.
      - by rewrite (inode_syncDir dir (io_disk s)).
      - intros dir' name' Hne Hne'. rewrite (inode_syncDir dir (io_disk s)). by apply Hrest.
      - by rewrite (inode_syncDir dir (io_disk s)).
      - intros v Hv%(reach_syncDir dir (io_disk s)). by apply Ht. }
    split; [eapply seenSince_step; [exact Hs|by eapply placed_new]|done].
Qed.

(** A name that is as it was. *)
Definition sameAt (d0 d : disk) (dir name : string) : Prop := inode d dir name = inode d0 dir name /\ dataAt d dir name = dataAt d0 dir name.
Lemma sameAt_refl d dir name : sameAt d d dir name.
Proof. done. Qed.
Lemma sameAt_trans d1 d2 d3 dir name : sameAt d1 d2 dir name -> sameAt d2 d3 dir name -> sameAt d1 d3 dir name.
Proof. intros [? ?] [? ?]. split; congruence. Qed.
Lemma sameAt_files d0 d dir name i :
  inode d dir name = inode d0 dir name -> (forall j, j <> i -> dk_files d !! j = dk_files d0 !! j) -> ~ reach d0 dir name (Some i) -> sameAt d0 d dir name.
Proof.
  intros Hn Hf Ha. split; [done|]. unfold dataAt. rewrite Hn. destruct (inode d0 dir name) as [j|] eqn:Ej; [|done]. simpl. rewrite Hf; [done|].
  intros ->. apply Ha. rewrite <- Ej. apply inode_reach.
Qed.
Lemma staged_same start dir tmp i d dir' name' : staged start dir tmp i d -> (dir', name') <> (dir, tmp) -> sameAt start d dir' name'.
Proof. intros [_ Hn Hf Ha _] Hne. by apply (sameAt_files _ _ _ _ i); [apply Hn|done|apply Ha]. Qed.
Lemma placed_same start dir tmp name i data d dir' name' :
  placed start dir tmp name i data d -> (dir', name') <> (dir, tmp) -> (dir', name') <> (dir, name) -> sameAt start d dir' name'.
Proof. intros [_ _ Hf Ha _ Hn _ _] Hne Hne'. by apply (sameAt_files _ _ _ _ i); [apply Hn|done|apply Ha]. Qed.

(** Removing a name leaves the others. *)
Section deleting.
Context (d : disk) (dir name : string).
Local Abbreviation d' := (onNames dir (delete name) d).
Lemma delete_same dir' name' : (dir', name') <> (dir, name) -> sameAt d d' dir' name'.
Proof.
  intros Hne. assert (inode d' dir' name' = inode d dir' name') as E by (apply (inode_touch dir name); [apply delete_tmp|done]).
  split; [done|]. unfold dataAt. by rewrite E.
Qed.
Lemma delete_survives dir' name' o : (dir', name') <> (dir, name) -> survives d' dir' name' o -> survives d dir' name' o.
Proof.
  intros Hne (v & Hv & Ho)%survives_reach. apply survives_reach. exists v. split; [|done].
  by apply (reach_touch dir name) in Hv; [|apply delete_tmp|].
Qed.
Lemma delete_gone : inode d' dir name = None.
Proof. rewrite inode_onNames, decide_True by done. destruct (dk_dirs d !! dir); [|done]. simpl. apply lookup_delete_eq. Qed.
Lemma delete_private dir' name' : private d dir' name' -> private d' dir' name'.
Proof.
  intros Hp i dir2 name2 Hi Hr. apply (Hp i).
  - rewrite inode_onNames in Hi. unfold inode. case_decide as E; [subst; destruct (dk_dirs d !! dir); [|done]; simpl in *; by apply lookup_delete_Some in Hi as [_ ?]|done].
  - apply reach_onNames in Hr as [Hr|(-> & x & Hx & E)]; [done|]. symmetry in E. apply lookup_delete_Some in E as [_ <-]. by apply reach_now.
Qed.
End deleting.
Lemma remove_inv dir name s r s' :
  remove dir name s = (r, s') ->
  match r with
  | inl _ => io_disk s' = io_disk s /\ io_seen s' = io_seen s
  | inr _ => is_Some (inode (io_disk s) dir name) /\ io_disk s' = onNames dir (delete name) (io_disk s) /\ io_seen s' = io_disk s' :: io_seen s
  end.
Proof.
  intros [(err & -> & Hd & Hs)|(a & d & Hf & -> & Hd & Hs)]%ioOp_inv; [done|]. destruct (inode _ dir name) eqn:E; [|by case_match]. injection Hf as <- <-.
  rewrite Hd. by split_and!.
Qed.

(** ** What all code on the disk keeps

    [steady F]: the outside is [F], and the disk is in order. *)
Definition steady (F : fileCall -> nat -> option error) (s : Io) : Prop := io_fail s = F /\ disk_ok (io_disk s).
Class Steadies {A} (e : IO A) := steadies F s r s' : e s = (r, s') -> steady F s -> steady F s'.

Lemma disk_ok_onNames dir f d :
  disk_ok d -> (forall x n i, dk_dirs d !! dir = Some x -> f (dir_names x) !! n = Some i -> (i < dk_next d)%nat /\ is_Some (dk_files d !! i)) ->
  disk_ok (onNames dir f d).
Proof. intros [H1 H2] Hf. split; intros dir' name i [H|(-> & x & Hx & H)]%reach_onNames; eauto; by eapply Hf. Qed.
Lemma disk_ok_files g d : disk_ok d -> (forall i, is_Some (dk_files d !! i) -> is_Some (g (dk_files d) !! i)) -> disk_ok (d <| dk_files ::= g |>).
Proof. intros [H1 H2] Hg. split; intros dir name i H; [by apply (H1 dir name)|]. apply Hg. by eapply H2. Qed.
Lemma disk_ok_delete dir name d : disk_ok d -> disk_ok (onNames dir (delete name) d).
Proof.
  intros Hd. apply disk_ok_onNames; [done|]. intros x n i Hx Hn. apply lookup_delete_Some in Hn as [_ Hn].
  pose proof (reach_now d dir n x Hx) as H. rewrite Hn in H. destruct Hd; eauto.
Qed.
Lemma disk_ok_insert dir name i d : disk_ok d -> (i < dk_next d)%nat -> is_Some (dk_files d !! i) -> disk_ok (onNames dir <[name := i]> d).
Proof.
  intros Hd Hi Hf. apply disk_ok_onNames; [done|]. intros x n j Hx Hn. apply lookup_insert_Some in Hn as [[_ <-]|[_ Hn]]; [done|].
  pose proof (reach_now d dir n x Hx) as H. rewrite Hn in H. destruct Hd; eauto.
Qed.
Lemma disk_ok_newFile dir name d : disk_ok d -> disk_ok (newFile dir name d).2.
Proof.
  intros Hd. unfold newFile. simpl. apply disk_ok_insert; simpl; [|lia|by rewrite lookup_insert_eq].
  destruct Hd as [H1 H2]. split; simpl; intros dir' n i H; [apply Nat.lt_lt_succ_r; by eapply H1|].
  rewrite lookup_insert_is_Some. destruct (decide (dk_next d = i)); [by left|right]. split; [done|]. by eapply H2.
Qed.

Lemma disk_ok_new dir name d i d' : (inr (newFile dir name d) : error + nat * disk) = inr (i, d') -> disk_ok d -> disk_ok d'.
Proof. intros [= E1 E2] Hd. pose proof (disk_ok_newFile dir name d Hd) as H. simpl in H. by rewrite <- E2. Qed.
Lemma Steadies_op {A} c (f : disk -> error + A * disk) : (forall d a d', f d = inr (a, d') -> disk_ok d -> disk_ok d') -> Steadies (ioOp c f).
Proof.
  intros Hf F s r s' H [HF Hd]. unfold ioOp in H. simpl in H. destruct (io_fail s c _); [by simplify_eq|].
  destruct (f (io_disk s)) as [err|[a d]] eqn:E; simplify_eq; split; try done. by eapply Hf.
Qed.
#[export] Instance Steadies_ret {A} (a : A) : Steadies (mret a).
Proof. intros F s r s' [= <- <-]. done. Qed.
#[export] Instance Steadies_ok {A} (a : A) : Steadies (ioOk a).
Proof. apply Steadies_ret. Qed.
#[export] Instance Steadies_fail {A} err : Steadies (@ioFail A err).
Proof. apply Steadies_ret. Qed.
Lemma Steadies_bind {A B} (e : IO A) (k : A -> IO B) : Steadies e -> (forall a, Steadies (k a)) -> Steadies (e ≫= k).
Proof. intros He Hk F s r s' (a & s1 & E & H)%io_bind_inv Hs. eapply Hk; [exact H|]. by eapply He. Qed.
Lemma Steadies_try {A B} (e : IO (error + A)) (k : A -> IO (error + B)) : Steadies e -> (forall a, Steadies (k a)) -> Steadies (ioTry e k).
Proof. intros He Hk. apply Steadies_bind; [done|]. intros [err|a]; [apply Steadies_ret|apply Hk]. Qed.
#[export] Instance Steadies_createTemp dir name : Steadies (createTemp dir name).
Proof. apply Steadies_op. intros d a d' H Hd. case_match; [|done]. case_match; [done|]. by eapply disk_ok_new. Qed.
#[export] Instance Steadies_openTruncated dir name : Steadies (openTruncated dir name).
Proof.
  apply Steadies_op. intros d a d' H Hd. case_match; [|done]. case_match; [|by eapply disk_ok_new]. simplify_eq.
  apply disk_ok_files; [done|]. intros j Hj. rewrite lookup_insert_is_Some. destruct (decide (a = j)); auto.
Qed.
#[export] Instance Steadies_writeFd i data : Steadies (writeFd i data).
Proof.
  intros F s r s' [= <- <-] [HF Hd]. split; [done|]. simpl. apply disk_ok_files; [done|]. intros j. by rewrite lookup_alter_is_Some.
Qed.
#[export] Instance Steadies_syncFd i : Steadies (syncFd i).
Proof. apply Steadies_op. intros d a d' [= <- <-] Hd. apply disk_ok_files; [done|]. intros j. by rewrite lookup_alter_is_Some. Qed.
#[export] Instance Steadies_closeFd i : Steadies (closeFd i).
Proof. apply Steadies_op. by intros d a d' [= <- <-]. Qed.
#[export] Instance Steadies_chmod dir name : Steadies (chmod dir name).
Proof. apply Steadies_op. by intros d a d' [= <- <-]. Qed.
#[export] Instance Steadies_remove dir name : Steadies (remove dir name).
Proof. apply Steadies_op. intros d a d' H Hd. case_match; [|by case_match]. simplify_eq. by apply disk_ok_delete. Qed.
#[export] Instance Steadies_rename dir name dir' name' : Steadies (rename dir name dir' name').
Proof.
  apply Steadies_op. intros d a d' H Hd. destruct (inode d dir name) as [i|] eqn:Ei; [|done]. case_match; [|done]. simplify_eq.
  pose proof (inode_reach d dir name) as Hr. rewrite Ei in Hr. assert ((i < dk_next d)%nat /\ is_Some (dk_files d !! i)) as [Hi Hf] by (destruct Hd; eauto).
  case_decide; [|by apply disk_ok_delete, disk_ok_insert].
  apply disk_ok_onNames; [done|]. intros x n j Hx [[_ <-]|[_ [_ Hn]%lookup_delete_Some]]%lookup_insert_Some; [done|].
  pose proof (reach_now d dir n x Hx) as Hrn. rewrite Hn in Hrn. destruct Hd; eauto.
Qed.
#[export] Instance Steadies_syncDir dir : Steadies (syncDir dir).
Proof.
  apply Steadies_op. intros d a d' [= <- <-] Hd.
  destruct Hd as [H1 H2]. split; simpl; intros *; intros ?%reach_syncDir; eauto.
Qed.
#[export] Instance Steadies_openFd dir name : Steadies (openFd dir name).
Proof. apply Steadies_op. intros d a d' H Hd. by case_match; simplify_eq. Qed.
#[export] Instance Steadies_readFd i : Steadies (readFd i).
Proof. apply Steadies_op. intros d a d' H Hd. by case_match; simplify_eq. Qed.
#[export] Instance Steadies_stat dir name : Steadies (stat dir name).
Proof. apply Steadies_op. intros d a d' H Hd. by repeat case_match; simplify_eq. Qed.
(** One step of a proof that code keeps the disk in order. *)
Ltac steady :=
  repeat first [ progress cbn beta iota | apply Steadies_try; [|intros ?] | apply Steadies_bind; [|intros ?] | apply _ | case_match ].
