(* ===== verification/Refresh.v ===== *)
(** * Refresh: moving the pins of base images

    The rest of [cork/basepins.go]: reading and replacing the pin file, which
    base images the challenge tree uses, and the refresh that resolves each of
    them again.  The tree is as the walk finds it ([Files]), the daemon's
    answers are the oracle's, and what a daemon says beyond success, what
    [os.Stat] answers, the order of a map and [encoding/json] are arguments. *)
From S2P Require Import Prelude Types Settings Text Regex Submatch Artifacts Queue Worker Database Fleet HostConfig Effects Ports Instances Images Seccomp Docker Launch Lifecycle Builds Converge Builder Schemas HandOver Preload BasePins Files.
Local Open Scope Z_scope.

Record basePins := mkBasePins { bp_dir : string; bp_name : string; bp_m : pinMap }.
#[export] Instance eta_basePins : Eta basePins := fun b => mkBasePins (bp_dir b) (bp_name b) (bp_m b).
Definition snapshot (b : basePins) : pinMap := bp_m b.
Definition replace (m : pinMap) (b : basePins) : basePins := b <| bp_m := m |>.
Definition basePinsChecksum (b : option basePins) : Z := match b with None => 0 | Some b => pinsChecksum (bp_m b) end.

Record BasePin := mkBasePin { bpn_ref : string; bpn_digest : string; bpn_inUse : nat }.

(** ** The pin file *)
Section file.
Context (encode : pinMap -> error + string) (decode : string -> error + pinMap).
Definition isDigest (d : string) : bool := HasPrefix d "sha256:".
(** [data] is what reading the file comes to. *)
Definition readBasePins (data : error + string) : error + pinMap :=
  match data with
  | inl err => if errors_Is err notExist then inr ∅ else inl err
  | inr data =>
    if decide (trimSpaceLeft data = ""%string) then inr ∅
    else
      match decode data with
      | inl err => inl err
      | inr pins => if decide (map_Forall (fun _ d => isDigest d = true) pins) then inr pins else inl [OtherError "not a sha256 digest"]
      end
  end.

(** Where the pins are, and what they are when the daemon starts; [abs] is
    [filepath.Abs], [read] is [os.ReadFile]. *)
Definition BASE_PINS_ENV : string := "CORK_BASE_PINS".
Definition initBasePins (externalBuildPlane : bool) (env : environ) (chalDir : string) (abs read : string -> error + string)
    : option error * option basePins :=
  if externalBuildPlane then (None, None)
  else
    let path := default (Join chalDir ".base-pins.json") (LookupEnv env BASE_PINS_ENV) in
    match abs path with
    | inl err => (Some err, None)
    | inr abs =>
      let b := mkBasePins (Dir abs) (Base abs) ∅ in
      match readBasePins (read abs) with
      | inl err => (Some err, Some b)
      | inr pins => (None, Some (replace pins b))
      end
    end.

(** The file is written, made safe, and only then gets its name. *)
Definition fillAndRename (dir name tmp : string) (fd : nat) (data : string) : IO (error + unit) :=
  r ← writeFd fd data;
  match r with
  | inl err => closeFd fd;; ioFail err
  | inr _ =>
    r ← syncFd fd;
    match r with
    | inl err => closeFd fd;; ioFail err
    | inr _ => io? _ := closeFd fd in io? _ := chmod dir tmp in rename dir tmp dir name
    end
  end.
(** The temporary name is one [CreateTemp] finds free. *)
Definition writeBasePins (dir name tmp : string) (pins : pinMap) : IO (error + unit) :=
  match encode pins with
  | inl err => ioFail err
  | inr data =>
    io? fd := createTemp dir tmp in
    r ← fillAndRename dir name tmp fd (data +:+ String newline "")%string;
    remove dir tmp;;
    mret r
  end.
End file.

Section refresh.
Context (unicodeLower : string -> string) (encode : pinMap -> error + string).
Context (statOk : string -> bool) (getDockerfile : string -> string).
(** The tree of a walk, the digest a registry answers, the digests of a local
    image, the order a map is gone through in, the name of a temporary file. *)
Context (chalDir chalName : string) (tree : nat -> error + node) (registryDigest : nat -> string) (repoDigests : nat -> list string).
Context (order : nat -> gset string -> list string) (tempName : nat -> string).
Definition answer {A} (f : nat -> A) : M A := ask (fun _ => f).

(** ** What the tree uses *)
Abbreviation counts := (gmap string nat).
Definition count (ref : string) (refs : counts) : counts := <[ref := S (default O (refs !! ref))]> refs.
Definition scanRefsFn (path name : string) (n : option node) (err : option error) (refs : counts) : walkAction * counts :=
  match err, n with
  | Some err, _ => (Stop err, refs)
  | None, None => (Continue, refs)
  | None, Some n =>
    if isDir n then (if HasPrefix name "." && negb (bool_decide (path = chalDir)) then SkipDir else Continue, refs)
    else if decide (name <> "Dockerfile"%string) then (Continue, refs)
    else if negb (statOk (joinName (Dir path) "problem.md")) then (Continue, refs)
    else
      match readFile n with
      | inl err => (Stop err, refs)
      | inr data =>
        match scanFromInstructions unicodeLower (SplitOn newline data) with
        | None => (Continue, refs)
        | Some found => (Continue, foldl (fun refs f => count (br_ref f) refs) refs found)
        end
      end
  end.
Definition builtinTypes : list string := ["flag-only"; "remote-make"; "static-make"].
Definition scanTree (n : error + node) : error + counts :=
  match Walk scanRefsFn chalDir chalName n ∅ with
  | (Some err, _) => inl err
  | (None, refs) =>
    inr (foldl (fun refs t => foldl (fun refs ref => count ref refs) refs (elements (externalBaseRefs unicodeLower (getDockerfile t)))) refs builtinTypes)
  end.
Definition scanBaseRefs : M (error + counts) := n ← answer tree; mret (scanTree n).

Definition ListBasePins (b : option basePins) : M (error + list BasePin) :=
  m ← getM;
  if m_externalBuildPlane m then fail [ErrExternalBuildPlane]
  else
    match b with
    | None => ok []
    | Some b =>
      let? used := scanBaseRefs in
      ok ((fun ref => mkBasePin ref (default ""%string (bp_m b !! ref)) (default O (used !! ref))) <$> sorted (dom (bp_m b)))
    end.

(** ** Resolving *)
Definition orElse (registryErr : option error) (err : error) : error := default err registryErr.
(** The digest of the local copy. *)
Definition resolveLocal (ref : string) (registryErr : option error) : M (error + string) :=
  r ← docker None (ImageInspect ref);
  match r with
  | inl localErr => fail (orElse registryErr localErr)
  | inr _ =>
    rds ← answer repoDigests;
    match list_find (fun rd => HasPrefix rd (refName ref +:+ "@")%string = true) rds with
    | Some (_, rd) => ok (default ""%string (snd <$> Cut "@" rd))
    | None => fail (orElse registryErr [OtherError "no digest"])
    end
  end.
Definition resolveDigest (ref : string) : M (error + string) :=
  r ← docker None (DistributionInspect ref);
  match r with
  | inr _ => d ← answer registryDigest; if decide (d <> ""%string) then ok d else resolveLocal ref None
  | inl err => resolveLocal ref (Some err)
  end.

Definition basePinsRefreshBudget (perCall : Z) (n : nat) : Z :=
  let reserve := mul64 2 perCall in add64 reserve (Z.max reserve (div64 (mul64 (Z.of_nat n) perCall) 5)).

Definition gaveUp : error := [OtherError "refresh gave up"].
Fixpoint resolveAll (deadline reserve : Z) (refs : list string) (pins : pinMap) (errs : list error) : M (pinMap * list error) :=
  match refs with
  | [] => mret (pins, errs)
  | ref :: refs =>
    t ← now;
    if decide (deadline - t < reserve) then mret (pins, errs ++ [gaveUp])
    else
      r ← resolveDigest ref;
      match r with
      | inl err => resolveAll deadline reserve refs pins (errs ++ [err])
      | inr digest => resolveAll deadline reserve refs (<[ref := digest]> pins) errs
      end
  end.
(** What is in use keeps the pin it has. *)
Definition seedPins (existing : pinMap) (used : counts) : pinMap :=
  map_imap (fun ref _ => lookupPin existing ref) used.

(** The answer, the pins then in force, and the disk. *)
Definition RefreshBasePins (b : option basePins) (io : Io) : M (option (list BasePin) * option error * option basePins * Io) :=
  m ← getM;
  let refuse err := mret (None, Some err, b, io) in
  if m_externalBuildPlane m then refuse [ErrExternalBuildPlane]
  else
    match b with
    | None => refuse [OtherError "base pinning is not configured"]
    | Some bp =>
      used ← scanBaseRefs;
      match used with
      | inl err => refuse err
      | inr used =>
        let perCall := controlTimeout (timing (m_workerTiming m)) in
        t ← now;
        refs ← answer order;
        '(pins, errs) ← resolveAll (t + basePinsRefreshBudget perCall (size used)) (mul64 2 perCall) (refs (dom used)) (seedPins (bp_m bp) used) [];
        if decide (errs <> [] /\ pins = ∅) then refuse [OtherError "could not resolve any base image"]
        else
          tmp ← answer tempName;
          match writeBasePins encode (bp_dir bp) (bp_name bp) tmp pins io with
          | (inl err, io) => mret (None, Some err, b, io)
          | (inr _, io) =>
            let b := Some (replace pins bp) in
            out ← ListBasePins b;
            match out with
            | inl err => mret (None, Some err, b, io)
            | inr out => mret (Some out, if decide (errs = []) then None else Some [OtherError "some references could not be resolved"], b, io)
            end
          end
      end
    end.
End refresh.


(** ** The pin file is replaced whole *)

Lemma fillAndRename_spec start dir name tmp i data s1 r2 s2 :
  tmp <> name -> fillAndRename dir name tmp i data s1 = (r2, s2) -> open_tmp start dir tmp i s1 "" false ->
  seenSince s1 s2 (old_or_new start dir tmp name data) /\
  match r2 with inl _ => staged start dir tmp i (io_disk s2) | inr _ => placed start dir tmp name i data (io_disk s2) end.
Proof.
  intros Htmp.
  intros E2 Ho. unfold fillAndRename in E2. ioStep E2 rw sw Ew. apply (writeFd_open _ _ _ name _ data _ _ _ _ _ _ Ew) in Ho as [Hsw Ho].
  assert (forall err t b se, open_tmp start dir tmp i se t b -> seenSince s1 se (old_or_new start dir tmp name data) ->
    (closeFd i;; ioFail err) se = (r2, s2) ->
    seenSince s1 s2 (old_or_new start dir tmp name data) /\
    match r2 with inl _ => staged start dir tmp i (io_disk s2) | inr _ => placed start dir tmp name i data (io_disk s2) end) as Hclose.
  { intros err t b se Hoe Hse E. ioStep E rc sq Ec. injection E as <- <-.
    apply (idle_open _ _ _ name _ data _ _ _ _ _ _ (fun d => eq_refl) Ec) in Hoe as [Hsc [Hst _ _ _]]. split; [by eapply seenSince_trans|done]. }
  destruct rw as [err|[]]; [destruct Ho as [t Ho]; by eapply Hclose|]. change ("" +:+ data)%string with data in Ho.
  ioStep E2 rs ss Es. apply (syncFd_open _ _ _ name _ data _ _ _ _ _ Es) in Ho as [Hss Ho].
  pose proof (seenSince_trans _ _ _ _ Hsw Hss) as Hss'. destruct rs as [err|[]]; [by eapply Hclose|].
  apply io_try_inr in E2 as [(err & Ec & ->)|([] & sq & Ec & E2)].
  { apply (idle_open _ _ _ name _ data _ _ _ _ _ _ (fun d => eq_refl) Ec) in Ho as [Hsc [? _ _ _]]. split; [by eapply seenSince_trans|done]. }
  apply (idle_open _ _ _ name _ data _ _ _ _ _ _ (fun d => eq_refl) Ec) in Ho as [Hsc Ho]. pose proof (seenSince_trans _ _ _ _ Hss' Hsc) as Hsc'.
  apply io_try_inr in E2 as [(err & Em & ->)|([] & sm & Em & E2)].
  { apply (idle_open _ _ _ name _ data _ _ _ _ _ _ (fun d => eq_refl) Em) in Ho as [Hsm [? _ _ _]]. split; [by eapply seenSince_trans|done]. }
  apply (idle_open _ _ _ name _ data _ _ _ _ _ _ (fun d => eq_refl) Em) in Ho as [Hsm Ho]. pose proof (seenSince_trans _ _ _ _ Hsc' Hsm) as Hsm'.
  apply (rename_open _ _ _ name _ Htmp data _ _ _ E2) in Ho as [Hsr Hr]. split; [by eapply seenSince_trans|].
  destruct r2; [by destruct Hr|done].
Qed.

Lemma writeBasePins_seen encode dir name tmp pins text s r s' :
  let data := (text +:+ String newline "")%string in
  encode pins = inr text -> tmp <> name -> disk_ok (io_disk s) ->
  writeBasePins encode dir name tmp pins s = (r, s') ->
  (exists new, io_seen s' = new ++ io_seen s /\
     Forall (fun d => forall dir' name' o, (dir', name') <> (dir, tmp) -> survives d dir' name' o ->
       survives (io_disk s) dir' name' o \/ (dir', name') = (dir, name) /\ o = Some data) new) /\
  match r with
  | inr _ => dataAt (io_disk s') dir name = Some data
  | inl _ => forall dir' name', (dir', name') <> (dir, tmp) -> inode (io_disk s') dir' name' = inode (io_disk s) dir' name'
  end.
Proof.
  intros data He Htmp Hok H. unfold writeBasePins in H. rewrite He in H. 
  match goal with |- _ /\ ?Q => change (seenSince s s' (old_or_new (io_disk s) dir tmp name data) /\ Q) end.
  apply io_try_inr in H as [(err & E & ->)|(i & s1 & E1 & H)].
  { apply createTemp_staged in E as [Hd Hs]; [|done]. rewrite Hd. split; [by apply seenSince_same|done]. }
  apply createTemp_staged in E1 as (Hst & Hn & Hx & Hf & Hseen); [|done].
  pose proof (staged_old _ _ _ name i data _ Hst) as Hold.
  assert (open_tmp (io_disk s) dir tmp i s1 "" false) as Ho by done.
  assert (seenSince s s1 (old_or_new (io_disk s) dir tmp name data)) as Hs1 by (eapply seenSince_step; eauto).
  clear Hst Hn Hx Hf Hseen Hold. ioStep H r2 s2 E2.
  assert (seenSince s1 s2 (old_or_new (io_disk s) dir tmp name data) /\
    match r2 with inl _ => staged (io_disk s) dir tmp i (io_disk s2) | inr _ => placed (io_disk s) dir tmp name i data (io_disk s2) end) as [Hs2 H2].
  { by eapply fillAndRename_spec. }
  ioStep H u s3 E3. injection H as <- <-. destruct r2 as [err|[]].
  - destruct (remove_open _ _ _ name _ data _ _ _ E3 H2) as [Hs3 [_ Hnow _ _ _]].
    split; [by do 2 (eapply seenSince_trans; [eassumption|])|done].
  - destruct (remove_placed _ _ _ name _ data _ _ _ E3 H2) as [Hs3 [_ Hnow _ _ Hfile _ _ _]].
    split; [by do 2 (eapply seenSince_trans; [eassumption|])|]. unfold dataAt. rewrite Hnow. simpl. by rewrite Hfile.
Qed.

(** The pin file is replaced atomically: at every moment of a
    refresh's write a crash finds under the file's name what it could have
    found before it, or the whole new map -- never a part of one, although
    every operation may fail, a failing write may leave a part, and what was
    not synced may come back as anything; every other file is as it was.
    Success means the name leads to the new map, failure that it still leads
    where it did. *)
Theorem writeBasePins_atomic encode dir name tmp pins text s r s' :
  let data := (text +:+ String newline "")%string in
  encode pins = inr text -> tmp <> name -> disk_ok (io_disk s) ->
  writeBasePins encode dir name tmp pins s = (r, s') ->
  (exists new, io_seen s' = new ++ io_seen s /\
     Forall (fun d => forall dir' name' o, (dir', name') <> (dir, tmp) -> survives d dir' name' o ->
       survives (io_disk s) dir' name' o \/ (dir', name') = (dir, name) /\ o = Some data) new) /\
  match r with
  | inr _ => dataAt (io_disk s') dir name = Some data
  | inl _ => forall dir' name', (dir', name') <> (dir, tmp) -> inode (io_disk s') dir' name' = inode (io_disk s) dir' name'
  end.
Proof. apply writeBasePins_seen. Qed.

(** ** What a refresh does to the pins *)
Section refreshed.
Context (unicodeLower : string -> string) (encode : pinMap -> error + string).
Context (statOk : string -> bool) (getDockerfile : string -> string).
Context (chalDir chalName : string) (tree : nat -> error + node) (registryDigest : nat -> string) (repoDigests : nat -> list string).
Context (order : nat -> gset string -> list string) (tempName : nat -> string).

(** A digest the daemon answered for the reference: the registry's, or that of
    the local copy under the reference's own name. *)
Definition answered (ref d : string) : Prop :=
  (exists n, registryDigest n = d /\ d <> ""%string) \/
  (exists n rd, rd ∈ repoDigests n /\ HasPrefix rd (refName ref +:+ "@")%string = true /\ d = default ""%string (snd <$> Cut "@" rd)).

Lemma resolveDigest_spec ref w r w' :
  resolveDigest registryDigest repoDigests ref w = (r, w') -> match r with inr d => answered ref d | inl _ => True end.
Proof.
  assert (forall e w r w', resolveLocal repoDigests ref e w = (r, w') -> match r with inr d => answered ref d | inl _ => True end) as Hlocal.
  { intros e w0 r0 w0' H. unfold resolveLocal in H. step H x w1 E1. destruct x as [err|[]]; [by apply ret_inv in H as [-> _]|].
    step H rds w2 E2. destruct (list_find _ rds) as [[k rd]|] eqn:Ef; apply ret_inv in H as [-> _]; [|done].
    right. apply list_find_Some in Ef as (Hk & Hp & _). revert E2. unfold answer. run. intros [= <- <-].
    eexists _, rd. split; [by eapply list_elem_of_lookup_2|done]. }
  intros H. unfold resolveDigest in H. step H x w1 E1. destruct x as [err|[]]; [by eapply Hlocal|].
  step H d w2 E2. revert E2. unfold answer. run. intros [= <- <-]. case_decide; [|by eapply Hlocal].
  injection H as <- <-. left. eauto.
Qed.

Lemma resolveAll_spec deadline reserve refs : forall pins errs w pins' errs' w',
  resolveAll registryDigest repoDigests deadline reserve refs pins errs w = ((pins', errs'), w') ->
  (exists es, errs' = errs ++ es /\ (es = [] -> forall ref, ref ∈ refs -> exists d, pins' !! ref = Some d /\ answered ref d)) /\
  (forall ref, pins' !! ref = pins !! ref \/ ref ∈ refs /\ exists d, pins' !! ref = Some d /\ answered ref d).
Proof.
  induction refs as [|ref refs IH]; intros pins errs w pins' errs' w' H; simpl in H.
  { apply ret_inv in H as [[= -> ->] _]. split; [|by left]. exists []. rewrite app_nil_r. split; [done|]. by intros _ ref ?%not_elem_of_nil. }
  step H t w1 E1. case_decide.
  { apply ret_inv in H as [[= -> ->] _]. split; [by exists [gaveUp]|by left]. }
  step H r w2 E2. apply resolveDigest_spec in E2. destruct r as [err|d].
  - apply IH in H as [(es & -> & _) Hp]. split; [exists ([err] ++ es); by rewrite app_assoc|].
    intros ref'. destruct (Hp ref') as [?|[? ?]]; [by left|right]. split; [by right|done].
  - apply IH in H as [(es & -> & He) Hp]. split.
    + exists es. split; [done|]. intros Hes ref' [->|Hr]%elem_of_cons; [|by apply He].
      destruct (Hp ref) as [Hp'|[_ ?]]; [|done]. exists d. by rewrite Hp', lookup_insert_eq.
    + intros ref'. destruct (Hp ref') as [Hp'|[? ?]]; [|right; split; [by right|done]].
      destruct (decide (ref' = ref)) as [->|Hne]; [right|left; by rewrite Hp', lookup_insert_ne].
      split; [by left|]. exists d. by rewrite Hp', lookup_insert_eq.
Qed.

Lemma seedPins_lookup existing used ref :
  seedPins existing used !! ref = if decide (ref ∈ dom used) then lookupPin existing ref else None.
Proof.
  unfold seedPins. rewrite map_lookup_imap. case_decide as H.
  - apply elem_of_dom in H as [n Hn]. by rewrite Hn.
  - apply not_elem_of_dom in H. by rewrite H.
Qed.

(** A refresh loses no pin that is in use: unless it ends with an error
    and every pin as it was, the pins then in force are exactly of references
    the tree uses; each is a digest the daemon answered for that reference now,
    or the one the reference had; a reference in use that had a pin has one
    still, whatever failed to resolve; with no error at all every reference in
    use is at a digest of now; and the file holds exactly the map in force. *)
Theorem RefreshBasePins_keeps bp io w out err b' io' w' :
  (forall n s, order n s ≡ₚ elements s) -> (forall n, tempName n <> bp_name bp) -> disk_ok (io_disk io) ->
  RefreshBasePins unicodeLower encode statOk getDockerfile chalDir chalName tree registryDigest repoDigests order tempName (Some bp) io w =
    ((out, err, b', io'), w') ->
  (b' = Some bp /\ err <> None) \/
  exists n used pins,
    scanTree unicodeLower statOk getDockerfile chalDir chalName (tree n) = inr used /\ b' = Some (replace pins bp) /\
    (forall ref d, pins !! ref = Some d -> ref ∈ dom used /\ (answered ref d \/ lookupPin (bp_m bp) ref = Some d)) /\
    (forall ref, ref ∈ dom used -> is_Some (lookupPin (bp_m bp) ref) -> is_Some (pins !! ref)) /\
    (err = None -> forall ref, ref ∈ dom used -> exists d, pins !! ref = Some d /\ answered ref d) /\
    exists text, encode pins = inr text /\ dataAt (io_disk io') (bp_dir bp) (bp_name bp) = Some (text +:+ String newline "")%string.
Proof.
  intros Hord Htmp Hok H. unfold RefreshBasePins in H. step H m w1 E1. apply getM_inv in E1 as [-> ->].
  destruct (m_externalBuildPlane _); [apply ret_inv in H as [[= -> -> -> ->] _]; by left|].
  step H r w1 E1. destruct r as [e|used]; [apply ret_inv in H as [[= -> -> -> ->] _]; by left|].
  assert (exists n, scanTree unicodeLower statOk getDockerfile chalDir chalName (tree n) = inr used) as [n Hn].
  { unfold scanBaseRefs in E1. step E1 x w2 E2. apply ret_inv in E1 as [-> _]. revert E2. unfold answer. run. intros [= <- <-]. by eexists. }
  step H t w2 E2. step H refs w3 E3. apply bind_inv in H as ([pins errs] & w4 & E4 & H).
  assert (exists k, refs = order k) as [k ->] by (revert E3; unfold answer; run; intros [= <- <-]; by eexists).
  apply resolveAll_spec in E4 as [(es & He & Hall) Hp]. simpl in He. subst errs.
  case_decide; [apply ret_inv in H as [[= -> -> -> ->] _]; by left|]. step H tmp w5 E5.
  assert (tmp <> bp_name bp) as Ht by (revert E5; unfold answer; run; intros [= <- <-]; apply Htmp).
  destruct (writeBasePins encode (bp_dir bp) (bp_name bp) tmp pins io) as [r2 io2] eqn:E6.
  destruct r2 as [e|[]]; [apply ret_inv in H as [[= -> -> -> ->] _]; by left|]. right.
  assert (exists text, encode pins = inr text /\ dataAt (io_disk io2) (bp_dir bp) (bp_name bp) = Some (text +:+ String newline "")%string) as Hfile.
  { destruct (encode pins) as [e|text] eqn:Ee; [unfold writeBasePins in E6; by rewrite Ee in E6|]. exists text. split; [done|].
    by apply (writeBasePins_seen _ _ _ _ _ _ _ _ _ Ee Ht Hok) in E6 as [_ ?]. }
  assert (b' = Some (replace pins bp) /\ io' = io2 /\ (err = None -> es = [])) as (-> & -> & Herr).
  { step H o w6 E7. destruct o as [e|o]; apply ret_inv in H as [[= -> -> -> ->] _]; [done|]. by case_decide. }
  exists n, used, pins. split_and!; [done..| | | |done].
  - intros ref d Hd. destruct (Hp ref) as [E|(Hin & d' & Hd' & Ha)].
    + rewrite Hd, seedPins_lookup in E. case_decide; [|done]. auto.
    + rewrite Hord, elem_of_elements in Hin. simplify_eq. auto.
  - intros ref Hin Hold. destruct (Hp ref) as [E|(_ & d' & Hd' & _)]; [|by rewrite Hd'].
    by rewrite E, seedPins_lookup, decide_True.
  - intros Hnone ref Hin. apply Hall; [by apply Herr|]. by rewrite Hord, elem_of_elements.
Qed.

(** ** How long it takes *)

(** The clock of an oracle never goes back, and the calls for one reference --
    at most seven uses of the outside -- take at most [reserve]. *)
Definition timely (reserve : Z) (o : Oracle) : Prop :=
  (forall n k, o_now o n <= o_now o (n + k)) /\ (forall n k, (k <= 7)%nat -> o_now o (n + k) <= o_now o n + reserve).

Lemma resolveDigest_ticks ref w r w' :
  resolveDigest registryDigest repoDigests ref w = (r, w') ->
  (W_tick w <= W_tick w' <= W_tick w + 6)%nat /\ W_o w' = W_o w.
Proof.
  assert (forall e w r w', resolveLocal repoDigests ref e w = (r, w') -> (W_tick w <= W_tick w' <= W_tick w + 3)%nat /\ W_o w' = W_o w) as Hlocal.
  { intros e w0 r0 w0' H. unfold resolveLocal in H. step H x w1 E1. pose proof (docker_tick _ _ _ _ _ E1) as Ht.
    apply docker_result in E1 as (err & _ & -> & Ho & _). destruct err; [apply ret_inv in H as [_ ->]; split; [lia|done]|].
    step H rds w2 E2. assert (W_tick w2 = S (W_tick w1) /\ W_o w2 = W_o w1) as [Ht2 Ho2] by (revert E2; unfold answer; run; by intros [= <- <-]).
    destruct (list_find _ rds) as [[k rd]|]; apply ret_inv in H as [_ ->]; (split; [lia|congruence]). }
  intros H. unfold resolveDigest in H. step H x w1 E1. pose proof (docker_tick _ _ _ _ _ E1) as Ht.
  apply docker_result in E1 as (err & _ & -> & Ho & _). destruct err.
  - apply Hlocal in H as [? ?]. split; [lia|congruence].
  - step H d w2 E2. assert (W_tick w2 = S (W_tick w1) /\ W_o w2 = W_o w1) as [Ht2 Ho2] by (revert E2; unfold answer; run; by intros [= <- <-]).
    case_decide; [apply ret_inv in H as [_ ->]; split; [lia|congruence]|]. apply Hlocal in H as [? ?]. split; [lia|congruence].
Qed.

(** A refresh keeps to its budget: whatever the registry does within the time
    allowed for each call, the last call the pass waits for is over at the
    deadline. *)
Theorem resolveAll_on_time deadline reserve refs : forall pins errs w r w',
  timely reserve (W_o w) -> o_now (W_o w) (W_tick w) <= deadline ->
  resolveAll registryDigest repoDigests deadline reserve refs pins errs w = (r, w') ->
  o_now (W_o w) (pred (W_tick w')) <= deadline.
Proof.
  induction refs as [|ref refs IH]; intros pins errs w r w' [Hmono Hslow] Ht H; simpl in H.
  { apply ret_inv in H as [_ ->]. etransitivity; [|exact Ht]. destruct (W_tick w) as [|n]; [done|]. simpl.
    specialize (Hmono n 1%nat). by rewrite Nat.add_1_r in Hmono. }
  step H t w1 E1. assert (t = o_now (W_o w) (W_tick w) /\ W_tick w1 = S (W_tick w) /\ W_o w1 = W_o w) as (-> & Ht1 & Ho1)
    by (revert E1; run; by intros [= <- <-]).
  case_decide; [apply ret_inv in H as [_ ->]; by rewrite Ht1|].
  step H x w2 E2. apply resolveDigest_ticks in E2 as [Ht2 Ho2].
  assert (o_now (W_o w2) (W_tick w2) <= deadline) as Hd.
  { rewrite Ho2, Ho1. replace (W_tick w2) with (W_tick w + (W_tick w2 - W_tick w))%nat by lia.
    etransitivity; [apply Hslow; lia|lia]. }
  rewrite <- Ho1, <- Ho2. destruct x; (eapply IH; [|exact Hd|exact H]); rewrite Ho2, Ho1; done.
Qed.
(** The budget carries the reserve on top of the work, so the first reference
    is always tried. *)
Lemma budget_reserve p n :
  0 < p -> p < two63 `div` 8 -> Z.of_nat n * p < two63 `div` 2 ->
  mul64 2 p = 2 * p /\ basePinsRefreshBudget p n = 2 * p + Z.max (2 * p) ((Z.of_nat n * p) `quot` 5).
Proof.
  intros Hp Hp8 Hn. assert (two63 = 9223372036854775808) as E by done. rewrite E in *.
  change (9223372036854775808 `div` 8) with 1152921504606846976 in Hp8. change (9223372036854775808 `div` 2) with 4611686018427387904 in Hn.
  assert (0 <= (Z.of_nat n * p) `quot` 5 <= Z.of_nat n * p) as Hq.
  { rewrite Z.quot_div_nonneg by lia. split; [apply Z.div_pos; lia|]. apply Z.div_le_upper_bound; lia. }
  assert (mul64 2 p = 2 * p) as E2 by (apply wrap64_id; unfold in64; rewrite E; lia).
  assert (mul64 (Z.of_nat n) p = Z.of_nat n * p) as E3 by (apply wrap64_id; unfold in64; rewrite E; lia).
  split; [done|]. unfold basePinsRefreshBudget. rewrite E2, E3. unfold div64. apply wrap64_id. unfold in64. rewrite E. lia.
Qed.
End refreshed.

(** ** Witnesses *)
Local Open Scope string_scope.
Definition demo_stat : fileStat := mkStat 0 "-rw-r--r--".
Definition demo_tree : node :=
  DirNode demo_stat (inr [
    (".git", inr (DirNode demo_stat (inr [("Dockerfile", inr (FileNode demo_stat (inr "FROM hidden")))])));
    ("web", inr (DirNode demo_stat (inr [("Dockerfile", inr (FileNode demo_stat (inr demo_dockerfile))); ("problem.md", inr (FileNode demo_stat (inr "")))])))]).
Definition demo_stats (path : string) : bool := bool_decide (path = "/c/web/problem.md").
Definition demo_encode (pins : pinMap) : error + string :=
  inr (String.concat "," ((fun ref => ref +:+ "=" +:+ default "" (pins !! ref)) <$> sorted (dom pins))).
Definition demo_disk : disk := mkDisk {["/c" := mkDirectory {[".base-pins.json" := O]} []]} {[O := mkFile "old" true]} 1.
Definition demo_io : Io := mkIo demo_disk 0 [] (fun _ _ => None) (fun _ => O).
Lemma demo_disk_ok : disk_ok demo_disk.
Proof. apply diskOk_spec. vm_compute. reflexivity. Qed.
Definition demo_bp : basePins := mkBasePins "/c" ".base-pins.json" {["ubuntu:24.04" := "sha256:old"; "gone:1" := "sha256:dd"]}.
(** The registry answers for no one; the pins in use stay. *)
Definition no_registry : Oracle := calm <| o_docker := fun _ _ => Some [NetError] |>.
Local Abbreviation demo_refresh o := (
  RefreshBasePins id demo_encode demo_stats (fun _ => "") "/c" "c" (fun _ => inr demo_tree) (fun _ => "sha256:new") (fun _ => [])
    (fun _ => elements) (fun _ => "tmp1") (Some demo_bp) demo_io (demo_world o)).

Example refresh_moves : (fun r => bp_m <$> r.1.1.2) (demo_refresh calm) = Some {["ubuntu:24.04" := "sha256:new"; "nginx" := "sha256:new"]}.
Proof. vm_compute. reflexivity. Qed.
Example refresh_survives : (fun r => bp_m <$> r.1.1.2) (demo_refresh no_registry) = Some {["ubuntu:24.04" := "sha256:old"]}.
Proof. vm_compute. reflexivity. Qed.

Lemma RefreshBasePins_keeps_witness :
  exists (used : gmap string nat) pins, dom used = ({["ubuntu:24.04"; "nginx"]} : gset string) /\ (demo_refresh no_registry).1.1.2 = Some (replace pins demo_bp) /\
    is_Some (pins !! "ubuntu:24.04").
Proof.
  assert ((fun r => bp_m <$> r.1.1.2) (demo_refresh no_registry) = Some {["ubuntu:24.04" := "sha256:old"]}) as Hr by (vm_compute; reflexivity).
  destruct (demo_refresh no_registry) as [[[[out err] b'] io'] w'] eqn:E. cbn [fst snd] in Hr |- *.
  destruct (RefreshBasePins_keeps id demo_encode demo_stats (fun _ => "") "/c" "c" (fun _ => inr demo_tree) (fun _ => "sha256:new") (fun _ => [])
    (fun _ => elements) (fun _ => "tmp1") demo_bp demo_io (demo_world no_registry) out err b' io' w') as [[-> _]|(n & used & pins & Hu & -> & _ & Hk & _)].
  - by intros.
  - by intros _.
  - exact demo_disk_ok.
  - exact E.
  - exfalso. apply (f_equal (fun m => m ≫= (.!! "gone:1"))) in Hr. vm_compute in Hr. discriminate Hr.
  - exists used, pins. assert (dom used = ({["ubuntu:24.04"; "nginx"]} : gset string)) as Hd.
    { assert ((fun r : error + gmap string nat => match r with inr u => dom u | inl _ => ∅ end)
        (scanTree id demo_stats (fun _ => "") "/c" "c" (inr demo_tree)) = ({["ubuntu:24.04"; "nginx"]} : gset string)) as Hs by (vm_compute; reflexivity).
      rewrite Hu in Hs. exact Hs. }
    split_and!; [done..|]. apply Hk; [rewrite Hd; set_solver|]. vm_compute. by eexists.
Defined.

Lemma writeBasePins_atomic_witness :
  exists s', writeBasePins demo_encode "/c" ".base-pins.json" "tmp1" {["ubuntu:24.04" := "sha256:new"]} demo_io = (inr tt, s') /\
    Forall (fun d => forall o, survives d "/c" ".base-pins.json" o ->
      survives demo_disk "/c" ".base-pins.json" o \/ o = Some ("ubuntu:24.04=sha256:new" +:+ String newline "")) (io_seen s').
Proof.
  destruct (writeBasePins demo_encode "/c" ".base-pins.json" "tmp1" {["ubuntu:24.04" := "sha256:new"]} demo_io) as [r s'] eqn:E.
  assert (r = inr tt) as Hr.
  { apply (f_equal fst) in E. vm_compute in E. by symmetry. }
  destruct (writeBasePins_atomic demo_encode "/c" ".base-pins.json" "tmp1" {["ubuntu:24.04" := "sha256:new"]}
    "ubuntu:24.04=sha256:new" demo_io r s') as [(new & Hs & Hf) _].
  - vm_compute. reflexivity.
  - discriminate.
  - exact demo_disk_ok.
  - exact E.
  - exists s'. split; [by rewrite Hr|]. rewrite Hs. simpl. rewrite app_nil_r. eapply Forall_impl; [exact Hf|].
    intros d Hd o Ho. destruct (Hd "/c" ".base-pins.json" o) as [?|[_ ?]]; [by intros [=]|done|by left|by right].
Defined.
