(* ===== verification/Sources.v ===== *)
(** * Sources: what a challenge directory is taken for

    [cork/filesystem.go].  The scan that finds challenges in a tree
    ([inventoryChallenges]), the checksum of a challenge's source
    ([challengeChecksum]) and the build context made of it
    ([createBuildContext]), all by [filepath.Walk] over a tree as it is found
    ([Files]).  Reading one challenge file is the loader's and an argument
    ([load]); so is the tree a walk finds at a directory ([subtree]). *)
From S2P Require Import Prelude Types Settings Text Artifacts Queue Worker Database Fleet HostConfig Effects Ports Instances Images Seccomp Docker Launch Lifecycle Roster Builds Converge Builder Rebuild Challenges Schemas HandOver Preload Submatch BasePins Files Refresh.
Local Open Scope Z_scope.

(** ** What is left out *)
Definition isDatabaseFile (name : string) : bool := bool_decide (name ∈ ["cork.db"; "cmgr.db"]%string).
Definition checksumIgnore (name : string) : bool :=
  HasPrefix name "." && negb (bool_decide (name = ".dockerignore"%string)) ||
  bool_decide (name ∈ ["README"; "README.md"; "problem.md"; "solver"]%string) || isDatabaseFile name.
Definition contextIgnore (name : string) : bool :=
  HasPrefix name "." && negb (bool_decide (name = ".dockerignore"%string)) ||
  bool_decide (name ∈ ["README"; "README.md"; "problem.md"; "solver"]%string) || isDatabaseFile name.

(** ** The checksum of the source *)

(** [%x] of an [int64] that is not negative, and of a text, which is what a mode
    prints as. *)
Definition hex64 (n : Z) : string := hexDigits 16 n "".
Fixpoint hexText (s : string) : string :=
  match s with
  | EmptyString => ""%string
  | String c s => let n := Z.of_nat (nat_of_ascii c) in String (hexDigit (n `div` 16)) (String (hexDigit (n `mod` 16)) (hexText s))
  end.
Definition entryLine (name : string) (st : fileStat) : string := (name +:+ hex64 (fs_size st) +:+ hexText (fs_mode st))%string.

(** The texts written to the hash; [challengeChecksum] feeds them to a CRC. *)
Definition checksumFn (challDir path name : string) (n : option node) (err : option error) (written : list string)
    : walkAction * list string :=
  match err, n with
  | Some err, _ => (Stop err, written)
  | None, None => (Continue, written)
  | None, Some n =>
    if checksumIgnore name then (if isDir n then SkipDir else Continue, written)
    else
      let written := written ++ [entryLine name (stat_of n)] in
      match n with
      | LinkNode _ (inl err) _ => (Stop [OtherError "Invalid link"], written)
      | LinkNode _ (inr target) _ =>
        let p := Join (Dir path) target in
        if pathInDirectory p challDir then (Continue, written ++ [p]) else (Stop [OtherError "symlink leaves the challenge"], written)
      | FileNode _ (inl err) => (Stop err, written)
      | FileNode _ (inr data) => (Continue, written ++ [data])
      | _ => (Continue, written)
      end
  end.
Definition challengeChecksum (dir : string) (n : error + node) : error + Z :=
  match Walk (checksumFn dir) dir (Base dir) n [] with
  | (Some err, _) => inl err
  | (None, written) => inr (crcSum (foldl (fun h s => crcWrite h (bytesOf s)) crcInit written))
  end.

(** ** The scan *)
Section scan.
Context (load : string -> string -> node -> error + option ChallengeMetadata) (subtree : string -> error + node).
Abbreviation found := (gmap ChallengeId ChallengeMetadata * list error)%type.

Definition findChallenges (path name : string) (n : option node) (err : option error) (s : found) : walkAction * found :=
  let '(challenges, errs) := s in
  match err, n with
  | Some err, _ => (Continue, (challenges, errs ++ [err]))
  | None, None => (Continue, s)
  | None, Some n =>
    if HasPrefix name "." then (if isDir n then SkipDir else Continue, s)
    else if isDir n then (Continue, s)
    else
      match load path name n with
      | inl err => (Continue, (challenges, errs ++ [err]))
      | inr None => (Continue, s)
      | inr (Some metadata) =>
        match challengeChecksum (Dir path) (subtree (Dir path)) with
        | inl err => (Continue, (challenges, errs ++ [err]))
        | inr sum =>
          let metadata := metadata <| cm_sourceChecksum := if decide (sum = 0) then 1 else sum |> <| cm_path := path |> in
          match challenges !! cm_id metadata with
          | Some _ => (Stop [OtherError "found multiple challenges"], s)
          | None => (Continue, (<[cm_id metadata := metadata]> challenges, errs))
          end
        end
      end
  end.
(** Without a map, the scan failed as a whole. *)
Definition inventoryChallenges (dir : string) : option (gmap ChallengeId ChallengeMetadata) * list error :=
  match Walk findChallenges dir (Base dir) (subtree dir) (∅, []) with
  | (Some err, (_, errs)) => (None, errs ++ [err])
  | (None, (challenges, errs)) => (Some challenges, errs)
  end.
End scan.

(** ** The build context *)

(** An entry of the archive, as [archive/tar] writes it: a header's size is that
    of a regular file, and nothing else takes data. *)
Inductive tarType := TarRegular | TarDirectory | TarSymlink | TarSpecial.
Record tarHeader := mkTarHeader { th_name : string; th_type : tarType; th_size : Z }.
Abbreviation archive := (list (tarHeader * string)).
Definition ErrWriteTooLong : error := [OtherError "archive/tar: write too long"].
Definition textSize (s : string) : Z := Z.of_nat (String.length s).
Definition capacity (h : tarHeader) : Z := match th_type h with TarRegular => th_size h | _ => 0 end.
(** [WriteHeader], which first wants the last entry complete. *)
Definition writeHeader (h : tarHeader) (a : archive) : error + archive :=
  match last a with
  | Some (h0, data) => if decide (textSize data < capacity h0) then inl [OtherError "archive/tar: missed writing bytes"] else inr (a ++ [(h, ""%string)])
  | None => inr (a ++ [(h, ""%string)])
  end.
(** The data of the entry just opened. *)
Definition writeData (data : string) (a : archive) : error + archive :=
  match last a with
  | Some (h, have) =>
    if decide (capacity h < textSize (have +:+ data)%string) then inl ErrWriteTooLong
    else inr (take (pred (length a)) a ++ [(h, (have +:+ data)%string)])
  | None => inl ErrWriteTooLong
  end.
Definition fileInfoHeader (name : string) (n : node) : tarHeader :=
  match n with
  | DirNode _ _ => mkTarHeader name TarDirectory 0
  | FileNode st _ => mkTarHeader name TarRegular (fs_size st)
  | LinkNode _ _ _ => mkTarHeader name TarSymlink 0
  | SpecialNode _ _ => mkTarHeader name TarSpecial 0
  end.
(** What [FileInfoHeader] refuses. *)
Definition isSocket (n : node) : bool := match n with SpecialNode _ socket => socket | _ => false end.
Definition backslashes (c : ascii) : ascii := if decide (c = "\"%char) then "/"%char else c.
Definition sumBind {A B} (r : error + A) (k : A -> error + B) : error + B := match r with inl err => inl err | inr a => k a end.

Section context.
Context (unicodeLower : string -> string) (pins : option basePins).
(** [pinBases]. *)
Definition pinBases (dockerfile : string) : string :=
  match pins with None => dockerfile | Some b => (pinDockerfile unicodeLower dockerfile (bp_m b)).1.1 end.
Definition contextFn (challengeDir path name : string) (n : option node) (err : option error) (a : archive) : walkAction * archive :=
  match err, n with
  | Some _, _ | None, None => (Continue, a)
  | None, Some n =>
    if contextIgnore name || bool_decide (challengeDir = path)
    then (if isDir n && negb (bool_decide (challengeDir = path)) then SkipDir else Continue, a)
    else if isSocket n then (Continue, a)
    else
      let hdr := fileInfoHeader (mapString backslashes (substring (String.length challengeDir + 1) (String.length path) path)) n in
      let stop (r : error + archive) := match r with inl err => (Stop err, a) | inr a => (Continue, a) end in
      if negb (isDir n) && bool_decide (th_name hdr = "Dockerfile"%string) then
        stop (sumBind (readFile n) (fun original =>
          let pinned := pinBases original in
          sumBind (writeHeader (mkTarHeader (th_name hdr) (th_type hdr) (textSize pinned)) a) (writeData pinned)))
      else
        stop (sumBind (writeHeader hdr a) (fun a =>
          if isDir n then inr a else sumBind (readFile n) (fun data => writeData data a)))
  end.
Definition createBuildContext (challengeDir : string) (n : error + node) (dockerfile : option string) : error + archive :=
  sumBind (match dockerfile with
           | None => inr []
           | Some d => let d := pinBases d in
             sumBind (writeHeader (mkTarHeader "Dockerfile" TarRegular (textSize d)) []) (writeData d)
           end)
    (fun a => match Walk (contextFn challengeDir) challengeDir (Base challengeDir) n a with
              | (Some err, _) => inl err
              | (None, a) => inr a
              end).
End context.

(** ** What is built is what is fingerprinted *)

(** What one entry contributes to the checksum. *)
Definition hashed (e : string * string * node) : list string :=
  let '(path, name, n) := e in
  entryLine name (stat_of n) ::
  match n with
  | LinkNode _ (inr target) _ => [Join (Dir path) target]
  | FileNode _ (inr data) => [data]
  | _ => []
  end.
(** Nothing in the way: every listing and file of it was read. *)
Definition readable (n : node) : bool :=
  match n with
  | DirNode _ (inl _) | FileNode _ (inl _) | LinkNode _ (inl _) _ => false
  | DirNode _ (inr cs) => forallb (fun c => match c.2 with inl _ => false | inr _ => true end) cs
  | _ => true
  end.

Lemma walk_checksum dir n : forall path name w a w',
  walk (checksumFn dir) path name n w = (a, w') -> (forall e, a <> Stop e) ->
  w' = w ++ mjoin (hashed <$> visits checksumIgnore path name n) /\
  Forall (fun e => readable e.2 = true) (visits checksumIgnore path name n) /\ (a = SkipDir -> isDir n = true).
Proof.
  induction n as [st [err|cs] IH|st content|st target content|st socket] using node_nested_ind; intros path name w a w' H Ha.
  - simpl in H. simplify_eq. by destruct (Ha err).
  - rewrite walk_dir in H. change (visits checksumIgnore path name (DirNode st (inr cs))) with
      (if checksumIgnore name then [] else (path, name, DirNode st (inr cs)) :: visitsEach checksumIgnore path cs).
    simpl in H. destruct (checksumIgnore name); [simplify_eq; by rewrite app_nil_r|].
    set (w1 := w ++ [entryLine name st]) in *.
    assert (w' = w1 ++ mjoin (hashed <$> visitsEach checksumIgnore path cs) /\
      Forall (fun e => readable e.2 = true) (visitsEach checksumIgnore path cs) /\
      forallb (fun c : string * (error + node) => match c.2 with inl _ => false | inr _ => true end) cs = true /\ a <> SkipDir) as (-> & Hr & Hcs & Hs).
    { clearbody w1. revert w1 H. simpl in IH. induction IH as [|[cname [err|n]] cs Hc _ IHcs]; intros w1 H; simpl in H.
      - simplify_eq/=. by rewrite app_nil_r.
      - simplify_eq. by destruct (Ha err).
      - destruct (walk (checksumFn dir) (joinName path cname) cname n w1) as [act w2] eqn:E. simpl in Hc.
        destruct act as [| |e]; [| |simplify_eq; by destruct (Ha e)]; (destruct (Hc _ _ _ _ _ E) as (-> & Hr1 & Hd); [done|]).
        + destruct (IHcs _ H) as (-> & Hr2 & Hf & Hs). simpl. rewrite fmap_app, join_app, app_assoc, Forall_app. by rewrite Hf.
        + rewrite Hd in H by done. destruct (IHcs _ H) as (-> & Hr2 & Hf & Hs). simpl. rewrite fmap_app, join_app, app_assoc, Forall_app. by rewrite Hf. }
    split_and!; [|by constructor|by intros ->]. subst w1. by rewrite <- app_assoc.
  - cbn [walk] in H. unfold checksumFn in H. simpl. destruct (checksumIgnore name); [simplify_eq/=; by rewrite app_nil_r|].
    destruct content as [err|data]; simplify_eq/=; [by destruct (Ha err)|]. rewrite <- app_assoc. by repeat constructor.
  - cbn [walk] in H. unfold checksumFn in H. simpl. destruct (checksumIgnore name); [simplify_eq/=; by rewrite app_nil_r|].
    destruct target as [err|t]; [simplify_eq/=; by edestruct Ha|]. destruct (pathInDirectory _ _); simplify_eq/=; [|by edestruct Ha].
    rewrite <- app_assoc. by repeat constructor.
  - cbn [walk] in H. unfold checksumFn in H. simpl. destruct (checksumIgnore name); simplify_eq/=; rewrite ?app_nil_r; by repeat constructor.
Qed.

Section covered.
Context (unicodeLower : string -> string) (pins : option basePins) (dir : string) (Hdir : dir <> "/"%string).
Local Abbreviation fn := (contextFn unicodeLower pins dir).

Definition relName (path : string) : string :=
  mapString backslashes (substring (String.length dir + 1) (String.length path) path).
(** What one entry is in the archive. *)
Definition archived (e : string * string * node) : archive :=
  let '(path, name, n) := e in
  let hdr := fileInfoHeader (relName path) n in
  if isSocket n then []
  else if isDir n then [(hdr, ""%string)]
  else
    match readFile n with
    | inl _ => []
    | inr data =>
      if decide (relName path = "Dockerfile"%string)
      then let pinned := pinBases unicodeLower pins data in [(mkTarHeader (relName path) (th_type hdr) (textSize pinned), pinned)]
      else [(hdr, data)]
    end.

Lemma write_entry h data a a' : sumBind (writeHeader h a) (writeData data) = inr a' -> a' = a ++ [(h, data)].
Proof.
  assert (forall a1, writeHeader h a = inr a1 -> a1 = a ++ [(h, ""%string)]) as Hh.
  { intros a1. unfold writeHeader. destruct (last a) as [[? ?]|]; [case_decide|]; by intros; simplify_eq. }
  destruct (writeHeader h a) as [err|a1]; [done|]. specialize (Hh a1 eq_refl) as ->. simpl. unfold writeData.
  rewrite last_snoc. case_decide; [done|]. intros [= <-]. rewrite length_app. simpl.
  replace (pred (length a + 1)) with (length a) by lia. by rewrite take_app_length.
Qed.
Lemma context_entry path name n a act a' :
  (String.length dir < String.length path)%nat -> contextIgnore name = false ->
  fn path name (Some n) None a = (act, a') -> (forall e, act <> Stop e) -> act = Continue /\ a' = a ++ archived (path, name, n).
Proof.
  intros Hl Hi H Ha. unfold contextFn in H. rewrite Hi, bool_decide_eq_false_2 in H by (intros ->; lia). simpl in H.
  unfold archived. destruct (isSocket n) eqn:Es; [simplify_eq; by rewrite app_nil_r|]. fold (relName path) in H.
  set (hdr := fileInfoHeader (relName path) n) in *. assert (th_name hdr = relName path) as Hn by (by destruct n).
  destruct (isDir n) eqn:Ed; simpl in H.
  - unfold writeHeader in H. destruct (last a) as [[? ?]|]; [case_decide|]; simpl in H; simplify_eq; [by edestruct Ha|done..].
  - rewrite Hn in H. case_bool_decide as Edf.
    + destruct (readFile n) as [err|data]; simpl in H; [simplify_eq; by edestruct Ha|]. rewrite decide_True by done.
      destruct (sumBind _ _) as [err|a1] eqn:E; simplify_eq; [by edestruct Ha|]. by apply write_entry in E as ->.
    + destruct (readFile n) as [err|data]; [|rewrite decide_False by done].
      * destruct (writeHeader hdr a) as [err'|a1]; simpl in H; simplify_eq; by edestruct Ha.
      * change (fun a0 => sumBind (inr data) (fun data0 => writeData data0 a0)) with (writeData data) in H.
        destruct (sumBind _ _) as [err|a1] eqn:E; simplify_eq; [by edestruct Ha|]. by apply write_entry in E as ->.
Qed.

Lemma joinName_length path name : path <> "/"%string -> (String.length path < String.length (joinName path name))%nat.
Proof. intros H. unfold joinName. rewrite decide_False by done. rewrite !length_append. simpl. lia. Qed.

(** Below [path], nothing is the root. *)
Definition below (path : string) : Prop := (String.length dir < String.length path)%nat.
Lemma below_child path name : dir <> ""%string -> (String.length dir <= String.length path)%nat -> path <> "/"%string -> below (joinName path name).
Proof. intros Hd Hl Hp. unfold below. pose proof (joinName_length path name Hp). lia. Qed.
Lemma below_root path : dir <> ""%string -> below path -> path <> "/"%string.
Proof. unfold below. intros Hd Hl ->. destruct dir as [|? [|]]; simpl in Hl; [done|lia..]. Qed.
Lemma context_ignored path name n a : below path -> contextIgnore name = true ->
  fn path name (Some n) None a = (if isDir n then SkipDir else Continue, a).
Proof. intros Hl Hi. unfold contextFn, below in *. rewrite Hi, bool_decide_eq_false_2 by (intros ->; lia). simpl. by rewrite andb_true_r. Qed.
Lemma visits_dir path name st cs : visits contextIgnore path name (DirNode st (inr cs)) =
  if contextIgnore name then [] else (path, name, DirNode st (inr cs)) :: visitsEach contextIgnore path cs.
Proof. done. Qed.
Lemma archived_cons e l : mjoin (archived <$> e :: l) = archived e ++ mjoin (archived <$> l).
Proof. done. Qed.
Definition leaf (n : node) : Prop := match n with DirNode _ _ => False | _ => True end.
Lemma leaf_walk path name n a : leaf n -> walk fn path name n a = fn path name (Some n) None a.
Proof. by destruct n. Qed.
Lemma leaf_visits path name n : leaf n -> visits contextIgnore path name n = if contextIgnore name then [] else [(path, name, n)].
Proof. by destruct n. Qed.

(** A walk that is not stopped writes every entry, in the order of the walk. *)
Definition context_ok (n : node) : Prop := forall path name a act a',
  below path -> walk fn path name n a = (act, a') -> (forall e, act <> Stop e) ->
  Forall (fun e => readable e.2 = true) (visits contextIgnore path name n) ->
  a' = a ++ mjoin (archived <$> visits contextIgnore path name n) /\ (act = SkipDir -> isDir n = true).
Lemma each_context path cs : everyChild context_ok (inr cs) -> (forall name, below (joinName path name)) -> forall a act a',
  walkEach fn path cs a = (act, a') -> (forall e, act <> Stop e) -> 
  forallb (fun c : string * (error + node) => match c.2 with inl _ => false | inr _ => true end) cs = true ->
  Forall (fun e => readable e.2 = true) (visitsEach contextIgnore path cs) ->
  a' = a ++ mjoin (archived <$> visitsEach contextIgnore path cs) /\ act <> SkipDir.
Proof.
  intros IH Hb. simpl in IH. induction IH as [|[cname [err|n]] cs Hc _ IHcs]; intros a act a' H Ha Hrd Hrs; simpl in H, Hrd, Hrs; [|done|].
  - simplify_eq/=. by rewrite app_nil_r.
  - apply Forall_app in Hrs as [Hr1 Hr2]. destruct (walk fn (joinName path cname) cname n a) as [act2 a2] eqn:E. simpl in Hc.
    destruct act2 as [| |e]; [| |simplify_eq; by destruct (Ha e)]; (destruct (Hc _ _ _ _ _ (Hb _) E ltac:(done) Hr1) as (-> & Hdd));
      try rewrite Hdd in H by done; destruct (IHcs _ _ _ H Ha Hrd Hr2) as (-> & ?); simpl; by rewrite fmap_app, join_app, app_assoc.
Qed.
Lemma leaf_context n : leaf n -> context_ok n.
Proof.
  intros Hn path name a act a' Hl H Ha Hr. rewrite leaf_walk in H by done. rewrite leaf_visits by done.
  destruct (contextIgnore name) eqn:Ei; [rewrite context_ignored in H by done; simplify_eq/=; rewrite app_nil_r; by destruct (isDir n)|].
  destruct (context_entry _ _ _ _ _ _ Hl Ei H Ha) as [-> ->]. simpl. by rewrite app_nil_r.
Qed.
Lemma walk_context n : dir <> ""%string -> context_ok n.
Proof.
  intros Hd. induction n as [st [err|cs] IH|st content|st target content|st socket] using node_nested_ind; [| |by apply leaf_context..];
    intros path name a act a' Hl H Ha Hr.
  - simpl in H, Hr |- *. simplify_eq. destruct (contextIgnore name); [simpl; by rewrite app_nil_r|]. by inversion_clear Hr.
  - rewrite walk_dir in H. rewrite visits_dir in *.
    destruct (contextIgnore name) eqn:Ei; [rewrite context_ignored in H by done; simplify_eq/=; by rewrite app_nil_r|].
    destruct (fn path name _ None a) as [act1 a1] eqn:E1. inversion_clear Hr as [|? ? Hrd Hrs].
    destruct (context_entry _ _ _ _ _ _ Hl Ei E1) as [-> ->]; [by destruct act1; simplify_eq|]. rewrite archived_cons, app_assoc.
    destruct (each_context path cs IH) with (2 := H) as [-> ?]; [|done..].
    intros. apply below_child; [done|unfold below in Hl; lia|by apply below_root].
Qed.

(** A tree that can be archived: what it lists and holds was read, its files are
    as long as their sizes say, and there are no links, devices or pipes in it. *)
Definition plain (n : node) : Prop :=
  match n with
  | DirNode _ listing => readable n = true
  | FileNode st (inr data) => fs_size st = textSize data
  | FileNode _ (inl _) | LinkNode _ _ _ => False
  | SpecialNode _ socket => socket = true
  end.
(** The entry being written has all its data. *)
Definition complete (a : archive) : Prop := match last a with Some (h, data) => capacity h <= textSize data | None => True end.
Lemma writeHeader_complete h a : complete a -> writeHeader h a = inr (a ++ [(h, ""%string)]).
Proof. unfold complete, writeHeader. destruct (last a) as [[? ?]|]; [intros; case_decide; [lia|]|]; done. Qed.
Lemma write_complete h data a : complete a -> th_type h = TarRegular -> th_size h = textSize data ->
  sumBind (writeHeader h a) (writeData data) = inr (a ++ [(h, data)]) /\ complete (a ++ [(h, data)]).
Proof.
  intros Hc Ht Hs. rewrite writeHeader_complete by done. simpl. unfold writeData, complete, capacity. rewrite !last_snoc, Ht, Hs.
  split; [|lia]. change ("" +:+ data)%string with data. rewrite decide_False by lia. rewrite length_app. simpl.
  replace (pred (length a + 1)) with (length a) by lia. by rewrite take_app_length.
Qed.
Lemma context_plain path name n a :
  (String.length dir < String.length path)%nat -> contextIgnore name = false -> plain n -> complete a ->
  fn path name (Some n) None a = (Continue, a ++ archived (path, name, n)) /\ complete (a ++ archived (path, name, n)).
Proof.
  intros Hl Hi Hp Hc. unfold contextFn, archived. rewrite Hi, bool_decide_eq_false_2 by (intros ->; lia). fold (relName path).
  destruct n as [st listing|st [?|data]|?|st socket]; try done; cbn -[bool_decide decide writeHeader writeData pinBases].
  - rewrite writeHeader_complete by done. split; [done|]. unfold complete. by rewrite last_snoc.
  - simpl in Hp. case_bool_decide as Ed; [rewrite decide_True by done|rewrite decide_False by done].
    + destruct (write_complete (mkTarHeader (relName path) TarRegular (textSize (pinBases unicodeLower pins data))) (pinBases unicodeLower pins data) a) as [-> ?]; done.
    + change (fun a0 => writeData data a0) with (writeData data).
      destruct (write_complete (mkTarHeader (relName path) TarRegular (fs_size st)) data a) as [-> ?]; done.
  - simpl in Hp. subst. by rewrite app_nil_r.
Qed.
(** A walk of such entries writes them all. *)
Definition plain_ok (n : node) : Prop := forall path name a,
  below path -> complete a -> Forall (fun e => plain e.2) (visits contextIgnore path name n) ->
  exists act, walk fn path name n a = (act, a ++ mjoin (archived <$> visits contextIgnore path name n)) /\
    (forall e, act <> Stop e) /\ (act = SkipDir -> isDir n = true) /\ complete (a ++ mjoin (archived <$> visits contextIgnore path name n)).
Lemma each_plain path cs : everyChild plain_ok (inr cs) -> (forall name, below (joinName path name)) -> forall a, complete a ->
  forallb (fun c : string * (error + node) => match c.2 with inl _ => false | inr _ => true end) cs = true ->
  Forall (fun e => plain e.2) (visitsEach contextIgnore path cs) ->
  walkEach fn path cs a = (Continue, a ++ mjoin (archived <$> visitsEach contextIgnore path cs)) /\
  complete (a ++ mjoin (archived <$> visitsEach contextIgnore path cs)).
Proof.
  intros IH Hb. simpl in IH. induction IH as [|[cname [err|n]] cs Hc _ IHcs]; intros a Ha Hrd Hrs; simpl in Hrd, Hrs |- *; [|done|].
  - by rewrite app_nil_r.
  - apply Forall_app in Hrs as [Hr1 Hr2]. simpl in Hc. destruct (Hc _ _ a (Hb cname) Ha Hr1) as (act & -> & Hs & Hd & Hc1).
    rewrite fmap_app, join_app, app_assoc. destruct (IHcs _ Hc1 Hrd Hr2) as [<- ?]. split; [|done].
    destruct act as [| |e]; [done|by rewrite Hd|by destruct (Hs e)].
Qed.
Lemma leaf_plain n : leaf n -> plain_ok n.
Proof.
  intros Hn path name a Hl Hc Hr. rewrite leaf_walk by done. rewrite leaf_visits in * by done.
  destruct (contextIgnore name) eqn:Ei.
  - rewrite context_ignored by done. simpl. rewrite app_nil_r. eexists. split_and!; [done|by destruct (isDir n)|by destruct (isDir n)|done].
  - inversion_clear Hr as [|? ? Hp _]. destruct (context_plain path name n a Hl Ei Hp Hc) as [-> ?]. simpl. rewrite app_nil_r. by exists Continue.
Qed.
Lemma walk_plain n : dir <> ""%string -> plain_ok n.
Proof.
  intros Hd. induction n as [st [err|cs] IH|st content|st target content|st socket] using node_nested_ind; [| |by apply leaf_plain..];
    intros path name a Hl Hc Hr.
  - simpl in Hr |- *. exists Continue. destruct (contextIgnore name); [simpl; by rewrite app_nil_r|]. by inversion_clear Hr.
  - rewrite walk_dir. rewrite visits_dir in *. destruct (contextIgnore name) eqn:Ei.
    { rewrite context_ignored by done. exists SkipDir. simpl. by rewrite app_nil_r. }
    inversion_clear Hr as [|? ? Hrd Hrs]. destruct (context_plain path name (DirNode st (inr cs)) a Hl Ei Hrd Hc) as [-> Hc1]. rewrite archived_cons, app_assoc.
    destruct (each_plain path cs IH) with (2 := Hc1) as [-> ?]; [|done..|by exists Continue].
    intros. apply below_child; [done|unfold below in Hl; lia|by apply below_root].
Qed.
End covered.

(** What a generated Dockerfile puts in front. *)
Definition generated (unicodeLower : string -> string) (pins : option basePins) (dockerfile : option string) : archive :=
  match dockerfile with
  | None => []
  | Some d => let d := pinBases unicodeLower pins d in [(mkTarHeader "Dockerfile" TarRegular (textSize d), d)]
  end.
Lemma generated_complete unicodeLower pins dockerfile : complete (generated unicodeLower pins dockerfile).
Proof. by destruct dockerfile; unfold complete, capacity; simpl. Qed.
(** The root of a walk is looked at, and left out. *)
Lemma Walk_root unicodeLower pins dir n a :
  Walk (contextFn unicodeLower pins dir) dir (Base dir) (inr n) a =
  match n with
  | DirNode _ (inr cs) => match walkEach (contextFn unicodeLower pins dir) dir cs a with (Stop e, a) => (Some e, a) | (_, a) => (None, a) end
  | _ => (None, a)
  end.
Proof.
  unfold Walk. destruct n as [st [err|cs]|?|?|?]; [done|rewrite walk_dir|..];
    cbn [walk]; unfold contextFn at 1; by rewrite (bool_decide_eq_true_2 (dir = dir)), orb_true_r by done; simpl; rewrite ?andb_false_r.
Qed.

Lemma createBuildContext_root unicodeLower pins dir n dockerfile :
  createBuildContext unicodeLower pins dir (inr n) dockerfile =
  match n with
  | DirNode _ (inr cs) =>
    match walkEach (contextFn unicodeLower pins dir) dir cs (generated unicodeLower pins dockerfile) with (Stop e, _) => inl e | (_, a) => inr a end
  | _ => inr (generated unicodeLower pins dockerfile)
  end.
Proof.
  unfold createBuildContext. destruct dockerfile as [d|].
  - cbv zeta. rewrite (proj1 (write_complete (mkTarHeader "Dockerfile" TarRegular (textSize (pinBases unicodeLower pins d))) (pinBases unicodeLower pins d) [] I eq_refl eq_refl)).
    simpl. rewrite Walk_root. destruct n as [? [?|?]|?|?|?]; try done. by destruct (walkEach _ _ _ _) as [[] ?].
  - simpl. rewrite Walk_root. destruct n as [? [?|?]|?|?|?]; try done. by destruct (walkEach _ _ _ _) as [[] ?].
Qed.


(** ** What the scan finds *)
Section inventory.
Context (load : string -> string -> node -> error + option ChallengeMetadata) (subtree : string -> error + node).
Local Abbreviation fn := (findChallenges load subtree).
Definition hidden (name : string) : bool := HasPrefix name ".".
(** The challenge a file is taken for: it loads as one and its source can be
    checksummed. *)
Definition foundAt (e : string * string * node) : option ChallengeMetadata :=
  let '(path, name, n) := e in
  if isDir n then None
  else
    match load path name n, challengeChecksum (Dir path) (subtree (Dir path)) with
    | inr (Some metadata), inr sum => Some (metadata <| cm_sourceChecksum := if decide (sum = 0) then 1 else sum |> <| cm_path := path |>)
    | _, _ => None
    end.
(** Challenges by their ids, if no two share one. *)
Fixpoint byId (m : gmap ChallengeId ChallengeMetadata) (l : list ChallengeMetadata) : option (gmap ChallengeId ChallengeMetadata) :=
  match l with
  | [] => Some m
  | md :: l => match m !! cm_id md with Some _ => None | None => byId (<[cm_id md := md]> m) l end
  end.
Lemma byId_app l1 l2 m : byId m (l1 ++ l2) = match byId m l1 with Some m => byId m l2 | None => None end.
Proof. revert m. induction l1 as [|md l1 IH]; intros m; simpl; [done|]. destruct (m !! cm_id md); [done|apply IH]. Qed.
Lemma byId_spec l : forall m, match byId m l with
  | Some m' => NoDup (cm_id <$> l) /\ (forall md, md ∈ l -> m !! cm_id md = None) /\ forall k md, m' !! k = Some md <-> m !! k = Some md \/ md ∈ l /\ cm_id md = k
  | None => ~ (NoDup (cm_id <$> l) /\ forall md, md ∈ l -> m !! cm_id md = None)
  end.
Proof.
  induction l as [|x l IH]; intros m; simpl; [set_solver by constructor|].
  destruct (m !! cm_id x) as [y|] eqn:E; [intros [_ H]; specialize (H x); set_solver|].
  specialize (IH (<[cm_id x := x]> m)). destruct (byId _ l) as [m'|].
  - destruct IH as (Hnd & Hn & Hm). assert (cm_id x ∉ cm_id <$> l) as Hx.
    { intros (md & He & Hin)%list_elem_of_fmap. specialize (Hn md Hin). rewrite <- He, lookup_insert_eq in Hn. done. }
    split_and!; [by constructor| |].
    + intros md [->|Hin]%elem_of_cons; [done|]. specialize (Hn md Hin). by apply lookup_insert_None in Hn as [? _].
    + intros k md. rewrite Hm, lookup_insert_Some, elem_of_cons. split; [naive_solver|]. intros [Hk|[[->|Hin] He]]; [left; right|naive_solver..].
      split; [|done]. intros <-. congruence.
  - intros [Hnd Hn]. apply IH. inversion_clear Hnd as [|? ? Hx Hnd']. split; [done|]. intros md Hin.
    apply lookup_insert_None. split; [apply Hn; set_solver|]. intros He. apply Hx. rewrite He. by apply list_elem_of_fmap_2.
Qed.

(** What a visit, and a walk, leave of the challenges found so far. *)
Definition gathers (n : node) (l : list ChallengeMetadata) (m : gmap ChallengeId ChallengeMetadata)
    (r : walkAction * (gmap ChallengeId ChallengeMetadata * list error)) : Prop :=
  match byId m l with
  | Some m' => r.2.1 = m' /\ (r.1 = Continue \/ r.1 = SkipDir /\ isDir n = true)
  | None => exists e, r.1 = Stop e
  end.
Lemma leaf_gathers path name n m errs : leaf n ->
  gathers n (omap foundAt (if hidden name then [] else [(path, name, n)])) m (fn path name (Some n) None (m, errs)).
Proof.
  intros Hn. unfold gathers, findChallenges, hidden. destruct (HasPrefix name "."); [destruct (isDir n); simpl; auto|].
  assert (isDir n = false) as Hd by (by destruct n). simpl. rewrite Hd.
  destruct (load path name n) as [err|[md|]]; simpl; [by auto| |by auto].
  destruct (challengeChecksum _ _) as [err|sum]; simpl; [by auto|]. destruct (m !! cm_id md); simpl; eauto.
Qed.
Definition gathers_ok (n : node) : Prop := forall path name m errs,
  gathers n (omap foundAt (visits hidden path name n)) m (walk fn path name n (m, errs)).
Lemma each_gathers path cs : everyChild gathers_ok (inr cs) -> forall m errs,
  match byId m (omap foundAt (visitsEach hidden path cs)) with
  | Some m' => exists errs', walkEach fn path cs (m, errs) = (Continue, (m', errs'))
  | None => exists e s, walkEach fn path cs (m, errs) = (Stop e, s)
  end.
Proof.
  simpl. induction 1 as [|[cname [err|n]] cs Hc _ IH]; intros m errs; simpl; [by eauto|by apply IH|].
  specialize (Hc (joinName path cname) cname m errs). unfold gathers in Hc. rewrite omap_app, byId_app.
  destruct (walk fn _ _ n (m, errs)) as [act [m1 errs1]]. simpl in Hc. destruct (byId m _) as [m'|].
  - destruct Hc as [-> [->|[-> ->]]]; apply IH.
  - destruct Hc as [e ->]. eauto.
Qed.
Lemma walk_gathers n : gathers_ok n.
Proof.
  induction n as [st [err|cs] IH|st content|st target content|st socket] using node_nested_ind; intros path name m errs;
    [| |exact (leaf_gathers path name (FileNode st content) m errs I)|exact (leaf_gathers path name (LinkNode st target content) m errs I)|exact (leaf_gathers path name (SpecialNode st socket) m errs I)].
  - unfold gathers. simpl. destruct (hidden name); simpl; auto.
  - rewrite walk_dir. change (visits hidden path name (DirNode st (inr cs))) with
      (if hidden name then [] else (path, name, DirNode st (inr cs)) :: visitsEach hidden path cs).
    unfold findChallenges at 1. simpl. fold (hidden name). unfold gathers. destruct (hidden name); [simpl; auto|]. simpl.
    pose proof (each_gathers path cs IH m errs) as H. destruct (byId m _) as [m'|]; [destruct H as [? ->]|destruct H as (e & s & ->)]; simpl; eauto.
Qed.
(** The challenges in a directory, in the order of the walk. *)
Definition challengesIn (dir : string) : list ChallengeMetadata :=
  match subtree dir with inl _ => [] | inr n => omap foundAt (visits hidden dir (Base dir) n) end.
Lemma inventory_byId dir : (inventoryChallenges load subtree dir).1 = byId ∅ (challengesIn dir).
Proof.
  unfold inventoryChallenges, challengesIn, Walk. destruct (subtree dir) as [err|n]; [done|].
  pose proof (walk_gathers n dir (Base dir) ∅ []) as H. unfold gathers in H. destruct (walk fn _ _ n (∅, [])) as [act [m errs]]. simpl in H.
  destruct (byId ∅ _) as [m'|]; [destruct H as [-> [->|[-> _]]]; done|by destruct H as [e ->]].
Qed.
Lemma foundAt_checksum e md : foundAt e = Some md -> cm_sourceChecksum md <> 0.
Proof.
  destruct e as [[path name] n]. unfold foundAt. destruct (isDir n); [done|]. destruct (load path name n) as [|[md0|]]; [done| |done].
  destruct (challengeChecksum _ _) as [|sum]; [done|]. intros [= <-]. simpl. by case_decide.
Qed.

(**  The scan finds what is there.  It fails as a whole exactly when two
    challenges under the directory, hidden names left out, have one id; else its
    result holds every file that loads as a challenge and whose directory can be
    checksummed, under its id and with where it was found, and nothing else, and
    no source checksum is the 0 that stands for not built. *)
Theorem inventoryChallenges_exact dir :
  match (inventoryChallenges load subtree dir).1 with
  | Some m => NoDup (cm_id <$> challengesIn dir) /\ (forall k md, m !! k = Some md <-> md ∈ challengesIn dir /\ cm_id md = k) /\
      map_Forall (fun _ md => cm_sourceChecksum md <> 0) m
  | None => ~ NoDup (cm_id <$> challengesIn dir)
  end.
Proof.
  rewrite inventory_byId. pose proof (byId_spec (challengesIn dir) ∅) as H. destruct (byId ∅ _) as [m|].
  - destruct H as (Hnd & _ & Hm). assert (forall k md, m !! k = Some md <-> md ∈ challengesIn dir /\ cm_id md = k) as Hm'.
    { intros k md. rewrite Hm, lookup_empty. naive_solver. }
    split_and!; [done|done|]. intros k md [Hin _]%Hm'. unfold challengesIn in Hin. destruct (subtree dir) as [|n]; [by apply elem_of_nil in Hin|].
    apply list_elem_of_omap in Hin as (e & _ & He). by eapply foundAt_checksum.
  - intros Hnd. apply H. split; [done|]. intros md _. apply lookup_empty.
Qed.
End inventory.

(** A scan of a directory with a hidden name finds nothing and reports nothing,
    as one of a symbolic link would: the walk skips its own root. *)
Lemma hidden_root load subtree dir n : hidden (Base dir) = true -> subtree dir = inr n -> (inventoryChallenges load subtree dir).1 = Some ∅.
Proof. intros Hh Hs. rewrite inventory_byId. unfold challengesIn. rewrite Hs. by destruct n as [? [?|?]|?|?|?]; simpl; rewrite Hh. Qed.
(** A challenge in a directory named as what is left out has one checksum,
    whatever is in it, while its build context is made of all of it. *)
Lemma solver_root dir st cs : checksumIgnore (Base dir) = true -> challengeChecksum dir (inr (DirNode st (inr cs))) = inr 0.
Proof. intros H. unfold challengeChecksum, Walk. rewrite walk_dir. simpl. by rewrite H. Qed.

(** ** On a small tree *)
Definition regular (data : string) : node := FileNode (mkStat (textSize data) "-rw-r--r--") (inr data).
Definition folder (cs : list (string * node)) : node := DirNode (mkStat 4096 "drwxr-xr-x") (inr ((fun c => (c.1, inr c.2)) <$> cs)).
Definition linked (target data : string) : node := LinkNode (mkStat (textSize target) "Lrwxrwxrwx") (inr target) (inr data).
Definition sample_tree : node := folder
  [(".git", folder [("HEAD", regular "ref")]); ("Dockerfile", regular "FROM nginx");
   ("README.md", regular "notes"); ("www", folder [("index.html", regular "hello")])]%string.
Definition sample_pins : basePins := mkBasePins "/c" ".base-pins.json" {["nginx"%string := "sha256:ab12"%string]}.
Definition sample_sum : Z := Eval vm_compute in match challengeChecksum "/c/web" (inr sample_tree) with inr s => s | inl _ => 0 end.

(** A link to a file of the challenge passes the checksum, and no context can
    be made of it: the entry is a link's, which takes no data. *)
Example link_unbuilt : let n := folder [("a.txt", regular "data"); ("b.txt", linked "a.txt" "data")]%string in
  (exists sum, challengeChecksum "/c/web" (inr n) = inr sum) /\ createBuildContext id None "/c/web" (inr n) None = inl ErrWriteTooLong.
Proof. split; [eexists; by vm_compute|by vm_compute]. Qed.
(** The same trees under a name that is left out. *)
Example solver_unseen : 
  challengeChecksum "/c/solver" (inr (folder [("a.txt", regular "one")]%string)) = challengeChecksum "/c/solver" (inr (folder [("a.txt", regular "two")]%string)) /\
  createBuildContext id None "/c/solver" (inr (folder [("a.txt", regular "one")]%string)) None <>
  createBuildContext id None "/c/solver" (inr (folder [("a.txt", regular "two")]%string)) None.
Proof. split; [unfold folder; by rewrite !solver_root|by vm_compute]. Qed.
(** A problem file in a tree, and the same tree under a hidden name. *)
Definition sample_load (path name : string) (n : node) : error + option ChallengeMetadata :=
  inr (if decide (name = "problem.json"%string) then Some Converge.web else None).
Example scan_run : let n := folder [("web", folder [("problem.json", regular "{}")])]%string in
  let tree path := if decide (path = "/c/web"%string) then inr (folder [("problem.json", regular "{}")]%string) else inr n in
  (cm_path <$> ((inventoryChallenges sample_load tree "/c").1 ≫= fun m => m !! "web"%string)) = Some "/c/web/problem.json"%string /\
  (inventoryChallenges sample_load tree "/.c").1 = Some ∅.
Proof. split; [by vm_compute|by eapply hidden_root]. Qed.
