(* ===== verification/Bundles.v ===== *)
(** * Bundles: the directories artifact bundles are kept in

    The part of [cork/filesystem.go] that says where the bundle of a build goes
    -- the artifact directory, or a directory under it for each destination --
    finds it, removes it, and moves the bundles of a schema that was given a
    destination; with the steps of [cork/docker.go] and [cork/artifacts.go] that
    put a new bundle in place.  All of it works on the disk of [Files], which
    may crash between any two steps. *)
From S2P Require Import Prelude Types Settings Text Regex Artifacts Queue Worker Database Fleet HostConfig Effects Ports Instances Images Seccomp Docker Launch Lifecycle Schemas Submatch Files.
Local Open Scope Z_scope.

(** ** The directories *)
Definition DIR_ENV : string := "CORK_DIR".
Definition ARTIFACT_DIR_ENV : string := "CORK_ARTIFACT_DIR".
(** [filepath.Abs], given what [os.Getwd] answers. *)
Definition Abs (cwd : error + string) (p : string) : error + string :=
  if HasPrefix p "/" then inr (Clean p) else match cwd with inl err => inl err | inr wd => inr (Join wd p) end.
(** A path as [os.Lstat] and [os.Stat] see it: the entry itself, and what a link
    leads to. *)
Section directories.
Context (cwd : error + string) (env : environ) (lstat : string -> error + node) (follow : string -> error + node).
Definition statNode (p : string) : error + node := match lstat p with inr (LinkNode _ _ _) => follow p | r => r end.
Definition setChallengeDirectory : error + string :=
  match Abs cwd (default "."%string (LookupEnv env DIR_ENV)) with
  | inl err => inl err
  | inr chalDir =>
    match statNode chalDir with
    | inl err => inl err
    | inr info =>
      if negb (isDir info) then inl [OtherError "is not a directory"]
      else
        match lstat chalDir with
        | inl err => inl err
        | inr (LinkNode _ _ _) => inl [OtherError "is a symlink"]
        | inr _ => inr chalDir
        end
    end
  end.
(** The challenge and the artifact directory; an external build plane has
    neither. *)
Definition setDirectories (externalBuildPlane : bool) : IO (error + string * string) :=
  if externalBuildPlane then ioOk (""%string, ""%string)
  else
    match setChallengeDirectory with
    | inl err => ioFail err
    | inr chalDir =>
      match Abs cwd (default "."%string (LookupEnv env ARTIFACT_DIR_ENV)) with
      | inl err => ioFail err
      | inr artifactsDir => io? _ := mkdirAll artifactsDir in ioOk (chalDir, artifactsDir)
      end
    end.
End directories.

(** The fields of the Manager that are about bundles. *)
Record bundlePlane := mkPlane { bl_artifactsDir : string; bl_namespaces : gmap string string }.
Definition artifactNamespaceMarker : string := ".cork-artifact-namespace".
Definition validNamespace (name : string) : bool :=
  bool_decide (name = ""%string) ||
  (bool_decide (name = Base (Clean name)) && negb (bool_decide (name = "."%string)) && negb (bool_decide (name = ".."%string))).
Fixpoint markNamespaces (artifactsDir : string) (names : list string) : IO (option error) :=
  match names with
  | [] => mret None
  | name :: names =>
    if decide (name = ""%string) then markNamespaces artifactsDir names
    else
      let dir := Join artifactsDir name in
      r ← mkdirAll dir;
      match r with
      | inl err => mret (Some err)
      | inr _ =>
        r ← writeFile dir artifactNamespaceMarker "";
        match r with inl err => mret (Some err) | inr _ => markNamespaces artifactsDir names end
      end
  end.
(** [names] are the values of the map in the order it is gone through. *)
Definition SetArtifactNamespaces (names : list string) (bySchema : gmap string string) (b : bundlePlane) : IO (option error * bundlePlane) :=
  if decide (map_Forall (fun _ name => validNamespace name = true) bySchema) then
    let b := mkPlane (bl_artifactsDir b) bySchema in
    if decide (bl_artifactsDir b = ""%string) then mret (None, b)
    else err ← markNamespaces (bl_artifactsDir b) names; mret (err, b)
  else mret (Some [OtherError "not a single directory name"], b).

(** ** Finding a bundle *)
Definition getArtifactsFilename (id : BuildId) : string := (pretty id +:+ ".tar.gz")%string.
Definition artifactDirFor (b : bundlePlane) (schema : string) : string :=
  if decide (bl_artifactsDir b = ""%string) then ""%string
  else
    match bl_namespaces b !! schema with
    | Some name => if decide (name = ""%string) then bl_artifactsDir b else Join (bl_artifactsDir b) name
    | None => bl_artifactsDir b
    end.
(** The subdirectories that have the marker. *)
Fixpoint marked (artifactsDir : string) (names : list string) : IO (list string) :=
  match names with
  | [] => mret []
  | name :: names =>
    let dir := Join artifactsDir name in
    r ← stat dir artifactNamespaceMarker;
    dirs ← marked artifactsDir names;
    mret (match r with inl _ => dirs | inr _ => dir :: dirs end)
  end.
Definition artifactDirs (b : bundlePlane) : IO (list string) :=
  if decide (bl_artifactsDir b = ""%string) then mret []
  else
    r ← readDirs (bl_artifactsDir b);
    dirs ← match r with inl _ => mret [] | inr names => marked (bl_artifactsDir b) names end;
    mret (dirs ++ [bl_artifactsDir b]).
Fixpoint firstHolding (filename : string) (dirs : list string) : IO (option string) :=
  match dirs with
  | [] => mret None
  | dir :: dirs => r ← stat dir filename; match r with inr _ => mret (Some dir) | inl _ => firstHolding filename dirs end
  end.
Definition findArtifactBundle (b : bundlePlane) (filename : string) : IO (option string) :=
  dirs ← artifactDirs b; firstHolding filename dirs.
Definition artifactDirForBuild (b : bundlePlane) (schema : string) (id : BuildId) : IO string :=
  match bl_namespaces b !! schema with
  | Some _ => mret (artifactDirFor b schema)
  | None => where_ ← findArtifactBundle b (getArtifactsFilename id); mret (default (bl_artifactsDir b) where_)
  end.

(** ** Removing a bundle *)
Definition pruneStrayArtifactBundle (b : bundlePlane) (filename : string) : IO unit :=
  if decide (bl_artifactsDir b = ""%string) then mret tt else remove (bl_artifactsDir b) filename;; mret tt.
Definition removeArtifactBundle (b : bundlePlane) (schema filename : string) : IO (error + unit) :=
  r ← remove (artifactDirFor b schema) filename;
  match r with
  | inr _ => ioOk tt
  | inl err =>
    if negb (errors_Is err notExist) then ioFail err
    else
      where_ ← findArtifactBundle b filename;
      match where_ with
      | None => ioFail err
      | Some dir => remove dir filename
      end
  end.

(** ** Moving bundles *)
Definition stagedName (filename : string) : string := ("." +:+ filename +:+ ".relocating")%string.
(** [io.Copy]: a part of it may be written when it fails. *)
Definition copyFd (fd src : nat) : IO (error + unit) := io? data := readFd src in writeFd fd data.
(** From the opened staged file to the bundle in place; [syncDir] stands for
    opening the directory, syncing and closing it. *)
Definition copyInto (dir staged name : string) (fd src : nat) : IO (error + unit) :=
  r ← copyFd fd src;
  match r with
  | inl err => closeFd fd;; remove dir staged;; ioFail err
  | inr _ =>
    r ← syncFd fd;
    match r with
    | inl err => closeFd fd;; remove dir staged;; ioFail err
    | inr _ =>
      r ← closeFd fd;
      match r with
      | inl err => remove dir staged;; ioFail err
      | inr _ =>
        r ← rename dir staged dir name;
        match r with
        | inl err => remove dir staged;; ioFail err
        | inr _ => syncDir dir;; ioOk tt
        end
      end
    end
  end.
(** Closing the source, which is only read, changes nothing; on the return where
    the staged file cannot be opened it is left out. *)
Definition copyArtifactBundle (fromDir toDir name : string) : IO (error + unit) :=
  io? src := openFd fromDir name in
  io? fd := openTruncated toDir (stagedName name) in
  r ← copyInto toDir (stagedName name) name fd src;
  closeFd src;;
  mret r.
Fixpoint relocateEach (artifactsDir into : string) (builds : list BuildId) (moved : Z) : IO (Z * option error) :=
  match builds with
  | [] => mret (moved, None)
  | id :: builds =>
    let filename := getArtifactsFilename id in
    r ← stat artifactsDir filename;
    match r with
    | inl _ => relocateEach artifactsDir into builds moved
    | inr _ =>
      r ← copyArtifactBundle artifactsDir into filename;
      match r with
      | inl err => mret (moved, Some err)
      | inr _ =>
        r ← remove artifactsDir filename;
        match r with
        | inl err => mret (moved, Some err)
        | inr _ => relocateEach artifactsDir into builds (moved + 1)
        end
      end
    end
  end.
Definition getSchemaBuilds (schema : string) : M (error + list BuildId) :=
  sqlRead (fun d => (merge_sort (fun x y : BuildId * buildRow => String.le (b_challenge x.2) (b_challenge y.2))
                       (filter (fun x => b_schema x.2 = schema) (map_to_list (t_builds d)))).*1).
Definition RelocateArtifactBundles (b : bundlePlane) (schema : string) (io : Io) : M (Z * option error * Io) :=
  let into := artifactDirFor b schema in
  if decide (bl_artifactsDir b = ""%string \/ into = bl_artifactsDir b) then mret (0, None, io)
  else
    builds ← getSchemaBuilds schema;
    match builds with
    | inl err => mret (0, Some err, io)
    | inr builds => mret (relocateEach (bl_artifactsDir b) into builds 0 io)
    end.

(** ** Putting a new bundle in place *)

(** The end of [cacheArtifacts]: the archive is written beside the file it will
    become, made safe, and gets its staged name. *)
Definition installArchive (dir tmp staged : string) (archive : string) : IO (error + unit) :=
  io? fd := createTemp dir tmp in
  r ← chmod dir tmp;
  let abandon (err : error) : IO (error + unit) := closeFd fd;; remove dir tmp;; ioFail err in
  match r with
  | inl err => abandon err
  | inr _ =>
    r ← writeFd fd archive;
    match r with
    | inl err => abandon err
    | inr _ =>
      r ← syncFd fd;
      match r with
      | inl err => abandon err
      | inr _ =>
        r ← closeFd fd;
        match r with
        | inl err => abandon err
        | inr _ =>
          r ← rename dir tmp dir staged;
          match r with
          | inl err => remove dir tmp;; ioFail err
          | inr _ => syncDir dir;; ioOk tt
          end
        end
      end
    end
  end.
(** [executeBuild] once the build has validated. *)
Definition promoteBundle (b : bundlePlane) (dir staged filename : string) : IO (error + unit) :=
  r ← rename dir staged dir filename;
  match r with
  | inl err => remove dir staged;; ioFail err
  | inr _ =>
    syncDir dir;;
    (if decide (dir <> bl_artifactsDir b) then pruneStrayArtifactBundle b filename else mret tt);;
    ioOk tt
  end.

(** ** What is proved

    A bundle is safe in a directory when a crash cannot leave anything else
    under its name. *)
Definition keptAt (d : disk) (dir name data : string) : Prop := forall o, survives d dir name o -> o = Some data.
#[export] Instance Steadies_copyFd fd src : Steadies (copyFd fd src).
Proof. unfold copyFd. steady. Qed.
#[export] Instance Steadies_copyInto dir staged name fd src : Steadies (copyInto dir staged name fd src).
Proof. unfold copyInto. steady. Qed.
#[export] Instance Steadies_copyArtifactBundle fromDir toDir name : Steadies (copyArtifactBundle fromDir toDir name).
Proof. unfold copyArtifactBundle. steady. Qed.

Lemma stagedName_ne name : stagedName name <> name.
Proof. intros E. apply (f_equal String.length) in E. unfold stagedName in E. rewrite !length_append in E. simpl in E. lia. Qed.

Section copying.
Context (start : disk) (dir tmp name : string) (i : nat) (Htmp : tmp <> name) (data : string).
Local Abbreviation Fine := (old_or_new start dir tmp name data).
Local Abbreviation Staged := (staged start dir tmp i).
(** Giving the copy up. *)
Lemma dropStaged_spec err s r s' :
  (remove dir tmp;; @ioFail unit err) s = (r, s') -> Staged (io_disk s) -> seenSince s s' Fine /\ r = inl err /\ Staged (io_disk s').
Proof. intros H Ho. ioStep H u s1 E. injection H as <- <-. by apply (remove_open _ _ _ name _ data _ _ _ E) in Ho as [? ?]. Qed.
Lemma abandon_spec err t b s r s' :
  (closeFd i;; remove dir tmp;; @ioFail unit err) s = (r, s') -> open_tmp start dir tmp i s t b -> seenSince s s' Fine /\ r = inl err /\ Staged (io_disk s').
Proof.
  intros H Ho. ioStep H u s1 E. apply (idle_open _ _ _ name _ data _ _ _ _ _ _ (fun d => eq_refl) E) in Ho as [Hs [Hst _ _ _]].
  apply dropStaged_spec in H as (Hs2 & -> & ?); [|done]. split; [by eapply seenSince_trans|done].
Qed.
Lemma copyFd_spec src f s r s' :
  copyFd i src s = (r, s') -> open_tmp start dir tmp i s "" false -> dk_files (io_disk s) !! src = Some f -> f_data f = data ->
  seenSince s s' Fine /\
  match r with inl _ => exists t, open_tmp start dir tmp i s' t false | inr _ => open_tmp start dir tmp i s' data false end.
Proof.
  intros H Ho Hsrc Hdata. assert (Fine (io_disk s)) as HF by (eapply staged_old, Ho). unfold copyFd in H.
  apply io_try_inr in H as [(err & Er & ->)|(text & sr & Er & Ew)].
  - apply (look_same _ _ _ _ Fine) in Er as [Hs Hd]; [|intros d a d' E; by case_match; simplify_eq|done].
    split; [done|]. exists ""%string. destruct Ho. by split; rewrite Hd.
  - pose proof Er as Er'. apply (look_same _ _ _ _ Fine) in Er as [Hs Hd]; [|intros d a d' E; by case_match; simplify_eq|done].
    assert (text = data) as -> by (apply ioOp_inv in Er' as [(? & ? & _)|(a & d & Hf & [= <-] & _)]; [done|]; rewrite Hsrc in Hf; by simplify_eq).
    assert (open_tmp start dir tmp i sr "" false) as Ho' by (destruct Ho; by split; rewrite Hd).
    apply (writeFd_open _ _ _ name _ data _ _ _ _ _ _ Ew) in Ho' as [Hs2 Hr]. split; [by eapply seenSince_trans|]. by destruct r.
Qed.
Lemma copyInto_spec F src f s r s' :
  steady F s -> copyInto dir tmp name i src s = (r, s') -> open_tmp start dir tmp i s "" false -> dk_files (io_disk s) !! src = Some f -> f_data f = data ->
  seenSince s s' Fine /\
  match r with
  | inl _ => Staged (io_disk s')
  | inr _ => placed start dir tmp name i data (io_disk s') /\ ((forall n, F SyncDirCall n = None) -> settled (io_disk s') dir)
  end.
Proof.
  intros Hst H Ho Hsrc Hdata. unfold copyInto in H.
  ioStep H rw sw Ew. apply (steadies F) in Ew as Hst1; [|done]. destruct (copyFd_spec _ _ _ _ _ Ew Ho Hsrc Hdata) as [Hs1 Ho1]. clear Ew Ho.
  destruct rw as [err|[]]; [destruct Ho1 as [t Ho1]; apply (abandon_spec _ _ _ _ _ _ H) in Ho1 as (Hs2 & -> & ?); split; [by eapply seenSince_trans|done]|].
  ioStep H ry sy Ey. apply (steadies F) in Ey as Hst2; [|done]. apply (syncFd_open _ _ _ name _ data _ _ _ _ _ Ey) in Ho1 as [Hs2 Ho2].
  pose proof (seenSince_trans _ _ _ _ Hs1 Hs2) as Hs12. clear Ey Hs1 Hs2.
  destruct ry as [err|[]]; [apply (abandon_spec _ _ _ _ _ _ H) in Ho2 as (Hs2 & -> & ?); split; [by eapply seenSince_trans|done]|].
  ioStep H rc sl Ec. apply (steadies F) in Ec as Hst3; [|done]. apply (idle_open _ _ _ name _ data _ _ _ _ _ _ (fun d => eq_refl) Ec) in Ho2 as [Hs3 Ho3].
  pose proof (seenSince_trans _ _ _ _ Hs12 Hs3) as Hs13. clear Ec Hs12 Hs3.
  destruct rc as [err|[]]; [apply dropStaged_spec in H as (Hs2 & -> & ?); [split; [by eapply seenSince_trans|done]|by destruct Ho3]|].
  ioStep H rn sm En. apply (steadies F) in En as Hst4; [|done]. apply (rename_open _ _ _ name _ Htmp data _ _ _ En) in Ho3 as [Hs4 Ho4].
  pose proof (seenSince_trans _ _ _ _ Hs13 Hs4) as Hs14. clear En Hs13 Hs4.
  destruct rn as [err|[]]; [apply dropStaged_spec in H as (Hs2 & -> & ?); [split; [by eapply seenSince_trans|done]|by destruct Ho4]|].
  ioStep H rd sd Ed. injection H as <- <-. apply (syncDir_placed _ _ _ _ _ _ _ _ _ Ed) in Ho4 as (Hs5 & Hp & Hset).
  split; [by eapply seenSince_trans|]. split; [done|]. destruct Hst4 as [<- _]. done.
Qed.
End copying.

(** Copying a bundle: whatever fails, a crash at any moment finds what there was
    or the whole bundle under its new name. *)
Lemma copyArtifactBundle_spec F fromDir toDir name s r s' :
  steady F s -> fromDir <> toDir -> private (io_disk s) toDir (stagedName name) -> copyArtifactBundle fromDir toDir name s = (r, s') ->
  exists data, seenSince s s' (old_or_new (io_disk s) toDir (stagedName name) name data) /\
  match r with
  | inl _ => forall dir' name', (dir', name') <> (toDir, stagedName name) -> sameAt (io_disk s) (io_disk s') dir' name'
  | inr _ => dataAt (io_disk s) fromDir name = Some data /\
      exists i, placed (io_disk s) toDir (stagedName name) name i data (io_disk s') /\ ((forall n, F SyncDirCall n = None) -> settled (io_disk s') toDir)
  end.
Proof.
  intros Hst Hne Hp H. pose proof (stagedName_ne name) as Htmp. unfold copyArtifactBundle in H.
  pose (data := default ""%string (dataAt (io_disk s) fromDir name)). exists data. set (Fine := old_or_new (io_disk s) toDir (stagedName name) name data).
  assert (forall r s', openFd fromDir name s = (r, s') -> seenSince s s' Fine /\ io_disk s' = io_disk s) as Hopen.
  { intros r0 s0 E. eapply look_same; [|exact E|apply old_or_new_refl]. intros d a d' E'. simpl in E'. by case_match; simplify_eq. }
  apply io_try_inr in H as [(err & E & ->)|(src & s1 & E & H)]; [apply Hopen in E as [? Hd]; split; [done|]; intros; rewrite Hd; apply sameAt_refl|].
  pose proof E as Ei. apply (steadies F) in E as Hst1; [|done]. apply Hopen in Ei as [Hs1 Hd1]. clear Hopen.
  assert (inode (io_disk s) fromDir name = Some src) as Hsrc by (apply ioOp_inv in E as [(? & ? & _)|(a & d & Hf & [= <-] & _)]; [done|]; by case_match; simplify_eq).
  assert (reach (io_disk s) fromDir name (Some src)) as Hreach by (rewrite <- Hsrc; apply inode_reach).
  destruct Hst as [HF Hok]. destruct (dok_files _ Hok _ _ _ Hreach) as [f Hf].
  assert (dataAt (io_disk s) fromDir name = Some (f_data f)) as Hdata by (unfold dataAt; rewrite Hsrc; simpl; by rewrite Hf).
  apply io_try_inr in H as [(err & E2 & ->)|(i & s2 & E2 & H)].
  { apply openTruncated_staged in E2 as [Hd Hs]; [|by rewrite Hd1..]. split; [by eapply seenSince_trans; [|apply seenSince_same]|]. intros. rewrite Hd, Hd1. apply sameAt_refl. }
  apply (steadies F) in E2 as Hst2; [|done]. apply openTruncated_staged in E2 as (Hstg & Hn & Hx & Hf2 & Hseen); [|by rewrite Hd1..].
  rewrite Hd1 in Hstg. ioStep H r1 s3 E3.
  assert (dk_files (io_disk s2) !! src = Some f) as Hf3.
  { rewrite (sg_files _ _ _ _ _ Hstg); [done|]. intros ->. eapply (sg_alone _ _ _ _ _ Hstg); [|exact Hreach]. congruence. }
  apply (copyInto_spec (io_disk s) _ _ name _ Htmp data F _ f) in E3 as [Hs3 H3]; [|done|done|done|unfold data; by rewrite Hdata].
  ioStep H u s4 E4. injection H as <- <-.
  assert (seenSince s s3 Fine) as Hs13.
  { eapply seenSince_trans; [exact Hs1|]. eapply seenSince_trans; [|exact Hs3]. eapply seenSince_step; [exact Hseen|]. by eapply staged_old. }
  apply (look_same _ _ _ _ Fine) in E4 as [Hs4 Hd4]; [| |].
  - split; [by eapply seenSince_trans|]. rewrite Hd4. destruct r1 as [err|[]]; [intros; by eapply staged_same|]. destruct H3 as [H3 Hset].
    split; [unfold data; by rewrite Hdata|]. by exists i.
  - by intros d a d' [= _ <-].
  - destruct r1 as [err|[]]; [by eapply staged_old|by eapply placed_new, H3].
Qed.

Lemma pretty_first (id : Z) : exists c s, pretty id = String c s /\ c <> "."%char /\ c <> "c"%char.
Proof.
  assert (forall n : N, exists c s, pretty n = String c s /\ c <> "."%char /\ c <> "c"%char) as HN.
  { intros n. pose proof (pretty_N_decimal n) as Hd. pose proof (pretty_N_nonempty n) as Hn. destruct (pretty n) as [|c s]; [done|].
    exists c, s. split; [done|]. by split; intros ->. }
  destruct id as [|p|p]; [by exists "0"%char, ""%string|apply HN|by eexists _, _].
Qed.
(** A staged bundle is never taken for a bundle. *)
Lemma filename_ne_staged id name : getArtifactsFilename id <> stagedName name.
Proof. unfold getArtifactsFilename, stagedName. destruct (pretty_first id) as (c & s & -> & Hc & _). intros E. by injection E. Qed.
Lemma append_inj_r t : forall s s', (s +:+ t = s' +:+ t)%string -> s = s'.
Proof.
  assert (forall s, t = (s +:+ t)%string -> s = ""%string) as Hnil.
  { intros s E. apply (f_equal String.length) in E. rewrite length_append in E. destruct s; [done|]. simpl in E. lia. }
  induction s as [|c s IH]; intros [|c' s'] E; simpl in E; [done|by apply (Hnil (String c' s')) in E|symmetry in E; by apply (Hnil (String c s)) in E|].
  injection E as -> E. by rewrite (IH _ E).
Qed.
Lemma filename_inj id id' : getArtifactsFilename id = getArtifactsFilename id' -> id = id'.
Proof. by intros ?%append_inj_r%(inj pretty). Qed.

Lemma keptAt_old start dir tmp name data' d dir' name' data :
  old_or_new start dir tmp name data' d -> (dir', name') <> (dir, tmp) -> (dir', name') <> (dir, name) ->
  keptAt start dir' name' data -> keptAt d dir' name' data.
Proof. intros Ho Hne Hne' Hk o Hs. destruct (Ho _ _ _ Hne Hs) as [?|[? _]]; [by apply Hk|done]. Qed.
Lemma keptAt_now d dir name data : disk_ok d -> keptAt d dir name data -> dataAt d dir name = Some data.
Proof.
  intros Hok Hk. pose proof (inode_reach d dir name) as Hr. unfold dataAt. destruct (inode d dir name) as [i|].
  - destruct (dok_files _ Hok _ _ _ Hr) as [f Hf]. simpl. rewrite Hf. simpl. apply Hk, survives_reach. exists (Some i). split; [done|]. by exists f, (f_data f).
  - apply (Hk None), survives_reach. by exists None.
Qed.
Lemma placed_kept start dir tmp name i data d : placed start dir tmp name i data d -> settled d dir -> keptAt d dir name data.
Proof.
  intros Hp Hset o (v & Hv & Ho)%survives_reach. apply Hset in Hv. rewrite (pl_now _ _ _ _ _ _ _ Hp) in Hv. subst v.
  destruct Ho as (f & s & Hf & -> & Hs). rewrite (pl_file _ _ _ _ _ _ _ Hp) in Hf. injection Hf as <-. by rewrite Hs.
Qed.

(** ** The loop *)
Section relocating.
Context (F : fileCall -> nat -> option error) (artifactsDir into : string) (Hdirs : artifactsDir <> into).
Local Abbreviation bundle := getArtifactsFilename.
Local Abbreviation tmp id := (stagedName (getArtifactsFilename id)).
(** What was left of an earlier copy is under no other name. *)
Definition tidy (d : disk) : Prop := forall id, private d into (tmp id).
Lemma placed_tidy start id i data d : placed start into (tmp id) (bundle id) i data d -> tidy start -> tidy d.
Proof.
  intros [Hr Hn Hf Ha Hfile Hrest Hgone Ht] Hp id' j dir' name' Hj Hv.
  assert ((into, tmp id') <> (into, tmp id)) as Hne by (intros E%(f_equal snd); cbn [snd] in E; rewrite E in Hj; congruence).
  rewrite Hrest in Hj; [|done|intros E%(f_equal snd); by apply (filename_ne_staged id (bundle id'))].
  assert (j <> i) as Hji. { intros ->. eapply Ha; [exact Hne|]. rewrite <- Hj. apply inode_reach. }
  apply (Hp id' j); [done|]. destruct (decide ((dir', name') = (into, tmp id))) as [E2|Hne2].
  - injection E2 as -> E2. rewrite E2 in Hv |- *. by destruct (Ht _ Hv) as [?|[?|?]]; [|congruence|].
  - by destruct (Hr _ _ _ Hne2 Hv) as [?|[_ ?]]; [|congruence].
Qed.

(** One bundle: it was not there, or it moved, or the copy failed. *)
Lemma relocate_one id s r s' :
  steady F s -> tidy (io_disk s) -> copyArtifactBundle artifactsDir into (bundle id) s = (inr r, s') ->
  exists data, dataAt (io_disk s) artifactsDir (bundle id) = Some data /\ steady F s' /\ tidy (io_disk s') /\
    seenSince s s' (old_or_new (io_disk s) into (tmp id) (bundle id) data) /\ old_or_new (io_disk s) into (tmp id) (bundle id) data (io_disk s') /\
    dataAt (io_disk s') into (bundle id) = Some data /\
    (forall dir' name', (dir', name') <> (into, tmp id) -> (dir', name') <> (into, bundle id) -> sameAt (io_disk s) (io_disk s') dir' name') /\
    ((forall n, F SyncDirCall n = None) -> keptAt (io_disk s') into (bundle id) data).
Proof.
  intros Hst Hti H. apply (steadies F) in H as Hst'; [|done].
  destruct (copyArtifactBundle_spec F _ _ _ _ _ _ Hst Hdirs (Hti id) H) as (data & Hseen & Hd & i & Hp & Hset).
  exists data. split_and!; try done.
  - by eapply placed_tidy.
  - by eapply placed_new.
  - unfold dataAt. rewrite (pl_now _ _ _ _ _ _ _ Hp). simpl. by rewrite (pl_file _ _ _ _ _ _ _ Hp).
  - intros. by eapply placed_same.
  - intros Hs. eapply placed_kept; eauto.
Qed.
(** Which bundle a name is, [id] being the one that moves. *)
Lemma apart id id' : id <> id' -> (into, bundle id') <> (into, bundle id) /\ (artifactsDir, bundle id') <> (artifactsDir, bundle id).
Proof. intros Hne. split; intros E%(f_equal snd); by apply Hne, filename_inj. Qed.
Lemma never_staged dir id id' : (dir, bundle id') <> (into, tmp id).
Proof. intros E%(f_equal snd). by apply (filename_ne_staged id' (bundle id)). Qed.
Definition somewhere (id : BuildId) (data : string) (d : disk) : Prop := keptAt d artifactsDir (bundle id) data \/ keptAt d into (bundle id) data.
(** Between two bundles: one that has moved is gone from where it was. *)
Definition moving (id : BuildId) (data : string) (d : disk) : Prop :=
  keptAt d artifactsDir (bundle id) data \/ keptAt d into (bundle id) data /\ inode d artifactsDir (bundle id) = None.
Lemma somewhere_copied start id data' d id0 data :
  moving id0 data start -> (id = id0 -> keptAt start artifactsDir (bundle id0) data) ->
  old_or_new start into (tmp id) (bundle id) data' d -> somewhere id0 data d.
Proof.
  intros Hm Hid Ho. destruct (decide (id = id0)) as [Heq|Hne].
  - left. eapply keptAt_old; [exact Ho|apply never_staged| |by apply Hid]. congruence.
  - destruct Hm as [Hk|[Hk _]]; [left|right]; (eapply keptAt_old; [exact Ho|apply never_staged| |exact Hk]); [congruence|by apply apart].
Qed.
Lemma keptAt_deleted d id dir id0 data :
  (dir, bundle id0) <> (artifactsDir, bundle id) -> keptAt d dir (bundle id0) data -> keptAt (onNames artifactsDir (delete (bundle id)) d) dir (bundle id0) data.
Proof. intros Hne Hk o Ho%delete_survives; [by apply Hk|done]. Qed.
Lemma stat_look dir name s r s' (P : disk -> Prop) : stat dir name s = (r, s') -> P (io_disk s) -> seenSince s s' P /\ io_disk s' = io_disk s.
Proof. intros H HP. eapply look_same; [|exact H|done]. intros d a d' E. simpl in E. by repeat case_match; simplify_eq. Qed.
Lemma copy_missing fromDir toDir name s r s' :
  inode (io_disk s) fromDir name = None -> copyArtifactBundle fromDir toDir name s = (r, s') ->
  (exists err, r = inl err) /\ io_disk s' = io_disk s /\ io_seen s' = io_seen s.
Proof.
  intros Hn H. unfold copyArtifactBundle in H. apply io_try_inr in H as [(err & E & ->)|(i & s1 & E & _)].
  - apply ioOp_inv in E as [(? & _ & ? & ?)|(a & d & _ & ? & _)]; [|done]. split; [by eexists|done].
  - apply ioOp_inv in E as [(? & ? & _)|(a & d & Hf & _)]; [done|]. by rewrite Hn in Hf.
Qed.
Lemma moving_somewhere id data d : moving id data d -> somewhere id data d.
Proof. intros [?|[? _]]; [by left|by right]. Qed.

Lemma relocateEach_safe id0 data : (forall n, F SyncDirCall n = None) -> forall builds moved s r s',
  relocateEach artifactsDir into builds moved s = (r, s') -> steady F s -> tidy (io_disk s) -> moving id0 data (io_disk s) ->
  seenSince s s' (somewhere id0 data).
Proof.
  intros Hsync. induction builds as [|id builds IH]; intros moved s r s' H Hst Hti Hm; simpl in H.
  { injection H as <- <-. apply seenSince_refl. }
  ioStep H rs s1 Es. pose proof (moving_somewhere _ _ _ Hm) as Hsome. apply (steadies F) in Es as Hst1; [|done].
  apply (stat_look _ _ _ _ _ (somewhere id0 data)) in Es as [Hs1 Hd1]; [|done]. rewrite <- Hd1 in Hti, Hm. clear Hd1 Hsome Hst.
  eapply seenSince_trans; [exact Hs1|]. clear Hs1 s. destruct rs as [err|dir]; [by eapply IH|]. ioStep H rc s2 Ec.
  assert (inode (io_disk s1) artifactsDir (bundle id) = None \/ (id = id0 -> keptAt (io_disk s1) artifactsDir (bundle id0) data)) as [Hno|Hid].
  { destruct (decide (id = id0)) as [->|]; [|by right]. destruct Hm as [?|[_ ?]]; auto. }
  { apply (copy_missing _ _ _ _ _ _ Hno) in Ec as ((err & ->) & Hd & Hs). injection H as <- <-. by apply seenSince_same. }
  destruct rc as [err|u].
  { injection H as <- <-. destruct (copyArtifactBundle_spec F _ _ _ _ _ _ Hst1 Hdirs (Hti id) Ec) as (data' & Hs & _).
    eapply seenSince_impl; [|exact Hs]. intros d. by apply somewhere_copied. }
  destruct (relocate_one _ _ _ _ Hst1 Hti Ec) as (data' & Hd' & Hst2 & Hti2 & Hs2 & Ho2 & _ & Hsame & Hk).
  eapply seenSince_trans; [eapply seenSince_impl; [|exact Hs2]; intros d; by apply somewhere_copied|].
  assert (if decide (id = id0) then keptAt (io_disk s2) into (bundle id0) data else moving id0 data (io_disk s2)) as Hm2.
  { case_decide as Heq.
    - subst id0. assert (data' = data) as -> by (pose proof (keptAt_now _ _ _ _ (proj2 Hst1) (Hid eq_refl)); congruence). by apply Hk.
    - destruct Hm as [Hk0|[Hk0 Hn]]; [left|right].
      + eapply keptAt_old; [exact Ho2|apply never_staged| |exact Hk0]. congruence.
      + split; [eapply keptAt_old; [exact Ho2|apply never_staged|by apply apart|exact Hk0]|]. destruct (Hsame artifactsDir (bundle id0)) as [-> _]; [apply never_staged|congruence|done]. }
  assert (somewhere id0 data (io_disk s2)) as Hsome2 by (case_decide; [by right|by apply moving_somewhere]).
  ioStep H rr s3 Er. apply (steadies F) in Er as Hst3; [|done]. apply remove_inv in Er. destruct rr as [err|[]].
  { injection H as <- <-. apply seenSince_same. apply Er. }
  destruct Er as (_ & Hd3 & Hs3).
  assert (moving id0 data (io_disk s3)) as Hm3.
  { rewrite Hd3. case_decide as Heq.
    - subst id0. right. split; [apply keptAt_deleted; [congruence|done]|apply delete_gone].
    - destruct (apart _ _ Heq) as [_ Hap]. destruct Hm2 as [Hk0|[Hk0 Hn]]; [left; by apply keptAt_deleted|right].
      split; [apply keptAt_deleted; [congruence|done]|]. by destruct (delete_same (io_disk s2) artifactsDir (bundle id) artifactsDir (bundle id0) Hap) as [-> _]. }
  eapply seenSince_trans; [eapply seenSince_step; [exact Hs3|by apply moving_somewhere]|].
  eapply IH; [exact H|done| |done]. intros id'. rewrite Hd3. apply delete_private, Hti2.
Qed.

(** A name that is of none of the bundles, before or after, whole or staged. *)
Definition bystander (builds : list BuildId) (dir name : string) : Prop :=
  forall id, id ∈ builds -> (dir, name) <> (artifactsDir, bundle id) /\ (dir, name) <> (into, bundle id) /\ (dir, name) <> (into, tmp id).
Lemma bystander_tail id builds dir name : bystander (id :: builds) dir name -> bystander builds dir name.
Proof. intros H id' Hid. apply H. by right. Qed.
(** What the step for one bundle does to the rest. *)
Definition spared (d0 : disk) (dir name : string) (d : disk) : Prop := forall o, survives d dir name o -> survives d0 dir name o.
Lemma relocateEach_spares dir' name' : forall builds moved s r s',
  relocateEach artifactsDir into builds moved s = (r, s') -> steady F s -> tidy (io_disk s) -> bystander builds dir' name' ->
  sameAt (io_disk s) (io_disk s') dir' name' /\ seenSince s s' (spared (io_disk s) dir' name').
Proof.
  induction builds as [|id builds IH]; intros moved s r s' H Hst Hti Hby; simpl in H.
  { injection H as <- <-. split; [apply sameAt_refl|apply seenSince_refl]. }
  pose proof (bystander_tail _ _ _ _ Hby) as Hby'. destruct (Hby id) as (Ha & Hb & Hc); [by left|].
  ioStep H rs s1 Es. apply (steadies F) in Es as Hst1; [|done].
  apply (stat_look _ _ _ _ _ (spared (io_disk s) dir' name')) in Es as [Hs1 Hd1]; [|by intros o].
  rewrite <- Hd1 in Hti, Hs1 |- *. enough (sameAt (io_disk s1) (io_disk s') dir' name' /\ seenSince s1 s' (spared (io_disk s1) dir' name')) as [? ?]
    by (split; [done|by eapply seenSince_trans]). clear Hs1 Hd1 Hst s.
  destruct rs as [err|isd]; [by eapply IH|]. ioStep H rc s2 Ec.
  assert (forall data d, old_or_new (io_disk s1) into (tmp id) (bundle id) data d -> spared (io_disk s1) dir' name' d) as Hold.
  { intros data d Ho o Hs. by destruct (Ho _ _ _ Hc Hs) as [?|[? _]]. }
  destruct rc as [err|u].
  { injection H as <- <-. destruct (copyArtifactBundle_spec F _ _ _ _ _ _ Hst1 Hdirs (Hti id) Ec) as (data' & Hs & Hsame).
    split; [by apply Hsame|]. eapply seenSince_impl; [|exact Hs]. intros d. apply Hold. }
  destruct (relocate_one _ _ _ _ Hst1 Hti Ec) as (data' & _ & Hst2 & Hti2 & Hs2 & Ho2 & _ & Hsame & _).
  apply (seenSince_impl _ _ _ _ (Hold data')) in Hs2. apply Hold in Ho2. specialize (Hsame _ _ Hc Hb).
  ioStep H rr s3 Er. apply (steadies F) in Er as Hst3; [|done]. apply remove_inv in Er. destruct rr as [err|[]].
  { injection H as <- <-. destruct Er as [-> Hs]. split; [done|]. eapply seenSince_trans; [exact Hs2|by apply seenSince_same]. }
  destruct Er as (_ & Hd3 & Hs3). apply IH in H as [Hsame3 Hs]; [|done|intros id'; rewrite Hd3; apply delete_private, Hti2|done].
  assert (spared (io_disk s1) dir' name' (io_disk s3)) as Hsp3.
  { rewrite Hd3. intros o Ho%delete_survives; [by apply Ho2|done]. }
  split.
  - eapply sameAt_trans; [exact Hsame|]. eapply sameAt_trans; [|exact Hsame3]. rewrite Hd3. by apply delete_same.
  - eapply seenSince_trans; [exact Hs2|]. eapply seenSince_trans; [by eapply seenSince_step|].
    eapply seenSince_impl; [|exact Hs]. intros d Hd o Ho. by apply Hsp3, Hd.
Qed.

(** A bundle that was in the artifact directory is in the other one now. *)
Definition arrived (d0 d : disk) (id : BuildId) : Prop :=
  inode d artifactsDir (bundle id) = None /\
  match dataAt d0 artifactsDir (bundle id) with
  | Some data => dataAt d into (bundle id) = Some data
  | None => sameAt d0 d into (bundle id)
  end.
Lemma bystander_moved id builds : id ∉ builds -> bystander builds artifactsDir (bundle id) /\ bystander builds into (bundle id).
Proof.
  intros Hid. split; intros id' Hid'; assert (id' <> id) as Hne by congruence; destruct (apart _ _ Hne) as [H1 H2];
    (split_and!; [congruence || done|congruence || done|apply never_staged]).
Qed.
Lemma stat_absent dir name s r s' :
  (forall n, F StatCall n = None) -> steady F s -> stat dir name s = (r, s') -> (exists err, r = inl err) -> inode (io_disk s) dir name = None.
Proof.
  intros Hstat [HF _] H [err ->]. unfold stat, ioOp in H. simpl in H. rewrite HF, Hstat in H. by destruct (inode (io_disk s) dir name).
Qed.
Lemma filter_same d0 d (builds : list BuildId) :
  (forall id, id ∈ builds -> sameAt d0 d artifactsDir (bundle id) /\ sameAt d0 d into (bundle id)) ->
  length (filter (fun id => is_Some (inode d artifactsDir (bundle id))) builds) = length (filter (fun id => is_Some (inode d0 artifactsDir (bundle id))) builds).
Proof.
  induction builds as [|id builds IH]; intros H; [done|]. destruct (H id) as [[E _] _]; [by left|]. rewrite !filter_cons, E.
  assert (forall id, id ∈ builds -> sameAt d0 d artifactsDir (bundle id) /\ sameAt d0 d into (bundle id)) as H' by (intros ? ?; apply H; by right).
  case_decide; simpl; by rewrite IH.
Qed.
Lemma arrived_from d0 d1 d builds :
  (forall id, id ∈ builds -> sameAt d0 d1 artifactsDir (bundle id) /\ sameAt d0 d1 into (bundle id)) ->
  Forall (arrived d1 d) builds -> Forall (arrived d0 d) builds.
Proof.
  intros H. rewrite !Forall_forall. intros Ha id Hid. destruct (H id Hid) as [[_ Hd] Hs]. destruct (Ha id Hid) as [Hi Hm].
  split; [done|]. rewrite <- Hd. destruct (dataAt d1 _ _); [done|]. by eapply sameAt_trans.
Qed.
Lemma relocateEach_moves : (forall n, F StatCall n = None) -> forall builds moved s moved' s',
  relocateEach artifactsDir into builds moved s = ((moved', None), s') -> NoDup builds -> steady F s -> tidy (io_disk s) ->
  moved' = moved + Z.of_nat (length (filter (fun id => is_Some (inode (io_disk s) artifactsDir (bundle id))) builds)) /\
  Forall (arrived (io_disk s) (io_disk s')) builds.
Proof.
  intros Hstat. induction builds as [|id builds IH]; intros moved s moved' s' H Hnd Hst Hti; simpl in H.
  { injection H as -> ->. split; [by rewrite Z.add_0_r|constructor]. }
  apply NoDup_cons in Hnd as [Hid Hnd]. destruct (bystander_moved _ _ Hid) as [Hby1 Hby2].
  ioStep H rs s1 Es. apply (steadies F) in Es as Hst1; [|done]. pose proof (stat_absent _ _ _ _ _ Hstat Hst Es) as Habs.
  apply (stat_look _ _ _ _ _ (fun _ => True)) in Es as [_ Hd1]; [|done]. rewrite <- Hd1 in Hti, Habs |- *. clear Hst Hd1 s.
  destruct rs as [err|isd].
  { rewrite filter_cons_False by (rewrite Habs; [by intros [? ?]|by eexists]). destruct (IH _ _ _ _ H Hnd Hst1 Hti) as [-> Hall]. split; [done|]. constructor; [|done].
    destruct (relocateEach_spares _ _ _ _ _ _ _ H Hst1 Hti Hby1) as [[Hi _] _]. destruct (relocateEach_spares _ _ _ _ _ _ _ H Hst1 Hti Hby2) as [Hsame _].
    split; [rewrite Hi; apply Habs; by eexists|]. unfold dataAt. rewrite Habs by (by eexists). exact Hsame. }
  ioStep H rc s2 Ec. destruct rc as [err|u]; [by injection H|].
  destruct (relocate_one _ _ _ _ Hst1 Hti Ec) as (data & Hdata & Hst2 & Hti2 & _ & _ & Hto & Hsame & _).
  ioStep H rr s3 Er. apply (steadies F) in Er as Hst3; [|done]. apply remove_inv in Er. destruct rr as [err|[]]; [by injection H|].
  destruct Er as (Hsome & Hd3 & _). assert (tidy (io_disk s3)) as Hti3 by (intros id'; rewrite Hd3; apply delete_private, Hti2).
  assert (forall dir' name', (dir', name') <> (into, tmp id) -> (dir', name') <> (into, bundle id) -> (dir', name') <> (artifactsDir, bundle id) ->
    sameAt (io_disk s1) (io_disk s3) dir' name') as Hsame3.
  { intros dir' name' H1 H2 H3. eapply sameAt_trans; [by apply Hsame|]. rewrite Hd3. by apply delete_same. }
  destruct (relocateEach_spares _ _ _ _ _ _ _ H Hst3 Hti3 Hby1) as [[Hi _] _]. destruct (relocateEach_spares _ _ _ _ _ _ _ H Hst3 Hti3 Hby2) as [[_ Hd] _].
  destruct (IH _ _ _ _ H Hnd Hst3 Hti3) as [-> Hall].
  assert (forall id', id' ∈ builds -> sameAt (io_disk s1) (io_disk s3) artifactsDir (bundle id') /\ sameAt (io_disk s1) (io_disk s3) into (bundle id')) as Hrest.
  { intros id' Hid'. destruct (apart id id') as [H1 H2]; [congruence|]. split; apply Hsame3; try apply never_staged; congruence || done. }
  split.
  - rewrite filter_cons_True, (filter_same _ _ _ Hrest).
    + simpl. lia.
    + unfold dataAt in Hdata. destruct (inode (io_disk s1) artifactsDir (bundle id)); [by eexists|done].
  - constructor; [|by eapply arrived_from].
    split; [rewrite Hi, Hd3; apply delete_gone|]. rewrite Hdata, Hd, Hd3. rewrite <- Hto. apply delete_same. congruence.
Qed.
End relocating.

(** ** Moving the bundles of a schema *)
Lemma getSchemaBuilds_inv schema w r w' :
  getSchemaBuilds schema w = (r, w') ->
  match r with
  | inl _ => True
  | inr builds => NoDup builds /\ forall id, id ∈ builds <-> exists row, t_builds (m_db (W_m w)) !! id = Some row /\ b_schema row = schema
  end.
Proof.
  intros (_ & _ & _ & Hr)%sqlRead_inv. destruct r as [|builds]; [done|]. subst builds. split.
  - rewrite merge_sort_Permutation.
    eapply sublist_NoDup; [apply (NoDup_fst_map_to_list (t_builds (m_db (W_m w))))|]. apply fmap_sublist, sublist_filter.
  - intros id. rewrite list_elem_of_fmap. split.
    + intros ([k row] & -> & Hin). rewrite merge_sort_Permutation in Hin. apply list_elem_of_filter in Hin as [Hs Hin%elem_of_map_to_list]. eauto.
    + intros (row & Hrow & Hs). exists (id, row). split; [done|]. rewrite merge_sort_Permutation. apply list_elem_of_filter. split; [done|]. by apply elem_of_map_to_list.
Qed.
Lemma RelocateArtifactBundles_inv b schema io w moved err io' w' :
  RelocateArtifactBundles b schema io w = ((moved, err, io'), w') ->
  io' = io /\ (moved = 0) /\ (err = None -> bl_artifactsDir b = ""%string \/ artifactDirFor b schema = bl_artifactsDir b) \/
  bl_artifactsDir b <> artifactDirFor b schema /\ exists builds, relocateEach (bl_artifactsDir b) (artifactDirFor b schema) builds 0 io = ((moved, err), io') /\
    NoDup builds /\ forall id, id ∈ builds <-> exists row, t_builds (m_db (W_m w)) !! id = Some row /\ b_schema row = schema.
Proof.
  intros H. unfold RelocateArtifactBundles in H. case_decide as Hd; [apply ret_inv in H as [[= -> -> ->] _]; by left|].
  step H r w1 E. apply getSchemaBuilds_inv in E. destruct r as [e|builds]; [apply ret_inv in H as [[= -> -> ->] _]; by left|].
  apply ret_inv in H as [Hr _]. right. split; [by intros He; apply Hd; right|]. exists builds. destruct E. split_and!; [by rewrite <- Hr|done|done].
Qed.

(** C29. Moving bundles loses none: as long as the directories that are synced get
    synced, a bundle that was safe in the artifact directory is, in every state
    the disk passes through and whatever else fails, safe there or safe in the
    directory its schema publishes in -- a crash at any moment leaves one whole
    copy of it. *)
Theorem RelocateArtifactBundles_safe b schema io w moved err io' w' id data :
  RelocateArtifactBundles b schema io w = ((moved, err, io'), w') ->
  disk_ok (io_disk io) -> tidy (artifactDirFor b schema) (io_disk io) -> (forall n, io_fail io SyncDirCall n = None) ->
  keptAt (io_disk io) (bl_artifactsDir b) (getArtifactsFilename id) data ->
  exists new, io_seen io' = new ++ io_seen io /\
    Forall (fun d => keptAt d (bl_artifactsDir b) (getArtifactsFilename id) data \/ keptAt d (artifactDirFor b schema) (getArtifactsFilename id) data) new.
Proof.
  intros [(-> & _)|(Hne & builds & H & _)]%RelocateArtifactBundles_inv Hok Hti Hsync Hk; [by exists []|].
  apply (relocateEach_safe (io_fail io) _ _ Hne id data Hsync _ _ _ _ _ H); [done|done|by left].
Qed.

(** A move that reports no error has moved exactly the bundles of the schema:
    with file systems that answer, each of its builds that had a bundle in the
    artifact directory has that bundle, byte for byte, where the schema
    publishes and nowhere it published before, they are as many as reported,
    and no other name in any directory -- another destination's above all --
    leads anywhere else at any time. *)
Theorem RelocateArtifactBundles_moves b schema io w moved io' w' :
  RelocateArtifactBundles b schema io w = ((moved, None, io'), w') ->
  disk_ok (io_disk io) -> tidy (artifactDirFor b schema) (io_disk io) -> (forall n, io_fail io StatCall n = None) ->
  bl_artifactsDir b <> ""%string -> artifactDirFor b schema <> bl_artifactsDir b ->
  exists builds, (forall id, id ∈ builds <-> exists row, t_builds (m_db (W_m w)) !! id = Some row /\ b_schema row = schema) /\
    Forall (arrived (bl_artifactsDir b) (artifactDirFor b schema) (io_disk io) (io_disk io')) builds /\
    moved = Z.of_nat (length (filter (fun id => is_Some (inode (io_disk io) (bl_artifactsDir b) (getArtifactsFilename id))) builds)) /\
    forall dir name, bystander (bl_artifactsDir b) (artifactDirFor b schema) builds dir name ->
      sameAt (io_disk io) (io_disk io') dir name /\ seenSince io io' (spared (io_disk io) dir name).
Proof.
  intros [(_ & _ & Hno)|(Hne & builds & H & Hnd & Hb)]%RelocateArtifactBundles_inv Hok Hti Hstat Hset Hinto; [by destruct (Hno eq_refl)|].
  destruct (relocateEach_moves (io_fail io) _ _ Hne Hstat _ _ _ _ _ H Hnd) as [-> Hall]; [done|done|].
  exists builds. split_and!; [done|done|done|]. intros dir name Hby. by apply (relocateEach_spares (io_fail io) _ _ Hne _ _ _ _ _ _ _ H).
Qed.

(** ** Finding and removing *)

(** Code that changes nothing. *)
Class Looks {A} (e : IO A) := looks s r s' : e s = (r, s') -> io_disk s' = io_disk s /\ io_fail s' = io_fail s /\ seenSince s s' (fun d => d = io_disk s).
Lemma Looks_op {A} c (f : disk -> error + A * disk) : (forall d a d', f d = inr (a, d') -> d' = d) -> Looks (ioOp c f).
Proof.
  intros Hf s r s' H. assert (io_fail s' = io_fail s) as HF.
  { unfold ioOp in H. simpl in H. destruct (io_fail s c _); [by injection H as _ <-|]. destruct (f _) as [|[a d]]; by injection H as _ <-. }
  destruct (look_same f s r s' (fun d => d = io_disk s) Hf H eq_refl). done.
Qed.
#[export] Instance Looks_ret {A} (a : A) : Looks (mret a).
Proof. intros s r s' [= <- <-]. split_and!; [done|done|apply seenSince_refl]. Qed.
Lemma Looks_bind {A B} (e : IO A) (k : A -> IO B) : Looks e -> (forall a, Looks (k a)) -> Looks (e ≫= k).
Proof.
  intros He Hk s r s' (a & s1 & E & H)%io_bind_inv. apply He in E as (Hd & HF & Hs). apply Hk in H as (Hd' & HF' & Hs').
  split_and!; [congruence..|]. eapply seenSince_trans; [exact Hs|]. by rewrite <- Hd.
Qed.
#[export] Instance Looks_stat dir name : Looks (stat dir name).
Proof. apply Looks_op. intros d a d' E. by repeat case_match; simplify_eq. Qed.
#[export] Instance Looks_readDirs dir : Looks (readDirs dir).
Proof. apply Looks_op. intros d a d' E. by case_match; simplify_eq. Qed.
#[export] Instance Looks_marked artifactsDir names : Looks (marked artifactsDir names).
Proof. induction names as [|name names IH]; [apply _|]. apply Looks_bind; [apply _|]. intros r. apply Looks_bind; [done|]. intros; apply _. Qed.
#[export] Instance Looks_artifactDirs b : Looks (artifactDirs b).
Proof.
  unfold artifactDirs. case_decide; [apply _|]. apply Looks_bind; [apply _|]. intros r. apply Looks_bind; [destruct r; apply _|]. intros; apply _.
Qed.
#[export] Instance Looks_firstHolding filename dirs : Looks (firstHolding filename dirs).
Proof. induction dirs as [|dir dirs IH]; [apply _|]. apply Looks_bind; [apply _|]. intros [?|?]; apply _. Qed.
#[export] Instance Looks_find b filename : Looks (findArtifactBundle b filename).
Proof. apply Looks_bind; [apply _|]. intros; apply _. Qed.

(** What [os.Stat] finds. *)
Definition present (d : disk) (dir name : string) : Prop := is_Some (inode d dir name) \/ is_Some (dk_dirs d !! joinName dir name).
Lemma stat_spec dir name s r s' :
  stat dir name s = (r, s') ->
  match r with inr _ => present (io_disk s) dir name | inl _ => (forall n, io_fail s StatCall n = None) -> ~ present (io_disk s) dir name end.
Proof.
  unfold stat, ioOp, present. simpl. intros H. destruct (io_fail s StatCall _) eqn:EF; [injection H as <- <-; intros Hf; by rewrite Hf in EF|].
  destruct (inode (io_disk s) dir name) eqn:Ei; [injection H as <- <-; left; by eexists|].
  destruct (dk_dirs (io_disk s) !! joinName dir name) eqn:Ed; injection H as <- <-; [right; by eexists|]. by intros _ [[? ?]|[? ?]].
Qed.
(** The directories a bundle can be in: the artifact directory, and those under
    it that were marked as a destination's. *)
Definition namespaceOf (d : disk) (artifactsDir dir : string) : Prop :=
  exists name, name ∈ subdirs d artifactsDir /\ dir = Join artifactsDir name /\ present d dir artifactNamespaceMarker.
Definition holds_bundles (b : bundlePlane) (d : disk) (dir : string) : Prop :=
  bl_artifactsDir b <> ""%string /\ (dir = bl_artifactsDir b \/ namespaceOf d (bl_artifactsDir b) dir).
(** The outside reads without failing. *)
Definition readable (s : Io) : Prop := (forall n, io_fail s StatCall n = None) /\ (forall n, io_fail s ReadDirCall n = None).
Lemma marked_spec artifactsDir names : forall s dirs s', marked artifactsDir names s = (dirs, s') ->
  (forall dir, dir ∈ dirs -> exists name, name ∈ names /\ dir = Join artifactsDir name /\ present (io_disk s) dir artifactNamespaceMarker) /\
  ((forall n, io_fail s StatCall n = None) ->
   forall name, name ∈ names -> present (io_disk s) (Join artifactsDir name) artifactNamespaceMarker -> Join artifactsDir name ∈ dirs).
Proof.
  induction names as [|name names IH]; intros s dirs s' H; simpl in H.
  { injection H as <- <-. split; [by intros dir ?%not_elem_of_nil|by intros _ name ?%not_elem_of_nil]. }
  ioStep H r s1 E1. ioStep H ds s2 E2. injection H as <- <-. pose proof (stat_spec _ _ _ _ _ E1) as Hr. apply looks in E1 as (Hd & HF & _).
  apply IH in E2 as [Hin Hall]. rewrite Hd in Hin, Hall. rewrite HF in Hall. split.
  - intros dir Hdir. assert (dir ∈ ds \/ (dir = Join artifactsDir name /\ present (io_disk s) dir artifactNamespaceMarker)) as [H|[-> H]].
    { destruct r as [err|isd]; [by left|]. apply elem_of_cons in Hdir as [->|?]; auto. }
    + destruct (Hin _ H) as (n & ? & ? & ?). exists n. split; [by right|done].
    + exists name. split; [by left|done].
  - intros Hs n [->|Hn]%elem_of_cons Hp; [destruct r; [by destruct (Hr Hs)|by left]|]. specialize (Hall Hs n Hn Hp). destruct r; [done|by right].
Qed.
Lemma artifactDirs_spec b s dirs s' : artifactDirs b s = (dirs, s') ->
  (forall dir, dir ∈ dirs -> holds_bundles b (io_disk s) dir) /\
  (readable s -> forall dir, is_Some (dk_dirs (io_disk s) !! bl_artifactsDir b) -> holds_bundles b (io_disk s) dir -> dir ∈ dirs).
Proof.
  unfold artifactDirs. intros H. case_decide as He.
  { injection H as <- <-. split; [by intros dir ?%not_elem_of_nil|]. by intros _ dir _ [? _]. }
  ioStep H r s1 E1. ioStep H ds s2 E2. injection H as <- <-. pose proof E1 as Er. apply looks in E1 as (Hd & HF & _).
  unfold readDirs, ioOp in Er. simpl in Er. destruct r as [err|names].
  - injection E2 as <- <-. split; [intros dir ->%list_elem_of_singleton; split; [done|by left]|].
    intros [_ Hrd] dir [x Hx] _. rewrite Hrd, Hx in Er. discriminate Er.
  - assert (names = subdirs (io_disk s) (bl_artifactsDir b)) as -> by (repeat case_match; by simplify_eq).
    apply marked_spec in E2 as [Hin Hall]. rewrite Hd in Hin, Hall. rewrite HF in Hall. split.
    + intros dir [Hdir| ->%list_elem_of_singleton]%elem_of_app; (split; [done|]); [right|by left]. by apply Hin.
    + intros [Hst _] dir _ [_ [->|(name & Hn & -> & Hp)]]; apply elem_of_app; [right; by left|left; by apply Hall].
Qed.
Lemma firstHolding_spec filename dirs : forall s r s', firstHolding filename dirs s = (r, s') ->
  match r with
  | Some dir => dir ∈ dirs /\ present (io_disk s) dir filename
  | None => (forall n, io_fail s StatCall n = None) -> forall dir, dir ∈ dirs -> ~ present (io_disk s) dir filename
  end.
Proof.
  induction dirs as [|dir dirs IH]; intros s r s' H; simpl in H; [injection H as <- <-; by intros _ dir ?%not_elem_of_nil|].
  ioStep H x s1 E. pose proof (stat_spec _ _ _ _ _ E) as Hx. apply looks in E as (Hd & HF & _).
  destruct x as [err|isd]; [|injection H as <- <-; split; [by left|done]]. apply IH in H. rewrite Hd, HF in H. destruct r as [d|].
  - destruct H as [? ?]. split; [by right|done].
  - intros Hs dir' [->|Hin]%elem_of_cons; [by apply Hx|by apply H].
Qed.

Lemma remove_fails dir name s r s' :
  remove dir name s = (r, s') -> (forall c n err, io_fail s c n = Some err -> errors_Is err notExist = false) ->
  match r with inl err => errors_Is err notExist = true -> ~ present (io_disk s) dir name | inr _ => True end.
Proof.
  unfold remove, ioOp. simpl. intros H Hk. destruct (io_fail s RemoveCall _) as [e|] eqn:EF; [injection H as <- <-; apply Hk in EF; by rewrite EF|].
  unfold present. destruct (inode (io_disk s) dir name); [by injection H as <- <-|].
  destruct (dk_dirs (io_disk s) !! joinName dir name); injection H as <- <-; [done|]. by intros _ [[? ?]|[? ?]].
Qed.
Lemma present_inode d dir name : ~ present d dir name -> inode d dir name = None.
Proof. intros H. destruct (inode d dir name) eqn:E; [|done]. destruct H. left. by eexists. Qed.
Lemma findArtifactBundle_spec b filename s r s' : findArtifactBundle b filename s = (r, s') ->
  match r with
  | Some dir => holds_bundles b (io_disk s) dir /\ present (io_disk s) dir filename
  | None => readable s -> is_Some (dk_dirs (io_disk s) !! bl_artifactsDir b) -> forall dir, holds_bundles b (io_disk s) dir -> ~ present (io_disk s) dir filename
  end.
Proof.
  intros H. unfold findArtifactBundle in H. ioStep H dirs s1 E. destruct (artifactDirs_spec _ _ _ _ E) as [Hin Hall].
  apply looks in E as (Hd & HF & _). apply firstHolding_spec in H. rewrite Hd, HF in H. destruct r as [dir|].
  - destruct H as [? ?]. auto.
  - intros Hr Hx dir Hdir. apply H; [apply Hr|]. by apply Hall.
Qed.
Lemma remove_spared dir name s r s' :
  remove dir name s = (r, s') -> io_fail s' = io_fail s /\
  (forall dir' name', (dir', name') <> (dir, name) -> sameAt (io_disk s) (io_disk s') dir' name' /\ seenSince s s' (spared (io_disk s) dir' name')) /\
  match r with
  | inl _ => io_disk s' = io_disk s /\ io_seen s' = io_seen s
  | inr _ => is_Some (inode (io_disk s) dir name) /\ inode (io_disk s') dir name = None
  end.
Proof.
  intros H. split.
  { unfold remove, ioOp in H. simpl in H. repeat case_match; by simplify_eq. }
  apply remove_inv in H. destruct r as [err|[]].
  - destruct H as [Hd Hs]. split; [|done]. intros. rewrite Hd. split; [apply sameAt_refl|by apply seenSince_same].
  - destruct H as (Hi & Hd & Hs). split; [|split; [done|rewrite Hd; apply delete_gone]].
    intros dir' name' Hne. split; [rewrite Hd; by apply delete_same|]. eapply seenSince_step; [exact Hs|]. rewrite Hd. intros o. by apply delete_survives.
Qed.

(** Removing a bundle takes that file and no other: whatever fails, at most one
    name changes, the build's own file name in the directory its schema
    publishes in, in the artifact directory, or in a directory under it that was
    marked as a destination's -- never in any other directory, a challenge's
    among them; success means the file was there and is gone, an error that
    nothing changed; and where the file system reads without failing, "not
    found" means that none of those directories has it. *)
Theorem removeArtifactBundle_confined b schema filename s r s' :
  removeArtifactBundle b schema filename s = (r, s') ->
  (forall c n err, io_fail s c n = Some err -> errors_Is err notExist = false) ->
  exists dir, (dir = artifactDirFor b schema \/ holds_bundles b (io_disk s) dir) /\
    (forall dir' name', (dir', name') <> (dir, filename) -> sameAt (io_disk s) (io_disk s') dir' name' /\ seenSince s s' (spared (io_disk s) dir' name')) /\
    match r with
    | inr _ => is_Some (inode (io_disk s) dir filename) /\ inode (io_disk s') dir filename = None
    | inl err => io_disk s' = io_disk s /\
        (errors_Is err notExist = true -> readable s -> is_Some (dk_dirs (io_disk s) !! bl_artifactsDir b) ->
         inode (io_disk s) (artifactDirFor b schema) filename = None /\ forall dir', holds_bundles b (io_disk s) dir' -> inode (io_disk s) dir' filename = None)
    end.
Proof.
  intros H Hkind. unfold removeArtifactBundle in H. ioStep H r1 s1 E1. pose proof (remove_fails _ _ _ _ _ E1 Hkind) as Hfirst.
  apply remove_spared in E1 as (HF1 & Hsp1 & E1). destruct r1 as [err|[]].
  2: { injection H as <- <-. exists (artifactDirFor b schema). split_and!; [by left|exact Hsp1|exact (proj1 E1)|exact (proj2 E1)]. }
  assert (forall dir' name', sameAt (io_disk s) (io_disk s1) dir' name' /\ seenSince s s1 (spared (io_disk s) dir' name')) as Hsame1.
  { intros. destruct E1 as [-> Hs]. split; [done|by apply seenSince_same]. }
  destruct E1 as [Hd1 Hs1]. destruct (errors_Is err notExist) eqn:Eerr; simpl in H.
  2: { injection H as <- <-. exists (artifactDirFor b schema). split_and!; [by left|by intros|done|]. by rewrite Eerr. }
  ioStep H where_ s2 E2. pose proof (findArtifactBundle_spec _ _ _ _ _ E2) as Hfind. apply looks in E2 as (Hd2 & HF2 & Hs2).
  unfold readable in Hfind. rewrite Hd1, HF1 in Hfind. rewrite Hd1 in Hd2, Hs2.
  assert (forall dir' name', sameAt (io_disk s) (io_disk s2) dir' name' /\ seenSince s s2 (spared (io_disk s) dir' name')) as Hsame2.
  { intros. rewrite Hd2. split; [done|]. eapply seenSince_trans; [by apply seenSince_same|]. eapply seenSince_impl; [|exact Hs2]. by intros d -> o. }
  destruct where_ as [dir|].
  - destruct Hfind as [Hh Hp]. pose proof (remove_fails _ _ _ _ _ H) as Hsecond. rewrite HF2, HF1, Hd2 in Hsecond. specialize (Hsecond Hkind).
    apply remove_spared in H as (_ & Hsp & H). rewrite Hd2 in Hsp, H. exists dir. split_and!; [by right| |].
    + intros dir' name' Hne. destruct (Hsp dir' name' Hne) as [? ?]. split; [done|]. eapply seenSince_trans; [apply Hsame2|done].
    + destruct r as [err2|[]]; [|done]. split; [apply H|]. intros Hn. by destruct (Hsecond Hn).
  - injection H as <- <-. exists (artifactDirFor b schema). split_and!; [by left|by intros|done|]. intros _ Hr Hx. split; [by apply present_inode, Hfirst|].
    intros dir' Hh. by apply present_inode, Hfind.
Qed.

(** ** A new bundle is in place whole or not at all *)
Lemma private_staged d dir tmp i : private d dir tmp -> inode d dir tmp = Some i -> staged d dir tmp i d.
Proof. intros Hp Hi. split; try done; [|by left]. intros dir' name' Hne Hr. by apply Hne, (Hp i). Qed.
Lemma prune_spared b filename s u s' :
  pruneStrayArtifactBundle b filename s = (u, s') ->
  forall dir' name', (dir', name') <> (bl_artifactsDir b, filename) ->
    sameAt (io_disk s) (io_disk s') dir' name' /\ seenSince s s' (spared (io_disk s) dir' name').
Proof.
  unfold pruneStrayArtifactBundle. intros H dir' name' Hne. case_decide; [injection H as <- <-; split; [apply sameAt_refl|apply seenSince_refl]|].
  ioStep H r s1 E. injection H as <- <-. apply remove_spared in E as (_ & Hsp & _). by apply Hsp.
Qed.

(** Promoting an archive that is whole and safe under its staged name: at every
    moment a crash finds under the name players download what it could have
    found before or the whole new archive, and under every other name but the
    staged one and the stray's only what it could have found before.  Success
    means the new archive is in place; failure that the old one still is. *)
Theorem promoteBundle_atomic b dir staged filename i data s r s' :
  promoteBundle b dir staged filename s = (r, s') -> staged <> filename ->
  private (io_disk s) dir staged -> inode (io_disk s) dir staged = Some i -> dk_files (io_disk s) !! i = Some (mkFile data true) ->
  (forall dir' name', (dir', name') <> (dir, staged) -> (dir', name') <> (bl_artifactsDir b, filename) \/ dir = bl_artifactsDir b ->
     seenSince s s' (fun d => forall o, survives d dir' name' o -> survives (io_disk s) dir' name' o \/ (dir', name') = (dir, filename) /\ o = Some data)) /\
  match r with
  | inr _ => dataAt (io_disk s') dir filename = Some data
  | inl _ => sameAt (io_disk s) (io_disk s') dir filename
  end.
Proof.
  intros H Htmp Hp Hi Hf. assert (open_tmp (io_disk s) dir staged i s data true) as Ho.
  { split; [by apply private_staged|done| |done]. unfold inode in Hi. destruct (dk_dirs (io_disk s) !! dir); [by eexists|done]. }
  unfold promoteBundle in H. ioStep H rn s1 En. apply (rename_open _ _ _ filename _ Htmp data _ _ _ En) in Ho as [Hs1 Ho1]. destruct rn as [err|[]].
  { destruct (dropStaged_spec _ _ _ filename _ data _ _ _ _ H (ot_staged _ _ _ _ _ _ _ Ho1)) as (Hs2 & Hr & Hst). subst r.
    split; [|apply (staged_same _ _ _ _ _ _ _ Hst); congruence].
    intros dir' name' Hne _. eapply seenSince_impl; [|by eapply seenSince_trans]. intros d Hd o. by apply Hd. }
  ioStep H rd s2 Ed. apply (syncDir_placed _ _ _ _ _ _ _ _ _ Ed) in Ho1 as (Hs2 & Hpl & _). pose proof (seenSince_trans _ _ _ _ Hs1 Hs2) as Hs12.
  ioStep H u s3 E3. injection H as <- <-.
  assert (forall dir' name', (dir', name') <> (bl_artifactsDir b, filename) \/ dir = bl_artifactsDir b ->
    sameAt (io_disk s2) (io_disk s3) dir' name' /\ seenSince s2 s3 (spared (io_disk s2) dir' name')) as Hprune.
  { intros dir' name' Hor. case_decide as Hd; [apply (prune_spared _ _ _ _ _ E3); by destruct Hor|]. injection E3 as <- <-. split; [apply sameAt_refl|apply seenSince_refl]. }
  split.
  - intros dir' name' Hne Hor. apply Hprune in Hor as [_ Hs3]. eapply seenSince_trans; (eapply seenSince_impl; [|eassumption]).
    + intros d Hd o. by apply Hd.
    + intros d Hd o Ho%Hd. by eapply placed_new.
  - destruct (Hprune dir filename) as [[_ ->] _]; [destruct (decide (dir = bl_artifactsDir b)); [by right|left; congruence]|].
    unfold dataAt. rewrite (pl_now _ _ _ _ _ _ _ Hpl). simpl. by rewrite (pl_file _ _ _ _ _ _ _ Hpl).
Qed.

(** The archive a build produced, under its staged name: whole and synced, with
    everything else as it was, or nothing. *)
Lemma installArchive_spec dir tmp staged archive s r s' :
  installArchive dir tmp staged archive s = (r, s') -> tmp <> staged -> disk_ok (io_disk s) ->
  seenSince s s' (old_or_new (io_disk s) dir tmp staged archive) /\
  match r with
  | inr _ => exists i, placed (io_disk s) dir tmp staged i archive (io_disk s')
  | inl _ => forall dir' name', (dir', name') <> (dir, tmp) -> sameAt (io_disk s) (io_disk s') dir' name'
  end.
Proof.
  intros H Htmp Hok. unfold installArchive in H. apply io_try_inr in H as [(err & E & ->)|(i & s1 & E & H)].
  { apply createTemp_staged in E as [Hd Hs]; [|done]. rewrite Hd. split; [by apply seenSince_same|]. intros. apply sameAt_refl. }
  apply createTemp_staged in E as (Hst & Hn & Hx & Hf & Hseen); [|done].
  assert (seenSince s s1 (old_or_new (io_disk s) dir tmp staged archive)) as Hs1 by (eapply seenSince_step; [done|by eapply staged_old]).
  assert (open_tmp (io_disk s) dir tmp i s1 "" false) as Ho by done. clear Hst Hn Hx Hf Hseen.
  assert (forall err t fl se, seenSince s se (old_or_new (io_disk s) dir tmp staged archive) -> open_tmp (io_disk s) dir tmp i se t fl ->
    (closeFd i;; remove dir tmp;; @ioFail unit err) se = (r, s') ->
    seenSince s s' (old_or_new (io_disk s) dir tmp staged archive) /\
    match r with inr _ => exists i, placed (io_disk s) dir tmp staged i archive (io_disk s') | inl _ => forall dir' name', (dir', name') <> (dir, tmp) -> sameAt (io_disk s) (io_disk s') dir' name' end) as Hgive.
  { intros err t fl se Hse Hoe E. destruct (abandon_spec _ _ _ staged _ archive _ _ _ _ _ _ E Hoe) as (Hs2 & -> & Hst).
    split; [by eapply seenSince_trans|]. intros. by eapply staged_same. }
  ioStep H rm sm Em. apply (idle_open _ _ _ staged _ archive _ _ _ _ _ _ (fun d => eq_refl) Em) in Ho as [Hs2 Ho].
  pose proof (seenSince_trans _ _ _ _ Hs1 Hs2) as Hs12. destruct rm as [err|[]]; [by eapply Hgive|].
  ioStep H rw sw Ew. apply (writeFd_open _ _ _ staged _ archive _ _ _ _ _ _ Ew) in Ho as [Hs3 Ho].
  pose proof (seenSince_trans _ _ _ _ Hs12 Hs3) as Hs13. destruct rw as [err|[]]; [destruct Ho as [t Ho]; by eapply Hgive|]. change ("" +:+ archive)%string with archive in Ho.
  ioStep H ry sy Ey. apply (syncFd_open _ _ _ staged _ archive _ _ _ _ _ Ey) in Ho as [Hs4 Ho].
  pose proof (seenSince_trans _ _ _ _ Hs13 Hs4) as Hs14. destruct ry as [err|[]]; [by eapply Hgive|].
  ioStep H rc sl Ec. apply (idle_open _ _ _ staged _ archive _ _ _ _ _ _ (fun d => eq_refl) Ec) in Ho as [Hs5 Ho].
  pose proof (seenSince_trans _ _ _ _ Hs14 Hs5) as Hs15. destruct rc as [err|[]]; [by eapply Hgive|].
  ioStep H rn sm' En. apply (rename_open _ _ _ staged _ Htmp archive _ _ _ En) in Ho as [Hs6 Ho]. pose proof (seenSince_trans _ _ _ _ Hs15 Hs6) as Hs16.
  destruct rn as [err|[]].
  - destruct (dropStaged_spec _ _ _ staged _ archive _ _ _ _ H (ot_staged _ _ _ _ _ _ _ Ho)) as (Hs7 & -> & Hst). split; [by eapply seenSince_trans|]. intros. by eapply staged_same.
  - ioStep H rd sd Ed. injection H as <- <-. apply (syncDir_placed _ _ _ _ _ _ _ _ _ Ed) in Ho as (Hs7 & Hp & _). split; [by eapply seenSince_trans|by exists i].
Qed.

(** ** Every destination's directory is marked *)

(** Code that takes no name away. *)
Class Grows {A} (e : IO A) := grows s r s' dir name : e s = (r, s') -> is_Some (inode (io_disk s) dir name) -> is_Some (inode (io_disk s') dir name).
Lemma Grows_op {A} c (f : disk -> error + A * disk) :
  (forall d a d' dir name, f d = inr (a, d') -> is_Some (inode d dir name) -> is_Some (inode d' dir name)) -> Grows (ioOp c f).
Proof. intros Hf s r s' dir name [(err & -> & Hd & _)|(a & d & Hfd & -> & Hd & _)]%ioOp_inv; rewrite Hd; [done|]. by eapply Hf. Qed.
#[export] Instance Grows_ret {A} (a : A) : Grows (mret a).
Proof. by intros s r s' dir name [= <- <-]. Qed.
Lemma Grows_bind {A B} (e : IO A) (k : A -> IO B) : Grows e -> (forall a, Grows (k a)) -> Grows (e ≫= k).
Proof. intros He Hk s r s' dir name (a & s1 & E & H)%io_bind_inv Hs. eapply Hk; [exact H|]. by eapply He. Qed.
Lemma Grows_try {A B} (e : IO (error + A)) (k : A -> IO (error + B)) : Grows e -> (forall a, Grows (k a)) -> Grows (ioTry e k).
Proof. intros He Hk. apply Grows_bind; [done|]. intros [err|a]; [apply Grows_ret|apply Hk]. Qed.
#[export] Instance Grows_closeFd i : Grows (closeFd i).
Proof. apply Grows_op. by intros d a d' dir name [= <- <-]. Qed.
#[export] Instance Grows_writeFd i data : Grows (writeFd i data).
Proof. by intros s r s' dir name [= <- <-]. Qed.
#[export] Instance Grows_mkdir p : Grows (mkdir p).
Proof.
  apply Grows_op. intros d a d' dir name H Hi. repeat case_match; simplify_eq; [done|]. unfold inode in *. simpl.
  destruct (dk_dirs d !! dir) eqn:E; [|by destruct Hi]. rewrite lookup_insert_ne by congruence. by rewrite E.
Qed.
#[export] Instance Grows_mkdirEach ps : Grows (mkdirEach ps).
Proof. induction ps as [|p ps IH]; [apply Grows_ret|]. apply Grows_try; [apply _|]. by intros. Qed.
Lemma openTruncated_made dir name s i s' : openTruncated dir name s = (inr i, s') -> is_Some (inode (io_disk s') dir name).
Proof.
  intros [(? & ? & _)|(a & d & Hf & _ & Hd & _)]%ioOp_inv; [done|]. rewrite Hd. destruct (dk_dirs (io_disk s) !! dir) as [x|] eqn:Ex; [|done].
  destruct (dir_names x !! name) eqn:En; injection Hf as <- <-.
  - assert (inode (io_disk s) dir name = Some n) as E by (unfold inode; by rewrite Ex). exists n. exact E.
  - rewrite inode_onNames, decide_True by done. simpl. rewrite Ex. simpl. by rewrite lookup_insert_eq.
Qed.
#[export] Instance Grows_openTruncated dir name : Grows (openTruncated dir name).
Proof.
  apply Grows_op. intros d a d' dir' name' H Hi. case_match eqn:Ex; [|done]. case_match; injection H as <- <-; [done|].
  rewrite inode_onNames. unfold inode in *. simpl.
  case_decide as E; [|done]. subst dir'. rewrite Ex in *. simpl in *. rewrite lookup_insert_is_Some. destruct (decide (name = name')); auto.
Qed.
#[export] Instance Grows_writeFile dir name data : Grows (writeFile dir name data).
Proof. unfold writeFile. apply Grows_try; [apply _|]. intros fd. apply Grows_bind; [apply _|]. intros r. apply Grows_bind; [apply _|]. intros; apply _. Qed.
#[export] Instance Grows_markNamespaces artifactsDir names : Grows (markNamespaces artifactsDir names).
Proof.
  induction names as [|name names IH]; simpl; [apply _|]. case_decide; [done|]. apply Grows_bind; [apply Grows_mkdirEach|]. intros [err|[]]; [apply _|].
  apply Grows_bind; [apply _|]. intros [err|[]]; apply _.
Qed.
Lemma markNamespaces_marks artifactsDir names : forall s s' name, markNamespaces artifactsDir names s = (None, s') ->
  name ∈ names -> name <> ""%string -> is_Some (inode (io_disk s') (Join artifactsDir name) artifactNamespaceMarker).
Proof.
  induction names as [|n names IH]; intros s s' name H Hin Hne; [by apply not_elem_of_nil in Hin|]. simpl in H. apply elem_of_cons in Hin as [<-|Hin].
  - rewrite decide_False in H by done. ioStep H r s1 E1. destruct r as [err|[]]; [done|]. ioStep H r s2 E2. destruct r as [err|[]]; [done|].
    eapply grows; [exact H|]. unfold writeFile in E2. apply io_try_inr in E2 as [(? & _ & ?)|(fd & s3 & E3 & E2)]; [done|]. apply openTruncated_made in E3.
    ioStep E2 r s4 E4. ioStep E2 c s5 E5. injection E2 as _ <-. eapply (Grows_closeFd fd); [exact E5|]. by eapply (Grows_writeFd fd).
  - case_decide; [by eapply IH|]. ioStep H r s1 E1. destruct r as [err|[]]; [done|]. ioStep H r s2 E2. destruct r as [err|[]]; [done|]. by eapply IH.
Qed.
(** Once the namespaces are set, the directory every named schema publishes in
    has the marker that later tells it from a challenge's: what was written
    there can be found again. *)
Theorem SetArtifactNamespaces_marks names bySchema b s b' s' schema :
  SetArtifactNamespaces names bySchema b s = ((None, b'), s') -> (forall k v, bySchema !! k = Some v -> v ∈ names) -> bl_artifactsDir b <> ""%string ->
  artifactDirFor b' schema = bl_artifactsDir b \/ is_Some (inode (io_disk s') (artifactDirFor b' schema) artifactNamespaceMarker).
Proof.
  unfold SetArtifactNamespaces. intros H Hn Hset. case_decide as Hv; [|done]. simpl in H. rewrite decide_False in H by done. ioStep H err s1 E.
  injection H as -> <- <-. unfold artifactDirFor. simpl. rewrite decide_False by done. destruct (bySchema !! schema) as [name|] eqn:El; [|by left].
  case_decide as Hne; [by left|right]. eapply markNamespaces_marks; [exact E|by eapply Hn|done].
Qed.

(** ** A challenge directory the scan can see *)

(** A directory that is accepted is one the walk goes into; a link to one is
    refused. *)
Theorem setChallengeDirectory_walks cwd env lstat follow chalDir :
  setChallengeDirectory cwd env lstat follow = inr chalDir -> exists st listing, lstat chalDir = inr (DirNode st listing).
Proof.
  unfold setChallengeDirectory, statNode. destruct (Abs _ _) as [err|dir]; [done|]. intros H. destruct (lstat dir) as [err|n] eqn:E; [done|].
  destruct n as [st listing|st c|st t c|st so]; simpl in H; simplify_eq; [eauto|]. destruct (follow dir) as [|n]; [done|]. by destruct (isDir n).
Qed.

(** ** Witnesses *)
Local Open Scope string_scope.
Definition demo_bundles (inProd : gmap string nat) : disk :=
  mkDisk {["/" := mkDirectory ∅ []; "/art" := mkDirectory {["1.tar.gz" := O]} []; "/art/web" := mkDirectory {["1.tar.gz" := 3%nat]} [];
           "/art/prod" := mkDirectory (<[artifactNamespaceMarker := 1%nat]> inProd) []]}
    {[O := mkFile "built" true; 1%nat := mkFile "" false; 2%nat := mkFile "rebuilt" true; 3%nat := mkFile "a challenge's own" true]} 4.
Definition demo_plane : bundlePlane := mkPlane "/art" {["event" := "prod"]}.
Definition demo_files (d : disk) (fails : fileCall -> nat -> option error) : Io := mkIo d 0 [] fails (fun _ => O).
Definition never : fileCall -> nat -> option error := fun _ _ => None.
Lemma demo_bundles_ok : disk_ok (demo_bundles ∅).
Proof. apply diskOk_spec. vm_compute. reflexivity. Qed.
Lemma demo_tidy : tidy "/art/prod" (demo_bundles ∅).
Proof.
  intros id i dir' name' Hi. exfalso. assert (inode (demo_bundles ∅) "/art/prod" (stagedName (getArtifactsFilename id)) =
    (<[artifactNamespaceMarker := 1%nat]> ∅ : gmap string nat) !! stagedName (getArtifactsFilename id)) as E by reflexivity.
  rewrite E, lookup_insert_ne in Hi; [by rewrite lookup_empty in Hi|]. clear. unfold stagedName, artifactNamespaceMarker, getArtifactsFilename.
  destruct (pretty_first id) as (c & s & -> & _ & Hc). intros H. by injection H.
Qed.
Local Abbreviation moved d fails := (RelocateArtifactBundles demo_plane "event" (demo_files d fails) (demo_world calm)).

Lemma RelocateArtifactBundles_moves_witness :
  exists io', (moved (demo_bundles ∅) never).1 = (1, None, io') /\ dataAt (io_disk io') "/art/prod" "1.tar.gz" = Some "built" /\
    sameAt (demo_bundles ∅) (io_disk io') "/art/web" "1.tar.gz".
Proof.
  destruct (moved (demo_bundles ∅) never) as [[[n err] io'] w'] eqn:E. exists io'.
  assert (n = 1 /\ err = None) as [-> ->] by (apply (f_equal (fun x => x.1.1)) in E; vm_compute in E; by injection E as <- <-).
  split; [done|]. destruct (RelocateArtifactBundles_moves demo_plane "event" (demo_files (demo_bundles ∅) never) (demo_world calm) 1 io' w') as (builds & Hb & Hall & _ & Hby).
  - exact E.
  - exact demo_bundles_ok.
  - exact demo_tidy.
  - reflexivity.
  - discriminate.
  - vm_compute. discriminate.
  - assert (1 ∈ builds) as H1 by (apply Hb; eexists; split; vm_compute; reflexivity). split.
    + rewrite Forall_forall in Hall. destruct (Hall 1 H1) as [_ Ha]. vm_compute in Ha. exact Ha.
    + apply Hby. intros id _. split_and!; (intros Ep%(f_equal fst); vm_compute in Ep; discriminate Ep).
Defined.
Lemma demo_kept : keptAt (demo_bundles ∅) "/art" (getArtifactsFilename 1) "built".
Proof.
  intros o (names & Hn & Ho). change (candidates (demo_bundles ∅) "/art") with [{["1.tar.gz" := O]} : gmap string nat] in Hn.
  apply list_elem_of_singleton in Hn as ->. change (({["1.tar.gz" := O]} : gmap string nat) !! getArtifactsFilename 1) with (Some O) in Ho.
  destruct Ho as (f & s & Hf & -> & Hs). vm_compute in Hf. injection Hf as <-. by rewrite Hs.
Qed.
Lemma RelocateArtifactBundles_safe_witness :
  Forall (fun d => keptAt d "/art" "1.tar.gz" "built" \/ keptAt d "/art/prod" "1.tar.gz" "built") (io_seen (moved (demo_bundles ∅) never).1.2).
Proof.
  destruct (moved (demo_bundles ∅) never) as [[[n err] io'] w'] eqn:E.
  destruct (RelocateArtifactBundles_safe demo_plane "event" (demo_files (demo_bundles ∅) never) (demo_world calm) n err io' w' 1 "built") as (new & Hs & Hall).
  - exact E.
  - exact demo_bundles_ok.
  - exact demo_tidy.
  - reflexivity.
  - exact demo_kept.
  - cbn [fst snd]. rewrite Hs. simpl. rewrite app_nil_r. exact Hall.
Defined.
(** A destination's bundle is found and removed by a command that was given no
    destination; a challenge's file of the same name stays. *)
Definition found_disk : disk := onNames "/art" (delete "1.tar.gz") (demo_bundles {["1.tar.gz" := 2%nat]}).
Lemma removeArtifactBundle_confined_witness :
  exists s' dir, removeArtifactBundle (mkPlane "/art" ∅) "event" "1.tar.gz" (demo_files found_disk never) = (inr tt, s') /\
    is_Some (inode found_disk dir "1.tar.gz") /\ inode (io_disk s') dir "1.tar.gz" = None /\ (dir = "/art" \/ holds_bundles (mkPlane "/art" ∅) found_disk dir).
Proof.
  destruct (removeArtifactBundle (mkPlane "/art" ∅) "event" "1.tar.gz" (demo_files found_disk never)) as [r s'] eqn:E.
  assert (r = inr tt) as -> by (apply (f_equal fst) in E; vm_compute in E; by symmetry).
  destruct (removeArtifactBundle_confined (mkPlane "/art" ∅) "event" "1.tar.gz" (demo_files found_disk never) (inr tt) s') as (dir & Hdir & _ & H1 & H2).
  - exact E.
  - discriminate.
  - exists s', dir. split_and!; [done|exact H1|exact H2|exact Hdir].
Defined.

(** ** What the examples show *)

(** A stray that could not be removed when its build was promoted is older than
    the bundle in place; moving bundles puts it over the newer one. *)
Example stray_overwrites_newer :
  dataAt (demo_bundles {["1.tar.gz" := 2%nat]}) "/art/prod" "1.tar.gz" = Some "rebuilt" /\
  dataAt (io_disk (moved (demo_bundles {["1.tar.gz" := 2%nat]}) never).1.2) "/art/prod" "1.tar.gz" = Some "built".
Proof. split; vm_compute; reflexivity. Qed.
(** A sync of the directory that fails is passed over: the removal that follows
    leaves a disk on which a crash can take both copies. *)
Example unsynced_move_loses :
  let d := io_disk (moved (demo_bundles ∅) (fun c _ => if decide (c = SyncDirCall) then Some [OtherError "EIO"] else None)).1.2 in
  survives d "/art" "1.tar.gz" None /\ survives d "/art/prod" "1.tar.gz" None.
Proof.
  cbn zeta. split; [exists ∅|exists {[artifactNamespaceMarker := 1%nat]}]; (split; [eapply (bool_decide_eq_true_1 _); vm_compute; reflexivity|reflexivity]).
Qed.
(** The separator is accepted as the name of a directory, and names the artifact
    directory itself. *)
Example slash_is_a_namespace : validNamespace "/" = true /\ artifactDirFor (mkPlane "/art" {["event" := "/"]}) "event" = "/art".
Proof. split; vm_compute; reflexivity. Qed.
