(* ===== verification/Routing.v ===== *)
(** * Routing: which orchestrator a schema goes to

    What [cmd/cork-build] decides before it talks to anyone: the schema files it
    is given ([loadSchema], [validSchemaName]), the destinations configured
    ([loadDestinations]), where each schema goes ([routeSchemas]) and whether
    two orchestrators would come to serve one image ([exclusivityConflicts]).
    Reading a file, YAML, JSON and [url.Parse] are parameters. *)
From S2P Require Import Prelude Types Settings Text Regex Artifacts Queue Worker Netip Database Fleet HostConfig Effects Ports Instances Images Sha256 Seccomp Docker Launch Lifecycle Reconcile Builds Converge Builder Rebuild Challenges Schemas HandOver Submatch BasePins Search Files.
Local Open Scope Z_scope.

(** ** Schema files *)
Section files.
Context (unicodeLower : string -> string) (readFile : string -> error + string)
  (unmarshalJSON unmarshalYAML : string -> error + Schema).

Definition reserved (c : ascii) : bool := bool_decide (c ∈ ["/"; "?"; "#"; "%"; "\"; "009"; "013"; "010"]%char).
Definition schemaExtensions : list string := [".yaml"; ".yml"; ".json"]%string.
Definition validSchemaName (name : string) : error + unit :=
  if decide (name = ""%string) then inl [OtherError "has no name"]
  else if negb (all_chars (fun c => negb (reserved c)) name) then inl [OtherError "cannot address a schema over HTTP"]
  else if existsb (HasSuffix (BasePins.ToLower unicodeLower name)) schemaExtensions then inl [OtherError "reads as a file"]
  else if decide (name = "."%string \/ name = ".."%string) then inl [OtherError "is a path, not a schema name"]
  else inr tt.

Definition seedless (schema : Schema) : list ChallengeId :=
  merge_sort String.le (filter (fun id => from_option spec_seeds [] (sch_challenges schema !! id) = []) (elements (dom (sch_challenges schema)))).
Definition loadSchema (path : string) : error + Schema :=
  match readFile path with
  | inl err => inl err
  | inr data =>
    let r := if decide (Ext path = ".json"%string) then unmarshalJSON data
             else if decide (Ext path = ".yaml"%string \/ Ext path = ".yml"%string) then unmarshalYAML data
             else inl [OtherError "unrecognized schema file extension"] in
    match r with
    | inl err => inl err
    | inr schema =>
      match validSchemaName (sch_name schema) with
      | inl err => inl err
      | inr _ =>
        if decide (sch_flagFormat schema = ""%string) then inl [OtherError "has no flag format"]
        else if decide (sch_challenges schema = ∅) then inl [OtherError "names no challenges"]
        else if decide (seedless schema <> []) then inl [OtherError "names no seeds"]
        else inr schema
      end
    end
  end.
End files.

(** The schema as the build plane converges it: nothing runs there. *)
Definition forBuilding (schema : Schema) : Schema :=
  mkSchema (sch_name schema) (sch_flagFormat schema) ((fun spec => mkSpec (spec_seeds spec) DYNAMIC_INSTANCES) <$> sch_challenges schema) "".
Definition scanDidNotHappen (updates : ChallengeUpdates) : bool :=
  if decide (cu_errors updates = []) then false
  else bool_decide (Z.of_nat (length (cu_added updates)) + Z.of_nat (length (cu_updated updates)) + Z.of_nat (length (cu_refreshed updates))
         + Z.of_nat (length (cu_stale updates)) + Z.of_nat (length (cu_unmodified updates)) = 0).
(** What tells add-schema from update-schema. *)
Definition schemaGuard (schemaName : string) (known : list string) (wantKnown : bool) : option error :=
  let built := bool_decide (schemaName ∈ known) in
  if wantKnown && negb built then Some [OtherError "this build plane has built nothing for the schema"]
  else if negb wantKnown && built then Some [OtherError "this build plane has already built the schema"]
  else None.

(** ** Destinations *)
Definition DESTINATIONS_ENV : string := "CORK_DESTINATIONS".
Record destinations := mkDests { ds_byName : gmap string string; ds_defName : string }.
Definition destinationNames (d : destinations) : list string := merge_sort String.le (elements (dom (ds_byName d))).

Section destinations.
(** [url.Parse]: the scheme and the host. *)
Context (parseURL : string -> error + string * string).
Context (readFile : string -> error + string) (unmarshal : string -> error + gmap string string).

Definition validAddress (value : string) : error + unit :=
  if decide (value = ""%string) then inl [OtherError "has no address"]
  else
    match parseURL value with
    | inl err => inl err
    | inr (scheme, host) =>
      if decide (scheme <> "http"%string /\ scheme <> "https"%string) then inl [OtherError "is not an http(s) address"]
      else if decide (host = ""%string) then inl [OtherError "names no host"]
      else inr tt
    end.
(** [serverList.Set]: one more --server. *)
Definition setServer (servers : list string) (value : string) : error + list string :=
  match validAddress value with
  | inl err => inl err
  | inr _ => inr (servers ++ [TrimRight "/" value])
  end.

(** The names in turn, [raw] what the file says of each. *)
Fixpoint addDestinations (raw : gmap string string) (names : list string) (byAddress byName : gmap string string) : error + gmap string string :=
  match names with
  | [] => inr byName
  | name :: names =>
    if decide (name = ""%string) then inl [OtherError "names a destination with no name"]
    else
      let address := TrimRight "/" (default ""%string (raw !! name)) in
      match validAddress address with
      | inl err => inl err
      | inr _ =>
        match byAddress !! address with
        | Some _ => inl [OtherError "one orchestrator is one destination"]
        | None => addDestinations raw names (<[address := name]> byAddress) (<[name := address]> byName)
        end
      end
  end.
Definition defaultName (byName : gmap string string) : string :=
  match map_to_list byName with [(name, _)] => name | _ => ""%string end.
Definition loadDestinations (path : string) : error + destinations :=
  if decide (path = ""%string) then inr (mkDests ∅ "")
  else
    match readFile path with
    | inl err => if errors_Is err notExist then inr (mkDests ∅ "") else inl err
    | inr data =>
      match unmarshal data with
      | inl err => inl err
      | inr raw =>
        match addDestinations raw (merge_sort String.le (elements (dom raw))) ∅ ∅ with
        | inl err => inl err
        | inr byName => inr (mkDests byName (defaultName byName))
        end
      end
    end.
End destinations.

(** [destinations.resolve]. *)
Definition resolveDestination (d : destinations) (destination : string) : error + string :=
  if decide (destination = ""%string) then
    match size (ds_byName d) with
    | O => inl [OtherError "names no destination and none is configured"]
    | S O => inr (default ""%string (ds_byName d !! ds_defName d))
    | _ => inl [OtherError "names no destination and there are several to choose from"]
    end
  else
    match ds_byName d !! destination with
    | Some address => inr address
    | None => inl [OtherError "is for a destination that is not configured"]
    end.

(** ** Routes *)
Definition serverRouteName : string := "--server".
Record route := mkRoute { rt_name : string; rt_address : string; rt_schemas : list Schema }.
#[export] Instance eta_route : Eta route := fun r => mkRoute (rt_name r) (rt_address r) (rt_schemas r).

(** The name of the destination a schema is for. *)
Definition routeName (dests : destinations) (schema : Schema) : string :=
  if decide (sch_destination schema = ""%string) then ds_defName dests else sch_destination schema.
Fixpoint routeEach (dests : destinations) (schemas : list Schema) (byAddress : gmap string route) (order : list string) (problems : list error)
    : gmap string route * list string * list error :=
  match schemas with
  | [] => (byAddress, order, problems)
  | schema :: schemas =>
    match resolveDestination dests (sch_destination schema) with
    | inl err => routeEach dests schemas byAddress order (problems ++ [err])
    | inr address =>
      match byAddress !! address with
      | None => routeEach dests schemas (<[address := mkRoute (routeName dests schema) address [schema]]> byAddress) (order ++ [address]) problems
      | Some r => routeEach dests schemas (<[address := r <| rt_schemas ::= (.++ [schema]) |>]> byAddress) order problems
      end
    end
  end.
Definition routeSchemas (schemas : list Schema) (servers : list string) (dests : destinations) : error + list route :=
  if decide (servers <> []) then inr ((fun address => mkRoute serverRouteName address schemas) <$> servers)
  else
    let '(byAddress, order, problems) := routeEach dests schemas ∅ [] [] in
    if decide (problems <> []) then inl (mjoin problems)
    else inr (omap (byAddress !!.) order).

(** ** One image, one orchestrator *)
Record claim := mkClaim { cl_route : string; cl_schema : string; cl_id : ChallengeId; cl_seed : Z; cl_format : string }.
(** The builds the schemas name, in the order the loops come to them. *)
Definition claims (routes : list route) : list claim :=
  r ← routes; schema ← rt_schemas r; idspec ← map_to_list (sch_challenges schema); seed ← spec_seeds idspec.2;
  [mkClaim (rt_name r) (sch_name schema) idspec.1 seed (sch_flagFormat schema)].
Definition claimKey (c : claim) : string :=
  (cl_id c +:+ String NUL (pretty (cl_seed c) +:+ String NUL (cl_format c)))%string.
Definition conflictText (held c : claim) : string :=
  ("'" +:+ cl_id c +:+ "' at seed " +:+ pretty (cl_seed c) +:+ " with flag format '" +:+ cl_format c +:+ "' is named by schema '" +:+
   cl_schema held +:+ "' for destination '" +:+ cl_route held +:+ "' and schema '" +:+ cl_schema c +:+ "' for destination '" +:+ cl_route c +:+ "': one content-addressed tag cannot be served by two orchestrators, because whichever drops its schema first retires it from under the other")%string.
Definition noteClaim (acc : gmap string claim * list string) (c : claim) : gmap string claim * list string :=
  let '(owners, conflicts) := acc in
  match owners !! claimKey c with
  | None => (<[claimKey c := c]> owners, conflicts)
  | Some held => if decide (cl_route held = cl_route c) then acc else (owners, conflicts ++ [conflictText held c])
  end.
Definition exclusivityConflicts (routes : list route) : list string :=
  merge_sort String.le (foldl noteClaim (∅, []) (claims routes)).2.

(** ** What is proved *)

(** What [loadDestinations] promises of the destinations it returns. *)
Record dests_ok (d : destinations) : Prop := {
  do_named : ds_byName d !! ""%string = None;
  do_apart : forall a b address, ds_byName d !! a = Some address -> ds_byName d !! b = Some address -> a = b;
  do_address : forall name, ds_byName d !! name <> Some ""%string;
  do_default : ds_defName d = defaultName (ds_byName d) }.

Lemma defaultName_spec byName :
  match size byName with
  | S O => exists address, byName = {[defaultName byName := address]}
  | _ => defaultName byName = ""%string
  end.
Proof.
  unfold defaultName. rewrite <- length_map_to_list. destruct (map_to_list byName) as [|[name address] [|]] eqn:E; simpl; try done.
  exists address. by rewrite <- (list_to_map_to_list byName), E.
Qed.
(** The destination a schema is for is the one its address is of. *)
Lemma resolve_spec d schema address : dests_ok d ->
  resolveDestination d (sch_destination schema) = inr address <-> ds_byName d !! routeName d schema = Some address.
Proof.
  intros [Hn _ _ Hd]. unfold resolveDestination, routeName. destruct (decide (sch_destination schema = ""%string)) as [E|E].
  - pose proof (defaultName_spec (ds_byName d)) as H. rewrite <- Hd in H. destruct (size (ds_byName d)) as [|[|n]].
    + rewrite H, Hn. split; discriminate.
    + destruct H as [x H]. rewrite H, lookup_singleton_eq. simpl. split; by intros [= ->].
    + rewrite H, Hn. split; discriminate.
  - destruct (ds_byName d !! sch_destination schema); split; intros H; simplify_eq; try done.
Qed.

Lemma addDestinations_spec parseURL raw names : forall byAddress byName byName',
  addDestinations parseURL raw names byAddress byName = inr byName' ->
  NoDup names -> (forall name, name ∈ names -> byName !! name = None) ->
  byName !! ""%string = None -> (forall name address, byName !! name = Some address <-> byAddress !! address = Some name) ->
  byName' !! ""%string = None /\
  (forall a b address, byName' !! a = Some address -> byName' !! b = Some address -> a = b) /\
  (forall name address, byName' !! name = Some address <->
     byName !! name = Some address \/ (name ∈ names /\ address = TrimRight "/" (default ""%string (raw !! name)))) /\
  (forall name address, name ∈ names -> byName' !! name = Some address -> validAddress parseURL address = inr tt).
Proof.
  induction names as [|name names IH]; intros byAddress byName byName' H Hnd Hfresh Hempty Hinv; simpl in H.
  - injection H as <-. split_and!; [done| |set_solver|set_solver].
    intros a b address Ha Hb. apply Hinv in Ha, Hb. congruence.
  - destruct (decide (name = ""%string)) as [|Hne]; [done|]. destruct (validAddress _ _) as [|[]] eqn:Hv; [done|].
    set (address0 := TrimRight "/" (default ""%string (raw !! name))) in *.
    destruct (byAddress !! address0) eqn:Hb; [done|]. apply NoDup_cons in Hnd as [Hn Hnd].
    apply IH in H as (H1 & H2 & H3 & H4); [| | |by rewrite lookup_insert_ne|].
    + split_and!; [done..| |].
      * intros x a. rewrite H3, lookup_insert_Some, elem_of_cons. split.
        -- intros [[[<- <-]|[? ?]]|[? ?]]; [right; by split; [left|]|by left|right; by split; [right|]].
        -- intros [Hx|[[->|Hx] ->]]; [|by left; left|by right].
           left. destruct (decide (name = x)) as [->|]; [|by right]. rewrite Hfresh in Hx; [done|by left].
      * intros x a Hx Ha. apply elem_of_cons in Hx as [->|Hx]; [|by eapply H4].
        apply H3 in Ha as [Ha|[? _]]; [|done]. rewrite lookup_insert_eq in Ha. injection Ha as <-. done.
    + done.
    + intros x Hx. rewrite lookup_insert_ne by (intros ->; done). apply Hfresh. by right.
    + intros x a. rewrite !lookup_insert_Some. split.
      * intros [[<- <-]|[Hx Ha]]; [by left|]. right. split; [|by apply Hinv].
        intros ->. apply Hinv in Ha. congruence.
      * intros [[<- <-]|[Hx Ha]]; [by left|]. right. apply Hinv in Ha. split; [|done].
        intros ->. rewrite Hfresh in Ha; [done|by left].
Qed.
Lemma sorted_keys {A} (m : gmap string A) :
  let names := merge_sort String.le (elements (dom m)) in NoDup names /\ forall name, name ∈ names <-> is_Some (m !! name).
Proof.
  simpl. pose proof (merge_sort_Permutation String.le (elements (dom m))) as Hp. split; [rewrite Hp; apply NoDup_elements|].
  intros name. by rewrite Hp, elem_of_elements, elem_of_dom.
Qed.
(** What is loaded is the file's mapping with the addresses trimmed, every one of
    them valid and none under two names. *)
Theorem loadDestinations_sound parseURL readFile unmarshal path data raw d :
  readFile path = inr data -> unmarshal data = inr raw -> path <> ""%string ->
  loadDestinations parseURL readFile unmarshal path = inr d ->
  dests_ok d /\ ds_byName d = TrimRight "/" <$> raw /\
  map_Forall (fun _ address => validAddress parseURL address = inr tt) (ds_byName d).
Proof.
  intros Hr Hu Hp. unfold loadDestinations. rewrite decide_False, Hr, Hu by done.
  destruct (addDestinations _ _ _ _ _) as [|byName] eqn:E; [done|]. intros [= <-]. simpl.
  destruct (sorted_keys raw) as [Hnd Hin].
  apply addDestinations_spec in E as (H1 & H2 & H3 & H4); [|done|set_solver|done|intros ??; by rewrite !lookup_empty].
  assert (map_Forall (fun _ address => validAddress parseURL address = inr tt) byName) as Hv.
  { intros name address Ha. apply (H4 name); [|done]. apply H3 in Ha as [Ha|[? _]]; [by rewrite lookup_empty in Ha|done]. }
  split_and!; [split; try done| |done].
  - intros name Ha. by specialize (Hv _ _ Ha).
  - apply map_eq. intros name. apply option_eq. intros address. rewrite H3, lookup_fmap, lookup_empty, Hin.
    destruct (raw !! name); simpl; naive_solver.
Qed.
Lemma loadDestinations_ok parseURL readFile unmarshal path d :
  loadDestinations parseURL readFile unmarshal path = inr d -> dests_ok d.
Proof.
  intros H. assert (dests_ok (mkDests ∅ "")) as H0 by (split; [done|intros a b x Ha; simpl in Ha; by rewrite lookup_empty in Ha|intros a; simpl; by rewrite lookup_empty|done]).
  unfold loadDestinations in H. destruct (decide (path = ""%string)) as [|Hp]; [by injection H as <-|].
  destruct (readFile path) as [err|data] eqn:Hr; [destruct (errors_Is _ _); [by injection H as <-|done]|].
  destruct (unmarshal data) as [|raw] eqn:Hu; [done|]. eapply (loadDestinations_sound parseURL readFile unmarshal path); try done.
  unfold loadDestinations. by rewrite decide_False, Hr, Hu.
Qed.

(** *** Routes *)
Definition goesTo (dests : destinations) (address : string) (schema : Schema) : Prop :=
  ds_byName dests !! routeName dests schema = Some address.
#[export] Instance goesTo_dec dests address schema : Decision (goesTo dests address schema).
Proof. unfold goesTo. apply _. Defined.
(** What the maps of [routeEach] hold once [done] is dealt with. *)
Record routed (dests : destinations) (seen : list Schema) (byAddress : gmap string route) (order : list string) : Prop := {
  ro_order : NoDup order;
  ro_dom : forall address, address ∈ order <-> is_Some (byAddress !! address);
  ro_route : forall address r, byAddress !! address = Some r ->
    rt_address r = address /\ ds_byName dests !! rt_name r = Some address /\ rt_schemas r = filter (goesTo dests address) seen /\ rt_schemas r <> [];
  ro_all : Forall (fun schema => exists address, address ∈ order /\ goesTo dests address schema) seen }.
Lemma routeEach_spec dests schemas : dests_ok dests -> forall seen byAddress order problems byAddress' order',
  routeEach dests schemas byAddress order problems = (byAddress', order', []) -> routed dests seen byAddress order ->
  problems = [] /\ routed dests (seen ++ schemas) byAddress' order'.
Proof.
  intros Hok. induction schemas as [|schema schemas IH]; intros seen byAddress order problems byAddress' order' H Hr; simpl in H.
  - injection H as <- <- ->. by rewrite app_nil_r.
  - destruct (resolveDestination _ _) as [err|address] eqn:E; [by apply (IH seen) in H as [? _]; [destruct problems|]|].
    apply resolve_spec in E; [|done]. rewrite cons_middle, app_assoc. destruct Hr as [H1 H2 H3 H4].
    assert (forall a, filter (goesTo dests a) (seen ++ [schema]) = filter (goesTo dests a) seen ++ (if decide (address = a) then [schema] else [])) as Hf.
    { intros a. rewrite filter_app. f_equal. rewrite filter_cons, filter_nil. destruct (decide (address = a)) as [->|Hn]; [by rewrite decide_True|].
      rewrite decide_False; [done|]. unfold goesTo. congruence. }
    destruct (byAddress !! address) as [r|] eqn:Eb; (apply (IH (seen ++ [schema])) in H; [done|]).
    + split; [done|..].
      * intros a. rewrite H2. destruct (decide (address = a)) as [->|]; [rewrite lookup_insert_eq, Eb; split; eauto|by rewrite lookup_insert_ne].
      * intros a r'. rewrite lookup_insert_Some, Hf. intros [[<- <-]|[Hn Ha]]; [|rewrite decide_False, app_nil_r by done; eauto].
        destruct (H3 _ _ Eb) as (? & ? & Hs & ?). rewrite decide_True by done. simpl. rewrite Hs. split_and!; [done..|]. by destruct (filter _ _).
      * apply Forall_app. split; [done|]. apply Forall_singleton. exists address. rewrite H2, Eb. eauto.
    + split.
      * apply NoDup_app. split_and!; [done| |apply NoDup_singleton]. intros a Ha ->%list_elem_of_singleton. apply H2 in Ha as [? Ha]. congruence.
      * intros a. rewrite elem_of_app, list_elem_of_singleton, H2. destruct (decide (address = a)) as [->|Hn]; [rewrite lookup_insert_eq; naive_solver|].
        rewrite lookup_insert_ne by done. naive_solver.
      * intros a r'. rewrite lookup_insert_Some, Hf. intros [[<- <-]|[Hn Ha]]; [|rewrite decide_False, app_nil_r by done; eauto].
        rewrite decide_True by done. simpl. assert (filter (goesTo dests address) seen = []) as ->; [|done].
        destruct (filter (goesTo dests address) seen) as [|s l] eqn:El; [done|].
        assert (s ∈ filter (goesTo dests address) seen) as Hs by (rewrite El; left). apply list_elem_of_filter in Hs as [Hs Hin].
        rewrite Forall_forall in H4. destruct (H4 _ Hin) as (a & Ha & Hg). unfold goesTo in *. apply H2 in Ha as [? Ha]. congruence.
      * apply Forall_app. split; [eapply Forall_impl; [exact H4|]|apply Forall_singleton]; simpl.
        -- intros s (a & Ha & Hg). exists a. split; [|done]. apply elem_of_app. by left.
        -- exists address. split; [|done]. apply elem_of_app. right. by left.
Qed.
(** A run is refused or every schema goes to the one orchestrator its
    destination stands for, in the order of the files; no orchestrator is in two
    routes. *)
Theorem routeSchemas_partition dests schemas routes :
  dests_ok dests -> routeSchemas schemas [] dests = inr routes ->
  NoDup (rt_address <$> routes) /\ NoDup (rt_name <$> routes) /\
  Forall (fun r => ds_byName dests !! rt_name r = Some (rt_address r) /\ rt_schemas r = filter (goesTo dests (rt_address r)) schemas /\ rt_schemas r <> []) routes /\
  Forall (fun schema => exists r, r ∈ routes /\ schema ∈ rt_schemas r) schemas.
Proof.
  intros Hok. unfold routeSchemas. rewrite decide_False by auto. destruct (routeEach _ _ _ _ _) as [[byAddress order] problems] eqn:E.
  destruct (decide (problems <> [])) as [|Hp%dec_stable]; [done|subst problems]. intros [= <-].
  apply (routeEach_spec _ _ Hok []) in E as [_ [H1 H2 H3 H4]];
    [|split; [apply NoDup_nil_2|intros a; rewrite lookup_empty; split; [by intros ?%not_elem_of_nil|by intros []]|intros a r Ha; by rewrite lookup_empty in Ha|done]].
  simpl in *. assert (forall l : list string, (forall a, a ∈ l -> is_Some (byAddress !! a)) -> (rt_address <$> omap (byAddress !!.) l : list string) = l) as Hl.
  { induction l as [|a l IH]; intros Hall; [done|]. destruct (Hall a) as [r Hr]; [by left|]. csimpl. rewrite Hr. csimpl.
    rewrite IH by (intros; apply Hall; by right). f_equal. by apply H3. }
  assert (Forall (fun r => ds_byName dests !! rt_name r = Some (rt_address r) /\ rt_schemas r = filter (goesTo dests (rt_address r)) schemas /\ rt_schemas r <> []) (omap (byAddress !!.) order)) as Hall.
  { apply Forall_forall. intros r (a & Ha & Hr)%list_elem_of_omap. by destruct (H3 _ _ Hr) as (-> & ? & ? & ?). }
  assert (NoDup (rt_address <$> omap (byAddress !!.) order)) as Hnd by (rewrite Hl; [done|]; intros a Ha; by apply H2).
  split_and!; [done| |done|].
  - assert ((fun name => default ""%string (ds_byName dests !! name)) <$> (rt_name <$> omap (byAddress !!.) order) = rt_address <$> omap (byAddress !!.) order) as Hn.
    { rewrite <- list_fmap_compose. apply list_fmap_ext. intros i r Hr. rewrite Forall_forall in Hall. simpl.
      apply list_elem_of_lookup_2 in Hr. by destruct (Hall _ Hr) as [-> _]. }
    rewrite <- Hn in Hnd. by apply NoDup_fmap_1 in Hnd.
  - rewrite Forall_forall in *. intros s Hs. destruct (H4 _ Hs) as (a & Ha & Hg). pose proof Ha as [r Hr]%H2. exists r. split; [apply list_elem_of_omap; by exists a|].
    destruct (H3 _ _ Hr) as (_ & _ & -> & _). by apply list_elem_of_filter.
Qed.

(** *** Claims *)
Record owned (l : list claim) (owners : gmap string claim) (conflicts : list string) : Prop := {
  ow_held : forall key c, owners !! key = Some c -> c ∈ l /\ claimKey c = key;
  ow_all : forall c, c ∈ l -> is_Some (owners !! claimKey c);
  ow_fine : conflicts = [] <-> forall c held, c ∈ l -> owners !! claimKey c = Some held -> cl_route held = cl_route c }.
Lemma claims_owned l : let '(owners, conflicts) := foldl noteClaim (∅, []) l in owned l owners conflicts.
Proof.
  induction l as [|c l IH] using rev_ind; [by split; [intros ??; rewrite lookup_empty|intros ? ?%not_elem_of_nil|split; [intros _ ?? ?%not_elem_of_nil|]]|].
  rewrite foldl_snoc. destruct (foldl _ _ l) as [owners conflicts]. destruct IH as [H1 H2 H3]. unfold noteClaim.
  destruct (owners !! claimKey c) as [held|] eqn:E; [destruct (decide (cl_route held = cl_route c)) as [Er|Er]|].
  - split; [| |rewrite H3]; [set_solver|intros x [Hx| ->%list_elem_of_singleton]%elem_of_app; eauto|].
    split; intros H x h Hx; [|apply H; set_solver]. apply elem_of_app in Hx as [Hx| ->%list_elem_of_singleton]; [by apply H|]. congruence.
  - split; [set_solver|intros x [Hx| ->%list_elem_of_singleton]%elem_of_app; eauto|].
    split; [by intros [_ ?]%app_nil|]. intros H. exfalso. apply Er, H; [set_solver|done].
  - split.
    + intros key x. rewrite lookup_insert_Some. set_solver.
    + intros x [Hx| ->%list_elem_of_singleton]%elem_of_app; [|rewrite lookup_insert_eq; eauto].
      destruct (H2 _ Hx) as [y Hy]. destruct (decide (claimKey c = claimKey x)) as [->|]; [by rewrite lookup_insert_eq|]. rewrite lookup_insert_ne; eauto.
    + assert (forall x, x ∈ l -> claimKey c <> claimKey x) as Hne by (intros x Hx Hk; destruct (H2 _ Hx); congruence).
      rewrite H3. split.
      * intros H x h [Hx| ->%list_elem_of_singleton]%elem_of_app; [rewrite lookup_insert_ne by eauto; by apply H|]. rewrite lookup_insert_eq. by intros [= ->].
      * intros H x h Hx Hh. apply H; [set_solver|]. by rewrite lookup_insert_ne by eauto.
Qed.
(** A run goes on exactly when no two routes of different names claim what
    resolves to one tag. *)
Theorem exclusivityConflicts_nil routes :
  exclusivityConflicts routes = [] <->
  forall c c', c ∈ claims routes -> c' ∈ claims routes -> claimKey c = claimKey c' -> cl_route c = cl_route c'.
Proof.
  unfold exclusivityConflicts. pose proof (claims_owned (claims routes)) as Ho. destruct (foldl _ _ _) as [owners conflicts]. destruct Ho as [H1 H2 H3].
  simpl. assert (merge_sort String.le conflicts = [] <-> conflicts = []) as ->.
  { pose proof (merge_sort_Permutation String.le conflicts) as Hp. split; [intros E; rewrite E in Hp; by apply Permutation_nil_l in Hp|by intros ->]. }
  rewrite H3. split.
  - intros H c c' Hc Hc' Hk. destruct (H2 _ Hc) as [h Hh]. rewrite <- (H c h Hc Hh). apply H; [done|]. by rewrite <- Hk.
  - intros H c h Hc Hh. destruct (H1 _ _ Hh). by apply H.
Qed.
