(* ===== verification/Deploy.v ===== *)
(** * Deploy: the build plane's commands

    [cmd/cork-build]: building the schemas it is given and handing them to the
    orchestrators that serve them ([buildCommand]), and the commands that add,
    update, remove and move a schema ([schema_commands.go]).  The orchestrators
    are met over HTTP: [respond] is whatever answers there, and every request is
    kept in a trace.  The Manager of the build plane is met through the
    operations the commands call ([planeOps]). *)
From S2P Require Import Prelude Types Settings Text Regex Artifacts Queue Worker Netip Database Fleet HostConfig Effects Ports Instances Images Sha256 Seccomp Docker Launch Lifecycle Reconcile Builds Converge Builder Rebuild Challenges Schemas HandOver Submatch BasePins Search Files Bundles Routing.
Local Open Scope Z_scope.

(** ** Requests *)
Inductive request :=
| GetVersion (address : string)
| GetSchema (address schema : string)
| PutChallenge (address : string) (id : ChallengeId) (payload : HandOver)
| PostSchema (address : string) (schema : Schema)
| DeleteOn (address schema : string) (retire : bool).
Record response := mkResponse { rs_status : Z; rs_body : error + string }.
Abbreviation answer := (sum error response).
Record serverInfo := mkServerInfo { si_version : string; si_buildPlane : string }.

(** What the commands call of the Manager. *)
Record planeOps (P : Type) := mkPlaneOps {
  po_SetArtifactNamespaces : gmap string string -> P -> option error * P;
  po_Update : P -> ChallengeUpdates * P;
  po_UpdateSchema : Schema -> P -> list error * P;
  po_RelocateArtifactBundles : string -> P -> Z * option error * P;
  po_GetSchemaState : string -> P -> (error + list ChallengeMetadata) * P;
  po_ListSchemas : P -> (error + list string) * P;
  po_DeleteSchema : string -> bool -> P -> (error + unit) * P;
  po_BasePinFingerprint : P -> Z }.
Arguments po_SetArtifactNamespaces {P}. Arguments po_Update {P}. Arguments po_UpdateSchema {P}. Arguments po_RelocateArtifactBundles {P}.
Arguments po_GetSchemaState {P}. Arguments po_ListSchemas {P}. Arguments po_DeleteSchema {P}. Arguments po_BasePinFingerprint {P}.

Record Deployment (N P : Type) := mkDeployment { st_net : N; st_plane : P; st_sent : list (request * answer) }.
Arguments mkDeployment {N P}. Arguments st_net {N P}. Arguments st_plane {N P}. Arguments st_sent {N P}.
Definition D (N P A : Type) : Type := Deployment N P -> A * Deployment N P.
#[export] Instance D_ret {N P} : MRet (D N P) := fun _ a s => (a, s).
#[export] Instance D_bind {N P} : MBind (D N P) := fun _ _ k e s => let '(a, s) := e s in k a s.

(** ** What is handed over, with the pointers of the code

    [GetSchemaState] gives pointers to fresh challenges, which hold pointers to
    builds; [assemble] writes through both, and a payload points to a challenge. *)
Record Heap := mkHeap { hp_challenges : list (ChallengeMetadata * list nat); hp_builds : list BuildMetadata }.
#[export] Instance eta_Heap : Eta Heap := fun h => mkHeap (hp_challenges h) (hp_builds h).
Fixpoint allocate (cs : list ChallengeMetadata) (h : Heap) : list nat * Heap :=
  match cs with
  | [] => ([], h)
  | c :: cs =>
    let builds := seq (length (hp_builds h)) (length (cm_builds c)) in
    let '(ps, h') := allocate cs (mkHeap (hp_challenges h ++ [(c, builds)]) (hp_builds h ++ cm_builds c)) in
    (length (hp_challenges h) :: ps, h')
  end.
Record payloadRef := mkPayload { pl_challenge : nat; pl_pinFingerprint : Z; pl_seccompProfiles : gmap string string }.

(** A build as it is handed over: the count its schema asks for, and nothing
    running. *)
Definition handed (count : Z) (b : BuildMetadata) : BuildMetadata := b <| bm_instanceCount := count |> <| bm_instances := [] |>.
Definition takeBuild (spec : BuildSpecification) (target : nat) (h : Heap) (b : nat) : Heap :=
  mkHeap (alter (fun c => (c.1, c.2 ++ [b])) target (hp_challenges h)) (alter (handed (spec_instanceCount spec)) b (hp_builds h)).
Definition specFor (schema : Schema) (id : ChallengeId) : BuildSpecification := default (mkSpec [] 0) (sch_challenges schema !! id).
Definition assembleOne (fingerprint : Z) (schema : Schema) (acc : gmap ChallengeId payloadRef * list ChallengeId * Heap) (p : nat)
    : gmap ChallengeId payloadRef * list ChallengeId * Heap :=
  let '(payloads, order, h) := acc in
  match hp_challenges h !! p with
  | None => acc
  | Some (c, builds) =>
    let spec := specFor schema (cm_id c) in
    match payloads !! cm_id c with
    | Some payload => (payloads, order, foldl (takeBuild spec (pl_challenge payload)) h builds)
    | None =>
      let h := h <| hp_challenges ::= alter (fun c => (c.1, [])) p |> in
      (<[cm_id c := mkPayload p fingerprint (SeccompProfiles c)]> payloads, order ++ [cm_id c], foldl (takeBuild spec p) h builds)
    end
  end.
Definition assembleSchema (built : gmap string (list nat)) (fingerprint : Z) (acc : gmap ChallengeId payloadRef * list ChallengeId * Heap) (schema : Schema)
    : gmap ChallengeId payloadRef * list ChallengeId * Heap :=
  foldl (assembleOne fingerprint schema) acc (default [] (built !! sch_name schema)).
Definition assemble (schemas : list Schema) (built : gmap string (list nat)) (fingerprint : Z) (h : Heap)
    : gmap ChallengeId payloadRef * list ChallengeId * Heap :=
  foldl (assembleSchema built fingerprint) (∅, [], h) schemas.
(** A payload as it is read when it is sent. *)
Definition payloadOf (h : Heap) (p : payloadRef) : HandOver :=
  mkHandOver (match hp_challenges h !! pl_challenge p with Some (c, builds) => Some (c, (fun b => hp_builds h !! b) <$> builds) | None => None end) (pl_pinFingerprint p) (pl_seccompProfiles p).

Inductive mismatch := OtherGeneration (id : ChallengeId) (b : BuildMetadata) | OtherIdentity (id : ChallengeId) (b : BuildMetadata).
Section identity.
Context (template : string -> Z).
Definition ContentChecksum (sourceChecksum : Z) (format : string) (fingerprint : Z) (challengeType : string) : Z :=
  contentChecksum sourceChecksum format fingerprint (template challengeType).
Definition buildMismatch (fingerprint : Z) (id : ChallengeId) (c : ChallengeMetadata) (b : BuildMetadata) : list mismatch :=
  if decide (bm_sourceChecksum b <> cm_sourceChecksum c) then [OtherGeneration id b]
  else if decide (bm_checksum b <> ContentChecksum (bm_sourceChecksum b) (bm_format b) fingerprint (cm_challengeType c)) then [OtherIdentity id b]
  else [].
Definition identityMismatches (fingerprint : Z) (h : Heap) (payloads : gmap ChallengeId payloadRef) (order : list ChallengeId) : list mismatch :=
  id ← order;
  match p ← payloads !! id; hp_challenges h !! pl_challenge p with
  | Some (c, builds) => omap (hp_builds h !!.) builds ≫= buildMismatch fingerprint id c
  | None => []
  end.
End identity.

(** ** Talking to the orchestrators *)
Definition BuildPlaneExternal : string := "external".
Definition answerLimit : Z := 8 * 2 ^ 20.
(** [io.LimitReader]. *)
Fixpoint LimitReader (limit : Z) (s : string) : string :=
  match s with
  | EmptyString => EmptyString
  | String c s => if decide (limit <= 0) then EmptyString else String c (LimitReader (limit - 1) s)
  end.

Definition NO_ERROR : Z := 0.
Definition RUNTIME_ERROR : Z := -1.
Definition USAGE_ERROR : Z := -2.

(** What a schema of a run is refused for. *)
Inductive misrouting :=
| CannotAsk (name address schema : string)
| CannotCheck (schema : string)
| ServedElsewhere (schema at_ named : string).

Section deploy.
Context {N P : Type}.
(** What answers a request; what [json.Marshal] and [http.NewRequest] say before
    one is sent; [json.Unmarshal] of the answers: how many challenges a schema
    has, what a server is, whether it is the verdict on a hand-over. *)
Context (respond : request -> N -> answer * N) (unsendable : request -> option error).
Context (decodeState : string -> option Z) (decodeInfo : string -> option serverInfo) (decodeVerdict : string -> bool).
Context (plane : planeOps P) (template : string -> Z).
Context (loadSchema : string -> error + Schema) (unicodeLower : string -> string) (dests : destinations).

Definition send (q : request) : D N P answer := fun s =>
  let '(r, n) := respond q (st_net s) in (r, mkDeployment n (st_plane s) ((q, r) :: st_sent s)).
Definition onPlane {A} (f : P -> A * P) : D N P A := fun s =>
  let '(a, p) := f (st_plane s) in (a, mkDeployment (st_net s) p (st_sent s)).

(** [probeClient] asks, [httpClient] acts; they differ in their timeouts. *)
Definition servesSchema (address schema : string) : D N P (error + bool) :=
  r ← send (GetSchema address schema);
  mret (match r with
        | inl err => inl err
        | inr resp =>
          if decide (rs_status resp = 404) then inr false
          else if decide (rs_status resp <> 200) then inl [OtherError "answered with another status"]
          else
            match rs_body resp with
            | inl err => inl err
            | inr body =>
              match decodeState (LimitReader answerLimit body) with
              | None => inl [OtherError "reading what it said it serves"]
              | Some n => inr (bool_decide (0 < n))
              end
            end
        end).
Definition accepted (r : answer) : error + unit :=
  match r with
  | inl err => inl err
  | inr resp => if decide (rs_status resp <> 204 /\ rs_status resp <> 200) then inl [OtherError "answered with another status"] else inr tt
  end.
Definition sendChecked (q : request) : D N P (error + unit) :=
  match unsendable q with
  | Some err => mret (inl err)
  | None => r ← send q; mret (accepted r)
  end.
Definition deleteSchemaOn (address schema : string) (retire : bool) : D N P (error + unit) := sendChecked (DeleteOn address schema retire).
Definition convergeOn (address : string) (schema : Schema) : D N P (error + unit) := sendChecked (PostSchema address schema).
Definition checkServer (server : string) : D N P (error + unit) :=
  r ← send (GetVersion server);
  mret (match r with
        | inl _ => inr tt
        | inr resp =>
          match rs_body resp with
          | inl _ => inr tt
          | inr body =>
            if decide (rs_status resp <> 200) then inr tt
            else
              match decodeInfo (LimitReader answerLimit body) with
              | None => inr tt
              | Some info => if decide (si_buildPlane info <> BuildPlaneExternal) then inl [OtherError "takes no hand-over"] else inr tt
              end
          end
        end).
(** Whether a hand-over was taken. *)
Definition taken (r : answer) : error + unit :=
  match r with
  | inl err => inl err
  | inr resp =>
    match rs_body resp with
    | inl err => inl err
    | inr body =>
      if decide (rs_status resp <> 200) then inl [OtherError "the hand-over was refused"]
      else if negb (decodeVerdict (LimitReader answerLimit body)) then inl [OtherError "not a hand-over verdict"]
      else inr tt
    end
  end.
Definition handOver (server : string) (id : ChallengeId) (payload : HandOver) : D N P (error + unit) :=
  match unsendable (PutChallenge server id payload) with
  | Some err => mret (inl err)
  | None => r ← send (PutChallenge server id payload); mret (taken r)
  end.

(** ** Where schemas are served *)

(** A destination that could not be asked is not asked again. *)
Definition askOnce (unreachable : gmap string error) (name address schema : string) : D N P (gmap string error * (error + bool)) :=
  match unreachable !! name with
  | Some err => mret (unreachable, inl err)
  | None =>
    r ← servesSchema address schema;
    mret (match r with inl err => (<[name := err]> unreachable, inl err) | inr has => (unreachable, inr has) end)
  end.
Fixpoint askEach (unreachable : gmap string error) (names : list string) (schema : string) : D N P (gmap string error * (error + string)) :=
  match names with
  | [] => mret (unreachable, inr ""%string)
  | name :: names =>
    '(unreachable, r) ← askOnce unreachable name (default ""%string (ds_byName dests !! name)) schema;
    match r with
    | inl err => mret (unreachable, inl err)
    | inr true => mret (unreachable, inr name)
    | inr false => askEach unreachable names schema
    end
  end.
Definition schemaServedElsewhere (unreachable : gmap string error) (schema routedTo : string) : D N P (gmap string error * (error + string)) :=
  askEach unreachable (filter (fun name => name <> routedTo) (destinationNames dests)) schema.
Definition misroutedSchema (unreachable : gmap string error) (r : route) (schema : Schema) : D N P (gmap string error * list misrouting) :=
  '(unreachable, here) ← match ds_byName dests !! rt_name r with
                         | Some address => askOnce unreachable (rt_name r) address (sch_name schema)
                         | None => mret (unreachable, inr false)
                         end;
  match here with
  | inl _ => mret (unreachable, [CannotAsk (rt_name r) (default ""%string (ds_byName dests !! rt_name r)) (sch_name schema)])
  | inr true => mret (unreachable, [])
  | inr false =>
    '(unreachable, at_) ← schemaServedElsewhere unreachable (sch_name schema) (rt_name r);
    mret (unreachable, match at_ with
                       | inl _ => [CannotCheck (sch_name schema)]
                       | inr at_ => if decide (at_ <> ""%string) then [ServedElsewhere (sch_name schema) at_ (rt_name r)] else []
                       end)
  end.
Fixpoint misroutedEach (unreachable : gmap string error) (todo : list (route * Schema)) : D N P (list misrouting) :=
  match todo with
  | [] => mret []
  | (r, schema) :: todo =>
    '(unreachable, problems) ← misroutedSchema unreachable r schema;
    rest ← misroutedEach unreachable todo;
    mret (problems ++ rest)
  end.
Definition routedPairs (routes : list route) : list (route * Schema) :=
  r ← routes; if decide (rt_name r = serverRouteName) then [] else pair r <$> rt_schemas r.
Definition misroutedSchemas (routes : list route) : D N P (list misrouting) :=
  if decide (size (ds_byName dests) < 2)%nat then mret [] else misroutedEach ∅ (routedPairs routes).

(** The map of destinations is gone through in no fixed order. *)
Fixpoint livesAmong (schema : string) (found : string * string) (l : list (string * string)) : D N P (error + string * string) :=
  match l with
  | [] => mret (inr found)
  | (name, address) :: l =>
    r ← servesSchema address schema;
    match r with
    | inl err => mret (inl err)
    | inr false => livesAmong schema found l
    | inr true =>
      if decide (found.2 <> ""%string) then mret (inl [OtherError "is served by both"]) else livesAmong schema (name, address) l
    end
  end.
Definition whereSchemaLives (schema : string) : D N P (error + string * string) :=
  livesAmong schema (""%string, ""%string) (map_to_list (ds_byName dests)).
Definition removalTarget (schemaName : string) (servers : list string) : D N P (error + string * string) :=
  match servers with
  | [server] => mret (inr (serverRouteName, server))
  | _ =>
    if decide (ds_byName dests = ∅) then mret (inl [OtherError "no destinations are configured"])
    else whereSchemaLives schemaName
  end.

(** ** Building and deploying *)
Fixpoint buildEach (schemas : list Schema) : D N P bool :=
  match schemas with
  | [] => mret true
  | schema :: schemas =>
    errs ← onPlane (po_UpdateSchema plane (forBuilding schema));
    if decide (errs <> []) then mret false
    else
      '(_, err) ← onPlane (po_RelocateArtifactBundles plane (sch_name schema));
      match err with Some _ => mret false | None => buildEach schemas end
  end.
Fixpoint readBuilt (schemas : list Schema) (built : gmap string (list nat)) (h : Heap) : D N P (option (gmap string (list nat) * Heap)) :=
  match schemas with
  | [] => mret (Some (built, h))
  | schema :: schemas =>
    r ← onPlane (po_GetSchemaState plane (sch_name schema));
    match r with
    | inl _ => mret None
    | inr state => let '(ps, h) := allocate state h in readBuilt schemas (<[sch_name schema := ps]> built) h
    end
  end.
Record outbound := mkOutbound { ob_route : route; ob_payloads : gmap ChallengeId payloadRef; ob_order : list ChallengeId }.
Fixpoint assembleAll (routes : list route) (built : gmap string (list nat)) (fingerprint : Z) (h : Heap) : list outbound * list mismatch * Heap :=
  match routes with
  | [] => ([], [], h)
  | r :: routes =>
    let '(payloads, order, h) := assemble (rt_schemas r) built fingerprint h in
    let mismatched := identityMismatches template fingerprint h payloads order in
    let '(sending, rest, h) := assembleAll routes built fingerprint h in
    (mkOutbound r payloads order :: sending, mismatched ++ rest, h)
  end.
(** Every challenge is sent, also after one that was refused. *)
Fixpoint handEach (h : Heap) (address : string) (payloads : gmap ChallengeId payloadRef) (ids : list ChallengeId) : D N P bool :=
  match ids with
  | [] => mret true
  | id :: ids =>
    r ← match payloads !! id with Some p => handOver address id (payloadOf h p) | None => mret (inl [OtherError "no payload"]) end;
    rest ← handEach h address payloads ids;
    mret (match r with inl _ => false | inr _ => rest end)
  end.
Fixpoint convergeEach (address : string) (schemas : list Schema) : D N P bool :=
  match schemas with
  | [] => mret true
  | schema :: schemas =>
    r ← convergeOn address schema;
    rest ← convergeEach address schemas;
    mret (match r with inl _ => false | inr _ => rest end)
  end.
Definition deliver (h : Heap) (out : outbound) : D N P bool :=
  let address := rt_address (ob_route out) in
  r ← checkServer address;
  match r with
  | inl _ => mret false
  | inr _ =>
    delivered ← handEach h address (ob_payloads out) (ob_order out);
    if negb delivered then mret false else convergeEach address (rt_schemas (ob_route out))
  end.
Fixpoint deliverAll (h : Heap) (sending : list outbound) : D N P bool :=
  match sending with
  | [] => mret true
  | out :: sending => good ← deliver h out; rest ← deliverAll h sending; mret (good && rest)
  end.

(** Every file is read, also after one that cannot be used. *)
Fixpoint loadAll (paths : list string) : list Schema * bool :=
  match paths with
  | [] => ([], false)
  | path :: paths =>
    let '(schemas, refused) := loadAll paths in
    match loadSchema path with inl _ => (schemas, true) | inr schema => (schema :: schemas, refused) end
  end.
Definition namespacesOf (schemas : list Schema) : gmap string string :=
  foldl (fun m schema => <[sch_name schema := sch_destination schema]> m) ∅ schemas.
(** What [buildCommand] does once the schemas are routed. *)
Definition buildRouted (schemas : list Schema) (routes : list route) : D N P Z :=
  err ← onPlane (po_SetArtifactNamespaces plane (namespacesOf schemas));
  match err with
  | Some _ => mret RUNTIME_ERROR
  | None =>
    updates ← onPlane (po_Update plane);
    if scanDidNotHappen updates then mret RUNTIME_ERROR
    else
      good ← buildEach schemas;
      if negb good then mret RUNTIME_ERROR
      else
        r ← readBuilt schemas ∅ (mkHeap [] []);
        match r with
        | None => mret RUNTIME_ERROR
        | Some (built, h) =>
          fingerprint ← onPlane (fun p => (po_BasePinFingerprint plane p, p));
          let '(sending, mismatched, h) := assembleAll routes built fingerprint h in
          if decide (mismatched <> []) then mret RUNTIME_ERROR
          else good ← deliverAll h sending; mret (if good : bool then NO_ERROR else RUNTIME_ERROR)
        end
  end.
Definition buildCommand (servers args : list string) : D N P Z :=
  if decide (args = []) then mret USAGE_ERROR
  else
    let '(schemas, refused) := loadAll args in
    if refused then mret RUNTIME_ERROR
    else
      match routeSchemas schemas servers dests with
      | inl _ => mret RUNTIME_ERROR
      | inr routes =>
        if decide (exclusivityConflicts routes <> []) then mret RUNTIME_ERROR
        else
          misrouted ← misroutedSchemas routes;
          if decide (misrouted <> []) then mret RUNTIME_ERROR else buildRouted schemas routes
      end.

(** ** The commands on one schema *)
Definition deploySchema (servers args : list string) (wantKnown : bool) : D N P Z :=
  match args with
  | [path] =>
    match loadSchema path with
    | inl _ => mret RUNTIME_ERROR
    | inr schema =>
      known ← onPlane (po_ListSchemas plane);
      match known with
      | inl _ => mret RUNTIME_ERROR
      | inr known =>
        match schemaGuard (sch_name schema) known wantKnown with
        | Some _ => mret RUNTIME_ERROR
        | None => buildCommand servers args
        end
      end
    end
  | _ => mret USAGE_ERROR
  end.
Definition addSchemaCommand (servers args : list string) : D N P Z := deploySchema servers args false.
Definition updateSchemaCommand (servers args : list string) : D N P Z := deploySchema servers args true.

Definition dropRows (schemaName : string) : D N P Z :=
  r ← onPlane (po_DeleteSchema plane schemaName true);
  mret (match r with inl _ => RUNTIME_ERROR | inr _ => NO_ERROR end).
Definition removeSchemaCommand (servers args : list string) : D N P Z :=
  match args with
  | [schemaName] =>
    if decide (1 < length servers)%nat then mret USAGE_ERROR
    else if decide (Ext schemaName ∈ schemaExtensions) then mret USAGE_ERROR
    else
      match validSchemaName unicodeLower schemaName with
      | inl _ => mret USAGE_ERROR
      | inr _ =>
        r ← removalTarget schemaName servers;
        match r with
        | inl _ => mret RUNTIME_ERROR
        | inr (_, address) =>
          if decide (address = ""%string) then
            known ← onPlane (po_ListSchemas plane);
            match known with
            | inl _ => mret RUNTIME_ERROR
            | inr known => if decide (schemaName ∉ known) then mret RUNTIME_ERROR else dropRows schemaName
            end
          else
            r ← deleteSchemaOn address schemaName true;
            match r with inl _ => mret RUNTIME_ERROR | inr _ => dropRows schemaName end
        end
      end
  | _ => mret USAGE_ERROR
  end.
Definition migrateSchemaCommand (servers args : list string) : D N P Z :=
  if decide (servers <> []) then mret USAGE_ERROR
  else
    match args with
    | [path] =>
      match loadSchema path with
      | inl _ => mret RUNTIME_ERROR
      | inr schema =>
        if decide (ds_byName dests = ∅) then mret RUNTIME_ERROR
        else
          match resolveDestination dests (sch_destination schema) with
          | inl _ => mret RUNTIME_ERROR
          | inr to =>
            r ← whereSchemaLives (sch_name schema);
            match r with
            | inl _ => mret RUNTIME_ERROR
            | inr (_, from) =>
              if decide (from = ""%string \/ from = to) then mret RUNTIME_ERROR
              else
                r ← deleteSchemaOn from (sch_name schema) false;
                match r with
                | inl _ => mret RUNTIME_ERROR
                | inr _ =>
                  r ← onPlane (po_DeleteSchema plane (sch_name schema) true);
                  match r with inl _ => mret RUNTIME_ERROR | inr _ => buildCommand [] args end
                end
            end
          end
      end
    | _ => mret USAGE_ERROR
    end.

(** The commands that touch an orchestrator, as [main] dispatches them. *)
Inductive command := BuildCmd (args : list string) | AddCmd (args : list string) | UpdateCmd (args : list string)
  | RemoveCmd (args : list string) | MigrateCmd (args : list string).
Definition runCommand (servers : list string) (c : command) : D N P Z :=
  match c with
  | BuildCmd args => buildCommand servers args
  | AddCmd args => addSchemaCommand servers args
  | UpdateCmd args => updateSchemaCommand servers args
  | RemoveCmd args => removeSchemaCommand servers args
  | MigrateCmd args => migrateSchemaCommand servers args
  end.
End deploy.

(** ** The Manager behind the operations *)

(** [GetSchemaState]: the builds of a schema, by challenge. *)
Fixpoint stateLoop (ids : list BuildId) (challenges : list ChallengeMetadata) (challenge : option ChallengeMetadata) : M (error + list ChallengeMetadata) :=
  match ids with
  | [] => ok (challenges ++ option_list challenge)
  | id :: ids =>
    let? build := lookupBuildMetadata id in
    let? instances := lookupBuildInstances (bm_id build) in
    let build := build <| bm_instances := instances |> in
    let '(challenges, challenge) :=
      match challenge with
      | Some c => if decide (cm_id c <> bm_challenge build) then (challenges ++ [c], None) else (challenges, Some c)
      | None => (challenges, None)
      end in
    let? c := match challenge with
              | Some c => ok c
              | None => let? c := lookupChallengeMetadata (bm_challenge build) in ok (c <| cm_builds := [] |>)
              end in
    stateLoop ids challenges (Some (c <| cm_builds ::= (.++ [build]) |>))
  end.
Definition GetSchemaState (name : string) : M (error + list ChallengeMetadata) :=
  let? builds := getSchemaBuilds name in stateLoop builds [] None.

(** The Manager of a build plane: its world, its artifact directory and the disk
    that is on. *)
Record builder := mkBuilder { bd_world : World; bd_io : Io; bd_bundles : bundlePlane }.
Section manager.
Context (basePins : Z) (template : string -> Z) (limits : artifactLimits) (purgeAfterPush : bool) (chalDir : string).
Definition inWorld {A} (e : M A) (b : builder) : A * builder := let '(a, w) := e (bd_world b) in (a, mkBuilder w (bd_io b) (bd_bundles b)).
(** A panic of [UpdateSchema] ends the process; it is taken for an error, which
    ends the command. *)
Definition managerPlane : planeOps builder := {|
  po_SetArtifactNamespaces bySchema b :=
    let '((err, bundles), io) := SetArtifactNamespaces (snd <$> map_to_list bySchema) bySchema (bd_bundles b) (bd_io b) in
    (err, mkBuilder (bd_world b) io bundles);
  po_Update := inWorld (UpdateWithOptions basePins template limits true purgeAfterPush chalDir "" false);
  po_UpdateSchema schema := inWorld (errs ← UpdateSchema basePins template limits true purgeAfterPush chalDir schema; mret (default [[OtherError "panic"]] errs));
  po_RelocateArtifactBundles schema b :=
    let '((moved, err, io), w) := RelocateArtifactBundles (bd_bundles b) schema (bd_io b) (bd_world b) in
    (moved, err, mkBuilder w io (bd_bundles b));
  po_GetSchemaState name := inWorld (GetSchemaState name);
  po_ListSchemas := inWorld queryForSchemas;
  po_DeleteSchema name retire := inWorld (DeleteSchema true name retire);
  po_BasePinFingerprint _ := basePins |}.
End manager.
