(* ===== verification/Deployed.v ===== *)
(** * Deployed: what the build plane's commands come to

    The payloads a run hands over are what it built and no others, although they
    are assembled through shared pointers; and whatever the commands do, a
    schema is never served by two of the orchestrators configured. *)
From S2P Require Import Prelude Types Settings Text Regex Artifacts Queue Worker Netip Database Fleet HostConfig Effects Ports Instances Images Sha256 Seccomp Docker Launch Lifecycle Reconcile Builds Converge Builder Rebuild Challenges Schemas HandOver Submatch BasePins Search Files Bundles Routing Deploy.
Local Open Scope Z_scope.

(** ** Assembling payloads

    A challenge of a schema as [assemble] comes to it: the count the schema
    asks for, the pointer, and what is there. *)
Record entry := mkEntry { en_count : Z; en_ptr : nat; en_meta : ChallengeMetadata; en_builds : list nat }.
Abbreviation ofId id := (fun e => cm_id (en_meta e) = id).
(** The entries of a challenge, and the one its payload points to. *)
Definition entriesOf (seen : list entry) (id : ChallengeId) : list entry := filter (ofId id) seen.
Definition firstOf (seen : list entry) (id : ChallengeId) : option entry := head (entriesOf seen id).

Lemma entriesOf_app seen e id : entriesOf (seen ++ [e]) id = entriesOf seen id ++ (if decide (ofId id e) then [e] else []).
Proof. unfold entriesOf. by rewrite filter_app. Qed.
Lemma firstOf_app seen e id :
  firstOf (seen ++ [e]) id = match firstOf seen id with Some e0 => Some e0 | None => if decide (ofId id e) then Some e else None end.
Proof. unfold firstOf. rewrite entriesOf_app. destruct (entriesOf seen id); [|done]. by destruct (decide _). Qed.
Lemma firstOf_Some seen id e : firstOf seen id = Some e -> e ∈ seen /\ cm_id (en_meta e) = id.
Proof.
  unfold firstOf. intros H. assert (e ∈ entriesOf seen id) as He by (destruct (entriesOf seen id); [done|injection H as ->; left]).
  apply list_elem_of_filter in He. by destruct He.
Qed.

(** The builds of a challenge, taken into a payload. *)
Lemma takeBuilds_challenges spec target bs : forall h q,
  hp_challenges (foldl (takeBuild spec target) h bs) !! q =
  (if decide (q = target) then fun c => (c.1, c.2 ++ bs) else id) <$> hp_challenges h !! q.
Proof.
  induction bs as [|b bs IH]; intros h q; simpl.
  - destruct (decide _), (hp_challenges h !! q) as [[]|]; simpl; by rewrite ?app_nil_r.
  - rewrite IH. simpl. destruct (decide (q = target)) as [->|Hn].
    + rewrite list_lookup_alter_eq. destruct (hp_challenges h !! target) as [[]|]; simpl; [|done]. by rewrite <- app_assoc.
    + by rewrite list_lookup_alter_ne.
Qed.
Lemma handed_handed n b : handed n (handed n b) = handed n b.
Proof. by destruct b. Qed.
Lemma takeBuilds_builds spec target bs : forall h b,
  hp_builds (foldl (takeBuild spec target) h bs) !! b = (if decide (b ∈ bs) then handed (spec_instanceCount spec) else id) <$> hp_builds h !! b.
Proof.
  induction bs as [|b0 bs IH]; intros h b; simpl; [by destruct (hp_builds h !! b)|].
  rewrite IH. simpl. destruct (decide (b = b0)) as [->|Hn].
  - rewrite list_lookup_alter_eq. rewrite (decide_True (P := b0 ∈ b0 :: bs)) by (by left).
    destruct (decide _), (hp_builds h !! b0); simpl; by rewrite ?handed_handed.
  - rewrite list_lookup_alter_ne by done. f_equal. destruct (decide (b ∈ bs)); [rewrite decide_True; [done|by right]|].
    rewrite decide_False; [done|]. intros [?|?]%elem_of_cons; done.
Qed.

(** What the heap and the payloads are once [seen] is taken in. *)
Record assembled (fp : Z) (h0 : Heap) (seen : list entry) (payloads : gmap ChallengeId payloadRef) (order : list ChallengeId) (h : Heap) : Prop := {
  as_ptr : forall e e', e ∈ seen -> e' ∈ seen -> en_ptr e = en_ptr e' -> e = e';
  as_order : NoDup order;
  as_ids : forall id, id ∈ order <-> is_Some (firstOf seen id);
  as_pay : forall id, payloads !! id = (fun e => mkPayload (en_ptr e) fp (SeccompProfiles (en_meta e))) <$> firstOf seen id;
  as_first : forall id e, firstOf seen id = Some e -> hp_challenges h !! en_ptr e = Some (en_meta e, mjoin (en_builds <$> entriesOf seen id));
  as_other : forall q, (forall e, e ∈ seen -> q <> en_ptr e) -> hp_challenges h !! q = hp_challenges h0 !! q;
  as_builds : forall e b, e ∈ seen -> b ∈ en_builds e -> hp_builds h !! b = handed (en_count e) <$> hp_builds h0 !! b;
  as_kept : forall b, (forall e, e ∈ seen -> b ∉ en_builds e) -> hp_builds h !! b = hp_builds h0 !! b }.
(** Two entries share nothing. *)
Definition apartFrom (e e' : entry) : Prop := en_ptr e <> en_ptr e' /\ forall b, b ∈ en_builds e -> b ∉ en_builds e'.

Lemma builds_taken h0 h h' seen e :
  (forall e' b, e' ∈ seen -> b ∈ en_builds e' -> hp_builds h !! b = handed (en_count e') <$> hp_builds h0 !! b) ->
  (forall b, (forall e', e' ∈ seen -> b ∉ en_builds e') -> hp_builds h !! b = hp_builds h0 !! b) ->
  (forall b, hp_builds h' !! b = (if decide (b ∈ en_builds e) then handed (en_count e) else id) <$> hp_builds h !! b) ->
  Forall (apartFrom e) seen ->
  (forall e' b, e' ∈ seen ++ [e] -> b ∈ en_builds e' -> hp_builds h' !! b = handed (en_count e') <$> hp_builds h0 !! b) /\
  (forall b, (forall e', e' ∈ seen ++ [e] -> b ∉ en_builds e') -> hp_builds h' !! b = hp_builds h0 !! b).
Proof.
  intros H6 H7 Hb Ha. rewrite Forall_forall in Ha. split.
  - intros e' b [He'| ->%list_elem_of_singleton]%elem_of_app Hin.
    + rewrite Hb, decide_False, option_fmap_id; [by apply H6|]. intros Hi. by eapply Ha.
    + rewrite Hb, decide_True by done. f_equal. apply H7. intros e' He'. by apply Ha.
  - intros b Hall. rewrite Hb, decide_False, option_fmap_id; [apply H7; intros|]; apply Hall; apply elem_of_app; [by left|right; by left].
Qed.
Lemma assembleOne_spec fp h0 seen payloads order h schema e :
  assembled fp h0 seen payloads order h -> hp_challenges h0 !! en_ptr e = Some (en_meta e, en_builds e) ->
  en_count e = spec_instanceCount (specFor schema (cm_id (en_meta e))) -> Forall (apartFrom e) seen ->
  exists payloads' order' h', assembleOne fp schema (payloads, order, h) (en_ptr e) = (payloads', order', h') /\
    assembled fp h0 (seen ++ [e]) payloads' order' h'.
Proof.
  intros [H0 H1 H2 H3 H4 H5 H6 H7] He Hc Ha. pose proof Ha as Hap. rewrite Forall_forall in Hap. unfold assembleOne.
  rewrite H5, He by (intros e' He'; by apply Hap). set (spec := specFor schema (cm_id (en_meta e))) in *. rewrite H3.
  assert (forall e1 e2, e1 ∈ seen ++ [e] -> e2 ∈ seen ++ [e] -> en_ptr e1 = en_ptr e2 -> e1 = e2) as Hptr.
  { intros e1 e2 [?| ->%list_elem_of_singleton]%elem_of_app [?| ->%list_elem_of_singleton]%elem_of_app Hp; [by apply H0|..|done];
      [destruct (Hap e1)|destruct (Hap e2)]; congruence. }
  destruct (firstOf seen (cm_id (en_meta e))) as [e0|] eqn:Ef; simpl; do 3 eexists; (split; [reflexivity|]).
  - apply firstOf_Some in Ef as He0. destruct He0 as [He0 Hid0].
    destruct (builds_taken h0 h (foldl (takeBuild spec (en_ptr e0)) h (en_builds e)) seen e H6 H7) as [Hb Hk]; [|done|].
    { intros b. by rewrite takeBuilds_builds, Hc. }
    split; [done..| | | | |exact Hb|exact Hk].
    + intros id. rewrite H2, firstOf_app. destruct (firstOf seen id) eqn:E; [done|]. rewrite decide_False; [done|]. intros <-. congruence.
    + intros id. rewrite H3, firstOf_app. destruct (firstOf seen id) eqn:E; [done|]. rewrite decide_False; [done|]. intros <-. congruence.
    + intros id e1. rewrite firstOf_app, entriesOf_app, takeBuilds_challenges. destruct (firstOf seen id) eqn:E1; [|rewrite decide_False; [done|intros <-; congruence]].
      intros [= ->]. rewrite (H4 _ _ E1). simpl. destruct (decide (cm_id (en_meta e) = id)) as [<-|Hi].
      * rewrite Ef in E1. injection E1 as ->. rewrite decide_True by done. simpl. rewrite fmap_app, join_app. csimpl. by rewrite app_nil_r.
      * rewrite app_nil_r, decide_False; [done|]. intros Hp. apply firstOf_Some in E1 as [? Hi1].
        assert (e1 = e0) as -> by (by apply H0). congruence.
    + intros q Hq. rewrite takeBuilds_challenges, decide_False, option_fmap_id.
      * apply H5. intros e' He'. apply Hq. apply elem_of_app. by left.
      * apply Hq. apply elem_of_app. by left.
  - set (h1 := mkHeap (alter (fun c => (c.1, [])) (en_ptr e) (hp_challenges h)) (hp_builds h)).
    destruct (builds_taken h0 h (foldl (takeBuild spec (en_ptr e)) h1 (en_builds e)) seen e H6 H7) as [Hb Hk]; [|done|].
    { intros b. by rewrite takeBuilds_builds, Hc. }
    assert (entriesOf seen (cm_id (en_meta e)) = []) as Hnone by (unfold firstOf in Ef; by destruct (entriesOf _ _)).
    split; [done| | | | | |exact Hb|exact Hk].
    + apply NoDup_app. split_and!; [done| |apply NoDup_singleton]. intros id Hid ->%list_elem_of_singleton. apply H2 in Hid as [? ?]. congruence.
    + intros id. rewrite elem_of_app, list_elem_of_singleton, H2, firstOf_app. destruct (firstOf seen id) eqn:E; [split; eauto|].
      destruct (decide (cm_id (en_meta e) = id)) as [->|Hn]; [split; eauto|]. split; [intros [[? ?]| ->]; done|intros [? ?]; done].
    + intros id. rewrite firstOf_app. destruct (decide (cm_id (en_meta e) = id)) as [<-|Hn]; [by rewrite lookup_insert_eq, Ef|].
      rewrite lookup_insert_ne, H3 by done. by destruct (firstOf seen id).
    + intros id e1. rewrite firstOf_app, entriesOf_app, takeBuilds_challenges. simpl. destruct (firstOf seen id) as [e2|] eqn:E1.
      * intros [= ->]. apply firstOf_Some in E1 as Hin. destruct Hin as [Hin Hid]. destruct (Hap e1 Hin) as [Hp _].
        rewrite !decide_False, option_fmap_id, list_lookup_alter_ne, app_nil_r by congruence. by apply H4.
      * destruct (decide (cm_id (en_meta e) = id)) as [<-|Hn]; [|done]. intros [= <-]. rewrite decide_True, list_lookup_alter_eq, H5, He, Hnone by (done || (intros e' He'; by apply Hap)).
        simpl. by rewrite app_nil_r.
    + intros q Hq. assert (q <> en_ptr e) by (apply Hq, elem_of_app; right; by left).
      rewrite takeBuilds_challenges, decide_False, option_fmap_id by done. simpl. rewrite list_lookup_alter_ne by done.
      apply H5. intros e' He'. apply Hq. apply elem_of_app. by left.
Qed.

#[local] Opaque assembleOne.

(** A whole route: the entries of its schemas, in the order they are come to. *)
Definition entriesIn (h : Heap) (schema : Schema) (ps : list nat) : list entry :=
  omap (fun p => match hp_challenges h !! p with
                 | Some (c, bs) => Some (mkEntry (spec_instanceCount (specFor schema (cm_id c))) p c bs)
                 | None => None
                 end) ps.
Definition routeEntries (h : Heap) (built : gmap string (list nat)) (schemas : list Schema) : list (Schema * entry) :=
  schema ← schemas; pair schema <$> entriesIn h schema (default [] (built !! sch_name schema)).
Definition separate (es : list entry) : Prop := forall i j e e', es !! i = Some e -> es !! j = Some e' -> i <> j -> apartFrom e e'.
(** Every pointer leads somewhere. *)
Definition rooted (h : Heap) (built : gmap string (list nat)) (schemas : list Schema) : Prop :=
  forall schema p, schema ∈ schemas -> p ∈ default [] (built !! sch_name schema) -> is_Some (hp_challenges h !! p).
(** [h'] agrees with [h] on what the entries own. *)
Definition agree (h h' : Heap) (es : list entry) : Prop :=
  forall e, e ∈ es -> hp_challenges h' !! en_ptr e = hp_challenges h !! en_ptr e /\ forall b, b ∈ en_builds e -> hp_builds h' !! b = hp_builds h !! b.

Lemma separate_mid es e es' : separate (es ++ e :: es') -> Forall (apartFrom e) es.
Proof.
  intros H. apply Forall_lookup. intros i e' He'. apply (H (length es) i).
  - by rewrite lookup_app_r, Nat.sub_diag by lia.
  - by apply lookup_app_l_Some.
  - apply lookup_lt_Some in He'. lia.
Qed.
Lemma assemble_fold fp h0 l : forall seen payloads order h,
  assembled fp h0 seen payloads order h -> separate (seen ++ l.*2) ->
  Forall (fun se => hp_challenges h0 !! en_ptr se.2 = Some (en_meta se.2, en_builds se.2) /\
                    en_count se.2 = spec_instanceCount (specFor se.1 (cm_id (en_meta se.2)))) l ->
  exists payloads' order' h', foldl (fun acc se => assembleOne fp se.1 acc (en_ptr se.2)) (payloads, order, h) l = (payloads', order', h') /\
    assembled fp h0 (seen ++ l.*2) payloads' order' h'.
Proof.
  induction l as [|[schema e] l IH]; intros seen payloads order h Ha Hs Hl; csimpl in *.
  - do 3 eexists. split; [reflexivity|]. by rewrite app_nil_r.
  - apply Forall_cons in Hl as [[He Hc] Hl]. simpl in *.
    destruct (assembleOne_spec fp h0 seen payloads order h schema e Ha He Hc (separate_mid _ _ _ Hs)) as (p1 & o1 & h1 & E & Ha1).
    rewrite E. rewrite (cons_middle e seen), app_assoc in Hs |- *. by apply IH.
Qed.
Lemma entriesIn_ptrs h schema ps : (forall p, p ∈ ps -> is_Some (hp_challenges h !! p)) -> en_ptr <$> entriesIn h schema ps = ps.
Proof.
  induction ps as [|p ps IH]; intros H; [done|]. destruct (H p) as [[c bs] Hp]; [by left|]. unfold entriesIn in *. csimpl. rewrite Hp. csimpl.
  f_equal. apply IH. intros q Hq. apply H. by right.
Qed.
Lemma entriesIn_inv h schema ps e : e ∈ entriesIn h schema ps ->
  en_ptr e ∈ ps /\ hp_challenges h !! en_ptr e = Some (en_meta e, en_builds e) /\ en_count e = spec_instanceCount (specFor schema (cm_id (en_meta e))).
Proof. intros (p & Hp & He)%list_elem_of_omap. destruct (hp_challenges h !! p) as [[c bs]|] eqn:E; [|done]. by injection He as <-. Qed.
Lemma routeEntries_inv h built schemas schema e : (schema, e) ∈ routeEntries h built schemas ->
  schema ∈ schemas /\ e ∈ entriesIn h schema (default [] (built !! sch_name schema)).
Proof. intros (s & (e' & [= <- <-] & He)%list_elem_of_fmap & Hs)%list_elem_of_bind. done. Qed.
Lemma foldl_bind {A B C} (f : A -> B -> A) (g : C -> list B) l : forall a, foldl (fun a c => foldl f a (g c)) a l = foldl f a (l ≫= g).
Proof. induction l as [|c l IH]; intros a; csimpl; [done|]. by rewrite IH, foldl_app. Qed.
Lemma foldl_fmap {A B C} (f : A -> B -> A) (g : C -> B) l : forall a, foldl f a (g <$> l) = foldl (fun a c => f a (g c)) a l.
Proof. induction l as [|c l IH]; intros a; csimpl; [done|]. by rewrite IH. Qed.
Lemma assemble_entries fp h built schemas : rooted h built schemas -> 
  assemble schemas built fp h = foldl (fun acc se => assembleOne fp se.1 acc (en_ptr se.2)) (∅, [], h) (routeEntries h built schemas).
Proof.
  intros Hr. unfold assemble, routeEntries. rewrite <- foldl_bind. generalize (∅ : gmap ChallengeId payloadRef, [] : list ChallengeId, h).
  assert (forall l, (forall s, s ∈ l -> s ∈ schemas) -> forall a,
    foldl (assembleSchema built fp) a l = foldl (fun a c => foldl (fun acc se => assembleOne fp se.1 acc (en_ptr se.2)) a (pair c <$> entriesIn h c (default [] (built !! sch_name c)))) a l) as Hl; [|by apply Hl].
  induction l as [|s l IH]; intros Hin a; csimpl; [done|]. rewrite IH by (intros; apply Hin; by right). f_equal.
  unfold assembleSchema. rewrite foldl_fmap. simpl. rewrite <- (foldl_fmap (assembleOne fp s) en_ptr). f_equal.
  symmetry. apply entriesIn_ptrs. intros p Hp. eapply Hr; [|done]. apply Hin. by left.
Qed.
Lemma assemble_spec fp h built schemas : rooted h built schemas -> separate (routeEntries h built schemas).*2 ->
  exists payloads order h', assemble schemas built fp h = (payloads, order, h') /\ assembled fp h (routeEntries h built schemas).*2 payloads order h'.
Proof.
  intros Hr Hs. rewrite assemble_entries by done. apply (assemble_fold fp h _ [] ∅ [] h); [|done|].
  - split; try done; try set_solver; [apply NoDup_nil_2|]. intros id. split; [by intros ?%not_elem_of_nil|by intros [? ?]].
  - apply Forall_forall. intros [schema e] He. apply routeEntries_inv in He as [_ He]. by apply entriesIn_inv in He as (_ & ? & ?).
Qed.

(** What a payload of the entries carries, its builds as they were in [h0]. *)
Definition carried (h0 : Heap) (es : list entry) (id : ChallengeId) : list (option BuildMetadata) :=
  mjoin ((fun e => (fun b => handed (en_count e) <$> hp_builds h0 !! b) <$> en_builds e) <$> entriesOf es id).
Record carries (fp : Z) (h0 h : Heap) (es : list entry) (payloads : gmap ChallengeId payloadRef) (order : list ChallengeId) : Prop := {
  ca_order : NoDup order;
  ca_ids : forall id, id ∈ order <-> is_Some (firstOf es id);
  ca_payload : forall id e, firstOf es id = Some e -> exists p, payloads !! id = Some p /\
    payloadOf h p = mkHandOver (Some (en_meta e, carried h0 es id)) fp (SeccompProfiles (en_meta e)) }.
Lemma fmap_join {A B} (f : A -> B) (ll : list (list A)) : f <$> mjoin ll = mjoin (fmap f <$> ll).
Proof. induction ll; csimpl; [done|]. by rewrite fmap_app, IHll. Qed.
Lemma assembled_carries fp h0 es payloads order h h' : assembled fp h0 es payloads order h -> agree h h' es -> carries fp h0 h' es payloads order.
Proof.
  intros H Ha. split; [by eapply as_order|by eapply as_ids|]. intros id e He. eexists. split; [by rewrite (as_pay _ _ _ _ _ _ H), He|].
  unfold payloadOf. simpl. destruct (firstOf_Some _ _ _ He) as [Hin _]. destruct (Ha _ Hin) as [-> _]. rewrite (as_first _ _ _ _ _ _ H _ _ He).
  do 3 f_equal. rewrite fmap_join. unfold carried. f_equal.
  rewrite <- list_fmap_compose. apply list_fmap_ext. intros i e' He'. simpl. apply list_elem_of_lookup_2, list_elem_of_filter in He' as [_ He'].
  apply list_fmap_ext. intros j b Hb. apply list_elem_of_lookup_2 in Hb. destruct (Ha _ He') as [_ ->]; [|done]. by eapply as_builds.
Qed.
Lemma carries_from fp h0 h1 h es payloads order : (forall e b, e ∈ es -> b ∈ en_builds e -> hp_builds h1 !! b = hp_builds h0 !! b) ->
  carries fp h1 h es payloads order -> carries fp h0 h es payloads order.
Proof.
  intros Hb [H1 H2 H3]. split; [done..|]. intros id e He. destruct (H3 _ _ He) as (p & Hp & Ho). exists p. split; [done|]. rewrite Ho. do 3 f_equal.
  unfold carried. f_equal. apply list_fmap_ext. intros i e' He'. apply list_elem_of_lookup_2, list_elem_of_filter in He' as [_ He'].
  apply list_fmap_ext. intros j b Hj. apply list_elem_of_lookup_2 in Hj. by rewrite (Hb e').
Qed.
(** Assembling touches nothing the entries do not own. *)
Lemma assembled_agree fp h0 es payloads order h es' : assembled fp h0 es payloads order h ->
  (forall e e', e ∈ es -> e' ∈ es' -> apartFrom e e') -> agree h0 h es'.
Proof.
  intros H Hap e' He'. split; [eapply (as_other _ _ _ _ _ _ H)|intros b Hb; eapply (as_kept _ _ _ _ _ _ H)]; intros e He.
  - destruct (Hap _ _ He He') as [? _]. congruence.
  - intros Hi. destruct (Hap _ _ He He') as [_ Hd]. by apply (Hd b).
Qed.

Lemma identityMismatches_read template fp h payloads order :
  identityMismatches template fp h payloads order =
  id ← order; match payloads !! id with
              | Some p => match ho_challenge (payloadOf h p) with Some (c, bs) => omap (fun b => b) bs ≫= buildMismatch template fp id c | None => [] end
              | None => []
              end.
Proof.
  unfold identityMismatches. apply list_bind_ext; [|done]. intros id. destruct (payloads !! id) as [p|]; csimpl; [|done].
  unfold payloadOf. simpl. destruct (hp_challenges h !! pl_challenge p) as [[c bs]|]; [|done]. f_equal.
  induction bs as [|b bs IH]; csimpl; [done|]. by destruct (hp_builds h !! b); rewrite IH.
Qed.
Lemma identityMismatches_same template fp h0 h h' es payloads order :
  carries fp h0 h es payloads order -> carries fp h0 h' es payloads order ->
  identityMismatches template fp h' payloads order = identityMismatches template fp h payloads order.
Proof.
  intros [_ H2 H3] [_ _ H3']. rewrite !identityMismatches_read.
  assert (forall l, (forall id, id ∈ l -> id ∈ order) -> forall f g : ChallengeId -> list mismatch, (forall id, id ∈ order -> f id = g id) -> l ≫= f = l ≫= g) as Hext.
  { induction l as [|id l IH]; intros Hl f g Hfg; csimpl; [done|]. rewrite (Hfg id) by (apply Hl; by left). f_equal. apply IH; [|done]. intros; apply Hl; by right. }
  apply Hext; [done|]. intros id Hid. apply H2 in Hid as [e He]. destruct (H3 _ _ He) as (p & Hp & Ho), (H3' _ _ He) as (p' & Hp' & Ho').
  rewrite Hp in Hp'. injection Hp' as <-. by rewrite Hp, Ho, Ho'.
Qed.
Lemma routeEntries_agree h h1 built schemas : rooted h built schemas -> agree h h1 (routeEntries h built schemas).*2 ->
  routeEntries h1 built schemas = routeEntries h built schemas.
Proof.
  intros Hr Ha. unfold routeEntries. 
  assert (forall schema, schema ∈ schemas -> entriesIn h1 schema (default [] (built !! sch_name schema)) = entriesIn h schema (default [] (built !! sch_name schema))) as He.
  { intros schema Hs. assert (forall p, p ∈ default [] (built !! sch_name schema) -> hp_challenges h1 !! p = hp_challenges h !! p) as Hp.
    { intros p Hp. rewrite <- (entriesIn_ptrs h schema) in Hp by (intros q Hq; by eapply Hr). apply list_elem_of_fmap in Hp as (e & -> & He).
      apply Ha. apply list_elem_of_fmap. exists (schema, e). split; [done|]. apply list_elem_of_bind. exists schema. split; [|done].
      apply list_elem_of_fmap. by exists e. }
    unfold entriesIn. induction (default [] (built !! sch_name schema)) as [|p ps IH]; csimpl; [done|].
    rewrite (Hp p) by (by left). rewrite IH by (intros; apply Hp; by right). done. }
  induction schemas as [|s l IH]; csimpl; [done|]. rewrite (He s) by (by left). f_equal. apply IH.
  - intros s' p Hs'. apply Hr. by right.
  - intros e Hin. apply Ha. unfold routeEntries. csimpl. rewrite fmap_app, elem_of_app. by right.
  - intros s' Hs'. apply He. by right.
Qed.
Definition allEntries (h : Heap) (built : gmap string (list nat)) (routes : list route) : list entry :=
  mjoin ((fun r => (routeEntries h built (rt_schemas r)).*2) <$> routes).
Lemma separate_app es es' : separate (es ++ es') -> separate es /\ separate es' /\ forall e e', e ∈ es -> e' ∈ es' -> apartFrom e e'.
Proof.
  intros H. split_and!.
  - intros i j e e' Hi Hj. apply (H i j); by apply lookup_app_l_Some.
  - intros i j e e' Hi Hj Hn. apply (H (length es + i)%nat (length es + j)%nat); [..|lia]; by rewrite lookup_app_r, Nat.add_comm, Nat.add_sub by lia.
  - intros e e' [i Hi]%list_elem_of_lookup [j Hj]%list_elem_of_lookup. apply (H i (length es + j)%nat); [by apply lookup_app_l_Some|by rewrite lookup_app_r, Nat.add_comm, Nat.add_sub by lia|].
    apply lookup_lt_Some in Hi. lia.
Qed.
Lemma assembleAll_spec template built fp routes : forall h,
  (forall r, r ∈ routes -> rooted h built (rt_schemas r)) -> separate (allEntries h built routes) ->
  exists sending mismatched h', assembleAll template routes built fp h = (sending, mismatched, h') /\
    Forall2 (fun r out => ob_route out = r /\ carries fp h h' (routeEntries h built (rt_schemas r)).*2 (ob_payloads out) (ob_order out)) routes sending /\
    (forall es, (forall e e', e ∈ allEntries h built routes -> e' ∈ es -> apartFrom e e') -> agree h h' es) /\
    (mismatched = [] -> Forall (fun out => identityMismatches template fp h' (ob_payloads out) (ob_order out) = []) sending).
Proof.
  induction routes as [|r routes IH]; intros h Hr Hs; simpl.
  - do 3 eexists. split_and!; [reflexivity|constructor| |done]. intros es _ e He. done.
  - unfold allEntries in Hs. csimpl in Hs. apply separate_app in Hs as (Hs1 & Hs2 & Hs3).
    destruct (assemble_spec fp h built (rt_schemas r)) as (payloads & order & h1 & -> & Ha); [apply Hr; by left|done|].
    assert (forall r', r' ∈ routes -> agree h h1 (routeEntries h built (rt_schemas r')).*2) as Hag.
    { intros r' Hr'. eapply assembled_agree; [exact Ha|]. intros e e' He He'. apply Hs3; [done|]. apply list_elem_of_join. eexists. split; [exact He'|].
      apply list_elem_of_fmap. by exists r'. }
    assert (forall r', r' ∈ routes -> routeEntries h1 built (rt_schemas r') = routeEntries h built (rt_schemas r')) as Hre.
    { intros r' Hr'. apply routeEntries_agree; [apply Hr; by right|by apply Hag]. }
    assert (allEntries h1 built routes = allEntries h built routes) as Hall.
    { unfold allEntries. f_equal. apply list_fmap_ext. intros i r' Hr'. f_equal. apply Hre. by eapply list_elem_of_lookup_2. }
    destruct (IH h1) as (sending & rest & h' & -> & Hf & Hfr & Hm).
    + intros r' Hr' schema p Hsc Hp. assert (rooted h built (rt_schemas r')) as Hroot by (apply Hr; by right).
      specialize (Hroot _ _ Hsc Hp). rewrite <- (entriesIn_ptrs h schema) in Hp by (intros q Hq; eapply Hr; [right|..]; done).
      apply list_elem_of_fmap in Hp as (e & -> & He). destruct (Hag _ Hr' e) as [-> _]; [|done].
      apply list_elem_of_fmap. exists (schema, e). split; [done|]. apply list_elem_of_bind. exists schema. split; [apply list_elem_of_fmap; by exists e|done].
    + by rewrite Hall.
    + assert (agree h1 h' (routeEntries h built (rt_schemas r)).*2) as Hag'.
      { apply Hfr. rewrite Hall. intros e e' He He'. destruct (Hs3 _ _ He' He) as [? Hb]. split; [congruence|]. intros b Hi Hi'. by apply (Hb b). }
      do 3 eexists. split; [reflexivity|]. simpl. split_and!.
      * constructor; [split; [done|]; simpl; by eapply assembled_carries|].
        apply Forall2_same_length_lookup in Hf as [Hlen Hf]. apply Forall2_same_length_lookup. split; [done|].
        intros i r' out Hi Ho. destruct (Hf _ _ _ Hi Ho) as [? Hc]. split; [done|]. apply list_elem_of_lookup_2 in Hi. rewrite Hre in Hc by done.
        eapply carries_from; [|exact Hc]. intros e b He. by apply (Hag r' Hi e).
      * intros es Hap e He. assert (agree h h1 es) as H1 by (eapply assembled_agree; [exact Ha|]; intros; apply Hap; [unfold allEntries; csimpl; apply elem_of_app; by left|done]).
        assert (agree h1 h' es) as H2 by (apply Hfr; rewrite Hall; intros; apply Hap; [unfold allEntries; csimpl; apply elem_of_app; by right|done]).
        destruct (H1 _ He) as [H1a H1b], (H2 _ He) as [H2a H2b]. split; [congruence|]. intros b Hb. rewrite H2b by done. by apply H1b.
      * intros [Hm1 Hm2]%app_nil. constructor; [|by apply Hm]. simpl. rewrite <- Hm1.
        eapply identityMismatches_same; eapply assembled_carries; try exact Ha; [|done]. intros e He. done.
Qed.

(** *** Reading back what was built *)
Record heap_ok (h : Heap) : Prop := {
  hk_valid : forall p c bs b, hp_challenges h !! p = Some (c, bs) -> b ∈ bs -> (b < length (hp_builds h))%nat;
  hk_apart : forall p p' c c' bs bs' b, p <> p' -> hp_challenges h !! p = Some (c, bs) -> hp_challenges h !! p' = Some (c', bs') -> b ∈ bs -> b ∉ bs' }.
(** A challenge at a pointer, with its builds. *)
Definition points (h : Heap) (p : nat) (c : ChallengeMetadata) : Prop :=
  exists bs, hp_challenges h !! p = Some (c, bs) /\ (fun b => hp_builds h !! b) <$> bs = Some <$> cm_builds c.
Definition grown (h h' : Heap) : Prop := hp_challenges h `prefix_of` hp_challenges h' /\ hp_builds h `prefix_of` hp_builds h'.
Lemma grown_points h h' p c : grown h h' -> points h p c -> points h' p c.
Proof.
  intros [Hc Hb] (bs & Hp & Hbs). exists bs. split; [by eapply prefix_lookup_Some|]. rewrite <- Hbs. apply list_fmap_ext. intros i b Hi.
  assert (is_Some (hp_builds h !! b)) as [x Hx].
  { apply (f_equal (.!! i)) in Hbs. rewrite !list_lookup_fmap, Hi in Hbs. simpl in Hbs. destruct (cm_builds c !! i) eqn:E; simpl in Hbs; [|done]. injection Hbs as ->. eauto. }
  rewrite Hx. by eapply prefix_lookup_Some.
Qed.
Lemma seq_lookups {A} (l : list A) : forall pre, (fun b => (pre ++ l) !! b) <$> seq (length pre) (length l) = Some <$> l.
Proof.
  induction l as [|a l IH]; intros pre; csimpl; [done|]. rewrite lookup_app_r, Nat.sub_diag by lia. simpl. f_equal.
  specialize (IH (pre ++ [a])). rewrite length_app, Nat.add_1_r, <- app_assoc in IH. done.
Qed.
Lemma allocate_spec cs : forall h ps h', allocate cs h = (ps, h') -> heap_ok h ->
  heap_ok h' /\ grown h h' /\ ps = seq (length (hp_challenges h)) (length cs) /\
  length (hp_challenges h') = (length (hp_challenges h) + length cs)%nat /\ Forall2 (points h') ps cs.
Proof.
  induction cs as [|c cs IH]; intros h ps h' H Hok; simpl in H.
  - injection H as <- <-. split_and!; [done|by split|done|by rewrite Nat.add_0_r|constructor].
  - set (bs := seq (length (hp_builds h)) (length (cm_builds c))) in *. set (h1 := mkHeap _ _) in H.
    destruct (allocate cs h1) as [ps1 h1'] eqn:E. injection H as <- <-.
    apply IH in E as (H1 & [H2 H3] & H4 & H5 & H6).
    + split_and!; [done| | | |].
      * split; (etrans; [|eassumption]); by eexists.
      * rewrite H4. simpl. by rewrite length_app, Nat.add_1_r.
      * rewrite H5. simpl. rewrite length_app. simpl. lia.
      * constructor; [|done]. apply (grown_points h1); [by split|]. exists bs. simpl. rewrite lookup_app_r, Nat.sub_diag by lia. split; [done|]. apply seq_lookups.
    + assert (forall b, b ∈ bs -> (length (hp_builds h) <= b < length (hp_builds h) + length (cm_builds c))%nat) as Hbs by (intros b Hb; by apply elem_of_seq in Hb).
      assert (forall p c' bs', hp_challenges h1 !! p = Some (c', bs') -> hp_challenges h !! p = Some (c', bs') \/ (p = length (hp_challenges h) /\ bs' = bs)) as Hl.
      { intros p c' bs' Hp. apply lookup_app_Some in Hp as [Hp|[Hp Hp']]; [by left|]. right. apply list_lookup_singleton_Some in Hp' as [? [= _ <-]]. split; [lia|done]. }
      destruct Hok as [Hv Ha]. split.
      * intros p c' bs' b Hp Hb. simpl. rewrite length_app. apply Hl in Hp as [Hp|[-> ->]]; [specialize (Hv _ _ _ _ Hp Hb)|specialize (Hbs _ Hb)]; lia.
      * intros p p' c1 c2 bs1 bs2 b Hn Hp Hp' Hb Hb'. apply Hl in Hp as [Hp|[-> ->]], Hp' as [Hp'|[-> ->]]; [|..|done].
        -- by eapply Ha; [exact Hn| | | |].
        -- specialize (Hv _ _ _ _ Hp Hb). specialize (Hbs _ Hb'). lia.
        -- specialize (Hv _ _ _ _ Hp' Hb'). specialize (Hbs _ Hb). lia.
Qed.
(** Every schema read has its own pointers, and they lead to its state. *)
Record readInto (states : gmap string (list ChallengeMetadata)) (built : gmap string (list nat)) (h : Heap) : Prop := {
  ri_heap : heap_ok h;
  ri_nodup : forall name ps, built !! name = Some ps -> NoDup ps;
  ri_apart : forall name name' ps ps' p, name <> name' -> built !! name = Some ps -> built !! name' = Some ps' -> p ∈ ps -> p ∉ ps';
  ri_points : forall name, match states !! name with
                           | Some cs => exists ps, built !! name = Some ps /\ Forall2 (points h) ps cs
                           | None => built !! name = None
                           end }.
Lemma readInto_step states built h name cs ps h' :
  readInto states built h -> allocate cs h = (ps, h') -> readInto (<[name := cs]> states) (<[name := ps]> built) h'.
Proof.
  intros [H1 H2 H3 H4] E. destruct (allocate_spec _ _ _ _ E H1) as (Hok & Hg & Hps & Hlen & Hpt).
  assert (forall n qs q, built !! n = Some qs -> q ∈ qs -> (q < length (hp_challenges h))%nat) as Hold.
  { intros n qs q Hn Hq. specialize (H4 n). destruct (states !! n) as [cs'|]; [|congruence]. destruct H4 as (ps' & Hps' & Hf).
    rewrite Hn in Hps'. injection Hps' as <-. apply list_elem_of_lookup in Hq as [i Hi]. eapply Forall2_lookup_l in Hf as (c & _ & bs & Hc & _); [|exact Hi].
    by apply lookup_lt_Some in Hc. }
  assert (forall q, q ∈ ps -> (length (hp_challenges h) <= q)%nat) as Hnew by (intros q; rewrite Hps, elem_of_seq; lia).
  split; [done|..].
  - intros n qs. rewrite lookup_insert_Some. intros [[<- <-]|[_ Hn]]; [rewrite Hps; apply NoDup_seq|eauto].
  - intros n n' qs qs' q Hn Hq Hq' Hi Hi'. apply lookup_insert_Some in Hq as [[<- <-]|[_ Hq]], Hq' as [[<- <-]|[_ Hq']]; [done|..|by eapply H3].
    + specialize (Hnew _ Hi). specialize (Hold _ _ _ Hq' Hi'). lia.
    + specialize (Hnew _ Hi'). specialize (Hold _ _ _ Hq Hi). lia.
  - intros n. destruct (decide (name = n)) as [->|Hn]; [rewrite !lookup_insert_eq; by exists ps|]. rewrite !lookup_insert_ne by done.
    specialize (H4 n). destruct (states !! n); [|done]. destruct H4 as (qs & Hqs & Hf). exists qs. split; [done|].
    eapply Forall2_impl; [exact Hf|]. intros. by eapply grown_points.
Qed.
Lemma separate_ptrs h es : heap_ok h -> NoDup (en_ptr <$> es) ->
  Forall (fun e => hp_challenges h !! en_ptr e = Some (en_meta e, en_builds e)) es -> separate es.
Proof.
  intros [_ Ha] Hnd Hf i j e e' Hi Hj Hn. rewrite Forall_lookup in Hf.
  assert (en_ptr e <> en_ptr e') as Hp.
  { intros Hp. apply Hn. eapply (NoDup_lookup _ _ _ (en_ptr e) Hnd); rewrite list_lookup_fmap; [by rewrite Hi|by rewrite Hj, Hp]. }
  split; [done|]. intros b. eapply Ha; [exact Hp|by eapply Hf..].
Qed.
Definition challengesOf (states : gmap string (list ChallengeMetadata)) (schemas : list Schema) : list ChallengeMetadata :=
  schema ← schemas; default [] (states !! sch_name schema).
(** The builds of a challenge that the schemas name, each with the count its
    schema asks for. *)
Definition buildsFor (states : gmap string (list ChallengeMetadata)) (schemas : list Schema) (id : ChallengeId) : list BuildMetadata :=
  schema ← schemas; c ← default [] (states !! sch_name schema);
  if decide (cm_id c = id) then handed (spec_instanceCount (specFor schema id)) <$> cm_builds c else [].

Section readBack.
Context (states : gmap string (list ChallengeMetadata)) (built : gmap string (list nat)) (h : Heap) (Hri : readInto states built h).
Lemma ptrs_points name : Forall2 (points h) (default [] (built !! name)) (default [] (states !! name)).
Proof.
  pose proof (ri_points _ _ _ Hri name) as H. destruct (states !! name); [|rewrite H; constructor]. destruct H as (ps & -> & Hf). done.
Qed.
Lemma readInto_rooted schemas : rooted h built schemas.
Proof.
  intros schema p _ Hp. apply list_elem_of_lookup in Hp as [i Hi]. destruct (Forall2_lookup_l _ _ _ _ _ (ptrs_points _) Hi) as (c & _ & bs & Hc & _). eauto.
Qed.
Lemma entries_points schema : Forall2 (fun e c => en_meta e = c /\ en_count e = spec_instanceCount (specFor schema (cm_id c)) /\ (fun b => hp_builds h !! b) <$> en_builds e = Some <$> cm_builds c)
  (entriesIn h schema (default [] (built !! sch_name schema))) (default [] (states !! sch_name schema)).
Proof.
  induction (ptrs_points (sch_name schema)) as [|p c ps cs (bs & Hp & Hb) _ IH]; [constructor|]. unfold entriesIn in *. csimpl. rewrite Hp. by constructor.
Qed.
Lemma routeEntries_metas schemas : en_meta <$> (routeEntries h built schemas).*2 = challengesOf states schemas.
Proof.
  unfold routeEntries, challengesOf. induction schemas as [|s l IH]; csimpl; [done|]. rewrite !fmap_app, IH. f_equal.
  rewrite <- !list_fmap_compose. induction (entries_points s) as [|e c es cs (<- & _) _ IHe]; csimpl; [done|]. f_equal. exact IHe.
Qed.
Lemma carried_builds schemas id : carried h (routeEntries h built schemas).*2 id = Some <$> buildsFor states schemas id.
Proof.
  unfold carried, entriesOf, routeEntries, buildsFor. induction schemas as [|s l IH]; csimpl; [done|].
  rewrite !fmap_app, filter_app, fmap_app, join_app, IH. f_equal. rewrite <- list_fmap_compose. simpl.
  induction (entries_points s) as [|e c es cs (<- & Hc & Hb) _ IHe]; csimpl; [done|]. rewrite filter_cons, fmap_app, <- IHe.
  destruct (decide (cm_id (en_meta e) = id)) as [<-|]; [|done]. csimpl. f_equal. rewrite Hc, <- list_fmap_compose.
  trans (fmap (handed (spec_instanceCount (specFor s (cm_id (en_meta e))))) <$> ((fun b => hp_builds h !! b) <$> en_builds e)); [by rewrite <- list_fmap_compose|].
  rewrite Hb, <- list_fmap_compose. done.
Qed.
Lemma allEntries_ptrs routes : en_ptr <$> allEntries h built routes = schema ← mjoin (rt_schemas <$> routes); default [] (built !! sch_name schema).
Proof.
  unfold allEntries. induction routes as [|r routes IH]; csimpl; [done|]. rewrite fmap_app, bind_app, IH. f_equal.
  unfold routeEntries. induction (rt_schemas r) as [|s l IHl]; csimpl; [done|]. rewrite !fmap_app, IHl. f_equal. rewrite <- !list_fmap_compose. simpl.
  apply entriesIn_ptrs. intros p Hp. apply (readInto_rooted [s] s p); [by left|done].
Qed.
Lemma ptrs_nodup schemas : NoDup (sch_name <$> schemas) -> NoDup (schema ← schemas; default [] (built !! sch_name schema)).
Proof.
  induction schemas as [|s l IH]; csimpl; intros Hnd; [apply NoDup_nil_2|]. apply NoDup_cons in Hnd as [Hn Hnd]. apply NoDup_app. split_and!.
  - destruct (built !! sch_name s) eqn:E; [by eapply ri_nodup|apply NoDup_nil_2].
  - intros p Hp (s' & Hp' & Hs')%list_elem_of_bind. destruct (built !! sch_name s) as [ps|] eqn:E; [|by apply not_elem_of_nil in Hp].
    destruct (built !! sch_name s') as [ps'|] eqn:E'; [|by apply not_elem_of_nil in Hp']. eapply (ri_apart _ _ _ Hri (sch_name s) (sch_name s')); try done.
    intros He. apply Hn. rewrite He. by apply list_elem_of_fmap_2.
  - by apply IH.
Qed.
Lemma readInto_separate routes : NoDup (sch_name <$> mjoin (rt_schemas <$> routes)) -> separate (allEntries h built routes).
Proof.
  intros Hnd. apply (separate_ptrs h); [by apply (ri_heap _ _ _ Hri)|rewrite allEntries_ptrs; by apply ptrs_nodup|].
  apply Forall_forall. intros e He. apply list_elem_of_join in He as (es & He & Hes). apply list_elem_of_fmap in Hes as (r & -> & _).
  apply list_elem_of_fmap in He as ([schema e'] & -> & He). apply routeEntries_inv in He as [_ He]. by apply entriesIn_inv in He as (_ & ? & _).
Qed.
End readBack.

(** What a run sends to one orchestrator: every challenge its schemas built,
    once, as the first of them read it, with all the builds its schemas have of
    it. *)
Record deliverable (fp : Z) (states : gmap string (list ChallengeMetadata)) (h : Heap) (out : outbound) : Prop := {
  dl_order : NoDup (ob_order out);
  dl_ids : forall id, id ∈ ob_order out <-> id ∈ cm_id <$> challengesOf states (rt_schemas (ob_route out));
  dl_payload : forall id, id ∈ ob_order out -> exists p c, ob_payloads out !! id = Some p /\
    head (filter (fun c => cm_id c = id) (challengesOf states (rt_schemas (ob_route out)))) = Some c /\
    payloadOf h p = mkHandOver (Some (c, Some <$> buildsFor states (rt_schemas (ob_route out)) id)) fp (SeccompProfiles c) }.
Lemma metas_filter es id : en_meta <$> entriesOf es id = filter (fun c => cm_id c = id) (en_meta <$> es).
Proof. unfold entriesOf. induction es as [|e es IH]; csimpl; [done|]. rewrite !filter_cons. destruct (decide _); csimpl; by rewrite IH. Qed.
Lemma carries_deliverable states built h0 fp h r out : readInto states built h0 -> ob_route out = r ->
  carries fp h0 h (routeEntries h0 built (rt_schemas r)).*2 (ob_payloads out) (ob_order out) -> deliverable fp states h out.
Proof.
  intros Hri <- [H1 H2 H3]. set (es := (routeEntries h0 built (rt_schemas (ob_route out))).*2) in *.
  assert (forall id, en_meta <$> entriesOf es id = filter (fun c => cm_id c = id) (challengesOf states (rt_schemas (ob_route out)))) as Hm
    by (intros id; rewrite metas_filter; f_equal; by apply routeEntries_metas).
  split; [done| |].
  - intros id. rewrite H2. unfold firstOf. split.
    + intros [e He]. assert (en_meta e ∈ en_meta <$> entriesOf es id) as Hin by (destruct (entriesOf es id); [done|injection He as ->; csimpl; by left]).
      rewrite Hm in Hin. apply list_elem_of_filter in Hin as [<- Hin]. by apply list_elem_of_fmap_2.
    + intros (c & -> & Hc)%list_elem_of_fmap. assert (c ∈ en_meta <$> entriesOf es (cm_id c)) as Hin by (rewrite Hm; by apply list_elem_of_filter).
      destruct (entriesOf es (cm_id c)); [by apply not_elem_of_nil in Hin|]. eauto.
  - intros id Hid. apply H2 in Hid as [e He]. destruct (H3 _ _ He) as (p & Hp & Ho). exists p, (en_meta e). split; [done|].
    rewrite <- Hm. unfold firstOf in He. split; [by destruct (entriesOf es id); [done|injection He as ->]|]. rewrite Ho. do 3 f_equal. by apply carried_builds.
Qed.
(** What each orchestrator is sent is every challenge its schemas built, once and
    as it was read, with exactly the builds those schemas have of it, each with
    its schema's count: assembling one orchestrator's payloads through the shared
    pointers does not reach into another's.  When no mismatch is found, none of
    the payloads sent has one. *)
Theorem assembleAll_delivers template states built fp routes h sending mismatched h' :
  readInto states built h -> NoDup (sch_name <$> mjoin (rt_schemas <$> routes)) ->
  assembleAll template routes built fp h = (sending, mismatched, h') ->
  ob_route <$> sending = routes /\ Forall (deliverable fp states h') sending /\
  (mismatched = [] -> Forall (fun out => identityMismatches template fp h' (ob_payloads out) (ob_order out) = []) sending).
Proof.
  intros Hri Hnd H. destruct (assembleAll_spec template built fp routes h) as (s & m & h1 & E & Hf & _ & Hm).
  - intros r _. by eapply readInto_rooted.
  - by eapply readInto_separate.
  - rewrite E in H. injection H as -> -> ->. split_and!; [| |done].
    + clear -Hf. induction Hf as [|r out rs outs [Hr _] _ IH]; csimpl; [done|]. by rewrite Hr, IH.
    + clear -Hf Hri. induction Hf as [|r out rs outs [Hr Hc] _ IH]; constructor; [by eapply carries_deliverable|done].
Qed.

(** ** No schema is served twice *)
Lemma d_bind_inv {N P A B} (e : D N P A) (k : A -> D N P B) s r s' :
  (e ≫= k) s = (r, s') -> exists a s1, e s = (a, s1) /\ k a s1 = (r, s').
Proof. unfold mbind, D_bind. destruct (e s) as [a s1]. eauto. Qed.
Ltac dStep H x s1 E := apply d_bind_inv in H as (x & s1 & E & H).

Definition payloadSchemas (o : HandOver) : list string :=
  match ho_challenge o with Some (_, builds) => bm_schema <$> omap (fun b => b) builds | None => [] end.
(** What the commands rely on of the orchestrators: [serves n a x] is that the
    one at [a] has builds of the schema [x].  A state that is asked for is the
    state there is; a hand-over adds the schemas of its builds at that address,
    all of them when it is taken; a converge is about its schema only and one that
    is accepted leaves it served; a removal that is accepted leaves it unserved. *)
Class Orchestrators {N} (respond : request -> N -> answer * N) (decodeState : string -> option Z) (decodeVerdict : string -> bool)
    (serves : N -> string -> string -> Prop) : Prop := {
  orch_version n address r n' : respond (GetVersion address) n = (r, n') -> forall a x, serves n' a x <-> serves n a x;
  orch_state n address schema r n' : respond (GetSchema address schema) n = (r, n') ->
    (forall a x, serves n' a x <-> serves n a x) /\
    (forall resp, r = inr resp -> rs_status resp = 404 -> ~ serves n address schema) /\
    (forall resp body k, r = inr resp -> rs_status resp = 200 -> rs_body resp = inr body ->
       decodeState (LimitReader answerLimit body) = Some k -> (0 < k <-> serves n address schema));
  orch_put n address id payload r n' : respond (PutChallenge address id payload) n = (r, n') ->
    (forall a x, ~ (a = address /\ x ∈ payloadSchemas payload) -> serves n' a x <-> serves n a x) /\
    (forall x, serves n address x -> serves n' address x) /\
    (taken decodeVerdict r = inr tt -> forall x, x ∈ payloadSchemas payload -> serves n' address x);
  orch_post n address schema r n' : respond (PostSchema address schema) n = (r, n') ->
    (forall a x, ~ (a = address /\ x = sch_name schema) -> serves n' a x <-> serves n a x) /\
    (accepted r = inr tt -> serves n' address (sch_name schema));
  orch_delete n address schema retire r n' : respond (DeleteOn address schema retire) n = (r, n') ->
    (forall a x, ~ (a = address /\ x = schema) -> serves n' a x <-> serves n a x) /\
    (serves n' address schema -> serves n address schema) /\
    (accepted r = inr tt -> ~ serves n' address schema) }.
(** And of the Manager: the state of a schema has that schema's builds. *)
Class Recalls {P} (plane : planeOps P) : Prop :=
  recalls name p cs p' : po_GetSchemaState plane name p = (inr cs, p') -> Forall (fun c => Forall (fun b => bm_schema b = name) (cm_builds c)) cs.

Section exclusive.
Context {N P : Type} (respond : request -> N -> answer * N) (unsendable : request -> option error).
Context (decodeState : string -> option Z) (decodeInfo : string -> option serverInfo) (decodeVerdict : string -> bool).
Context (plane : planeOps P) (template : string -> Z).
Context (loadSchema : string -> error + Schema) (dests : destinations).
Context (serves : N -> string -> string -> Prop) {HO : Orchestrators respond decodeState decodeVerdict serves} {HR : Recalls plane} (Hdests : dests_ok dests).
Local Abbreviation D := (D N P).

(** What does not change what is served. *)
Class Quiet {A} (e : D A) := quiet s r s' : e s = (r, s') -> forall a x, serves (st_net s') a x <-> serves (st_net s) a x.
#[local] Instance Quiet_ret {A} (a : A) : Quiet (mret a).
Proof. by intros s r s' [= <- <-]. Qed.
Lemma Quiet_bind {A B} (e : D A) (k : A -> D B) : Quiet e -> (forall a, Quiet (k a)) -> Quiet (e ≫= k).
Proof. intros He Hk s r s' H a x. dStep H y s1 E. rewrite (Hk _ _ _ _ H). by apply (He _ _ _ E). Qed.
#[local] Instance Quiet_onPlane {A} (f : P -> A * P) : Quiet (onPlane f).
Proof. intros s r s' H a x. unfold onPlane in H. destruct (f _). injection H as _ <-. done. Qed.
Lemma servesSchema_spec address schema s r s' : servesSchema (P := P) respond decodeState address schema s = (r, s') ->
  (forall a x, serves (st_net s') a x <-> serves (st_net s) a x) /\
  match r with inl _ => True | inr has => has = true <-> serves (st_net s) address schema end.
Proof.
  intros H. unfold servesSchema in H. dStep H q s1 E. injection H as <- <-. unfold send in E. destruct (respond _ _) as [r n] eqn:Er.
  injection E as <- <-. simpl. apply orch_state in Er as (H1 & H2 & H3). split; [done|]. destruct r as [err|resp]; [done|].
  destruct (decide (rs_status resp = 404)) as [E4|E4]; [split; [done|]; intros Hs; by destruct (H2 resp)|].
  destruct (decide (rs_status resp <> 200)) as [|E2%dec_stable]; [done|]. destruct (rs_body resp) as [|body] eqn:Eb; [done|].
  destruct (decodeState _) as [k|] eqn:Ek; [|done]. rewrite bool_decide_eq_true. by eapply H3.
Qed.
#[local] Instance Quiet_servesSchema address schema : Quiet (servesSchema (P := P) respond decodeState address schema).
Proof. intros s r s' H. by apply servesSchema_spec in H as [? _]. Qed.
Ltac hush := repeat first [apply _ | apply Quiet_bind; [|intros] | case_match | progress simpl].
#[local] Instance Quiet_askOnce u name address schema : Quiet (askOnce (P := P) respond decodeState u name address schema).
Proof. unfold askOnce. hush. Qed.
#[local] Instance Quiet_askEach u names schema : Quiet (askEach (P := P) respond decodeState dests u names schema).
Proof. revert u. induction names; intros; simpl; hush. Qed.
#[local] Instance Quiet_misroutedSchema u r schema : Quiet (misroutedSchema (P := P) respond decodeState dests u r schema).
Proof. unfold misroutedSchema, schemaServedElsewhere. hush. Qed.
#[local] Instance Quiet_misroutedEach u todo : Quiet (misroutedEach (P := P) respond decodeState dests u todo).
Proof. revert u. induction todo as [|[]]; intros; simpl; hush. Qed.
#[local] Instance Quiet_livesAmong schema found l : Quiet (livesAmong (P := P) respond decodeState schema found l).
Proof. revert found. induction l as [|[]]; intros; simpl; hush. Qed.
#[local] Instance Quiet_buildEach schemas : Quiet (buildEach (N := N) plane schemas).
Proof. induction schemas; simpl; hush. Qed.
#[local] Instance Quiet_readBuilt schemas built h : Quiet (readBuilt (N := N) plane schemas built h).
Proof. revert built h. induction schemas; intros; simpl; hush. Qed.
#[local] Instance Quiet_checkServer address : Quiet (checkServer (P := P) respond decodeInfo address).
Proof.
  unfold checkServer. apply Quiet_bind; [|intros; hush]. intros s r s' H a x. unfold send in H. destruct (respond _ _) as [r0 n] eqn:Er. injection H as _ <-.
  by eapply orch_version.
Qed.

(** *** The guards *)
Definition exclusive (n : N) : Prop := forall x name name' a a',
  ds_byName dests !! name = Some a -> ds_byName dests !! name' = Some a' -> serves n a x -> serves n a' x -> name = name'.
Lemma exclusive_mono n n' : (forall a x, serves n' a x -> serves n a x) -> exclusive n -> exclusive n'.
Proof. intros H He x name name' a a' Ha Ha' Hs Hs'. eapply He; eauto. Qed.
Lemma exclusive_quiet {A} (e : D A) {Hq : Quiet e} s r s' : e s = (r, s') -> exclusive (st_net s) -> exclusive (st_net s').
Proof. intros H. apply exclusive_mono. intros a x. by rewrite (Hq _ _ _ H). Qed.
(** Where a schema that may be handed to a route is served. *)
Definition settledAt (n : N) (name x : string) : Prop :=
  (exists address, ds_byName dests !! name = Some address /\ serves n address x) \/
  (forall name' address, name' <> name -> ds_byName dests !! name' = Some address -> ~ serves n address x).
Lemma settledAt_quiet {A} (e : D A) {Hq : Quiet e} s r s' name x : e s = (r, s') -> settledAt (st_net s') name x <-> settledAt (st_net s) name x.
Proof. intros H. unfold settledAt. by setoid_rewrite (Hq _ _ _ H). Qed.

Lemma askOnce_spec u name address schema s u' r s' : askOnce (P := P) respond decodeState u name address schema s = ((u', r), s') ->
  match r with inl _ => True | inr has => has = true <-> serves (st_net s) address schema end.
Proof.
  unfold askOnce. destruct (u !! name); [by intros [= _ <- _]|]. intros H. dStep H q s1 E. apply servesSchema_spec in E as [_ E].
  destruct q; injection H as _ <- _; done.
Qed.
Lemma askEach_spec schema names : forall u s u' at_ s', askEach (P := P) respond decodeState dests u names schema s = ((u', inr at_), s') ->
  at_ ∈ names \/ (forall name, name ∈ names -> ~ serves (st_net s) (default ""%string (ds_byName dests !! name)) schema).
Proof.
  induction names as [|name names IH]; intros u s u' at_ s' H; simpl in H; [right; by intros ? ?%not_elem_of_nil|].
  dStep H q s1 E. destruct q as [u1 [err|[|]]].
  - injection H as _ ?. done.
  - injection H as _ <- _. left. by left.
  - pose proof (Quiet_askOnce _ _ _ _ _ _ _ E) as Hq. apply askOnce_spec in E. apply IH in H as [H|H]; [left; by right|].
    right. intros name' [->|Hn]%elem_of_cons; [rewrite <- E; done|]. rewrite <- Hq. by apply H.
Qed.
Lemma destinationNames_spec name : name ∈ destinationNames dests <-> is_Some (ds_byName dests !! name).
Proof. apply (sorted_keys (ds_byName dests)). Qed.
Lemma misroutedSchema_spec u r schema s u' s' : misroutedSchema (P := P) respond decodeState dests u r schema s = ((u', []), s') ->
  settledAt (st_net s) (rt_name r) (sch_name schema).
Proof.
  unfold misroutedSchema. intros H. dStep H q s1 E. destruct q as [u1 [err|[|]]]; [done| |].
  - left. destruct (ds_byName dests !! rt_name r) as [address|]; [|by injection E as _ ? _]. exists address. split; [done|].
    apply askOnce_spec in E. by apply E.
  - assert (forall a x, serves (st_net s1) a x <-> serves (st_net s) a x) as Hq.
    { destruct (ds_byName dests !! rt_name r); [by eapply Quiet_askOnce|by injection E as _ <-]. }
    dStep H q s2 E2. destruct q as [u2 [err|at_]]; [done|]. injection H as _ Hn _. unfold schemaServedElsewhere in E2.
    destruct (decide (at_ <> ""%string)) as [|Hat%dec_stable]; [done|]. subst at_. apply askEach_spec in E2 as [H|H].
    + apply list_elem_of_filter in H as [_ H]. apply destinationNames_spec in H as [? H]. by rewrite (do_named _ Hdests) in H.
    + right. intros name address Hne Ha Hs. apply (H name); [|rewrite Ha; simpl; by apply Hq].
      apply list_elem_of_filter. split; [done|]. apply destinationNames_spec. eauto.
Qed.
Lemma misroutedEach_spec todo : forall u s s', misroutedEach (P := P) respond decodeState dests u todo s = ([], s') ->
  Forall (fun rs => settledAt (st_net s) (rt_name rs.1) (sch_name rs.2)) todo.
Proof.
  induction todo as [|[r schema] todo IH]; intros u s s' H; simpl in H; [constructor|]. dStep H q s1 E. destruct q as [u1 problems].
  dStep H rest s2 E2. injection H as Hnil _. apply app_nil in Hnil as [-> ->]. pose proof (Quiet_misroutedSchema _ _ _ _ _ _ E) as Hq.
  constructor; [by eapply misroutedSchema_spec|]. apply IH in E2. eapply Forall_impl; [exact E2|]. intros rs. unfold settledAt. by setoid_rewrite Hq.
Qed.
(** With fewer than two destinations there is nothing to ask. *)
Lemma few_exclusive n : (size (ds_byName dests) < 2)%nat -> exclusive n.
Proof.
  intros Hs x name name' a a' Ha Ha' _ _. destruct (decide (name = name')) as [|Hn]; [done|]. exfalso.
  assert (size (delete name (ds_byName dests)) <> 0%nat).
  { apply map_size_non_empty_iff. intros He. assert (delete name (ds_byName dests) !! name' = None) as Hl by (by rewrite He). rewrite lookup_delete_ne in Hl; congruence. }
  rewrite map_size_delete_Some in * by eauto. lia.
Qed.

(** *** Delivering *)

(** What is served after is what was served before, or is allowed to be added. *)
Definition within (T : string -> string -> Prop) (s s' : Deployment N P) : Prop :=
  forall a x, (serves (st_net s') a x -> serves (st_net s) a x \/ T a x) /\ (~ T a x -> serves (st_net s) a x -> serves (st_net s') a x).
Lemma within_refl T s : within T s s.
Proof. intros a x. split; auto. Qed.
Lemma within_trans T s s1 s' : within T s s1 -> within T s1 s' -> within T s s'.
Proof. intros H1 H2 a x. destruct (H1 a x), (H2 a x). split; naive_solver. Qed.
Lemma within_weaken (T T' : string -> string -> Prop) s s' : (forall a x, T a x -> T' a x) -> within T s s' -> within T' s s'.
Proof. intros HT H a x. specialize (HT a x). destruct (H a x). split; naive_solver. Qed.
Lemma within_quiet {A} (e : D A) {Hq : Quiet e} T s r s' : e s = (r, s') -> within T s s'.
Proof. intros H a x. rewrite (Hq _ _ _ H). split; auto. Qed.
Lemma post_within address schema s r s' : convergeOn (P := P) respond unsendable address schema s = (r, s') ->
  within (fun a x => a = address /\ x = sch_name schema) s s' /\ (r = inr tt -> serves (st_net s') address (sch_name schema)).
Proof.
  unfold convergeOn, sendChecked. destruct (unsendable _); intros H; [injection H as <- <-; split; [apply within_refl|done]|].
  dStep H q s1 E. injection H as <- <-. unfold send in E. destruct (respond _ _) as [r0 n] eqn:Er. injection E as <- <-. apply orch_post in Er as [H1 H2]. split; [|done].
  intros a x. simpl. split.
  - intros Hs. destruct (decide (a = address /\ x = sch_name schema)) as [|Hn]; [by right|]. left. by apply H1.
  - intros Hn Hs. by apply H1.
Qed.
Lemma put_within address id payload s r s' : handOver (P := P) respond unsendable decodeVerdict address id payload s = (r, s') ->
  within (fun a x => a = address /\ x ∈ payloadSchemas payload) s s'.
Proof.
  unfold handOver. destruct (unsendable _); intros H; [injection H as <- <-; apply within_refl|].
  dStep H q s1 E. injection H as <- <-. unfold send in E. destruct (respond _ _) as [r0 n] eqn:Er. injection E as <- <-. apply orch_put in Er as (H1 & _ & _).
  intros a x. simpl. split.
  - intros Hs. destruct (decide (a = address /\ x ∈ payloadSchemas payload)) as [|Hn]; [by right|]. left. by apply H1.
  - intros Hn Hs. by apply H1.
Qed.
Lemma delete_within address schema retire s r s' : deleteSchemaOn (P := P) respond unsendable address schema retire s = (r, s') ->
  (forall a x, serves (st_net s') a x -> serves (st_net s) a x) /\ (r = inr tt -> ~ serves (st_net s') address schema).
Proof.
  unfold deleteSchemaOn, sendChecked. destruct (unsendable _); intros H; [by injection H as <- <-|].
  dStep H q s1 E. injection H as <- <-. unfold send in E. destruct (respond _ _) as [r0 n] eqn:Er. injection E as <- <-. apply orch_delete in Er as (H1 & H2 & H3). split; [|done].
  intros a x. simpl. intros Hs. destruct (decide (a = address /\ x = schema)) as [[-> ->]|Hn]; [by apply H2|by apply H1].
Qed.
(** The schemas of a route at its address. *)
Definition routeOf (r : route) (a x : string) : Prop := a = rt_address r /\ x ∈ sch_name <$> rt_schemas r.
Definition fitting (h : Heap) (out : outbound) : Prop := forall id p x, id ∈ ob_order out -> ob_payloads out !! id = Some p ->
  x ∈ payloadSchemas (payloadOf h p) -> x ∈ sch_name <$> rt_schemas (ob_route out).
Lemma handEach_within h out ids : (forall id, id ∈ ids -> id ∈ ob_order out) -> fitting h out -> forall s r s',
  handEach (P := P) respond unsendable decodeVerdict h (rt_address (ob_route out)) (ob_payloads out) ids s = (r, s') -> within (routeOf (ob_route out)) s s'.
Proof.
  intros Hin Hf. induction ids as [|id ids IH]; intros s r s' H; simpl in H; [injection H as <- <-; apply within_refl|].
  dStep H q s1 E. dStep H rest s2 E2. injection H as <- <-. eapply within_trans; [|eapply IH; [|exact E2]; intros; apply Hin; by right].
  destruct (ob_payloads out !! id) as [p|] eqn:Ep; [|injection E as _ <-; apply within_refl].
  eapply within_weaken; [|by eapply put_within]. intros a x [-> Hx]. split; [done|]. eapply Hf; [apply Hin; by left|done..].
Qed.
Lemma convergeEach_within address schemas : forall s r s', convergeEach (P := P) respond unsendable address schemas s = (r, s') ->
  within (fun a x => a = address /\ x ∈ sch_name <$> schemas) s s' /\
  (r = true -> forall x, x ∈ sch_name <$> schemas -> serves (st_net s') address x).
Proof.
  induction schemas as [|schema schemas IH]; intros s r s' H; simpl in H; [injection H as <- <-; split; [apply within_refl|set_solver]|].
  dStep H q s1 E. dStep H rest s2 E2. injection H as <- <-. apply post_within in E as [H1 H2]. apply IH in E2 as [H3 H4]. csimpl. split.
  - eapply within_trans; (eapply within_weaken; [|eassumption]); set_solver.
  - intros Hr x Hx. destruct q as [|[]]; [done|]. subst rest. destruct (decide (x ∈ sch_name <$> schemas)) as [Hi|Hi]; [by apply H4|].
    apply elem_of_cons in Hx as [->|]; [|done]. apply H3; [set_solver|auto].
Qed.
Lemma deliver_within h out s r s' : fitting h out -> deliver (P := P) respond unsendable decodeInfo decodeVerdict h out s = (r, s') ->
  within (routeOf (ob_route out)) s s' /\ (r = true -> forall x, x ∈ sch_name <$> rt_schemas (ob_route out) -> serves (st_net s') (rt_address (ob_route out)) x).
Proof.
  intros Hf H. unfold deliver in H. dStep H q s1 E. pose proof (within_quiet _ (routeOf (ob_route out)) _ _ _ E) as H0.
  destruct q; [injection H as <- <-; split; [done|discriminate]|]. dStep H delivered s2 E2. apply handEach_within in E2; [|done..].
  destruct delivered; simpl in H; [|injection H as <- <-; split; [by eapply within_trans|discriminate]].
  apply convergeEach_within in H as [H1 H2]. split; [|done]. eapply within_trans; [by eapply within_trans|done].
Qed.
Lemma deliverAll_within h sending : Forall (fitting h) sending -> NoDup (rt_address ∘ ob_route <$> sending) -> forall s r s',
  deliverAll (P := P) respond unsendable decodeInfo decodeVerdict h sending s = (r, s') ->
  within (fun a x => exists out, out ∈ sending /\ routeOf (ob_route out) a x) s s' /\
  (r = true -> forall out x, out ∈ sending -> x ∈ sch_name <$> rt_schemas (ob_route out) -> serves (st_net s') (rt_address (ob_route out)) x).
Proof.
  intros Hf. induction Hf as [|out sending Hf Hfs IH]; csimpl; intros Hnd s r s' H; [injection H as <- <-; split; [apply within_refl|set_solver]|].
  apply NoDup_cons in Hnd as [Hn Hnd]. dStep H q s1 E. dStep H rest s2 E2. injection H as <- <-. apply deliver_within in E as [H1 H2]; [|done]. apply IH in E2 as [H3 H4]; [|done]. split.
  - eapply within_trans; (eapply within_weaken; [|eassumption]); set_solver.
  - intros [-> ->]%andb_true_iff out' x [->|Ho]%elem_of_cons Hx; [|by apply H4]. apply H3; [|auto].
    intros (o & Ho & Ha & _). apply Hn. rewrite Ha. by apply (list_elem_of_fmap_2 (rt_address ∘ ob_route)).
Qed.

(** *** A whole run *)
Definition recalled (states : gmap string (list ChallengeMetadata)) : Prop :=
  forall name cs, states !! name = Some cs -> Forall (fun c => Forall (fun b => bm_schema b = name) (cm_builds c)) cs.
Lemma readBuilt_spec schemas : forall built h states s built' h' s', readBuilt (N := N) plane schemas built h s = (Some (built', h'), s') ->
  readInto states built h -> recalled states -> exists states', readInto states' built' h' /\ recalled states'.
Proof.
  induction schemas as [|schema schemas IH]; intros built h states s built' h' s' H Hri Hrec; simpl in H; [injection H as <- <- <-; by exists states|].
  dStep H r s1 E. destruct r as [err|state]; [done|]. destruct (allocate state h) as [ps h1] eqn:Ea.
  eapply IH; [exact H|by eapply readInto_step|]. intros name cs [[<- <-]|[_ Hc]]%lookup_insert_Some; [|by apply Hrec].
  unfold onPlane in E. destruct (po_GetSchemaState plane (sch_name schema) (st_plane s)) as [r p] eqn:Eg. injection E as -> _. by eapply recalls.
Qed.
Lemma readInto_empty : readInto ∅ ∅ (mkHeap [] []).
Proof. split; [split; simpl|..]; intros; rewrite ?lookup_empty; simplify_map_eq; done. Qed.
Lemma deliverable_fitting fp states h out : deliverable fp states h out -> recalled states -> fitting h out.
Proof.
  intros [H1 H2 H3] Hrec id p x Hid Hp Hx. destruct (H3 _ Hid) as (p' & c & Hp' & _ & Ho). rewrite Hp in Hp'. injection Hp' as <-.
  rewrite Ho in Hx. unfold payloadSchemas in Hx. simpl in Hx.
  assert (forall l : list BuildMetadata, omap (fun b => b) (Some <$> l) = l) as Hom by (induction l; csimpl; congruence).
  rewrite Hom in Hx. apply list_elem_of_fmap in Hx as (b & -> & Hb). unfold buildsFor in Hb.
  apply list_elem_of_bind in Hb as (schema & Hb & Hs). apply list_elem_of_bind in Hb as (c' & Hb & Hc). destruct (decide _); [|by apply not_elem_of_nil in Hb].
  apply list_elem_of_fmap in Hb as (b' & -> & Hb'). simpl. destruct (states !! sch_name schema) as [cs|] eqn:Ec; [|by apply not_elem_of_nil in Hc].
  specialize (Hrec _ _ Ec). rewrite Forall_forall in Hrec. specialize (Hrec _ Hc). rewrite Forall_forall in Hrec. rewrite (Hrec _ Hb'). by apply list_elem_of_fmap_2.
Qed.
Lemma buildRouted_within schemas routes s r s' : NoDup (sch_name <$> mjoin (rt_schemas <$> routes)) -> NoDup (rt_address <$> routes) ->
  buildRouted respond unsendable decodeInfo decodeVerdict plane template schemas routes s = (r, s') ->
  within (fun a x => exists rt, rt ∈ routes /\ routeOf rt a x) s s' /\
  (r = NO_ERROR -> forall rt x, rt ∈ routes -> x ∈ sch_name <$> rt_schemas rt -> serves (st_net s') (rt_address rt) x).
Proof.
  intros Hnd Hna H. unfold buildRouted in H. set (T := fun a x => exists rt, rt ∈ routes /\ routeOf rt a x).
  dStep H err s1 E1. pose proof (within_quiet _ T _ _ _ E1) as W1. destruct err; [injection H as <- <-; done|].
  dStep H updates s2 E2. pose proof (within_trans _ _ _ _ W1 (within_quiet _ T _ _ _ E2)) as W2. destruct (scanDidNotHappen updates); [injection H as <- <-; done|].
  dStep H good s3 E3. pose proof (within_trans _ _ _ _ W2 (within_quiet _ T _ _ _ E3)) as W3. destruct good; simpl in H; [|injection H as <- <-; done].
  dStep H rb s4 E4. pose proof (within_trans _ _ _ _ W3 (within_quiet _ T _ _ _ E4)) as W4. destruct rb as [[built h]|]; [|injection H as <- <-; done].
  dStep H fp s5 E5. pose proof (within_trans _ _ _ _ W4 (within_quiet _ T _ _ _ E5)) as W5. destruct (assembleAll _ _ _ _ _) as [[sending mismatched] h'] eqn:Ea.
  destruct (decide (mismatched <> [])); [injection H as <- <-; done|]. dStep H good s6 E6. injection H as <- <-.
  apply readBuilt_spec with (states := ∅) in E4 as (states & Hri & Hrec); [|apply readInto_empty|intros ??; by rewrite lookup_empty].
  apply (assembleAll_delivers _ states) in Ea as (Hr & Hd & _); [|done..].
  apply deliverAll_within in E6 as [W6 Hok].
  - split.
    + eapply within_trans; [exact W5|]. eapply within_weaken; [|exact W6]. intros a x (out & Ho & Hx). exists (ob_route out). split; [|done].
      rewrite <- Hr. by apply list_elem_of_fmap_2.
    + intros Hg rt x Hrt Hx. rewrite <- Hr in Hrt. apply list_elem_of_fmap in Hrt as (out & -> & Ho). destruct good; [|done]. by apply Hok.
  - eapply Forall_impl; [exact Hd|]. intros out Hout. by eapply deliverable_fitting.
  - rewrite list_fmap_compose, Hr. done.
Qed.
Lemma nodup_key {A} (f : A -> string) l x y : NoDup (f <$> l) -> x ∈ l -> y ∈ l -> f x = f y -> x = y.
Proof.
  intros Hnd [i Hi]%list_elem_of_lookup [j Hj]%list_elem_of_lookup He. assert (i = j) as ->; [|congruence].
  eapply (NoDup_lookup _ _ _ (f x) Hnd); rewrite list_lookup_fmap; [by rewrite Hi|by rewrite Hj, He].
Qed.
(** Routes by address share no schema. *)
Lemma routes_nodup schemas routes : NoDup (sch_name <$> schemas) -> NoDup (rt_address <$> routes) ->
  Forall (fun r => rt_schemas r = filter (goesTo dests (rt_address r)) schemas) routes -> NoDup (sch_name <$> mjoin (rt_schemas <$> routes)).
Proof.
  intros Hs. induction routes as [|r routes IH]; csimpl; intros Hnd Hf; [apply NoDup_nil_2|]. apply NoDup_cons in Hnd as [Hn Hnd]. apply Forall_cons in Hf as [Hr Hf].
  rewrite fmap_app. apply NoDup_app. split_and!; [| |by apply IH].
  - rewrite Hr. apply NoDup_fmap_2_strong; [|apply NoDup_filter; by eapply NoDup_fmap_1].
    intros x y [_ Hx]%list_elem_of_filter [_ Hy]%list_elem_of_filter. by eapply nodup_key.
  - intros x (schema & -> & Hin)%list_elem_of_fmap (schema' & He & Hin')%list_elem_of_fmap. apply list_elem_of_join in Hin' as (l & Hl & (r' & -> & Hr')%list_elem_of_fmap).
    rewrite Forall_forall in Hf. rewrite (Hf _ Hr') in Hl. rewrite Hr in Hin. apply list_elem_of_filter in Hin as [G Hin], Hl as [G' Hl].
    assert (schema = schema') as <- by (by eapply nodup_key).
    apply Hn. unfold goesTo in *. rewrite G in G'. injection G' as ->. by apply list_elem_of_fmap_2.
Qed.
Lemma route_unique routes rt rt' x : NoDup (sch_name <$> mjoin (rt_schemas <$> routes)) -> rt ∈ routes -> rt' ∈ routes ->
  x ∈ sch_name <$> rt_schemas rt -> x ∈ sch_name <$> rt_schemas rt' -> rt = rt'.
Proof.
  intros Hnd Hrt Hrt' Hx Hx'. induction routes as [|r routes IH]; [by apply not_elem_of_nil in Hrt|]. csimpl in Hnd. rewrite fmap_app in Hnd. apply NoDup_app in Hnd as (_ & Hd & Hnd).
  assert (forall o, o ∈ routes -> x ∈ sch_name <$> rt_schemas o -> x ∈ sch_name <$> mjoin (rt_schemas <$> routes)) as Hin.
  { intros o Ho (schema & -> & Hs)%list_elem_of_fmap. apply list_elem_of_fmap_2, list_elem_of_join. exists (rt_schemas o). split; [done|by apply list_elem_of_fmap_2]. }
  apply elem_of_cons in Hrt as [->|Hrt], Hrt' as [->|Hrt']; [done|exfalso; eapply Hd; [|eapply Hin]; eassumption..|by apply IH].
Qed.
(** What a run adds keeps to one orchestrator when its guards have let it. *)
Lemma added_exclusive n n' routes : exclusive n -> (forall rt, rt ∈ routes -> ds_byName dests !! rt_name rt = Some (rt_address rt)) ->
  NoDup (sch_name <$> mjoin (rt_schemas <$> routes)) ->
  (forall rt x, rt ∈ routes -> x ∈ sch_name <$> rt_schemas rt -> settledAt n (rt_name rt) x) ->
  (forall a x, serves n' a x -> serves n a x \/ exists rt, rt ∈ routes /\ routeOf rt a x) -> exclusive n'.
Proof.
  intros Hex Hby Hnd Hset Hw.
  assert (forall x name name' a a', ds_byName dests !! name = Some a -> ds_byName dests !! name' = Some a' -> serves n a x ->
    (exists rt, rt ∈ routes /\ routeOf rt a' x) -> name = name') as Hone.
  { intros x name name' a a' Ha Ha' Hs (rt & Hrt & -> & Hx). assert (name' = rt_name rt) as -> by (eapply (do_apart _ Hdests); [exact Ha'|by apply Hby]).
    destruct (Hset _ _ Hrt Hx) as [(address & Ht & Hs')|Hno]; [by eapply Hex|]. destruct (decide (name = rt_name rt)) as [|Hne]; [done|]. by destruct (Hno _ _ Hne Ha). }
  intros x name name' a a' Ha Ha' Hs Hs'. apply Hw in Hs as [Hs|Hs], Hs' as [Hs'|Hs']; [by eapply Hex|by eapply Hone|by symmetry; eapply Hone|].
  destruct Hs as (rt & Hrt & -> & Hx), Hs' as (rt' & Hrt' & -> & Hx'). assert (rt = rt') as -> by (by eapply route_unique). by eapply (do_apart _ Hdests).
Qed.

(** A destination under the name of the flag would not be asked. *)
Context (Hserver : ds_byName dests !! serverRouteName = None).
Local Abbreviation build := (buildCommand respond unsendable decodeState decodeInfo decodeVerdict plane template loadSchema dests).
Lemma build_spec args s r s' : NoDup (sch_name <$> (loadAll loadSchema args).1) -> exclusive (st_net s) -> build [] args s = (r, s') ->
  exclusive (st_net s') /\
  (r = NO_ERROR -> forall schema, schema ∈ (loadAll loadSchema args).1 -> exists address, goesTo dests address schema /\ serves (st_net s') address (sch_name schema)).
Proof.
  intros Hnd Hex H. unfold buildCommand in H. destruct (decide (args = [])); [by injection H as <- <-|].
  destruct (loadAll loadSchema args) as [schemas refused]. simpl in *. destruct refused; [by injection H as <- <-|].
  destruct (routeSchemas schemas [] dests) as [|routes] eqn:Er; [by injection H as <- <-|].
  apply routeSchemas_partition in Er as (Ha & Hn & Hf & Hall); [|done]. destruct (decide _); [by injection H as <- <-|].
  dStep H misrouted s1 Em. rewrite Forall_forall in Hf.
  assert (forall r, r ∈ routes -> rt_name r <> serverRouteName) as Hns by (intros r0 Hr0 E; destruct (Hf _ Hr0) as [E' _]; congruence).
  assert (forall a x, serves (st_net s1) a x <-> serves (st_net s) a x) as Hq.
  { unfold misroutedSchemas in Em. destruct (decide _); [by injection Em as _ <-|by eapply Quiet_misroutedEach]. }
  assert (exclusive (st_net s1)) as Hex1 by (eapply exclusive_mono; [|exact Hex]; intros a x; by rewrite Hq).
  destruct (decide (misrouted <> [])) as [|Hm%dec_stable]; [by injection H as <- <-|]. subst misrouted.
  assert (NoDup (sch_name <$> mjoin (rt_schemas <$> routes))) as Hnd'.
  { apply (routes_nodup schemas); [done..|]. apply Forall_forall. intros r0 Hr0. by destruct (Hf _ Hr0) as (_ & ? & _). }
  apply buildRouted_within in H as [W Hok]; [|done..]. split.
  - destruct (decide (size (ds_byName dests) < 2)%nat) as [Hs|Hs]; [by apply few_exclusive|].
    unfold misroutedSchemas in Em. rewrite decide_False in Em by done. apply misroutedEach_spec in Em. rewrite Forall_forall in Em.
    assert (forall rt x, rt ∈ routes -> x ∈ sch_name <$> rt_schemas rt -> settledAt (st_net s1) (rt_name rt) x) as Hset.
    { intros rt x Hrt (schema & -> & Hin)%list_elem_of_fmap. assert (settledAt (st_net s) (rt_name rt) (sch_name schema)) as Hst.
      { apply (Em (rt, schema)). apply list_elem_of_bind. exists rt. split; [|done]. rewrite decide_False by auto. by apply list_elem_of_fmap_2. }
      unfold settledAt. by setoid_rewrite Hq. }
    eapply (added_exclusive (st_net s1) _ routes); [done| |done|done|intros a x; by apply W]. intros rt Hrt. by destruct (Hf _ Hrt).
  - intros -> schema Hs. rewrite Forall_forall in Hall. destruct (Hall _ Hs) as (rt & Hrt & Hin). exists (rt_address rt). split.
    + destruct (Hf _ Hrt) as (_ & E & _). rewrite E in Hin. by apply list_elem_of_filter in Hin as [? _].
    + apply Hok; [done..|]. by apply list_elem_of_fmap_2.
Qed.

(** *** The commands *)
Lemma single_nodup path : NoDup (sch_name <$> (loadAll loadSchema [path]).1).
Proof. simpl. destruct (loadSchema path); simpl; [apply NoDup_nil_2|apply NoDup_singleton]. Qed.
Lemma deploy_spec args wantKnown s r s' : exclusive (st_net s) ->
  deploySchema respond unsendable decodeState decodeInfo decodeVerdict plane template loadSchema dests [] args wantKnown s = (r, s') -> exclusive (st_net s').
Proof.
  intros Hex H. unfold deploySchema in H. destruct args as [|path [|]]; [by injection H as <- <-| |by injection H as <- <-].
  destruct (loadSchema path); [by injection H as <- <-|]. dStep H known s1 E. pose proof (exclusive_quiet _ _ _ _ E Hex) as Hex1.
  destruct known as [|known]; [by injection H as <- <-|]. destruct (schemaGuard _ _ _); [by injection H as <- <-|].
  apply build_spec in H as [? _]; [done|apply single_nodup|done].
Qed.
Lemma livesAmong_spec x l : Forall (fun na => na.2 <> ""%string) l -> forall found s name address s',
  livesAmong (P := P) respond decodeState x found l s = (inr (name, address), s') ->
  (found.2 <> ""%string -> found = (name, address)) /\
  (forall n a, (n, a) ∈ l -> serves (st_net s) a x -> a = address) /\ (found = (name, address) \/ ((name, address) ∈ l /\ serves (st_net s) address x)).
Proof.
  intros Hl. induction Hl as [|[n a] l Ha Hl IH]; intros found s name address s' H; simpl in *; [injection H as -> _; split_and!; [done|by intros ?? ?%not_elem_of_nil|by left]|].
  dStep H has s1 E. apply servesSchema_spec in E as [Hq Hs]. destruct has as [|[|]]; [done| |].
  - destruct (decide (found.2 <> ""%string)) as [|Hf%dec_stable]; [done|]. apply IH in H as (H0 & H1 & _). injection (H0 Ha) as <- <-. setoid_rewrite Hq in H1.
    split_and!; [done| |right; split; [by left|by apply Hs]]. intros n' a' [[= -> ->]|Hin]%elem_of_cons Hs'; [done|by eapply H1].
  - apply IH in H as (H0 & H1 & H2). setoid_rewrite Hq in H1. rewrite Hq in H2. split_and!; [done| |].
    + intros n' a' [[= -> ->]|Hin]%elem_of_cons Hs'; [|by eapply H1]. by apply Hs in Hs'.
    + destruct H2 as [?|[? ?]]; [by left|right; split; [by right|done]].
Qed.
Lemma where_spec x s name address s' : whereSchemaLives (P := P) respond decodeState dests x s = (inr (name, address), s') ->
  (forall a x', serves (st_net s') a x' <-> serves (st_net s) a x') /\
  (forall n a, ds_byName dests !! n = Some a -> serves (st_net s) a x -> a = address) /\
  (address <> ""%string -> ds_byName dests !! name = Some address /\ serves (st_net s) address x).
Proof.
  intros H. pose proof (Quiet_livesAmong _ _ _ _ _ _ H) as Hq. apply livesAmong_spec in H as (_ & H1 & H2).
  - split_and!; [done|intros n a Hn%elem_of_map_to_list; by eapply H1|]. intros Hne. destruct H2 as [[= <- <-]|[Hin ?]]; [done|]. split; [by apply elem_of_map_to_list|done].
  - apply Forall_forall. intros [n a] Hin%elem_of_map_to_list Ha. simpl in Ha. subst a. by apply (do_address _ Hdests) in Hin.
Qed.
Local Abbreviation migrate := (migrateSchemaCommand respond unsendable decodeState decodeInfo decodeVerdict plane template loadSchema dests).
Lemma migrate_spec servers args s r s' : exclusive (st_net s) -> migrate servers args s = (r, s') ->
  exclusive (st_net s') /\
  (r = NO_ERROR -> exists path schema from to, args = [path] /\ loadSchema path = inr schema /\
     serves (st_net s) from (sch_name schema) /\ goesTo dests to schema /\ from <> to /\ serves (st_net s') to (sch_name schema)).
Proof.
  intros Hex H. unfold migrateSchemaCommand in H. destruct (decide (servers <> [])); [by injection H as <- <-|].
  destruct args as [|path [|]]; [by injection H as <- <-| |by injection H as <- <-]. destruct (loadSchema path) as [|schema] eqn:El; [by injection H as <- <-|].
  destruct (decide (ds_byName dests = ∅)); [by injection H as <- <-|]. destruct (resolveDestination _ _) as [|to] eqn:Et; [by injection H as <- <-|].
  dStep H w s1 E. assert (exclusive (st_net s1)) as Hex1 by (eapply exclusive_quiet; [|exact E|done]; unfold whereSchemaLives; hush).
  destruct w as [|[fn from]]; [by injection H as <- <-|]. apply where_spec in E as (Hq & Hw & Hf).
  destruct (decide (from = ""%string \/ from = to)) as [|Hne]; [by injection H as <- <-|].
  dStep H q s2 E2. apply delete_within in E2 as [Hm Hd]. assert (exclusive (st_net s2)) as Hex2 by (by eapply exclusive_mono). destruct q; [by injection H as <- <-|].
  dStep H q s3 E3. pose proof (exclusive_quiet _ _ _ _ E3 Hex2) as Hex3. destruct q; [by injection H as <- <-|].
  apply build_spec in H as [H1 H2]; [|apply single_nodup|done]. split; [done|]. intros Hr. apply resolve_spec in Et; [|done].
  exists path, schema, from, to. destruct (H2 Hr schema) as (a & Ha & Hs); [simpl; rewrite El; by left|]. unfold goesTo in *. rewrite Et in Ha. injection Ha as <-.
  split_and!; [done|done|apply Hf; naive_solver|done|naive_solver|done].
Qed.
Context (unicodeLower : string -> string).
Lemma remove_spec servers args s r s' : exclusive (st_net s) ->
  removeSchemaCommand respond unsendable decodeState plane unicodeLower dests servers args s = (r, s') -> exclusive (st_net s').
Proof.
  intros Hex H. unfold removeSchemaCommand in H. destruct args as [|name [|]]; [by injection H as <- <-| |by injection H as <- <-].
  do 2 (destruct (decide _); [by injection H as <- <-|]). destruct (validSchemaName _ _); [by injection H as <- <-|].
  dStep H target s1 E. assert (exclusive (st_net s1)) as Hex1.
  { eapply exclusive_quiet; [|exact E|done]. unfold removalTarget, whereSchemaLives. hush. }
  destruct target as [|[tn address]]; [by injection H as <- <-|]. destruct (decide (address = ""%string)).
  - dStep H known s2 E2. pose proof (exclusive_quiet _ _ _ _ E2 Hex1) as Hex2. destruct known; [by injection H as <- <-|]. destruct (decide _); [by injection H as <- <-|].
    eapply exclusive_quiet; [|exact H|done]. unfold dropRows. hush.
  - dStep H q s2 E2. apply delete_within in E2 as [Hm _]. assert (exclusive (st_net s2)) as Hex2 by (by eapply exclusive_mono).
    destruct q; [by injection H as <- <-|]. eapply exclusive_quiet; [|exact H|done]. unfold dropRows. hush.
Qed.

(** Commands one after another. *)
Definition wellNamed (c : command) : Prop := match c with BuildCmd args => NoDup (sch_name <$> (loadAll loadSchema args).1) | _ => True end.
Local Abbreviation run1 := (runCommand respond unsendable decodeState decodeInfo decodeVerdict plane template loadSchema unicodeLower dests []).
Lemma command_exclusive c s r s' : wellNamed c -> exclusive (st_net s) -> run1 c s = (r, s') -> exclusive (st_net s').
Proof.
  intros Hw Hex H. destruct c; simpl in H, Hw.
  - by apply build_spec in H as [? _].
  - by eapply deploy_spec.
  - by eapply deploy_spec.
  - by eapply remove_spec.
  - by apply migrate_spec in H as [? _].
Qed.
Lemma session_exclusive cs : forall s, Forall wellNamed cs -> exclusive (st_net s) -> exclusive (st_net (foldl (fun s c => (run1 c s).2) s cs)).
Proof.
  induction cs as [|c cs IH]; intros s Hw Hex; simpl; [done|]. apply Forall_cons in Hw as [Hc Hw]. apply IH; [done|].
  destruct (run1 c s) as [r s'] eqn:E. by eapply command_exclusive.
Qed.
End exclusive.

(** ** What is sent *)
Section sent.
Context {N P : Type} (respond : request -> N -> answer * N) (unsendable : request -> option error).
Context (decodeState : string -> option Z) (decodeInfo : string -> option serverInfo) (decodeVerdict : string -> bool).
Context (plane : planeOps P) (template : string -> Z) (loadSchema : string -> error + Schema) (dests : destinations).
Context (Q : request -> Prop).
(** Every request made is one of [Q]. *)
Class Sends {A} (e : D N P A) := sends s r s' : e s = (r, s') -> forall q, q ∈ st_sent s' -> q ∈ st_sent s \/ Q q.1.
#[local] Instance Sends_ret {A} (a : A) : Sends (mret a).
Proof. intros s r s' [= <- <-] q. by left. Qed.
Lemma Sends_bind {A B} (e : D N P A) (k : A -> D N P B) : Sends e -> (forall a, Sends (k a)) -> Sends (e ≫= k).
Proof. intros He Hk s r s' H q Hq. dStep H y s1 E. apply (Hk _ _ _ _ H) in Hq as [Hq|]; [|by right]. by apply (He _ _ _ E). Qed.
#[local] Instance Sends_onPlane {A} (f : P -> A * P) : Sends (onPlane f).
Proof. intros s r s' H q. unfold onPlane in H. destruct (f _). injection H as _ <-. by left. Qed.
Lemma Sends_send q : Q q -> Sends (send respond q).
Proof. intros HQ s r s' H q' Hq'. unfold send in H. destruct (respond _ _). injection H as _ <-. simpl in Hq'. apply elem_of_cons in Hq' as [->|]; [by right|by left]. Qed.
Ltac spoken := repeat first [apply _ | apply Sends_send; solve [auto] | apply Sends_bind; [|intros] | case_match | progress simpl].
Context (Hstate : forall a x, Q (GetSchema a x)) (Hversion : forall a, Q (GetVersion a)) (Hpost : forall a x, Q (PostSchema a x)).
#[local] Instance Sends_servesSchema address schema : Sends (servesSchema (P := P) respond decodeState address schema).
Proof. unfold servesSchema. spoken. Qed.
#[local] Instance Sends_askOnce u name address schema : Sends (askOnce (P := P) respond decodeState u name address schema).
Proof. unfold askOnce. spoken. Qed.
#[local] Instance Sends_askEach u names schema : Sends (askEach (P := P) respond decodeState dests u names schema).
Proof. revert u. induction names; intros; simpl; spoken. Qed.
#[local] Instance Sends_misroutedSchema u r schema : Sends (misroutedSchema (P := P) respond decodeState dests u r schema).
Proof. unfold misroutedSchema, schemaServedElsewhere. spoken. Qed.
#[local] Instance Sends_misroutedEach u todo : Sends (misroutedEach (P := P) respond decodeState dests u todo).
Proof. revert u. induction todo as [|[]]; intros; simpl; spoken. Qed.
#[local] Instance Sends_livesAmong schema found l : Sends (livesAmong (P := P) respond decodeState schema found l).
Proof. revert found. induction l as [|[]]; intros; simpl; spoken. Qed.
#[local] Instance Sends_buildEach schemas : Sends (buildEach (N := N) plane schemas).
Proof. induction schemas; simpl; spoken. Qed.
#[local] Instance Sends_readBuilt schemas built h : Sends (readBuilt (N := N) plane schemas built h).
Proof. revert built h. induction schemas; intros; simpl; spoken. Qed.
#[local] Instance Sends_checkServer address : Sends (checkServer (P := P) respond decodeInfo address).
Proof. unfold checkServer. spoken. Qed.
#[local] Instance Sends_convergeEach address schemas : Sends (convergeEach (P := P) respond unsendable address schemas).
Proof. induction schemas; simpl; unfold convergeOn, sendChecked; spoken. Qed.
Lemma Sends_handEach h address payloads ids : (forall id p, id ∈ ids -> payloads !! id = Some p -> Q (PutChallenge address id (payloadOf h p))) ->
  Sends (handEach (P := P) respond unsendable decodeVerdict h address payloads ids).
Proof.
  induction ids as [|id ids IH]; intros Hp; simpl; [apply _|]. apply Sends_bind; [|intros; apply Sends_bind; [apply IH; intros; apply Hp; [by right|done]|intros; apply _]].
  destruct (payloads !! id) as [p|] eqn:E; [|apply _]. unfold handOver. case_match; [apply _|]. apply Sends_bind; [|intros; apply _]. apply Sends_send, Hp; [by left|done].
Qed.
Lemma Sends_deliverAll h sending : Forall (fun out => forall id p, id ∈ ob_order out -> ob_payloads out !! id = Some p -> Q (PutChallenge (rt_address (ob_route out)) id (payloadOf h p))) sending ->
  Sends (deliverAll (P := P) respond unsendable decodeInfo decodeVerdict h sending).
Proof.
  intros Hf. induction Hf as [|out sending Ho Hf IH]; simpl; [apply _|]. apply Sends_bind; [|intros; apply Sends_bind; [done|intros; apply _]].
  unfold deliver. apply Sends_bind; [apply _|intros]. case_match; [apply _|]. apply Sends_bind; [by apply Sends_handEach|intros]. case_match; apply _.
Qed.
End sent.

(** *** Only what the orchestrator would accept *)

(** A payload whose builds are of the generation of their challenge and carry the
    identity the orchestrator recomputes. *)
Definition checkedPayload (template : string -> Z) (o : HandOver) : Prop :=
  exists c bs, ho_challenge o = Some (c, Some <$> bs) /\
    Forall (fun b => bm_sourceChecksum b = cm_sourceChecksum c /\
                     bm_checksum b = contentChecksum (bm_sourceChecksum b) (bm_format b) (ho_pinFingerprint o) (template (cm_challengeType c))) bs.
Definition checkedRequest (template : string -> Z) (q : request) : Prop :=
  match q with PutChallenge _ _ o => checkedPayload template o | DeleteOn _ _ _ => False | _ => True end.
Lemma bind_nil {A B} (f : A -> list B) l : l ≫= f = [] -> Forall (fun a => f a = []) l.
Proof. induction l; csimpl; [constructor|]. intros [? ?]%app_nil. constructor; auto. Qed.
Lemma omap_Some {A} (l : list A) : omap (fun b => b) (Some <$> l) = l.
Proof. induction l; csimpl; congruence. Qed.
Lemma mismatch_checked template fp states h out id p : deliverable fp states h out ->
  identityMismatches template fp h (ob_payloads out) (ob_order out) = [] -> id ∈ ob_order out -> ob_payloads out !! id = Some p ->
  checkedPayload template (payloadOf h p).
Proof.
  intros [_ _ Hd] Hm Hid Hp. destruct (Hd _ Hid) as (p' & c & Hp' & _ & Ho). rewrite Hp in Hp'. injection Hp' as <-.
  exists c. eexists. split; [by rewrite Ho|]. rewrite identityMismatches_read in Hm. apply bind_nil in Hm. rewrite Forall_forall in Hm. specialize (Hm _ Hid).
  rewrite Hp in Hm. cbv beta iota in Hm. rewrite Ho in Hm. simpl in Hm. rewrite omap_Some in Hm. apply bind_nil in Hm. rewrite Ho. simpl. eapply Forall_impl; [exact Hm|].
  intros b. unfold buildMismatch, ContentChecksum. destruct (decide _) as [|Hs%dec_stable]; [done|]. by destruct (decide _) as [|Hc%dec_stable].
Qed.
Section requests.
Context {N P : Type} (respond : request -> N -> answer * N) (unsendable : request -> option error).
Context (decodeState : string -> option Z) (decodeInfo : string -> option serverInfo) (decodeVerdict : string -> bool).
Context (plane : planeOps P) (template : string -> Z) (loadSchema : string -> error + Schema) (dests : destinations) (Hdests : dests_ok dests).
Context {HR : Recalls plane}.
Lemma build_sends (Q : request -> Prop) args : (forall q, checkedRequest template q -> Q q) -> NoDup (sch_name <$> (loadAll loadSchema args).1) ->
  Sends Q (buildCommand respond unsendable decodeState decodeInfo decodeVerdict plane template loadSchema dests [] args).
Proof.
  intros HQ Hnd. assert (forall a x, Q (GetSchema a x)) as Hstate by (intros; by apply HQ). assert (forall a, Q (GetVersion a)) as Hversion by (intros; by apply HQ).
  assert (forall a x, Q (PostSchema a x)) as Hpost by (intros; by apply HQ).
  unfold buildCommand. destruct (decide _); [apply Sends_ret|]. destruct (loadAll loadSchema args) as [schemas refused]. simpl in Hnd. destruct refused; [apply Sends_ret|].
  destruct (routeSchemas _ _ _) as [|routes] eqn:Er; [apply Sends_ret|]. apply routeSchemas_partition in Er as (Ha & _ & Hf & _); [|done].
  assert (NoDup (sch_name <$> mjoin (rt_schemas <$> routes))) as Hnd'.
  { apply (routes_nodup dests schemas); [done..|]. eapply Forall_impl; [exact Hf|]. by intros r (_ & ? & _). }
  destruct (decide _); [apply Sends_ret|]. apply Sends_bind; [unfold misroutedSchemas; destruct (decide _); [apply Sends_ret|by apply Sends_misroutedEach]|intros misrouted].
  destruct (decide _); [apply Sends_ret|]. unfold buildRouted.
  apply Sends_bind; [apply Sends_onPlane|intros [|]; [apply Sends_ret|]]. apply Sends_bind; [apply Sends_onPlane|intros updates; destruct (scanDidNotHappen _); [apply Sends_ret|]].
  apply Sends_bind; [apply Sends_buildEach|intros [|]; [simpl|apply Sends_ret]].
  intros s r s' H. dStep H rb s1 E1. pose proof (Sends_readBuilt plane Q _ _ _ _ _ _ E1) as S1.
  destruct rb as [[built h]|]; [|by injection H as _ <-]. dStep H fp s2 E2. pose proof (Sends_onPlane Q _ _ _ _ E2) as S2.
  destruct (assembleAll _ _ _ _ _) as [[sending mismatched] h'] eqn:Ea. assert (forall q, q ∈ st_sent s2 -> q ∈ st_sent s \/ Q q.1) as S by (intros q [Hq|]%S2; [by apply S1|by right]).
  destruct (decide _) as [|Hm%dec_stable]; [by injection H as _ <-|]. dStep H good s3 E3. injection H as _ <-.
  apply (readBuilt_spec plane) with (states := ∅) in E1 as (states & Hri & Hrec); [|apply readInto_empty|intros ??; by rewrite lookup_empty].
  apply (assembleAll_delivers _ states) in Ea as (Hr & Hd & Hmm); [|done..]. intros q Hq.
  assert (Sends Q (deliverAll (N := N) (P := P) respond unsendable decodeInfo decodeVerdict h' sending)) as HS.
  { specialize (Hmm Hm). rewrite Forall_forall in Hd, Hmm. apply Sends_deliverAll; [done..|]. apply Forall_forall. intros out Ho id p Hid Hp. apply HQ. simpl. eapply mismatch_checked; eauto. }
  apply (HS _ _ _ E3) in Hq as [?%S|?]; [done|by right].
Qed.
Lemma migrate_sends args : Sends (fun q => checkedRequest template q \/ exists a x, q = DeleteOn a x false)
  (migrateSchemaCommand respond unsendable decodeState decodeInfo decodeVerdict plane template loadSchema dests [] args).
Proof.
  set (Q := fun q => _). assert (forall a x, Q (GetSchema a x)) as Hstate by (intros; by left).
  unfold migrateSchemaCommand. destruct (decide _); [apply Sends_ret|]. destruct args as [|path [|]]; [apply Sends_ret| |apply Sends_ret].
  destruct (loadSchema path) eqn:El; [apply Sends_ret|]. destruct (decide _); [apply Sends_ret|]. destruct (resolveDestination _ _); [apply Sends_ret|].
  apply Sends_bind; [by apply Sends_livesAmong|intros [|[fn from]]; [apply Sends_ret|]]. destruct (decide _); [apply Sends_ret|].
  apply Sends_bind; [unfold deleteSchemaOn, sendChecked; case_match; [apply Sends_ret|apply Sends_bind; [apply Sends_send; right; eauto|intros; apply Sends_ret]]|intros [|]; [apply Sends_ret|]].
  apply Sends_bind; [apply Sends_onPlane|intros [|]; [apply Sends_ret|]]. apply build_sends; [by left|apply single_nodup].
Qed.
End requests.

(** ** The Manager keeps its side *)
Lemma try_inv_db {A B} (e : M (error + A)) (k : A -> M (error + B)) w b w' : try e k w = (inr b, w') -> exists a w1, e w = (inr a, w1) /\ k a w1 = (inr b, w').
Proof. unfold try. intros H. step H a w1 E. destruct a; [by apply ret_inv in H as [? _]|eauto]. Qed.
Lemma lookupChallenge_same id w c w' : lookupChallengeMetadata id w = (inr c, w') -> W_m w' = W_m w /\ cm_id c = id.
Proof.
  unfold lookupChallengeMetadata. intros H. apply try_inv_db in H as (d & w1 & E & H). apply sqlRead_inv in E as (Hm & _ & _ & Hd).
  destruct (t_challenges d !! id); [|by apply ret_inv in H as [? _]]. apply ret_inv in H as [[= ->] ->]. done.
Qed.
(** The builds of the challenges collected so far, in order. *)
Definition gathered (challenges : list ChallengeMetadata) (challenge : option ChallengeMetadata) : list BuildMetadata := (challenges ++ option_list challenge) ≫= cm_builds.
Definition ownBuilds (c : ChallengeMetadata) : Prop := Forall (fun b => bm_challenge b = cm_id c) (cm_builds c).
Lemma stateLoop_spec ids : forall challenges challenge w cs w', stateLoop ids challenges challenge w = (inr cs, w') ->
  Forall ownBuilds (challenges ++ option_list challenge) ->
  Forall ownBuilds cs /\ exists bs, cs ≫= cm_builds = gathered challenges challenge ++ bs /\
    Forall2 (fun id b => exists row, t_builds (m_db (W_m w)) !! id = Some row /\ bm_id b = id /\ bm_schema b = b_schema row /\ bm_challenge b = b_challenge row) ids bs.
Proof.
  induction ids as [|id ids IH]; intros challenges challenge w cs w' H Hown; cbn [stateLoop] in H.
  - apply ret_inv in H as [[= ->] _]. split; [done|]. exists []. by rewrite app_nil_r.
  - apply try_inv_db in H as (b & w1 & E1 & H). apply lookupBuildMetadata_inv in E1 as (Hm1 & _ & row & Hrow & Hb).
    apply try_inv_db in H as (instances & w2 & E2 & H). apply try_inv_db in E2 as (d & w2' & E2 & E2'). apply sqlRead_inv in E2 as (Hm2 & _ & _ & _). apply ret_inv in E2' as [_ ->].
    cbv zeta in H. set (build := b <| bm_instances := instances |>) in H.
    destruct (match challenge with Some c => _ | None => _ end) as [challenges1 challenge1] eqn:Ec.
    apply try_inv_db in H as (c & w3 & E3 & H).
    assert (W_m w3 = W_m w /\ Forall ownBuilds challenges1 /\ ownBuilds c /\ cm_id c = bm_challenge build /\ gathered challenges1 (Some c) = gathered challenges challenge) as (Hm & Ho1 & Ho2 & Hid & Hcol).
    { destruct challenge as [c0|]; [destruct (decide (cm_id c0 <> bm_challenge build)) as [|Hc0%dec_stable]|]; injection Ec as <- <-.
      - apply try_inv_db in E3 as (c1 & w4 & E3 & E4). apply ret_inv in E4 as [[= ->] ->]. apply lookupChallenge_same in E3 as [Hm3 Hid3]. split_and!; [congruence|done|constructor|done|].
        unfold gathered. simpl. rewrite !bind_app. csimpl. by rewrite !app_nil_r.
      - apply ret_inv in E3 as [[= ->] ->]. apply Forall_app in Hown as [? [? _]%Forall_cons]. split_and!; [congruence|done..].
      - apply try_inv_db in E3 as (c1 & w4 & E3 & E4). apply ret_inv in E4 as [[= ->] ->]. apply lookupChallenge_same in E3 as [Hm3 Hid3]. apply Forall_app in Hown as [? _].
        split_and!; [congruence|done|constructor|done|]. unfold gathered. simpl. rewrite !bind_app. csimpl. by rewrite !app_nil_r. }
    apply IH in H as (Hcs & bs & Hbs & Hf).
    + split; [done|]. exists (build :: bs). split.
      * rewrite Hbs, <- Hcol. unfold gathered. simpl. rewrite !bind_app. csimpl. by rewrite !app_nil_r, <- !app_assoc.
      * rewrite Hm in Hf. constructor; [|done]. exists row. by subst b.
    + simpl. apply Forall_app. split; [done|]. constructor; [|done]. unfold ownBuilds in *. simpl. apply Forall_app. split; [done|]. by constructor.
Qed.
(** The state of a schema has all its builds, each once and under its own
    challenge, and no others. *)
Theorem GetSchemaState_exact name w cs w' : GetSchemaState name w = (inr cs, w') ->
  NoDup (bm_id <$> (cs ≫= cm_builds)) /\ Forall ownBuilds cs /\ Forall (fun b => bm_schema b = name) (cs ≫= cm_builds) /\
  forall id, id ∈ bm_id <$> (cs ≫= cm_builds) <-> exists row, t_builds (m_db (W_m w)) !! id = Some row /\ b_schema row = name.
Proof.
  unfold GetSchemaState. intros H. apply try_inv_db in H as (ids & w1 & E & H). pose proof E as (Hm & _)%sqlRead_inv. apply getSchemaBuilds_inv in E as [Hnd Hids].
  apply stateLoop_spec in H as (Hown & bs & Hbs & Hf); [|done]. unfold gathered in Hbs. simpl in Hbs. rewrite Hbs. rewrite Hm in Hf.
  assert (bm_id <$> bs = ids) as Hid by (clear -Hf; induction Hf as [|id b ids bs (row & _ & <- & _) _ IH]; csimpl; [done|by rewrite IH]).
  rewrite Hid. split_and!; [done|done| |done]. apply Forall_lookup. intros i b Hb. destruct (Forall2_lookup_r _ _ _ _ _ Hf Hb) as (id & Hi & row & Hrow & _ & -> & _).
  apply list_elem_of_lookup_2, Hids in Hi as (row' & Hrow' & Hs). congruence.
Qed.
#[export] Instance managerPlane_recalls pins template limits purge chalDir : Recalls (managerPlane pins template limits purge chalDir).
Proof.
  intros name b cs b' H. simpl in H. unfold inWorld in H. destruct (GetSchemaState name (bd_world b)) as [r w] eqn:E. injection H as -> _.
  apply GetSchemaState_exact in E as (_ & _ & Hs & _). rewrite Forall_forall in Hs. apply Forall_forall. intros c Hc. apply Forall_forall. intros x Hx. apply Hs, list_elem_of_bind. eauto.
Qed.

(** ** The guarantees *)
Section guarantees.
Context {N P : Type} (respond : request -> N -> answer * N) (unsendable : request -> option error).
Context (decodeState : string -> option Z) (decodeInfo : string -> option serverInfo) (decodeVerdict : string -> bool).
Context (plane : planeOps P) (template : string -> Z) (loadSchema : string -> error + Schema).
Context (serves : N -> string -> string -> Prop) {HO : Orchestrators respond decodeState decodeVerdict serves} {HR : Recalls plane}.
Context (parseURL : string -> error + string * string) (readFile : string -> error + string) (unmarshal : string -> error + gmap string string).




(** A removal that ends well leaves no orchestrator configured that serves the
    schema. *)
Theorem remove_clears unicodeLower path dests x s s' :
  loadDestinations parseURL readFile unmarshal path = inr dests ->
  removeSchemaCommand respond unsendable decodeState plane unicodeLower dests [] [x] s = (NO_ERROR, s') ->
  forall name a, ds_byName dests !! name = Some a -> ~ serves (st_net s') a x.
Proof.
  intros Hd H name a Ha. apply loadDestinations_ok in Hd. unfold removeSchemaCommand in H. rewrite decide_False in H by (simpl; lia).
  destruct (decide _); [done|]. destruct (validSchemaName _ _); [done|]. dStep H w s1 E. destruct w as [|[fn address]]; [done|].
  assert (ds_byName dests <> ∅) as Hne by (intros He; by rewrite He, lookup_empty in Ha). simpl in E. rewrite decide_False in E by done.
  eapply where_spec in E as (Hq & Hw & Hf); [|done..]. assert (forall s2, dropRows (N := N) plane x s2 = (NO_ERROR, s') -> st_net s' = st_net s2) as Hdrop.
  { intros s2 Hs. unfold dropRows in Hs. dStep Hs r s3 E3. injection Hs as _ <-. unfold onPlane in E3. destruct (po_DeleteSchema _ _ _ _). by injection E3 as _ <-. }
  destruct (decide (address = ""%string)) as [->|Hadd].
  - dStep H known s2 E2. destruct known; [done|]. destruct (decide _); [done|]. rewrite (Hdrop _ H). unfold onPlane in E2. destruct (po_ListSchemas _ _). injection E2 as _ <-. simpl.
    rewrite Hq. intros Hs. specialize (Hw _ _ Ha Hs). subst a. by apply (do_address _ Hd) in Ha.
  - dStep H q s2 E2. eapply delete_within in E2 as [Hm Hdel]; [|done]. destruct q as [|[]]; [done|]. rewrite (Hdrop _ H). intros Hs.
    assert (a = address) as -> by (apply (Hw _ _ Ha), Hq, Hm, Hs). by apply Hdel.
Qed.
End guarantees.

(** ** A network that keeps the laws *)
Definition toyServes (n : gmap string (gset string)) (a x : string) : Prop := x ∈ default ∅ (n !! a).
#[export] Instance toyServes_dec n a x : Decision (toyServes n a x).
Proof. unfold toyServes. apply _. Defined.
Definition toyRespond (q : request) (n : gmap string (gset string)) : answer * gmap string (gset string) :=
  let yes body := inr (mkResponse 200 (inr body)) in
  let change a f := <[a := f (default ∅ (n !! a))]> n in
  match q with
  | GetVersion _ => (yes "external"%string, n)
  | GetSchema a x => (yes (if decide (toyServes n a x) then "[1]" else "[]")%string, n)
  | PutChallenge a _ o => (yes "taken"%string, change a (fun l => l ∪ list_to_set (payloadSchemas o)))
  | PostSchema a schema => (yes ""%string, change a (fun l => l ∪ {[sch_name schema]}))
  | DeleteOn a x _ => (yes ""%string, change a (fun l => l ∖ {[x]}))
  end.
Definition toyState (body : string) : option Z := Some (if decide (body = "[]"%string) then 0 else 1).
Definition toyInfo (body : string) : option serverInfo := Some (mkServerInfo "1" body).
Lemma toy_change n a l b x : toyServes (<[a := l]> n) b x <-> if decide (a = b) then x ∈ l else toyServes n b x.
Proof. unfold toyServes. destruct (decide (a = b)) as [->|]; [by rewrite lookup_insert_eq|by rewrite lookup_insert_ne]. Qed.
#[export] Instance toy_orchestrators : Orchestrators toyRespond toyState (fun _ => true) toyServes.
Proof.
  split.
  - by intros n a r n' [= _ <-].
  - intros n a x r n' [= <- <-]. split; [done|]. split; [by intros resp [= <-]|]. intros resp body k [= <-] _ [= <-] [= <-].
    destruct (decide (toyServes n a x)); simpl; split; (done || lia).
  - intros n a id o r n' [= <- <-]. split_and!; intros; rewrite toy_change; destruct (decide _); simplify_eq; try done; unfold toyServes in *; set_solver.
  - intros n a schema r n' [= <- <-]. split; intros; rewrite toy_change; destruct (decide _); simplify_eq; try done; unfold toyServes in *; set_solver.
  - intros n a x retire r n' [= <- <-]. split_and!; [intros b y ?|intros H|intros _ H]; [rewrite toy_change|rewrite toy_change in H..]; destruct (decide _); simplify_eq; try done; unfold toyServes in *; set_solver.
Qed.
Definition toyTemplate (challengeType : string) : Z := 0.
Definition toyBuild (name : string) : BuildMetadata :=
  (newBuild 1 "flag{%s}" "web" name 0) <| bm_id := 1 |> <| bm_sourceChecksum := 7 |> <| bm_checksum := contentChecksum 7 "flag{%s}" 0 0 |>.
Definition toyChallenge (name : string) : ChallengeMetadata :=
  (challengeMeta "web" (mkChallengeRow "web" "" "custom" "" "" 7 0 "" false false 0 "" 0) noParts) <| cm_builds := [toyBuild name] |>.

Definition toyPlane : planeOps (list string) := {|
  po_SetArtifactNamespaces _ p := (None, p);
  po_Update p := (mkUpdates [] [] [] [] [toyChallenge ""] [] [], p);
  po_UpdateSchema schema p := ([], sch_name schema :: p);
  po_RelocateArtifactBundles _ p := (0, None, p);
  po_GetSchemaState name p := (inr (if decide (name ∈ p) then [toyChallenge name] else []), p);
  po_ListSchemas p := (inr p, p);
  po_DeleteSchema name _ p := (inr tt, filter (fun x => x <> name) p);
  po_BasePinFingerprint _ := 0 |}.
#[export] Instance toy_recalls : Recalls toyPlane.
Proof. intros name p cs p' [= <- _]. destruct (decide _); [|constructor]. constructor; [|constructor]. simpl. by repeat constructor. Qed.
(** Two destinations, and files that name them. *)
Definition toyRaw : gmap string string := {["east" := "http://east"; "west" := "http://west/"]}.
Definition toyURL (value : string) : error + string * string := inr ("http", value)%string.
Definition toyRead (path : string) : error + string := inr path.
Definition toyYAML (data : string) : error + gmap string string := inr toyRaw.
Definition toyDests : destinations := mkDests {["east" := "http://east"; "west" := "http://west"]} "".
Definition toySchema (name destination : string) : Schema := mkSchema name "flag{%s}" {["web" := mkSpec [1] 2]} destination.
Definition toyLoad (path : string) : error + Schema :=
  if decide (path = "ctf.yaml"%string) then inr (toySchema "ctf" "west") else if decide (path = "lib.yaml"%string) then inr (mkSchema "lib" "lib{%s}" {["web" := mkSpec [1] 0]} "east") else inl [notExist].
Definition toyStart : Deployment (gmap string (gset string)) (list string) := mkDeployment {["http://east" := {["ctf"]}]} ["ctf"%string] [].
Lemma toy_loads : loadDestinations toyURL toyRead toyYAML "dests.yaml" = inr toyDests.
Proof. vm_compute. reflexivity. Qed.
Lemma toy_exclusive : exclusive toyDests toyServes (st_net toyStart).
Proof.
  assert (forall a x, toyServes (st_net toyStart) a x -> a = "http://east"%string) as Ha.
  { intros a x Hs. unfold toyServes, toyStart in Hs. simpl in Hs. destruct (decide (a = "http://east"%string)) as [|Hn]; [done|]. rewrite lookup_singleton_ne in Hs by done. set_solver. }
  intros x name name' a a' H H' Hs%Ha Hs'%Ha. subst a a'. pose proof (loadDestinations_ok _ _ _ _ _ toy_loads) as Hok. by eapply (do_apart _ Hok).
Qed.
Abbreviation toyMigrate := (migrateSchemaCommand toyRespond (fun _ => None) toyState toyInfo (fun _ => true) toyPlane toyTemplate toyLoad toyDests).
Abbreviation toyBuildCmd := (buildCommand toyRespond (fun _ => None) toyState toyInfo (fun _ => true) toyPlane toyTemplate toyLoad toyDests).
Example toy_migrates : (toyMigrate [] ["ctf.yaml"%string] toyStart).1 = NO_ERROR /\ (toyBuildCmd [] ["ctf.yaml"%string] toyStart).1 = RUNTIME_ERROR.
Proof. vm_compute. done. Qed.
Definition toyAfter : Deployment (gmap string (gset string)) (list string) := (toyMigrate [] ["ctf.yaml"%string] toyStart).2.
Lemma toy_ran : toyMigrate [] ["ctf.yaml"%string] toyStart = (NO_ERROR, toyAfter).
Proof. apply injective_projections; [vm_compute; reflexivity|exact (eq_refl toyAfter)]. Qed.
Definition toyEmpty : Deployment (gmap string (gset string)) (list string) := mkDeployment ∅ [] [].
Lemma toy_empty_exclusive : exclusive toyDests toyServes (st_net toyEmpty).
Proof. intros x name name' a a' _ _ Hs. unfold toyServes in Hs. simpl in Hs. rewrite lookup_empty in Hs. set_solver. Qed.
Definition toyBoth : list string := ["ctf.yaml"; "lib.yaml"]%string.
Definition toyBuilt : Deployment (gmap string (gset string)) (list string) := (toyBuildCmd [] toyBoth toyEmpty).2.
Lemma toy_built : toyBuildCmd [] toyBoth toyEmpty = (NO_ERROR, toyBuilt).
Proof. apply injective_projections; [vm_compute; reflexivity|exact (eq_refl toyBuilt)]. Qed.
Lemma toy_names : NoDup (sch_name <$> (loadAll toyLoad toyBoth).1).
Proof. apply (bool_decide_eq_true_1 _). vm_compute. reflexivity. Qed.
Definition isPut (q : request) : bool := match q with PutChallenge _ _ _ => true | _ => false end.
Definition toySession : list command := [BuildCmd toyBoth; MigrateCmd ["ctf.yaml"]; RemoveCmd ["lib"]; AddCmd ["lib.yaml"]]%string.
Definition toyEnd : Deployment (gmap string (gset string)) (list string) :=
  foldl (fun s c => (runCommand toyRespond (fun _ => None) toyState toyInfo (fun _ => true) toyPlane toyTemplate toyLoad (fun s => s) toyDests [] c s).2) toyEmpty toySession.
Lemma remove_clears_witness : toyServes (st_net toyStart) "http://east" "ctf" /\
  ~ toyServes (st_net (removeSchemaCommand toyRespond (fun _ => None) toyState toyPlane (fun s => s) toyDests [] ["ctf"%string] toyStart).2) "http://east" "ctf".
Proof.
  split; [apply (bool_decide_eq_true_1 _); vm_compute; reflexivity|].
  refine (remove_clears toyRespond (fun _ => None) toyState (fun _ => true) toyPlane toyServes toyURL toyRead toyYAML (fun s => s) "dests.yaml" toyDests "ctf" toyStart _ toy_loads _ "east" "http://east" eq_refl).
  apply injective_projections; [vm_compute; reflexivity|reflexivity].
Defined.
(** One challenge that two schemas of a route name. *)
Definition toyStates : gmap string (list ChallengeMetadata) := {["lib" := [toyChallenge "lib"]; "ctf" := [toyChallenge "ctf"]]}.
Definition toyPtrs : gmap string (list nat) := {["lib" := [1%nat]; "ctf" := [0%nat]]}.
Definition toyHeap : Heap := mkHeap [(toyChallenge "ctf", [0%nat]); (toyChallenge "lib", [1%nat])] [toyBuild "ctf"; toyBuild "lib"].
Definition toyRoute (address : string) : route := mkRoute "east" address [toySchema "ctf" "east"; mkSchema "lib" "flag{%s}" {["web" := mkSpec [1] 0]} "east"].
Lemma toy_read : readInto toyStates toyPtrs toyHeap.
Proof.
  exact (readInto_step _ _ _ "lib" [toyChallenge "lib"] _ _ (readInto_step ∅ ∅ (mkHeap [] []) "ctf" [toyChallenge "ctf"] _ _ readInto_empty eq_refl) eq_refl).
Qed.
Lemma assembleAll_delivers_witness :
  exists sending mismatched h', assembleAll toyTemplate [toyRoute "http://east"] toyPtrs 0 toyHeap = (sending, mismatched, h') /\
    Forall (deliverable 0 toyStates h') sending /\
    buildsFor toyStates (rt_schemas (toyRoute "http://east")) "web" = [handed 2 (toyBuild "ctf"); handed 0 (toyBuild "lib")].
Proof.
  destruct (assembleAll toyTemplate [toyRoute "http://east"] toyPtrs 0 toyHeap) as [[sending mismatched] h'] eqn:E. exists sending, mismatched, h'. split; [done|].
  split; [|vm_compute; reflexivity]. refine (proj1 (proj2 (assembleAll_delivers toyTemplate toyStates toyPtrs 0 [toyRoute "http://east"] toyHeap sending mismatched h' toy_read _ E))).
  apply (bool_decide_eq_true_1 _). vm_compute. reflexivity.
Defined.

(** ** What the examples show *)

(** With two servers, the payloads of both are assembled through the same
    challenges: the second pass finds the builds of the first in them, and a build
    is handed over twice. *)
Definition payloadBuilds (h : Heap) (out : outbound) : list (list string) := (fun p => payloadSchemas (payloadOf h p)) <$> omap (ob_payloads out !!.) (ob_order out).
Example two_servers_repeat :
  let '(sending, mismatched, h) := assembleAll toyTemplate [toyRoute "http://a"; toyRoute "http://b"] toyPtrs 0 toyHeap in
  mismatched = [] /\ payloadBuilds h <$> sending = [[["ctf"; "lib"; "lib"]]; [["ctf"; "lib"; "lib"]]]%string.
Proof. vm_compute. done. Qed.
(** Two files may give one schema two destinations: the guards look at builds, and
    at what is served before the run. *)
Definition toyTwice (path : string) : error + Schema :=
  inr (mkSchema "ctf" "flag{%s}" {["web" := mkSpec [if decide (path = "a.yaml"%string) then 1 else 2] 0]} (if decide (path = "a.yaml"%string) then "east" else "west")).
Example one_name_two_destinations :
  let r := buildCommand toyRespond (fun _ => None) toyState toyInfo (fun _ => true) toyPlane toyTemplate toyTwice toyDests [] ["a.yaml"; "b.yaml"]%string toyEmpty in
  r.1 = NO_ERROR /\ toyServes (st_net r.2) "http://east" "ctf" /\ toyServes (st_net r.2) "http://west" "ctf".
Proof. split_and!; [vm_compute; reflexivity|apply (bool_decide_eq_true_1 _); vm_compute; reflexivity..]. Qed.
(** A destination called --server is taken for the flag, and nobody is asked. *)
Definition toyFlag : destinations := mkDests {["east" := "http://east"; "--server" := "http://x"]} "".
Example flag_named_destination :
  let r := buildCommand toyRespond (fun _ => None) toyState toyInfo (fun _ => true) toyPlane toyTemplate (fun _ => inr (toySchema "ctf" "--server")) toyFlag [] ["ctf.yaml"]%string toyStart in
  r.1 = NO_ERROR /\ toyServes (st_net r.2) "http://east" "ctf" /\ toyServes (st_net r.2) "http://x" "ctf".
Proof. split_and!; [vm_compute; reflexivity|apply (bool_decide_eq_true_1 _); vm_compute; reflexivity..]. Qed.
