(* ===== verification/Loader.v ===== *)
(** * Loader: what a challenge's files say

    [cork/loader.go], but for [validateBuild] ([Builder]).  The stages and
    directives of a challenge's Dockerfile ([processDockerfile]), the check and
    the normal form of its metadata ([validateMetadata]), and its identifier
    ([sanitizeName] of [filesystem.go], [loadChallenge]).  The expressions are
    the code's; what the file system answers is an argument, and so are the
    parsers of other packages. *)
From S2P Require Import Prelude Types Settings Text Regex Submatch Artifacts Queue Worker Database Fleet HostConfig Effects Ports Instances Images Sha256 Seccomp Docker Launch Lifecycle Roster Builds Converge Builder Schemas HandOver Preload BasePins Search Files.
Local Open Scope Z_scope.

(** ** Identifiers *)
Definition asciiAlnum (c : ascii) : bool := lowerAlnum c || inRange "A" "Z" c.
(** [[^a-zA-Z0-9]] replaced by a dash, rune by rune. *)
Fixpoint dashes (fuel : nat) (s : string) : string :=
  match fuel, s with
  | S fuel, String c rest =>
    if asciiAlnum c then String c (dashes fuel rest) else String "-" (dashes fuel (substring (runeWidth s) (String.length s) s))
  | _, _ => ""%string
  end.
Definition isDash (c : ascii) : bool := bool_decide (c = "-"%char).
Definition sanitizeName (unicodeLower : string -> string) (dirty : string) : string :=
  let s := BasePins.ToLower unicodeLower dirty in trimRightSet isDash (dropRun isDash (dashes (String.length s) s)).

(** ** The Dockerfile's directives *)
Definition cBlank : cregex := CClass (fun c => bool_decide (c = " "%char)).
Definition cWord : cregex := CPlus (CClass wordChar).
Definition cOneOf (l : list ascii) : cregex := CClass (fun c => bool_decide (c ∈ l)).
Definition isDigit (c : ascii) : bool := inRange "0" "9" c.
Definition tgtRe : cregex :=
  CSeqs [CText "FROM"; CPlus cBlank; CPlus (CClass notSpace);
         COpt (CSeqs [CPlus cBlank; cOneOf ["a"; "A"]%char; cOneOf ["s"; "S"]%char; CPlus cBlank; CGroup 1 cWord])].
Definition publishRe : cregex :=
  CSeqs [CText "#"; CStar cBlank; CText "PUBLISH"; CPlus cBlank; CGroup 1 (CPlus (CClass isDigit)); CPlus cBlank;
         CText "AS"; CPlus cBlank; CGroup 2 cWord; CStar cSpace].
Definition launchDirectiveRe : cregex :=
  CSeqs [CText "#"; CStar cBlank; CText "LAUNCH"; CPlus cBlank; CGroup 1 (CSeq cWord (CStar (CSeq (CPlus cBlank) cWord)))].
Definition launchRe : cregex := cWord.

#[export] Instance HostInfo_eq_dec : EqDecision HostInfo.
Proof. solve_decision. Defined.
(** A stage as a host: the last one without a name is "challenge". *)
Definition stageHost (last : bool) (f : found) : HostInfo :=
  let target := default ""%string (fd_groups f !! 1%nat) in
  mkHostInfo (if last && bool_decide (target = ""%string) then "challenge"%string else target) target.
Fixpoint stageHosts (stages : list found) : list HostInfo :=
  match stages with
  | [] => []
  | f :: rest => stageHost (match rest with [] => true | _ => false end) f :: stageHosts rest
  end.
Fixpoint launchHosts (hostNames : list HostInfo) (launches : list string) : error + list HostInfo :=
  match launches with
  | [] => inr []
  | launch :: launches =>
    match list_find (fun h => launch = hi_name h) hostNames with
    | None => inl [OtherError "not a Docker target"]
    | Some (_, h) => match launchHosts hostNames launches with inl err => inl err | inr l => inr (h :: l) end
    end
  end.
Definition builderHost : HostInfo := mkHostInfo "builder" "builder".

(** The stage a position belongs to, from the stage of the position before. *)
Fixpoint advance (fuel : nat) (stages : list found) (idx pos : nat) : nat :=
  match fuel with
  | O => idx
  | S fuel =>
    match stages !! S idx with
    | Some st => if decide (fd_start st < pos)%nat then advance fuel stages (S idx) pos else idx
    | None => idx
    end
  end.
Fixpoint publishPorts (stages : list found) (hostNames : list HostInfo) (idx : nat) (ports : list found) (portMap : gmap string PortInfo)
    : error + gmap string PortInfo :=
  match ports with
  | [] => inr portMap
  | p :: ports =>
    let idx := advance (length stages) stages idx (fd_start p) in
    match Atoi (default ""%string (fd_groups p !! 1%nat)) with
    | None => inl [OtherError "could not convert Dockerfile port to int"]
    | Some port =>
      let host := default (mkHostInfo "" "") (hostNames !! idx) in
      if decide (hi_name host = ""%string) then inl [OtherError "stage with no reference name"]
      else if decide (hi_name host = "builder"%string) then inl [OtherError "builder will not be launched"]
      else if decide (host ∈ hostNames) then
        publishPorts stages hostNames idx ports (<[default ""%string (fd_groups p !! 2%nat) := mkPortInfo (hi_name host) port]> portMap)
      else inl [OtherError "host is not marked for launching"]
    end
  end.

Section dockerfile.
Context (getDockerfile : string -> option string).
(** [customDockerfile] is whether there is a Dockerfile beside the challenge,
    [custom] what reading it comes to. *)
Definition dockerfileOf (customDockerfile : bool) (custom : error + string) (md : ChallengeMetadata) : error + string :=
  if decide (cm_challengeType md = ""%string) then inl [OtherError "missing the challenge type"]
  else if decide (cm_challengeType md = "custom"%string) then
    if customDockerfile then custom else inl [OtherError "'custom' challenge type is missing 'Dockerfile'"]
  else if customDockerfile then inl [OtherError "'Dockerfile' forbidden except for 'custom' challenge type"]
  else match getDockerfile (cm_challengeType md) with None => inl [OtherError "unrecognized type"] | Some d => inr d end.
Definition hostsOf (dockerfile : string) (hostNames : list HostInfo) : error + list HostInfo :=
  match
    match findFirst launchDirectiveRe dockerfile with
    | None => inr (drop (pred (length hostNames)) hostNames)
    | Some (_, _, _, g) => launchHosts hostNames (FindAllString launchRe (default ""%string (g !! 1%nat)))
    end
  with
  | inl err => inl err
  | inr hostArray => inr (if decide ("builder"%string ∈ hi_target <$> hostNames) then builderHost :: hostArray else hostArray)
  end.
Definition processDockerfile (customDockerfile : bool) (custom : error + string) (md : ChallengeMetadata) : error + ChallengeMetadata :=
  match dockerfileOf customDockerfile custom md with
  | inl err => inl err
  | inr dockerfile =>
    if decide (dockerfile = ""%string) then inl [OtherError "could not find valid Dockerfile"]
    else
      let stages := FindAll tgtRe dockerfile in
      if decide (length stages = O) then inl [OtherError "could not find 'FROM' line in Dockerfile"]
      else
        let hostNames := stageHosts stages in
        match hostsOf dockerfile hostNames with
        | inl err => inl err
        | inr hosts =>
          match publishPorts stages hostNames 0 (FindAll publishRe dockerfile) (cm_portMap md) with
          | inl err => inl err
          | inr portMap =>
            if decide (Forall (fun host => host = ""%string \/ host ∈ hi_name <$> hostNames) (map_to_list (cho_overrides (cm_options md))).*1) then
              inr (md <| cm_hosts := hosts |> <| cm_portMap := portMap |>
                      <| cm_deliveryType := deriveDeliveryType (cm_challengeType md) (size portMap) |>)
            else inl [OtherError "container options for a host which is not present in Dockerfile"]
          end
        end
  end.
End dockerfile.

(** ** Templates in a challenge's texts *)
Definition dq : string := String (ascii_of_nat 34) "".
Definition cQuote : cregex := CClass isQuote.
Definition cSpaces : cregex := CStar cSpace.
(** In double braces, white space within. *)
Definition braced (body : list cregex) : cregex := CSeqs ([CText "{{"; cSpaces] ++ body ++ [CText "}}"]).
Definition cQuoted (a : cregex) : cregex := CSeqs [cQuote; a; cQuote].
Definition cComma : cregex := CSeq (CText ",") cSpaces.
Definition filenamePattern : cregex := CPlus (CClass isFilename).
Definition displayTextPattern : cregex := CPlus (CClass (fun c => negb (bool_decide (c ∈ ["<"; ">"]%char) || isQuote c))).
Definition urlPathChar (c : ascii) : bool :=
  wordChar c || bool_decide (c ∈ ["%"; "/"; "="; "?"; "+"; "&"; "#"; "!"; "."; ","; "-"]%char).
Definition urlPathPattern (n : nat) : cregex := CSeq (COpt (CText "/")) (CGroup n (CStar (CClass urlPathChar))).

Definition templateRe : cregex := CSeqs [CText "{{"; CStar (CClass (fun c => negb (bool_decide (c = "}"%char)))); CText "}}"].
Definition urlRe : cregex := braced [CText "url("; cQuoted (CGroup 1 filenamePattern); CText ")"; cSpaces].
Definition urlForRe : cregex :=
  braced [CText "url_for("; cQuoted (CGroup 1 filenamePattern); cComma; cQuoted (CGroup 2 displayTextPattern); CText ")"; cSpaces].
Definition shortUrlForRe : cregex := braced [CText "url_for("; cQuoted (CGroup 1 filenamePattern); CText ")"; cSpaces].
Definition portCallRe (function : string) : cregex := braced [CText function; CText "("; cQuoted (CGroup 1 cWord); CText ")"; cSpaces].
Definition shortRe (function : string) : cregex := braced [CText function; cSpaces].
Definition httpBaseRe : cregex := portCallRe "http_base".
Definition shortHttpBaseRe : cregex := shortRe "http_base".
Definition portRe : cregex := portCallRe "port".
Definition shortPortRe : cregex := shortRe "port".
Definition serverRe : cregex := portCallRe "server".
Definition shortServerRe : cregex := shortRe "server".
Definition lookupRe : cregex := portCallRe "lookup".
Definition linkRe : cregex := braced [CText "link("; cQuoted (CGroup 1 cWord); cComma; cQuoted (urlPathPattern 2); CText ")"; cSpaces].
Definition shortLinkRe : cregex := braced [CText "link("; cQuoted (urlPathPattern 1); CText ")"; cSpaces].
Definition linkAsRe : cregex :=
  braced [CText "link_as("; cQuoted (CGroup 1 cWord); cComma; cQuoted (urlPathPattern 2); cComma; cQuoted (CGroup 3 displayTextPattern); cSpaces; CText ")"].
Definition shortLinkAsRe : cregex :=
  braced [CText "link_as("; cQuoted (urlPathPattern 1); cComma; cQuoted (CGroup 2 displayTextPattern); cSpaces; CText ")"].

(** The replacement of a call: its arguments quoted and set apart by commas. *)
Fixpoint callArgs (args : list piece) : list piece :=
  match args with
  | [] => []
  | [a] => [Lit dq; a; Lit dq]
  | a :: args => Lit dq :: a :: Lit (dq +:+ ", ")%string :: callArgs args
  end.
Definition call (function : string) (args : list piece) : list piece :=
  Lit ("{{" +:+ function +:+ "(")%string :: callArgs args ++ [Lit ")}}"%string].
(** An anchor to a path at the port's server. *)
Definition linkTo (display : list piece) : list piece :=
  [Lit "<a href='"%string] ++ call "http_base" [Ref 1] ++ [Lit ":"%string] ++ call "port" [Ref 1] ++ [Lit "/"%string; Ref 2; Lit "' target='_blank'>"%string] ++
  display ++ [Lit "</a>"%string].

Section validate.
Context (portMap : gmap string PortInfo).
(** [base_msg]: a short form where there is not one port. *)
Definition shortForms : list cregex := [shortUrlForRe; shortHttpBaseRe; shortPortRe; shortServerRe; shortLinkRe; shortLinkAsRe].
Definition shortProblems (s : string) : list error :=
  mjoin ((fun r => (fun _ => [OtherError "cannot use a short form"]) <$> FindAllString r s) <$> shortForms).
Definition lengthen (portName s : string) : string :=
  let s := ReplaceAllString shortHttpBaseRe (call "http_base" [Lit portName]) s in
  let s := ReplaceAllString shortPortRe (call "port" [Lit portName]) s in
  let s := ReplaceAllString shortServerRe (call "server" [Lit portName]) s in
  let s := ReplaceAllString shortLinkRe (call "link" [Lit portName; Ref 1]) s in
  ReplaceAllString shortLinkAsRe (call "link_as" [Lit portName; Ref 1; Ref 2]) s.
Definition anchors (s : string) : string :=
  let s := ReplaceAllString urlForRe ([Lit "<a href='"%string] ++ call "url" [Ref 1] ++ [Lit "' download>"%string; Ref 2; Lit "</a>"%string]) s in
  let s := ReplaceAllString linkRe (linkTo [Lit "/"%string; Ref 2]) s in
  ReplaceAllString linkAsRe (linkTo [Ref 3]) s.
Definition group1 (r : cregex) (s : string) : option string :=
  match findFirst r s with Some (_, _, _, g) => Some (default ""%string (g !! 1%nat)) | None => None end.

(** One template: its problem, or the port it shows. *)
Definition checkTemplate (tmpl : string) : error + option string :=
  if MatchString urlRe tmpl || MatchString lookupRe tmpl then inr None
  else
    let '(res, isPortRef) :=
      match group1 httpBaseRe tmpl with
      | Some name => (Some name, false)
      | None => match group1 portRe tmpl with Some name => (Some name, true) | None => (group1 serverRe tmpl, false) end
      end in
    match res with
    | None => inl [OtherError "unrecognized template string"]
    | Some name =>
      if decide (portMap = ∅) then inl [OtherError "unrecognized template string"]
      else if decide (is_Some (portMap !! name)) then inr (if isPortRef then Some name else None)
      else inl [OtherError "unrecognized port in template"]
    end.
Definition checkTemplates (s : string) : list error * gset string :=
  let rs := checkTemplate <$> FindAllString templateRe s in
  (omap (fun r => match r with inl err => Some err | inr _ => None end) rs,
   list_to_set (omap (fun r => match r with inr port => port | inl _ => None end) rs)).
(** A text in its normal form, its problems and the ports it shows. *)
Definition normalizeAndCheckTemplated (s : string) : string * list error * gset string :=
  let s := ReplaceAllString shortUrlForRe (call "url_for" [Ref 1; Ref 1]) s in
  let '(s, short) :=
    match map_to_list portMap with
    | [(portName, _)] => (lengthen portName s, [])
    | _ => (s, shortProblems s)
    end in
  let s := anchors s in
  let '(problems, shown) := checkTemplates s in
  (s, short ++ problems, shown).
End validate.

(** ** Container options *)
Definition droppable_capabilities : list string :=
  ["CAP_ALL"; "CAP_AUDIT_WRITE"; "CAP_CHOWN"; "CAP_DAC_OVERRIDE"; "CAP_FOWNER"; "CAP_FSETID"; "CAP_KILL"; "CAP_MKNOD";
   "CAP_NET_BIND_SERVICE"; "CAP_NET_RAW"; "CAP_SETFCAP"; "CAP_SETGID"; "CAP_SETPCAP"; "CAP_SETUID"; "CAP_SYS_CHROOT"]%string.
Definition namespaceRe : regex :=
  ROpt (RSeq (RPlus (RClass lowerAlnum)) (RStar (RSeq (RChar "/") (RPlus (RClass lowerAlnum))))).

Section metadata.
(** The parsers of other packages, the name [units.ParseUlimit] finds, the JSON
    decoder and the file answers for a host's profile, and the order a map of
    options is gone through in. *)
Context (p : Parsers) (ulimitName : string -> string) (decode : string -> option seccompProfile) (profileFiles : string -> fileAnswers).
Context (order : gmap string ContainerOptions -> list string).

Definition problemIf (b : bool) (what : string) : list error := if b then [[OtherError what]] else [].
(** [ParseUlimit] gives no limit with its error, and its name is then asked for:
    [None] is that panic. *)
Fixpoint checkUlimits (ulimits : list string) : option (list error) :=
  match ulimits with
  | [] => Some []
  | u :: ulimits =>
    if ParseUlimit p u then
      problems ← checkUlimits ulimits;
      Some (problemIf (bool_decide (ulimitName u = "nproc"%string)) "nproc ulimits are not supported" ++ problems)
    else None
  end.
Definition droppable (cap : string) : bool :=
  bool_decide (cap ∈ droppable_capabilities) || bool_decide (("CAP_" +:+ cap)%string ∈ droppable_capabilities).
Definition checkOptions (host : string) (opts : ContainerOptions) : option (list error * ContainerOptions) :=
  let '(seccomp, seccompProblems) :=
    match co_seccomp opts with
    | None => (None, [])
    | Some sc => let '(sc, err) := resolve decode (profileFiles host) sc in (Some sc, option_list err)
    end in
  ulimitProblems ← checkUlimits (co_ulimits opts);
  Some (seccompProblems ++
        problemIf (negb (bool_decide (co_cpus opts = ""%string)) && match parseNanoCPUs p (co_cpus opts) with inl _ => true | inr _ => false end) "cpus" ++
        problemIf (negb (bool_decide (co_memory opts = ""%string)) && negb (bool_decide (is_Some (RAMInBytes p (co_memory opts))))) "memory" ++
        ulimitProblems ++
        problemIf (bool_decide (co_pidsLimit opts < -1)) "invalid pidslimit container option" ++
        mjoin ((fun cap => problemIf (negb (droppable cap)) "invalid DroppedCaps container option") <$> co_droppedCaps opts) ++
        problemIf (negb (bool_decide (co_diskQuota opts = ""%string)) && negb (bool_decide (is_Some (RAMInBytes p (co_diskQuota opts))))) "DiskQuota",
        opts <| co_seccomp := seccomp |>).
(** The profile a host's options name is resolved in place. *)
Fixpoint checkOverrides (hosts : list string) (overrides : gmap string ContainerOptions) : option (list error * gmap string ContainerOptions) :=
  match hosts with
  | [] => Some ([], overrides)
  | host :: hosts =>
    match overrides !! host with
    | None => checkOverrides hosts overrides
    | Some opts =>
      '(problems, opts) ← checkOptions host opts;
      '(rest, overrides) ← checkOverrides hosts (<[host := opts]> overrides);
      Some (problems ++ rest, overrides)
    end
  end.

(** Connection details are for the details and the hints. *)
Definition descriptionForms : list cregex :=
  [httpBaseRe; shortHttpBaseRe; portRe; shortPortRe; serverRe; shortServerRe; linkRe; shortLinkRe].
Definition descriptionProblems (description : string) : list error :=
  mjoin ((fun r => problemIf (negb (bool_decide (FindAllString r description = []))) "not allowed in the 'description' field") <$> descriptionForms).
Fixpoint normalizeHints (portMap : gmap string PortInfo) (hints : list string) : list string * list error * gset string :=
  match hints with
  | [] => ([], [], ∅)
  | hint :: hints =>
    let '(hint, problems, shown) := normalizeAndCheckTemplated portMap hint in
    let '(hints, problems', shown') := normalizeHints portMap hints in
    (hint :: hints, problems ++ problems', shown ∪ shown')
  end.
(** Every problem in the order it is reported; the last is what is returned.
    The challenge-wide options share their seccomp block with those of "". *)
Definition validateMetadata (md : ChallengeMetadata) : option (list error * ChallengeMetadata) :=
  let portMap := cm_portMap md in
  let '(description, p1, shown1) := normalizeAndCheckTemplated portMap (cm_description md) in
  let '(details, p2, shown2) := normalizeAndCheckTemplated portMap (cm_details md) in
  let '(hints, p3, shown3) := normalizeHints portMap (cm_hints md) in
  let unshown := elements (dom portMap ∖ (shown1 ∪ shown2 ∪ shown3)) in
  '(p4, overrides) ← checkOverrides (order (cho_overrides (cm_options md))) (cho_overrides (cm_options md));
  let container := cho_container (cm_options md) in
  let container := match overrides !! ""%string, co_seccomp container with
                   | Some o, Some _ => container <| co_seccomp := co_seccomp o |>
                   | _, _ => container
                   end in
  Some (problemIf (bool_decide (cm_name md = ""%string)) "challenge file missing name" ++
        problemIf (negb (re_match namespaceRe (cm_namespace md))) "invalid namespace" ++
        descriptionProblems (cm_description md) ++ p1 ++ p2 ++ p3 ++
        ((fun _ => [OtherError "published but not referenced"]) <$> unshown) ++ p4,
        md <| cm_description := description |> <| cm_details := details |> <| cm_hints := hints |>
           <| cm_options := mkChallengeOptions container overrides |>).

(** ** Loading a challenge *)
Context (unicodeLower : string -> string) (getDockerfile : string -> option string).

Definition withoutEmptySeccomp (opts : ContainerOptions) : ContainerOptions :=
  match co_seccomp opts with
  | Some sc => if decide (sc_profile sc = ""%string) then opts <| co_seccomp := None |> else opts
  | None => opts
  end.
Definition challengeName (md : ChallengeMetadata) : string :=
  sanitizeName unicodeLower (if decide (cm_id md = ""%string) then cm_name md else cm_id md).
(** What is filled in before the Dockerfile is looked at; [solver] is whether
    the directory of a solver is there. *)
Definition prepareChallenge (path : string) (solver : bool) (md : ChallengeMetadata) : ChallengeMetadata :=
  let prefix := if decide (cm_namespace md = ""%string) then ""%string else (cm_namespace md +:+ "/")%string in
  let options := cm_options md in
  let overrides := <[""%string := cho_container options]> (cho_overrides options) in
  md <| cm_id := (prefix +:+ challengeName md)%string |> <| cm_path := Dir path |> <| cm_solveScript := solver |>
     <| cm_options := mkChallengeOptions (withoutEmptySeccomp (cho_container options)) (withoutEmptySeccomp <$> overrides) |>.
(** [read] is what the Markdown file comes to. *)
Definition loadChallenge (path name : string) (read : error + option ChallengeMetadata) (solver customDockerfile : bool) (custom : error + string)
    : option (error + option ChallengeMetadata) :=
  match (if decide (name = "problem.md"%string) then read else inr None) with
  | inl err => Some (inl err)
  | inr None => Some (inr None)
  | inr (Some md) =>
    match processDockerfile getDockerfile customDockerfile custom (prepareChallenge path solver md) with
    | inl err => Some (inl err)
    | inr md =>
      '(problems, md) ← validateMetadata md;
      Some (match last problems with Some err => inl err | None => inr (Some md) end)
    end
  end.
End metadata.

(** ** Stages, hosts and ports *)

(** The stage a position is in: as many stages after the first as start before
    it. *)
Definition stageAt (stages : list found) (pos : nat) : nat := length (filter (fun st => (fd_start st < pos)%nat) (tail stages)).
Lemma filter_late f l pos : Forall (fun g => (fd_start f < fd_start g)%nat) l -> ~ (fd_start f < pos)%nat ->
  filter (fun st => (fd_start st < pos)%nat) l = [].
Proof. intros Hf Hd. induction Hf as [|g l Hg _ IH]; [done|]. rewrite filter_cons_False by lia. done. Qed.
Lemma sorted_before l pos i st : StronglySorted (fun f g => (fd_start f < fd_start g)%nat) l -> l !! i = Some st ->
  ((fd_start st < pos)%nat <-> (i < length (filter (fun st => (fd_start st < pos)%nat) l))%nat).
Proof.
  intros Hs. revert i. induction Hs as [|f l Hs IH Hf]; intros i Hi; [done|]. rewrite filter_cons. destruct i as [|i]; simpl in Hi.
  - simplify_eq. case_decide; simpl; [lia|]. rewrite filter_late with (f := st) by done. simpl. lia.
  - rewrite (IH i Hi). case_decide as Hd; simpl; [lia|]. rewrite filter_late with (f := f) by done. simpl. lia.
Qed.
Lemma advance_stage stages pos fuel idx : StronglySorted (fun f g => (fd_start f < fd_start g)%nat) stages ->
  (idx <= stageAt stages pos <= idx + fuel)%nat -> advance fuel stages idx pos = stageAt stages pos.
Proof.
  intros Hs. revert idx. induction fuel as [|fuel IH]; intros idx Hk; simpl; [lia|].
  assert (StronglySorted (fun f g => (fd_start f < fd_start g)%nat) (tail stages)) as Ht by (destruct Hs; [constructor|done]).
  assert (stages !! S idx = tail stages !! idx) as -> by (by destruct stages).
  destruct (tail stages !! idx) as [st|] eqn:E.
  - pose proof (sorted_before _ pos _ _ Ht E) as Hb. fold (stageAt stages pos) in Hb. case_decide; [apply IH; lia|lia].
  - apply lookup_ge_None in E. pose proof (length_filter (fun st => (fd_start st < pos)%nat) (tail stages)). unfold stageAt in *. lia.
Qed.
Lemma stageAt_mono stages pos pos' : (pos <= pos')%nat -> (stageAt stages pos <= stageAt stages pos')%nat.
Proof.
  intros H. unfold stageAt. induction (tail stages) as [|st l IH]; [done|]. rewrite !filter_cons. repeat case_decide; simpl; lia.
Qed.
Lemma stageAt_bound stages pos : (stageAt stages pos <= length stages)%nat.
Proof. unfold stageAt. pose proof (length_filter (fun st => (fd_start st < pos)%nat) (tail stages)). destruct stages; simpl in *; lia. Qed.

(** What a directive publishes: the name, and the port at the host of its stage. *)
Definition published (stages : list found) (hostNames : list HostInfo) (d : found) : string * PortInfo :=
  let host := default (mkHostInfo "" "") (hostNames !! stageAt stages (fd_start d)) in
  (default ""%string (fd_groups d !! 2%nat), mkPortInfo (hi_name host) (default 0 (Atoi (default ""%string (fd_groups d !! 1%nat))))).
Definition publishable (stages : list found) (hostNames : list HostInfo) (d : found) : Prop :=
  exists host, hostNames !! stageAt stages (fd_start d) = Some host /\ hi_name host <> ""%string /\ hi_name host <> "builder"%string /\
    is_Some (Atoi (default ""%string (fd_groups d !! 1%nat))).
Definition publish (stages : list found) (hostNames : list HostInfo) (ports : list found) (portMap : gmap string PortInfo) : gmap string PortInfo :=
  foldl (fun m d => let '(name, port) := published stages hostNames d in <[name := port]> m) portMap ports.
(** The one pass over stages and directives finds each directive's stage. *)
Lemma publishPorts_spec stages hostNames ports : StronglySorted (fun f g => (fd_start f < fd_start g)%nat) stages ->
  StronglySorted (fun f g => (fd_start f < fd_start g)%nat) ports -> forall idx portMap, Forall (fun d => (idx <= stageAt stages (fd_start d))%nat) ports ->
  match publishPorts stages hostNames idx ports portMap with
  | inr m => Forall (publishable stages hostNames) ports /\ m = publish stages hostNames ports portMap
  | inl _ => ~ Forall (publishable stages hostNames) ports
  end.
Proof.
  intros Hs Hp. induction Hp as [|d ports _ IH Hd]; intros idx portMap Hidx; simpl; [done|].
  inversion_clear Hidx as [|? ? Hi Hidx']. pose proof (stageAt_bound stages (fd_start d)).
  rewrite advance_stage by (done || lia). 
  assert (~ publishable stages hostNames d -> ~ Forall (publishable stages hostNames) (d :: ports)) as Hbad
    by (intros Hd' Hall; by inversion_clear Hall).
  destruct (Atoi _) as [port|] eqn:Ea; [|apply Hbad; intros (h & ? & ? & ? & [? Hat]); congruence].
  destruct (hostNames !! stageAt stages (fd_start d)) as [host|] eqn:Eh; simpl; [|apply Hbad; intros (h & ? & ?); congruence].
  case_decide as Hn; [apply Hbad; intros (h & ? & ? & ?); congruence|]. case_decide as Hb; [apply Hbad; intros (h & ? & ? & ? & ?); congruence|].
  rewrite decide_True by (by eapply list_elem_of_lookup_2).
  specialize (IH (stageAt stages (fd_start d)) (<[default ""%string (fd_groups d !! 2%nat) := mkPortInfo (hi_name host) port]> portMap)).
  assert (Forall (fun d' => (stageAt stages (fd_start d) <= stageAt stages (fd_start d'))%nat) ports) as Hm
    by (eapply Forall_impl; [exact Hd|]; intros d' Hlt; simpl in Hlt; apply stageAt_mono; lia).
  destruct (publishPorts _ _ _ ports _) as [err|m].
  - intros Hall. inversion_clear Hall as [|? ? _ Hall']. by apply IH.
  - destruct (IH Hm) as [Hall ->]. split; [constructor; [|done]; exists host; rewrite Ea; eauto|done].
Qed.

(** A run of letters is a word. *)
Lemma lang_run P s : all_chars P s = true -> lang (RStar (RClass P)) s.
Proof.
  induction s as [|c s IH]; simpl; [constructor|]. intros [Hc Hs]%andb_true_iff.
  change (String c s) with (String c "" +:+ s)%string. constructor; [by constructor|by apply IH].
Qed.
Lemma word_host s : all_chars wordChar s = true -> s <> ""%string -> validHostName s = true.
Proof.
  intros Hs Hne. apply re_match_lang. destruct s as [|c s]; [done|]. simpl in Hs. apply andb_true_iff in Hs as [Hc Hs].
  change (String c s) with (String c "" +:+ s)%string. apply lang_seq; [by constructor|by apply lang_run].
Qed.
Lemma cWord_word w g g' : cmatch cWord w g g' -> all_chars wordChar w = true /\ w <> ""%string.
Proof. intros (? & ? & _)%cmatch_plus. done. Qed.
Lemma group_word n r w g v : cmatch r w ∅ g -> groupBodies n r = [cWord] -> g !! n = Some v -> all_chars wordChar v = true /\ v <> ""%string.
Proof.
  intros H Hb Hv. destruct (cmatch_groups n _ _ _ _ _ H Hv) as [Hn|(a & g1 & g2 & Ha & Hm)]; [by rewrite lookup_empty in Hn|].
  rewrite Hb in Ha. apply list_elem_of_singleton in Ha as ->. by eapply cWord_word.
Qed.
Lemma stageHosts_length stages : length (stageHosts stages) = length stages.
Proof. induction stages as [|f l IH]; simpl; [done|]. by rewrite IH. Qed.
Lemma stageHost_valid s f last h : f ∈ FindAll tgtRe s -> h = stageHost last f -> hi_name h <> ""%string -> validHostName (hi_name h) = true.
Proof.
  intros Hf%FindAll_match -> . unfold stageHost. simpl. destruct (fd_groups f !! 1%nat) as [v|] eqn:Ev; simpl.
  - destruct (group_word 1 _ _ _ _ Hf eq_refl Ev). rewrite bool_decide_eq_false_2, andb_false_r by done. intros. by apply word_host.
  - by destruct last.
Qed.
Lemma stageHosts_valid s h : h ∈ stageHosts (FindAll tgtRe s) -> hi_name h <> ""%string -> validHostName (hi_name h) = true.
Proof.
  assert (forall l, (forall f, f ∈ l -> f ∈ FindAll tgtRe s) -> h ∈ stageHosts l -> exists f b, f ∈ FindAll tgtRe s /\ h = stageHost b f) as Hl.
  { induction l as [|f l IH]; simpl; [set_solver|]. intros Hin [->|Hh]%elem_of_cons; [eexists f, _; split; [apply Hin; by left|done]|].
    apply IH; [|done]. intros f' ?. apply Hin. by right. }
  intros Hh Hn. destruct (Hl _ (fun f H => H) Hh) as (f & b & Hf & ->). by eapply stageHost_valid.
Qed.
(** The last stage always has a name. *)
Lemma stageHosts_last stages h : last (stageHosts stages) = Some h -> hi_name h <> ""%string.
Proof.
  induction stages as [|f l IH]; [done|]. destruct l as [|f' l]; [|exact IH]. simpl. intros [= <-]. simpl.
  by destruct (decide (default ""%string (fd_groups f !! 1%nat) = ""%string)) as [->|?]; [|rewrite bool_decide_eq_false_2].
Qed.

Lemma launchHosts_spec hostNames launches l : launchHosts hostNames launches = inr l ->
  hi_name <$> l = launches /\ Forall (fun h => h ∈ hostNames) l.
Proof.
  revert l. induction launches as [|launch launches IH]; intros l H; simpl in H; [by simplify_eq|].
  destruct (list_find _ hostNames) as [[i h]|] eqn:E; [|done]. apply list_find_Some in E as (Hi & -> & _).
  destruct (launchHosts hostNames launches) as [err|l']; [done|]. simplify_eq. destruct (IH _ eq_refl) as [<- Hl].
  split; [done|]. constructor; [by eapply list_elem_of_lookup_2|done].
Qed.
Lemma words_word s : Forall (fun w => all_chars wordChar w = true /\ w <> ""%string) (FindAllString launchRe s).
Proof.
  unfold FindAllString. rewrite Forall_fmap. apply Forall_forall. intros f Hf%FindAll_match. by eapply cWord_word.
Qed.
Lemma words_some c s : wordChar c = true -> FindAllString launchRe (String c s) <> [].
Proof.
  intros Hc. unfold FindAllString, FindAll. cbn [String.length cuts].
  pose proof (findFirst_spec launchRe (String c s)) as Hf. destruct (findFirst launchRe (String c s)) as [[[[before w] rest] g]|].
  - destruct Hf as [_ [_ Hw]%cWord_word]. rewrite decide_False by done. by destruct (cuts _ _ _ rest).
  - exfalso. unfold matchAt, launchRe, cWord in Hf. 
    rewrite (bt_plus_greedy wordChar ∅ (fun rest g => Some (rest, g)) (String c s) (dropRun wordChar s, ∅)) in Hf; [done|..].
    all: simpl; by rewrite Hc.
Qed.

(** The hosts a Dockerfile has launched, by name. *)
Definition launchNames (dockerfile : string) (hostNames : list HostInfo) : list string :=
  match findFirst launchDirectiveRe dockerfile with
  | None => option_list (hi_name <$> last hostNames)
  | Some (_, _, _, g) => FindAllString launchRe (default ""%string (g !! 1%nat))
  end.
Lemma drop_last {A} (l : list A) : drop (pred (length l)) l = option_list (last l).
Proof. induction l as [|x [|y l] IH]; [done|done|]. exact IH. Qed.
Lemma launchNames_some dockerfile hostNames : hostNames <> [] -> launchNames dockerfile hostNames <> [].
Proof.
  intros Hne. unfold launchNames. destruct (findFirst _ dockerfile) as [[[[? w] ?] g]|] eqn:E.
  - apply findFirst_match in E. destruct (cmatch_sets 1 _ _ _ _ E eq_refl) as [v Hv]. rewrite Hv. simpl.
    destruct (cmatch_groups 1 _ _ _ _ _ E Hv) as [Hn|(a & g1 & g2 & Ha & Hm)]; [by rewrite lookup_empty in Hn|].
    simpl in Ha. apply list_elem_of_singleton in Ha as ->. apply cmatch_seq in Hm as (x & y & g3 & -> & [Hx Hxne]%cWord_word & _).
    destruct x as [|c x]; [done|]. simpl in Hx. apply andb_true_iff in Hx as [Hc _].
    change ((String c x +:+ y)%string) with (String c (x +:+ y)). by apply words_some.
  - destruct (last hostNames) eqn:El; [done|]. by apply last_None in El.
Qed.
Lemma hostsOf_spec dockerfile hosts : let hostNames := stageHosts (FindAll tgtRe dockerfile) in
  hostNames <> [] -> hostsOf dockerfile hostNames = inr hosts ->
  hi_name <$> hosts = (if decide ("builder"%string ∈ hi_target <$> hostNames) then ["builder"%string] else []) ++ launchNames dockerfile hostNames /\
  Forall (fun h => (h = builderHost \/ h ∈ hostNames) /\ validHostName (hi_name h) = true) hosts.
Proof.
  intros hostNames Hne H. unfold hostsOf in H.
  assert (exists l, hosts = (if decide ("builder"%string ∈ hi_target <$> hostNames) then [builderHost] else []) ++ l /\
    hi_name <$> l = launchNames dockerfile hostNames /\ Forall (fun h => h ∈ hostNames) l /\ Forall (fun h => hi_name h <> ""%string) l) as (l & -> & <- & Hin & Hnn).
  { unfold launchNames. destruct (findFirst _ dockerfile) as [[[[? w] ?] g]|].
    - destruct (launchHosts _ _) as [err|l] eqn:E; [done|]. apply launchHosts_spec in E as [Hn Hl]. exists l. rewrite Hn.
      split_and!; [by case_decide; simplify_eq|done|done|]. rewrite <- (Forall_fmap hi_name (fun n => n <> ""%string)), Hn.
      eapply Forall_impl; [apply words_word|]. by intros ? [_ ?].
    - rewrite drop_last in H. exists (option_list (last hostNames)). destruct (last hostNames) as [h|] eqn:El; [|by apply last_None in El].
      split_and!; [by case_decide; simplify_eq|done|..]; repeat constructor; [by apply last_Some_elem_of|by eapply stageHosts_last]. }
  split; [rewrite fmap_app; by case_decide|]. apply Forall_app. split; [case_decide; repeat constructor; auto; by vm_compute|].
  rewrite Forall_forall in Hin, Hnn |- *. intros h Hh. split; [auto|]. eapply stageHosts_valid; [by apply Hin|by apply Hnn].
Qed.

Lemma processDockerfile_inr getDockerfile customDockerfile custom md md' :
  processDockerfile getDockerfile customDockerfile custom md = inr md' ->
  exists dockerfile, dockerfileOf getDockerfile customDockerfile custom md = inr dockerfile /\
  let stages := FindAll tgtRe dockerfile in
  let hostNames := stageHosts stages in
  let directives := FindAll publishRe dockerfile in
  stages <> [] /\ cm_challengeType md <> ""%string /\
  hi_name <$> cm_hosts md' = (if decide ("builder"%string ∈ hi_target <$> hostNames) then ["builder"%string] else []) ++ launchNames dockerfile hostNames /\
  cm_hosts md' <> [] /\
  Forall (fun h => (h = builderHost \/ h ∈ hostNames) /\ validHostName (hi_name h) = true) (cm_hosts md') /\
  Forall (publishable stages hostNames) directives /\
  md' = md <| cm_hosts := cm_hosts md' |> <| cm_portMap := publish stages hostNames directives (cm_portMap md) |>
           <| cm_deliveryType := deriveDeliveryType (cm_challengeType md) (size (cm_portMap md')) |> /\
  forall host, host ∈ dom (cho_overrides (cm_options md)) -> host = ""%string \/ host ∈ hi_name <$> hostNames.
Proof.
  unfold processDockerfile. destruct (dockerfileOf _ _ _ md) as [err|dockerfile] eqn:Ed; [done|]. case_decide as Hd; [done|].
  case_decide as Hs; [done|]. destruct (hostsOf _ _) as [err|hosts] eqn:Eh; [done|].
  assert (FindAll tgtRe dockerfile <> []) as Hne by (by destruct (FindAll tgtRe dockerfile)).
  assert (stageHosts (FindAll tgtRe dockerfile) <> []) as Hne' by (intros E; apply (f_equal length) in E; rewrite stageHosts_length in E; done).
  pose proof (publishPorts_spec _ (stageHosts (FindAll tgtRe dockerfile)) _ (FindAll_sorted tgtRe dockerfile) (FindAll_sorted publishRe dockerfile) 0 (cm_portMap md)) as Hp.
  destruct (publishPorts _ _ _ _ _) as [err|portMap]; [done|]. destruct Hp as [Hall ->]; [apply Forall_true; lia|].
  case_decide as Ho; [|done]. intros [= <-]. exists dockerfile. split; [done|]. cbn zeta. simpl.
  destruct (hostsOf_spec dockerfile hosts Hne' Eh) as [Hn Hv]. split_and!; try done.
  - unfold dockerfileOf in Ed. intros E. by rewrite E in Ed.
  - intros ->. apply (launchNames_some dockerfile _ Hne'). simpl in Hn. symmetry in Hn. by apply app_eq_nil in Hn as [_ ?].
  - intros host [opts Hh]%elem_of_dom. rewrite Forall_forall in Ho. apply Ho. apply list_elem_of_fmap. exists (host, opts). split; [done|by apply elem_of_map_to_list].
Qed.
Lemma launchHosts_inl hostNames launches err : launchHosts hostNames launches = inl err -> exists w, w ∈ launches /\ w ∉ hi_name <$> hostNames.
Proof.
  induction launches as [|launch launches IH]; simpl; [done|]. destruct (list_find _ hostNames) as [[i h]|] eqn:E.
  - destruct (launchHosts hostNames launches); [|done]. intros [= ->]. destruct (IH eq_refl) as (w & ? & ?). exists w. set_solver.
  - intros _. exists launch. split; [by left|]. apply list_find_None in E. rewrite Forall_forall in E.
    intros (h & -> & Hh)%list_elem_of_fmap. by apply (E h).
Qed.


(** ** Identifiers *)
Definition notUpper (c : ascii) : bool := negb (inRange "A" "Z" c).
Definition dashed (c : ascii) : bool := lowerAlnum c || isDash c.
Lemma dashes_dashed fuel s : all_chars notUpper s = true -> all_chars dashed (dashes fuel s) = true.
Proof.
  revert s. induction fuel as [|fuel IH]; intros [|c s] Hs; [done..|]. cbn [dashes]. destruct (asciiAlnum c) eqn:Ec.
  - simpl in Hs |- *. apply andb_true_iff in Hs as [Hc Hs]. rewrite IH by done. unfold asciiAlnum in Ec. unfold notUpper in Hc. unfold dashed.
    destruct (lowerAlnum c); [done|]. simpl in Ec. by rewrite Ec in Hc.
  - cbn [all_chars]. rewrite (IH (substring _ _ _)); [done|by apply all_chars_substring].
Qed.

Lemma trimRightSet_spec P s : all_chars dashed s = true -> all_chars dashed (trimRightSet P s) = true /\
  match trimRightSet P s with
  | EmptyString => True
  | String c t => startsWith (fun x => bool_decide (x = c)) s = true /\ exists x c', String c t = (x +:+ String c' "")%string /\ P c' = false
  end.
Proof.
  induction s as [|c s IH]; [done|]. simpl. intros [Hc Hs]%andb_true_iff. destruct (IH Hs) as [Ha Hl]. 
  destruct (trimRightSet P s) as [|d t] eqn:E.
  - rewrite bool_decide_eq_true_2 by done. simpl. destruct (P c) eqn:Ep; [done|]. simpl. rewrite Hc. split; [done|].
    split; [by rewrite bool_decide_eq_true_2|]. by exists ""%string, c.
  - rewrite bool_decide_eq_false_2 by done. cbn [andb all_chars]. rewrite Hc. split; [exact Ha|]. split; [by rewrite bool_decide_eq_true_2|].
    destruct Hl as [_ (x & c' & -> & Hp)]. by exists (String c x), c'.
Qed.
Lemma dashed_alnum c : dashed c = true -> isDash c = false -> lowerAlnum c = true.
Proof. unfold dashed. intros H Hd. by rewrite Hd, orb_false_r in H. Qed.
Lemma lower_notUpper s : all_chars notUpper (mapString BasePins.lowerChar s) = true.
Proof.
  induction s as [|c s IH]; [done|]. simpl. rewrite IH, andb_true_r.
  unfold notUpper, inRange, BasePins.lowerChar. change (nat_of_ascii "A") with 65%nat. change (nat_of_ascii "Z") with 90%nat.
  apply negb_true_iff, andb_false_iff. rewrite !Nat.leb_gt. case_decide as Hd; [rewrite nat_ascii_embedding by lia|]; lia.
Qed.
Lemma sanitizeName_lang unicodeLower dirty : (forall s, all_chars notUpper (unicodeLower s) = true) ->
  sanitizeName unicodeLower dirty <> ""%string ->
  lang (RSeq (RClass lowerAlnum) (ROpt (RSeq (RStar (RClass (fun c => lowerAlnum c || bool_decide (c = "-"%char)))) (RClass lowerAlnum))))
    (sanitizeName unicodeLower dirty).
Proof.
  intros Hu. unfold sanitizeName. set (s := BasePins.ToLower unicodeLower dirty).
  assert (all_chars notUpper s = true) as Hs.
  { subst s. unfold BasePins.ToLower. destruct (all_chars isASCII dirty); [apply lower_notUpper|apply Hu]. }
  pose proof (all_chars_dropRun isDash _ _ (dashes_dashed (String.length s) s Hs)) as Hd. pose proof (dropRun_stops isDash (dashes (String.length s) s)) as Hf.
  destruct (trimRightSet_spec isDash _ Hd) as [Ha Hl]. destruct (trimRightSet isDash _) as [|c t]; [done|]. intros _.
  destruct Hl as [Hc (x & c' & Ex & Hc')].
  assert (isDash c = false) as Hcd.
  { destruct (dropRun isDash _) as [|d u]; [done|]. simpl in Hc, Hf. apply bool_decide_eq_true in Hc. by subst. }
  simpl in Ha. apply andb_true_iff in Ha as [Hca Hta].
  change (String c t) with (String c "" +:+ t)%string. apply lang_seq; [constructor; by apply dashed_alnum|].
  destruct x as [|c0 x]; [injection Ex as -> ->; apply lang_alt_l; constructor|].
  change (String c0 x +:+ String c' "")%string with (String c0 (x +:+ String c' "")%string) in Ex. injection Ex as <- ->.
  rewrite all_chars_app in Hta. apply andb_true_iff in Hta as [Hx Hc0]. simpl in Hc0. rewrite andb_true_r in Hc0.
  apply lang_alt_r, lang_seq; [by apply lang_run|constructor; by apply dashed_alnum].
Qed.
(** An identifier made of a namespace and a name is one a hand-over accepts. *)
Lemma made_id namespace name : re_match namespaceRe namespace = true ->
  lang (RSeq (RClass lowerAlnum) (ROpt (RSeq (RStar (RClass (fun c => lowerAlnum c || bool_decide (c = "-"%char)))) (RClass lowerAlnum)))) name ->
  validChallengeId ((if decide (namespace = ""%string) then "" else namespace +:+ "/") +:+ name)%string = true.
Proof.
  intros Hns%re_match_lang Hn. apply re_match_lang. apply lang_seq; [|done]. case_decide as He; [apply lang_alt_l; constructor|].
  apply lang_alt_r. inversion Hns as [| | |? ? ? Hempty|? ? ? Hs| |]; subst; [inversion Hempty; by subst|].
  apply seq_inv in Hs as (x & y & -> & Hx & Hy). rewrite <- append_assoc. apply lang_seq; [done|]. apply lang_seq; [done|].
  by constructor.
Qed.

(** ** What is loaded *)
Section loaded.
Context (p : Parsers) (ulimitName : string -> string) (decode : string -> option seccompProfile) (profileFiles : string -> fileAnswers).
Context (order : gmap string ContainerOptions -> list string) (unicodeLower : string -> string) (getDockerfile : string -> option string).
Context (path name : string) (read : error + option ChallengeMetadata) (solver customDockerfile : bool) (custom : error + string).
Local Abbreviation validate := (validateMetadata p ulimitName decode profileFiles order).

Lemma loadChallenge_inv md :
  loadChallenge p ulimitName decode profileFiles order unicodeLower getDockerfile path name read solver customDockerfile custom = Some (inr (Some md)) -> exists md0 md1, read = inr (Some md0) /\
  processDockerfile getDockerfile customDockerfile custom (prepareChallenge unicodeLower path solver md0) = inr md1 /\ validate md1 = Some ([], md).
Proof.
  unfold loadChallenge. case_decide; [|done]. destruct read as [err|[md0|]]; [done| |done].
  destruct (processDockerfile _ _ _ _) as [err|md1] eqn:E; [done|]. destruct (validate md1) as [[problems md2]|] eqn:Ev; [|done]. simpl.
  destruct (last problems) eqn:El; [done|]. intros [= <-]. apply last_None in El as ->. eauto 10.
Qed.
(** A challenge without problems. *)
Record valid (md md' : ChallengeMetadata) : Prop := {
  vd_name : cm_name md <> ""%string;
  vd_namespace : re_match namespaceRe (cm_namespace md) = true;
  vd_description : descriptionProblems (cm_description md) = [];
  vd_same : md' = md <| cm_description := cm_description md' |> <| cm_details := cm_details md' |> <| cm_hints := cm_hints md' |> <| cm_options := cm_options md' |>;
  vd_texts : exists shown1 shown2 shown3, normalizeAndCheckTemplated (cm_portMap md) (cm_description md) = (cm_description md', [], shown1) /\
    normalizeAndCheckTemplated (cm_portMap md) (cm_details md) = (cm_details md', [], shown2) /\
    normalizeHints (cm_portMap md) (cm_hints md) = (cm_hints md', [], shown3) /\ dom (cm_portMap md) ⊆ shown1 ∪ shown2 ∪ shown3;
  vd_options : checkOverrides p ulimitName decode profileFiles (order (cho_overrides (cm_options md))) (cho_overrides (cm_options md)) =
    Some ([], cho_overrides (cm_options md')) }.
Lemma mjoin_nil {A B} (F : A -> list B) l : mjoin (F <$> l) = [] -> forall x, x ∈ l -> F x = [].
Proof. intros H x Hx. induction Hx as [x l|x y l _ IH]; simpl in H; apply app_eq_nil in H as [? ?]; [done|by apply IH]. Qed.
Lemma problemIf_nil b what : problemIf b what = [] -> b = false.
Proof. by destruct b. Qed.
Lemma validateMetadata_nil md md' : validate md = Some ([], md') -> valid md md'.
Proof.
  unfold validateMetadata. destruct (normalizeAndCheckTemplated _ (cm_description md)) as [[description p1] shown1] eqn:E1.
  destruct (normalizeAndCheckTemplated _ (cm_details md)) as [[details p2] shown2] eqn:E2. destruct (normalizeHints _ _) as [[hints p3] shown3] eqn:E3.
  destruct (checkOverrides _ _ _ _ _ _) as [[p4 overrides]|] eqn:E4; [|done]. simpl. intros [= Hp <-].
  apply app_eq_nil in Hp as [Hn%problemIf_nil Hp]. apply app_eq_nil in Hp as [Hns%problemIf_nil Hp]. apply app_eq_nil in Hp as [Hd Hp].
  apply app_eq_nil in Hp as [-> Hp]. apply app_eq_nil in Hp as [-> Hp]. apply app_eq_nil in Hp as [-> Hp]. apply app_eq_nil in Hp as [Hu ->].
  apply fmap_nil_inv in Hu. apply elements_empty_inv in Hu. split; simpl; try done.
  - by apply bool_decide_eq_false in Hn.
  - by apply negb_false_iff in Hns.
  - exists shown1, shown2, shown3. split_and!; [done|done|done|]. intros x Hx. destruct (decide (x ∈ shown1 ∪ shown2 ∪ shown3)); [done|set_solver].
Qed.

(** C31.  What the loader makes, a hand-over can take: a challenge that loads has
    an identifier of the shape a daemon accepts -- as long as its name leaves
    something of an identifier --, a type, hosts, and host names an image tag
    can carry. *)
Theorem loaded_identity md md0 : (forall s, all_chars notUpper (unicodeLower s) = true) ->
  loadChallenge p ulimitName decode profileFiles order unicodeLower getDockerfile path name read solver customDockerfile custom = Some (inr (Some md)) ->
  read = inr (Some md0) -> challengeName unicodeLower md0 <> ""%string ->
  validChallengeId (cm_id md) = true /\ cm_name md <> ""%string /\ cm_challengeType md <> ""%string /\ cm_hosts md <> [] /\
  Forall (fun h => validHostName (hi_name h) = true) (cm_hosts md).
Proof.
  intros Hu (md0' & md1 & Hr & Hd & Hv)%loadChallenge_inv Hr' Hn. assert (md0' = md0) as -> by congruence.
  apply processDockerfile_inr in Hd as (dockerfile & _ & _ & Ht & _ & Hh & Hf & _ & E1 & _).
  apply validateMetadata_nil in Hv as [Hname Hns _ E2 _ _].
  assert (cm_id md = cm_id (prepareChallenge unicodeLower path solver md0)) as Hid by (by rewrite E2, E1).
  assert (cm_namespace md1 = cm_namespace md0) as Hs by (by rewrite E1).
  assert (cm_challengeType md = cm_challengeType (prepareChallenge unicodeLower path solver md0)) as Hty by (by rewrite E2, E1).
  assert (cm_hosts md = cm_hosts md1 /\ cm_name md = cm_name md1) as [Hho Hna] by (by rewrite E2).
  rewrite Hid, Hna, Hty, Hho. split_and!; [|done|done|done|by eapply Forall_impl; [exact Hf|]; intros h []].
  simpl. apply made_id; [by rewrite <- Hs|]. by apply sanitizeName_lang.
Qed.

(** *** Templates *)
Definition recognised (portMap : gmap string PortInfo) (tmpl : string) : Prop :=
  MatchString urlRe tmpl = true \/ MatchString lookupRe tmpl = true \/
  exists port, (group1 httpBaseRe tmpl = Some port \/ group1 portRe tmpl = Some port \/ group1 serverRe tmpl = Some port) /\ is_Some (portMap !! port).
Definition shows (port text : string) : Prop :=
  exists tmpl, tmpl ∈ FindAllString templateRe text /\ group1 portRe tmpl = Some port.
Lemma checkTemplate_inr portMap tmpl o : checkTemplate portMap tmpl = inr o ->
  recognised portMap tmpl /\ forall port, o = Some port -> group1 portRe tmpl = Some port.
Proof.
  unfold checkTemplate, recognised. destruct (MatchString urlRe tmpl); [intros [= <-]; split; [by auto|done]|]. destruct (MatchString lookupRe tmpl); [intros [= <-]; split; [by auto|done]|]. simpl.
  destruct (group1 httpBaseRe tmpl) as [n|]; [|destruct (group1 portRe tmpl) as [n|]; [|destruct (group1 serverRe tmpl) as [n|]; [|done]]];
    (case_decide; [done|]; case_decide; [|done]; intros [= <-]; split; [eauto 10|naive_solver]).
Qed.
Lemma normalize_nil portMap s s' shown : normalizeAndCheckTemplated portMap s = (s', [], shown) ->
  Forall (recognised portMap) (FindAllString templateRe s') /\ forall port, port ∈ shown -> shows port s'.
Proof.
  unfold normalizeAndCheckTemplated. destruct (match map_to_list portMap with [(portName, _)] => _ | _ => _ end) as [s1 short]. 
  set (s2 := anchors s1). unfold checkTemplates. intros [= <- [_ Hp]%app_eq_nil <-].
  assert (forall tmpl, tmpl ∈ FindAllString templateRe s2 -> exists o, checkTemplate portMap tmpl = inr o) as Hall.
  { intros tmpl Ht. destruct (checkTemplate portMap tmpl) as [err|o] eqn:E; [|eauto]. exfalso.
    assert (err ∈ omap (fun r : error + option string => match r with inl err => Some err | inr _ => None end) (checkTemplate portMap <$> FindAllString templateRe s2)) as Hin.
    { apply list_elem_of_omap. exists (inl err). split; [|done]. rewrite <- E. by apply list_elem_of_fmap_2. }
    rewrite Hp in Hin. by apply elem_of_nil in Hin. }
  split; [apply Forall_forall; intros tmpl Ht; destruct (Hall _ Ht) as [o Ho]; by apply checkTemplate_inr in Ho as [? _]|].
  intros port (r & (tmpl & -> & Ht)%list_elem_of_fmap & Hr)%elem_of_list_to_set%list_elem_of_omap.
  destruct (Hall _ Ht) as [o Ho]. rewrite Ho in Hr. exists tmpl. split; [done|]. apply checkTemplate_inr in Ho as [_ Ho]. by apply Ho.
Qed.
Lemma normalizeHints_nil portMap hints hints' shown : normalizeHints portMap hints = (hints', [], shown) ->
  Forall (fun s => Forall (recognised portMap) (FindAllString templateRe s)) hints' /\
  forall port, port ∈ shown -> exists s, s ∈ hints' /\ shows port s.
Proof.
  revert hints' shown. induction hints as [|hint hints IH]; intros hints' shown; simpl; [intros [= <- <-]; set_solver|].
  destruct (normalizeAndCheckTemplated portMap hint) as [[hint' p1] s1] eqn:E1. destruct (normalizeHints portMap hints) as [[rest p2] s2].
  intros [= <- [-> ->]%app_eq_nil <-]. destruct (IH _ _ eq_refl) as [Hr Hs]. apply normalize_nil in E1 as [H1 Hs1].
  split; [by constructor|]. intros port [Hp|Hp]%elem_of_union; [exists hint'; split; [by left|by apply Hs1]|].
  destruct (Hs port Hp) as (s & Hin & ?). exists s. split; [by right|done].
Qed.

(**  The texts of a challenge that loads can be shown: every template in its
    description, details and hints is one a front end knows how to fill in, with
    the name of a port it publishes where it names one; every port it publishes
    is shown somewhere; and its description, as it was written, gives no
    connection details in the forms that are looked for. *)
Theorem loaded_templates md md0 :
  loadChallenge p ulimitName decode profileFiles order unicodeLower getDockerfile path name read solver customDockerfile custom = Some (inr (Some md)) ->
  read = inr (Some md0) ->
  (forall text, text ∈ cm_description md :: cm_details md :: cm_hints md -> Forall (recognised (cm_portMap md)) (FindAllString templateRe text)) /\
  (forall port, is_Some (cm_portMap md !! port) -> exists text, text ∈ cm_description md :: cm_details md :: cm_hints md /\ shows port text) /\
  (forall form, form ∈ descriptionForms -> FindAllString form (cm_description md0) = []).
Proof.
  intros (md0' & md1 & Hr & Hd & Hv)%loadChallenge_inv Hr'. assert (md0' = md0) as -> by congruence.
  apply processDockerfile_inr in Hd as (dockerfile & _ & _ & _ & _ & _ & _ & _ & E1 & _).
  apply validateMetadata_nil in Hv as [_ _ Hdesc E2 (s1 & s2 & s3 & H1 & H2 & H3 & Hdom) _].
  assert (cm_portMap md = cm_portMap md1) as -> by (by rewrite E2).
  assert (cm_description md1 = cm_description md0) as Hds by (by rewrite E1).
  apply normalize_nil in H1 as [H1 S1]. apply normalize_nil in H2 as [H2 S2]. apply normalizeHints_nil in H3 as [H3 S3]. split_and!.
  - intros text [->|[->|Ht]%elem_of_cons]%elem_of_cons; [done|done|]. rewrite Forall_forall in H3. by apply H3.
  - intros port Hp%elem_of_dom. apply Hdom in Hp as [[Hp|Hp]%elem_of_union|Hp]%elem_of_union.
    + exists (cm_description md). split; [by left|by apply S1].
    + exists (cm_details md). split; [right; by left|by apply S2].
    + destruct (S3 port Hp) as (s & ? & ?). exists s. split; [by do 2 right|done].
  - intros form Hf. rewrite <- Hds. unfold descriptionProblems in Hdesc. 
    destruct (decide (FindAllString form (cm_description md1) = [])) as [|Hne]; [done|]. exfalso.
    pose proof (mjoin_nil _ _ Hdesc form Hf) as Hnil. simpl in Hnil.
    by rewrite bool_decide_eq_false_2 in Hnil.
Qed.

(** *** Options *)
Lemma checkUlimits_parse l problems : checkUlimits p ulimitName l = Some problems -> forallb (ParseUlimit p) l = true.
Proof.
  revert problems. induction l as [|u l IH]; intros problems; simpl; [done|]. destruct (ParseUlimit p u); [|done].
  destruct (checkUlimits _ _ l) as [problems'|]; [|done]. intros _. by apply (IH problems').
Qed.
Lemma checkOptions_nil host opts opts' : checkOptions p ulimitName decode profileFiles host opts = Some ([], opts') ->
  (forall quotas h, exists h', applyOptions p quotas opts' h = inr h') /\
  forall sc', co_seccomp opts' = Some sc' -> exists sc, co_seccomp opts = Some sc /\ resolve decode (profileFiles host) sc = (sc', None).
Proof.
  unfold checkOptions. destruct (match co_seccomp opts with None => _ | Some sc => _ end) as [seccomp sp] eqn:Es.
  destruct (checkUlimits _ _ _) as [up|] eqn:Eu; [|done]. simpl. intros [= Hp <-].
  apply app_eq_nil in Hp as [-> Hp]. apply app_eq_nil in Hp as [Hc%problemIf_nil Hp]. apply app_eq_nil in Hp as [Hm%problemIf_nil _].
  apply checkUlimits_parse in Eu. split.
  - intros quotas h. unfold applyOptions. simpl. rewrite Eu.
    destruct (decide (co_cpus opts = ""%string)) as [|Hne]; [|rewrite bool_decide_eq_false_2 in Hc by done; destruct (parseNanoCPUs _ _); [done|]];
      (destruct (decide (co_memory opts = ""%string)) as [|Hnm]; [by eauto|]);
      rewrite bool_decide_eq_false_2 in Hm by done; apply negb_false_iff, bool_decide_eq_true in Hm as [mem ->]; eauto.
  - simpl. intros sc' ->. destruct (co_seccomp opts) as [sc|]; [|done]. exists sc. split; [done|].
    destruct (resolve decode (profileFiles host) sc) as [sc1 [err|]]; simplify_eq/=; done.
Qed.
Lemma checkOverrides_nil hosts overrides overrides' : NoDup hosts ->
  checkOverrides p ulimitName decode profileFiles hosts overrides = Some ([], overrides') ->
  forall host opts', overrides' !! host = Some opts' ->
    if decide (host ∈ hosts) then exists opts, overrides !! host = Some opts /\ checkOptions p ulimitName decode profileFiles host opts = Some ([], opts')
    else overrides !! host = Some opts'.
Proof.
  intros Hnd. revert overrides. induction Hnd as [|x hosts Hx Hnd IH]; intros overrides; cbn [checkOverrides]; [intros [= <-] host opts' H; by rewrite decide_False by set_solver|].
  destruct (overrides !! x) as [opts|] eqn:Ex; intros H host opts' Ho.
  - destruct (checkOptions _ _ _ _ x opts) as [[p1 opts1]|] eqn:E1; [|done]. simpl in H.
    destruct (checkOverrides _ _ _ _ hosts _) as [[p2 o2]|] eqn:E2; [|done]. simpl in H. injection H as Hp <-. apply app_eq_nil in Hp as [-> ->].
    specialize (IH _ E2 host opts' Ho). destruct (decide (host = x)) as [->|Hne].
    + rewrite decide_False, lookup_insert_eq in IH by done. simplify_eq. rewrite decide_True by set_solver. eauto.
    + rewrite lookup_insert_ne in IH by done. destruct (decide (host ∈ hosts)); [rewrite decide_True by set_solver|rewrite decide_False by set_solver]; done.
  - specialize (IH _ H host opts' Ho). destruct (decide (host = x)) as [->|Hne].
    + rewrite decide_False in IH by done. congruence.
    + destruct (decide (host ∈ hosts)); [rewrite decide_True by set_solver|rewrite decide_False by set_solver]; done.
Qed.
Lemma resolve_profile fs sc sc' err : resolve decode fs sc = (sc', err) -> sc_profile sc' = sc_profile sc.
Proof.
  unfold resolve. simpl. case_decide; [by intros [= <- <-]|]. destruct (readSeccompProfile _ _); [by intros [= <- <-]|].
  destruct (validateSeccompProfile _ _); by intros [= <- <-].
Qed.

(**  The options a challenge loads with can be applied: no container of it
    fails to be configured for its options, whatever the host, and where the
    options that apply to a host declare a seccomp profile, the container runs
    under the text of that profile, which is valid, and not under the default
    policy. *)
Theorem loaded_options md : (forall m, order m ≡ₚ (map_to_list m).*1) -> decode ""%string = None ->
  loadChallenge p ulimitName decode profileFiles order unicodeLower getDockerfile path name read solver customDockerfile custom = Some (inr (Some md)) ->
  forall quotas linux policy host bindings, exists h,
    hostConfig p quotas linux policy (cho_overrides (cm_options md)) host bindings = inr h /\
    forall opts sc, linux = true -> optionsFor (cho_overrides (cm_options md)) host = Some opts -> co_seccomp opts = Some sc ->
      seccompSecurityOpt (sc_effectiveProfile sc) ∈ hc_securityOpt h /\ validateSeccompProfile decode (sc_effectiveProfile sc) = None /\
      sc_profileHash sc = sha256Hex (sc_effectiveProfile sc).
Proof.
  intros Hord Hdec (md0 & md1 & _ & Hd & Hv)%loadChallenge_inv quotas linux policy host bindings.
  apply processDockerfile_inr in Hd as (dockerfile & _ & _ & _ & _ & _ & _ & _ & E1 & _). apply validateMetadata_nil in Hv as [_ _ _ _ _ Ho].
  assert (cm_options md1 = cm_options (prepareChallenge unicodeLower path solver md0)) as Hopt by (by rewrite E1). rewrite Hopt in Ho.
  set (overrides := cho_overrides (cm_options (prepareChallenge unicodeLower path solver md0))) in *.
  assert (forall k o', cho_overrides (cm_options md) !! k = Some o' -> exists o, overrides !! k = Some o /\ checkOptions p ulimitName decode profileFiles k o = Some ([], o')) as Hall.
  { intros k o' Hk. assert (NoDup (order overrides)) as Hnd by (rewrite (Hord overrides); apply NoDup_fst_map_to_list).
    pose proof (checkOverrides_nil _ _ _ Hnd Ho k o' Hk) as Hc. case_decide as Hin; [done|]. exfalso. apply Hin. rewrite (Hord overrides).
    apply list_elem_of_fmap. exists (k, o'). split; [done|by apply elem_of_map_to_list]. }
  assert (forall o', optionsFor (cho_overrides (cm_options md)) host = Some o' -> exists k, cho_overrides (cm_options md) !! k = Some o') as Hfor.
  { unfold optionsFor. intros o'. destruct (_ !! HostConfig.ToLower host) eqn:E; [intros [= <-]; eauto|eauto]. }
  unfold hostConfig. destruct (optionsFor _ host) as [o'|] eqn:Eo; [|eexists; split; [done|]; by intros ? ? _ [=]].
  destruct (Hfor o' eq_refl) as [k Hk]. destruct (Hall k o' Hk) as (o & Hov & Hc). destruct (checkOptions_nil _ _ _ Hc) as [Happ Hsec].
  destruct (Happ quotas (bareHostConfig bindings)) as [h ->]. eexists. split; [done|]. intros opts sc -> [= <-] Hsc.
  destruct (Hsec sc Hsc) as (sc0 & Hsc0 & Hres). pose proof (resolve_profile _ _ _ _ Hres) as Hpr. apply resolve_resolved in Hres; [|done].
  assert (sc_profile sc <> ""%string) as Hne.
  { rewrite Hpr. subst overrides. simpl in Hov. rewrite lookup_fmap in Hov. apply fmap_Some in Hov as (o0 & _ & ->).
    unfold withoutEmptySeccomp in Hsc0. destruct (co_seccomp o0) as [sc1|] eqn:E; [|congruence]. case_decide; simpl in Hsc0; congruence. }
  unfold resolved in Hres. rewrite decide_False in Hres by done. destruct Hres as (Hval & Hh & Hnt). split_and!; [|done|done].
  unfold linuxOptions. simpl. apply elem_of_app. right. unfold profileFor. rewrite Hsc, decide_False by done. by left.
Qed.
End loaded.

(** ** On a small challenge *)
Definition demo_lines (l : list string) : string := String.concat (String newline "") l.
Definition demo_parsers : Parsers := mkParsers (fun _ => true) (fun _ => Some (1, 2)) (fun _ => Some 1024) (fun u => HasPrefix u "nofile=").
Definition demo_files (host : string) : fileAnswers :=
  mkAnswers (inr "/c/wire/strict.json"%string) (inr (mkInfo false true 54 1)) None (inr (mkInfo false true 54 1)) (inr strict_text).
Definition demo_container (ulimits : list string) : ContainerOptions :=
  mkContainerOptions false "0.5" "512m" ulimits 100 false ["CHOWN"]%string true "" "" false (Some (mkSeccomp "strict.json" "" "")).
Definition demo_challenge (name description : string) (ulimits : list string) : ChallengeMetadata :=
  mkChallenge "" name "pico/web" "custom" description "at {{server}}:{{port}}" ["see {{link('/x')}}"]%string 0 0 "" false ∅ [] 0 "" 0 [] ∅
    (mkChallengeOptions (demo_container ulimits) ∅) false DeliveryUnset [].
Definition demo_order (m : gmap string ContainerOptions) : list string := (map_to_list m).*1.
Definition wire_dockerfile : string := demo_lines
  ["FROM ubuntu:24.04 AS base"; "FROM base AS builder"; "FROM base"; "# PUBLISH 8080 AS http"]%string.
Definition demo_load (md : ChallengeMetadata) (dockerfile : string) : option (error + option ChallengeMetadata) :=
  loadChallenge demo_parsers (fun u => u) strict_decode demo_files demo_order (mapString BasePins.lowerChar) (fun _ => None) "/c/wire/problem.md" "problem.md" (inr (Some md)) false true (inr dockerfile).
Definition wire : ChallengeMetadata := demo_challenge "Over  the Wire!" "Get {{ url_for('a.zip') }}" ["nofile=10"]%string.
Lemma wire_loads : exists md, demo_load wire wire_dockerfile = Some (inr (Some md)) /\ cm_id md = "pico/web/over--the-wire"%string /\
  cm_hosts md = [mkHostInfo "builder" "builder"; mkHostInfo "challenge" ""] /\
  cm_details md = ("at {{server(" +:+ dq +:+ "http" +:+ dq +:+ ")}}:{{port(" +:+ dq +:+ "http" +:+ dq +:+ ")}}")%string.
Proof. eexists. split; [vm_compute; reflexivity|]. split_and!; by vm_compute. Qed.
Lemma loaded_identity_witness : exists md, demo_load wire wire_dockerfile = Some (inr (Some md)) /\ validChallengeId (cm_id md) = true.
Proof.
  destruct wire_loads as (md & E & _). exists md. split; [exact E|].
  refine (proj1 (loaded_identity _ _ _ _ _ _ _ _ _ _ _ _ _ md wire _ E eq_refl _)); [exact lower_notUpper|vm_compute; discriminate].
Defined.
Lemma loaded_templates_witness : exists md, demo_load wire wire_dockerfile = Some (inr (Some md)) /\
  Forall (recognised (cm_portMap md)) (FindAllString templateRe (cm_details md)).
Proof.
  destruct wire_loads as (md & E & _). exists md. split; [exact E|].
  refine (proj1 (loaded_templates _ _ _ _ _ _ _ _ _ _ _ _ _ md wire E eq_refl) (cm_details md) _). right. left.
Defined.
Lemma loaded_options_witness : exists md h, demo_load wire wire_dockerfile = Some (inr (Some md)) /\
  hostConfig demo_parsers true true "policy" (cho_overrides (cm_options md)) "challenge" [] = inr h.
Proof.
  destruct wire_loads as (md & E & _). 
  destruct (loaded_options demo_parsers (fun u => u) strict_decode demo_files demo_order (mapString BasePins.lowerChar) (fun _ => None)
    "/c/wire/problem.md" "problem.md" (inr (Some wire)) false true (inr wire_dockerfile) md (fun m => reflexivity _) eq_refl E true true "policy" "challenge" [])
    as (h & Hh & _). exists md, h. split; [exact E|exact Hh].
Defined.

(** A port published in a stage that is not launched is accepted: the check
    meant to refuse it looks among all the stages. *)
Example unlaunched_port_accepted :
  let dockerfile := demo_lines ["FROM ubuntu AS web"; "# PUBLISH 80 AS http"; "FROM ubuntu AS db"; "# LAUNCH db"]%string in
  exists md, processDockerfile (fun _ => None) true (inr dockerfile) wire = inr md /\
    cm_portMap md = {["http"%string := mkPortInfo "web" 80]} /\ cm_hosts md = [mkHostInfo "db" "db"].
Proof. eexists. split; [vm_compute; reflexivity|]. split; by vm_compute. Qed.
(** A ulimit that does not parse is not reported: its name is asked for. *)
Example bad_ulimit_panics : demo_load (demo_challenge "Wire" "" ["bogus"]%string) wire_dockerfile = None.
Proof. by vm_compute. Qed.
(** A name without letters or numerals makes an identifier that is only a
    namespace. *)
Example nameless_id : exists md, demo_load (demo_challenge "???" "" []) wire_dockerfile = Some (inr (Some md)) /\ cm_id md = "pico/web/"%string /\
  validChallengeId (cm_id md) = false.
Proof. eexists. split; [vm_compute; reflexivity|]. split; by vm_compute. Qed.
(** Connection details in a description, in the one form that is not looked for. *)
Example link_as_in_description : exists md, demo_load (demo_challenge "Wire" "go {{link_as('/x', 'here')}}" []) wire_dockerfile = Some (inr (Some md)) /\
  HasPrefix (cm_description md) "go <a href='{{http_base(" = true.
Proof. eexists. split; [vm_compute; reflexivity|]. by vm_compute. Qed.
(** Options for a host are accepted under the name its stage has, and looked up
    under that name in lower case. *)
Example mixed_case_override :
  let opts := mkContainerOptions false "" "" [] 0 true [] false "" "" false None in
  let md := wire <| cm_options := mkChallengeOptions (demo_container []) {["Web"%string := opts]} |> in
  exists md', demo_load md (demo_lines ["FROM ubuntu AS Web"; "# PUBLISH 80 AS http"]%string) = Some (inr (Some md')) /\
    (co_readonlyRootfs <$> cho_overrides (cm_options md') !! "Web"%string) = Some true /\
    (co_readonlyRootfs <$> optionsFor (cho_overrides (cm_options md')) "Web") = Some false.
Proof. eexists. split; [vm_compute; reflexivity|]. split; by vm_compute. Qed.
