(* ===== verification/Markdown.v ===== *)
(** * Markdown: reading a problem.md

    [cork/loader_markdown.go]: the name, the metadata lines and the sections of
    a challenge's file ([loadMarkdownChallenge], [processMarkdownSection],
    [parseHints]), and the conversion of the HTML an author wrote within the
    Markdown ([parseMarkdown], [pairInlineTags]).  Goldmark's tree, the HTML
    tokenizer and converter and the YAML decoder are arguments. *)
From S2P Require Import Prelude Types Settings Text Regex Submatch Artifacts Queue Worker Database Fleet HostConfig Effects Ports Instances Images Sha256 Seccomp Docker Launch Lifecycle Roster Builds Converge Builder Schemas HandOver Preload BasePins Search Files Loader.
Local Open Scope Z_scope.

(** ** HTML within Markdown *)
Record htmlSpan := mkSpan { sp_start : nat; sp_end : nat }.
Inductive tagKind := tagOpen | tagClose | tagSelfClosing.
Record rawTag := mkTag { rt_start : nat; rt_end : nat; rt_name : string; rt_kind : tagKind }.
#[export] Instance tagKind_eq_dec : EqDecision tagKind.
Proof. solve_decision. Defined.
#[export] Instance rawTag_eq_dec : EqDecision rawTag.
Proof. solve_decision. Defined.
Definition tagSpan (t : rawTag) : htmlSpan := mkSpan (rt_start t) (rt_end t).
Definition voidTags : list string :=
  ["area"; "base"; "br"; "col"; "embed"; "hr"; "img"; "input"; "link"; "meta"; "param"; "source"; "track"; "wbr"]%string.

(** The openers, innermost first; [matchOpener] finds the innermost of a name
    and gives the ones below it. *)
Fixpoint matchOpener (name : string) (stack : list rawTag) : option (rawTag * list rawTag) :=
  match stack with
  | [] => None
  | t :: stack => if decide (rt_name t = name) then Some (t, stack) else matchOpener name stack
  end.
Fixpoint pairTags (tags : list rawTag) (stack : list rawTag) (spans : list htmlSpan) : list htmlSpan :=
  match tags with
  | [] => spans ++ (tagSpan <$> reverse stack)
  | t :: tags =>
    match rt_kind t with
    | tagSelfClosing => pairTags tags stack (spans ++ [tagSpan t])
    | tagOpen => pairTags tags (t :: stack) spans
    | tagClose =>
      match matchOpener (rt_name t) stack with
      | Some (opener, below) => pairTags tags below (spans ++ [mkSpan (rt_start opener) (rt_end t)])
      | None => pairTags tags stack (spans ++ [tagSpan t])
      end
    end
  end.
Definition pairInlineTags (tags : list rawTag) : list htmlSpan := pairTags tags [] [].

(** What the walk of Goldmark's tree comes by: blocks of HTML with their lines,
    inline tags with their segments. *)
Inductive htmlNode := HTMLBlock (lines : list htmlSpan) | RawHTML (segments : list htmlSpan).
Inductive tokenType := StartTagToken | SelfClosingTagToken | EndTagToken | OtherToken.

Section html.
Context (unicodeLower : string -> string).
(** Goldmark's tree of a text, the first token of a tag, the converter. *)
Context (nodesOf : string -> list htmlNode) (token : string -> tokenType * string) (convert : string -> error + string).

Definition parseRawTag (content : string) : option (string * tagKind) :=
  let '(type, name) := token content in
  let n := BasePins.ToLower unicodeLower name in
  match type with
  | StartTagToken => Some (n, if decide (n ∈ voidTags) then tagSelfClosing else tagOpen)
  | SelfClosingTagToken => Some (n, tagSelfClosing)
  | EndTagToken => Some (n, tagClose)
  | OtherToken => None
  end.
Definition sliceOf (src : string) (sp : htmlSpan) : string := substring (sp_start sp) (sp_end sp - sp_start sp) src.
Definition blockSpans (n : htmlNode) : list htmlSpan :=
  match n with
  | HTMLBlock lines => match head lines, last lines with Some a, Some b => [mkSpan (sp_start a) (sp_end b)] | _, _ => [] end
  | RawHTML _ => []
  end.
Definition inlineTags (src : string) (n : htmlNode) : list rawTag :=
  match n with
  | HTMLBlock _ => []
  | RawHTML segs => omap (fun seg => match parseRawTag (sliceOf src seg) with
                                     | Some (name, kind) => Some (mkTag (sp_start seg) (sp_end seg) name kind)
                                     | None => None
                                     end) segs
  end.
Definition collectHTMLSpans (src : string) : list htmlSpan :=
  let nodes := nodesOf src in mjoin (blockSpans <$> nodes) ++ pairInlineTags (mjoin (inlineTags src <$> nodes)).

(** By start, the longer first. *)
Definition spanBefore (a b : htmlSpan) : Prop := (sp_start a < sp_start b)%nat \/ sp_start a = sp_start b /\ (sp_end b <= sp_end a)%nat.
#[global] Instance spanBefore_dec a b : Decision (spanBefore a b).
Proof. unfold spanBefore. apply _. Defined.
(** What is kept and what is converted, in order, from the cursor on. *)
Fixpoint spliceSpans (src : string) (cursor : nat) (spans : list htmlSpan) : error + string :=
  match spans with
  | [] => inr (substring cursor (String.length src - cursor) src)
  | sp :: spans =>
    if decide (sp_start sp < cursor)%nat then spliceSpans src cursor spans
    else
      match convert (sliceOf src sp) with
      | inl err => inl err
      | inr converted =>
        match spliceSpans src (sp_end sp) spans with
        | inl err => inl err
        | inr rest => inr (substring cursor (sp_start sp - cursor) src +:+ converted +:+ rest)%string
        end
      end
  end.
Definition parseMarkdown (text : string) : error + string :=
  match spliceSpans text 0 (merge_sort spanBefore (collectHTMLSpans text)) with
  | inl err => inl err
  | inr out => inr (TrimSpace out)
  end.

(** ** Sections *)
Definition cAny : cregex := CClass notNewline.
Definition nameRe : cregex := CSeqs [CText "#"; CStar cSpace; CGroup 1 (CPlus cAny)].
Definition sectionRe : cregex := CSeqs [CText "##"; CStar cSpace; CGroup 1 (CPlus cAny)].
Definition kvLineRe : cregex :=
  CSeqs [CStar cSpace; CText "-"; CStar cSpace; CGroup 1 cWord; CText ":"; CStar cSpace; CGroup 2 (CStar cAny)].
Definition tagLineRe : cregex := CSeqs [CStar cSpace; CText "-"; CStar cSpace; CGroup 1 cWord; CStar cSpace].
(** An expression that begins with [^]. *)
Definition anchored (r : cregex) (s : string) : option groups := snd <$> matchAt r s.
Definition group (n : nat) (g : groups) : string := default ""%string (g !! n).

Definition parseBool (s : string) : bool * option error :=
  let s := BasePins.ToLower unicodeLower s in
  if decide (s ∈ ["yes"; "true"; "1"; "t"; "y"]%string) then (true, None)
  else if decide (s ∈ ["no"; "false"; "0"; "f"; "n"]%string) then (false, None)
  else (false, Some [OtherError "cannot interpret as boolean"]).

(** Taking off four spaces or a tab. *)
Definition unindent (line : string) : string :=
  match CutPrefix line "    " with
  | Some rest => rest
  | None => match line with String c rest => if decide (c = ascii_of_nat 9) then rest else line | EmptyString => line end
  end.
Definition joinLines (l : list string) : string := String.concat (String newline "") l.
(** A hint's lines made a hint, if anything is left of them. *)
Definition addHint (hintLines hints : list string) (err : option error) : list string * option error :=
  match hintLines with
  | [] => (hints, err)
  | _ =>
    let '(hint, err) := match parseMarkdown (joinLines hintLines) with inl e => (""%string, Some e) | inr h => (TrimSpace h, err) end in
    (if decide (hint = ""%string) then hints else hints ++ [hint], err)
  end.
Fixpoint parseHintLines (lines hintLines hints : list string) (err : option error) : list string * option error :=
  match lines with
  | [] => addHint hintLines hints err
  | String "-" rest :: lines =>
    let '(hints, err) := addHint hintLines hints err in parseHintLines lines [TrimSpace rest] hints err
  | rawLine :: lines => parseHintLines lines (hintLines ++ [unindent rawLine]) hints err
  end.
Definition parseHints (lines : list string) : list string * option error := parseHintLines lines [] [] None.

(** *** Metadata lines *)

(** What [strconv.Atoi] gives beside its error: nothing for a text that is no
    number, the nearest [int] for one that is too large. *)
Fixpoint uintVal (acc : Z) (s : string) : option Z :=
  match s with
  | EmptyString => Some acc
  | String c s =>
    match digitVal c with
    | None => None
    | Some d => let v := acc * 10 + d in if decide (2 ^ 64 <= v) then Some (2 ^ 64 - 1) else uintVal v s
    end
  end.
Definition atoiValue (s : string) : Z :=
  let '(neg, digits) :=
    match s with
    | String "-"%char rest => (true, rest)
    | String "+"%char rest => (false, rest)
    | _ => (false, s)
    end in
  if decide (digits = ""%string) then 0
  else match uintVal 0 digits with
       | None => 0
       | Some v => if neg : bool then Z.max (- v) (- two63) else Z.min v (two63 - 1)
       end.
Definition atoiErr (s : string) : option error := match Atoi s with Some _ => None | None => Some [OtherError "Atoi"] end.

Fixpoint readName (lines : list string) : string * list string :=
  match lines with
  | [] => (""%string, [])
  | line :: lines => match anchored nameRe (TrimSpace line) with Some g => (group 1 g, lines) | None => readName lines end
  end.
(** One line of metadata, and the error it leaves in [err]. *)
Definition readField (key value : string) (md : ChallengeMetadata) (err : option error) : ChallengeMetadata * option error :=
  let key := BasePins.ToLower unicodeLower key in
  if decide (key = "id"%string) then (md <| cm_id := value |>, err)
  else if decide (key = "namespace"%string) then (md <| cm_namespace := value |>, err)
  else if decide (key = "type"%string) then (md <| cm_challengeType := value |>, err)
  else if decide (key = "category"%string) then (md <| cm_category := value |>, err)
  else if decide (key = "templatable"%string) then let '(b, err) := parseBool value in (md <| cm_templatable := b |>, err)
  else if decide (key = "points"%string) then (md <| cm_points := atoiValue value |>, atoiErr value)
  else if decide (key = "maxusers"%string) then (md <| cm_maxUsers := atoiValue value |>, atoiErr value)
  else (md, Some [OtherError "unrecognized top-level attribute"]).
Fixpoint readTop (lines : list string) (md : ChallengeMetadata) (err : option error) : list string * ChallengeMetadata * option error :=
  match lines with
  | [] => ([], md, err)
  | raw :: rest =>
    let line := TrimSpace raw in
    match anchored sectionRe line with
    | Some _ => (lines, md, err)
    | None =>
      if decide (line = ""%string) then readTop rest md err
      else
        match anchored kvLineRe line with
        | None => readTop rest md (Some [OtherError "unrecognized metadata text"])
        | Some g => let '(md, err) := readField (group 1 g) (group 2 g) md err in readTop rest md err
        end
    end
  end.

(** *** Sections *)
Context (unmarshal : string -> ChallengeOptions * option error).

Fixpoint readTags (lines tags : list string) (err : option error) : list string * option error :=
  match lines with
  | [] => (tags, err)
  | raw :: lines =>
    let line := TrimSpace raw in
    if decide (line = ""%string) then readTags lines tags err
    else
      match FindStringSubmatch tagLineRe line with
      | None => readTags lines tags (Some [OtherError "unexpected text in 'tags' section"])
      | Some g => readTags lines (tags ++ [group 1 g]) err
      end
  end.
Fixpoint readAttributes (lines : list string) (attributes : gmap string string) (err : option error) : gmap string string * option error :=
  match lines with
  | [] => (attributes, err)
  | raw :: lines =>
    let line := TrimSpace raw in
    if decide (line = ""%string) then readAttributes lines attributes err
    else
      match anchored kvLineRe line with
      | None => readAttributes lines attributes (Some [OtherError "unexpected text in 'attributes' section"])
      | Some g => readAttributes lines (<[group 1 g := group 2 g]> attributes) err
      end
  end.
Definition fence : string := "```".
Definition yamlFence : string := "```yaml".
(** The lines after the last opening fence and up to the last closing one, by
    their numbers in the file; zero is none. *)
Fixpoint fences (i : nat) (lines : list string) (yamlStart yamlEnd : nat) : nat * nat :=
  match lines with
  | [] => (yamlStart, yamlEnd)
  | line :: lines =>
    if decide (line = yamlFence) then fences (S i) lines (S i) yamlEnd
    else if decide (line = fence) then fences (S i) lines yamlStart i
    else fences (S i) lines yamlStart yamlEnd
  end.
(** [lines[start:end]], which panics when they are the wrong way round. *)
Definition slice (lines : list string) (start stop : nat) : option (list string) :=
  if decide (start <= stop <= length lines)%nat then Some (take (stop - start) (drop start lines)) else None.
Definition yamlRange (startIdx endIdx : nat) (body : list string) : nat * nat :=
  let '(yamlStart, yamlEnd) := fences startIdx body 0 0 in
  if decide (yamlStart = O /\ yamlEnd = O) then (startIdx, endIdx)
  else if decide (yamlStart = O \/ yamlEnd = O) then (O, O)
  else (yamlStart, yamlEnd).

(** A section of the file [all], its lines from [startIdx] to [endIdx]; [None] is
    a panic. *)
Definition processMarkdownSection (all : list string) (section : string) (startIdx endIdx : nat) (md : ChallengeMetadata)
    : option (ChallengeMetadata * option error) :=
  let body := take (endIdx - startIdx) (drop startIdx all) in
  let key := BasePins.ToLower unicodeLower section in
  if decide (key = "description"%string) then
    Some (match parseMarkdown (joinLines body) with inl err => (md <| cm_description := ""%string |>, Some err) | inr text => (md <| cm_description := text |>, None) end)
  else if decide (key = "details"%string) then
    Some (match parseMarkdown (joinLines body) with inl err => (md <| cm_details := ""%string |>, Some err) | inr text => (md <| cm_details := text |>, None) end)
  else if decide (key = "hints"%string) then let '(hints, err) := parseHints body in Some (md <| cm_hints := hints |>, err)
  else if decide (key = "tags"%string) then let '(tags, err) := readTags body [] None in Some (md <| cm_tags := tags |>, err)
  else if decide (key = "attributes"%string) then
    let '(attributes, err) := readAttributes body (cm_attributes md) None in Some (md <| cm_attributes := attributes |>, err)
  else if decide (key = "challenge options"%string) then
    let '(yamlStart, yamlEnd) := yamlRange startIdx endIdx body in
    yaml ← slice all yamlStart yamlEnd;
    let '(opts, err) := unmarshal (joinLines yaml) in Some (md <| cm_options := opts |>, err)
  else Some (md <| cm_attributes ::= <[section := TrimSpace (joinLines body)]> |>, None).

(** The first error of a section is the one reported. *)
Definition closeSection (all : list string) (section : string) (startIdx endIdx : nat) (md : ChallengeMetadata) (err : option error)
    : option (ChallengeMetadata * option error) :=
  if decide (section = ""%string) then Some (md, err)
  else
    '(md, err') ← processMarkdownSection all section startIdx endIdx md;
    Some (md, match err with Some e => Some e | None => err' end).
Fixpoint readSections (all lines : list string) (idx : nat) (section : string) (startIdx : nat) (md : ChallengeMetadata) (err : option error)
    : option (ChallengeMetadata * option error) :=
  match lines with
  | [] => closeSection all section startIdx idx md err
  | line :: lines =>
    match anchored sectionRe (TrimSpace line) with
    | None => readSections all lines (S idx) section startIdx md err
    | Some g =>
      '(md, err) ← closeSection all section startIdx idx md err;
      readSections all lines (S idx) (group 1 g) (S idx) md err
    end
  end.
Definition blankChallenge : ChallengeMetadata :=
  mkChallenge "" "" "" "" "" "" [] 0 0 "" false ∅ [] 0 "" 0 [] ∅ (mkChallengeOptions (mkContainerOptions false "" "" [] 0 false [] false "" "" false None) ∅)
    false DeliveryUnset [].
(** The error of a metadata line is left in a variable that the checksum's
    writer then overwrites. *)
Definition loadMarkdownChallenge (path : string) (data : error + string) : option (error + option ChallengeMetadata) :=
  match data with
  | inl err => Some (inl err)
  | inr data =>
    let all := SplitOn newline data in
    let '(name, rest) := readName all in
    let '(sections, md, _) := readTop rest (blankChallenge <| cm_path := path |> <| cm_name := name |>) None in
    '(md, err) ← readSections all sections (length all - length sections) "" 0 md None;
    Some (match err with
          | Some err => inl err
          | None => inr (Some (md <| cm_metadataChecksum := crcSum (crcWrite crcInit (bytesOf (data +:+ path)%string)) |>))
          end)
  end.
End html.

(** ** Spans are nested or apart *)
Definition proper (a : htmlSpan) : Prop := (sp_start a < sp_end a)%nat.
Definition disjointSpans (a b : htmlSpan) : Prop := (sp_end a <= sp_start b)%nat \/ (sp_end b <= sp_start a)%nat.
Definition inside (a b : htmlSpan) : Prop := (sp_start b <= sp_start a)%nat /\ (sp_end a <= sp_end b)%nat.
Definition apart (a b : htmlSpan) : Prop := disjointSpans a b \/ inside a b \/ inside b a.
Definition laminar (l : list htmlSpan) : Prop := forall a b, a ∈ l -> b ∈ l -> apart a b.
Lemma apart_sym a b : apart a b -> apart b a.
Proof. unfold apart, disjointSpans, inside. lia. Qed.
Lemma apart_refl a : apart a a.
Proof. unfold apart, inside. lia. Qed.
Lemma laminar_snoc l a : laminar l -> (forall b, b ∈ l -> apart b a) -> laminar (l ++ [a]).
Proof.
  intros Hl Ha x y [Hx| ->%list_elem_of_singleton]%elem_of_app [Hy| ->%list_elem_of_singleton]%elem_of_app;
    [by apply Hl|by apply Ha|by apply apart_sym, Ha|apply apart_refl].
Qed.

Definition tagBefore (t u : rawTag) : Prop := (rt_end t <= rt_start u)%nat.
(** Where a pairing stands: the tags up to [pos] are on the stack or in a span,
    and no span cuts into a tag on the stack. *)
Record pairing (pos : nat) (stack : list rawTag) (spans : list htmlSpan) : Prop := {
  pg_stack : StronglySorted (fun t u => tagBefore u t) stack;
  pg_open : Forall (fun t => proper (tagSpan t) /\ (rt_end t <= pos)%nat) stack;
  pg_spans : Forall (fun sp => proper sp /\ (sp_end sp <= pos)%nat) spans;
  pg_laminar : laminar spans;
  pg_cross sp t : sp ∈ spans -> t ∈ stack -> disjointSpans sp (tagSpan t) }.
Lemma pairing_span pos stack spans a : pairing pos stack spans -> proper a -> (pos <= sp_end a)%nat ->
  (forall sp, sp ∈ spans -> apart sp a) -> (forall t, t ∈ stack -> disjointSpans a (tagSpan t)) -> pairing (sp_end a) stack (spans ++ [a]).
Proof.
  intros [Hst Ho Hs Hl Hc] Ha Hp Hsp Hstk. split; [done| | |by apply laminar_snoc|].
  - eapply Forall_impl; [exact Ho|]. intros t [? ?]. split; [done|lia].
  - apply Forall_app. split; [eapply Forall_impl; [exact Hs|]; intros sp [? ?]; split; [done|lia]|]. by repeat constructor.
  - intros sp t [Hin| ->%list_elem_of_singleton]%elem_of_app Ht; [by apply Hc|by apply Hstk].
Qed.
Lemma matchOpener_spec name stack t below : matchOpener name stack = Some (t, below) -> exists above, stack = above ++ t :: below.
Proof.
  induction stack as [|u stack IH]; simpl; [done|]. case_decide; [intros [= -> ->]; by exists []|].
  intros (above & ->)%IH. by exists (u :: above).
Qed.
(** A tag after everything so far is a span of its own. *)
Lemma pairing_own pos stack spans t : pairing pos stack spans -> proper (tagSpan t) -> (pos <= rt_start t)%nat -> pairing (rt_end t) stack (spans ++ [tagSpan t]).
Proof.
  intros H Ht Hp. unfold proper in Ht. simpl in Ht. apply (pairing_span pos stack spans (tagSpan t)); [done|done|simpl; lia|..].
  - intros sp Hsp. destruct H as [_ _ Hs _ _]. rewrite Forall_forall in Hs. destruct (Hs sp Hsp). left. left. simpl. lia.
  - intros u Hu. destruct H as [_ Ho _ _ _]. rewrite Forall_forall in Ho. destruct (Ho u Hu). right. simpl. lia.
Qed.
(** A closing tag and its opener, with what was opened in between. *)
Lemma pairing_match pos above opener below spans t : pairing pos (above ++ opener :: below) spans -> proper (tagSpan t) -> (pos <= rt_start t)%nat ->
  let a := mkSpan (rt_start opener) (rt_end t) in
  pairing (rt_end t) below (spans ++ [a]) /\ forall u, u ∈ above ++ [opener; t] -> inside (tagSpan u) a.
Proof.
  intros [Hst Ho Hs Hl Hc] Ht Hp a. unfold proper in Ht. simpl in Ht.
  rewrite Forall_forall in Ho. rewrite Forall_forall in Hs. assert (opener ∈ above ++ opener :: below) as Hin by (apply elem_of_app; right; by left).
  destruct (Ho _ Hin) as [Hop Hope]. unfold proper in Hop. simpl in Hop.
  apply StronglySorted_app in Hst as (Hab & Ha & Hb). inversion_clear Hb as [|? ? Hbel Hlow]. rewrite Forall_forall in Hlow.
  assert (pairing pos below spans) as Hpair.
  { split; [done| |by apply Forall_forall|done|].
    - apply Forall_forall. intros u Hu. apply Ho. apply elem_of_app. right. by right.
    - intros sp u Hsp Hu. apply Hc; [done|]. apply elem_of_app. right. by right. }
  split.
  - apply (pairing_span pos below spans a Hpair); simpl; [unfold proper; simpl; lia|lia|..].
    + intros sp Hsp. destruct (Hs _ Hsp) as [_ He]. destruct (Hc _ _ Hsp Hin) as [?|?]; simpl in *; [left; left|right; left; split]; simpl; lia.
    + intros u Hu. right. simpl. apply (Hlow u Hu).
  - intros u [Hu|[->|[->|Hu]%elem_of_cons]%elem_of_cons]%elem_of_app; [|split; simpl; lia|split; simpl; lia|by apply elem_of_nil in Hu].
    assert (u ∈ above ++ opener :: below) as Hu' by (apply elem_of_app; by left). destruct (Ho _ Hu') as [_ He].
    assert (tagBefore opener u) as Hbe by (apply Hab; [done|by left]). unfold tagBefore in Hbe. split; simpl; lia.
Qed.
(** What a pairing comes to: no two spans cut into each other, every tag is in
    one, and each reaches from a tag to itself or to a later one. *)
Record paired (stack tags : list rawTag) (spans r : list htmlSpan) : Prop := {
  pd_laminar : laminar r;
  pd_proper : Forall proper r;
  pd_keeps sp : sp ∈ spans -> sp ∈ r;
  pd_covers t : t ∈ stack ++ tags -> exists sp, sp ∈ r /\ inside (tagSpan t) sp;
  pd_reach sp : sp ∈ r -> sp ∈ spans \/ exists t u, t ∈ stack ++ tags /\ u ∈ stack ++ tags /\ (t = u \/ tagBefore t u) /\ sp = mkSpan (rt_start t) (rt_end u) }.
Lemma paired_end pos stack spans : pairing pos stack spans -> paired stack [] spans (spans ++ (tagSpan <$> reverse stack)).
Proof.
  intros [Hst Ho Hs Hl Hc]. assert (forall sp, sp ∈ tagSpan <$> reverse stack -> exists t, t ∈ stack /\ sp = tagSpan t) as Hin.
  { intros sp (t & -> & Ht)%list_elem_of_fmap. exists t. by rewrite elem_of_reverse in Ht. }
  split.
  - intros a b [Ha|Ha]%elem_of_app [Hb|Hb]%elem_of_app; [by apply Hl| | |].
    + destruct (Hin _ Hb) as (t & Ht & ->). left. by apply Hc.
    + destruct (Hin _ Ha) as (t & Ht & ->). apply apart_sym. left. by apply Hc.
    + destruct (Hin _ Ha) as (t & Ht & ->). destruct (Hin _ Hb) as (u & Hu & ->). clear -Hst Ht Hu.
      induction Hst as [|x l Hl IH Hx]; [by apply elem_of_nil in Ht|]. rewrite Forall_forall in Hx.
      apply elem_of_cons in Ht as [->|Ht]; apply elem_of_cons in Hu as [->|Hu]; [apply apart_refl|left; right; by apply Hx|left; left; by apply Hx|by apply IH].
  - apply Forall_app. split; [eapply Forall_impl; [exact Hs|]; by intros ? []|]. apply Forall_forall. intros sp Hsp.
    destruct (Hin _ Hsp) as (t & Ht & ->). rewrite Forall_forall in Ho. by apply Ho.
  - intros sp Hsp. apply elem_of_app. by left.
  - intros t. rewrite app_nil_r. intros Ht. exists (tagSpan t). split; [|split; lia]. apply elem_of_app. right. apply list_elem_of_fmap_2. by rewrite elem_of_reverse.
  - intros sp [Hsp|Hsp]%elem_of_app; [by left|]. right. destruct (Hin _ Hsp) as (t & Ht & ->). exists t, t. rewrite app_nil_r. auto.
Qed.
Lemma pairTags_spec tags : forall pos stack spans, pairing pos stack spans -> StronglySorted tagBefore tags ->
  Forall (fun t => proper (tagSpan t) /\ (pos <= rt_start t)%nat) tags -> paired stack tags spans (pairTags tags stack spans).
Proof.
  induction tags as [|t tags IH]; intros pos stack spans Hpair Hs Ht; [by eapply paired_end|].
  inversion_clear Hs as [|? ? Hs' Hlater]. inversion_clear Ht as [|? ? [Hpr Hpos] Ht'].
  assert (Forall (fun u => proper (tagSpan u) /\ (rt_end t <= rt_start u)%nat) tags) as Hnext.
  { rewrite Forall_forall in Ht', Hlater |- *. intros u Hu. split; [by apply Ht'|by apply Hlater]. }
  assert (paired stack tags (spans ++ [tagSpan t]) (pairTags tags stack (spans ++ [tagSpan t]))) as Hown.
  { apply (IH (rt_end t)); [by eapply pairing_own|done|done]. }
  assert (paired stack (t :: tags) spans (pairTags tags stack (spans ++ [tagSpan t]))) as Hself.
  { destruct Hown as [Hl Hp Hk Hc Hr]. split; [done|done| | |].
    - intros sp Hsp. apply Hk, elem_of_app. by left.
    - intros u [Hu|[->|Hu]%elem_of_cons]%elem_of_app; [apply Hc, elem_of_app; by left| |apply Hc, elem_of_app; by right].
      exists (tagSpan t). split; [apply Hk, elem_of_app; right; by left|split; lia].
    - intros sp Hsp. destruct (Hr sp Hsp) as [[?| ->%list_elem_of_singleton]%elem_of_app|(v1 & v2 & Hv1 & Hv2 & Hv & ->)]; [by left|right; exists t, t; set_solver|].
      right. exists v1, v2. set_solver. }
  cbn [pairTags]. destruct (rt_kind t) eqn:Ek; [| |done].
  - destruct Hpair as [Hst Ho Hsp Hlam Hc]. destruct (IH (rt_end t) (t :: stack) spans) as [Hl Hp Hk Hcov Hr]; [|done|done|].
    + assert (forall u, u ∈ stack -> tagBefore u t) as Hb by (intros u Hu; rewrite Forall_forall in Ho; destruct (Ho u Hu); unfold tagBefore; lia).
      unfold proper in Hpr. simpl in Hpr. split; [constructor; [done|by apply Forall_forall]| | |done|].
      * constructor; [split; [done|lia]|]. eapply Forall_impl; [exact Ho|]. intros u [? ?]. split; [done|lia].
      * eapply Forall_impl; [exact Hsp|]. intros u [? ?]. split; [done|lia].
      * intros sp u Hs1 [->|Hu]%elem_of_cons; [|by apply Hc]. rewrite Forall_forall in Hsp. destruct (Hsp sp Hs1). left. simpl. lia.
    + split; [done|done|done| |].
      * intros u Hu. apply Hcov. set_solver.
      * intros sp Hs1. destruct (Hr sp Hs1) as [?|(v1 & v2 & Hv1 & Hv2 & Hv & ->)]; [by left|]. right. exists v1, v2. set_solver.
  - destruct (matchOpener (rt_name t) stack) as [[opener below]|] eqn:Em; [|done]. apply matchOpener_spec in Em as [above ->].
    destruct (pairing_match _ _ _ _ _ _ Hpair Hpr Hpos) as [Hpair' Hins].
    destruct (IH _ _ _ Hpair' Hs' Hnext) as [Hl Hp Hk Hcov Hr].
    assert (mkSpan (rt_start opener) (rt_end t) ∈ pairTags tags below (spans ++ [mkSpan (rt_start opener) (rt_end t)])) as Hnew
      by (apply Hk, elem_of_app; right; by left).
    split; [done|done| | |].
    + intros sp Hs1. apply Hk, elem_of_app. by left.
    + intros u Hu. destruct (decide (u ∈ above ++ [opener; t])) as [Hin|Hout]; [eexists; split; [exact Hnew|by apply Hins]|]. apply Hcov. set_solver.
    + intros sp Hs1. destruct (Hr sp Hs1) as [[?| ->%list_elem_of_singleton]%elem_of_app|(v1 & v2 & Hv1 & Hv2 & Hv & ->)]; [by left| |right; exists v1, v2; set_solver].
      right. exists opener, t. split_and!; [set_solver|set_solver| |done]. right. destruct Hpair as [_ Ho _ _ _]. rewrite Forall_forall in Ho.
      assert (opener ∈ above ++ opener :: below) as Hin by set_solver. destruct (Ho _ Hin). unfold tagBefore. lia.
Qed.

(** ** What is converted *)
Section converted.
Context (unicodeLower : string -> string) (nodesOf : string -> list htmlNode) (token : string -> tokenType * string) (convert : string -> error + string).

(** The text with spans of it replaced, from a position on. *)
Fixpoint weave (src : string) (cursor : nat) (l : list (htmlSpan * string)) : string :=
  match l with
  | [] => substring cursor (String.length src - cursor) src
  | (sp, converted) :: l => (substring cursor (sp_start sp - cursor) src +:+ converted +:+ weave src (sp_end sp) l)%string
  end.
Lemma sorted_inside a b : spanBefore a b -> apart a b -> proper b -> (sp_start b < sp_end a)%nat -> inside b a.
Proof. unfold spanBefore, apart, disjointSpans, inside, proper. lia. Qed.
Lemma spliceSpans_spec src spans : StronglySorted spanBefore spans -> laminar spans -> Forall proper spans -> forall cursor out,
  spliceSpans convert src cursor spans = inr out -> exists l : list (htmlSpan * string),
    out = weave src cursor l /\ Forall (fun p => p.1 ∈ spans /\ (cursor <= sp_start p.1)%nat /\ convert (sliceOf src p.1) = inr p.2) l /\
    StronglySorted (fun p q => (sp_end p.1 <= sp_start q.1)%nat) l /\
    forall sp, sp ∈ spans -> (sp_start sp < cursor)%nat \/ exists p, p ∈ l /\ inside sp p.1.
Proof.
  induction 1 as [|a spans Hs IH Ha]; intros Hl Hp cursor out H; simpl in H.
  { injection H as <-. exists []. split_and!; [done|constructor|constructor|]. intros sp Hsp. by apply elem_of_nil in Hsp. }
  inversion_clear Hp as [|? ? Hpa Hps]. assert (laminar spans) as Hl' by (intros x y Hx Hy; apply Hl; by right).
  specialize (IH Hl' Hps). case_decide as Hd.
  - destruct (IH _ _ H) as (l & -> & Hall & Hsrt & Hcov). exists l. split_and!; [done| |done|].
    + eapply Forall_impl; [exact Hall|]. intros p (? & ? & ?). split_and!; [by right|done|done].
    + intros sp [->|Hsp]%elem_of_cons; [by left|by apply Hcov].
  - destruct (convert (sliceOf src a)) as [err|c] eqn:Ec; [done|]. destruct (spliceSpans convert src (sp_end a) spans) as [err|rest] eqn:Er; [done|].
    injection H as <-. destruct (IH _ _ Er) as (l & -> & Hall & Hsrt & Hcov). exists ((a, c) :: l). unfold proper in Hpa. split_and!; [done| | |].
    + constructor; [split_and!; [by left|simpl; lia|done]|]. eapply Forall_impl; [exact Hall|]. intros p (? & ? & ?). split_and!; [by right|lia|done].
    + constructor; [done|]. eapply Forall_impl; [exact Hall|]. intros p (? & ? & ?). done.
    + intros sp [->|Hsp]%elem_of_cons; [right; exists (a, c); split; [by left|split; simpl; lia]|].
      destruct (Hcov sp Hsp) as [Hlt|(p & Hpl & ?)]; [|right; exists p; split; [by right|done]]. right. exists (a, c). split; [by left|].
      rewrite Forall_forall in Ha. rewrite Forall_forall in Hps. apply sorted_inside; [by apply Ha|apply Hl; [by left|by right]|by apply Hps|done].
Qed.

(** What Goldmark finds in a text: blocks and tags that are apart, the tags in
    the order of the text. *)
Record tree_ok (src : string) : Prop := {
  tr_sorted : StronglySorted tagBefore (mjoin (inlineTags unicodeLower token src <$> nodesOf src));
  tr_tags : Forall (fun t => proper (tagSpan t)) (mjoin (inlineTags unicodeLower token src <$> nodesOf src));
  tr_blocks : Forall proper (mjoin (blockSpans <$> nodesOf src));
  tr_blocks_apart a b : a ∈ mjoin (blockSpans <$> nodesOf src) -> b ∈ mjoin (blockSpans <$> nodesOf src) -> apart a b;
  tr_apart a t : a ∈ mjoin (blockSpans <$> nodesOf src) -> t ∈ mjoin (inlineTags unicodeLower token src <$> nodesOf src) -> disjointSpans a (tagSpan t) }.
Lemma collected src : tree_ok src -> let spans := collectHTMLSpans unicodeLower nodesOf token src in
  laminar spans /\ Forall proper spans /\
  forall t, t ∈ mjoin (inlineTags unicodeLower token src <$> nodesOf src) -> exists sp, sp ∈ spans /\ inside (tagSpan t) sp.
Proof.
  intros [Hs Ht Hb Hba Ha] spans. unfold spans, collectHTMLSpans. set (tags := mjoin (inlineTags _ _ _ <$> _)) in *. set (blocks := mjoin (blockSpans <$> _)) in *.
  assert (paired [] tags [] (pairInlineTags tags)) as [Hl Hp _ Hc Hr].
  { apply (pairTags_spec tags 0); [|done|eapply Forall_impl; [exact Ht|]; intros t ?; split; [done|lia]].
    split; [constructor|constructor|constructor|intros a b Hx; by apply elem_of_nil in Hx|intros sp t Hx; by apply elem_of_nil in Hx]. }
  assert (forall b sp, b ∈ blocks -> sp ∈ pairInlineTags tags -> apart b sp) as Hcross.
  { intros b sp Hbl Hsp. destruct (Hr sp Hsp) as [Hn|(v1 & v2 & Hv1 & Hv2 & Hv & ->)]; [by apply elem_of_nil in Hn|].
    pose proof (Ha b v1 Hbl Hv1) as H1. pose proof (Ha b v2 Hbl Hv2) as H2. rewrite Forall_forall in Hb. specialize (Hb b Hbl).
    rewrite Forall_forall in Ht. pose proof (Ht v1 Hv1). pose proof (Ht v2 Hv2).
    unfold apart, disjointSpans, inside, proper, tagBefore in *. simpl in *. destruct Hv as [->|?]; lia. }
  split_and!.
  - intros x y [Hx|Hx]%elem_of_app [Hy|Hy]%elem_of_app; [by apply Hba|by apply Hcross|by apply apart_sym, Hcross|by apply Hl].
  - by apply Forall_app.
  - intros t Hin. destruct (Hc t Hin) as (sp & ? & ?). exists sp. split; [apply elem_of_app; by right|done].
Qed.

End converted.

(** ** The sections of a file *)
Section sections.
Context (unicodeLower : string -> string) (nodesOf : string -> list htmlNode) (token : string -> tokenType * string) (convert : string -> error + string).
Context (unmarshal : string -> ChallengeOptions * option error).
Local Abbreviation process := (processMarkdownSection unicodeLower nodesOf token convert unmarshal).
Local Abbreviation closing := (closeSection unicodeLower nodesOf token convert unmarshal).
Local Abbreviation reading := (readSections unicodeLower nodesOf token convert unmarshal).

(** A file's sections, each heading with the lines up to the next one; what
    comes before the first heading is not a part of any. *)
Fixpoint splitSections (lines : list string) : list string * list (string * list string) :=
  match lines with
  | [] => ([], [])
  | line :: lines =>
    let '(body, sections) := splitSections lines in
    match anchored sectionRe (TrimSpace line) with
    | None => (line :: body, sections)
    | Some g => ([], (group 1 g, body) :: sections)
    end
  end.
(** A section read by itself, as if it were a file of its lines. *)
Definition processBody (section : string) (body : list string) (md : ChallengeMetadata) : option (ChallengeMetadata * option error) :=
  process (""%string :: body) section 1 (S (length body)) md.
Fixpoint processAll (sections : list (string * list string)) (md : ChallengeMetadata) (err : option error) : option (ChallengeMetadata * option error) :=
  match sections with
  | [] => Some (md, err)
  | (section, body) :: sections =>
    '(md, err') ← processBody section body md;
    processAll sections md (match err with Some e => Some e | None => err' end)
  end.

(** Line numbers further down a file. *)
Definition up (k n : nat) : nat := if decide (n = O) then O else (n + k)%nat.
Lemma fences_up body k i ys ye : (0 < i)%nat ->
  fences (i + k) body (up k ys) (up k ye) = (up k (fences i body ys ye).1, up k (fences i body ys ye).2).
Proof.
  revert i ys ye. induction body as [|line body IH]; intros i ys ye Hi; [done|]. cbn [fences]. repeat case_decide.
  - exact (IH (S i) (S i) ye ltac:(lia)).
  - assert (up k i = (i + k)%nat) as Hu by (unfold up; rewrite decide_False; lia). rewrite <- (IH (S i) ys i), Hu by lia. done.
  - exact (IH (S i) ys ye ltac:(lia)).
Qed.
Lemma fences_bound body i ys ye : (ys <= i + length body)%nat -> (ye <= i + length body)%nat ->
  ((fences i body ys ye).1 <= i + length body)%nat /\ ((fences i body ys ye).2 <= i + length body)%nat.
Proof.
  revert i ys ye. induction body as [|line body IH]; intros i ys ye Hs He; [done|]. cbn [fences length] in *. rewrite <- Nat.add_succ_comm in *.
  repeat case_decide; apply IH; simpl; lia.
Qed.
Lemma slice_body all start stop a b : (0 < start <= stop)%nat -> (stop <= length all)%nat -> (0 < a)%nat -> (b <= S (stop - start))%nat ->
  slice all (a + (start - 1)) (b + (start - 1)) = slice (""%string :: take (stop - start) (drop start all)) a b.
Proof.
  intros Hs Hl Ha Hb. unfold slice. cbn [length]. rewrite length_take, length_drop. repeat case_decide; try lia; [|done]. f_equal.
  destruct a as [|a]; [lia|]. cbn [drop]. replace (b + (start - 1) - (S a + (start - 1)))%nat with (b - S a)%nat by lia.
  rewrite skipn_firstn_comm, take_take, drop_drop. f_equal; [lia|]. f_equal. lia.
Qed.
(** A section is read from its own lines: where it is in the file does not
    matter. *)
Lemma process_body all section start stop md : (0 < start <= stop)%nat -> (stop <= length all)%nat ->
  process all section start stop md = processBody section (take (stop - start) (drop start all)) md.
Proof.
  intros Hs Hl. unfold processBody, processMarkdownSection. set (body := take (stop - start) (drop start all)).
  assert (length body = (stop - start)%nat) as Hlen by (subst body; rewrite length_take, length_drop; lia).
  assert (forall a b, (0 < a)%nat -> (b <= S (length body))%nat -> slice all (a + (start - 1)) (b + (start - 1)) = slice (""%string :: body) a b) as Hslice
    by (intros a b Ha Hb; apply slice_body; lia).
  change (drop 1 (""%string :: body)) with body. replace (S (length body) - 1)%nat with (length body) by lia. rewrite firstn_all. fold body.
  repeat (case_decide; [done|]). case_decide; [|done]. unfold yamlRange.
  pose proof (fences_up body (start - 1) 1 0 0 ltac:(lia)) as Hf. change (up (start - 1) 0) with O in Hf. replace (1 + (start - 1))%nat with start in Hf by lia. rewrite Hf. clear Hf.
  pose proof (fences_bound body 1 0 0) as [Hb1 Hb2]; [lia..|]. destruct (fences 1 body 0 0) as [ys ye]. simpl in Hb1, Hb2 |- *.
  unfold up. destruct (decide (ys = O)) as [->|Hys], (decide (ye = O)) as [->|Hye].
  - rewrite !decide_True by done. rewrite <- (Hslice 1%nat (S (length body))) by lia.
    replace (1 + (start - 1))%nat with start by lia. replace (S (length body) + (start - 1))%nat with stop by lia. done.
  - rewrite !(decide_False (P := _ /\ _)) by lia. rewrite !(decide_True (P := _ \/ _)) by lia. done.
  - rewrite !(decide_False (P := _ /\ _)) by lia. rewrite !(decide_True (P := _ \/ _)) by lia. done.
  - rewrite !(decide_False (P := _ /\ _)) by lia. rewrite !(decide_False (P := _ \/ _)) by lia. by rewrite <- (Hslice ys ye) by lia.
Qed.
Lemma heading_some line g : anchored sectionRe line = Some g -> group 1 g <> ""%string.
Proof.
  unfold anchored. intros ([rest g'] & E & ->)%fmap_Some. apply bt_sound in E as (w & s' & g2 & _ & Hm & [= -> ->]). simpl.
  destruct (cmatch_sets 1 _ _ _ _ Hm eq_refl) as [v Hv]. unfold group. rewrite Hv. simpl.
  destruct (cmatch_groups 1 _ _ _ _ _ Hm Hv) as [Hn|(a & g3 & g4 & Ha & Hc)]; [by rewrite lookup_empty in Hn|].
  simpl in Ha. apply list_elem_of_singleton in Ha as ->. by apply cmatch_plus in Hc as (_ & ? & _).
Qed.
Lemma readSections_spec lines : forall pre section start md err, (section <> ""%string -> (0 < start <= length pre)%nat) ->
  reading (pre ++ lines) lines (length pre) section start md err =
  let '(body, sections) := splitSections lines in
  processAll (if decide (section = ""%string) then sections else (section, drop start pre ++ body) :: sections) md err.
Proof.
  induction lines as [|line lines IH]; intros pre section start md err Hs.
  - simpl. rewrite !app_nil_r. unfold closeSection. case_decide as He; [done|]. specialize (Hs He).
    rewrite process_body by lia. rewrite take_ge by (rewrite length_drop; lia). simpl. by destruct (processBody section _ md) as [[md' err']|].
  - specialize (IH (pre ++ [line])). rewrite <- app_assoc, length_app, Nat.add_1_r in IH. simpl in IH.
    cbn [readSections splitSections]. destruct (splitSections lines) as [body sections] eqn:Esp.
    destruct (anchored sectionRe (TrimSpace line)) as [g|] eqn:Eg.
    + pose proof (heading_some _ _ Eg) as Hg. unfold closeSection. rewrite app_nil_r. destruct (decide (section = ""%string)) as [->|Hne].
      * simpl. rewrite IH by lia. rewrite decide_False by done. by rewrite (drop_ge (pre ++ [line])) by (rewrite length_app; simpl; lia).
      * specialize (Hs Hne). rewrite process_body by (rewrite ?length_app; lia).
        assert (take (length pre - start) (drop start (pre ++ line :: lines)) = drop start pre) as ->.
        { rewrite drop_app_le by lia. apply take_app_length'. rewrite length_drop. lia. }
        simpl. destruct (processBody section _ md) as [[md' err']|]; [|done]. simpl.
        rewrite IH by lia. rewrite decide_False by done. by rewrite (drop_ge (pre ++ [line])) by (rewrite length_app; simpl; lia).
    + rewrite IH by (intros; specialize (Hs ltac:(done)); lia). case_decide as He; [done|]. specialize (Hs He).
      rewrite drop_app_le by lia. by rewrite <- app_assoc.
Qed.
Lemma readName_suffix lines name rest : readName lines = (name, rest) -> exists pre, lines = pre ++ rest.
Proof.
  induction lines as [|line lines IH]; simpl; [intros [= <- <-]; by exists []|]. destruct (anchored nameRe _); [intros [= <- <-]; by exists [line]|].
  intros [pre ->]%IH. by exists (line :: pre).
Qed.
Lemma readTop_suffix lines md err rest md' err' : readTop unicodeLower lines md err = (rest, md', err') -> exists pre, lines = pre ++ rest.
Proof.
  revert md err. induction lines as [|line lines IH]; intros md err; cbn [readTop]; [intros [= <- <- <-]; by exists []|].
  destruct (anchored sectionRe _); [intros [= <- <- <-]; by exists []|]. intros H. enough (exists pre, lines = pre ++ rest) as [pre ->] by (by exists (line :: pre)).
  case_decide; [by eapply IH|]. destruct (anchored kvLineRe _) as [g|]; [|by eapply IH]. destruct (readField _ _ _ _) as [md1 err1]. by eapply IH.
Qed.

(** A challenge file is its name, its metadata lines and its sections, and
    each section is read from its own lines alone: the reader, which goes by
    line numbers in the whole file, gives what reading the sections one by one
    gives, and refuses the file with the first error of a section. *)
Theorem loadMarkdown_sections path data :
  loadMarkdownChallenge unicodeLower nodesOf token convert unmarshal path (inr data) =
  let '(name, rest) := readName (SplitOn newline data) in
  let '(sections, md, _) := readTop unicodeLower rest (blankChallenge <| cm_path := path |> <| cm_name := name |>) None in
  '(md, err) ← processAll (splitSections sections).2 md None;
  Some (match err with
        | Some err => inl err
        | None => inr (Some (md <| cm_metadataChecksum := crcSum (crcWrite crcInit (bytesOf (data +:+ path)%string)) |>))
        end).
Proof.
  unfold loadMarkdownChallenge. destruct (readName (SplitOn newline data)) as [name rest] eqn:En.
  destruct (readTop unicodeLower rest _ None) as [[sections md] err] eqn:Et. apply readName_suffix in En as [pre1 ->]. apply readTop_suffix in Et as [pre2 ->].
  rewrite app_assoc. replace (length ((pre1 ++ pre2) ++ sections) - length sections)%nat with (length (pre1 ++ pre2)) by (rewrite !length_app; lia).
  rewrite readSections_spec by done. by destruct (splitSections sections) as [body l].
Qed.
End sections.

(** ** On small files *)
Definition no_html (s : string) : list htmlNode := [].
Definition no_token (s : string) : tokenType * string := (OtherToken, ""%string).
(** A decoder that knows one document, with a read-only root. *)
Definition demo_yaml (s : string) : ChallengeOptions * option error :=
  (mkChallengeOptions (mkContainerOptions false "" "" [] 0 (bool_decide (s = "readonlyrootfs: true"%string)) [] false "" "" false None) ∅, None).
Definition demo_read (lines : list string) : option (error + option ChallengeMetadata) :=
  loadMarkdownChallenge (fun s => s) no_html no_token inr demo_yaml "/c/wire/problem.md" (inr (joinLines lines)).
Example file_run : exists md,
  demo_read ["# Wire"; ""; "- namespace: pico"; "- type: custom"; "- points: 50"; ""; "## Description"; "Look."; "## Tags"; "- web"; "- easy"; "## Hints"; "- one"; "    more";
             "- two"; "## Attributes"; "- author: me"; "## Challenge Options"; "```yaml"; "readonlyrootfs: true"; "```"; "## Notes"; " text "]%string = Some (inr (Some md)) /\
  cm_name md = "Wire"%string /\ cm_points md = 50 /\ cm_description md = "Look."%string /\ cm_tags md = ["web"; "easy"]%string /\
  cm_hints md = [("one" +:+ String newline "more")%string; "two"%string] /\ cm_attributes md = {["author" := "me"; "Notes" := "text"]}%string /\
  co_readonlyRootfs (cho_container (cm_options md)) = true.
Proof. eexists. split; [vm_compute; reflexivity|]. split_and!; by vm_compute. Qed.
(** A fence that is not closed: the options are taken from no lines at all, and
    the error is overwritten by the success of decoding nothing. *)
Example unclosed_fence : exists md,
  demo_read ["# Wire"; "## Challenge Options"; "```yaml"; "readonlyrootfs: true"]%string = Some (inr (Some md)) /\
  co_readonlyRootfs (cho_container (cm_options md)) = false.
Proof. eexists. split; [vm_compute; reflexivity|]. by vm_compute. Qed.
(** Fences the wrong way round. *)
Example crossed_fences : demo_read ["# Wire"; "## Challenge Options"; "```"; "```yaml"; "readonlyrootfs: true"]%string = None.
Proof. by vm_compute. Qed.
(** Errors of metadata lines are dropped. *)
Example bad_points : exists md, demo_read ["# Wire"; "- points: ten"; "- namspace: pico"]%string = Some (inr (Some md)) /\ cm_points md = 0 /\ cm_namespace md = ""%string.
Proof. eexists. split; [vm_compute; reflexivity|]. split; by vm_compute. Qed.

(** A paragraph with an anchor around bold text. *)
Definition bold_text : string := "a <a><b>x</b></a> z".
Definition bold_tree (s : string) : list htmlNode := [RawHTML [mkSpan 2 5]; RawHTML [mkSpan 5 8]; RawHTML [mkSpan 9 13]; RawHTML [mkSpan 13 17]].
Definition bold_token (s : string) : tokenType * string :=
  if decide (s = "<a>"%string) then (StartTagToken, "a"%string) else if decide (s = "<b>"%string) then (StartTagToken, "b"%string)
  else if decide (s = "</b>"%string) then (EndTagToken, "b"%string) else (EndTagToken, "a"%string).
Definition bold_convert (s : string) : error + string := inr ("[" +:+ s +:+ "]")%string.
Lemma bold_ok : tree_ok (fun s => s) bold_tree bold_token bold_text.
Proof.
  split; vm_compute; [repeat constructor|repeat constructor|constructor|intros a b Ha; by apply elem_of_nil in Ha|intros a t Ha; by apply elem_of_nil in Ha].
Qed.
