(* ===== verification/Metrics.v ===== *)
(** * Metrics: what launches and teardowns are reported as

    The exporter of [cork/launchmetrics.go]: the timer that makes a sample of a
    launch, the queue the samples wait in, and the emitter goroutine that sends
    each as one event in the embedded metric format.  The clock, dialing,
    writing and [encoding/json] are answers of the outside; everything the
    emitter does to the socket and the log is kept in a trace. *)
From S2P Require Import Prelude Types Settings Queue Worker Database Fleet Effects Docker Launch.
Local Open Scope Z_scope.

(** ** Samples *)
Inductive sampleKind := sampleLaunch | sampleTeardown.
Definition launchTriggerRequest : string := "request".
Definition launchTriggerRestart : string := "restart".
Definition launchOK : string := "ok".
Record launchSample := mkSample {
  sm_kind : sampleKind;
  sm_worker : string; sm_workerIP : string;
  sm_challenge : string; sm_build : Z; sm_instance : Z;
  sm_outcome : string;
  sm_total : Z; sm_imageWait : Z; sm_slotWait : Z; sm_netCreate : Z; sm_containers : Z;
  sm_ctrCreate : Z; sm_ctrStart : Z; sm_portRead : Z; sm_finalize : Z;
  sm_ctrCount : Z; sm_waiting : Z; sm_teardownsWaiting : Z; sm_slotsBusy : Z;
  sm_pulled : bool; sm_trigger : string; sm_at : Z }.
#[export] Instance eta_launchSample : Eta launchSample := fun s =>
  mkSample (sm_kind s) (sm_worker s) (sm_workerIP s) (sm_challenge s) (sm_build s) (sm_instance s) (sm_outcome s)
    (sm_total s) (sm_imageWait s) (sm_slotWait s) (sm_netCreate s) (sm_containers s)
    (sm_ctrCreate s) (sm_ctrStart s) (sm_portRead s) (sm_finalize s)
    (sm_ctrCount s) (sm_waiting s) (sm_teardownsWaiting s) (sm_slotsBusy s) (sm_pulled s) (sm_trigger s) (sm_at s).
(** The zero [time.Time], 1 January of the year 1, in nanoseconds from the epoch. *)
Definition zeroTime : Z := -62135596800 * Second.
Definition emptySample : launchSample :=
  mkSample sampleLaunch "" "" "" 0 0 "" 0 0 0 0 0 0 0 0 0 0 0 0 0 false "" zeroTime.

(** ** The timer of a launch *)
Record containerSplits := mkSplits { cs_create : Z; cs_start : Z; cs_portRead : Z; cs_finalize : Z; cs_count : Z }.
(** [ensuredImageWait] and [ensuredPulled] are fields of the limits that only
    the timer reads: what the caller spent on the images before the launch. *)
Record launchTimer := mkTimer {
  tm_limits : launchLimits; tm_ensuredImageWait : Z; tm_ensuredPulled : bool;
  tm_begun : Z; tm_mark : Z; tm_sample : launchSample }.
#[export] Instance eta_launchTimer : Eta launchTimer := fun t =>
  mkTimer (tm_limits t) (tm_ensuredImageWait t) (tm_ensuredPulled t) (tm_begun t) (tm_mark t) (tm_sample t).

Definition valueOr (v fallback : string) : string := if decide (v = ""%string) then fallback else v.
Definition beginLaunch (m : Manager) (now : Z) (build : option BuildMetadata) (instance : InstanceMetadata)
    (limits : launchLimits) (ensuredImageWait : Z) (ensuredPulled : bool) : launchTimer :=
  let '(q, public) := workerDaemon m (im_worker instance) in
  let s := emptySample <| sm_worker := valueOr public (im_worker instance) |>
             <| sm_workerIP := im_worker instance |>
             <| sm_trigger := if ll_restart limits then launchTriggerRestart else launchTriggerRequest |>
             <| sm_instance := im_id instance |> in
  let s := match build with
           | None => s
           | Some b => s <| sm_challenge := bm_challenge b |> <| sm_build := bm_id b |>
           end in
  let s := s <| sm_waiting := (expectedWait (Some q)).2 |> <| sm_slotsBusy := q_launchSem q |>
             <| sm_teardownsWaiting := q_teardownWaiting q |> in
  mkTimer limits ensuredImageWait ensuredPulled (now - ensuredImageWait) now s.

(** Closes the stage that has been running and opens the next. *)
Definition split (now : Z) (t : launchTimer) : Z * launchTimer := (now - tm_mark t, t <| tm_mark := now |>).
Definition images (now : Z) (pulled : bool) (t : launchTimer) : launchTimer :=
  let '(d, t) := split now t in
  let t := t <| tm_sample ::= fun s => s <| sm_imageWait := d |> <| sm_pulled := pulled |> |> in
  if ll_imagesEnsured (tm_limits t)
  then t <| tm_sample ::= fun s => s <| sm_imageWait ::= Z.add (tm_ensuredImageWait t) |> <| sm_pulled := tm_ensuredPulled t |> |>
  else t.
Definition slot (now : Z) (t : launchTimer) : launchTimer :=
  let '(d, t) := split now t in t <| tm_sample ::= fun s => s <| sm_slotWait := d |> |>.
Definition network (now : Z) (t : launchTimer) : launchTimer :=
  let '(d, t) := split now t in t <| tm_sample ::= fun s => s <| sm_netCreate := d |> |>.
Definition containers (now : Z) (c : containerSplits) (t : launchTimer) : launchTimer :=
  let '(d, t) := split now t in
  t <| tm_sample ::= fun s => s <| sm_containers := d |> <| sm_ctrCreate := cs_create c |> <| sm_ctrStart := cs_start c |>
         <| sm_portRead := cs_portRead c |> <| sm_finalize := cs_finalize c |> <| sm_ctrCount := cs_count c |> |>.
(** The sample [finish] files; its part on the ring is [Launch.finish]. *)
Definition finishSample (now : Z) (err : option error) (t : launchTimer) : launchSample :=
  (tm_sample t) <| sm_total := now - tm_begun t |> <| sm_at := now |> <| sm_outcome := launchOutcomeOf err |>.

Record queueDepth := mkDepth { qd_waiting : Z; qd_teardownsWaiting : Z; qd_slotsBusy : Z }.
Definition recordTeardown (depth : queueDepth) (public : string) (instance : InstanceMetadata) (trigger : string)
    (slotWait removal now : Z) (err : option error) : launchSample :=
  emptySample <| sm_kind := sampleTeardown |> <| sm_worker := valueOr public (im_worker instance) |>
    <| sm_workerIP := im_worker instance |> <| sm_instance := im_id instance |> <| sm_outcome := launchOutcomeOf err |>
    <| sm_trigger := trigger |> <| sm_slotWait := slotWait |> <| sm_total := removal |> <| sm_at := now |>
    <| sm_waiting := qd_waiting depth |> <| sm_teardownsWaiting := qd_teardownsWaiting depth |>
    <| sm_slotsBusy := qd_slotsBusy depth |>.
Definition unplacedWorker : string := "unplaced".
Definition recordUnplaced (build : option BuildMetadata) (now : Z) (err : option error) : launchSample :=
  let s := emptySample <| sm_worker := unplacedWorker |> <| sm_outcome := launchOutcomeOf err |>
             <| sm_trigger := launchTriggerRequest |> <| sm_at := now |> in
  match build with None => s | Some b => s <| sm_challenge := bm_challenge b |> <| sm_build := bm_id b |> end.

(** ** The event a sample becomes *)
Record emfMetricDefinition := mkMetric { md_name : string; md_unit : string }.
Record emfMetricDirective := mkDirective {
  dv_namespace : string; dv_dimensions : list (list string); dv_metrics : list emfMetricDefinition }.
Record emfMetadata := mkEmfMetadata { em_timestamp : Z; em_logGroupName : string; em_directives : list emfMetricDirective }.
Record emfEvent := mkEvent {
  ev_aws : emfMetadata; ev_worker : string; ev_workerIP : string;
  ev_launchFailed : Z; ev_launchDuration : Z; ev_imageWait : Z; ev_slotWait : Z; ev_networkCreate : Z; ev_containerStart : Z;
  ev_teardownFailed : Z; ev_teardownDuration : Z; ev_teardownWait : Z;
  ev_dockerCreate : Z; ev_dockerStart : Z; ev_portReadback : Z; ev_finalize : Z;
  ev_operation : string; ev_outcome : string; ev_challenge : string; ev_build : Z; ev_instance : Z;
  ev_waiting : Z; ev_slotsBusy : Z; ev_imagePulled : bool; ev_containerCount : Z; ev_teardownsWaiting : Z; ev_trigger : string }.

Definition perWorkerDimensions : list (list string) := [["Worker"%string]; []].
Definition fleetDimensions : list (list string) := [[]].
Definition ms (name : string) : emfMetricDefinition := mkMetric name "Milliseconds".
Definition counted (name : string) : emfMetricDefinition := mkMetric name "Count".
Definition UnixMilli (t : Z) : Z := t `div` Millisecond.

Definition teardownPayload (logGroup namespace : string) (s : launchSample) (worker : string) : emfEvent :=
  let metrics := [counted "TeardownFailed"] ++
    (if decide (sm_trigger s <> launchTriggerRestart) then [ms "TeardownWait"] else []) ++
    (if decide (sm_outcome s = launchOK) then [ms "TeardownDuration"] else []) in
  mkEvent (mkEmfMetadata (UnixMilli (sm_at s)) logGroup [mkDirective namespace perWorkerDimensions metrics])
    worker (sm_workerIP s) 0 0 0 0 0 0
    (if decide (sm_outcome s = launchOK) then 0 else 1) (Milliseconds (sm_total s)) (Milliseconds (sm_slotWait s))
    0 0 0 0 "teardown" (sm_outcome s) "" 0 (sm_instance s) (sm_waiting s) (sm_slotsBusy s) false 0 (sm_teardownsWaiting s) (sm_trigger s).

Definition stageMetrics : list emfMetricDefinition :=
  ms <$> ["ImageWait"; "SlotWait"; "NetworkCreate"; "ContainerStart"; "DockerCreate"; "DockerStart"; "PortReadback"; "Finalize"]%string.
Definition payload (logGroup namespace : string) (s : launchSample) : emfEvent :=
  let worker := valueOr (sm_worker s) "local" in
  match sm_kind s with
  | sampleTeardown => teardownPayload logGroup namespace s worker
  | sampleLaunch =>
    let fine := bool_decide (sm_outcome s = launchOK) in
    let headline := [counted "LaunchFailed"] ++ (if fine then [ms "LaunchDuration"] else []) in
    let directives := [mkDirective namespace perWorkerDimensions headline] ++
      (if fine then [mkDirective namespace fleetDimensions stageMetrics] else []) in
    mkEvent (mkEmfMetadata (UnixMilli (sm_at s)) logGroup directives) worker (sm_workerIP s)
      (if fine then 0 else 1) (Milliseconds (sm_total s)) (Milliseconds (sm_imageWait s)) (Milliseconds (sm_slotWait s))
      (Milliseconds (sm_netCreate s)) (Milliseconds (sm_containers s)) 0 0 0
      (Milliseconds (sm_ctrCreate s)) (Milliseconds (sm_ctrStart s)) (Milliseconds (sm_portRead s)) (Milliseconds (sm_finalize s))
      "launch" (sm_outcome s) (sm_challenge s) (sm_build s) (sm_instance s) (sm_waiting s) (sm_slotsBusy s) (sm_pulled s)
      (sm_ctrCount s) (sm_teardownsWaiting s) (sm_trigger s)
  end.
(** The members of the JSON object that a metric can be read from, and those a
    dimension can: the tags of [emfEvent]'s fields. *)
Definition numberMembers (e : emfEvent) : list (string * Z) :=
  [("LaunchFailed", ev_launchFailed e); ("LaunchDuration", ev_launchDuration e); ("ImageWait", ev_imageWait e);
   ("SlotWait", ev_slotWait e); ("NetworkCreate", ev_networkCreate e); ("ContainerStart", ev_containerStart e);
   ("TeardownFailed", ev_teardownFailed e); ("TeardownDuration", ev_teardownDuration e); ("TeardownWait", ev_teardownWait e);
   ("DockerCreate", ev_dockerCreate e); ("DockerStart", ev_dockerStart e); ("PortReadback", ev_portReadback e); ("Finalize", ev_finalize e)]%string.
Definition textMembers (e : emfEvent) : list (string * string) := [("Worker", ev_worker e); ("Operation", ev_operation e); ("Outcome", ev_outcome e)]%string.

(** ** The exporter *)
Definition EMF_ENDPOINT_ENV : string := "CORK_EMF_ENDPOINT".
Definition EMF_LOG_GROUP_ENV : string := "CORK_EMF_LOG_GROUP".
Definition EMF_NAMESPACE_ENV : string := "CORK_EMF_NAMESPACE".
Definition emfQueueDepth : nat := 1024.
Definition emfRedialInterval : Z := 30 * Second.
Definition refusedReportInterval : Z := 5 * Minute.
Definition dropReportInterval : Z := Minute.

Record launchMetrics := mkMetrics {
  lm_ch : list launchSample; lm_dropped : Z; lm_sent : Z; lm_panics : Z;
  lm_endpoint : string; lm_logGroup : string; lm_namespace : string;
  lm_conn : bool; lm_nextDial : Z; lm_refused : bool; lm_sinceDial : Z;
  lm_encodeFailed : bool; lm_panicked : bool;
  lm_reportedDrops : Z; lm_nextDropReport : Z; lm_nextRefusedReport : Z }.
#[export] Instance eta_launchMetrics : Eta launchMetrics := fun l =>
  mkMetrics (lm_ch l) (lm_dropped l) (lm_sent l) (lm_panics l) (lm_endpoint l) (lm_logGroup l) (lm_namespace l)
    (lm_conn l) (lm_nextDial l) (lm_refused l) (lm_sinceDial l) (lm_encodeFailed l) (lm_panicked l)
    (lm_reportedDrops l) (lm_nextDropReport l) (lm_nextRefusedReport l).
Definition newLaunchMetrics (env : environ) : option launchMetrics :=
  match LookupEnv env EMF_ENDPOINT_ENV with
  | None => None
  | Some endpoint =>
    if decide (endpoint = ""%string) then None
    else Some (mkMetrics [] 0 0 0 endpoint (valueOr (Getenv env EMF_LOG_GROUP_ENV) "cork") (valueOr (Getenv env EMF_NAMESPACE_ENV) "cork")
                 false zeroTime false 0 false false 0 zeroTime zeroTime)
  end.
(** On the launch goroutine; [None] is the nil exporter. *)
Definition record (s : launchSample) (lm : option launchMetrics) : option launchMetrics :=
  match lm with
  | None => None
  | Some lm => Some (if decide (length (lm_ch lm) < emfQueueDepth)%nat then lm <| lm_ch ::= (.++ [s]) |> else lm <| lm_dropped ::= add64 1 |>)
  end.

(** What the emitter does that can be seen from outside. *)
Inductive exportEvent :=
| Dialed (now : Z) (err : option error)
| Wrote (line : string) (err : option error)
| SocketClosed
| DropsReported (now dropped total : Z)
| RefusalReported (now : Z)
| RecoveryReported
| EncodeReported
| PanicReported.
(** The goroutine: the exporter, the answers of the outside by tick, and the
    trace, the latest first.  A panic of [encode] is [None]. *)
Record Emitter := mkEmitter {
  em_lm : launchMetrics; em_tick : nat; em_now : nat -> Z; em_dial : nat -> option error; em_write : nat -> option error;
  em_trace : list exportEvent }.
#[export] Instance eta_Emitter : Eta Emitter := fun e =>
  mkEmitter (em_lm e) (em_tick e) (em_now e) (em_dial e) (em_write e) (em_trace e).

Section emitter.
Context (encode : emfEvent -> option (error + string)).
Definition clock (e : Emitter) : Z * Emitter := (em_now e (em_tick e), e <| em_tick ::= S |>).
Definition say (x : exportEvent) (e : Emitter) : Emitter := e <| em_trace ::= cons x |>.

Definition reportDrops (e : Emitter) : Emitter :=
  let lm := em_lm e in
  let dropped := lm_dropped lm in
  if decide (dropped = lm_reportedDrops lm) then e
  else
    let '(now, e) := clock e in
    if decide (now < lm_nextDropReport lm) then e
    else
      let e := say (DropsReported now (sub64 dropped (lm_reportedDrops lm)) dropped) e in
      let '(now, e) := clock e in
      e <| em_lm ::= fun lm => lm <| lm_reportedDrops := dropped |> <| lm_nextDropReport := now + dropReportInterval |> |>.

Definition failSocket (e : Emitter) : Emitter :=
  let e := if lm_conn (em_lm e) then say SocketClosed e <| em_lm ::= fun lm => lm <| lm_conn := false |> |> else e in
  let '(now, e) := clock e in
  let e := e <| em_lm ::= fun lm => lm <| lm_nextDial := now + emfRedialInterval |> <| lm_sinceDial := 0 |> |> in
  if decide (lm_refused (em_lm e) = true /\ now < lm_nextRefusedReport (em_lm e)) then e
  else say (RefusalReported now) e
         <| em_lm ::= fun lm => lm <| lm_refused := true |> <| lm_nextRefusedReport := now + refusedReportInterval |> |>.
(** [true]: there is a connection to write to. *)
Definition socket (e : Emitter) : bool * Emitter :=
  if lm_conn (em_lm e) then (true, e)
  else
    let '(now, e) := clock e in
    if decide (now < lm_nextDial (em_lm e)) then (false, e)
    else
      let err := em_dial e (em_tick e) in
      let e := say (Dialed now err) (e <| em_tick ::= S |>) in
      match err with
      | Some _ => (false, failSocket e)
      | None => (true, e <| em_lm ::= fun lm => lm <| lm_conn := true |> <| lm_sinceDial := 0 |> |>)
      end.
(** What [emit] does after a write that went through. *)
Definition written (e : Emitter) : Emitter :=
  let e := e <| em_lm ::= fun lm => lm <| lm_sinceDial ::= add64 1 |> |> in
  let e := if lm_refused (em_lm e) && bool_decide (2 <= lm_sinceDial (em_lm e))
           then say RecoveryReported e <| em_lm ::= fun lm => lm <| lm_refused := false |> <| lm_nextRefusedReport := zeroTime |> |>
           else e in
  e <| em_lm ::= fun lm => lm <| lm_sent ::= add64 1 |> |>.
(** [None] is a panic. *)
Definition emit (s : launchSample) (e : Emitter) : option unit * Emitter :=
  match encode (payload (lm_logGroup (em_lm e)) (lm_namespace (em_lm e)) s) with
  | None => (None, e)
  | Some (inl _) =>
    (Some tt, if lm_encodeFailed (em_lm e) then e else say EncodeReported e <| em_lm ::= fun lm => lm <| lm_encodeFailed := true |> |>)
  | Some (inr text) =>
    let '(ok, e) := socket e in
    if negb ok then (Some tt, e)
    else
      let err := em_write e (em_tick e) in
      let e := say (Wrote (text +:+ String "010" "") err) (e <| em_tick ::= S |>) in
      match err with
      | Some _ => (Some tt, failSocket e)
      | None => (Some tt, written e)
      end
  end.
Definition recoverEmit (r : option unit) (e : Emitter) : Emitter :=
  match r with
  | Some _ => e
  | None =>
    let e := e <| em_lm ::= fun lm => lm <| lm_panics ::= add64 1 |> |> in
    if lm_panicked (em_lm e) then e else say PanicReported e <| em_lm ::= fun lm => lm <| lm_panicked := true |> |>
  end.
Definition guardedEmit (s : launchSample) (e : Emitter) : Emitter := let '(r, e) := emit s e in recoverEmit r e.
(** One turn of [run]'s loop. *)
Definition run (e : Emitter) : Emitter :=
  match lm_ch (em_lm e) with
  | [] => e
  | s :: rest => guardedEmit s (reportDrops (e <| em_lm ::= fun lm => lm <| lm_ch := rest |> |>))
  end.

(** Launches and teardowns hand samples over while the emitter runs.  A turn
    only shares the queue and the count of drops with them, so the turns and the
    hand-overs happen one after another. *)
Inductive moment := Handed (s : launchSample) | Turn.
Definition live (e : Emitter) (x : moment) : Emitter :=
  match x with
  | Turn => run e
  | Handed s => match record s (Some (em_lm e)) with Some lm => e <| em_lm := lm |> | None => e end
  end.
Definition lived (e : Emitter) (xs : list moment) : Emitter := foldl live e xs.
End emitter.

(** ** The stages of a launch

    The clock readings of one launch, in order, and what the timer makes of
    them. *)
Definition timed (m : Manager) (build : option BuildMetadata) (i : InstanceMetadata) (limits : launchLimits) (wait : Z) (pulled0 : bool)
    (t0 t1 t2 t3 t4 t5 : Z) (pulled : bool) (c : containerSplits) (err : option error) : launchSample :=
  finishSample t5 err (containers t4 c (network t3 (slot t2 (images t1 pulled (beginLaunch m t0 build i limits wait pulled0))))).

(** The stages of a launch never come to more than its duration, the time the
    caller spent on the images included; what is left over is the time after
    the last stage. *)
Theorem stages_within_total m build i limits wait pulled0 t0 t1 t2 t3 t4 t5 pulled c err :
  t0 <= t1 <= t2 -> t2 <= t3 <= t4 -> t4 <= t5 -> ll_imagesEnsured limits = true \/ wait = 0 ->
  let s := timed m build i limits wait pulled0 t0 t1 t2 t3 t4 t5 pulled c err in
  sm_imageWait s + sm_slotWait s + sm_netCreate s + sm_containers s = sm_total s - (t5 - t4) /\
  wait <= sm_imageWait s /\ 0 <= sm_slotWait s /\ 0 <= sm_netCreate s /\ 0 <= sm_containers s.
Proof.
  intros H1 H2 H3 Hw. unfold timed, beginLaunch. destruct (workerDaemon m (im_worker i)) as [q public].
  unfold images, split. simpl. destruct (ll_imagesEnsured limits) eqn:E; simpl; [|destruct Hw as [?|?]; [done|]]; lia.
Qed.

(** ** What an event publishes *)
Definition published (e : emfEvent) : list string := md_name <$> (em_directives (ev_aws e) ≫= dv_metrics).

(** An event publishes only what it carries: every metric a directive names is a
    member of the event, every dimension is a member with a value, a failure
    counts as one and publishes no duration, and a launch and a teardown publish
    only their own. *)
Theorem payload_sound logGroup namespace s :
  let e := payload logGroup namespace s in
  Forall (fun d => Forall (fun x => md_name x ∈ (numberMembers e).*1) (dv_metrics d) /\
                   Forall (Forall (fun k => exists v, (k, v) ∈ textMembers e /\ v <> ""%string)) (dv_dimensions d)) (em_directives (ev_aws e)) /\
  published e =
    match sm_kind s with
    | sampleLaunch => "LaunchFailed" :: (if decide (sm_outcome s = launchOK) then "LaunchDuration" :: (md_name <$> stageMetrics) else [])
    | sampleTeardown => "TeardownFailed" :: (if decide (sm_trigger s <> launchTriggerRestart) then ["TeardownWait"] else []) ++
                        (if decide (sm_outcome s = launchOK) then ["TeardownDuration"] else [])
    end%string /\
  (match sm_kind s with sampleLaunch => ev_launchFailed e | sampleTeardown => ev_teardownFailed e end) = (if decide (sm_outcome s = launchOK) then 0 else 1).
Proof.
  assert (valueOr (sm_worker s) "local" <> ""%string) as Hw by (unfold valueOr; by case_decide).
  assert (forall (l : list string) k, bool_decide (k ∈ l) = true -> k ∈ l) as Hin by (intros l k; apply bool_decide_eq_true_1).
  unfold payload, teardownPayload, published. destruct (sm_kind s); [unfold bool_decide|];
    repeat case_decide; (split_and!; [|done|done]); repeat constructor; simpl;
    try (apply Hin; reflexivity); exists (valueOr (sm_worker s) "local"); (split; [left|done]).
Qed.

(** ** Every sample is accounted for *)
Definition okLine (x : exportEvent) : option string := match x with Wrote line None => Some line | _ => None end.
(** The lines written without an error, in order. *)
Definition delivered (e : Emitter) : list string := reverse (omap okLine (em_trace e)).
Definition handedOf (x : moment) : option launchSample := match x with Handed s => Some s | Turn => None end.

Definition core (e : Emitter) :=
  (lm_ch (em_lm e), lm_dropped (em_lm e), lm_sent (em_lm e), (lm_logGroup (em_lm e), lm_namespace (em_lm e)), delivered e).
(** What the outside answers does not change. *)
Definition answers (e : Emitter) := (em_now e, em_dial e, em_write e).

Lemma reportDrops_core e : core (reportDrops e) = core e /\ answers (reportDrops e) = answers e /\
  lm_conn (em_lm (reportDrops e)) = lm_conn (em_lm e) /\ lm_nextDial (em_lm (reportDrops e)) = lm_nextDial (em_lm e).
Proof. unfold reportDrops. case_decide; [done|]. simpl. by case_decide. Qed.
Lemma failSocket_core e : core (failSocket e) = core e /\ answers (failSocket e) = answers e.
Proof. unfold failSocket. destruct (lm_conn (em_lm e)); simpl; by case_decide. Qed.
Lemma socket_core e : core (socket e).2 = core e /\ answers (socket e).2 = answers e.
Proof.
  unfold socket. destruct (lm_conn (em_lm e)); [done|]. simpl. case_decide; [done|].
  destruct (em_dial e _); simpl; [|done].
  match goal with |- core (failSocket ?x) = _ /\ _ => destruct (failSocket_core x) as [-> ->] end. done.
Qed.
Lemma wrap64_succ n : add64 1 (wrap64 n) = wrap64 (1 + n).
Proof.
  unfold add64, wrap64. f_equal. replace (1 + ((n + two63) mod (2 * two63) - two63) + two63) with (1 + (n + two63) mod (2 * two63)) by lia.
  rewrite Zplus_mod_idemp_r. f_equal. lia.
Qed.

Section accounts.
Context (encode : emfEvent -> option (error + string)).
Definition lineOf (logGroup namespace : string) (s : launchSample) (line : string) : Prop :=
  exists text, encode (payload logGroup namespace s) = Some (inr text) /\ line = (text +:+ String "010" "")%string.

(** A turn of the emitter sends the sample or leaves the counts alone. *)
Lemma guardedEmit_core s e e' :
  guardedEmit encode s e = e' -> answers e' = answers e /\
  (core e' = core e \/
   exists line, lineOf (lm_logGroup (em_lm e)) (lm_namespace (em_lm e)) s line /\
     core e' = (lm_ch (em_lm e), lm_dropped (em_lm e), add64 1 (lm_sent (em_lm e)), (lm_logGroup (em_lm e), lm_namespace (em_lm e)), delivered e ++ [line])).
Proof.
  intros <-. unfold guardedEmit, emit. destruct (encode _) as [[err|text]|] eqn:Ee.
  - simpl. destruct (lm_encodeFailed (em_lm e)); auto.
  - destruct (socket e) as [ok e1] eqn:Es. destruct (socket_core e) as [Hc Ha]. rewrite Es in Hc, Ha. simpl in Hc, Ha.
    destruct ok; [|simpl; auto]. simpl. destruct (em_write e1 _) as [err|]; simpl.
    { match goal with |- answers (failSocket ?x) = _ /\ _ => destruct (failSocket_core x) as [-> ->] end. auto. }
    unfold core, answers, delivered in *. injection Hc as Hc1 Hc2 Hc3 Hc4 Hc5 Hc6.
    unfold written; simpl; case_match; simpl; (split; [done|]); right; exists (text +:+ String "010" "")%string;
      (split; [by exists text|]); by rewrite Hc1, Hc2, Hc3, Hc4, Hc5, <- Hc6, reverse_cons.
  - simpl. destruct (lm_panicked (em_lm e)); auto.
Qed.

(** An agent that takes everything, samples that encode, a clock that runs. *)
Definition well (a : (nat -> Z) * (nat -> option error) * (nat -> option error)) : Prop :=
  (forall n, zeroTime <= a.1.1 n) /\ (forall n, a.1.2 n = None) /\ (forall n, a.2 n = None) /\ forall ev, exists text, encode ev = Some (inr text).
Lemma guardedEmit_well s e :
  well (answers e) -> lm_nextDial (em_lm e) = zeroTime ->
  lm_nextDial (em_lm (guardedEmit encode s e)) = zeroTime /\ core (guardedEmit encode s e) <> core e.
Proof.
  intros (Ht & Hd & Hw & He) Hn. unfold guardedEmit, emit. destruct (He (payload (lm_logGroup (em_lm e)) (lm_namespace (em_lm e)) s)) as [text ->].
  assert (exists e1, socket e = (true, e1) /\ answers e1 = answers e /\ delivered e1 = delivered e /\ lm_nextDial (em_lm e1) = zeroTime) as (e1 & -> & Ha & Hl & Hn1).
  { unfold socket. destruct (lm_conn (em_lm e)); [by eauto|]. simpl. rewrite Hn, decide_False by (apply Z.nlt_ge, Ht).
    simpl in Hd. rewrite !Hd. eexists. by split_and!. }
  simpl. assert (em_write e1 (em_tick e1) = None) as -> by (unfold answers in Ha; injection Ha as _ _ ->; apply Hw).
  assert (forall l, reverse (l :: omap okLine (em_trace e1)) <> delivered e) as Hne.
  { intros l E. apply (f_equal length) in E. rewrite <- Hl in E. unfold delivered in E. rewrite !length_reverse in E. simpl in E. lia. }
  unfold written. simpl. case_match; (split; [done|]); unfold core, delivered; simpl; intros [=]; by eapply Hne.
Qed.

Context (logGroup namespace : string) (a : (nat -> Z) * (nat -> option error) * (nat -> option error)).
(** [taken] left the queue, [sent] were written, [n] never entered it. *)
Record accounts (handed taken sent : list launchSample) (n : nat) (e : Emitter) : Prop := {
  ac_queue : (taken ++ lm_ch (em_lm e)) `sublist_of` handed;
  ac_all : length handed = (length taken + length (lm_ch (em_lm e)) + n)%nat;
  ac_bound : (length (lm_ch (em_lm e)) <= emfQueueDepth)%nat;
  ac_dropped : lm_dropped (em_lm e) = wrap64 (Z.of_nat n);
  ac_sent : sent `sublist_of` taken;
  ac_lines : Forall2 (lineOf logGroup namespace) sent (delivered e);
  ac_count : lm_sent (em_lm e) = wrap64 (Z.of_nat (length sent));
  ac_names : (lm_logGroup (em_lm e), lm_namespace (em_lm e)) = (logGroup, namespace);
  ac_answers : answers e = a;
  ac_well : well a -> lm_nextDial (em_lm e) = zeroTime /\ sent = taken }.
Lemma accounts_run handed taken sent n e :
  accounts handed taken sent n e -> exists taken' sent', accounts handed taken' sent' n (run encode e).
Proof.
  intros [Hq Ha Hb Hd Hs Hl Hc Hn Hans Hwell]. unfold run. destruct (lm_ch (em_lm e)) as [|s rest] eqn:Ech.
  { exists taken, sent. split; rewrite ?Ech; done. }
  set (e1 := e <| em_lm ::= _ |>). destruct (reportDrops_core e1) as (Hc1 & Ha1 & _ & Hd1).
  change (answers e1) with (answers e) in Ha1. change (lm_nextDial (em_lm e1)) with (lm_nextDial (em_lm e)) in Hd1.
  destruct (guardedEmit_core s (reportDrops e1) _ eq_refl) as [Ha2 H]. pose proof (guardedEmit_well s (reportDrops e1)) as Hw2.
  rewrite Ha1, Hans in Hw2, Ha2. rewrite Hd1 in Hw2. unfold core, delivered in Hc1, H.
  injection Hc1 as E1 E2 E3 E4 E5 E6. simpl in E1, E2, E3, E4, E5, E6. injection Hn as Hn1 Hn2.
  assert ((taken ++ [s]) ++ rest `sublist_of` handed) as Hq' by (by rewrite <- app_assoc).
  assert (length handed = (length (taken ++ [s]) + length rest + n)%nat) as Ha' by (rewrite length_app; simpl in *; lia).
  simpl in Hb. destruct H as [H|(line & Hline & H)]; injection H as F1 F2 F3 F4 F5 F6.
  - exists (taken ++ [s]), sent. split; unfold delivered; rewrite ?F1, ?F2, ?F3, ?F4, ?F5, ?F6, ?E1, ?E2, ?E3, ?E4, ?E5, ?E6; try done; [lia|..].
    + by apply sublist_inserts_r.
    + congruence.
    + intros Hw. exfalso. apply Hw2; [done|by apply Hwell|]. unfold core, delivered. by rewrite F1, F2, F3, F4, F5, F6.
  - exists (taken ++ [s]), (sent ++ [s]). split; unfold delivered; rewrite ?F1, ?F2, ?F3, ?F4, ?F5, ?F6, ?E1, ?E2, ?E3, ?E4, ?E5, ?E6; try done; [lia|..].
    + by apply sublist_app.
    + apply Forall2_app; [done|]. rewrite E4, E5, Hn1, Hn2 in Hline. by repeat constructor.
    + rewrite Hc, wrap64_succ, length_app. simpl. f_equal. lia.
    + congruence.
    + intros Hw. destruct (Hwell Hw) as [Hz ->]. by destruct (Hw2 Hw Hz).
Qed.
Lemma accounts_handed handed taken sent n e s :
  accounts handed taken sent n e -> exists n', accounts (handed ++ [s]) taken sent n' (live encode e (Handed s)).
Proof.
  intros [Hq Ha Hb Hd Hs Hl Hc Hn Hans Hwell]. simpl. case_decide as Hlt.
  - exists n. split; simpl; try done; rewrite ?app_assoc, ?length_app; simpl; try lia. by apply sublist_app.
  - exists (S n). split; simpl; try done; rewrite ?length_app; simpl; [by apply sublist_inserts_r|lia|].
    rewrite Hd, wrap64_succ. f_equal. lia.
Qed.
Lemma accounts_lived e xs : forall handed taken sent n,
  accounts handed taken sent n e -> exists taken' sent' n', accounts (handed ++ omap handedOf xs) taken' sent' n' (lived encode e xs).
Proof.
  revert e. induction xs as [|x xs IH]; intros e handed taken sent n H; [rewrite app_nil_r; eauto|].
  destruct x as [s|]; simpl.
  - rewrite cons_middle, app_assoc. destruct (accounts_handed _ _ _ _ _ s H) as [n' H']. by eapply IH.
  - destruct (accounts_run _ _ _ _ _ H) as (t' & s' & H'). by eapply IH.
Qed.
End accounts.

(** C39. No sample is lost unseen, and none delays a launch: whatever the agent does
    and however launches and the emitter take turns, every sample handed over is
    waiting in the queue, was taken out of it, or is in the count of drops; the
    queue never holds more than its depth; what was written is, in the order it
    was handed over, one line for each of the samples counted as sent; and with
    an agent that takes what it is sent, that is every sample taken. *)
Theorem exporter_accounts encode env e0 xs :
  newLaunchMetrics env = Some (em_lm e0) -> em_trace e0 = [] ->
  let e := lived encode e0 xs in let handed := omap handedOf xs in
  exists taken sent n,
    (taken ++ lm_ch (em_lm e)) `sublist_of` handed /\ length handed = (length taken + length (lm_ch (em_lm e)) + n)%nat /\
    lm_dropped (em_lm e) = wrap64 (Z.of_nat n) /\ (length (lm_ch (em_lm e)) <= emfQueueDepth)%nat /\
    sent `sublist_of` taken /\ lm_sent (em_lm e) = wrap64 (Z.of_nat (length sent)) /\
    Forall2 (lineOf encode (lm_logGroup (em_lm e0)) (lm_namespace (em_lm e0))) sent (delivered e) /\
    (well encode (answers e0) -> sent = taken).
Proof.
  intros Hnew Htr e handed.
  assert (accounts encode (lm_logGroup (em_lm e0)) (lm_namespace (em_lm e0)) (answers e0) [] [] [] 0 e0) as H0.
  { unfold newLaunchMetrics in Hnew. destruct (LookupEnv _ _); [|done]. case_decide; [done|]. injection Hnew as Hl.
    split; try done; rewrite <- ?Hl; simpl; try done; [unfold emfQueueDepth; lia|]. unfold delivered. rewrite Htr. constructor. }
  destruct (accounts_lived _ _ _ _ e0 xs _ _ _ _ H0) as (taken & sent & n & [Hq Ha Hb Hd Hs Hl Hc Hn Hans Hwell]).
  exists taken, sent, n. split_and!; try done. by intros [_ ?]%Hwell.
Qed.

(** ** The exporter is quiet *)
Definition onSocket (x : exportEvent) : bool := match x with Dialed _ _ | Wrote _ _ | SocketClosed => true | _ => false end.
Definition okWrite (x : exportEvent) : Prop := exists line, x = Wrote line None.
(** The trace back to the last recovery that was reported. *)
Fixpoint sinceRecovery (tr : list exportEvent) : list exportEvent :=
  match tr with
  | [] => []
  | RecoveryReported :: _ => []
  | x :: tr => x :: sinceRecovery tr
  end.
(** When an event may follow what came before it. *)
Definition justified (x : exportEvent) (before : list exportEvent) : Prop :=
  match x with
  | Dialed t _ => forall t' r, Dialed t' r ∈ before -> t' + emfRedialInterval <= t
  | DropsReported t _ _ => forall t' d n, DropsReported t' d n ∈ before -> t' + dropReportInterval <= t
  | RefusalReported t => forall t', RefusalReported t' ∈ sinceRecovery before -> t' + refusedReportInterval <= t
  | RecoveryReported => (exists t, RefusalReported t ∈ sinceRecovery before) /\
      exists x1 x2 more, filter (fun x => onSocket x = true) before = x1 :: x2 :: more /\ okWrite x1 /\ okWrite x2
  | EncodeReported => EncodeReported ∉ before
  | PanicReported => PanicReported ∉ before
  | Wrote _ _ | SocketClosed => True
  end.
Fixpoint legal (tr : list exportEvent) : Prop := match tr with [] => True | x :: tr => justified x tr /\ legal tr end.
Lemma legal_at a x tr : legal (a ++ x :: tr) -> justified x tr.
Proof. induction a as [|y a IH]; simpl; [by intros [? _]|]. intros [_ ?]. by apply IH. Qed.

Record hushed (e : Emitter) : Prop := {
  hu_mono i j : (i <= j)%nat -> em_now e i <= em_now e j;
  hu_legal : legal (em_trace e);
  hu_past t r : Dialed t r ∈ em_trace e -> t <= em_now e (em_tick e);
  hu_dials t r : Dialed t r ∈ em_trace e -> lm_conn (em_lm e) = false -> t + emfRedialInterval <= lm_nextDial (em_lm e);
  hu_drops t d n : DropsReported t d n ∈ em_trace e -> t + dropReportInterval <= lm_nextDropReport (em_lm e);
  hu_refusals t : RefusalReported t ∈ sinceRecovery (em_trace e) -> t + refusedReportInterval <= lm_nextRefusedReport (em_lm e);
  hu_refused : lm_refused (em_lm e) = true <-> exists t, RefusalReported t ∈ sinceRecovery (em_trace e);
  hu_encode : lm_encodeFailed (em_lm e) = false -> EncodeReported ∉ em_trace e;
  hu_panic : lm_panicked (em_lm e) = false -> PanicReported ∉ em_trace e }.
(** The writes on the socket at hand that the emitter counts. *)
Definition proven (e : Emitter) : Prop :=
  in64 (lm_sinceDial (em_lm e)) /\
  exists ws more, filter (fun x => onSocket x = true) (em_trace e) = ws ++ more /\ length ws = Z.to_nat (lm_sinceDial (em_lm e)) /\ Forall okWrite ws.

Lemma proven_zero e : lm_sinceDial (em_lm e) = 0 -> proven e.
Proof. intros E. unfold proven. rewrite E. split; [unfold in64, two63; lia|]. by exists [], (filter (fun x => onSocket x = true) (em_trace e)). Qed.
Lemma hushed_tick e : hushed e -> hushed (clock e).2.
Proof.
  intros [? ? Hp ? ? ? ? ? ?]. split; try done. simpl. intros t r H%Hp. etransitivity; [exact H|]. auto.
Qed.

Lemma reportDrops_hushed e : hushed e -> proven e -> hushed (reportDrops e) /\ proven (reportDrops e).
Proof.
  intros He Hp. unfold reportDrops. case_decide as Hd; [done|]. pose proof (hushed_tick e He) as He1. simpl in He1 |- *.
  case_decide as Hn; [done|]. apply Z.nlt_ge in Hn. split; [|done]. destruct He1 as [Hm Hl Hpast Hdi Hdr Hr Hre Hen Hpa]. split; simpl in *.
  - exact Hm.
  - split; [|exact Hl]. intros t' d n H. etransitivity; [by eapply Hdr|done].
  - intros t r [?|H]%elem_of_cons; [done|]. etransitivity; [by eapply Hpast|]. auto.
  - intros t r [?|H]%elem_of_cons; [done|]. by eapply Hdi.
  - intros t d n [[= -> _ _]|H]%elem_of_cons; [apply Z.add_le_mono_r; auto|].
    pose proof (Hdr _ _ _ H). pose proof (Hm (em_tick e) (S (em_tick e)) ltac:(lia)). unfold dropReportInterval, Minute in *. lia.
  - intros t [?|H]%elem_of_cons; [done|]. by apply Hr.
  - rewrite Hre. split; intros [t H]; exists t; [by right|]. by apply elem_of_cons in H as [?|?].
  - intros H. by intros [?|?%Hen]%elem_of_cons.
  - intros H. by intros [?|?%Hpa]%elem_of_cons.
Qed.

(** An event the limits are not about. *)
Definition plain (x : exportEvent) : bool := match x with Wrote _ _ | SocketClosed => true | _ => false end.
Lemma elem_other (x y : exportEvent) l : x <> y -> x ∈ y :: l <-> x ∈ l.
Proof. intros H. rewrite elem_of_cons. naive_solver. Qed.
Lemma hushed_say x e : plain x = true -> hushed e -> hushed (say x e).
Proof.
  intros Hx [Hm Hl Hpast Hdi Hdr Hr Hre Hen Hpa]. destruct x; try done; split; simpl in *; intros *; rewrite ?elem_other by done; eauto;
    rewrite Hre; (split; intros [t H]; exists t; [by right|by rewrite elem_other in H]).
Qed.
(** As if connected: nothing is asked of the next dial. *)
Definition connected (e : Emitter) : Emitter := e <| em_lm ::= fun lm => lm <| lm_conn := true |> |>.
Lemma hushed_connected e : hushed e -> hushed (connected e).
Proof. intros []. by split. Qed.
Lemma failSocket_hushed e : hushed (connected e) -> hushed (failSocket e) /\ proven (failSocket e).
Proof.
  intros He. unfold failSocket. set (e1 := if lm_conn (em_lm e) then _ else e).
  assert (hushed (connected e1)) as H1.
  { subst e1. destruct (lm_conn (em_lm e)) eqn:E; [|done]. apply (hushed_say SocketClosed) in He; [|done]. destruct He. by split. }
  clearbody e1. clear He e. destruct H1 as [Hm Hl Hpast0 _ Hdr Hr Hre Hen Hpa]. simpl in *.
  assert (forall t r, Dialed t r ∈ em_trace e1 -> t <= em_now e1 (S (em_tick e1))) as Hpast.
  { intros t r H. etransitivity; [by eapply Hpast0|]. auto. }
  case_decide as Hd.
  - split; [|by apply proven_zero]. split; simpl in *; try done. intros t r H _. apply Z.add_le_mono_r; by eapply Hpast0.
  - split; [|by apply proven_zero]. split; simpl in *; try done.
    + split; [|done]. intros t' H. destruct (Z.lt_ge_cases (em_now e1 (em_tick e1)) (lm_nextRefusedReport (em_lm e1))); [|by etransitivity; [apply Hr|]].
      destruct Hd. split; [|done]. apply Hre. eauto.
    + intros t r [?|H]%elem_of_cons; [done|by eapply Hpast].
    + intros t r [?|H]%elem_of_cons _; [done|]. apply Z.add_le_mono_r; by eapply Hpast0.
    + intros t d n [?|H]%elem_of_cons; [done|by eapply Hdr].
    + intros t [[= ->]|H]%elem_of_cons; [done|]. pose proof (Hr _ H).
      destruct (Z.lt_ge_cases (em_now e1 (em_tick e1)) (lm_nextRefusedReport (em_lm e1))); [|unfold refusedReportInterval, Minute in *; lia].
      destruct Hd. split; [|done]. apply Hre. eauto.
    + split; [|done]. intros _. exists (em_now e1 (em_tick e1)). by left.
    + intros ?. intros [?|?%Hen]%elem_of_cons; done.
    + intros ?. intros [?|?%Hpa]%elem_of_cons; done.
Qed.

Lemma socket_hushed e : hushed e -> proven e -> hushed (socket e).2 /\ proven (socket e).2.
Proof.
  intros He Hp. unfold socket. destruct (lm_conn (em_lm e)) eqn:Ec; [done|]. pose proof (hushed_tick _ He) as H1. simpl in *.
  case_decide as Hn; [done|]. apply Z.nlt_ge in Hn. set (e2 := say (Dialed _ _) _).
  assert (hushed (connected e2)) as H2.
  { destruct He as [_ _ Hpast0 Hdi _ _ _ _ _]. destruct H1 as [Hm Hl Hpast _ Hdr Hr Hre Hen Hpa]. split; simpl in *; intros *; rewrite ?elem_other by done; eauto; try done.
    - split; [|done]. intros t' r H. etransitivity; [|exact Hn]. by eapply Hdi.
    - intros [[= -> _]|H]%elem_of_cons; [auto|]. etransitivity; [by eapply Hpast|]. auto.
    - rewrite Hre. split; intros [t H]; exists t; [by right|by rewrite elem_other in H]. }
  destruct (em_dial e _); simpl; [by apply failSocket_hushed|]. split; [|by apply proven_zero].
  destruct H2 as [Hm Hl Hpast _ Hdr Hr Hre Hen Hpa]. by split.
Qed.
Lemma counted_up n ws more line : in64 n -> length ws = Z.to_nat n -> Forall okWrite ws ->
  exists ws' more', Wrote line None :: ws ++ more = ws' ++ more' /\ length ws' = Z.to_nat (add64 1 n) /\ Forall okWrite ws'.
Proof.
  intros Hn El Hw. unfold in64 in Hn. destruct (decide (0 <= n < two63 - 1)) as [Hd|Hd].
  - exists (Wrote line None :: ws), more. split; [done|]. unfold add64. rewrite wrap64_id by (unfold in64; lia). simpl. split; [lia|].
    constructor; [by exists line|done].
  - exists [], (Wrote line None :: ws ++ more). split_and!; [done| |done]. simpl. symmetry. apply Z2Nat.nonpos.
    destruct (decide (n < 0)); [unfold add64; rewrite wrap64_id by (unfold in64, two63 in *; lia); lia|].
    assert (n = two63 - 1) as -> by lia. by vm_compute.
Qed.
Lemma written_hushed e :
  hushed e -> (in64 (lm_sinceDial (em_lm e)) /\ exists ws more, length ws = Z.to_nat (lm_sinceDial (em_lm e)) /\ Forall okWrite ws /\
    exists line, filter (fun x => onSocket x = true) (em_trace e) = Wrote line None :: ws ++ more) ->
  hushed (written e) /\ proven (written e).
Proof.
  intros He (Hin & ws0 & more0 & El0 & Hw0 & line & Ef0). destruct (counted_up _ _ more0 line Hin El0 Hw0) as (ws & more & E & El & Hw).
  rewrite E in Ef0. unfold written. simpl. case_match eqn:Eb.
  - apply andb_true_iff in Eb as [Erf Etwo%bool_decide_eq_true].
    split; [|split; [apply wrap64_in64|by exists ws, more]]. destruct He as [Hm Hl Hpast Hdi Hdr Hr Hre Hen Hpa].
    split; simpl in *; intros *; rewrite ?elem_other by done; eauto; try by rewrite elem_of_nil.
    + split; [|done]. split; [by apply Hre|]. destruct ws as [|x1 [|x2 ws]]; [simpl in El; lia..|].
      exists x1, x2, (ws ++ more). split; [done|]. by inversion Hw as [|? ? ? Hw']; inversion Hw'.
    + split; [done|]. by intros [t ?%elem_of_nil].
  - split; [destruct He; by split|]. split; [apply wrap64_in64|by exists ws, more].
Qed.
Section quiet.
Context (encode : emfEvent -> option (error + string)).
Lemma emit_hushed s e r e' : emit encode s e = (r, e') -> hushed e -> proven e -> hushed e' /\ proven e'.
Proof.
  unfold emit. intros H He Hp. destruct (encode _) as [[err|text]|]; [| |by simplify_eq].
  - simplify_eq. destruct (lm_encodeFailed (em_lm e)) eqn:Ef; [done|]. split; [|done].
    destruct He as [Hm Hl Hpast Hdi Hdr Hr Hre Hen Hpa]. split; simpl in *; intros *; rewrite ?elem_other by done; eauto; try done.
    rewrite Hre. split; intros [t H]; exists t; [by right|by rewrite elem_other in H].
  - destruct (socket_hushed e He Hp) as [H1 Hp1]. destruct (socket e) as [ok e1]. simpl in H1, Hp1. destruct ok; simpl in H; [|by simplify_eq].
    assert (hushed (e1 <| em_tick ::= S |>)) as H2 by exact (hushed_tick _ H1).
    apply (hushed_say (Wrote (text +:+ String "010" "") (em_write e1 (em_tick e1)))) in H2; [|done].
    destruct (em_write e1 (em_tick e1)) as [err|]; [injection H as <- <-; by apply failSocket_hushed, hushed_connected|].
    injection H as <- <-. apply written_hushed; [done|]. destruct Hp1 as [Hin (ws & more & Ef & El & Hw)]. split; [done|].
    exists ws, more. split_and!; try done. eexists. cbn [say setter em_trace]. rewrite filter_cons_True by done. by rewrite Ef.
Qed.
Lemma guardedEmit_hushed s e : hushed e -> proven e -> hushed (guardedEmit encode s e) /\ proven (guardedEmit encode s e).
Proof.
  intros He Hp. unfold guardedEmit. destruct (emit encode s e) as [r e1] eqn:E. destruct (emit_hushed _ _ _ _ E He Hp) as [H1 Hp1].
  destruct r; [done|]. simpl. destruct (lm_panicked (em_lm e1)) eqn:Ef; (split; [|done]).
  { destruct H1. by split. }
  destruct H1 as [Hm Hl Hpast Hdi Hdr Hr Hre Hen Hpa]. split; simpl in *; intros *; rewrite ?elem_other by done; eauto; try done.
  rewrite Hre. split; intros [t H]; exists t; [by right|by rewrite elem_other in H].
Qed.
Lemma lived_hushed xs : forall e, hushed e -> proven e -> hushed (lived encode e xs).
Proof.
  induction xs as [|x xs IH]; intros e He Hp; [done|]. destruct x as [s|]; simpl; [|unfold run].
  - apply IH; [case_decide; destruct He; by split|by case_decide].
  - destruct (lm_ch (em_lm e)) as [|s rest]; [by apply IH|]. set (e1 := e <| em_lm ::= _ |>).
    assert (hushed e1) as H1 by (destruct He; by split). destruct (reportDrops_hushed e1 H1 Hp) as [H2 Hp2].
    destruct (guardedEmit_hushed s _ H2 Hp2). by apply IH.
Qed.
End quiet.

(** An export that fails does not fill the log or the network: with a clock that
    does not go back, whatever the agent does and however samples arrive, two
    dials are at least 30 seconds apart, two reports of drops a minute, and two
    complaints about an endpoint five minutes unless a recovery was reported in
    between; a recovery is reported only after a complaint and when the last two
    things that happened on the socket are writes that went through; a sample
    that does not encode, and a panic, are each reported once. *)
Theorem exporter_quiet encode env e0 xs a x before :
  newLaunchMetrics env = Some (em_lm e0) -> em_trace e0 = [] -> (forall i j, (i <= j)%nat -> em_now e0 i <= em_now e0 j) ->
  em_trace (lived encode e0 xs) = a ++ x :: before -> justified x before.
Proof.
  intros Hnew Htr Hm E. apply (legal_at a). rewrite <- E. apply lived_hushed.
  - unfold newLaunchMetrics in Hnew. destruct (LookupEnv _ _); [|done]. case_decide; [done|]. injection Hnew as Hl.
    split; rewrite ?Htr, <- ?Hl; simpl; try done; intros *; rewrite ?elem_of_nil; try done; try by intros _ ?.
    split; [done|]. by intros [t ?%elem_of_nil].
  - apply proven_zero. unfold newLaunchMetrics in Hnew. destruct (LookupEnv _ _); [|done]. case_decide; [done|]. by injection Hnew as <-.
Qed.

(** ** Witnesses *)
Local Open Scope string_scope.
Definition demo_env : environ := {[ "CORK_EMF_ENDPOINT" := "127.0.0.1:25888" ]}.
Definition demo_exporter : launchMetrics := mkMetrics [] 0 0 0 "127.0.0.1:25888" "cork" "cork" false zeroTime false 0 false false 0 zeroTime zeroTime.
Definition demo_json (e : emfEvent) : option (error + string) := Some (inr (ev_operation e +:+ " on " +:+ ev_worker e)).
(** An agent that refuses the second write; twenty seconds pass between two
    answers of the outside. *)
Definition demo_emitter : Emitter :=
  mkEmitter demo_exporter 0 (fun n => Z.of_nat n * (20 * Second)) (fun _ => None) (fun n => if decide (n = 3)%nat then Some [NetError] else None) [].
Definition demo_moments : list moment :=
  mjoin (replicate 6 [Handed (emptySample <| sm_worker := "w1" |>); Turn]).
Definition demo_line : string := "launch on w1" +:+ String "010" "".

Example demo_trace : reverse (em_trace (lived demo_json demo_emitter demo_moments)) =
  [Dialed 0 None; Wrote demo_line None; Wrote demo_line (Some [NetError]); SocketClosed; RefusalReported (80 * Second);
   Dialed (120 * Second) None; Wrote demo_line None; Wrote demo_line None; RecoveryReported; Wrote demo_line None].
Proof. vm_compute. reflexivity. Qed.

Lemma demo_clock i j : (i <= j)%nat -> em_now demo_emitter i <= em_now demo_emitter j.
Proof. intros. simpl. unfold Second. lia. Qed.
Lemma exporter_quiet_witness :
  exists before, em_trace (lived demo_json demo_emitter demo_moments) = ([Wrote demo_line None] ++ RecoveryReported :: before)%list /\ justified RecoveryReported before.
Proof.
  eexists. assert (em_trace (lived demo_json demo_emitter demo_moments) = ([Wrote demo_line None] ++ RecoveryReported ::
    [Wrote demo_line None; Wrote demo_line None; Dialed (120 * Second) None; RefusalReported (80 * Second); SocketClosed;
     Wrote demo_line (Some [NetError]); Wrote demo_line None; Dialed 0 None])%list) as E by (vm_compute; reflexivity).
  split; [exact E|]. apply (exporter_quiet demo_json demo_env demo_emitter demo_moments [Wrote demo_line None]).
  - reflexivity.
  - reflexivity.
  - exact demo_clock.
  - exact E.
Defined.
Lemma exporter_accounts_witness :
  exists taken sent n, length (omap handedOf demo_moments) = 6%nat /\ length taken = (6 - n)%nat /\ sent `sublist_of` taken /\
    Forall2 (lineOf demo_json "cork" "cork") sent (replicate 4 demo_line).
Proof.
  destruct (exporter_accounts demo_json demo_env demo_emitter demo_moments) as (taken & sent & n & _ & Hall & _ & _ & Hs & _ & Hl & _).
  - reflexivity.
  - reflexivity.
  - exists taken, sent, n. change (length (omap handedOf demo_moments)) with 6%nat in Hall |- *.
    assert (lm_ch (em_lm (lived demo_json demo_emitter demo_moments)) = []) as Hq by (vm_compute; reflexivity).
    assert (delivered (lived demo_json demo_emitter demo_moments) = replicate 4 demo_line) as Hd by (vm_compute; reflexivity).
    rewrite Hq in Hall. rewrite Hd in Hl. simpl in Hall. split_and!; [done|lia|done|exact Hl].
Defined.
