(* ===== verification/System.v ===== *)
(** * System: the requests of a running Manager, in any order

    The entry points modelled in the other files as one transition system: a
    request runs against whatever outside it meets (any failure at any call,
    any clock, other goroutines working on the fleet during its calls), and the
    next one finds the state it left.  What holds of every reachable state is
    what the database schema and the port claims promise the rest of the
    system. *)
From S2P Require Import Prelude Types Settings Text Artifacts Queue Worker Database Fleet HostConfig Effects Ports Instances Images Docker Launch Lifecycle Roster Reconcile Builds Converge Builder Rebuild Challenges Schemas Converged Sha256 Seccomp Update Detect HandOver.
Local Open Scope Z_scope.

Inductive request :=
| ReqStart (build : BuildId) (env : gmap string string)
| ReqStop (id : InstanceId)
| ReqRestart (build : BuildMetadata) (c : ChallengeMetadata) (i : InstanceMetadata) (rev : gmap string string)
| ReqPrune
| ReqReconcile (c : nat) (w : workerConn)
| ReqSolve (i : InstanceMetadata)
| ReqBuildSolve (b : BuildMetadata)
| ReqUpdate (fp : string) (prune : bool)
| ReqCreateSchema (schema : Schema)
| ReqUpdateSchema (schema : Schema)
| ReqDeleteSchema (name : string) (retire : bool)
| ReqBuild (challenge : ChallengeId) (seeds : list Z) (format : string)
| ReqDestroy (id : BuildId)
| ReqHandOver (id : ChallengeId) (handOver : option HandOver) (prune : bool)
| ReqRemoveChallenge (id : ChallengeId)
| ReqFleet (op : fleet_op).

(** What a request finds configured: the pins and the templates may change
    between two of them. *)
Record config := mkConfig {
  cf_pins : Z; cf_template : string -> Z; cf_limits : artifactLimits;
  cf_buildPlane : bool; cf_purge : bool; cf_chalDir : string; cf_decode : string -> option seccompProfile }.

Definition serve (cf : config) (r : request) : M unit :=
  let schemaOp (f : Z -> (string -> Z) -> artifactLimits -> bool -> bool -> string -> Schema -> M (option (list error))) schema :=
    f (cf_pins cf) (cf_template cf) (cf_limits cf) (cf_buildPlane cf) (cf_purge cf) (cf_chalDir cf) schema in
  match r with
  | ReqStart build env => _ ← Start build env; mret tt
  | ReqStop id => _ ← Stop id; mret tt
  | ReqRestart build c i rev => _ ← restartInstance build c i rev; mret tt
  | ReqPrune => _ ← Prune; mret tt
  | ReqReconcile c w => _ ← reconcileWorker c w; mret tt
  | ReqSolve i => _ ← recordSolve i; mret tt
  | ReqBuildSolve b => _ ← recordBuildSolve b; mret tt
  | ReqUpdate fp prune =>
    _ ← UpdateWithOptions (cf_pins cf) (cf_template cf) (cf_limits cf) (cf_buildPlane cf) (cf_purge cf) (cf_chalDir cf) fp prune;
    mret tt
  | ReqCreateSchema schema => _ ← schemaOp CreateSchema schema; mret tt
  | ReqUpdateSchema schema => _ ← schemaOp UpdateSchema schema; mret tt
  | ReqDeleteSchema name retire => _ ← DeleteSchema (cf_buildPlane cf) name retire; mret tt
  | ReqBuild challenge seeds format =>
    _ ← Build (cf_pins cf) (cf_template cf) (cf_limits cf) (cf_purge cf) (cf_chalDir cf) challenge seeds format; mret tt
  | ReqDestroy id => _ ← Destroy (cf_buildPlane cf) id; mret tt
  | ReqHandOver id h prune =>
    _ ← HandOverChallenge (cf_decode cf) (cf_pins cf) (cf_template cf) (cf_limits cf) (cf_buildPlane cf) (cf_purge cf) id h prune;
    mret tt
  | ReqRemoveChallenge id => _ ← RemoveChallenge id; mret tt
  | ReqFleet op => modifyM (run_op op)
  end.

(** One request, with the outside it meets. *)
Inductive step : World -> World -> Prop :=
| step_serve cf r o w : step w ((serve cf r (w <| W_o := o |>)).2).

Section keep_system.
Local Abbreviation Ok := (onM tables_ok).

Lemma alter_is_Some {A} (f : A -> A) (m : gmap Z A) i j : is_Some (alter f i m !! j) <-> is_Some (m !! j).
Proof. rewrite lookup_alter. case_decide; [subst; by rewrite fmap_is_Some|done]. Qed.

Lemma solveInstance_ok id t d : db_ok d -> db_ok (solveInstance id t d).
Proof.
  intros []. assert (forall j r, t_instances (solveInstance id t d) !! j = Some r ->
    exists r0, t_instances d !! j = Some r0 /\ i_build r = i_build r0) as Hrow.
  { intros j r. unfold solveInstance. simpl. rewrite lookup_alter. case_decide; [subst|eauto].
    destruct (t_instances d !! j); [|done]. simpl. intros; simplify_eq. eexists. split; [done|]. by case_decide. }
  split; try done.
  - intros j r (r0 & H & _)%Hrow. eauto.
  - intros j r (r0 & H & ->)%Hrow. eauto.
  - eapply Forall_impl; [exact ok_ports|]. intros p [? ?]. split; [by apply alter_is_Some|done].
  - eapply Forall_impl; [exact ok_containers|]. intros p ?. by apply alter_is_Some.
Qed.
Lemma solveBuild_ok id t d : db_ok d -> db_ok (solveBuild id t d).
Proof.
  intros []. split; try done; simpl.
  - intros j r H. apply alter_is_Some. eauto.
  - intros j r. rewrite lookup_alter. case_decide; [subst|eauto].
    destruct (t_builds d !! j) eqn:E; [|done]. simpl. intros; simplify_eq. case_decide; simpl; eauto.
  - intros j r H. apply alter_is_Some. eauto.
Qed.

#[export] Instance keeps_recordBuildSolve b : Keeps Ok (recordBuildSolve b).
Proof. apply keeps_tables_exec; [intros d; apply solveBuild_ok|done]. Qed.
#[export] Instance keeps_recordSolve i : Keeps Ok (recordSolve i).
Proof.
  unfold recordSolve. apply keeps_transaction; [apply _|]. keep; apply keeps_tables_exec; try done; intros d;
    [apply solveInstance_ok|apply solveBuild_ok].
Qed.
#[export] Instance keeps_serve cf r : Keeps Ok (serve cf r).
Proof.
  destruct r; simpl; unfold CreateSchema; keep.
  - apply (keeps_HandOverChallenge tables_ok); apply _.
  - apply (keeps_RemoveChallenge tables_ok).
  - apply keeps_modify. intros m. by apply tables_ok_stable.
Qed.
End keep_system.

(** C2. No host port is handed out twice.  From a database that is in order,
    however the requests come -- launches, stops, restarts, prunes, passes over
    a worker, solves, updates of the challenges, schemas created, updated and
    deleted, builds made by hand and destroyed, challenges handed over and
    removed, fleet operations -- and whatever fails during them, in every state
    reached: with a port range configured no two assignments share a worker and a
    port, every assignment is a valid port of an instance on
    record, every container on record belongs to an instance on record and no
    container is recorded twice. *)
Theorem reachable_tables_ok w w' :
  tables_ok (W_m w) -> rtc step w w' ->
  (m_portLow (W_m w') <> 0 -> forall i j r1 r2,
     t_portAssignments (m_db (W_m w')) !! i = Some r1 -> t_portAssignments (m_db (W_m w')) !! j = Some r2 ->
     p_worker r1 = p_worker r2 -> p_port r1 = p_port r2 -> i = j) /\
  Forall (fun r => is_Some (t_instances (m_db (W_m w')) !! p_instance r) /\ 0 < p_port r < 65536)
    (t_portAssignments (m_db (W_m w'))) /\
  Forall (fun r => is_Some (t_instances (m_db (W_m w')) !! c_instance r)) (t_containers (m_db (W_m w'))) /\
  NoDup (c_id <$> t_containers (m_db (W_m w'))).
Proof.
  intros Hok Hrun. assert (tables_ok (W_m w')) as [[] Hp].
  { induction Hrun as [|w1 w2 w3 [cf r o w1'] _ IH]; [done|]. apply IH. by apply (keeps_serve cf r). }
  split_and!; [|eapply Forall_impl; [exact ok_ports|]|done..].
  - intros Hl i j r1 r2 H1 H2 Hw Hport. specialize (Hp Hl). unfold ports_unique in Hp.
    eapply (NoDup_lookup _ i j (portKey r1) Hp); rewrite list_lookup_fmap; [by rewrite H1|].
    rewrite H2. unfold portKey. simpl. by rewrite Hw, Hport.
  - intros r [Hi Hv]. split; [done|]. unfold validPort in Hv. apply bool_decide_eq_true in Hv. lia.
Qed.

(** Two launches on the demo system, and the stop of the first. *)
Definition some_config : config := mkConfig 0 (fun _ => 0) someLimits false true "/c" no_profiles.
Definition after (r : request) (w : World) : World := (serve some_config r (w <| W_o := calm |>)).2.
Lemma step_after r w : step w (after r w).
Proof. exact (step_serve some_config r calm w). Qed.
Definition demo_run : World := after (ReqStop 2) (after (ReqStart 1 ∅) (after (ReqStart 1 ∅) (port_world calm))).

Lemma reachable_tables_ok_witness :
  rtc step (port_world calm) demo_run /\
  t_portAssignments (m_db (W_m demo_run)) =
    [mkPortRow 1 "old" 30000 "10.0.0.1"; mkPortRow 3 "http" 30000 "10.0.0.2"] /\
  NoDup (c_id <$> t_containers (m_db (W_m demo_run))).
Proof.
  assert (rtc step (port_world calm) demo_run) as Hrun.
  { unfold demo_run. eapply rtc_l; [apply step_after|]. eapply rtc_l; [apply step_after|].
    eapply rtc_l; [apply step_after|]. apply rtc_refl. }
  split; [exact Hrun|]. split; [vm_compute; reflexivity|].
  apply (reachable_tables_ok (port_world calm) demo_run (port_world_ok calm) Hrun).
Defined.

(** ** One row per build

    Every operation keeps the rows of the builds apart by their keys. *)
Definition keyed (w : World) : Prop := builds_unique (m_db (W_m w)).
#[export] Instance aloof_keyed : Aloof keyed.
Proof.
  split; unfold keyed, builds_unique.
  - intros w w' _ [= _ ->] _. done.
  - intros w n. simpl. by rewrite run_ops_builds.
Qed.
Section keep_keys.
Lemma keyed_fixed {A} (e : M A) : (forall B F, Keeps (fixed B F) e) -> Keeps keyed e.
Proof.
  intros He w Hw. destruct (He (t_builds (m_db (W_m w))) (frame (W_m w)) w) as [E _]; [done|].
  unfold keyed, builds_unique. by rewrite E.
Qed.
Lemma keyed_sql {A} (f : Db -> option (Db * A)) :
  (forall d d' a, builds_unique d -> f d = Some (d', a) -> builds_unique d') -> Keeps keyed (sql f).
Proof.
  intros Hf w Hw. unfold keyed in *. run. destruct (o_db _ _); simpl; [done|].
  destruct (f (m_db (W_m w))) as [[d' a]|] eqn:E; simpl; [|done]. by eapply Hf.
Qed.
(** Rows changed in place, under the same key, or dropped. *)
Lemma keys_kept d d' :
  (forall id r, t_builds d' !! id = Some r -> exists r0, t_builds d !! id = Some r0 /\ buildKey r0 = buildKey r) ->
  builds_unique d -> builds_unique d'.
Proof.
  intros H Hu id1 id2 r1 r2 (x1 & H1 & E1)%H (x2 & H2 & E2)%H Hk. eapply Hu; [exact H1|exact H2|congruence].
Qed.
Lemma keyed_exec f :
  (forall d id r, t_builds (f d) !! id = Some r -> exists r0, t_builds d !! id = Some r0 /\ buildKey r0 = buildKey r) ->
  Keeps keyed (sqlExec f).
Proof. intros Hf. apply keyed_sql. intros d d' [] Hu [= <-]. eapply keys_kept; [apply Hf|done]. Qed.

#[export] Instance keyed_lockSchema name : Keeps keyed (lockSchema name).
Proof.
  apply keyed_exec. intros d id r. simpl. rewrite lookup_fmap, fmap_Some. intros (x & Hx & ->). exists x. split; [done|]. by case_decide.
Qed.
#[export] Instance keyed_openStamped b : Keeps keyed (openStamped b).
Proof.
  unfold openStamped. keep. apply keyed_sql. intros d d' [] Hu E. destruct (upsertBuild _ _ d) as [d2|] eqn:Eu; [|done].
  injection E as <-. by eapply upsertBuild_spec.
Qed.
#[export] Instance keyed_stampChecksum pins template b : Keeps keyed (stampChecksum pins template b).
Proof. unfold stampChecksum. keep. Qed.
#[export] Instance keyed_openBuild pins template b : Keeps keyed (openBuild pins template b).
Proof. unfold openBuild. keep. Qed.
#[export] Instance keyed_pruneReplaced bp replaced : Keeps keyed (pruneReplacedImages bp replaced).
Proof. apply pruneReplaced_keeps, _. Qed.
#[export] Instance keyed_openHeld pins template b : Keeps keyed (openHeld pins template b).
Proof. unfold openHeld. keep. Qed.
#[export] Instance keyed_transaction {A} (body : M (error + A)) : DbOnly body -> Keeps keyed body -> Keeps keyed (transaction body).
Proof. intros. by apply (aloof_transaction keyed). Qed.
#[export] Instance keyed_finalizeBuild b : Keeps keyed (finalizeBuild b).
Proof.
  intros w Hw. destruct (finalizeBuild b w) as [r w'] eqn:E. simpl. unfold keyed.
  apply (finalizeBuild_rows b (t_builds (m_db (W_m w))) (frame (W_m w))) in E; [|done]. destruct r as [err|u].
  - destruct E as [E _]. unfold builds_unique. by rewrite E.
  - destruct E as (row & Hrow & [E _]). eapply keys_kept; [|exact Hw]. rewrite E. intros id r. rewrite lookup_insert.
    case_decide; [subst; intros [= <-]; eauto|eauto].
Qed.
#[export] Instance keyed_removeBuildMetadata id : Keeps keyed (removeBuildMetadata id).
Proof.
  unfold removeBuildMetadata. apply keyed_transaction; [apply _|]. keep.
  - apply keyed_exec. intros d k r Hr. exists r. done.
  - apply keyed_sql. intros d d' [] Hu. unfold stmt, deleteBuild. case_decide; [|done]. intros [= <-].
    eapply keys_kept; [|exact Hu]. intros k r. simpl. intros [_ ?]%lookup_delete_Some. eauto.
Qed.
#[export] Instance keyed_destroyImages bp id retire : Keeps keyed (destroyImages bp id retire).
Proof. unfold destroyImages. keep. Qed.
#[export] Instance keyed_stopInstance i : Keeps keyed (stopInstance i).
Proof. apply keyed_fixed. intros. apply _. Qed.
#[export] Instance keyed_newInstance b env limits : Keeps keyed (newInstance b env limits).
Proof. apply keyed_fixed. intros. apply _. Qed.
#[export] Instance keyed_restartInstance b c i rev : Keeps keyed (restartInstance b c i rev).
Proof. apply keyed_fixed. intros. apply _. Qed.
#[export] Instance keyed_convergeBuildInstances b c n : Keeps keyed (convergeBuildInstances b c n).
Proof. apply keyed_fixed. intros. apply _. Qed.
#[export] Instance keyed_renewInstances b c rev ids : Keeps keyed (renewInstances b c rev ids).
Proof. apply keyed_fixed. intros. apply _. Qed.
#[export] Instance keyed_stopAll ids : Keeps keyed (stopAll ids).
Proof. induction ids; simpl; keep. Qed.
#[export] Instance keyed_destroyAll bp ids retire : Keeps keyed (destroyAll bp ids retire).
Proof. induction ids; simpl; keep. Qed.
#[export] Instance keyed_cleanup bp name retire : Keeps keyed (cleanupSchemaResources bp name retire).
Proof. unfold cleanupSchemaResources, removedSchemaInstances, removedSchemaBuilds. keep. Qed.
#[export] Instance keyed_DeleteSchema bp name retire : Keeps keyed (DeleteSchema bp name retire).
Proof. unfold DeleteSchema. keep. apply keyed_exec. intros d k r Hr. by exists r. Qed.

Context (pins : Z) (template : string -> Z) (limits : artifactLimits) (bp purge : bool) (chalDir : string).
#[export] Instance keyed_buildMissing c builds : Keeps keyed (buildMissing pins template limits purge c builds).
Proof. induction builds; simpl; keep. Qed.
#[export] Instance keyed_generateBuilds builds : Keeps keyed (generateBuilds pins template limits purge chalDir builds).
Proof. unfold generateBuilds. keep. Qed.
#[export] Instance keyed_openGroup schema ch count seeds : Keeps keyed (openGroup pins template schema ch count seeds).
Proof. induction seeds; simpl; keep. Qed.
#[export] Instance keyed_openGroups schema entries : Keeps keyed (openGroups pins template schema entries).
Proof. induction entries as [|[ch spec] entries IH]; simpl; keep. Qed.
#[export] Instance keyed_convergeGroup schema c builds : Keeps keyed (convergeGroup schema c builds).
Proof. induction builds; simpl; keep. Qed.
#[export] Instance keyed_convergeGroups schema state : Keeps keyed (convergeGroups pins template limits purge chalDir schema state).
Proof. induction state; simpl; keep. Qed.
#[export] Instance keyed_convergeSchema schema : Keeps keyed (convergeSchema pins template limits bp purge chalDir schema).
Proof. unfold convergeSchema, requireHandedOver. keep. Qed.
#[export] Instance keyed_createSchema schema : Keeps keyed (createSchema pins template limits bp purge chalDir schema).
Proof. unfold createSchema, schemaExists. keep. Qed.
#[export] Instance keyed_reconcileBuild b c rev prune : Keeps keyed (reconcileBuild purge b c rev prune).
Proof. unfold reconcileBuild, storedGeneration. keep. Qed.
#[export] Instance keyed_rebuildLoop md c rev prune ids : Keeps keyed (rebuildLoop pins template limits purge md c rev prune ids).
Proof. induction ids; simpl; keep. Qed.
#[export] Instance keyed_rebuildBuilds md ids prune : Keeps keyed (rebuildBuilds pins template limits bp purge md ids prune).
Proof. unfold rebuildBuilds. keep. Qed.

#[export] Instance safe_keyed : ChallengeSafe (fun m => builds_unique (m_db m)).
Proof.
  assert (forall f, (forall d d', f d = Some d' -> t_builds d' = t_builds d) -> sound (fun m => builds_unique (m_db m)) f) as Hs.
  { intros f Hf m d' Hm E. unfold builds_unique. simpl. by rewrite (Hf _ _ E). }
  split; intros; apply Hs; intros d d'.
  - unfold insertChallenge. case_decide; [|done]. destruct (rowAllowed c); [|done]. by intros [= <-].
  - unfold updateChallenge. destruct (t_challenges d !! _); [destruct (rowAllowed c); [|done]|]; by intros [= <-].
  - unfold deleteChallenge. destruct (existsb _ _); [done|]. by intros [= <-].
  - unfold insertPart. case_decide; [|done]. destruct (allowed _); [|done]. by intros [= <-].
  - by intros [= <-].
Qed.
#[export] Instance keyed_UpdateWithOptions fp prune :
  Keeps keyed (UpdateWithOptions pins template limits bp purge chalDir fp prune).
Proof. apply (keeps_UpdateWithOptions (fun m => builds_unique (m_db m))). intros. apply keyed_rebuildBuilds. Qed.
End keep_keys.

Lemma solveBuild_keys k t d id r :
  t_builds (solveBuild k t d) !! id = Some r -> exists r0, t_builds d !! id = Some r0 /\ buildKey r0 = buildKey r.
Proof.
  simpl. rewrite lookup_alter. case_decide as Hk; [rewrite Hk|eauto].
  destruct (t_builds d !! id) as [x|]; [|done]. simpl. intros [= <-]. exists x. split; [done|]. by case_decide.
Qed.
#[export] Instance keyed_recordBuildSolve b : Keeps keyed (recordBuildSolve b).
Proof. apply keyed_exec. intros d. apply solveBuild_keys. Qed.
#[export] Instance stable_keyed : Stable (fun m => builds_unique (m_db m)).
Proof. intros op m. unfold builds_unique. by rewrite run_op_builds. Qed.
#[export] Instance keyed_recordSolve i : Keeps keyed (recordSolve i).
Proof.
  unfold recordSolve. apply keyed_transaction; [apply _|]. keep; apply keyed_exec; intros d; [eauto|apply solveBuild_keys].
Qed.
#[export] Instance keyed_reconcileWorker c wk : Keeps keyed (reconcileWorker c wk).
Proof. unfold reconcileWorker, removeOrphans. keep; apply (keeps_handOut (fun m => builds_unique (m_db m))). Qed.
#[export] Instance keyed_reclaimAfterGC workers : Keeps keyed (reclaimAfterGC workers).
Proof. induction workers; simpl; keep. Qed.
#[export] Instance keyed_Prune : Keeps keyed Prune.
Proof. unfold Prune. keep; apply keyed_sql; by intros d d' ? Hu [= <-]. Qed.
#[export] Instance keyed_serve cf r : Keeps keyed (serve cf r).
Proof.
  destruct r; simpl; unfold Start, Stop, CreateSchema, UpdateSchema, schemaExists, Build, Destroy; keep.
  - apply (keeps_HandOverChallenge (fun m => builds_unique (m_db m))); intros;
      lazymatch goal with |- Keeps _ ?e => change (Keeps keyed e) end; apply _.
  - apply (keeps_RemoveChallenge (fun m => builds_unique (m_db m))).
  - intros w Hw. by apply (stable (I := fun m => builds_unique (m_db m))).
Qed.

(** A build is on record once: whatever requests come and whatever fails
    during them, in every state reached two rows for the same schema, format,
    challenge and seed are the same row, and so are two names for it: what
    looks a build up by what it is finds the one that is meant. *)
Theorem reachable_builds_unique w w' :
  builds_unique (m_db (W_m w)) -> rtc step w w' ->
  forall id r, t_builds (m_db (W_m w')) !! id = Some r ->
    buildNamed (buildKey r) (m_db (W_m w')) = Some (id, r) /\
    forall id' r', t_builds (m_db (W_m w')) !! id' = Some r' -> buildKey r' = buildKey r -> id' = id.
Proof.
  intros Hu Hrun. assert (keyed w') as Hk.
  { induction Hrun as [|w1 w2 w3 [cf r o w1'] _ IH]; [done|]. apply IH. by apply (keyed_serve cf r). }
  intros id r Hr. split; [by apply buildNamed_unique|]. intros id' r' Hr' E. by eapply Hk.
Qed.

(** A schema that adds a second build to the first. *)
Lemma reachable_builds_unique_witness :
  let w' := (serve some_config (ReqUpdateSchema (event_schema 2)) (event_world <| W_o := W_o event_world |>)).2 in
  rtc step event_world w' /\ exists id r, t_builds (m_db (W_m w')) !! id = Some r /\
    buildNamed ("event", "flag{%s}", "web", 7)%string (m_db (W_m w')) = Some (id, r).
Proof.
  intros w'. assert (rtc step event_world w') as Hrun by (apply rtc_once, step_serve).
  split; [exact Hrun|]. exists 2. destruct (t_builds (m_db (W_m w')) !! 2) as [r|] eqn:Er; [|vm_compute in Er; discriminate].
  exists r. split; [reflexivity|].
  destruct (reachable_builds_unique event_world w' event_unique Hrun 2 r Er) as [Hn _].
  assert (buildKey r = ("event", "flag{%s}", "web", 7)%string) as Ek by (vm_compute in Er; injection Er as <-; reflexivity).
  rewrite Ek in Hn. exact Hn.
Defined.
