(* ===== verification/Server.v ===== *)
(** * Server: the HTTP API of [corkd] ([cmd/corkd])

    What [net/http] does for the daemon, as far as the handlers rely on it (the
    multiplexer, a response whose header goes out once, queries and escaped
    paths), and the handlers, one definition each.  They run against
    [managerOps], the methods of the Manager they call; every method may panic,
    which [net/http] turns into a closed connection.  [encoding/json] and the
    texts of errors are parameters. *)
From S2P Require Import Prelude Types Settings Text Artifacts Fleet Challenges HandOver BasePins Refresh Bundles Preload Deploy.
Local Open Scope Z_scope.

(** ** Escaped texts ([net/url]) *)
Definition hexValue (c : ascii) : option Z :=
  let n := Z.of_nat (nat_of_ascii c) in
  if decide (48 <= n <= 57) then Some (n - 48)
  else if decide (97 <= n <= 102) then Some (n - 87)
  else if decide (65 <= n <= 70) then Some (n - 55)
  else None.
Definition upperHex (n : Z) : ascii := ascii_of_nat (Z.to_nat (if decide (n < 10) then 48 + n else 55 + n)).
Inductive encoding := encodePath | encodePathSegment | encodeQueryComponent.
#[export] Instance encoding_eq_dec : EqDecision encoding.
Proof. solve_decision. Defined.
Fixpoint unescape (mode : encoding) (s : string) : option string :=
  match s with
  | EmptyString => Some EmptyString
  | String c rest =>
    if decide (c = "%"%char) then
      match rest with
      | String a (String b rest) =>
        hi ← hexValue a; lo ← hexValue b;
        String (ascii_of_nat (Z.to_nat (16 * hi + lo))) <$> unescape mode rest
      | _ => None
      end
    else String (if decide (c = "+"%char /\ mode = encodeQueryComponent) then " "%char else c) <$> unescape mode rest
  end.
Definition alphanumeric (c : ascii) : bool :=
  let n := Z.of_nat (nat_of_ascii c) in
  bool_decide (48 <= n <= 57) || bool_decide (65 <= n <= 90) || bool_decide (97 <= n <= 122).
Definition among (c : ascii) (set : list ascii) : bool := bool_decide (c ∈ set).
Definition shouldEscape (mode : encoding) (c : ascii) : bool :=
  if alphanumeric c || among c ["-"; "_"; "."; "~"]%char then false
  else if among c ["$"; "&"; "+"; ","; "/"; ":"; ";"; "="; "?"; "@"]%char then
    match mode with
    | encodePath => among c ["?"]%char
    | encodePathSegment => among c ["/"; ";"; ","; "?"]%char
    | encodeQueryComponent => true
    end
  else true.
Definition escapeChar (mode : encoding) (c : ascii) (rest : string) : string :=
  if shouldEscape mode c then
    if decide (c = " "%char /\ mode = encodeQueryComponent) then String "+" rest
    else let n := Z.of_nat (nat_of_ascii c) in String "%" (String (upperHex (n / 16)) (String (upperHex (n mod 16)) rest))
  else String c rest.
Fixpoint escape (mode : encoding) (s : string) : string :=
  match s with EmptyString => EmptyString | String c s => escapeChar mode c (escape mode s) end.
Definition PathEscape : string -> string := escape encodePathSegment.
Definition QueryEscape : string -> string := escape encodeQueryComponent.
Definition validChar (c : ascii) : bool :=
  among c ["!"; "$"; "&"; "'"; "("; ")"; "*"; "+"; ","; ";"; "="; ":"; "@"; "["; "]"; "%"]%char || negb (shouldEscape encodePath c).
Definition validEncoded (s : string) : bool := all_chars validChar s.

(** [url.Values]: the pairs in the order they are read; [Query] leaves out what
    does not decode. *)
Definition parsePair (pair : string) : option (string * string) :=
  if decide (pair = ""%string) then None
  else if containsChar ";" pair then None
  else
    let '(key, value) := default (pair, ""%string) (Cut "=" pair) in
    k ← unescape encodeQueryComponent key;
    v ← unescape encodeQueryComponent value;
    Some (k, v).
Definition Query (raw : string) : list (string * string) := omap parsePair (SplitOn "&" raw).
Definition valuesOf (q : list (string * string)) (key : string) : list string := snd <$> filter (fun kv => kv.1 = key) q.
Definition queryGet (q : list (string * string)) (key : string) : string := default ""%string (head (valuesOf q key)).

(** ** Requests *)
Record httpRequest := mkRequest {
  rq_method : string;
  rq_target : string;                     (* the path as it was sent *)
  rq_rawQuery : string;
  rq_body : error + string }.
(** [r.URL.Path] and [r.URL.EscapedPath()]; a target that does not decode never
    reaches a handler. *)
Definition urlPath (r : httpRequest) : string := default ""%string (unescape encodePath (rq_target r)).
Definition escapedPath (r : httpRequest) : string :=
  if validEncoded (rq_target r) then rq_target r else escape encodePath (urlPath r).

(** ** The multiplexer *)
Inductive endpoint :=
| listEndpoint | challengeEndpoint | buildEndpoint | instanceEndpoint | workersEndpoint | workerEndpoint
| preloadsEndpoint | preloadEndpoint | pinsEndpoint | schemaEndpoint | existingSchemaEndpoint
| updateEndpoint | stateEndpoint | versionEndpoint.
#[export] Instance endpoint_eq_dec : EqDecision endpoint.
Proof. solve_decision. Defined.
(** What [main] registers. *)
Definition registered : list (string * endpoint) :=
  [("/challenges", listEndpoint); ("/challenges/", challengeEndpoint); ("/builds/", buildEndpoint);
   ("/instances/", instanceEndpoint); ("/workers", workersEndpoint); ("/workers/", workerEndpoint);
   ("/preloads", preloadsEndpoint); ("/preloads/", preloadEndpoint); ("/pins", pinsEndpoint);
   ("/schemas", schemaEndpoint); ("/schemas/", existingSchemaEndpoint); ("/update", updateEndpoint);
   ("/state", stateEndpoint); ("/version", versionEndpoint)]%string.
Fixpoint lastChar (s : string) : option ascii :=
  match s with EmptyString => None | String c EmptyString => Some c | String _ s => lastChar s end.
Definition endsInSlash (s : string) : bool := bool_decide (lastChar s = Some slash).
Definition cleanPath (p : string) : string :=
  if decide (p = ""%string) then "/"%string
  else
    let p := if isAbs p then p else ("/" +:+ p)%string in
    let np := Clean p in
    if endsInSlash p && negb (bool_decide (np = "/"%string)) then (np +:+ "/")%string else np.
Definition segments (p : string) : list string := (fun s => default s (unescape encodePathSegment s)) <$> SplitOn slash p.
(** A pattern that ends in a slash takes every path below it. *)
Definition matchesPattern (pattern path : string) : bool :=
  let ps := SplitOn slash pattern in
  if endsInSlash pattern then
    let n := pred (length ps) in bool_decide (take n (segments path) = take n ps) && bool_decide (n < length (segments path))%nat
  else bool_decide (segments path = ps).
Definition matchPath (path : string) : option endpoint :=
  snd <$> List.find (fun pe => matchesPattern pe.1 path) registered.
Inductive dispatched := ToHandler (e : endpoint) | ToRedirect (location : string) | ToNotFound.
Definition dispatch (escaped : string) : dispatched :=
  let path := cleanPath escaped in
  match matchPath path with
  | Some e => if decide (path <> escaped) then ToRedirect path else ToHandler e
  | None =>
    if negb (endsInSlash path) && bool_decide ((path +:+ "/")%string ∈ registered.*1) then ToRedirect (path +:+ "/")%string
    else if decide (path <> escaped) then ToRedirect path else ToNotFound
  end.

(** ** Responses

    A response's header goes out once, with the first [WriteHeader] or the first
    [Write]; what is set or said of it later is lost.  A 204 has no body. *)
Record ResponseWriter := mkWriter {
  wr_header : gmap string string;
  wr_sent : option (Z * gmap string string);
  wr_body : string }.
#[export] Instance eta_ResponseWriter : Eta ResponseWriter := fun w => mkWriter (wr_header w) (wr_sent w) (wr_body w).
Definition newWriter : ResponseWriter := mkWriter ∅ None "".
Definition sendHeader (code : Z) (w : ResponseWriter) : ResponseWriter :=
  match wr_sent w with None => w <| wr_sent := Some (code, wr_header w) |> | Some _ => w end.
Definition writeBody (text : string) (w : ResponseWriter) : ResponseWriter :=
  let w := sendHeader 200 w in
  match wr_sent w with
  | Some (204, _) => w
  | _ => w <| wr_body ::= (fun b => b +:+ text)%string |>
  end.
Record httpResponse := mkHttpResponse { hr_status : Z; hr_header : gmap string string; hr_body : string }.
Definition responseOf (w : ResponseWriter) : httpResponse :=
  let '(code, header) := default (200, wr_header w) (wr_sent w) in mkHttpResponse code header (wr_body w).

(** ** The Manager as the handlers see it *)
Definition op (G A : Type) : Type := G -> option A * G.
Record managerOps (G : Type) := mkManagerOps {
  mo_BuildPlane : G -> string;
  mo_WorkersConfigured : G -> bool;
  mo_ListChallenges : op G (list ChallengeMetadata);
  mo_SearchChallenges : list string -> op G (list ChallengeMetadata);
  mo_GetChallengeMetadata : ChallengeId -> op G (error + ChallengeMetadata);
  mo_Build : ChallengeId -> list Z -> string -> op G (list BuildMetadata * option error);
  mo_HandOverChallenge : ChallengeId -> HandOver -> bool -> op G (error + ChallengeUpdates);
  mo_RemoveChallenge : ChallengeId -> op G (error + unit);
  mo_GetBuildMetadata : BuildId -> op G (error + BuildMetadata);
  mo_Start : BuildId -> gmap string string -> op G (error + InstanceId);
  mo_GetInstanceMetadata : InstanceId -> op G (error + InstanceMetadata);
  mo_Destroy : BuildId -> op G (error + unit);
  mo_Stop : InstanceId -> op G (error + unit);
  mo_GetSchemaState : string -> op G (error + list ChallengeMetadata);
  mo_ListSchemas : op G (error + list string);
  mo_CreateSchema : Schema -> op G (list error);
  mo_UpdateSchema : Schema -> op G (list error);
  mo_DeleteSchema : string -> bool -> op G (error + unit);
  mo_DetectChanges : string -> op G ChallengeUpdates;
  mo_UpdateWithOptions : string -> bool -> op G ChallengeUpdates;
  mo_DumpState : op G (error + list ChallengeMetadata);
  mo_ListWorkers : op G (error + list WorkerInfo);
  mo_AddWorker : string -> string -> op G (error + unit);
  mo_SetWorkerDown : string -> op G (error + unit);
  mo_RemoveWorker : string -> op G (error + unit);
  mo_ListPreloads : op G (error + list PreloadInfo);
  mo_AddPreload : string -> op G (error + unit);
  mo_RemovePreload : string -> op G (error + list string);
  mo_ListBasePins : op G (option (list BasePin) * option error);
  mo_RefreshBasePins : op G (option (list BasePin) * option error) }.
Arguments mo_BuildPlane {G}. Arguments mo_WorkersConfigured {G}. Arguments mo_ListChallenges {G}. Arguments mo_SearchChallenges {G}.
Arguments mo_GetChallengeMetadata {G}. Arguments mo_Build {G}. Arguments mo_HandOverChallenge {G}. Arguments mo_RemoveChallenge {G}.
Arguments mo_GetBuildMetadata {G}. Arguments mo_Start {G}. Arguments mo_GetInstanceMetadata {G}. Arguments mo_Destroy {G}. Arguments mo_Stop {G}.
Arguments mo_GetSchemaState {G}. Arguments mo_ListSchemas {G}. Arguments mo_CreateSchema {G}. Arguments mo_UpdateSchema {G}. Arguments mo_DeleteSchema {G}.
Arguments mo_DetectChanges {G}. Arguments mo_UpdateWithOptions {G}. Arguments mo_DumpState {G}. Arguments mo_ListWorkers {G}. Arguments mo_AddWorker {G}.
Arguments mo_SetWorkerDown {G}. Arguments mo_RemoveWorker {G}. Arguments mo_ListPreloads {G}. Arguments mo_AddPreload {G}. Arguments mo_RemovePreload {G}.
Arguments mo_ListBasePins {G}. Arguments mo_RefreshBasePins {G}.

(** ** Bodies *)
Record ChallengeListElement := mkListElement {
  le_id : ChallengeId; le_sourceChecksum : Z; le_metadataChecksum : Z; le_solveScript : bool; le_deliveryType : DeliveryType }.
Record BuildChallengeRequest := mkBuildRequest { br_flagFormat : string; br_seeds : list Z }.
Record InstanceStartRequest := mkStartRequest { sr_userId : string; sr_env : gmap string string }.
Record UpdateRequest := mkUpdateRequest { ur_path : string; ur_dryRun : bool; ur_pruneOld : bool }.
Record UpdateResponse := mkUpdateResponse {
  up_added : list ChallengeId; up_refreshed : list ChallengeId; up_updated : list ChallengeId; up_stale : list ChallengeId;
  up_removed : list ChallengeId; up_unmodified : list ChallengeId; up_errors : list string }.
Record HandOverResponse := mkHandOverResponse { hor_update : UpdateResponse; hor_challenge : option ChallengeMetadata }.
Record WorkerAddRequest := mkWorkerAdd { wa_ip : string; wa_public : string }.
(** What a [Decoder] makes of a body: [EOF] is an empty one. *)
Inductive decoded (A : Type) := DecodeEOF | DecodeError (err : error) | Decoded (a : A).
Arguments DecodeEOF {A}. Arguments DecodeError {A}. Arguments Decoded {A}.
(** [json.Marshal], [json.Unmarshal] and [Decoder.Decode] at the types in use;
    a JSON null leaves a pointer to a schema nil. *)
Record codec := mkCodec {
  en_list : list ChallengeListElement -> error + string;
  en_challenge : ChallengeMetadata -> error + string;
  en_challenges : list ChallengeMetadata -> error + string;
  en_builds : list BuildMetadata -> error + string;
  en_build : BuildMetadata -> error + string;
  en_instance : InstanceMetadata -> error + string;
  en_names : list string -> error + string;
  en_handOver : HandOverResponse -> error + string;
  en_update : UpdateResponse -> error + string;
  en_version : string * string -> string;
  en_workers : list WorkerInfo -> error + string;
  en_preloads : list PreloadInfo -> error + string;
  en_configured : bool -> string;
  en_released : list string -> string;
  en_pins : list BasePin * string -> error + string;
  de_build : string -> error + BuildChallengeRequest;
  de_schema : string -> error + option Schema;
  de_handOver : error + string -> decoded HandOver;
  de_start : error + string -> decoded InstanceStartRequest;
  de_update : error + string -> decoded UpdateRequest;
  de_worker : error + string -> decoded WorkerAddRequest;
  de_health : error + string -> decoded string;
  de_preload : error + string -> decoded string }.

(** ** Statuses *)

(** [err.( *UnknownIdentifierError )] holds of the error itself, not of one it
    wraps: nothing else is found along its chain. *)
Definition bareUnknown (err : error) : bool := match err with [UnknownIdentifier _ _] => true | _ => false end.
Definition ErrPreloadNeedsRegistry : sentinel := OtherError "preloading needs a challenge registry".
Definition retryableLaunch : list sentinel :=
  [ErrAllWorkersOverloaded; ErrAllWorkersUnresponsive; ErrWorkerBusy; ErrWorkerUnreachable; ErrPullTimeout; ErrDatabaseBusy].
Definition retryableStop : list sentinel := [ErrDatabaseBusy; ErrWorkerBusy].
Definition errorResponse (err : error) (retryable : list sentinel) : Z * bool :=
  if bareUnknown err then (404, false)
  else if existsb (errors_Is err) retryable then (503, true)
  else (500, false).
Fixpoint schemaStatusFrom (status : Z) (errs : list error) : Z :=
  match errs with
  | [] => if decide (status = 0) then 500 else status
  | err :: errs =>
    let code := if errors_Is err ErrExternalBuildPlane then 409 else if isUnknownIdentifier err then 404 else 500 in
    if decide (code = 500 \/ (status <> 0 /\ status <> code)) then 500 else schemaStatusFrom code errs
  end.
Definition schemaStatus (errs : list error) : Z := schemaStatusFrom 0 errs.
(** [errors.Join]: a new error around the others. *)
Definition joinErrors (errs : list error) : error := OtherError "joined" :: mjoin errs.

(** ** Handlers *)
Definition H (G A : Type) : Type := G * ResponseWriter -> option A * (G * ResponseWriter).
#[export] Instance H_ret {G} : MRet (H G) := fun _ a s => (Some a, s).
#[export] Instance H_bind {G} : MBind (H G) := fun _ _ k e s =>
  match e s with (Some a, s) => k a s | (None, s) => (None, s) end.
Definition panic {G A} : H G A := fun s => (None, s).
Definition invoke {G A} (f : op G A) : H G A := fun s => let '(r, g) := f s.1 in (r, (g, s.2)).
Definition asks {G A} (f : G -> A) : H G A := fun s => (Some (f s.1), s).
Definition tell {G} (f : ResponseWriter -> ResponseWriter) : H G unit := fun s => (Some tt, (s.1, f s.2)).
Definition WriteHeader {G} (code : Z) : H G unit := tell (sendHeader code).
Definition Write {G} (text : string) : H G unit := tell (writeBody text).
Definition setHeader {G} (key value : string) : H G unit := tell (fun w => w <| wr_header ::= <[key := value]> |>).
(** The two calls that end most handlers. *)
Definition reply {G} (code : Z) (text : string) : H G unit := WriteHeader code;; Write text.

(** [(value, error)] as a switch over the method leaves them. *)
Definition bodyOf (r : error + string) : string * option error := match r with inl err => (""%string, Some err) | inr body => (body, None) end.
Definition errOf {A} (r : error + A) : option error := match r with inl err => Some err | inr _ => None end.

(** The challenge of a path: the segments behind the last "challenges". *)
Fixpoint challengeFrom (reversed : list string) (chalStr : string) : option string :=
  match reversed with
  | [] => None
  | seg :: rest => if decide (seg = "challenges"%string) then Some chalStr else challengeFrom rest (seg +:+ "/" +:+ chalStr)%string
  end.
Definition challengeOf (path : string) : option ChallengeId :=
  match challengeFrom (reverse (SplitOn slash path)) ""%string with
  | None => None
  | Some chalStr =>
    if decide (chalStr = ""%string) then None else Some (String.substring 0 (String.length chalStr - 1) chalStr)
  end.
(** The last segment of a path whose last but one is [parent]. *)
Definition lastBelow (parent path : string) : option string :=
  match reverse (SplitOn slash path) with
  | last :: above :: _ => if decide (above = parent) then Some last else None
  | _ => None
  end.
(** [strconv.Atoi] gives a value with its error too: 0, or the bound passed. *)
Definition atoiAnyway (s : string) : Z :=
  match Atoi s with
  | Some n => n
  | None =>
    let '(neg, digits) := match s with
                          | String "-"%char rest => (true, rest)
                          | String "+"%char rest => (false, rest)
                          | _ => (false, s)
                          end in
    if decide (digits = ""%string) then 0
    else match digitsVal 0 digits with None => 0 | Some _ => if neg : bool then - two63 else two63 - 1 end
  end.
Definition handOverJSONLimit : Z := 16 * 2 ^ 20.
Definition limitBody (body : error + string) : error + string :=
  match body with inl err => inl err | inr text => inr (LimitReader handOverJSONLimit text) end.
Definition listElement (c : ChallengeMetadata) : ChallengeListElement :=
  mkListElement (cm_id c) (cm_sourceChecksum c) (cm_metadataChecksum c) (cm_solveScript c) (cm_deliveryType c).
Definition challengeIds (metas : list ChallengeMetadata) : list ChallengeId := cm_id <$> metas.
(** What an instance is started with: the caller's variables behind a prefix,
    and who the caller says plays it. *)
Definition startEnv (req : InstanceStartRequest) : gmap string string :=
  let env := foldl (fun env kv => <[("CMGR_" +:+ kv.1)%string := kv.2]> env) ∅ (map_to_list (sr_env req)) in
  if decide (sr_userId req <> ""%string) then <["CMGR_USER_ID"%string := sr_userId req]> env else env.
Definition quoted (s : string) : string := (String (ascii_of_nat 34) s +:+ String (ascii_of_nat 34) "")%string.
Definition errString (errorText : error -> string) (err : option error) : string := from_option errorText ""%string err.

Section handlers.
Context {G : Type} (mgr : managerOps G) (js : codec) (errorText : error -> string) (env : environ) (version : string).

Definition refuseOnExternalBuildPlane : H G bool :=
  plane ← asks (mo_BuildPlane mgr);
  if decide (plane <> BuildPlaneExternal) then mret false
  else reply 409 (errorText [ErrExternalBuildPlane]);; mret true.

Definition listHandler (r : httpRequest) : H G unit :=
  if decide (rq_method r <> "GET"%string) then WriteHeader 405
  else
    let tags := valuesOf (Query (rq_rawQuery r)) "tags" in
    challenges ← (if decide (tags = []) then invoke (mo_ListChallenges mgr) else invoke (mo_SearchChallenges mgr tags));
    match en_list js (listElement <$> challenges) with
    | inl err => reply 500 (errorText err)
    | inr body => Write body
    end.

(** How the handlers of a challenge and of schemas end. *)
Definition conclude (respCode : Z) (body : string) (err : option error) (status : error -> Z) : H G unit :=
  match err with
  | Some err => reply (status err) (errorText err)
  | None => reply respCode body
  end.
Definition challengeStatus (err : error) : Z :=
  if errors_Is err ErrChallengeHasBuilds then 409 else if bareUnknown err then 404 else 500.

Definition updateResponse (u : ChallengeUpdates) : UpdateResponse :=
  mkUpdateResponse (challengeIds (cu_added u)) (challengeIds (cu_refreshed u)) (challengeIds (cu_updated u)) (challengeIds (cu_stale u))
    (challengeIds (cu_removed u)) (challengeIds (cu_unmodified u)) (errorText <$> cu_errors u).
(** The last bucket that is not empty, in this order. *)
Definition recordedChallenge (u : ChallengeUpdates) : option ChallengeMetadata :=
  foldl (fun c bucket => match bucket with [] => c | b :: _ => Some b end) None
    [cu_added u; cu_updated u; cu_refreshed u; cu_stale u; cu_unmodified u].
Definition handOverStatus (err : error) : Z :=
  if errors_Is err ErrHandOverInvalid then 400
  else if errors_Is err ErrNotInRegistry || errors_Is err ErrLocalBuildPlane then 409
  else 500.
Definition handOverHandler (r : httpRequest) (challenge : ChallengeId) : H G unit :=
  match de_handOver js (limitBody (rq_body r)) with
  | DecodeEOF => reply 400 ("invalid hand-over JSON: " +:+ errorText [OtherError "EOF"])%string
  | DecodeError err => reply 400 ("invalid hand-over JSON: " +:+ errorText err)%string
  | Decoded handOver =>
    let prune := bool_decide (queryGet (Query (rq_rawQuery r)) "prune_old" = "true"%string) in
    res ← invoke (mo_HandOverChallenge mgr challenge handOver prune);
    match res with
    | inl err => reply (handOverStatus err) (errorText err)
    | inr updates =>
      match en_handOver js (mkHandOverResponse (updateResponse updates) (recordedChallenge updates)) with
      | inl err => reply 500 (errorText err)
      | inr body => (if decide (cu_errors updates <> []) then WriteHeader 500 else mret tt);; Write body
      end
    end
  end.

Definition challengeHandler (r : httpRequest) : H G unit :=
  match challengeOf (urlPath r) with
  | None => WriteHeader 404
  | Some challenge =>
    if decide (rq_method r = "GET"%string) then
      meta ← invoke (mo_GetChallengeMetadata mgr challenge);
      let '(body, err) := bodyOf (match meta with inl err => inl err | inr meta => en_challenge js meta end) in
      conclude 200 body err challengeStatus
    else if decide (rq_method r = "POST"%string) then
      refused ← refuseOnExternalBuildPlane;
      if refused : bool then mret tt
      else
        match (match rq_body r with inl err => inl err | inr data => de_build js data end) with
        | inl err => conclude 200 "" (Some err) challengeStatus
        | inr req =>
          let format := if decide (br_flagFormat req = ""%string) then "flag{%s}"%string else br_flagFormat req in
          '(builds, err) ← invoke (mo_Build mgr challenge (br_seeds req) format);
          let '(body, err) := match err with Some err => (""%string, Some err) | None => bodyOf (en_builds js builds) end in
          conclude 200 body err challengeStatus
        end
    else if decide (rq_method r = "PUT"%string) then handOverHandler r challenge
    else if decide (rq_method r = "DELETE"%string) then
      res ← invoke (mo_RemoveChallenge mgr challenge);
      conclude 204 "" (errOf res) challengeStatus
    else WriteHeader 405
  end.

(** How the handlers of a build and of an instance end. *)
Definition finishRetryable (retryable : list sentinel) (respCode : Z) (body : string) (err : option error) : H G unit :=
  match err with
  | Some err =>
    let '(code, retry) := errorResponse err retryable in
    (if retry : bool then setHeader "Retry-After" "1" else mret tt);; reply code (errorText err)
  | None => reply respCode body
  end.
Definition launchHandler (r : httpRequest) (build : BuildId) : H G unit :=
  let go req :=
    inst ← invoke (mo_Start mgr build (startEnv req));
    match inst with
    | inl err => finishRetryable retryableLaunch 201 "" (Some err)
    | inr inst =>
      meta ← invoke (mo_GetInstanceMetadata mgr inst);
      let '(body, err) := bodyOf (match meta with inl err => inl err | inr meta => en_instance js meta end) in
      finishRetryable retryableLaunch 201 body err
    end in
  match de_start js (rq_body r) with
  | DecodeError err => reply 400 ("invalid request body: " +:+ errorText err)%string
  | DecodeEOF => go (mkStartRequest "" ∅)
  | Decoded req => go req
  end.
(** A build that is no number is answered with a 400 and gone on with. *)
Definition buildHandler (r : httpRequest) : H G unit :=
  let path := SplitOn slash (urlPath r) in
  if decide (length path = 4%nat) then WriteHeader 404
  else
    match lastBelow "builds" (urlPath r) with
    | None => WriteHeader 404
    | Some last =>
      (match Atoi last with None => reply 400 (errorText [OtherError "Atoi"]) | Some _ => mret tt end);;
      let build := atoiAnyway last in
      if decide (rq_method r = "GET"%string) then
        meta ← invoke (mo_GetBuildMetadata mgr build);
        let '(body, err) := bodyOf (match meta with inl err => inl err | inr meta => en_build js meta end) in
        finishRetryable retryableLaunch 200 body err
      else if decide (rq_method r = "POST"%string) then launchHandler r build
      else if decide (rq_method r = "DELETE"%string) then
        res ← invoke (mo_Destroy mgr build);
        finishRetryable retryableLaunch 204 "" (errOf res)
      else WriteHeader 405
    end.
Definition instanceHandler (r : httpRequest) : H G unit :=
  match lastBelow "instances" (urlPath r) with
  | None => WriteHeader 404
  | Some last =>
    match Atoi last with
    | None => reply 400 (errorText [OtherError "Atoi"])
    | Some inst =>
      if decide (rq_method r = "GET"%string) then
        meta ← invoke (mo_GetInstanceMetadata mgr inst);
        let '(body, err) := bodyOf (match meta with inl err => inl err | inr meta => en_instance js meta end) in
        finishRetryable retryableStop 200 body err
      else if decide (rq_method r = "DELETE"%string) then
        res ← invoke (mo_Stop mgr inst);
        finishRetryable retryableStop 204 "" (match res with inl err => if bareUnknown err then None else Some err | inr _ => None end)
      else WriteHeader 405
    end
  end.

(** How the handlers of schemas end; [errStatus] is 0 when nothing set it. *)
Definition finishSchema (respCode : Z) (body : string) (err : option error) (errStatus : Z) : H G unit :=
  conclude respCode body err (fun err => if decide (errStatus <> 0) then errStatus else if bareUnknown err then 404 else 500).
(** What the errors of a schema operation come to. *)
Definition finishConverge (respCode : Z) (errs : list error) : H G unit :=
  match errs with
  | [] => finishSchema respCode "" None 0
  | _ => finishSchema respCode "" (Some (joinErrors errs)) (schemaStatus errs)
  end.
Definition readSchema (r : httpRequest) : error + option Schema :=
  match rq_body r with inl err => inl err | inr data => de_schema js data end.
Definition existingSchemaHandler (r : httpRequest) : H G unit :=
  match lastBelow "schemas" (urlPath r) with
  | None => WriteHeader 404
  | Some schema =>
    if decide (rq_method r = "GET"%string) then
      meta ← invoke (mo_GetSchemaState mgr schema);
      let '(body, err) := bodyOf (match meta with inl err => inl err | inr meta => en_challenges js meta end) in
      finishSchema 200 body err 0
    else if decide (rq_method r = "POST"%string) then
      match readSchema r with
      | inl err => finishSchema 204 "" (Some err) 0
      | inr None => panic
      | inr (Some def) =>
        if decide (sch_name def <> schema) then
          finishSchema 400 "" (Some [OtherError "mismatch between endpoint and schema name"]) 0
        else errs ← invoke (mo_UpdateSchema mgr def); finishConverge 204 errs
      end
    else if decide (rq_method r = "DELETE"%string) then
      let retire := negb (bool_decide (queryGet (Query (rq_rawQuery r)) "retire" = "false"%string)) in
      res ← invoke (mo_DeleteSchema mgr schema retire);
      finishSchema 204 "" (errOf res) 0
    else WriteHeader 405
  end.
Definition schemaHandler (r : httpRequest) : H G unit :=
  if decide (rq_method r = "GET"%string) then
    l ← invoke (mo_ListSchemas mgr);
    let '(body, err) := bodyOf (match l with inl err => inl err | inr l => en_names js l end) in
    finishSchema 200 body err 0
  else if decide (rq_method r = "POST"%string) then
    match readSchema r with
    | inl err => finishSchema 200 "" (Some err) 0
    | inr None => panic
    | inr (Some def) => errs ← invoke (mo_CreateSchema mgr def); finishConverge 201 errs
    end
  else WriteHeader 405.

Definition updateHandler (r : httpRequest) : H G unit :=
  if decide (rq_method r <> "POST"%string) then WriteHeader 405
  else
    refused ← refuseOnExternalBuildPlane;
    if refused : bool then mret tt
    else
      let go req :=
        let path := if decide (ur_path req = ""%string) then
                      let dir := Getenv env DIR_ENV in if decide (dir = ""%string) then "."%string else dir
                    else ur_path req in
        updates ← (if ur_dryRun req then invoke (mo_DetectChanges mgr path) else invoke (mo_UpdateWithOptions mgr path (ur_pruneOld req)));
        match en_update js (updateResponse updates) with
        | inl err => reply 500 (errorText err)
        | inr body => Write body
        end in
      match de_update js (rq_body r) with
      | DecodeError err => reply 400 ("invalid request body: " +:+ errorText err)%string
      | DecodeEOF => go (mkUpdateRequest "" false false)
      | Decoded req => go req
      end.
Definition stateHandler (r : httpRequest) : H G unit :=
  if decide (rq_method r <> "GET"%string) then WriteHeader 405
  else
    meta ← invoke (mo_DumpState mgr);
    match (match meta with inl err => inl err | inr meta => en_challenges js meta end) with
    | inl err => reply 500 (errorText err)
    | inr body => Write body
    end.
Definition versionHandler (r : httpRequest) : H G unit :=
  if decide (rq_method r <> "GET"%string) then WriteHeader 405
  else plane ← asks (mo_BuildPlane mgr); Write (en_version js (version, plane)).

(** *** Workers *)
Definition workersHandler (r : httpRequest) : H G unit :=
  if decide (rq_method r = "GET"%string) then
    infos ← invoke (mo_ListWorkers mgr);
    match (match infos with inl err => inl err | inr infos => en_workers js infos end) with
    | inl err => reply 500 (errorText err)
    | inr body => Write body
    end
  else if decide (rq_method r = "POST"%string) then
    match de_worker js (rq_body r) with
    | DecodeEOF => reply 400 ("invalid request body: " +:+ errorText [OtherError "EOF"])%string
    | DecodeError err => reply 400 ("invalid request body: " +:+ errorText err)%string
    | Decoded req =>
      res ← invoke (mo_AddWorker mgr (wa_ip req) (wa_public req));
      match res with inl err => reply 400 (errorText err) | inr _ => WriteHeader 201 end
    end
  else WriteHeader 405.
Definition workerDone (res : error + unit) : H G unit :=
  match res with
  | inl err => reply (if bareUnknown err then 404 else 500) (errorText err)
  | inr _ => WriteHeader 204
  end.
Definition workerHandler (r : httpRequest) : H G unit :=
  if decide (rq_method r <> "DELETE" /\ rq_method r <> "PATCH")%string then WriteHeader 405
  else
    let ip := TrimPrefix (urlPath r) "/workers/" in
    if bool_decide (ip = ""%string) || containsChar slash ip then WriteHeader 404
    else if decide (rq_method r = "PATCH"%string) then
      match de_health js (rq_body r) with
      | DecodeEOF => reply 400 ("invalid request body: " +:+ errorText [OtherError "EOF"])%string
      | DecodeError err => reply 400 ("invalid request body: " +:+ errorText err)%string
      | Decoded health =>
        if decide (health <> "down"%string) then reply 400 ("only " +:+ quoted "down" +:+ " may be set manually; recover a worker with POST /workers")%string
        else res ← invoke (mo_SetWorkerDown mgr ip); workerDone res
      end
    else res ← invoke (mo_RemoveWorker mgr ip); workerDone res.

(** *** Preloads *)
Definition wantSchema : string := ("invalid request body: want {" +:+ quoted "schema" +:+ ": " +:+ quoted "<name>" +:+ "}")%string.
Definition preloadError (err : error) : H G unit :=
  reply (if bareUnknown err then 404 else if errors_Is err ErrPreloadNeedsRegistry then 409 else 500) (errorText err).
Definition preloadsHandler (r : httpRequest) : H G unit :=
  if decide (rq_method r = "GET"%string) then
    infos ← invoke (mo_ListPreloads mgr);
    match (match infos with inl err => inl err | inr infos => en_preloads js infos end) with
    | inl err => preloadError err
    | inr body => Write body
    end
  else if decide (rq_method r = "POST"%string) then
    match de_preload js (rq_body r) with
    | Decoded schema =>
      if decide (schema = ""%string) then reply 400 wantSchema
      else
        res ← invoke (mo_AddPreload mgr schema);
        match res with
        | inl err => preloadError err
        | inr _ => configured ← asks (mo_WorkersConfigured mgr); reply 201 (en_configured js configured)
        end
    | _ => reply 400 wantSchema
    end
  else WriteHeader 405.
Definition preloadHandler (r : httpRequest) : H G unit :=
  if decide (rq_method r <> "DELETE"%string) then WriteHeader 405
  else
    let schema := TrimPrefix (urlPath r) "/preloads/" in
    if bool_decide (schema = ""%string) || containsChar slash schema then WriteHeader 404
    else
      res ← invoke (mo_RemovePreload mgr schema);
      match res with inl err => preloadError err | inr released => Write (en_released js released) end.

(** *** Base pins *)
Definition pinsDone (res : option (list BasePin) * option error) : H G unit :=
  match res with
  | (None, Some err) => reply 500 (errorText err)
  | (pins, err) =>
    match en_pins js (default [] pins, errString errorText err) with
    | inl err => reply 500 (errorText err)
    | inr body => Write body
    end
  end.
Definition pinsHandler (r : httpRequest) : H G unit :=
  if decide (rq_method r = "GET"%string) then
    refused ← refuseOnExternalBuildPlane;
    if refused : bool then mret tt else res ← invoke (mo_ListBasePins mgr); pinsDone res
  else if decide (rq_method r = "POST"%string) then
    refused ← refuseOnExternalBuildPlane;
    if refused : bool then mret tt else res ← invoke (mo_RefreshBasePins mgr); pinsDone res
  else WriteHeader 405.

(** ** A request answered *)
Definition handle (e : endpoint) (r : httpRequest) : H G unit :=
  match e with
  | listEndpoint => listHandler r
  | challengeEndpoint => challengeHandler r
  | buildEndpoint => buildHandler r
  | instanceEndpoint => instanceHandler r
  | workersEndpoint => workersHandler r
  | workerEndpoint => workerHandler r
  | preloadsEndpoint => preloadsHandler r
  | preloadEndpoint => preloadHandler r
  | pinsEndpoint => pinsHandler r
  | schemaEndpoint => schemaHandler r
  | existingSchemaEndpoint => existingSchemaHandler r
  | updateEndpoint => updateHandler r
  | stateEndpoint => stateHandler r
  | versionEndpoint => versionHandler r
  end.
Inductive httpAnswer := Answered (resp : httpResponse) | Redirected (location : string) | NoSuchPage | Malformed | Aborted.
Definition serveHTTP (r : httpRequest) (g : G) : httpAnswer * G :=
  match unescape encodePath (rq_target r) with
  | None => (Malformed, g)
  | Some _ =>
    match dispatch (escapedPath r) with
    | ToRedirect location => (Redirected location, g)
    | ToNotFound => (NoSuchPage, g)
    | ToHandler e =>
      match handle e r (g, newWriter) with
      | (Some _, (g, w)) => (Answered (responseOf w), g)
      | (None, (g, _)) => (Aborted, g)
      end
    end
  end.
End handlers.
