(* ===== verification/Served.v ===== *)
(** * Served: what a request to [corkd] comes to

    Theorems about [Server]: what no request can break, which requests touch
    nothing, what the statuses of an answer say about what was done, and that
    the path of a challenge or of a name reads back as what it was made from.
    The Manager is any one that keeps its promises ([ManagerKeeps]); the one of
    the other files does ([corkd_keeps]). *)
From S2P Require Import Prelude Types Settings Text Artifacts Queue Worker Database Fleet HostConfig Effects Ports Instances Images Docker Launch Lifecycle Builds Converge Builder Rebuild Challenges Schemas Converged Sha256 Seccomp HandOver BasePins Files Refresh Bundles Preload Deploy System Server.
Local Open Scope Z_scope.

(** ** What every operation keeps, every request keeps *)
Definition keepsOp {G A} (I : G -> Prop) (f : op G A) : Prop := forall g, I g -> I (f g).2.
Class ManagerKeeps {G} (mgr : managerOps G) (I : G -> Prop) : Prop := {
  mk_ListChallenges : keepsOp I (mo_ListChallenges mgr);
  mk_SearchChallenges tags : keepsOp I (mo_SearchChallenges mgr tags);
  mk_GetChallengeMetadata id : keepsOp I (mo_GetChallengeMetadata mgr id);
  mk_Build id seeds format : keepsOp I (mo_Build mgr id seeds format);
  mk_HandOverChallenge id h prune : keepsOp I (mo_HandOverChallenge mgr id h prune);
  mk_RemoveChallenge id : keepsOp I (mo_RemoveChallenge mgr id);
  mk_GetBuildMetadata id : keepsOp I (mo_GetBuildMetadata mgr id);
  mk_Start id env : keepsOp I (mo_Start mgr id env);
  mk_GetInstanceMetadata id : keepsOp I (mo_GetInstanceMetadata mgr id);
  mk_Destroy id : keepsOp I (mo_Destroy mgr id);
  mk_Stop id : keepsOp I (mo_Stop mgr id);
  mk_GetSchemaState name : keepsOp I (mo_GetSchemaState mgr name);
  mk_ListSchemas : keepsOp I (mo_ListSchemas mgr);
  mk_CreateSchema s : keepsOp I (mo_CreateSchema mgr s);
  mk_UpdateSchema s : keepsOp I (mo_UpdateSchema mgr s);
  mk_DeleteSchema name retire : keepsOp I (mo_DeleteSchema mgr name retire);
  mk_DetectChanges path : keepsOp I (mo_DetectChanges mgr path);
  mk_UpdateWithOptions path prune : keepsOp I (mo_UpdateWithOptions mgr path prune);
  mk_DumpState : keepsOp I (mo_DumpState mgr);
  mk_ListWorkers : keepsOp I (mo_ListWorkers mgr);
  mk_AddWorker ip public : keepsOp I (mo_AddWorker mgr ip public);
  mk_SetWorkerDown ip : keepsOp I (mo_SetWorkerDown mgr ip);
  mk_RemoveWorker ip : keepsOp I (mo_RemoveWorker mgr ip);
  mk_ListPreloads : keepsOp I (mo_ListPreloads mgr);
  mk_AddPreload name : keepsOp I (mo_AddPreload mgr name);
  mk_RemovePreload name : keepsOp I (mo_RemovePreload mgr name);
  mk_ListBasePins : keepsOp I (mo_ListBasePins mgr);
  mk_RefreshBasePins : keepsOp I (mo_RefreshBasePins mgr) }.
Create HintDb promised.
#[export] Hint Resolve mk_ListChallenges mk_SearchChallenges mk_GetChallengeMetadata mk_Build mk_HandOverChallenge mk_RemoveChallenge
  mk_GetBuildMetadata mk_Start mk_GetInstanceMetadata mk_Destroy mk_Stop mk_GetSchemaState mk_ListSchemas mk_CreateSchema mk_UpdateSchema
  mk_DeleteSchema mk_DetectChanges mk_UpdateWithOptions mk_DumpState mk_ListWorkers mk_AddWorker mk_SetWorkerDown mk_RemoveWorker
  mk_ListPreloads mk_AddPreload mk_RemovePreload mk_ListBasePins mk_RefreshBasePins : promised.

Section keeping.
Context {G : Type} (I : G -> Prop).
(** Handlers that keep an invariant of what the Manager holds. *)
Class HKeeps {A} (e : H G A) : Prop := hkeeps s : I s.1 -> I (e s).2.1.
#[export] Instance hkeeps_ret {A} (a : A) : HKeeps (mret a).
Proof. by intros s. Qed.
#[export] Instance hkeeps_panic {A} : HKeeps (panic (A := A)).
Proof. by intros s. Qed.
Lemma hkeeps_bind {A B} (e : H G A) (k : A -> H G B) : HKeeps e -> (forall a, HKeeps (k a)) -> HKeeps (e ≫= k).
Proof.
  intros He Hk s Hs. unfold mbind, H_bind. specialize (He s Hs). destruct (e s) as [[a|] s1]; [by apply (Hk a)|done].
Qed.
Lemma hkeeps_call {A} (f : op G A) : keepsOp I f -> HKeeps (invoke f).
Proof. intros Hf [g w] Hs. unfold invoke. specialize (Hf g Hs). simpl in *. by destruct (f g). Qed.
#[export] Instance hkeeps_asks {A} (f : G -> A) : HKeeps (asks f).
Proof. by intros s. Qed.
#[export] Instance hkeeps_tell f : HKeeps (tell f).
Proof. by intros s. Qed.
End keeping.
Ltac hkeep := repeat first
  [ apply hkeeps_ret | apply hkeeps_panic | apply hkeeps_asks | apply hkeeps_tell
  | apply hkeeps_call; solve [eauto with promised typeclass_instances]
  | apply hkeeps_bind; [|intros]
  | progress unfold WriteHeader, Write, setHeader, reply, conclude, finishRetryable, finishSchema, finishConverge,
      refuseOnExternalBuildPlane, workerDone, preloadError, pinsDone
  | case_match | progress simpl ].

Section requests.
Context {G : Type} (mgr : managerOps G) (js : codec) (errorText : error -> string) (env : environ) (version : string).
Lemma handle_keeps I {HI : ManagerKeeps mgr I} e r : HKeeps I (handle mgr js errorText env version e r).
Proof.
  destruct e; simpl; unfold listHandler, challengeHandler, handOverHandler, buildHandler, launchHandler, instanceHandler, workersHandler, workerHandler,
    preloadsHandler, preloadHandler, pinsHandler, schemaHandler, existingSchemaHandler, updateHandler, stateHandler, versionHandler;
    hkeep.
Qed.
Lemma serveHTTP_keeps I {HI : ManagerKeeps mgr I} r g : I g -> I (serveHTTP mgr js errorText env version r g).2.
Proof.
  intros Hg. unfold serveHTTP. destruct (unescape _ _); [|done]. destruct (dispatch _); [|done..].
  pose proof (handle_keeps I e r (g, newWriter) Hg) as Hk. destruct (handle _ _ _ _ _ e r _) as [[]  []]; done.
Qed.
End requests.

(** ** Paths

    A path is made of names, each escaped; reading it gives the names back. *)
Definition pathOf (segs : list string) : string := ("/" +:+ String.concat "/" segs)%string.
(** A name that survives the cleaning of a path. *)
Definition properName (s : string) : Prop := s ∉ [""; "."; ".."]%string.

(** What a mode escapes, the reader of another may undo. *)
Definition readBy (m m' : encoding) : Prop := m = m' \/ (m = encodePathSegment /\ m' = encodePath).
Lemma unescape_escapeChar m m' c rest : readBy m m' -> unescape m' (escapeChar m c rest) = String c <$> unescape m' rest.
Proof. intros [<-|[-> ->]]; [destruct m|]; destruct c as [[] [] [] [] [] [] [] []]; reflexivity. Qed.
Lemma unescape_escape m m' s : readBy m m' -> unescape m' (escape m s) = Some s.
Proof. intros Hm. induction s as [|c s IH]; simpl; [done|]. by rewrite unescape_escapeChar, IH. Qed.
Lemma escapeChar_app m c rest t : (escapeChar m c rest +:+ t = escapeChar m c (rest +:+ t))%string.
Proof. unfold escapeChar. repeat case_match; done. Qed.
Lemma unescape_escape_app m m' s t : readBy m m' -> unescape m' (escape m s +:+ t) = (String.append s) <$> unescape m' t.
Proof.
  intros Hm. induction s as [|c s IH]; simpl; [by rewrite option_fmap_id|].
  rewrite escapeChar_app, unescape_escapeChar, IH by done. by rewrite <- option_fmap_compose.
Qed.
Lemma unescape_path names : unescape encodePath (pathOf (PathEscape <$> names)) = Some (pathOf names).
Proof.
  assert (readBy encodePathSegment encodePath) as Hm by (by right).
  unfold pathOf. change (unescape encodePath (String "/" (String.concat "/" (PathEscape <$> names))) = Some (String "/" (String.concat "/" names))).
  simpl. enough (unescape encodePath (String.concat "/" (PathEscape <$> names)) = Some (String.concat "/" names)) as -> by done.
  induction names as [|s [|s' names] IH]; [done|by apply unescape_escape|].
  change (unescape encodePath (escape encodePathSegment s +:+ String "/" (String.concat "/" (PathEscape <$> s' :: names))) =
    Some (s +:+ String "/" (String.concat "/" (s' :: names)))%string).
  rewrite unescape_escape_app by done. simpl. simpl in IH. by rewrite IH.
Qed.

(** Escaped, a name has no slash and nothing that is escaped again. *)
Definition cleanChar (c : ascii) : bool := notChar slash c && validChar c.
Lemma cleanChar_escape c rest : all_chars cleanChar (escapeChar encodePathSegment c rest) = all_chars cleanChar rest.
Proof. destruct c as [[] [] [] [] [] [] [] []]; reflexivity. Qed.
Lemma PathEscape_clean s : all_chars cleanChar (PathEscape s) = true.
Proof. unfold PathEscape. induction s as [|c s IH]; [done|]. change (all_chars cleanChar (escapeChar encodePathSegment c (escape encodePathSegment s)) = true). by rewrite cleanChar_escape. Qed.
Lemma PathEscape_slashless s : sepless slash (PathEscape s).
Proof. eapply all_chars_impl; [|apply PathEscape_clean]. by intros c [? _]%andb_true_iff. Qed.
Lemma PathEscape_proper s : properName s -> properName (PathEscape s).
Proof.
  assert (forall t, unescape encodePathSegment t = Some t -> PathEscape s = t -> s = t) as Ht.
  { intros t Ht E. pose proof (unescape_escape encodePathSegment encodePathSegment s (or_introl eq_refl)) as Hs. unfold PathEscape in E.
    rewrite E, Ht in Hs. congruence. }
  unfold properName. rewrite !not_elem_of_cons. intros (H1 & H2 & H3 & _).
  split_and!; [intros E; apply H1, Ht|intros E; apply H2, Ht|intros E; apply H3, Ht|apply not_elem_of_nil]; done.
Qed.

(** A path of proper names without slashes is clean. *)
Lemma SplitOn_path segs : segs <> [] -> Forall (sepless slash) segs -> SplitOn slash (pathOf segs) = ""%string :: segs.
Proof. intros Hne Hs. exact (f_equal (cons ""%string) (SplitOn_concat slash segs Hne Hs)). Qed.
Lemma cleaned_stack segs : forall stack, Forall properName segs -> foldl (cleanStep true) stack segs = reverse segs ++ stack.
Proof.
  induction segs as [|s segs IH]; intros stack Hs; [done|]. apply Forall_cons in Hs as [H Hs]. simpl. rewrite IH by done.
  rewrite reverse_cons, <- app_assoc. f_equal. unfold cleanStep. unfold properName in H. rewrite !not_elem_of_cons in H.
  rewrite decide_False by naive_solver. by rewrite decide_False by naive_solver.
Qed.
Lemma Clean_path segs : segs <> [] -> Forall (sepless slash) segs -> Forall properName segs -> Clean (pathOf segs) = pathOf segs.
Proof.
  intros Hne Hs Hp. unfold Clean. rewrite SplitOn_path by done. change (isAbs (pathOf segs)) with true. cbn [foldl].
  change (cleanStep true [] ""%string) with (@nil string). rewrite cleaned_stack by done. by rewrite app_nil_r, reverse_involutive.
Qed.
Lemma slash_last s : lastChar s = Some slash -> last (SplitOn slash s) = Some ""%string.
Proof.
  induction s as [|c [|c' s] IH]; [done| |].
  - intros [= ->]. reflexivity.
  - intros H. specialize (IH H). pose proof (SplitOn_nonempty slash (String c' s)) as Hne.
    change (last (if decide (c = slash) then ""%string :: SplitOn slash (String c' s)
      else match SplitOn slash (String c' s) with [] => [String c ""] | w :: ws => String c w :: ws end) = Some ""%string).
    destruct (SplitOn slash (String c' s)) as [|w [|w' ws]] eqn:E; [done| |by case_decide].
    exfalso. simpl in IH. injection IH as ->. apply (f_equal (String.concat "/")) in E. rewrite (concat_SplitOn slash) in E. done.
Qed.
Lemma path_no_slash segs : segs <> [] -> Forall (sepless slash) segs -> Forall properName segs -> endsInSlash (pathOf segs) = false.
Proof.
  intros Hne Hs Hp. apply bool_decide_eq_false. intros H%slash_last. rewrite SplitOn_path in H by done.
  destruct segs as [|s segs]; [done|]. change (last (s :: segs) = Some ""%string) in H. apply last_Some_elem_of in H.
  rewrite Forall_forall in Hp. apply Hp in H. apply H. by left.
Qed.

(** ** Reaching a handler *)
Definition requestTo (method : string) (names : list string) (query : string) (body : error + string) : httpRequest :=
  mkRequest method (pathOf (PathEscape <$> names)) query body.
Section reach.
Context (names : list string) (Hne : names <> []) (Hn : Forall properName names).
Let target : string := pathOf (PathEscape <$> names).
Lemma escaped_ne : PathEscape <$> names <> [].
Proof. by destruct names. Qed.
Lemma escaped_slashless : Forall (sepless slash) (PathEscape <$> names).
Proof. apply Forall_fmap, Forall_true. intros s. apply PathEscape_slashless. Qed.
Lemma escaped_proper : Forall properName (PathEscape <$> names).
Proof. apply Forall_fmap. eapply Forall_impl; [exact Hn|]. intros s. apply PathEscape_proper. Qed.
Lemma target_valid : validEncoded target = true.
Proof.
  assert (forall s, all_chars validChar (PathEscape s) = true) as Hc
    by (intros s; eapply all_chars_impl; [|apply PathEscape_clean]; by intros c [_ ?]%andb_true_iff).
  change (all_chars validChar (String.concat "/" (PathEscape <$> names)) = true).
  clear Hne Hn target. induction names as [|s [|s' l] IH]; [done|apply Hc|].
  change (all_chars validChar (PathEscape s +:+ String "/" (String.concat "/" (PathEscape <$> s' :: l))) = true).
  rewrite all_chars_app, Hc. exact IH.
Qed.
Lemma target_clean : cleanPath target = target.
Proof.
  unfold cleanPath, target. rewrite decide_False by done. change (isAbs (pathOf (PathEscape <$> names))) with true.
  pose proof escaped_ne. pose proof escaped_slashless. pose proof escaped_proper.
  cbv iota. rewrite Clean_path, path_no_slash by done. done.
Qed.
Lemma target_segments : segments target = ""%string :: names.
Proof.
  unfold segments, target. rewrite SplitOn_path by (apply escaped_ne || apply escaped_slashless). simpl. f_equal.
  rewrite <- list_fmap_compose. etransitivity; [|apply list_fmap_id]. apply list_fmap_ext. intros i s _. simpl.
  unfold PathEscape. by rewrite unescape_escape by (by left).
Qed.
Lemma target_handled e : matchPath target = Some e -> dispatch target = ToHandler e.
Proof. intros E. unfold dispatch. rewrite target_clean, E. by rewrite decide_False by (intros ?; done). Qed.
End reach.

(** The path of a challenge below a name, and of a name below its collection. *)
Lemma substring_front s t : String.substring 0 (String.length s) (s +:+ t) = s.
Proof. induction s as [|c s IH]; [by destruct t|]. exact (f_equal (String c) IH). Qed.
Lemma length_snoc_slash s : (String.length (s +:+ "/") - 1)%nat = String.length s.
Proof. induction s as [|c s IH]; [done|]. change ((S (String.length (s +:+ "/")) - 1)%nat = S (String.length s)). destruct s; [done|]. simpl in *. lia. Qed.
Lemma challengeFrom_reverse segs rest : forall acc, "challenges"%string ∉ segs ->
  challengeFrom (reverse segs ++ "challenges"%string :: rest) acc = Some (foldr (fun s a => s +:+ "/" +:+ a)%string acc segs).
Proof.
  induction segs as [|s segs IH] using rev_ind; intros acc Hs; [done|]. rewrite reverse_app, foldr_app. simpl.
  rewrite decide_False by set_solver. rewrite IH by set_solver. done.
Qed.
Lemma joined_segments segs : segs <> [] -> foldr (fun s a => s +:+ "/" +:+ a)%string ""%string segs = (String.concat "/" segs +:+ "/")%string.
Proof.
  induction segs as [|s [|s' segs] IH]; [done|done|]. intros _.
  change ((s +:+ "/" +:+ foldr (fun s a => s +:+ "/" +:+ a)%string ""%string (s' :: segs)) = ((s +:+ "/" +:+ String.concat "/" (s' :: segs)) +:+ "/"))%string.
  rewrite IH by done. by rewrite !append_assoc.
Qed.
Lemma challengeOf_path segs : segs <> [] -> Forall (sepless slash) segs -> "challenges"%string ∉ segs ->
  challengeOf (pathOf ("challenges"%string :: segs)) = Some (String.concat "/" segs).
Proof.
  intros Hne Hs Hc. unfold challengeOf. rewrite SplitOn_path by (done || by constructor). rewrite !reverse_cons, <- app_assoc.
  simpl app. rewrite (challengeFrom_reverse segs) by done. rewrite joined_segments by done.
  rewrite decide_False; [by rewrite length_snoc_slash, substring_front|]. destruct (String.concat "/" segs); done.
Qed.
Lemma lastBelow_path parent x : sepless slash parent -> sepless slash x -> lastBelow parent (pathOf [parent; x]) = Some x.
Proof.
  intros Hp Hx. unfold lastBelow. rewrite SplitOn_path by (done || by repeat constructor). simpl. by rewrite decide_True.
Qed.

(** The patterns on the names of a path. *)
Definition matchNames (segs : list string) : option endpoint :=
  snd <$> List.find (fun pe =>
    let ps := SplitOn slash pe.1 in
    if endsInSlash pe.1 then
      let n := pred (length ps) in bool_decide (take n segs = take n ps) && bool_decide (n < length segs)%nat
    else bool_decide (segs = ps)) registered.
Ltac decideNames :=
  repeat match goal with
  | |- context [bool_decide ?P] => first
      [ rewrite (bool_decide_eq_false_2 P) by (intros [=]; congruence)
      | rewrite (bool_decide_eq_true_2 P) by first [reflexivity | simpl; lia] ]; cbn [andb]
  end.
(** The table of the API: what is below a collection, and the collections. *)
Definition collections : list (string * endpoint) :=
  [("challenges", challengeEndpoint); ("builds", buildEndpoint); ("instances", instanceEndpoint); ("workers", workerEndpoint);
   ("preloads", preloadEndpoint); ("schemas", existingSchemaEndpoint)]%string.
Definition exactly : list (string * endpoint) :=
  [("challenges", listEndpoint); ("workers", workersEndpoint); ("preloads", preloadsEndpoint); ("pins", pinsEndpoint);
   ("schemas", schemaEndpoint); ("update", updateEndpoint); ("state", stateEndpoint); ("version", versionEndpoint)]%string.
Lemma matchNames_below x y rest e : (x, e) ∈ collections -> matchNames ("" :: x :: y :: rest)%string = Some e.
Proof.
  unfold collections. rewrite !elem_of_cons, elem_of_nil.
  intros [[= -> ->]|[[= -> ->]|[[= -> ->]|[[= -> ->]|[[= -> ->]|[[= -> ->]|[]]]]]]]; unfold matchNames; simpl; decideNames; reflexivity.
Qed.
#[export] Instance properName_dec s : Decision (properName s).
Proof. unfold properName. apply _. Defined.
Lemma below_proper x e : (x, e) ∈ collections -> properName x.
Proof.
  intros H. assert (Forall (fun xe => properName xe.1) collections) as Hb by (apply (bool_decide_eq_true_1 _); reflexivity).
  rewrite Forall_forall in Hb. exact (Hb _ H).
Qed.
(** A number in a path is a name that stands for itself. *)
Lemma digits_slashless s : all_chars isDecimal s = true -> sepless slash s.
Proof. apply all_chars_impl. intros c [d Hd]%bool_decide_eq_true. apply negb_true_iff, bool_decide_eq_false. by intros ->. Qed.
Lemma atoi_name s n : Atoi s = Some n -> properName s /\ sepless slash s.
Proof.
  unfold Atoi, ParseInt. intros H. assert (exists sign digits, s = (sign +:+ digits)%string /\ sign ∈ [""; "-"; "+"]%string /\
    digits <> ""%string /\ all_chars isDecimal digits = true) as (sign & digits & -> & Hsign & Hd & Ha).
  { assert (forall d, (if decide (d = ""%string) then None else match digitsVal 0 d with
      | Some v => if decide (- two63 <= v < two63) then Some v else None | None => None end) = Some n \/
      (if decide (d = ""%string) then None else match digitsVal 0 d with
      | Some v => if decide (- two63 <= - v < two63) then Some (- v) else None | None => None end) = Some n ->
      d <> ""%string /\ all_chars isDecimal d = true) as Hd.
    { intros d [E|E]; (case_decide; [done|]; split; [done|]; apply (digitsVal_decimal 0); destruct (digitsVal 0 d); [eauto|done]). }
    destruct s as [|c s]; [done|].
    destruct (decide (c = "-"%char)) as [->|H1]; [|destruct (decide (c = "+"%char)) as [->|H2]].
    - exists "-"%string, s. split; [done|]. split; [set_solver|]. apply Hd. by right.
    - exists "+"%string, s. split; [done|]. split; [set_solver|]. apply Hd. by left.
    - exists ""%string, (String c s). split; [done|]. split; [set_solver|]. apply Hd. left. rewrite <- H.
      destruct c as [[] [] [] [] [] [] [] []]; done. }
  assert (sepless slash digits) as Hs by (by apply digits_slashless). split.
  - destruct digits as [|c d]; [done|]. unfold properName. intros Hin.
    assert (c <> "."%char) as Hc by (intros ->; by destruct d).
    rewrite !elem_of_cons, elem_of_nil in Hin, Hsign. destruct Hsign as [->|[->|[->|[]]]], Hin as [E|[E|[E|[]]]]; cbv in E; congruence.
  - unfold sepless. rewrite all_chars_app. apply andb_true_iff. split; [|done].
    rewrite !elem_of_cons, elem_of_nil in Hsign. by destruct Hsign as [->|[->|[->|[]]]].
Qed.
Lemma matchNames_exactly x e : (x, e) ∈ exactly -> matchNames [""; x]%string = Some e.
Proof.
  unfold exactly. rewrite !elem_of_cons, elem_of_nil.
  intros [[= -> ->]|[[= -> ->]|[[= -> ->]|[[= -> ->]|[[= -> ->]|[[= -> ->]|[[= -> ->]|[[= -> ->]|[]]]]]]]]]; reflexivity.
Qed.
Lemma matchPath_names names : names <> [] -> Forall properName names -> matchPath (pathOf (PathEscape <$> names)) = matchNames (""%string :: names).
Proof. intros Hne Hn. by rewrite <- (target_segments names Hne Hn). Qed.

(** ** Statuses *)
Definition handedOverFirst (err : error) : Prop := errors_Is err ErrExternalBuildPlane = true.
Definition unknownOnly (err : error) : Prop := errors_Is err ErrExternalBuildPlane = false /\ isUnknownIdentifier err = true.
#[export] Instance handedOverFirst_dec err : Decision (handedOverFirst err).
Proof. unfold handedOverFirst. apply _. Defined.
#[export] Instance unknownOnly_dec err : Decision (unknownOnly err).
Proof. unfold unknownOnly. apply _. Defined.
(** What the errors of a schema operation come to, said of all of them at once. *)
Definition verdictOn (errs : list error) : Z :=
  if decide (errs = []) then 500 else if decide (Forall handedOverFirst errs) then 409 else if decide (Forall unknownOnly errs) then 404 else 500.
Lemma schemaStatusFrom_spec code (P : error -> Prop) `{!forall err, Decision (P err)} errs :
  code <> 0 -> code <> 500 ->
  (forall err, (if errors_Is err ErrExternalBuildPlane then 409 else if isUnknownIdentifier err then 404 else 500) = code <-> P err) ->
  schemaStatusFrom code errs = if decide (Forall P errs) then code else 500.
Proof.
  intros Hz H5 HP. induction errs as [|err errs IH]; simpl.
  { by rewrite decide_False by done. }
  destruct (decide (P err)) as [Hp|Hp].
  - apply HP in Hp as E. rewrite E. rewrite decide_False by naive_solver. rewrite IH. apply decide_ext. rewrite Forall_cons. tauto.
  - rewrite decide_True; [|right; split; [done|]; intros E; apply Hp, HP; done].
    rewrite decide_False; [done|]. rewrite Forall_cons. tauto.
Qed.
Lemma schemaStatus_verdict errs : schemaStatus errs = verdictOn errs.
Proof.
  unfold schemaStatus, verdictOn. destruct errs as [|err errs]; [done|]. rewrite decide_False by done. simpl.
  pose proof (schemaStatusFrom_spec 409 handedOverFirst errs) as Hh. pose proof (schemaStatusFrom_spec 404 unknownOnly errs) as Hu.
  unfold handedOverFirst, unknownOnly in *.
  destruct (errors_Is err ErrExternalBuildPlane) eqn:Ee.
  - rewrite (decide_False (P := 409 = 500 \/ _)) by lia. rewrite Hh; [|done..|intros e; repeat case_match; naive_solver].
    destruct (decide (Forall _ errs)) as [Hf|Hf].
    + by rewrite decide_True by (by constructor).
    + rewrite decide_False by (by intros [_ ?]%Forall_cons). rewrite decide_False; [done|]. intros [[? _] _]%Forall_cons. congruence.
  - rewrite (decide_False (P := Forall (fun err => errors_Is err ErrExternalBuildPlane = true) _)) by (intros [? _]%Forall_cons; congruence).
    destruct (isUnknownIdentifier err) eqn:Ei.
    + rewrite (decide_False (P := 404 = 500 \/ _)) by lia. rewrite Hu; [|done..|intros e; repeat case_match; naive_solver].
      apply decide_ext. rewrite Forall_cons. tauto.
    + rewrite decide_True by (by left). rewrite decide_False; [done|]. intros [[_ ?] _]%Forall_cons. congruence.
Qed.
Lemma schemaStatus_code errs : schemaStatus errs ∈ [500; 409; 404].
Proof. rewrite schemaStatus_verdict. unfold verdictOn. repeat case_decide; set_solver. Qed.

Section answers.
Context {G : Type} (mgr : managerOps G) (js : codec) (errorText : error -> string) (env : environ) (version : string).
Local Abbreviation serving := (serveHTTP mgr js errorText env version).
Local Abbreviation handling := (handle mgr js errorText env version).
Lemma invoke_bind {A B} (f : op G A) (k : A -> H G B) s :
  (invoke f ≫= k) s = match f s.1 with (Some a, g) => k a (g, s.2) | (None, g) => (None, (g, s.2)) end.
Proof. unfold mbind, H_bind, invoke. by destruct (f s.1) as [[] ?]. Qed.
(** What a handler leaves, as an answer. *)
Definition answerOf (res : option unit * (G * ResponseWriter)) : httpAnswer * G :=
  match res with (Some _, (g, w)) => (Answered (responseOf w), g) | (None, (g, _)) => (Aborted, g) end.
Lemma serve_reached method names query body e g : names <> [] -> Forall properName names ->
  matchPath (pathOf (PathEscape <$> names)) = Some e ->
  serving (requestTo method names query body) g = answerOf (handling e (requestTo method names query body) (g, newWriter)) /\
  urlPath (requestTo method names query body) = pathOf names.
Proof.
  intros Hne Hn E. unfold serveHTTP, urlPath, escapedPath. simpl rq_target. rewrite unescape_path, target_valid, (target_handled _ Hne Hn e E) by done.
  done.
Qed.
Lemma serve_below method x y rest query body e g : (x, e) ∈ collections -> Forall properName (y :: rest) ->
  let r := requestTo method (x :: y :: rest) query body in
  serving r g = answerOf (handling e r (g, newWriter)) /\ urlPath r = pathOf (x :: y :: rest).
Proof.
  intros He Hn. assert (Forall properName (x :: y :: rest)) as Hx by (constructor; [by eapply below_proper|done]).
  apply serve_reached; [done|done|]. rewrite matchPath_names by done. by apply matchNames_below.
Qed.

(** What a failure that may be retried is answered with. *)
Definition refusal (retryable : list sentinel) (err : error) : httpResponse :=
  let '(code, retry) := errorResponse err retryable in
  mkHttpResponse code (if retry then {["Retry-After" := "1"]}%string else ∅) (errorText err).
Lemma errorResponse_code err retryable : (errorResponse err retryable).1 ∈ [404; 503; 500] /\
  ((errorResponse err retryable).1 = 503 <-> (errorResponse err retryable).2 = true).
Proof. unfold errorResponse. destruct (bareUnknown err); [|destruct (existsb _ _)]; simpl; split; try done; set_solver. Qed.
Lemma conclude_refusal retryable code body err g :
  answerOf (finishRetryable errorText retryable code body (Some err) (g, newWriter)) = (Answered (refusal retryable err), g).
Proof.
  unfold finishRetryable, refusal. destruct (errorResponse_code err retryable) as [Hc _].
  destruct (errorResponse err retryable) as [c []] eqn:E; simpl in Hc; unfold mbind, H_bind; simpl;
    rewrite !elem_of_cons, elem_of_nil in Hc; destruct Hc as [-> |[-> |[-> |[]]]]; reflexivity.
Qed.

(** A stop, from its request to its answer. *)
Lemma stop_answered text n query body g : Atoi text = Some n ->
  serving (requestTo "DELETE" ["instances"; text]%string query body) g =
    match mo_Stop mgr n g with
    | (None, g) => (Aborted, g)
    | (Some (inr _), g) => (Answered (mkHttpResponse 204 ∅ ""), g)
    | (Some (inl err), g) => (Answered (if bareUnknown err then mkHttpResponse 204 ∅ "" else refusal retryableStop err), g)
    end.
Proof.
  intros Hn. destruct (atoi_name _ _ Hn) as [Hp Hs]. destruct (serve_below "DELETE" "instances" text [] query body instanceEndpoint g) as [-> Hu]; [set_solver|by repeat constructor|].
  cbn [handle]. unfold instanceHandler. rewrite Hu, lastBelow_path, Hn by done. rewrite decide_False, decide_True by done.
  rewrite invoke_bind. cbn [fst snd]. destruct (mo_Stop mgr n g) as [[[err|u]|] g1]; [|done..].
  destruct (bareUnknown err); [done|]. apply conclude_refusal.
Qed.

(** A launch, from its request to its answer. *)
Definition startRequest (body : error + string) : option InstanceStartRequest :=
  match de_start js body with DecodeEOF => Some (mkStartRequest "" ∅) | DecodeError _ => None | Decoded req => Some req end.
Definition launchAnswer (read : error + string) : httpResponse :=
  match read with inl err => refusal retryableLaunch err | inr text => mkHttpResponse 201 ∅ text end.
Lemma launchHandler_answered r n req g : startRequest (rq_body r) = Some req ->
  answerOf (launchHandler mgr js errorText r n (g, newWriter)) =
    match mo_Start mgr n (startEnv req) g with
    | (None, g) => (Aborted, g)
    | (Some (inl err), g) => (Answered (refusal retryableLaunch err), g)
    | (Some (inr i), g) =>
      match mo_GetInstanceMetadata mgr i g with
      | (None, g) => (Aborted, g)
      | (Some meta, g) => (Answered (launchAnswer (match meta with inl err => inl err | inr meta => en_instance js meta end)), g)
      end
    end.
Proof.
  intros Hreq. unfold launchHandler, startRequest in *.
  destruct (de_start js (rq_body r)) as [|err|req']; simplify_eq; rewrite invoke_bind; cbn [fst snd];
    destruct (mo_Start mgr n _ g) as [[[err|i]|] g1]; try done; try apply conclude_refusal;
    rewrite invoke_bind; cbn [fst snd]; destruct (mo_GetInstanceMetadata mgr i g1) as [[meta|] g2]; try done;
    destruct meta as [err|meta]; [apply conclude_refusal| |apply conclude_refusal|]; unfold bodyOf;
    destruct (en_instance js meta) as [err|text]; try apply conclude_refusal; done.
Qed.
Lemma launch_answered text n query body req g : Atoi text = Some n -> startRequest body = Some req ->
  serving (requestTo "POST" ["builds"; text]%string query body) g =
    match mo_Start mgr n (startEnv req) g with
    | (None, g) => (Aborted, g)
    | (Some (inl err), g) => (Answered (refusal retryableLaunch err), g)
    | (Some (inr i), g) =>
      match mo_GetInstanceMetadata mgr i g with
      | (None, g) => (Aborted, g)
      | (Some meta, g) => (Answered (launchAnswer (match meta with inl err => inl err | inr meta => en_instance js meta end)), g)
      end
    end.
Proof.
  intros Hn Hreq. destruct (atoi_name _ _ Hn) as [Hp Hs].
  destruct (serve_below "POST" "builds" text [] query body buildEndpoint g) as [-> Hu]; [set_solver|by repeat constructor|].
  cbn [handle]. unfold buildHandler. rewrite Hu, lastBelow_path, Hn, SplitOn_path by (done || by repeat constructor).
  rewrite decide_False by done. unfold atoiAnyway. rewrite Hn. rewrite <- (launchHandler_answered (requestTo "POST" ["builds"; text]%string query body) n req g Hreq).
  unfold mbind, H_bind. cbn [mret H_ret]. by rewrite decide_False, decide_True.
Qed.

(** ** Requests that are refused *)

(** A handler that from an untouched response never ends in a 405. *)
Class Allowed (e : H G unit) : Prop := allowed g g' w' : e (g, newWriter) = (Some tt, (g', w')) -> hr_status (responseOf w') <> 405.
Lemma allowed_invoke {A} (f : op G A) k : (forall a, Allowed (k a)) -> Allowed (invoke f ≫= k).
Proof. intros Hk g g' w'. rewrite invoke_bind. cbn [fst snd]. destruct (f g) as [[a|] g1]; [apply Hk|done]. Qed.
Lemma allowed_asks {A} (f : G -> A) k : (forall a, Allowed (k a)) -> Allowed (asks f ≫= k).
Proof. intros Hk g g' w'. apply Hk. Qed.
Lemma allowed_reply code text : code <> 405 -> Allowed (reply code text).
Proof.
  intros Hc g g' w' [= <- <-]. unfold writeBody. simpl. by repeat case_match; simplify_eq/=.
Qed.
Lemma allowed_header code : code <> 405 -> Allowed (WriteHeader code).
Proof. by intros Hc g g' w' [= <- <-]. Qed.
Lemma allowed_write text : Allowed (Write text).
Proof. by intros g g' w' [= <- <-]. Qed.
Lemma allowed_ret : Allowed (mret tt).
Proof. by intros g g' w' [= <- <-]. Qed.
Lemma allowed_panic : Allowed panic.
Proof. by intros g g' w'. Qed.
Lemma allowed_retryable retryable code body err : code <> 405 -> Allowed (finishRetryable errorText retryable code body err).
Proof.
  intros Hc. destruct err as [err|]; [|by apply allowed_reply]. intros g g' w' E.
  pose proof (conclude_refusal retryable code body err g) as Hr. rewrite E in Hr. simpl in Hr. injection Hr as -> _.
  unfold refusal. destruct (errorResponse_code err retryable) as [Hin _]. destruct (errorResponse err retryable) as [c b]. simpl in *.
  intros ->. set_solver.
Qed.
Lemma allowed_conclude code body err status : code <> 405 -> (forall err, status err <> 405) -> Allowed (conclude errorText code body err status).
Proof. intros Hc Hs. destruct err; by apply allowed_reply. Qed.
Lemma allowed_unlessExternal e : Allowed e -> Allowed (refused ← refuseOnExternalBuildPlane mgr errorText; if refused : bool then mret tt else e).
Proof.
  intros He g g' w'. unfold refuseOnExternalBuildPlane, asks, mbind, H_bind. simpl. case_decide; [apply He|].
  by intros [= <- <-].
Qed.
(** A header once sent stays. *)
Class Sent (h : Z * gmap string string) {A} (e : H G A) : Prop := sent s : wr_sent s.2 = Some h -> wr_sent (e s).2.2 = Some h.
Lemma sent_ret h {A} (a : A) : Sent h (mret a).
Proof. by intros s. Qed.
Lemma sent_bind h {A B} (e : H G A) (k : A -> H G B) : Sent h e -> (forall a, Sent h (k a)) -> Sent h (e ≫= k).
Proof. intros He Hk s Hs. unfold mbind, H_bind. specialize (He s Hs). destruct (e s) as [[a|] s1]; [by apply Hk|done]. Qed.
Lemma sent_invoke h {A} (f : op G A) : Sent h (invoke f).
Proof. intros s Hs. unfold invoke. by destruct (f s.1). Qed.
Lemma sent_header h code : Sent h (WriteHeader code).
Proof. intros s Hs. unfold WriteHeader, tell, sendHeader. simpl. by rewrite Hs. Qed.
Lemma sent_write h text : Sent h (Write text).
Proof. intros [g [hd o b]] Hs. simpl in Hs. subst o. unfold Write, tell, writeBody. simpl. by repeat case_match. Qed.
Lemma sent_set h k v : Sent h (setHeader k v).
Proof. by intros s Hs. Qed.
Ltac stays := repeat first [apply sent_ret | apply sent_invoke | apply sent_header | apply sent_write | apply sent_set
  | apply sent_bind; [|intros] | progress unfold reply, finishRetryable | case_match].
(** What is gone on with after a number that is none. *)
Definition buildActs (r : httpRequest) (build : BuildId) : H G unit :=
  if decide (rq_method r = "GET"%string) then
    meta ← invoke (mo_GetBuildMetadata mgr build);
    let '(body, err) := bodyOf (match meta with inl err => inl err | inr meta => en_build js meta end) in
    finishRetryable errorText retryableLaunch 200 body err
  else if decide (rq_method r = "POST"%string) then launchHandler mgr js errorText r build
  else if decide (rq_method r = "DELETE"%string) then
    res ← invoke (mo_Destroy mgr build);
    finishRetryable errorText retryableLaunch 204 "" (errOf res)
  else WriteHeader 405.
Lemma sent_buildActs h r build : Sent h (buildActs r build).
Proof. unfold buildActs, launchHandler. stays. Qed.
Lemma bad_build_sent r build g g' w' :
  (reply 400 (errorText [OtherError "Atoi"]);; buildActs r build) (g, newWriter) = (Some tt, (g', w')) -> hr_status (responseOf w') = 400.
Proof.
  intros E. unfold mbind at 1, H_bind in E. change (reply (G := G) 400 _ (g, newWriter)) with
    (Some tt, (g, mkWriter ∅ (Some (400, ∅)) (errorText [OtherError "Atoi"]))) in E.
  pose proof (sent_buildActs (400, ∅) r build (g, mkWriter ∅ (Some (400, ∅)) (errorText [OtherError "Atoi"])) eq_refl) as Hs.
  rewrite E in Hs. cbn [snd] in Hs. unfold responseOf. by rewrite Hs.
Qed.

Lemma allowed_both (b : bool) (text : string) : Allowed ((if b then WriteHeader 500 else mret tt);; Write text).
Proof. destruct b; [by apply (allowed_reply 500)|apply allowed_write]. Qed.
Lemma challengeStatus_ok err : challengeStatus err <> 405.
Proof. unfold challengeStatus. by repeat case_match. Qed.
Lemma handOverStatus_ok err : handOverStatus err <> 405.
Proof. unfold handOverStatus. by repeat case_match. Qed.
Lemma allowed_schema code body err status : code <> 405 -> status <> 405 -> Allowed (finishSchema errorText code body err status).
Proof. intros Hc Hs. apply allowed_conclude; [done|]. intros e. repeat case_match; done. Qed.
Lemma allowed_converge code errs : code <> 405 -> Allowed (finishConverge errorText code errs).
Proof.
  intros Hc. unfold finishConverge. pose proof (schemaStatus_code errs) as Hin. destruct errs; apply allowed_schema; try done.
  intros E. rewrite E in Hin. set_solver.
Qed.
(** A 405 that is not the whole answer does not come. *)
Class Still (e : H G unit) : Prop := still g g' w' :
  e (g, newWriter) = (Some tt, (g', w')) -> hr_status (responseOf w') = 405 -> g' = g.
Lemma still_allowed e : Allowed e -> Still e.
Proof. intros He g g' w' E H. by apply He in E. Qed.
Lemma still_header code : Still (WriteHeader code).
Proof. by intros g g' w' [= <- <-]. Qed.
Ltac allow := repeat first
  [ apply allowed_unlessExternal | apply allowed_retryable; lia | apply allowed_conclude; [lia|apply challengeStatus_ok]
  | apply allowed_schema; lia | apply allowed_converge; lia | apply allowed_reply; first [lia | apply handOverStatus_ok | repeat case_match; lia]
  | apply allowed_header; lia | apply allowed_write | apply allowed_ret | apply allowed_panic
  | apply (allowed_both (bool_decide _)) | apply allowed_invoke; intros | apply allowed_asks; intros
  | progress unfold workerDone, preloadError, pinsDone | case_match ].
Ltac rest := repeat first [apply still_header | progress case_decide | case_match]; try (apply still_allowed; allow).
Lemma still_challenge r : Still (challengeHandler mgr js errorText r).
Proof.
  unfold challengeHandler. destruct (challengeOf _); [|apply still_header].
  case_decide; [apply still_allowed; by allow|]. case_decide; [apply still_allowed; by allow|].
  case_decide; [|case_decide; [apply still_allowed; by allow|apply still_header]].
  apply still_allowed. unfold handOverHandler. case_match; [by allow..|]. apply allowed_invoke. intros [err|u]; [by allow|].
  destruct (en_handOver _ _); [by allow|]. destruct (decide (cu_errors u <> [])); [by apply (allowed_reply 500)|apply allowed_write].
Qed.
Lemma still_build r : Still (buildHandler mgr js errorText r).
Proof.
  unfold buildHandler. case_decide; [apply still_header|]. destruct (lastBelow _ _) as [last|]; [|apply still_header].
  destruct (Atoi last).
  - change (Still (buildActs r (atoiAnyway last))). unfold buildActs, launchHandler. rest.
  - change (Still (reply 400 (errorText [OtherError "Atoi"]);; buildActs r (atoiAnyway last))).
    intros g g' w' E H'. apply bad_build_sent in E. lia.
Qed.
Lemma still_update r : Still (updateHandler mgr js errorText env r).
Proof.
  unfold updateHandler. case_decide; [apply still_header|]. apply still_allowed, allowed_unlessExternal. case_match; allow.
Qed.
Lemma handled_still e r : Still (handling e r).
Proof.
  destruct e; cbn [handle].
  - unfold listHandler. case_decide; [apply still_header|]. apply still_allowed. case_decide; allow.
  - apply still_challenge.
  - apply still_build.
  - unfold instanceHandler. rest.
  - unfold workersHandler. rest.
  - unfold workerHandler. rest.
  - unfold preloadsHandler. rest.
  - unfold preloadHandler. rest.
  - unfold pinsHandler. rest.
  - unfold schemaHandler. rest.
  - unfold existingSchemaHandler. rest.
  - apply still_update.
  - unfold stateHandler. rest.
  - unfold versionHandler. rest.
Qed.
End answers.

(** ** What a client may rely on *)
Section contract.
Context {G : Type} (mgr : managerOps G) (js : codec) (errorText : error -> string) (env : environ) (version : string).
Local Abbreviation serving := (serveHTTP mgr js errorText env version).

(** The requests only a daemon that builds can serve. *)
Definition onlyLocal (e : endpoint) (r : httpRequest) : Prop :=
  match e with
  | updateEndpoint => rq_method r = "POST"%string
  | pinsEndpoint => rq_method r = "GET"%string \/ rq_method r = "POST"%string
  | challengeEndpoint => rq_method r = "POST"%string /\ is_Some (challengeOf (urlPath r))
  | _ => False
  end.
(** C23. What is refused changes nothing.  A request that is answered "method not
    allowed", that no handler is registered for, that is sent elsewhere or whose
    path does not decode leaves the Manager exactly as it was, whatever its
    method, path and body; and a daemon whose builds are made elsewhere answers
    every request to scan, to build or to touch the pins with a 409 and does
    nothing. *)
Theorem refused_untouched r g :
  (forall a g', serving r g = (a, g') ->
     match a with Answered resp => hr_status resp = 405 | Aborted => False | _ => True end -> g' = g) /\
  (forall e, mo_BuildPlane mgr g = BuildPlaneExternal -> is_Some (unescape encodePath (rq_target r)) ->
     dispatch (escapedPath r) = ToHandler e -> onlyLocal e r ->
     serving r g = (Answered (mkHttpResponse 409 ∅ (errorText [ErrExternalBuildPlane])), g)).
Proof.
  split.
  - intros a g'. unfold serveHTTP. destruct (unescape _ _); [|by intros [= <- <-]]. destruct (dispatch _) as [e| |]; [|by intros [= <- <-]..].
    destruct (handle mgr js errorText env version e r (g, newWriter)) as [[[]|] [g1 w1]] eqn:E; intros [= <- <-]; [|done].
    by apply (handled_still mgr js errorText env version e r) in E.
  - intros e Hp [p Hu] Hd Hl. unfold serveHTTP. rewrite Hu, Hd.
    assert (forall k : H G unit, (refused ← refuseOnExternalBuildPlane mgr errorText; if refused : bool then mret tt else k) (g, newWriter) =
      (Some tt, (g, mkWriter ∅ (Some (409, ∅)) (errorText [ErrExternalBuildPlane])))) as Hr.
    { intros k. unfold refuseOnExternalBuildPlane, asks, mbind, H_bind. simpl. rewrite Hp. by rewrite decide_False by tauto. }
    destruct e; try done; cbn [handle onlyLocal] in *.
    + destruct Hl as [Hm [c Hc]]. unfold challengeHandler. rewrite Hc. rewrite decide_False, decide_True by (rewrite Hm; done). by rewrite Hr.
    + unfold pinsHandler. destruct Hl as [Hm|Hm]; [rewrite decide_True by done|rewrite decide_False, decide_True by (rewrite Hm; done)]; by rewrite Hr.
    + unfold updateHandler. case_decide as Hx; [by destruct Hx|]. by rewrite Hr.
Qed.

Lemma prefixed_lookup (l : list (string * string)) k : forall acc : gmap string string, NoDup l.*1 ->
  foldl (fun env kv => <[("CMGR_" +:+ kv.1)%string := kv.2]> env) acc l !! ("CMGR_" +:+ k)%string =
    match (list_to_map l : gmap string string) !! k with Some v => Some v | None => acc !! ("CMGR_" +:+ k)%string end.
Proof.
  induction l as [|[k' v] l IH]; intros acc Hl; [done|]. apply NoDup_cons in Hl as [Hk Hl]. simpl. rewrite IH by done.
  destruct (decide (k = k')) as [->|Hne].
  - rewrite lookup_insert_eq. rewrite not_elem_of_list_to_map_1 by done. by rewrite lookup_insert_eq.
  - rewrite !lookup_insert_ne; [done|congruence|]. intros E%append_cancel. congruence.
Qed.
(** What an instance is started with: the caller's variables, each behind the
    prefix of the challenge contract; the user goes before a variable of that
    name. *)
Lemma startEnv_lookup req k : startEnv req !! ("CMGR_" +:+ k)%string =
  if decide (k = "USER_ID"%string /\ sr_userId req <> ""%string) then Some (sr_userId req) else sr_env req !! k.
Proof.
  unfold startEnv. pose proof (prefixed_lookup (map_to_list (sr_env req)) k ∅ (NoDup_fst_map_to_list _)) as Hk.
  rewrite list_to_map_to_list in Hk. rewrite lookup_empty in Hk.
  destruct (decide (sr_userId req <> ""%string)) as [Hu|Hu].
  - destruct (decide (k = "USER_ID"%string)) as [->|Hne].
    + rewrite decide_True by done. apply lookup_insert_eq.
    + rewrite decide_False by tauto. 
      rewrite (lookup_insert_ne _ "CMGR_USER_ID"%string); [rewrite Hk; by case_match|]. by intros E%(append_cancel "CMGR_" "USER_ID").
  - rewrite decide_False by tauto. rewrite Hk. by case_match.
Qed.


(** What a converge asked for over HTTP comes to. *)
Lemma converge_answered x def query body g : properName x -> sepless slash x -> de_schema js body = inr (Some def) -> sch_name def = x ->
  serving (requestTo "POST" ["schemas"; x]%string query (inr body)) g =
    match mo_UpdateSchema mgr def g with
    | (None, g) => (Aborted, g)
    | (Some [], g) => (Answered (mkHttpResponse 204 ∅ ""), g)
    | (Some errs, g) => (Answered (mkHttpResponse (schemaStatus errs) ∅ (errorText (joinErrors errs))), g)
    end.
Proof.
  intros Hp Hs Hd Hx. destruct (serve_below mgr js errorText env version "POST" "schemas" x [] query (inr body) existingSchemaEndpoint g) as [-> Hu]; [set_solver|by repeat constructor|].
  cbn [handle]. unfold existingSchemaHandler. rewrite Hu, lastBelow_path by done. rewrite decide_False, decide_True by done.
  assert (readSchema js (requestTo "POST" ["schemas"; x]%string query (inr body)) = inr (Some def)) as -> by exact Hd.
  rewrite decide_False by tauto. rewrite invoke_bind. cbn [fst snd].
  destruct (mo_UpdateSchema mgr def g) as [[[|err errs]|] g1]; [done| |done].
  unfold finishConverge, finishSchema, conclude. pose proof (schemaStatus_code (err :: errs)) as Hc.
  generalize dependent (schemaStatus (err :: errs)). intros c Hc. rewrite !elem_of_cons, elem_of_nil in Hc.
  destruct Hc as [->|[->|[->|[]]]]; reflexivity.
Qed.

End contract.

(** ** Where an answer and the documentation part *)
Section parting.
Context {G : Type} (mgr : managerOps G) (js : codec) (errorText : error -> string) (env : environ) (version : string).
Local Abbreviation serving := (serveHTTP mgr js errorText env version).

(** A build that is no number is answered with a 400, but the request is gone on
    with: the build of number 0, or of the largest number there is, is
    destroyed if there is one. *)
Lemma bad_build_goes_on text query body g : Atoi text = None -> properName text -> sepless slash text ->
  (serving (requestTo "DELETE" ["builds"; text]%string query body) g).2 = (mo_Destroy mgr (atoiAnyway text) g).2 /\
  forall resp g', serving (requestTo "DELETE" ["builds"; text]%string query body) g = (Answered resp, g') -> hr_status resp = 400.
Proof.
  intros Ha Hp Hs. set (r := requestTo "DELETE" ["builds"; text]%string query body).
  destruct (serve_below mgr js errorText env version "DELETE" "builds" text [] query body buildEndpoint g) as [Hr Hu]; [set_solver|by repeat constructor|].
  assert (buildHandler mgr js errorText r = (reply 400 (errorText [OtherError "Atoi"]);; buildActs mgr js errorText r (atoiAnyway text))) as Hb.
  { unfold buildHandler, r. rewrite Hu, lastBelow_path, Ha, SplitOn_path by (done || by repeat constructor). by rewrite decide_False by done. }
  fold r in Hr. cbn [handle] in Hr. rewrite Hr, Hb. split.
  - unfold mbind at 1, H_bind. simpl. unfold buildActs. rewrite !decide_False, decide_True by done. rewrite invoke_bind. cbn [fst snd].
    destruct (mo_Destroy mgr _ g) as [[[err|u]|] g1]; [|done..]. simpl. unfold finishRetryable, mbind, H_bind. by destruct (errorResponse _ _) as [? []].
  - intros resp g'. lazymatch goal with |- answerOf ?x = _ -> _ => destruct x as [[[]|] [g1 w1]] eqn:E end; intros [= <- <-]. by eapply bad_build_sent.
Qed.
(** The 400 for a schema under another's name is overwritten by the 500 of every
    error, and a body that is a JSON null ends the connection. *)
Lemma mismatch_is_500 x def query body g : properName x -> sepless slash x -> de_schema js body = inr (Some def) -> sch_name def <> x ->
  exists text, serving (requestTo "POST" ["schemas"; x]%string query (inr body)) g = (Answered (mkHttpResponse 500 ∅ text), g).
Proof.
  intros Hp Hs Hd Hx. destruct (serve_below mgr js errorText env version "POST" "schemas" x [] query (inr body) existingSchemaEndpoint g) as [-> Hu]; [set_solver|by repeat constructor|].
  cbn [handle]. unfold existingSchemaHandler. rewrite Hu, lastBelow_path by done. rewrite decide_False, decide_True by done.
  assert (readSchema js (requestTo "POST" ["schemas"; x]%string query (inr body)) = inr (Some def)) as -> by exact Hd.
  rewrite decide_True by done. by eexists.
Qed.
Lemma null_schema_aborts x query body g : properName x -> sepless slash x -> de_schema js body = inr None ->
  serving (requestTo "POST" ["schemas"; x]%string query (inr body)) g = (Aborted, g).
Proof.
  intros Hp Hs Hd. destruct (serve_below mgr js errorText env version "POST" "schemas" x [] query (inr body) existingSchemaEndpoint g) as [-> Hu]; [set_solver|by repeat constructor|].
  cbn [handle]. unfold existingSchemaHandler. rewrite Hu, lastBelow_path by done. rewrite decide_False, decide_True by done.
  by assert (readSchema js (requestTo "POST" ["schemas"; x]%string query (inr body)) = inr None) as -> by exact Hd.
Qed.
End parting.

(** ** A Manager that notes what it is asked *)
Definition noted {A} (what : string) (a : A) : op (list string) A := fun log => (Some a, log ++ [what]).
Definition someInstance : InstanceMetadata := mkInstance 7 true ∅ [] 0 None 1 "" "" "".
Definition noteOps : managerOps (list string) := {|
  mo_BuildPlane _ := BuildPlaneExternal; mo_WorkersConfigured _ := false;
  mo_ListChallenges := noted "list" []; mo_SearchChallenges _ := noted "search" [];
  mo_GetChallengeMetadata id := noted ("challenge " +:+ id) (inl (unknownChallengeIdError id));
  mo_Build id _ _ := noted "build" ([], None);
  mo_HandOverChallenge id _ _ := noted ("hand-over " +:+ id) (inr (noUpdates []));
  mo_RemoveChallenge id := noted ("remove " +:+ id) (inr tt);
  mo_GetBuildMetadata n := noted "a build" (inl (unknownBuildIdError n));
  mo_Start n _ := noted "start" (if decide (n = 1) then inr 7 else inl [ErrWorkerBusy]);
  mo_GetInstanceMetadata n := noted "read" (if decide (n = 7) then inr someInstance else inl [OtherError "gone"]);
  mo_Destroy n := noted ("destroy " +:+ pretty n) (inl (unknownBuildIdError n));
  mo_Stop n := noted "stop" (inl (unknownInstanceIdError n));
  mo_GetSchemaState name := noted ("state of " +:+ name) (inr []); mo_ListSchemas := noted "schemas" (inr []);
  mo_CreateSchema s := noted "create" []; mo_UpdateSchema s := noted ("converge " +:+ sch_name s) [[ErrExternalBuildPlane]; [ErrExternalBuildPlane]];
  mo_DeleteSchema name _ := noted ("delete " +:+ name) (inr tt);
  mo_DetectChanges _ := noted "detect" (noUpdates []); mo_UpdateWithOptions _ _ := noted "update" (noUpdates []);
  mo_DumpState := noted "dump" (inr []); mo_ListWorkers := noted "workers" (inr []);
  mo_AddWorker ip _ := noted ("add " +:+ ip) (inr tt); mo_SetWorkerDown ip := noted ("down " +:+ ip) (inr tt); mo_RemoveWorker ip := noted ("remove " +:+ ip) (inr tt);
  mo_ListPreloads := noted "preloads" (inr []); mo_AddPreload name := noted "preload" (inr tt); mo_RemovePreload name := noted "release" (inr []);
  mo_ListBasePins := noted "pins" (Some [], None); mo_RefreshBasePins := noted "refresh" (Some [], None) |}.
(** Bodies of one word. *)
Definition wordCodec : codec :=
  let word {A} (_ : A) : error + string := inr "written"%string in
  mkCodec word word word word word (fun i => inr (pretty (im_id i))) word word word (fun _ => ""%string) word word (fun _ => ""%string) (fun _ => ""%string) word
    (fun _ => inr (mkBuildRequest "" [])) (fun name => inr (if decide (name = "null"%string) then None else Some (mkSchema name "" ∅ "")))
    (fun _ => DecodeEOF) (fun _ => Decoded (mkStartRequest "alice" {["LEVEL" := "2"]}%string)) (fun _ => DecodeEOF)
    (fun _ => DecodeEOF) (fun _ => Decoded "down"%string) (fun _ => DecodeEOF).
Local Abbreviation noting := (serveHTTP noteOps wordCodec (fun _ => "error"%string) ∅ "1").

Lemma refused_untouched_witness :
  noting (requestTo "POST" ["update"]%string "" (inr ""%string)) [] = (Answered (mkHttpResponse 409 ∅ "error"), []) /\
  (noting (requestTo "POST" ["instances"; "5"]%string "" (inr ""%string)) []).2 = [].
Proof.
  split.
  - refine (proj2 (refused_untouched noteOps wordCodec (fun _ => "error"%string) ∅ "1" (requestTo "POST" ["update"]%string "" (inr ""%string)) [])
      updateEndpoint eq_refl _ _ eq_refl); [by eexists|by vm_compute].
  - refine (proj1 (refused_untouched noteOps wordCodec (fun _ => "error"%string) ∅ "1" (requestTo "POST" ["instances"; "5"]%string "" (inr ""%string)) [])
      (Answered (mkHttpResponse 405 ∅ "")) _ _ eq_refl). by vm_compute.
Defined.

(** The build that is destroyed for one that is no number; the challenge another
    one's path names; the schema reached through a name with a slash. *)
Example no_build_destroyed : (noting (requestTo "DELETE" ["builds"; "abc"]%string "" (inr ""%string)) []).2 = ["destroy 0"]%string /\
  (noting (requestTo "DELETE" ["builds"; "99999999999999999999"]%string "" (inr ""%string)) []).2 = ["destroy 9223372036854775807"]%string.
Proof. split; by vm_compute. Qed.
Example nested_challenges : challengeOf "/challenges/event/challenges/web" = Some "web"%string.
Proof. by vm_compute. Qed.
Example slashed_schema : (noting (requestTo "DELETE" ["schemas"; "schemas/x"]%string "" (inr ""%string)) []).2 = ["delete x"]%string.
Proof. by vm_compute. Qed.
