(* ===== verification/Corkd.v ===== *)
(** * Corkd: the daemon, from its requests to its records

    The Manager the handlers of [Server] run on is the one the other files
    model: [corkdOps].  With it the theorems about operations become theorems
    about requests: nothing a client sends, in any order, breaks what the tables
    promise; an instance a client was told is stopped is not on record.  Also
    here: the search for challenges by tag ([database_challenges.go]) and the
    reading of an instance ([api.go]). *)
From S2P Require Import Prelude Types Settings Text Artifacts Queue Worker Database Fleet HostConfig Effects Ports Instances Images Docker Launch Lifecycle Roster Reconcile Builds Converge Builder Rebuild Challenges Schemas Converged Sha256 Seccomp Update Detect HandOver BasePins Search Files Refresh Bundles Preload Deploy System Server Served.
Local Open Scope Z_scope.

(** ** Searching for challenges *)

(** SQLite's [LIKE]: [%] is any text, [_] any one character, and letters are
    compared without their case. *)
Definition foldASCII (c : ascii) : ascii :=
  let n := nat_of_ascii c in if decide (65 <= n <= 90)%nat then ascii_of_nat (n + 32) else c.
Fixpoint likeAny (rest : string -> bool) (s : string) : bool :=
  rest s || match s with EmptyString => false | String _ s => likeAny rest s end.
Fixpoint like (pattern s : string) : bool :=
  match pattern with
  | EmptyString => bool_decide (s = ""%string)
  | String p pattern =>
    if decide (p = "%"%char) then likeAny (like pattern) s
    else
      match s with
      | EmptyString => false
      | String c s => (bool_decide (p = "_"%char) || bool_decide (foldASCII p = foldASCII c)) && like pattern s
      end
  end.
(** [strings.ReplaceAll(tag, "*", "%")]. *)
Fixpoint starsToPercents (tag : string) : string :=
  match tag with
  | EmptyString => EmptyString
  | String c tag => String (if decide (c = "*"%char) then "%"%char else c) (starsToPercents tag)
  end.
(** The ids of one [SELECT challenge FROM tags WHERE tag LIKE ?]. *)
Definition tagged (pattern : string) (d : Db) (id : ChallengeId) : bool :=
  existsb (like pattern) (cp_tags (challengeParts_of id d)).
Definition searchChallenges (tags : list string) : M (error + list ChallengeMetadata) :=
  match tags with
  | [] => listChallenges
  | _ =>
    sqlRead (fun d => (fun kv => listedChallenge kv.1 kv.2 (length (cp_portNames (challengeParts_of kv.1 d)))) <$>
      filter (fun kv => forallb (fun tag => tagged (starsToPercents tag) d kv.1) tags = true) (merge_sort id_le (map_to_list (t_challenges d))))
  end.
(** Both drop the error: what could not be read is not listed. *)
Definition ListChallenges : M (list ChallengeMetadata) := r ← listChallenges; mret (match r with inl _ => [] | inr l => l end).
Definition SearchChallenges (tags : list string) : M (list ChallengeMetadata) :=
  r ← searchChallenges tags; mret (match r with inl _ => [] | inr l => l end).

(** ** Reading an instance *)
Definition GetInstanceMetadata (id : InstanceId) : M (error + InstanceMetadata) :=
  let? i := lookupInstanceMetadata id in
  m ← getM;
  ok (if decide (im_worker i <> ""%string) then
        let public := workerPublicAddr m (im_worker i) in i <| im_workerPublic := public |> <| im_hostname := public |>
      else i).
#[global] Typeclasses Opaque listChallenges searchChallenges ListChallenges SearchChallenges GetInstanceMetadata GetSchemaState.

(** ** What a search finds

    Every challenge on record that has, for each pattern, a tag that matches it;
    in the order of their names. *)
Lemma search_finds tags w l w' : tags <> [] -> searchChallenges tags w = (inr l, w') ->
  forall id, id ∈ cm_id <$> l <-> is_Some (t_challenges (m_db (W_m w)) !! id) /\
    Forall (fun tag => exists t, t ∈ cp_tags (challengeParts_of id (m_db (W_m w))) /\ like (starsToPercents tag) t = true) tags.
Proof.
  intros Hne H id. destruct tags as [|tag0 tags]; [done|]. cbn [searchChallenges] in H. apply sqlRead_inv in H as (_ & _ & _ & ->).
  set (d := m_db (W_m w)). rewrite <- list_fmap_compose, list_elem_of_fmap. unfold is_Some.
  assert (forall i, forallb (fun tag => tagged (starsToPercents tag) d i) (tag0 :: tags) = true <->
    Forall (fun tag => exists t, t ∈ cp_tags (challengeParts_of i d) /\ like (starsToPercents tag) t = true) (tag0 :: tags)) as Ht.
  { intros i. rewrite forallb_forall, Forall_forall. unfold tagged. setoid_rewrite existsb_exists. setoid_rewrite list_elem_of_In. done. }
  split.
  - intros ([i row] & -> & [Hf Hin]%list_elem_of_filter). rewrite merge_sort_Permutation in Hin. apply elem_of_map_to_list in Hin.
    simpl. split; [by eexists|by apply Ht].
  - intros [[row Hrow] Hall]. exists (id, row). split; [done|]. apply list_elem_of_filter. split; [by apply Ht|].
    rewrite merge_sort_Permutation. by apply elem_of_map_to_list.
Qed.

(** ** The daemon *)
Definition BuildPlaneLocal : string := "local".
Definition BuildPlane (m : Manager) : string := if m_externalBuildPlane m then BuildPlaneExternal else BuildPlaneLocal.
(** The Manager with its outside, the pins in force and the disk they are on. *)
Record daemon := mkDaemon { dm_world : World; dm_pins : option basePins; dm_io : Io }.
Definition onWorld {A} (e : M (option A)) : op daemon A := fun d =>
  let '(r, w) := e (dm_world d) in (r, mkDaemon w (dm_pins d) (dm_io d)).
Definition inDaemon {A} (e : M A) : op daemon A := onWorld (r ← e; mret (Some r)).
(** An operation on the registry of workers. *)
Definition onFleet (f : Manager -> option error * Manager) : M (error + unit) :=
  m ← getM;
  let '(err, m) := f m in
  modifyM (fun _ => m);;
  mret (match err with Some err => inl err | None => inr tt end).
Definition AddWorkerOp (fails : nat -> option error) (ip public : string) : M (error + unit) :=
  t ← now; execErr ← ask o_db; getErr ← ask o_db; dialErr ← ask (fun _ => fails); onFleet (AddWorker t execErr getErr dialErr ip public).
Definition RemoveWorkerOp (ip : string) : M (error + unit) := txErr ← ask o_db; onFleet (RemoveWorker txErr ip).
Definition SetWorkerDownOp (ip : string) : M (error + unit) := t ← now; onFleet (SetWorkerDown t ip).

Section daemon.
(** The configuration; what an update meanwhile does to the records a preload
    reads and what the preloaders last found; whether a worker can be dialled;
    and what the refresh of the pins asks. *)
Context (cf : config) (updates : nat -> Db -> Db) (status : nat -> preloadStatus) (dialFails : nat -> option error).
Context (unicodeLower : string -> string) (encode : pinMap -> error + string) (statOk : string -> bool) (getDockerfile : string -> string).
Context (chalName : string) (tree : nat -> error + node) (registryDigest : nat -> string) (repoDigests : nat -> list string).
Context (order : nat -> gset string -> list string) (tempName : nat -> string).

Definition corkdOps : managerOps daemon := {|
  mo_BuildPlane d := BuildPlane (W_m (dm_world d));
  mo_WorkersConfigured d := WorkersConfigured (W_m (dm_world d));
  mo_ListChallenges := inDaemon ListChallenges;
  mo_SearchChallenges tags := inDaemon (SearchChallenges tags);
  mo_GetChallengeMetadata id := inDaemon (lookupChallengeMetadata id);
  mo_Build id seeds format := inDaemon (Build (cf_pins cf) (cf_template cf) (cf_limits cf) (cf_purge cf) (cf_chalDir cf) id seeds format);
  mo_HandOverChallenge id h prune :=
    inDaemon (HandOverChallenge (cf_decode cf) (cf_pins cf) (cf_template cf) (cf_limits cf) (cf_buildPlane cf) (cf_purge cf) id (Some h) prune);
  mo_RemoveChallenge id := inDaemon (RemoveChallenge id);
  mo_GetBuildMetadata id := inDaemon (lookupBuildMetadata id);
  mo_Start id env := inDaemon (Start id env);
  mo_GetInstanceMetadata id := inDaemon (GetInstanceMetadata id);
  mo_Destroy id := onWorld (Destroy (cf_buildPlane cf) id);
  mo_Stop id := inDaemon (Launch.Stop id);
  mo_GetSchemaState name := inDaemon (GetSchemaState name);
  mo_ListSchemas := inDaemon queryForSchemas;
  mo_CreateSchema schema :=
    onWorld (CreateSchema (cf_pins cf) (cf_template cf) (cf_limits cf) (cf_buildPlane cf) (cf_purge cf) (cf_chalDir cf) schema);
  mo_UpdateSchema schema :=
    onWorld (UpdateSchema (cf_pins cf) (cf_template cf) (cf_limits cf) (cf_buildPlane cf) (cf_purge cf) (cf_chalDir cf) schema);
  mo_DeleteSchema name retire := inDaemon (DeleteSchema (cf_buildPlane cf) name retire);
  mo_DetectChanges path := inDaemon (DetectChanges (cf_chalDir cf) path);
  mo_UpdateWithOptions path prune :=
    inDaemon (UpdateWithOptions (cf_pins cf) (cf_template cf) (cf_limits cf) (cf_buildPlane cf) (cf_purge cf) (cf_chalDir cf) path prune);
  mo_DumpState := inDaemon dumpState;
  mo_ListWorkers := onWorld (selectErr ← ask o_db; reader (ListWorkers selectErr));
  mo_AddWorker ip public := inDaemon (AddWorkerOp dialFails ip public);
  mo_SetWorkerDown ip := inDaemon (SetWorkerDownOp ip);
  mo_RemoveWorker ip := inDaemon (RemoveWorkerOp ip);
  mo_ListPreloads := inDaemon (ListPreloads updates status);
  mo_AddPreload schema := inDaemon (AddPreload schema);
  mo_RemovePreload schema := inDaemon (RemovePreload updates schema);
  mo_ListBasePins d :=
    inDaemon (r ← ListBasePins unicodeLower statOk getDockerfile (cf_chalDir cf) chalName tree (dm_pins d);
              mret (match r with inl err => (None, Some err) | inr pins => (Some pins, None) end)) d;
  mo_RefreshBasePins d :=
    let '((pins, err, b, io), w) :=
      RefreshBasePins unicodeLower encode statOk getDockerfile (cf_chalDir cf) chalName tree registryDigest repoDigests order tempName
        (dm_pins d) (dm_io d) (dm_world d) in
    (Some (pins, err), mkDaemon w b io) |}.
End daemon.

(** ** The tables under requests *)

(** What an invariant of the Manager has to put up with from the requests that
    only touch preloads, or what runs beside them. *)
Class Unshaken (updates : nat -> Db -> Db) (J : Manager -> Prop) : Prop := {
  unshaken_stable : Stable J;
  unshaken_updates n m : J m -> J (m <| m_db ::= updates n |>);
  unshaken_preloads f m : J m -> J (m <| m_db ::= (fun d => d <| t_preloads ::= f |>) |>);
  unshaken_kick m : J m -> J (kickPreloads m) }.

Section keeps_daemon.
Context (cf : config) (updates : nat -> Db -> Db) (status : nat -> preloadStatus) (dialFails : nat -> option error).
Context (unicodeLower : string -> string) (encode : pinMap -> error + string) (statOk : string -> bool) (getDockerfile : string -> string).
Context (chalName : string) (tree : nat -> error + node) (registryDigest : nat -> string) (repoDigests : nat -> list string).
Context (order : nat -> gset string -> list string) (tempName : nat -> string).
Context (J : Manager -> Prop) {HJ : Unshaken updates J} {Hserve : forall r, Keeps (onM J) (serve cf r)}.
#[local] Existing Instance unshaken_stable.
Local Abbreviation Ok := (onM J).

Lemma keeps_unit {A} (e : M A) : Keeps Ok (_ ← e; mret tt) -> Keeps Ok e.
Proof. intros He w Hw. specialize (He w Hw). unfold mbind, M_bind in He. by destruct (e w). Qed.
Lemma keeps_onWorld {A} (e : M (option A)) : Keeps Ok e -> keepsOp (fun d => J (W_m (dm_world d))) (onWorld e).
Proof. intros He d Hd. unfold onWorld. specialize (He (dm_world d) Hd). by destruct (e _). Qed.
Lemma keeps_inDaemon {A} (e : M A) : Keeps Ok e -> keepsOp (fun d => J (W_m (dm_world d))) (inDaemon e).
Proof. intros He. apply keeps_onWorld. keep. Qed.
Lemma keeps_onFleet op f : (forall m, (f m).2 = run_op op m) -> Keeps Ok (onFleet f).
Proof.
  intros Hf w Hw. unfold onFleet. run. specialize (Hf (W_m w)). destruct (f (W_m w)) as [err m]. simpl in *. subst. by apply stable.
Qed.
Instance keeps_meanwhile : Keeps Ok (meanwhile updates).
Proof. intros w Hw. by apply unshaken_updates. Qed.
Instance keeps_readSets : Keeps Ok (readSets updates).
Proof. unfold readSets. keep. Qed.
Lemma keeps_preloadWrite {A} (f : Db -> gset string) (a : Db -> A) : Keeps Ok (sql (fun d => Some (d <| t_preloads := f d |>, a d))).
Proof. apply keeps_sql. intros m d' x Hm [= <- _]. by apply (unshaken_preloads (fun _ => f (m_db m))). Qed.
Instance keeps_resolveLocal ref err : Keeps Ok (resolveLocal repoDigests ref err).
Proof. unfold resolveLocal, Refresh.answer. keep. Qed.
Instance keeps_resolveAll deadline reserve refs pins errs : Keeps Ok (resolveAll registryDigest repoDigests deadline reserve refs pins errs).
Proof. revert pins errs. induction refs; intros; simpl; unfold resolveDigest, Refresh.answer; keep. Qed.
Instance keeps_ListBasePins b : Keeps Ok (ListBasePins unicodeLower statOk getDockerfile (cf_chalDir cf) chalName tree b).
Proof. unfold ListBasePins, scanBaseRefs, Refresh.answer. keep. Qed.
Instance keeps_RefreshBasePins b io : Keeps Ok (RefreshBasePins unicodeLower encode statOk getDockerfile (cf_chalDir cf) chalName tree
  registryDigest repoDigests order tempName b io).
Proof. unfold RefreshBasePins, scanBaseRefs, Refresh.answer. keep. Qed.
Instance keeps_lookups id : Keeps Ok (lookupChallengeMetadata id).
Proof. unfold lookupChallengeMetadata. keep. Qed.
Instance keeps_lookupB id : Keeps Ok (lookupBuildMetadata id).
Proof. unfold lookupBuildMetadata. keep. Qed.
Instance keeps_lookupI id : Keeps Ok (lookupInstanceMetadata id).
Proof. unfold lookupInstanceMetadata. keep. Qed.
Instance keeps_stateLoop ids cs c : Keeps Ok (stateLoop ids cs c).
Proof. revert cs c. induction ids; intros; simpl; unfold lookupBuildInstances; keep. Qed.
Instance keeps_dumpBuilds ids : Keeps Ok (dumpBuilds ids).
Proof. induction ids; simpl; unfold lookupBuildInstances; keep. Qed.
Instance keeps_dumpAll ids : Keeps Ok (dumpAll ids).
Proof. induction ids; simpl; unfold dumpChallenge; keep. Qed.
#[export] Instance corkd_keeps : ManagerKeeps (corkdOps cf updates status dialFails unicodeLower encode statOk getDockerfile chalName tree
  registryDigest repoDigests order tempName) (fun d => J (W_m (dm_world d))).
Proof.
  split; intros; simpl; try apply keeps_inDaemon; try apply keeps_onWorld.
  all: lazymatch goal with
  | |- Keeps _ ListChallenges => unfold ListChallenges, listChallenges; keep
  | |- Keeps _ (SearchChallenges _) => unfold SearchChallenges, searchChallenges, listChallenges; keep
  | |- Keeps _ (Build _ _ _ _ _ _ _ _) => apply keeps_unit, (Hserve (ReqBuild id seeds format))
  | |- Keeps _ (HandOverChallenge _ _ _ _ _ _ _ _ _) => apply keeps_unit, (Hserve (ReqHandOver id (Some h) prune))
  | |- Keeps _ (RemoveChallenge _) => apply keeps_unit, (Hserve (ReqRemoveChallenge id))
  | |- Keeps _ (Start _ _) => apply keeps_unit, (Hserve (ReqStart id env))
  | |- Keeps _ (Launch.Stop _) => apply keeps_unit, (Hserve (ReqStop id))
  | |- Keeps _ (Destroy _ _) => apply keeps_unit, (Hserve (ReqDestroy id))
  | |- Keeps _ (CreateSchema _ _ _ _ _ _ _) => apply keeps_unit, (Hserve (ReqCreateSchema s))
  | |- Keeps _ (UpdateSchema _ _ _ _ _ _ _) => apply keeps_unit, (Hserve (ReqUpdateSchema s))
  | |- Keeps _ (DeleteSchema _ _ _) => apply keeps_unit, (Hserve (ReqDeleteSchema name retire))
  | |- Keeps _ (UpdateWithOptions _ _ _ _ _ _ _ _) => apply keeps_unit, (Hserve (ReqUpdate path prune))
  | |- _ => idtac
  end.
  - apply _.
  - apply _.
  - unfold GetInstanceMetadata. keep.
  - unfold GetSchemaState, getSchemaBuilds. keep.
  - unfold queryForSchemas. keep.
  - unfold DetectChanges, normalizeDirPath, listChallenges, staleChallengeSet, classifyChallenges. keep.
  - unfold dumpState, listChallenges. keep.
  - keep.
  - unfold AddWorkerOp. keep. eapply (keeps_onFleet (OpAdd _ _ _ _ ip public)). done.
  - unfold SetWorkerDownOp. keep. eapply (keeps_onFleet (OpDown _ ip)). done.
  - unfold RemoveWorkerOp. keep. eapply (keeps_onFleet (OpRemove _ ip)). done.
  - unfold ListPreloads. keep.
  - unfold AddPreload, schemaExists. keep; [|apply keeps_modify, unshaken_kick]. apply (keeps_preloadWrite (fun d => {[name]} ∪ t_preloads d) (fun _ => tt)).
  - unfold RemovePreload. keep. apply (keeps_preloadWrite (fun d => t_preloads (deletePreload name d))).
  - intros d Hd. apply keeps_inDaemon; [|done]. keep.
  - intros d Hd. pose proof (keeps_RefreshBasePins (dm_pins d) (dm_io d) (dm_world d) Hd) as Hk.
    simpl. by destruct (RefreshBasePins _ _ _ _ _ _ _ _ _ _ _ _ _ _) as [[[[]]]].
Qed.
End keeps_daemon.

Lemma tables_unshaken updates : (forall n m, tables_ok m -> tables_ok (m <| m_db ::= updates n |>)) -> Unshaken updates tables_ok.
Proof.
  intros Hu. split; [apply _|done| |].
  - intros f m Hm. apply (tables_ok_db m ((m_db m) <| t_preloads ::= f |>)); [done| |done]. by destruct Hm as [[] _].
  - intros m. by apply same_db_tables_ok.
Qed.
Lemma keys_unshaken updates : (forall n d, builds_unique d -> builds_unique (updates n d)) -> Unshaken updates (fun m => builds_unique (m_db m)).
Proof. intros Hu. split; [apply _|intros n m; apply Hu|by intros f m|by intros m]. Qed.

(** Everything a request meets: the configuration, what the outside answers,
    how bodies read and are written. *)
Record host := mkHost {
  ht_config : config; ht_updates : nat -> Db -> Db; ht_status : nat -> preloadStatus; ht_dial : nat -> option error;
  ht_lower : string -> string; ht_encode : pinMap -> error + string; ht_stat : string -> bool; ht_dockerfile : string -> string;
  ht_chalName : string; ht_tree : nat -> error + node; ht_digest : nat -> string; ht_repoDigests : nat -> list string;
  ht_order : nat -> gset string -> list string; ht_temp : nat -> string;
  ht_codec : codec; ht_errorText : error -> string; ht_env : environ; ht_version : string }.
Definition hostOps (h : host) : managerOps daemon :=
  corkdOps (ht_config h) (ht_updates h) (ht_status h) (ht_dial h) (ht_lower h) (ht_encode h) (ht_stat h) (ht_dockerfile h) (ht_chalName h)
    (ht_tree h) (ht_digest h) (ht_repoDigests h) (ht_order h) (ht_temp h).
Definition corkd (h : host) : httpRequest -> daemon -> httpAnswer * daemon :=
  serveHTTP (hostOps h) (ht_codec h) (ht_errorText h) (ht_env h) (ht_version h).
Lemma corkd_holds h (J : Manager -> Prop) : Unshaken (ht_updates h) J -> (forall r, Keeps (onM J) (serve (ht_config h) r)) ->
  forall r d, J (W_m (dm_world d)) -> J (W_m (dm_world (corkd h r d).2)).
Proof. intros HJ Hs r d Hd. apply (serveHTTP_keeps (hostOps h) _ _ _ _ (fun d => J (W_m (dm_world d))) (HI := corkd_keeps _ _ _ _ _ _ _ _ _ _ _ _ _ _ J)); done. Qed.
(** What a preload finds written meanwhile is what other requests write. *)
Definition orderly (h : host) : Prop :=
  (forall n m, tables_ok m -> tables_ok (m <| m_db ::= ht_updates h n |>)) /\
  (forall n d, builds_unique d -> builds_unique (ht_updates h n d)).
Definition meeting (o : Oracle) (d : daemon) : daemon := mkDaemon ((dm_world d) <| W_o := o |>) (dm_pins d) (dm_io d).

(** A daemon's life: requests, each with the outside it meets, and what runs
    beside them (prunes, passes over a worker, its probes). *)
Inductive lives : daemon -> daemon -> Prop :=
| lives_request h o r d : orderly h -> lives d (corkd h r (meeting o d)).2
| lives_beside cf r o d : lives d (mkDaemon (serve cf r ((dm_world d) <| W_o := o |>)).2 (dm_pins d) (dm_io d)).

(** C3. Nothing a client sends breaks the records.  Whatever requests come over HTTP
    -- any method, path and body, well-formed or not, in any order, with any
    failure at any point of any of them, and with prunes, probes and passes over
    workers in between -- from tables in order the tables stay in order: with a
    port range configured no two assignments share a worker and a port, nothing
    refers to a row that is gone, and no build is on record twice. *)
Theorem requests_keep_tables d d' :
  tables_ok (W_m (dm_world d)) -> builds_unique (m_db (W_m (dm_world d))) -> rtc lives d d' ->
  tables_ok (W_m (dm_world d')) /\ builds_unique (m_db (W_m (dm_world d'))).
Proof.
  intros Ht Hu Hrun. induction Hrun as [|d d1 d' Hstep _ IH]; [done|]. apply IH; destruct Hstep as [h o r d [Hh Hk]|cf r o d].
  - by apply (corkd_holds h tables_ok (tables_unshaken _ Hh) (keeps_serve _)).
  - by apply (keeps_serve cf r).
  - by apply (corkd_holds h _ (keys_unshaken _ Hk) (keyed_serve _)).
  - by apply (keyed_serve cf r).
Qed.

(** ** A stop that was answered *)

(** What the outside reports is never an identifier the Manager does not know. *)
Definition foreign (err : error) : Prop := isUnknownIdentifier err = false.
Definition outsider (o : Oracle) : Prop :=
  (forall n err, o_db o n = Some err -> foreign err) /\ (forall n c err, o_docker o n c = Some err -> foreign err).
Lemma foreign_app e e' : foreign e -> foreign e' -> foreign (e ++ e').
Proof. unfold foreign, isUnknownIdentifier. intros H H'. by rewrite existsb_app, H, H'. Qed.
Lemma foreign_bare err : foreign err -> bareUnknown err = false.
Proof. unfold foreign, bareUnknown. by destruct err as [|[] []]. Qed.
Definition sameOutside (o : Oracle) (w : World) : Prop := W_o w = o.
#[export] Instance aloof_outside o : Aloof (sameOutside o).
Proof. split; [|done]. intros w w' Ho _ _ Hw. unfold sameOutside in *. congruence. Qed.

Section foreign.
Context (o : Oracle) (Ho : outsider o).
Lemma docker_foreign cli c w err w' : sameOutside o w -> docker cli c w = (inl err, w') -> foreign err.
Proof.
  intros Hw. unfold docker. run. destruct (o_docker _ _ _) as [e|] eqn:E; [|done]. intros [= <- _].
  simpl in E. rewrite Hw in E. by apply (proj2 Ho) in E.
Qed.
Lemma sql_foreign {A} (f : Db -> option (Db * A)) w err w' : sameOutside o w -> sql f w = (inl err, w') -> foreign err.
Proof.
  intros Hw. unfold sql. run. destruct (o_db _ _) as [e|] eqn:E.
  - intros [= <- _]. rewrite Hw in E. by apply (proj1 Ho) in E.
  - destruct (f _) as [[]|]; [done|]. by intros [= <- _].
Qed.
Lemma foreign_retryable err : foreign err -> foreign (retryableDB err).
Proof. unfold retryableDB. by case_match. Qed.
Lemma instanceClient_foreign m worker err : instanceClient m worker = inl err -> foreign err.
Proof. unfold instanceClient. by repeat case_match; intros [= <-]. Qed.
Lemma acquireSlot_foreign worker wait w err w' : acquireSlot worker wait w = (inl err, w') -> foreign err.
Proof. unfold acquireSlot. run. intros H. cases_in H; done. Qed.
Lemma removeInstance_foreign id w err w' : sameOutside o w -> removeInstanceMetadata id w = (inl err, w') -> foreign err.
Proof.
  intros Hw H. unfold removeInstanceMetadata, retryable in H. apply bind_inv in H as (r & w1 & E & H).
  destruct r as [e|u]; apply ret_inv in H as [H _]; [|done]. injection H as ->. apply foreign_retryable. unfold sqlExec in E. exact (sql_foreign _ _ _ _ Hw E).
Qed.
Lemma removeLoop_foreign i cli cids : forall inFlight errs w r w', sameOutside o w -> Forall foreign errs ->
  removeLoop i cli cids inFlight errs w = (r, w') -> Forall foreign r.2.
Proof.
  induction cids as [|cid cids IH]; intros inFlight errs w r w' Hw He H; simpl in H; [by apply ret_inv in H as [-> _]|].
  step H q w1 E. pose proof (keeps_holds (sameOutside o) _ _ _ _ E Hw) as Hw1. destruct q as [err|u]; [|exact (IH _ _ _ _ _ Hw1 He H)].
  assert (foreign err) as Hf by exact (docker_foreign _ _ _ _ _ Hw E). assert (Forall foreign (errs ++ [err])) as Hs by (apply Forall_app; split; [done|by constructor]).
  destruct (IsNotFound err); [exact (IH _ _ _ _ _ Hw1 He H)|]. destruct (IsConflict err); [exact (IH _ _ _ _ _ Hw1 He H)|].
  step H u w2 E2. pose proof (keeps_holds (sameOutside o) _ _ _ _ E2 Hw1) as Hw2. step H m w3 E3. apply getM_inv in E3 as [-> ->].
  destruct (_ && _); [by apply ret_inv in H as [-> _]|exact (IH _ _ _ _ _ Hw2 Hs H)].
Qed.
Lemma joined_foreign errs err : Forall foreign errs -> joined errs = Some err -> foreign err.
Proof.
  unfold joined. destruct errs as [|e errs]; [done|]. intros He [= <-]. change (foreign (concat (e :: errs))).
  induction He; [done|]. simpl. by apply foreign_app.
Qed.
Lemma transaction_foreign {A} (body : M (error + A)) `{!Keeps (sameOutside o) body} w err w' :
  (forall w err w', sameOutside o w -> body w = (inl err, w') -> foreign err) ->
  sameOutside o w -> transaction body w = (inl err, w') -> foreign err.
Proof.
  intros Hb Hw H. unfold transaction in H. step H d0 w0 E0. unfold getDb in E0. injection E0 as <- <-. step H r w1 E1.
  pose proof (keeps_holds (sameOutside o) _ _ _ _ E1 Hw) as Hw1. destruct r as [e|a].
  - step H u w2 E2. apply ret_inv in H as [H _]. injection H as ->. exact (Hb _ _ _ Hw E1).
  - step H c w2 E2. unfold ask in E2. injection E2 as <- <-. rewrite Hw1 in H. destruct (o_db o (W_tick w1)) as [e|] eqn:E.
    + step H u w3 E3. apply ret_inv in H as [H _]. injection H as ->. by apply (proj1 Ho) in E.
    + by apply ret_inv in H as [? _].
Qed.
Lemma sqlExec_outside f : Keeps (sameOutside o) (sqlExec f).
Proof. intros w Hw. unfold sameOutside in *. unfold sqlExec, sql. run. by destruct (o_db _ _). Qed.
Lemma removeContainers_foreign i w err w' : sameOutside o w -> removeContainersMetadata i w = (inl err, w') -> foreign err.
Proof.
  pose proof sqlExec_outside. unfold removeContainersMetadata. apply transaction_foreign; [keep|].
  intros w1 e w2 Hw1 H1. unfold try in H1. step H1 r w3 E. pose proof (keeps_holds (sameOutside o) _ _ _ _ E Hw1) as Hw3.
  destruct r as [e'|u]; [apply ret_inv in H1 as [H1 _]; injection H1 as ->; exact (sql_foreign (fun d => Some (_, tt)) _ _ _ Hw1 E)|exact (sql_foreign (fun d => Some (_, tt)) _ _ _ Hw3 H1)].
Qed.
Lemma stopContainers_foreign i w fl err i' w' : sameOutside o w -> stopContainers i w = ((fl, Some err, i'), w') -> foreign err.
Proof.
  intros Hw H. unfold stopContainers in H. step H cli w1 E1. unfold reader in E1. injection E1 as <- <-.
  destruct (instanceClient _ _) as [e|cli] eqn:Ec; [apply ret_inv in H as [H _]; simplify_eq; by eapply instanceClient_foreign|].
  step H q w1 E1. destruct q as [inFlight errs]. pose proof (keeps_holds (sameOutside o) _ _ _ _ E1 Hw) as Hw1.
  apply (removeLoop_foreign _ _ _ _ _ _ _ _ Hw (Forall_nil_2 _)) in E1. simpl in E1.
  step H r w2 E2. apply ret_inv in H as [H _]. injection H as _ H _. symmetry in H. eapply joined_foreign; [|exact H].
  destruct r as [e|u]; [|done]. apply Forall_app. split; [done|]. constructor; [|done]. apply foreign_retryable.
  exact (removeContainers_foreign _ _ _ _ Hw1 E2).
Qed.
Lemma stopNetwork_foreign i w err w' : sameOutside o w -> stopNetwork i w = (inl err, w') -> foreign err.
Proof.
  intros Hw H. unfold stopNetwork in H. step H cli w1 E1. unfold reader in E1. injection E1 as <- <-.
  destruct (instanceClient _ _) as [e|cli] eqn:Ec; [apply ret_inv in H as [H _]; simplify_eq; by eapply instanceClient_foreign|].
  step H r w1 E1. destruct r as [e|u]; [|by apply ret_inv in H as [? _]]. pose proof (docker_foreign _ _ _ _ _ Hw E1) as Hf.
  destruct (IsNotFound e); [by apply ret_inv in H as [? _]|]. step H u w2 E2. apply ret_inv in H as [H _]. by simplify_eq.
Qed.
Lemma teardown_foreign i wait w err i' w' : sameOutside o w -> teardown i wait w = ((Some err, i'), w') -> foreign err.
Proof.
  intros Hw H. unfold teardown in H. step H r w1 E1. pose proof (keeps_holds (sameOutside o) _ _ _ _ E1 Hw) as Hw1.
  destruct r as [e|u]; [apply ret_inv in H as [H _]; simplify_eq; by eapply acquireSlot_foreign|].
  step H q w2 E2. destruct q as [[fl cErr] i2]. pose proof (keeps_holds (sameOutside o) _ _ _ _ E2 Hw1) as Hw2.
  step H m w3 E3. apply getM_inv in E3 as [-> ->]. destruct cErr as [e|].
  - pose proof (stopContainers_foreign _ _ _ _ _ _ Hw1 E2) as He. destruct (_ && _); [apply ret_inv in H as [H _]; by simplify_eq|].
    step H n w4 E4. apply ret_inv in H as [H _]. injection H as H _. subst err. apply foreign_app; [done|].
    destruct n as [ne|]; [|done]. case_match; [done|]. exact (stopNetwork_foreign _ _ _ _ Hw2 E4).
  - step H n w4 E4. apply ret_inv in H as [H _]. injection H as H _. destruct n as [ne|]; [|done]. case_match; [done|].
    injection H as ->. exact (stopNetwork_foreign _ _ _ _ Hw2 E4).
Qed.
End foreign.

Lemma stopInstance_clears i w u w' : tables_ok (W_m w) -> stopInstance i w = (inr u, w') -> cleared (im_id i) (m_db (W_m w')).
Proof.
  intros Hok H. assert (forall w1, tables_ok (W_m w1) -> removeInstanceMetadata (im_id i) w1 = (inr u, w') -> cleared (im_id i) (m_db (W_m w'))) as Hrm.
  { intros w1 H1 (_ & -> & _)%removeInstanceMetadata_spec. by apply deleteInstance_cleared. }
  unfold stopInstance in H. step H m w1 E1. apply getM_inv in E1 as [-> ->]. destruct (unreachable _ _); [by apply (Hrm w)|].
  step H r w1 E1. destruct r as [err i1]. assert (tables_ok (W_m w1)) as Hok1 by exact (keeps_gives _ _ _ _ _ E1 Hok).
  destruct err as [err|]; [|by apply (Hrm w1)]. step H m w2 E2. apply getM_inv in E2 as [-> ->].
  destruct (unreachable _ _); [by apply (Hrm w1)|]. destruct (errors_Is _ _); [by apply (Hrm w1)|by apply ret_inv in H as [? _]].
Qed.
Lemma stopInstance_foreign o i w err w' : outsider o -> sameOutside o w -> stopInstance i w = (inl err, w') -> foreign err.
Proof.
  intros Ho Hw H. unfold stopInstance in H. step H m w1 E1. apply getM_inv in E1 as [-> ->].
  destruct (unreachable _ _); [exact (removeInstance_foreign o Ho _ _ _ _ Hw H)|].
  step H r w1 E1. destruct r as [e i1]. pose proof (keeps_holds (sameOutside o) _ _ _ _ E1 Hw) as Hw1.
  destruct e as [e|]; [|exact (removeInstance_foreign o Ho _ _ _ _ Hw1 H)]. step H m w2 E2. apply getM_inv in E2 as [-> ->].
  destruct (unreachable _ _); [exact (removeInstance_foreign o Ho _ _ _ _ Hw1 H)|].
  destruct (errors_Is _ _); [exact (removeInstance_foreign o Ho _ _ _ _ Hw1 H)|].
  apply ret_inv in H as [H _]. injection H as ->. exact (teardown_foreign o Ho _ _ _ _ _ _ Hw E1).
Qed.
Lemma unrecorded_cleared m id : tables_ok m -> t_instances (m_db m) !! id = None -> cleared id (m_db m).
Proof.
  intros [[] _] Hn. split_and!; [done| |]; [eapply Forall_impl; [exact ok_ports|]|eapply Forall_impl; [exact ok_containers|]].
  - intros r [[x Hx] _] E. congruence.
  - intros r [x Hx] E. congruence.
Qed.
(** A row that is looked up is there, or the error says it is not, or it is one of
    the outside's. *)
Lemma row_lookup {A B} o (table : Db -> gmap Z A) (read : Z -> A -> Db -> B) (unknown : error) id w r w' : outsider o -> sameOutside o w ->
  (let? d := sqlRead (fun d => d) in match table d !! id with None => fail unknown | Some row => ok (read id row d) end) w = (r, w') ->
  W_m w' = W_m w /\ sameOutside o w' /\
  match r with
  | inr b => exists row, table (m_db (W_m w)) !! id = Some row /\ b = read id row (m_db (W_m w))
  | inl err => foreign err \/ (err = unknown /\ table (m_db (W_m w)) !! id = None)
  end.
Proof.
  intros Ho Hw. unfold sqlRead, sql. run. destruct (o_db _ _) as [e|] eqn:E.
  - intros [= <- <-]. split_and!; [done|done|]. left. rewrite Hw in E. by apply (proj1 Ho) in E.
  - destruct (table (m_db (W_m w)) !! id) as [row|] eqn:Er; simpl; rewrite ?Er; intros [= <- <-]; destruct w as [[] ? ? ?]; simpl; split_and!; eauto.
Qed.
Lemma Stop_told id w r w' : outsider (W_o w) -> tables_ok (W_m w) -> Launch.Stop id w = (r, w') ->
  match r with inr _ => True | inl err => bareUnknown err = true end -> cleared id (m_db (W_m w')).
Proof.
  intros Ho Hok H. set (o := W_o w) in *. assert (sameOutside o w) as Hw by done. unfold Launch.Stop in H. unfold try in H at 1.
  step H ri w1 E1. apply (row_lookup o t_instances instanceMeta _ _ _ _ _ Ho Hw) in E1 as (Hm1 & Hw1 & E1).
  destruct ri as [err|i].
  { apply ret_inv in H as [-> ->]. intros Hb. destruct E1 as [Hf|[-> Hn]]; [apply foreign_bare in Hf; congruence|].
    apply unrecorded_cleared; [by rewrite Hm1|by rewrite Hm1]. }
  destruct E1 as (row & Hrow & ->). assert (tables_ok (W_m w1)) as Hok1 by (by rewrite Hm1). unfold try in H.
  step H rb w2 E2. apply (row_lookup o t_builds buildMeta _ _ _ _ _ Ho Hw1) in E2 as (Hm2 & Hw2 & E2).
  destruct rb as [err|b].
  { apply ret_inv in H as [-> ->]. intros Hb. destruct E2 as [Hf|[_ Hn]]; [apply foreign_bare in Hf; congruence|].
    destruct Hok as [Hdb _]. destruct (ok_build _ Hdb id row Hrow) as [br Hbr]. rewrite Hm1 in Hn. simpl in Hn. congruence. }
  case_decide; [apply ret_inv in H as [-> _]; done|]. assert (tables_ok (W_m w2)) as Hok2 by (by rewrite Hm2).
  destruct r as [err|u].
  - apply (stopInstance_foreign o) in H as Hf; [|done..]. apply foreign_bare in Hf. congruence.
  - intros _. by apply (stopInstance_clears _ _ _ _ Hok2) in H.
Qed.

(** C9. Told that an instance is stoppedDaemon, a client may count on it: after a 204 to the
    DELETE of an instance it is on no record, nor is a port or a container of it,
    whether this request stopped it or it was gone before, whatever failed on the
    way; the errors that leave it recorded are all answered otherwise. *)
Theorem stopped_is_gone h text n query body d resp d' :
  Atoi text = Some n -> tables_ok (W_m (dm_world d)) -> outsider (W_o (dm_world d)) ->
  corkd h (requestTo "DELETE" ["instances"; text]%string query body) d = (Answered resp, d') ->
  hr_status resp = 204 -> cleared n (m_db (W_m (dm_world d'))).
Proof.
  intros Hn Hok Ho. unfold corkd. rewrite (stop_answered (hostOps h) _ _ _ _ text n query body d Hn). simpl mo_Stop.
  unfold inDaemon, onWorld. unfold mbind at 1, M_bind. destruct (Launch.Stop n (dm_world d)) as [r w'] eqn:E. simpl.
  pose proof (Stop_told n _ r w' Ho Hok E) as Ht. intros H Hs.
  destruct r as [err|u]; simpl in *; [|injection H as <- <-; by apply Ht].
  destruct (bareUnknown err) eqn:Eb; injection H as <- <-; [by apply Ht|].
  exfalso. unfold refusal, errorResponse in Hs. rewrite Eb in Hs. by destruct (existsb _ _).
Qed.

(** ** One launch and its stop, over HTTP *)
Definition idle : preloadStatus := mkStatus ∅ ∅ "" None.
Definition demoHost : host :=
  mkHost some_config (fun _ d => d) (fun _ => idle) (fun _ => None) (fun s => s) (fun _ => inr ""%string) (fun _ => false) (fun _ => ""%string) "c"
    (fun _ => inl [OtherError "no tree"]) (fun _ => ""%string) (fun _ => []) (fun _ s => elements s) (fun _ => "tmp"%string)
    wordCodec (fun _ => "error"%string) ∅ "1".
Lemma demo_orderly : orderly demoHost.
Proof. split; [intros n m Hm; by destruct m|done]. Qed.
Definition demoDaemon : daemon := mkDaemon (port_world calm) None demo_io.
Definition launchOne : httpRequest := requestTo "POST" ["builds"; "1"]%string "" (inr "{}"%string).
Definition stopTwo : httpRequest := requestTo "DELETE" ["instances"; "2"]%string "" (inr ""%string).
Definition launchedDaemon : daemon := (corkd demoHost launchOne (meeting calm demoDaemon)).2.
Definition stoppedDaemon : daemon := (corkd demoHost stopTwo (meeting calm launchedDaemon)).2.
Lemma port_world_unique : builds_unique (m_db (W_m (port_world calm))).
Proof.
  assert (exists r, t_builds (m_db (W_m (port_world calm))) = {[1 := r]}) as [r E] by (eexists; vm_compute; reflexivity).
  intros id1 id2 r1 r2. rewrite E. intros [<- _]%lookup_singleton_Some [<- _]%lookup_singleton_Some. done.
Qed.
Lemma demo_lives : rtc lives demoDaemon stoppedDaemon.
Proof.
  apply (rtc_l lives demoDaemon launchedDaemon); [exact (lives_request demoHost calm launchOne demoDaemon demo_orderly)|].
  apply rtc_once. exact (lives_request demoHost calm stopTwo launchedDaemon demo_orderly).
Qed.
Lemma requests_keep_tables_witness :
  rtc lives demoDaemon stoppedDaemon /\ t_portAssignments (m_db (W_m (dm_world launchedDaemon))) <> t_portAssignments (m_db (W_m (dm_world stoppedDaemon))) /\
  tables_ok (W_m (dm_world stoppedDaemon)).
Proof.
  pose proof demo_lives as Hrun.
  split; [exact Hrun|]. split; [vm_compute; discriminate|]. apply (requests_keep_tables demoDaemon stoppedDaemon (port_world_ok calm) port_world_unique Hrun).
Defined.
Lemma meeting_m o d : W_m (dm_world (meeting o d)) = W_m (dm_world d).
Proof. done. Qed.
Lemma launched_ok : tables_ok (W_m (dm_world (meeting calm launchedDaemon))).
Proof.
  rewrite meeting_m. refine (corkd_holds demoHost tables_ok (tables_unshaken _ (proj1 demo_orderly)) (keeps_serve _) launchOne (meeting calm demoDaemon) _).
  rewrite meeting_m. exact (port_world_ok calm).
Qed.
Lemma stopped_is_gone_witness : is_Some (t_instances (m_db (W_m (dm_world launchedDaemon))) !! 2) /\ cleared 2 (m_db (W_m (dm_world stoppedDaemon))).
Proof.
  split; [vm_compute; by eexists|]. destruct (corkd demoHost stopTwo (meeting calm launchedDaemon)) as [a d'] eqn:E.
  assert (stoppedDaemon = d') as -> by (unfold stoppedDaemon; by rewrite E). assert (a = Answered (mkHttpResponse 204 ∅ "")) as ->
    by (change a with (a, d').1; rewrite <- E; vm_compute; reflexivity).
  apply (stopped_is_gone demoHost "2" 2 "" (inr ""%string) (meeting calm launchedDaemon) (mkHttpResponse 204 ∅ "") d'); [reflexivity| |by split|exact E|reflexivity].
  exact launched_ok.
Defined.
